(* ===== verification/_CoqProject ===== *)
-Q . S2P
Prelude.v
PunchBreaker.v
Directory.v
Codec.v
Fronts.v
Ladder.v
Ticket.v
Replay.v
Sidecar.v
Admission.v
GoTime.v
RelayIdentity.v
Ranking.v
BrokerStore.v
Netip.v
Registration.v
BrokerServer.v
SignedList.v
Discovery.v
Telemetry.v
Outbox.v
ClientTelemetry.v
RateLimit.v
Punch.v
Tunnel.v
PunchHub.v
Classify.v
OsProxy.v
Lifecycle.v
Monitor.v
Recovery.v
SingBox.v
RelayConfig.v
Runner.v
RelayEngine.v
RelayLifecycle.v
HubProbe.v
RelayBroker.v
WSSClient.v
EventHub.v
CoreApi.v
