(* ===== verification/Prelude.v ===== *)
(** * OpenRung VPN: a verification of its Go core

    OpenRung is a censorship-circumvention VPN.  Volunteers and the foundation
    run relays; a broker keeps the directory of live relays and serves signed
    pages of it; clients discover a page, rank the relays and connect to one,
    directly, through a NAT hole punched with the relay's help, or over a CDN
    front to a WSS sidecar beside the relay, for which the broker issues
    single-use tickets.

    The development follows that path.  Every file models source files under
    src/libs or src/core and names them in its own header; definitions keep the
    source's names.

    ** Files

    - [Prelude] (this file): 64-bit integers, instants and durations, results
      and their [let?] notation, iteration over Go maps in any order
      ([MapRange]), strings as bytes, sorting, tactics and shared lemmas.
    - [Codec], [GoTime], [Netip]: what the code uses of Go's standard library:
      base64 (URL and standard), decimal integers, splitting and joining, RFC
      3339 and the calendar, IP addresses and prefixes.
    - [PunchBreaker]: connectcore/punchbreaker.go, the circuit breaker that
      decides whether a relay may be punched again.
    - [Directory]: brokerapi/relay_schema.go and the client's choice of
      candidates (connectcore/helpers.go, client/selector.go, ranker.go).
    - [Fronts]: wsscore/front.go, canonical CDN fronts.
    - [Ladder]: connectcore/engine.go, wss.go and punch.go: one pass over the
      candidates, in a monad of observable events against an environment that
      may answer anything.
    - [Ticket], [Replay], [Sidecar], [Admission]: internal/wssbridge: tickets,
      the durable journal of spent tickets, the sidecar's request handler and
      per-source accounting, and their composition.
    - [RelayIdentity]: internal/relay: identity and WSS capability proofs.
    - [Ranking], [BrokerStore]: internal/broker/ranking.go and store.go: the
      order of the directory and the in-memory store.
    - [Registration], [BrokerServer]: internal/broker/clientip.go,
      registration_cap.go, relayledger.go, server.go and wss_ticket.go: who a
      request comes from, the budget of new identities, the ledger of known
      ones, the registration, heartbeat and ticket handlers.
    - [SignedList]: internal/broker/signing.go, inventory.go and the list
      handlers, and brokerapi/signing.go: what the broker signs and what the
      client accepts.
    - [Telemetry]: internal/broker/telemetry.go: ingestion of client telemetry,
      its attestation and the bounded JSONL sink.
    - [Discovery]: brokerapi/types.go, url.go, relay.go, azure_tls.go: the
      client's race over broker fronts.
    - [Outbox], [ClientTelemetry]: connectcore/clienttelemetry/outbox.go,
      manager.go, host.go and brokerapi/telemetry.go: the client's telemetry
      queue on disk, and the session manager that fills and drains it.
    - [RateLimit]: the token buckets of internal/broker/ratelimit.go, of
      punchcore/reflector.go and of internal/tunnel/punch.go.
    - [Punch]: src/libs/punchcore: the candidates, the datagrams, the reflector
      and the attempt of NAT hole punching.
    - [Tunnel]: internal/tunnel: frames, the port allocator, and the hub of the
      reverse tunnel as a machine.
    - [PunchHub]: internal/tunnel/punch.go and internal/punch/session.go: the
      hub's rendezvous and the sessions of the two peers.
    - [OsProxy]: the engine's use of the system proxy (connectcore/engine.go)
      over the Windows controller (internal/proxymode) and the saved snapshot.
    - [Lifecycle]: connectcore/engine.go: the API calls and the goroutine of
      every connection, as one machine.
    - [Monitor]: connectcore/monitor.go, network.go, mobile.go: network epochs,
      health probing, recovery budgets and waits for the network.
    - [Recovery]: connectcore/monitor.go ([supervise], [reladder]) and engine.go
      ([connectFlow]): what the supervisor makes of a loss, and the candidates
      of a connect or a recovery.
    - [RelayConfig], [RelayEngine]: internal/relayruntime/engine/engine.go with
      relayruntime's config.go, probe.go and broker.go: the postures and the
      validation of a relay's configuration, and the engine that runs it: its
      identity, its transport, its sessions and their supervisor, as a program
      over the answers of the network that leaves a trace of effects.
    - [RelayBroker]: the composition of the relay engine with the broker's
      registration handler.
    - [RelayLifecycle]: the same engine's Start, Stop, UpdateConfig and identity
      preparation, interleaved by their critical sections.
    - [HubProbe]: internal/tunnel/probe.go: the hub's reachability prober, with
      its composition with the relay's probe.
    - [SingBox]: connectcore/client/singbox_config.go and
      singbox_split_tunnel.go, with the mobile host's part of its input
      (connectcore/mobile.go): the document the client gives to sing-box, and
      what its DNS and routing rules mean.
    - [Classify]: wsscore/failure.go and winsock.go,
      connectcore/clienttelemetry/classify.go: the taxonomies of failures over
      Go's error trees.
    - [Runner]: connectcore/client/engine.go and tunnelruntime.go: the tunnel
      process: what it leaves in its log, how it is stopped, and its
      configuration file.
    - [WSSClient]: wsscore/client.go, lifecycle.go, sessionend.go,
      websocket_conn.go: the options, the byte stream, the idle guard and the
      end of a client's WSS session.
    - [EventHub], [CoreApi]: src/core: sse.go, server.go, api.go, netwatch.go,
      tun_conflict.go, with connectcore's mode.go and dns.go: the desktop core
      behind the application: its event stream, and its loopback API with the
      settings, the watchdog and the monitor of the physical network.

    ** How code became definitions

    Pure functions are functions; a method of a mutex-protected object is a
    function on its state, so that concurrent calls are interleavings of such
    steps; errors are [result] or [option] values; a panic is an error value.
    A goroutine protocol (the sidecar's requests, the discovery race, the
    hub's tunnels, the waiting punch requests, the connections of the client
    engine) is a machine whose events the scheduler orders, and the theorems
    quantify over every admissible order.  [time.Time] is nanoseconds since the Unix epoch,
    [int] and [int64] are integers with their wrap-around written where the
    code adds.  Map iteration order, random bytes, clocks, network and disk
    answers are arguments.

    Interfaces are type classes or records: [MapRange] for map iteration,
    [GoSort] for package sort, [Float64] for floating point (instantiated with
    exact rationals where a claim needs arithmetic), [ProofVerifier] between the
    store and the proofs of package relay, [ReplayStore] between the sidecar
    and the journal, [ListJSON] between the broker's and the client's JSON,
    [EventJSON] between the outbox and its file, [OSProxy] and [SnapshotStore]
    between the engine and the system proxy, [Registry] below the Windows
    controller, [RouteEngine] and [DNSEngine] for the documented meaning of
    sing-box's rules, and [Errnos] for the error numbers of a platform.
    Ed25519, SHA-256, encoding/json, net/url and Unicode case mapping are
    parameters; a theorem that relies on them says so in a hypothesis (a
    signature verifies, a decoder inverts its encoder), and its witness
    instantiates them.

    ** What is shown

    - A ticket is spent once: no sequence of crashes, power losses and I/O
      errors makes the journal grant it twice, unless a power loss undoes a
      compaction that stopped between its rename and its directory sync, which
      is exhibited ([Replay]); the assembled sidecar never opens two sessions
      for one ticket while none does ([Admission]); its slots
      and per-source counts balance in every interleaving ([Sidecar]); a ticket
      the broker issues is for a live relay and its own front, within the
      lease, and is accepted by that relay's sidecar ([BrokerServer],
      [Ticket]).
    - A registration is what the relay's owner signed ([RelayIdentity]),
      changes exactly the rows of its endpoint ([BrokerStore]), respects
      credentials and budgets, and leaves nothing behind when refused
      ([Registration], [BrokerServer]).
    - The directory a client accepts is one the broker produced at most 35
      minutes before for that very request, and conversely every page the
      broker serves is accepted ([SignedList]); discovery ends, returns only
      verified pages, and uses the unauthenticated front last, but for a front the
      user put before the others ([Discovery]).
    - Telemetry is attributed only to relays the broker vouches for, cannot
      exhaust the broker, and never stores which applications a client used
      ([Telemetry]).  On the client it is queued in order, imported durably,
      uploaded in batches no check on the way refuses, each event once, and
      every flush ends ([Outbox], [ClientTelemetry]); two ways to lose an event
      are exhibited there.
    - The limiters grant a source its burst and rate and no more ([RateLimit]).
    - Punching: an attempt probes only what its policy admits, at a bounded
      rate, and believes only packets with the session's token; the reflector
      neither amplifies nor misreports ([Punch]); a granted punch gives both
      peers the same secret, and the relay's probes go where [PunchHub] says,
      which includes, through a hole exhibited there, any address a client
      cares to list.
    - The hub's ports, registry and client slots balance in every interleaving,
      an old session does not displace a newer one except by overtaking its
      installation, which is exhibited, and a relay's identity proof survives
      the hub ([Tunnel]).
    - Sessions of the client engine never interleave, a user's disconnect wins
      against the connection, and every cancelled connection ends
      ([Lifecycle]).  The system proxy is put back at the end of a session and
      after a crash, except in two situations that are exhibited ([OsProxy]).
    - A failover needs evidence, no change of network is lost on the way to the
      supervisor, and a mobile wait is bounded by its budget ([Monitor]); a
      recovery stays within the user's target, retries the lost relay last, and
      does not blame a relay for its CDN front ([Recovery]).
    - A foundation relay never speaks to a hub, an automatic relay registers
      directly only where a probe just succeeded, a relay says it is online
      only as what its broker or its hub accepted, gives up its processes,
      listeners and hub clients before it takes new ones, and keeps one identity
      ([RelayEngine]); what it signs its broker accepts where the operator's
      choices are within the broker's limits, and what the broker answers passes
      its checks ([RelayBroker]).  One supervisor owns the engine in every
      interleaving of calls and runs the configuration installed last, and a
      second Stop can leave a stale phase, which is exhibited
      ([RelayLifecycle]); a probe that succeeds reached the relay that asked for
      it ([HubProbe]).
    - Every document the client builds declares what its rules name, hijacks
      DNS, and keeps every flow but the bypassed ones in the tunnel; in the
      DNS shape of the mobile clients it fails over between resolvers in order,
      in the desktop's it asks the first one ([SingBox]).
    - A failure is reported under one of finitely many tokens, the same one on
      every platform; the transport's reaches telemetry unchanged, and of bare
      error numbers the two taxonomies name eight alike and the others apart,
      as declared; no text of a crash or a handshake leaves the device
      ([Classify], [Runner]).  The removal of a run's configuration is asked for
      before a stop succeeds or an exit is reported, a requested exit is no
      error, and every stop returns ([Runner]).
    - A WSS session ends for a true and stable reason, its stream is the
      concatenation of the peer's messages, and a guard ends it only when it is
      unused ([WSSClient]).
    - Who does not hold the desktop core's token learns and changes nothing; its
      settings outlive the process, unless two posts of the mode overlap, which
      is exhibited, and its network state depends on the physical adapters alone
      ([CoreApi]).  The event stream shows the engine's newest state last and
      loses no line between replay and stream, but can send one twice, and a
      client that was too slow can be left with an old state ([EventHub]).
    - The ladder never runs two tunnels, leaks nothing, reports every failed
      rung once and talks only to the endpoints it may ([Ladder]); ranking and
      filtering permute and select, nothing else ([Directory]); the punch
      breaker opens and backs off as documented ([PunchBreaker]).

    ** Bounds and fuel

    Loops over data are structural.  [Netip.parseGroups] has the fuel 8, one
    round per group of an address.  The race needs no fuel: it consumes a
    schedule, and [Discovery.race_settles] bounds the schedule it needs by 2n-1
    events.  The drains of [ClientTelemetry.Flush] take 502 rounds at most
    ([ClientTelemetry.flush_ends]).  Histories in [Replay], [BrokerStore], [Registration] and [Sidecar]
    are lists of operations of any length, as are the runs of the hub and of
    the coordinator; discovery has the four rounds of the code, and an attempt
    consumes the rounds it is given, returning at the first past its deadline.
    The runs of [Lifecycle] are event lists of any length, where a cancelled
    goroutine has at most 16 steps left; the loops of [Monitor] and [Recovery]
    consume the sweeps, wake-ups and passes they are given, and the loops of
    [RelayEngine] the ticks and rounds; a probe has the three attempts of the
    code, a registration its three tries.

    ** Not modelled

    The WinUI application (src/app), the desktop core's process, HTTP server and
    Windows adapter calls, sing-box itself,
    the TLS transports and CDN-specific dialing, QUIC and yamux sessions and the
    bridges over them, the Postgres stores and queries, the admin dashboard,
    GeoIP lookups, the macOS proxy controller, command line programs and
    logging.  These are input and output, third-party code or presentation. *)
From stdpp Require Import base decidable list list_numbers gmap strings sorting.
From Stdlib Require Import ZArith Lia.

#[global] Open Scope Z_scope.

(** * Machine integers

    Go's [int] and [int64] (64-bit targets) are [Z] with the wrap-around of a
    two's complement 64-bit addition written out where the source adds. *)
Definition int64_min : Z := - 2 ^ 63.
Definition int64_max : Z := 2 ^ 63 - 1.
Definition wrap64 (z : Z) : Z := (z + 2 ^ 63) mod 2 ^ 64 - 2 ^ 63.
Definition in_int64 (z : Z) : Prop := int64_min ≤ z ≤ int64_max.

Lemma wrap64_id z : in_int64 z → wrap64 z = z.
Proof.
  unfold in_int64, wrap64, int64_min, int64_max. intros H.
  rewrite Z.mod_small; lia.
Qed.

Lemma wrap64_range z : in_int64 (wrap64 z).
Proof.
  unfold in_int64, wrap64, int64_min, int64_max.
  pose proof (Z.mod_pos_bound (z + 2 ^ 63) (2 ^ 64) eq_refl). lia.
Qed.

Lemma wrap64_add_l a b : wrap64 (wrap64 a + b) = wrap64 (a + b).
Proof.
  unfold wrap64. replace ((a + 2 ^ 63) mod 2 ^ 64 - 2 ^ 63 + b + 2 ^ 63)
    with ((a + 2 ^ 63) mod 2 ^ 64 + b) by lia.
  rewrite Zplus_mod_idemp_l. by replace (a + 2 ^ 63 + b) with (a + b + 2 ^ 63) by lia.
Qed.

(** * Time

    [time.Time] is the number of nanoseconds since the Unix epoch and
    [time.Duration] a 64-bit number of nanoseconds.  The zero [time.Time] is
    0001-01-01T00:00:00Z. *)
Definition nanosecond : Z := 1.
Definition millisecond : Z := 1000000.
Definition second : Z := 1000 * millisecond.
Definition minute : Z := 60 * second.
Definition hour : Z := 60 * minute.
Definition zero_time : Z := -62135596800 * second.

(** [t.Sub(u)] saturates at the bounds of [time.Duration]. *)
Definition time_sub (t u : Z) : Z := Z.max int64_min (Z.min int64_max (t - u)).

(** [t.Add(d)], [t.After(u)], [t.Before(u)], [t.IsZero()]. *)
Definition time_add (t d : Z) : Z := t + d.
Definition time_after (t u : Z) : bool := u <? t.
Definition time_before (t u : Z) : bool := t <? u.
Definition time_is_zero (t : Z) : bool := t =? zero_time.

(** [t.UnixNano()] and [t.UnixMilli()]. *)
Definition unix_nano (t : Z) : Z := wrap64 t.
Definition unix_milli (t : Z) : Z := wrap64 (t / millisecond).

(** [d.Milliseconds()] truncates toward zero. *)
Definition milliseconds (d : Z) : Z := Z.quot d millisecond.

Lemma time_sub_pos t u : 0 ≤ t - u → 0 ≤ time_sub t u ≤ t - u.
Proof. unfold time_sub, int64_min, int64_max. lia. Qed.

(** * Results

    A function that returns a value and an [error] is a [result]. *)
Inductive result (E A : Type) : Type :=
| Ok (a : A)
| Err (e : E).
Arguments Ok {E A} a.
Arguments Err {E A} e.

#[global] Instance result_eq_dec {E A} `{EqDecision E, EqDecision A} : EqDecision (result E A).
Proof. solve_decision. Defined.

Declare Scope go_scope.
Delimit Scope go_scope with go.
#[global] Open Scope go_scope.

Notation "'let?' x ':=' c 'in' k" :=
  (match c with Ok x => k | Err e => Err e end)
  (at level 10, x pattern, c at level 200, k at level 200) : go_scope.

Definition is_ok {E A} (r : result E A) : bool :=
  match r with Ok _ => true | Err _ => false end.

(** * Iteration over a Go map

    The order of [for k, v := range m] is not specified.  [MapRange] is any
    enumeration of the entries; theorems that assume only this class hold for
    every order the runtime may pick, and [map_to_list_range] makes the
    definitions executable. *)
Class MapRange (K V : Type) `{Countable K} := {
  map_range : gmap K V → list (K * V);
  map_range_perm m : map_range m ≡ₚ map_to_list m
}.
#[global] Hint Mode MapRange ! ! - - : typeclass_instances.

Definition map_to_list_range {K V} `{Countable K} : MapRange K V :=
  {| map_range := map_to_list; map_range_perm m := reflexivity _ |}.

Section map_range.
Context {K V : Type} `{Countable K, !MapRange K V}.
Implicit Types (m : gmap K V).

Lemma elem_of_map_range m k v : (k, v) ∈ map_range m ↔ m !! k = Some v.
Proof. rewrite map_range_perm. apply elem_of_map_to_list. Qed.

Lemma NoDup_map_range_fst m : NoDup (map_range m).*1.
Proof. rewrite map_range_perm. apply NoDup_fst_map_to_list. Qed.

Lemma length_map_range m : length (map_range m) = size m.
Proof. rewrite map_range_perm. apply length_map_to_list. Qed.
End map_range.

(** * Strings

    A Go string is its bytes.  [TrimSpace] removes leading and trailing Unicode
    white space: the six ASCII blanks and the UTF-8 encodings of U+0085, U+00A0,
    U+1680, U+2000..U+200A, U+2028, U+2029, U+202F, U+205F and U+3000. *)
Definition byte_of (a : Ascii.ascii) : N := Ascii.N_of_ascii a.

Definition space1 (a : Ascii.ascii) : bool :=
  let n := byte_of a in ((9 <=? n) && (n <=? 13) || (n =? 32))%N.
Definition space2 (a b : Ascii.ascii) : bool :=
  (byte_of a =? 194)%N && ((byte_of b =? 133)%N || (byte_of b =? 160)%N).
Definition space3 (a b c : Ascii.ascii) : bool :=
  let x := byte_of a in let y := byte_of b in let z := byte_of c in
  ((x =? 225) && (y =? 154) && (z =? 128)
   || (x =? 226) && (y =? 128) &&
      ((128 <=? z) && (z <=? 138) || (z =? 168) || (z =? 169) || (z =? 175))
   || (x =? 226) && (y =? 129) && (z =? 159)
   || (x =? 227) && (y =? 128) && (z =? 128))%N.

Fixpoint trimLeft (s : list Ascii.ascii) : list Ascii.ascii :=
  match s with
  | [] => []
  | a :: s1 =>
      if space1 a then trimLeft s1 else
      match s1 with
      | [] => s
      | b :: s2 =>
          if space2 a b then trimLeft s2 else
          match s2 with
          | [] => s
          | c :: s3 => if space3 a b c then trimLeft s3 else s
          end
      end
  end.

(** The same on the reversed list, for the trailing blanks. *)
Fixpoint trimLeftRev (s : list Ascii.ascii) : list Ascii.ascii :=
  match s with
  | [] => []
  | a :: s1 =>
      if space1 a then trimLeftRev s1 else
      match s1 with
      | [] => s
      | b :: s2 =>
          if space2 b a then trimLeftRev s2 else
          match s2 with
          | [] => s
          | c :: s3 => if space3 c b a then trimLeftRev s3 else s
          end
      end
  end.

Definition TrimSpace (s : string) : string :=
  String.string_of_list_ascii
    (rev (trimLeftRev (rev (trimLeft (String.list_ascii_of_string s))))).

Definition str_empty (s : string) : bool := bool_decide (s = ""%string).
Definition str_eqb (s t : string) : bool := bool_decide (s = t).

Lemma str_eqb_true s t : str_eqb s t = true ↔ s = t.
Proof. apply bool_decide_eq_true. Qed.

(** * Sorting

    [sort.SliceStable] and [sort.Slice] reorder a slice by a [less] function;
    the stable sort of a strict weak order is unique, and is this insertion
    sort. *)
Section sorting.
Context {A : Type} (less : A → A → bool).

Fixpoint sort_insert (x : A) (l : list A) : list A :=
  match l with
  | [] => [x]
  | y :: l' => if less y x then y :: sort_insert x l' else x :: l
  end.

Definition stable_sort (l : list A) : list A := foldr sort_insert [] l.

Lemma sort_insert_perm x l : sort_insert x l ≡ₚ x :: l.
Proof.
  induction l as [|y l IH]; simpl; [done|].
  case_match; [|done]. rewrite IH. constructor.
Qed.

Lemma stable_sort_perm l : stable_sort l ≡ₚ l.
Proof. induction l as [|x l IH]; simpl; [done|]. by rewrite sort_insert_perm, IH. Qed.

Lemma length_stable_sort l : length (stable_sort l) = length l.
Proof. by rewrite stable_sort_perm. Qed.

Lemma elem_of_stable_sort x l : x ∈ stable_sort l ↔ x ∈ l.
Proof. by rewrite stable_sort_perm. Qed.

Context (less_asym : ∀ x y, less x y = true → less y x = false).
Context (less_cotrans : ∀ x y z, less x z = true → less x y = true ∨ less y z = true).

Lemma sort_insert_sorted x l :
  StronglySorted (λ a b, less b a = false) l →
  StronglySorted (λ a b, less b a = false) (sort_insert x l).
Proof.
  induction 1 as [|y l Hl IH Hy]; simpl; [repeat constructor|].
  destruct (less y x) eqn:E.
  - constructor; [done|]. rewrite Forall_forall. intros z Hz.
    rewrite sort_insert_perm, elem_of_cons in Hz. destruct Hz as [->|Hz]; [by apply less_asym|].
    by eapply (proj1 (Forall_forall _ _) Hy).
  - constructor; [by constructor|]. rewrite Forall_forall. intros z Hz.
    rewrite elem_of_cons in Hz. destruct Hz as [->|Hz]; [done|].
    apply (proj1 (Forall_forall _ _) Hy) in Hz.
    destruct (less z x) eqn:E2; [|done].
    destruct (less_cotrans z y x E2); congruence.
Qed.

Lemma stable_sort_sorted l : StronglySorted (λ a b, less b a = false) (stable_sort l).
Proof. induction l; simpl; [constructor|]. by apply sort_insert_sorted. Qed.

Lemma sort_insert_head x l :
  Forall (λ y, less y x = false) l → sort_insert x l = x :: l.
Proof. destruct 1 as [|y l H]; simpl; [done|]. by rewrite H. Qed.

(** A list that is already in order is left alone. *)
Lemma stable_sort_id l :
  StronglySorted (λ a b, less b a = false) l → stable_sort l = l.
Proof.
  induction 1 as [|x l Hl IH Hx]; simpl; [done|].
  rewrite IH. by apply sort_insert_head.
Qed.
End sorting.

(** Go compares strings bytewise, as [String.compare] does. *)
Lemma str_ltb_leb s t : String.ltb s t = negb (String.leb t s).
Proof.
  unfold String.ltb, String.leb. rewrite (String.compare_antisym t s).
  by destruct (String.compare s t).
Qed.

Lemma str_leb_trans s t u : String.leb s t = true → String.leb t u = true → String.leb s u = true.
Proof.
  intros H1%Is_true_true H2%Is_true_true. apply Is_true_true.
  exact (transitivity (R := String.le) H1 H2).
Qed.

Lemma str_leb_antisym s t : String.leb s t = true → String.leb t s = true → s = t.
Proof.
  intros H1%Is_true_true H2%Is_true_true. exact (anti_symm String.le s t H1 H2).
Qed.

Lemma str_leb_total s t : String.leb s t = true ∨ String.leb t s = true.
Proof. rewrite <- !Is_true_true. apply (total String.le). Qed.

Lemma str_ltb_asym s t : String.ltb s t = true → String.ltb t s = false.
Proof. rewrite !str_ltb_leb. destruct (str_leb_total s t) as [-> | ->]; simpl; [done|]. by destruct (String.leb s t). Qed.

Lemma str_ltb_cotrans s t u :
  String.ltb s u = true → String.ltb s t = true ∨ String.ltb t u = true.
Proof.
  rewrite !str_ltb_leb. intros H.
  destruct (String.leb t s) eqn:E1; [|by left]. destruct (String.leb u t) eqn:E2; [|by right].
  by rewrite (str_leb_trans u t s E2 E1) in H.
Qed.

(** * Lists *)
Section list_facts.
Context {A : Type}.

Lemma filter_bool_split (f : A → bool) (l : list A) :
  List.filter f l ++ List.filter (λ x, negb (f x)) l ≡ₚ l.
Proof.
  induction l as [|x l IH]; simpl; [done|].
  destruct (f x); simpl; [by rewrite IH|].
  by rewrite <- Permutation_middle, IH.
Qed.

Lemma elem_of_filter_bool (f : A → bool) (l : list A) x :
  x ∈ List.filter f l ↔ x ∈ l ∧ f x = true.
Proof. rewrite !list_elem_of_In. apply filter_In. Qed.

Lemma filter_bool_sublist (f : A → bool) (l : list A) : List.filter f l `sublist_of` l.
Proof. induction l; simpl; [constructor|]. case_match; by constructor. Qed.

Lemma filter_bool_all (f : A → bool) (l : list A) :
  (∀ x, x ∈ l → f x = true) → List.filter f l = l.
Proof.
  induction l as [|x l IH]; simpl; intros H; [done|].
  rewrite H by left. f_equal. apply IH. intros y Hy. apply H. by right.
Qed.

Lemma filter_bool_none (f : A → bool) (l : list A) :
  (∀ x, x ∈ l → f x = false) → List.filter f l = [].
Proof.
  induction l as [|x l IH]; simpl; intros H; [done|].
  rewrite H by left. apply IH. intros y Hy. apply H. by right.
Qed.

(** Selecting by index, in index order, is filtering. *)
Lemma omap_lookup_filter_aux (f : A → bool) (pre l : list A) :
  omap (λ i, (pre ++ l) !! i)
    (List.filter (λ i, match (pre ++ l) !! i with Some x => f x | None => false end)
       (seq (length pre) (length l))) = List.filter f l.
Proof.
  revert pre. induction l as [|x l IH]; intros pre; simpl; [done|].
  rewrite list_lookup_middle by done.
  specialize (IH (pre ++ [x])). rewrite length_app, Nat.add_1_r, <- app_assoc in IH.
  simpl in IH. destruct (f x); simpl; [|done].
  rewrite list_lookup_middle by done. by f_equal.
Qed.

Lemma omap_lookup_filter (f : A → bool) (l : list A) :
  omap (λ i, l !! i)
    (List.filter (λ i, match l !! i with Some x => f x | None => false end)
       (seq 0 (length l))) = List.filter f l.
Proof. apply (omap_lookup_filter_aux f []). Qed.

Lemma filter_bool_perm (f : A → bool) (l k : list A) : l ≡ₚ k → List.filter f l ≡ₚ List.filter f k.
Proof. induction 1; cbn; repeat case_match; (done || by constructor || by etrans). Qed.

(** The last [n] elements. *)
Definition lastN (n : nat) (l : list A) : list A := drop (length l - n) l.

Lemma length_lastN n (l : list A) : (length (lastN n l) ≤ n)%nat.
Proof. unfold lastN. rewrite length_drop. lia. Qed.

Lemma lastN_app n (l k : list A) : lastN n (lastN n l ++ k) = lastN n (l ++ k).
Proof.
  unfold lastN. rewrite !length_app, length_drop. destruct (decide (length l ≤ n)%nat) as [Hl|Hl].
  { replace (length l - n)%nat with 0%nat by lia. cbn [drop]. f_equal. lia. }
  replace (length l - (length l - n))%nat with n by lia.
  replace (length l + length k - n)%nat with ((length l - n) + length k)%nat by lia.
  rewrite <- (drop_drop (l ++ k) (length k) (length l - n)), (drop_app_le l k) by lia.
  by replace (n + length k - n)%nat with (length k) by lia.
Qed.

Lemma lastN_lastN n m (l : list A) : (n ≤ m)%nat → lastN n (lastN m l) = lastN n l.
Proof. intros H. unfold lastN. rewrite drop_drop, length_drop. f_equal. lia. Qed.

Lemma omap_perm {B} (f : A → option B) (l k : list A) : l ≡ₚ k → omap f l ≡ₚ omap f k.
Proof.
  induction 1; simpl; repeat case_match; eauto using Permutation.
Qed.

Lemma StronglySorted_filter_bool (R : relation A) (f : A → bool) l :
  StronglySorted R l → StronglySorted R (List.filter f l).
Proof.
  induction 1 as [|x l Hl IH Hx]; simpl; [constructor|].
  case_match; [|done]. constructor; [done|].
  rewrite Forall_forall in Hx |- *. intros y [Hy _]%elem_of_filter_bool. eauto.
Qed.

Lemma StronglySorted_weaken (R S : relation A) l :
  (∀ x y, x ∈ l → y ∈ l → R x y → S x y) → StronglySorted R l → StronglySorted S l.
Proof.
  intros HRS Hl. revert HRS. induction Hl as [|x l Hl IH Hx]; intros HRS; constructor.
  - apply IH. intros y z Hy Hz. apply HRS; by right.
  - rewrite Forall_forall in Hx |- *. intros y Hy. apply HRS; [left|by right|eauto].
Qed.
End list_facts.

Lemma seq_StronglySorted i n : StronglySorted lt (seq i n).
Proof.
  revert i. induction n as [|n IH]; intros i; simpl; constructor; [done|].
  rewrite Forall_forall. intros x Hx%elem_of_seq. lia.
Qed.

(** A boolean check of finitely many integers, run by evaluation. *)
Fixpoint allBelow (fuel : nat) (n : Z) (f : Z → bool) : bool :=
  match fuel with
  | O => true
  | S fuel' => f n && allBelow fuel' (n + 1) f
  end.

Lemma allBelow_spec fuel n f z :
  allBelow fuel n f = true → n ≤ z < n + Z.of_nat fuel → f z = true.
Proof.
  revert n. induction fuel as [|fuel IH]; intros n; [lia|].
  simpl. intros [Hn Hr]%andb_prop Hz.
  destruct (decide (z = n)) as [->|]; [done|]. apply (IH (n + 1)); [done|lia].
Qed.

(** * Tactics and hints *)
Create HintDb go discriminated.
#[export] Hint Resolve wrap64_range : go.

(** Split every [match], [if] and [decide] of the goal, clean up, and try the
    arithmetic that is left. *)
Ltac go_cases :=
  repeat (first [case_match | case_decide]; simplify_eq/=).

(** Case on every integer comparison, then linear arithmetic. *)
Ltac cmp_cases :=
  repeat match goal with
  | H : context [Z.eqb ?a ?b] |- _ => destruct (Z.eqb_spec a b)
  | H : context [Z.ltb ?a ?b] |- _ => destruct (Z.ltb_spec a b)
  | H : context [Z.leb ?a ?b] |- _ => destruct (Z.leb_spec a b)
  | H : context [Nat.eqb ?a ?b] |- _ => destruct (Nat.eqb_spec a b)
  | H : context [Nat.ltb ?a ?b] |- _ => destruct (Nat.ltb_spec a b)
  | H : context [Nat.leb ?a ?b] |- _ => destruct (Nat.leb_spec a b)
  | |- context [Z.eqb ?a ?b] => destruct (Z.eqb_spec a b)
  | |- context [Z.ltb ?a ?b] => destruct (Z.ltb_spec a b)
  | |- context [Z.leb ?a ?b] => destruct (Z.leb_spec a b)
  | |- context [Nat.eqb ?a ?b] => destruct (Nat.eqb_spec a b)
  | |- context [Nat.ltb ?a ?b] => destruct (Nat.ltb_spec a b)
  | |- context [Nat.leb ?a ?b] => destruct (Nat.leb_spec a b)
  end; simpl in *.
Ltac cmp_lia := cmp_cases; try done; lia.
Ltac go_solve := go_cases; try done; try lia; eauto with go.
