(* ===== verification/PunchBreaker.v ===== *)
(** The punch recovery circuit breaker
    (src/libs/connectcore/punchbreaker.go).

    One breaker lives for one connection.  Per relay it keeps the streak of
    rapid failures, the time of the last promotion and the open flag.  The file
    translates every operation, and shows that the open flag is exactly "the
    counted losses since the last stable path reached the threshold", that
    relays do not interfere, and that every recovery delay is bounded. *)
From stdpp Require Import base list gmap strings.
From Stdlib Require Import ZArith Lia.
From S2P Require Import Prelude.

Definition punchStablePath : Z := 5 * minute.
Definition punchMaxRapidFailures : Z := 3.
Definition punchInitialBackoff : Z := 2 * second.
Definition punchMaxBackoff : Z := 30 * second.
Definition punchJitterDivisor : Z := 5.

Record punchRecoveryDecision := PunchRecoveryDecision {
  useRelayHub : bool;
  delay : Z;
  decRapidFailures : Z;
  directUptime : Z;
  counted : bool
}.

(** [pickJitteredDelay] is [None] for Go's nil function. *)
Record punchBreakerConfig := PunchBreakerConfig {
  stablePath : Z;
  maxRapid : Z;
  initialBackoff : Z;
  maxBackoff : Z;
  pickJitteredDelay : option (Z → Z → Z)
}.

Record punchRelayState := PunchRelayState {
  rapidFailures : Z;
  connectedAt : Z;
  hasConnectedAt : bool;
  open : bool
}.

(** The relays map; its nil value is the empty map. *)
Record punchRecoveryBreaker := PunchRecoveryBreaker {
  config : punchBreakerConfig;
  relays : gmap string punchRelayState
}.

Section breaker.
(** [rand.Int63n]: a source of randomness, with its documented range. *)
Context (Int63n : Z → Z).

Definition defaultPick (min max : Z) : Z :=
  if max <=? min then min else wrap64 (min + Int63n (wrap64 (max - min + 1))).

Definition withDefaults (c : punchBreakerConfig) : punchBreakerConfig :=
  let initial := if initialBackoff c <=? 0 then punchInitialBackoff else initialBackoff c in
  {| stablePath := if stablePath c <=? 0 then punchStablePath else stablePath c;
     maxRapid := if maxRapid c <=? 0 then punchMaxRapidFailures else maxRapid c;
     initialBackoff := initial;
     maxBackoff := if maxBackoff c <? initial then punchMaxBackoff else maxBackoff c;
     pickJitteredDelay := Some (default defaultPick (pickJitteredDelay c)) |}.

(** One turn of the doubling loop of [backoffDelay]. *)
Definition nextNominal (maxB nominal : Z) : Z :=
  if Z.quot maxB 2 <=? nominal then maxB
  else
    let doubled := wrap64 (nominal * 2) in
    if maxB <? doubled then maxB else doubled.

(** [for i := 1; i < failureCount; i++] *)
Definition nominalBackoff (c : punchBreakerConfig) (failureCount : Z) : Z :=
  Nat.iter (Z.to_nat (failureCount - 1)) (nextNominal (maxBackoff c)) (initialBackoff c).

(** The method is only called on a config that [withDefaults] returned, whose
    function is never nil; the [None] branch is Go's nil call panic. *)
Definition backoffDelay (c : punchBreakerConfig) (failureCount : Z) : option Z :=
  let nominal := nominalBackoff c failureCount in
  let jitter := Z.quot nominal punchJitterDivisor in
  let min := nominal - jitter in
  let min := if min <? 1 then 1 else min in
  let max := wrap64 (nominal + jitter) in
  let max := if maxBackoff c <? max then maxBackoff c else max in
  match pickJitteredDelay c with
  | None => None
  | Some pick =>
      let d := pick min max in
      let d := if d <? min then min else d in
      let d := if max <? d then max else d in
      Some d
  end.

Definition emptyRelayState : punchRelayState :=
  {| rapidFailures := 0; connectedAt := zero_time; hasConnectedAt := false; open := false |}.

(** [stateLocked] returns a pointer into the map; callers write the updated
    state back under the same key, so the pair is a lookup and an insert. *)
Definition stateLocked (b : punchRecoveryBreaker) (relayID : string) : punchRelayState :=
  default emptyRelayState (relays b !! relayID).

Definition storeState (b : punchRecoveryBreaker) (relayID : string)
    (st : punchRelayState) : punchRecoveryBreaker :=
  {| config := config b; relays := <[relayID := st]> (relays b) |}.

Definition markDirectConnected (b : punchRecoveryBreaker) (relayID : string)
    (now : Z) : punchRecoveryBreaker :=
  if bool_decide (relayID = ""%string) then b
  else
    let st := stateLocked b relayID in
    storeState b relayID
      {| rapidFailures := rapidFailures st; connectedAt := now;
         hasConnectedAt := true; open := open st |}.

Definition allowsDirectPunch (b : punchRecoveryBreaker) (relayID : string) : bool :=
  match relays b !! relayID with
  | None => true
  | Some st => negb (open st)
  end.

(** The uptime of the lost path: zero with no promotion on record or with a
    clock that went backwards. *)
Definition lostUptime (st : punchRelayState) (now : Z) : Z :=
  if hasConnectedAt st && time_after now (connectedAt st)
  then time_sub now (connectedAt st) else 0.

Definition onDirectPathLost (b : punchRecoveryBreaker) (relayID : string)
    (now : Z) (countTowardBreaker : bool)
    : option (punchRecoveryBreaker * punchRecoveryDecision) :=
  let c := withDefaults (config b) in
  let st := stateLocked b relayID in
  let uptime := lostUptime st now in
  let stable := stablePath c <=? uptime in
  let failures := if stable then 0 else rapidFailures st in
  let isOpen := if stable then false else open st in
  if negb countTowardBreaker then
    Some (storeState b relayID
            {| rapidFailures := failures; connectedAt := connectedAt st;
               hasConnectedAt := false; open := isOpen |},
          {| useRelayHub := false; delay := 0; decRapidFailures := failures;
             directUptime := uptime; counted := false |})
  else
    let failures := failures + 1 in
    match backoffDelay c failures with
    | None => None
    | Some d =>
        let trip := maxRapid c <=? failures in
        Some (storeState b relayID
                {| rapidFailures := failures; connectedAt := connectedAt st;
                   hasConnectedAt := false; open := if trip then true else isOpen |},
              {| useRelayHub := trip; delay := d; decRapidFailures := failures;
                 directUptime := uptime; counted := true |})
    end.

(** * Runs of a breaker *)
Inductive op :=
| Connected (relayID : string) (now : Z)
| PathLost (relayID : string) (now : Z) (countToward : bool).

Definition step (b : punchRecoveryBreaker) (o : op) : option punchRecoveryBreaker :=
  match o with
  | Connected r t => Some (markDirectConnected b r t)
  | PathLost r t k => fst <$> onDirectPathLost b r t k
  end.

Fixpoint run (b : punchRecoveryBreaker) (ops : list op) : option punchRecoveryBreaker :=
  match ops with
  | [] => Some b
  | o :: ops => b' ← step b o; run b' ops
  end.

Definition newBreaker (c : punchBreakerConfig) : punchRecoveryBreaker :=
  {| config := c; relays := ∅ |}.

(** * The abstract breaker

    What a relay's history of promotions and losses means, with no flag: the
    losses of the relay, each with the uptime of the lost path. *)
Fixpoint losses (r : string) (conn : option Z) (ops : list op) : list (Z * bool) :=
  match ops with
  | [] => []
  | Connected r' t :: ops =>
      if bool_decide (r' = r ∧ r' ≠ ""%string) then losses r (Some t) ops
      else losses r conn ops
  | PathLost r' t k :: ops =>
      if bool_decide (r' = r) then
        (match conn with
         | Some t0 => if t0 <? t then time_sub t t0 else 0
         | None => 0
         end, k) :: losses r None ops
      else losses r conn ops
  end.

(** The losses that still matter: those from the last stable path on (that one
    included), or all of them when no path was ever stable. *)
Fixpoint sinceStable (stable : Z) (l : list (Z * bool)) : list (Z * bool) :=
  match l with
  | [] => []
  | (u, k) :: l' =>
      if existsb (λ x, stable <=? x.1) l' then sinceStable stable l'
      else (u, k) :: l'
  end.

Definition countedLosses (l : list (Z * bool)) : Z :=
  Z.of_nat (length (List.filter snd l)).

Definition circuitOpen (c : punchBreakerConfig) (l : list (Z * bool)) : bool :=
  maxRapid c <=? countedLosses (sinceStable (stablePath c) l).

(** * Lemmas *)
#[local] Arguments withDefaults : simpl never.
#[local] Arguments backoffDelay : simpl never.

Lemma withDefaults_pos c :
  0 < stablePath (withDefaults c) ∧ 0 < maxRapid (withDefaults c) ∧
  0 < initialBackoff (withDefaults c) ∧ 0 < maxBackoff (withDefaults c).
Proof.
  unfold withDefaults, punchStablePath, punchMaxRapidFailures,
    punchInitialBackoff, punchMaxBackoff, minute, second, millisecond; simpl.
  repeat case_match; lia.
Qed.

Lemma backoffDelay_withDefaults c n : is_Some (backoffDelay (withDefaults c) n).
Proof. unfold backoffDelay, withDefaults. simpl. eauto. Qed.

Lemma onDirectPathLost_is_Some b r t k : is_Some (onDirectPathLost b r t k).
Proof.
  unfold onDirectPathLost. case_match; [eauto|].
  match goal with |- context [backoffDelay _ ?n] =>
    destruct (backoffDelay_withDefaults (config b) n) as [d ->] end.
  eauto.
Qed.

(** The state a loss leaves behind, whatever delay was drawn. *)
Definition lostState (c : punchBreakerConfig) (st : punchRelayState) (now : Z)
    (k : bool) : punchRelayState :=
  let stable := stablePath c <=? lostUptime st now in
  let failures := (if stable then 0 else rapidFailures st) + (if k then 1 else 0) in
  {| rapidFailures := failures; connectedAt := connectedAt st; hasConnectedAt := false;
     open := (k && (maxRapid c <=? failures)) || (if stable then false else open st) |}.

Lemma step_lost b r t k :
  step b (PathLost r t k) =
    Some (storeState b r (lostState (withDefaults (config b)) (stateLocked b r) t k)).
Proof.
  unfold step, onDirectPathLost, lostState.
  destruct k; simpl; [|by rewrite Z.add_0_r].
  by do 3 f_equal.
Qed.

Lemma step_total b o : ∃ b', step b o = Some b' ∧ config b' = config b.
Proof.
  destruct o as [r t|r t k]; [|by rewrite step_lost; eauto].
  eexists; split; [done|]. unfold markDirectConnected. by case_match.
Qed.

Lemma stateLocked_storeState b r r' st :
  stateLocked (storeState b r st) r' = if decide (r = r') then st else stateLocked b r'.
Proof.
  unfold stateLocked, storeState; simpl. case_decide; simplify_map_eq; done.
Qed.

Lemma allowsDirectPunch_stateLocked b r :
  allowsDirectPunch b r = negb (open (stateLocked b r)).
Proof. unfold allowsDirectPunch, stateLocked. by destruct (relays b !! r). Qed.

(** What the concrete state says of a relay whose losses so far are [l] and
    whose pending promotion is [conn]. *)
Definition tracks (c : punchBreakerConfig) (st : punchRelayState)
    (l : list (Z * bool)) (conn : option Z) : Prop :=
  rapidFailures st = countedLosses (sinceStable (stablePath c) l) ∧
  open st = circuitOpen c l ∧
  (if hasConnectedAt st then Some (connectedAt st) else None) = conn.

Lemma sinceStable_snoc stable l u k :
  sinceStable stable (l ++ [(u, k)]) =
    (if stable <=? u then [] else sinceStable stable l) ++ [(u, k)].
Proof.
  induction l as [|[u' k'] l IH]; simpl.
  - by case_match.
  - rewrite existsb_app, IH. simpl. rewrite orb_false_r.
    destruct (stable <=? u); rewrite ?orb_true_r, ?orb_false_r; [done|].
    by case_match.
Qed.

Lemma countedLosses_snoc l u k :
  countedLosses (l ++ [(u, k)]) = countedLosses l + (if k then 1 else 0).
Proof.
  unfold countedLosses. rewrite List.filter_app, length_app. simpl.
  destruct k; simpl; lia.
Qed.

Lemma lostUptime_conn st t :
  lostUptime st t =
    match (if hasConnectedAt st then Some (connectedAt st) else None) with
    | Some t0 => if t0 <? t then time_sub t t0 else 0
    | None => 0
    end.
Proof. unfold lostUptime, time_after. by destruct (hasConnectedAt st). Qed.

Lemma circuitOpen_nil c : 0 < maxRapid c → circuitOpen c [] = false.
Proof. unfold circuitOpen, countedLosses. simpl. rewrite Nat2Z.inj_0. lia. Qed.

Lemma tracks_lost c st l conn t k :
  0 < maxRapid c → tracks c st l conn →
  tracks c (lostState c st t k)
    (l ++ [(match conn with Some t0 => if t0 <? t then time_sub t t0 else 0
            | None => 0 end, k)]) None.
Proof.
  intros Hpos (Hf & Ho & Hc). unfold tracks, circuitOpen, lostState; simpl.
  rewrite lostUptime_conn, Hc, sinceStable_snoc.
  generalize (match conn with Some t0 => if t0 <? t then time_sub t t0 else 0
              | None => 0 end); intros u.
  rewrite Ho, Hf. unfold circuitOpen.
  destruct (stablePath c <=? u); rewrite countedLosses_snoc;
    repeat split; unfold countedLosses; simpl; destruct k; simpl;
    rewrite ?orb_false_r, ?Z.add_0_r, ?Nat2Z.inj_0; done || lia.
Qed.

Lemma tracks_connected c b r r' t l conn :
  tracks c (stateLocked b r) l conn →
  tracks c (stateLocked (markDirectConnected b r' t) r) l
    (if bool_decide (r' = r ∧ r' ≠ ""%string) then Some t else conn).
Proof.
  intros (Hf & Ho & Hc). unfold markDirectConnected.
  destruct (decide (r' = ""%string)) as [->|Hne].
  - rewrite bool_decide_true, bool_decide_false by naive_solver. by repeat split.
  - rewrite bool_decide_false by done. rewrite stateLocked_storeState.
    destruct (decide (r' = r)) as [->|Hr].
    + rewrite bool_decide_true by done. by repeat split.
    + rewrite bool_decide_false by naive_solver. by repeat split.
Qed.

Lemma tracks_run c b r ops l conn b' :
  withDefaults (config b) = c → tracks c (stateLocked b r) l conn →
  run b ops = Some b' →
  ∃ conn', tracks c (stateLocked b' r) (l ++ losses r conn ops) conn'.
Proof.
  revert b l conn. induction ops as [|o ops IH]; intros b l conn Hc Ht Hrun; simpl in *.
  { injection Hrun as <-. rewrite app_nil_r. eauto. }
  destruct (step_total b o) as (b1 & Hstep & Hcfg).
  rewrite Hstep in Hrun; simpl in Hrun. rewrite <- Hcfg in Hc.
  destruct o as [r' t|r' t k].
  - simpl in Hstep. injection Hstep as <-.
    apply (tracks_connected c b r r' t) in Ht.
    destruct (bool_decide (r' = r ∧ r' ≠ ""%string)); eauto.
  - rewrite step_lost in Hstep. injection Hstep as <-.
    destruct (decide (r' = r)) as [->|Hr].
    + rewrite bool_decide_true, cons_middle, app_assoc by done.
      eapply IH; [done| |done].
      rewrite stateLocked_storeState, decide_True by done.
      rewrite Hcfg in Hc. rewrite Hc.
      apply tracks_lost; [rewrite <- Hc; apply withDefaults_pos|done].
    + rewrite bool_decide_false by done. eapply IH; [done| |done].
      by rewrite stateLocked_storeState, decide_False by done.
Qed.

Lemma nextNominal_closed maxB n :
  0 < n → 0 < maxB ≤ int64_max →
  nextNominal maxB n = if n <? Z.quot maxB 2 then 2 * n else maxB.
Proof.
  unfold nextNominal. intros Hn Hm.
  rewrite Z.quot_div_nonneg by lia.
  pose proof (Z.mul_div_le maxB 2 eq_refl).
  destruct (Z.leb_spec (maxB / 2) n), (Z.ltb_spec n (maxB / 2)); try lia.
  rewrite wrap64_id by (unfold in_int64, int64_min, int64_max in *; lia).
  destruct (Z.ltb_spec maxB (n * 2)); lia.
Qed.

(** The value of the loop variable after [k] turns. *)
Lemma nominal_iter maxB init k :
  0 < init → 0 < maxB ≤ int64_max → init ≤ maxB →
  Nat.iter (S k) (nextNominal maxB) init =
    if init * 2 ^ Z.of_nat k <? Z.quot maxB 2 then init * 2 ^ Z.of_nat (S k) else maxB.
Proof.
  intros Hi Hm Hle. rewrite Z.quot_div_nonneg by lia.
  pose proof (Z.mul_div_le maxB 2 eq_refl) as Hdiv.
  induction k as [|k IH].
  { simpl. rewrite nextNominal_closed, Z.quot_div_nonneg by lia.
    change (2 ^ Z.of_nat 1) with 2. rewrite Z.mul_1_r. case_match; lia. }
  change (Nat.iter (S (S k)) (nextNominal maxB) init) with
    (nextNominal maxB (Nat.iter (S k) (nextNominal maxB) init)).
  rewrite IH. clear IH.
  rewrite (Nat2Z.inj_succ (S k)), (Z.pow_succ_r 2 (Z.of_nat (S k))) by lia.
  rewrite (Nat2Z.inj_succ k), (Z.pow_succ_r 2 (Z.of_nat k)) by lia.
  assert (0 < 2 ^ Z.of_nat k) by (apply Z.pow_pos_nonneg; lia).
  rewrite nextNominal_closed, Z.quot_div_nonneg by (try case_match; nia).
  destruct (Z.ltb_spec (init * 2 ^ Z.of_nat k) (maxB / 2)).
  - by replace (2 * (init * (2 * 2 ^ Z.of_nat k)))
      with (init * (2 * (2 * 2 ^ Z.of_nat k))) by ring.
  - destruct (Z.ltb_spec maxB (maxB / 2)); [lia|].
    destruct (Z.ltb_spec (init * (2 * 2 ^ Z.of_nat k)) (maxB / 2)); nia.
Qed.

Lemma nominalBackoff_bounds c n :
  0 < initialBackoff c ≤ maxBackoff c → maxBackoff c ≤ int64_max →
  initialBackoff c ≤ nominalBackoff c n ≤ maxBackoff c.
Proof.
  intros Hi Hm. unfold nominalBackoff.
  destruct (Z.to_nat (n - 1)) as [|k]; [simpl; lia|].
  rewrite nominal_iter, Z.quot_div_nonneg by lia.
  pose proof (Z.mul_div_le (maxBackoff c) 2 eq_refl).
  assert (0 < 2 ^ Z.of_nat k) by (apply Z.pow_pos_nonneg; lia).
  rewrite Nat2Z.inj_succ, Z.pow_succ_r by lia.
  case_match; nia.
Qed.

(** * Properties *)

(** the breaker refines its abstract contract.  After any sequence of
    promotions and losses, of any relays in any interleaving and whatever
    jitter is drawn, the run never hits the nil-function panic, and a relay may
    be punched exactly when fewer than [maxRapid] losses of that relay counted
    since its last stable path. *)
Lemma allowsDirectPunch_refines (c : punchBreakerConfig) (ops : list op) (r : string) :
  ∃ b, run (newBreaker c) ops = Some b ∧
    allowsDirectPunch b r = negb (circuitOpen (withDefaults c) (losses r None ops)).
Proof.
  assert (∃ b, run (newBreaker c) ops = Some b) as [b Hrun].
  { generalize (newBreaker c). induction ops as [|o ops IH]; intros b; simpl; [eauto|].
    destruct (step_total b o) as (b' & -> & _). apply IH. }
  exists b. split; [done|].
  destruct (tracks_run (withDefaults c) (newBreaker c) r ops [] None b)
    as (conn & _ & Ho & _); [done| |done|].
  { split_and!; [done| |done]. rewrite circuitOpen_nil; [done|apply withDefaults_pos]. }
  by rewrite allowsDirectPunch_stateLocked, Ho.
Qed.

(** the recovery delay of a counted loss, for any configuration and any
    random source, lies within a fifth of the nominal backoff and never exceeds
    the configured maximum; the nominal backoff doubles per failure until half
    the maximum is passed and is the maximum from then on. *)
Theorem backoffDelay_bounds (c : punchBreakerConfig) (k : nat) (d : Z) :
  let c' := withDefaults c in
  maxBackoff c' ≤ 2 ^ 62 → initialBackoff c' ≤ maxBackoff c' →
  backoffDelay c' (Z.of_nat k + 2) = Some d →
  let nominal := if initialBackoff c' * 2 ^ Z.of_nat k <? Z.quot (maxBackoff c') 2
                 then initialBackoff c' * 2 ^ Z.of_nat (S k) else maxBackoff c' in
  1 ≤ d ≤ maxBackoff c' ∧
  nominal - Z.quot nominal 5 ≤ d ≤ nominal + Z.quot nominal 5.
Proof.
  intros c' Hm Hi Hd nominal.
  destruct (withDefaults_pos c) as (_ & _ & Hpi & Hpm).
  fold c' in Hpi, Hpm.
  assert (nominalBackoff c' (Z.of_nat k + 2) = nominal) as Hn.
  { unfold nominalBackoff. replace (Z.to_nat (Z.of_nat k + 2 - 1)) with (S k) by lia.
    apply nominal_iter; unfold int64_max; lia. }
  pose proof (nominalBackoff_bounds c' (Z.of_nat k + 2)
    ltac:(lia) ltac:(unfold int64_max; lia)) as Hb.
  rewrite Hn in Hb. clearbody c'.
  unfold backoffDelay in Hd. rewrite Hn in Hd. clearbody nominal. clear Hn.
  unfold punchJitterDivisor in Hd. rewrite (Z.quot_div_nonneg nominal 5) in * by lia.
  pose proof (Z.mul_div_le nominal 5 eq_refl).
  pose proof (Z.div_pos nominal 5 ltac:(lia) eq_refl).
  rewrite wrap64_id in Hd by (unfold in_int64, int64_min, int64_max; lia).
  destruct (pickJitteredDelay c') as [pick|]; [|done]. injection Hd as <-.
  repeat case_match; lia.
Qed.
End breaker.

Lemma backoffDelay_bounds_witness :
  let c' := withDefaults (λ _, 7) (PunchBreakerConfig 0 0 0 0 None) in
  backoffDelay c' 3 = Some (6400000007) ∧
  (1 ≤ 6400000007 ≤ maxBackoff c').
Proof.
  split; [reflexivity|].
  apply (backoffDelay_bounds (λ _, 7) (PunchBreakerConfig 0 0 0 0 None) 1 6400000007);
    vm_compute; congruence.
Defined.

(** the breaker's default policy.  A counted loss of a path that lived less
    than five minutes answers with the relay hub and opens the relay's circuit
    exactly when it is the third in a row; it adds one to that relay's streak and
    leaves every other relay's permission unchanged. *)
Theorem three_rapid_losses_open (Int63n : Z → Z) (b : punchRecoveryBreaker)
    (r : string) (t : Z) :
  config b = PunchBreakerConfig 0 0 0 0 None →
  let st := stateLocked b r in
  0 ≤ rapidFailures st ≤ 2 → lostUptime st t < punchStablePath →
  ∃ b' dec, onDirectPathLost Int63n b r t true = Some (b', dec) ∧
    useRelayHub dec = (rapidFailures st =? 2) ∧
    rapidFailures (stateLocked b' r) = rapidFailures st + 1 ∧
    (rapidFailures st = 2 → allowsDirectPunch b' r = false) ∧
    (∀ r', r' ≠ r → allowsDirectPunch b' r' = allowsDirectPunch b r').
Proof.
  intros Hcfg st Hf Hu.
  destruct (onDirectPathLost_is_Some Int63n b r t true) as [[b' dec] He].
  exists b', dec. split; [done|].
  unfold onDirectPathLost in He. rewrite Hcfg in He. fold st in He. simpl in He.
  replace (punchStablePath <=? lostUptime st t) with false in He by lia.
  injection He as <- <-. simpl. rewrite allowsDirectPunch_stateLocked.
  unfold punchMaxRapidFailures in *.
  rewrite stateLocked_storeState, decide_True by done. simpl.
  split_and!; [lia|done| |].
  - intros ->. done.
  - intros r' Hr. by rewrite !allowsDirectPunch_stateLocked, stateLocked_storeState,
      decide_False by done.
Qed.

Lemma three_rapid_losses_open_witness :
  let b := PunchRecoveryBreaker (PunchBreakerConfig 0 0 0 0 None)
             {["relay_a"%string := PunchRelayState 2 (100 * second) true false]} in
  ∃ b' dec, onDirectPathLost (λ _, 0) b "relay_a" (130 * second) true = Some (b', dec) ∧
    useRelayHub dec = true.
Proof.
  intros b.
  destruct (three_rapid_losses_open (λ _, 0) b "relay_a" (130 * second))
    as (b' & dec & H1 & H2 & _);
    [reflexivity|vm_compute; split; congruence|vm_compute; reflexivity|].
  exists b', dec. split; [exact H1|]. rewrite H2. reflexivity.
Defined.
