(* ===== verification/Directory.v ===== *)
(** Relay descriptors and the choice of connect candidates
    (src/libs/brokerapi/relay_schema.go, src/libs/connectcore/helpers.go,
    src/libs/connectcore/client/selector.go, src/libs/connectcore/ranker.go).

    Filtering keeps broker order and never substitutes a relay for a pinned
    target; ranking only permutes; demotion retries a failed relay last. *)
From stdpp Require Import base list gmap strings sorting.
From Stdlib Require Import ZArith Lia.
From S2P Require Import Prelude.

(** * The client-facing descriptor *)
Definition ProtocolVLESSRealityVision : string := "vless-reality-vision".
Definition FlowVision : string := "xtls-rprx-vision".
Definition ExitModeDirect : string := "direct".
Definition ExitModeDedicated : string := "dedicated".
Definition TransportDirect : string := "direct".
Definition TransportTunnel : string := "tunnel".
Definition NodeClassFoundation : string := "foundation".
Definition NodeClassVolunteer : string := "volunteer".

(** Coordinates are carried verbatim and never computed with: a float64 is its
    64-bit pattern. *)
Record RelayGeoLocation := {
  City : string;
  Country : string;
  CountryCode : string;
  Latitude : Z;
  Longitude : Z
}.

Record RelayWSSFront := {
  FrontID : string;
  FrontURL : string;
  ProtocolVersion : Z
}.

Record RelayDescriptor := {
  rd_ID : string;
  rd_Label : string;
  rd_PublicHost : string;
  rd_PublicPort : Z;
  rd_Geo : RelayGeoLocation;
  rd_NodeClass : string;
  rd_Protocol : string;
  rd_ClientID : string;
  rd_RealityPublicKey : string;
  rd_ShortID : string;
  rd_ServerName : string;
  rd_Flow : string;
  rd_ExitMode : string;
  rd_MaxSessions : Z;
  rd_MaxMbps : Z;
  rd_RelayVersion : string;
  rd_Transport : string;
  rd_PunchCapable : bool;
  rd_PunchEndpoint : string;
  rd_WSSFronts : list RelayWSSFront;
  rd_RegisteredAt : Z;
  rd_LastHeartbeatAt : Z;
  rd_ExpiresAt : Z
}.

#[export] Instance RelayGeoLocation_eq_dec : EqDecision RelayGeoLocation.
Proof. solve_decision. Defined.
#[export] Instance RelayWSSFront_eq_dec : EqDecision RelayWSSFront.
Proof. solve_decision. Defined.
#[export] Instance RelayDescriptor_eq_dec : EqDecision RelayDescriptor.
Proof. solve_decision. Defined.

Record RelayListResponse := {
  Relays : list RelayDescriptor;
  ServerTime : Z
}.

(** * Selection (client/selector.go) *)
Definition hasRequiredConnectionFields (c : RelayDescriptor) : bool :=
  negb (str_empty (rd_PublicHost c)) && (0 <? rd_PublicPort c) &&
  negb (str_empty (rd_ClientID c)) && negb (str_empty (rd_RealityPublicKey c)) &&
  negb (str_empty (rd_ShortID c)) && negb (str_empty (rd_ServerName c)).

Definition IsUsableRelay (c : RelayDescriptor) (now : Z) : bool :=
  str_eqb (rd_Protocol c) ProtocolVLESSRealityVision &&
  str_eqb (rd_Flow c) FlowVision &&
  str_eqb (rd_ExitMode c) ExitModeDirect &&
  time_after (rd_ExpiresAt c) now &&
  hasRequiredConnectionFields c.

(** Freshness is judged against broker time, or the local clock when the
    response carries none. *)
Definition effectiveNow (resp : RelayListResponse) (clock : Z) : Z :=
  if time_is_zero (ServerTime resp) then clock else ServerTime resp.

Definition usableRelays (resp : RelayListResponse) (clock : Z) : list RelayDescriptor :=
  List.filter (λ c, IsUsableRelay c (effectiveNow resp clock)) (Relays resp).

Inductive RelayFamily := RelayFamilyAuto | RelayFamilyIPv4 | RelayFamilyIPv6.

Section select.
(** [brokerapi.IsIPv6Host], the family test on the public host. *)
Context (IsIPv6Host : string → bool).

Fixpoint selectLoop (now : Z) (family : RelayFamily) (l : list RelayDescriptor)
    : option RelayDescriptor :=
  match l with
  | [] => None
  | c :: l' =>
      if negb (IsUsableRelay c now) then selectLoop now family l' else
      match family with
      | RelayFamilyIPv4 => if negb (IsIPv6Host (rd_PublicHost c)) then Some c
                           else selectLoop now family l'
      | RelayFamilyIPv6 => if IsIPv6Host (rd_PublicHost c) then Some c
                           else selectLoop now family l'
      | RelayFamilyAuto => Some c
      end
  end.

(** [None] is [ErrNoUsableRelay]. *)
Definition SelectRelayForFamily (resp : RelayListResponse) (clock : Z)
    (family : RelayFamily) : option RelayDescriptor :=
  selectLoop (effectiveNow resp clock) family (Relays resp).
End select.

(** * Targeting (helpers.go) *)
Record RelayTarget := {
  targetRelayID : string;
  targetLabel : string;
  targetCountry : string
}.

Definition identity (t : RelayTarget) : bool :=
  negb (str_empty (TrimSpace (targetRelayID t))) || negb (str_empty (TrimSpace (targetLabel t))).

Definition Targeted (t : RelayTarget) : bool :=
  identity t || negb (str_empty (TrimSpace (targetCountry t))).

(** The two failures of [FilterCandidates], by their telemetry stage. *)
Inductive FilterError := relay_id_filter | relay_geo_filter.

Section filter.
(** [strings.EqualFold], Unicode case folding. *)
Context (EqualFold : string → string → bool).

Definition matchesIdentity (t : RelayTarget) (c : RelayDescriptor) : bool :=
  let id := TrimSpace (targetRelayID t) in
  let label := TrimSpace (targetLabel t) in
  negb (str_empty id) && str_eqb (rd_ID c) id ||
  negb (str_empty label) && str_eqb (rd_Label c) label.

Definition matchesCountry (t : RelayTarget) (c : RelayDescriptor) : bool :=
  EqualFold (TrimSpace (CountryCode (rd_Geo c))) (TrimSpace (targetCountry t)).

Definition FilterCandidates (candidates : list RelayDescriptor) (t : RelayTarget)
    : result FilterError (list RelayDescriptor) :=
  if identity t then
    match List.filter (matchesIdentity t) candidates with
    | [] => Err relay_id_filter
    | matched => Ok matched
    end
  else if negb (str_empty (TrimSpace (targetCountry t))) then
    match List.filter (matchesCountry t) candidates with
    | [] => Err relay_geo_filter
    | matched => Ok matched
    end
  else Ok candidates.
End filter.

Fixpoint demoteLoop (id : string) (cands reordered demoted : list RelayDescriptor)
    : list RelayDescriptor :=
  match cands with
  | [] => reordered ++ demoted
  | c :: cands' =>
      if str_eqb (rd_ID c) id then demoteLoop id cands' reordered (demoted ++ [c])
      else demoteLoop id cands' (reordered ++ [c]) demoted
  end.

Definition demoteRelay (cands : list RelayDescriptor) (id : string) : list RelayDescriptor :=
  demoteLoop id cands [] [].

Record RecentNode := {
  rn_CountryCode : string;
  rn_Label : string;
  rn_Latitude : Z;
  rn_Longitude : Z;
  rn_RelayID : string;
  rn_RelayName : string
}.

Definition replacedBy (node r : RecentNode) : bool :=
  if negb (str_empty (rn_RelayID node)) then
    str_eqb (rn_RelayID r) (rn_RelayID node) ||
    str_empty (rn_RelayID r) && str_eqb (rn_CountryCode r) (rn_CountryCode node)
  else str_eqb (rn_CountryCode r) (rn_CountryCode node).

Definition prependRecent (existing : list RecentNode) (node : RecentNode) (max : nat)
    : list RecentNode :=
  take max (node :: List.filter (λ r, negb (replacedBy node r)) existing).

(** * Ranking (ranker.go) *)
Definition RelayRankMaxProbes : nat := 8.
Definition RelayRankBucketMS : Z := 30.

Record rankedRelay := RankedRelay {
  relay : RelayDescriptor;
  probeMS : option Z
}.

Definition unranked (cands : list RelayDescriptor) : list rankedRelay :=
  (λ c, RankedRelay c None) <$> cands.

(** [probe i c] is what the i-th goroutine's probe returned: [None] is an
    error, a timeout or a cancelled context.  Every goroutine writes its own
    slot, so the interleaving does not matter. *)
Definition probeHead (probe : nat → RelayDescriptor → option Z)
    (head : list RelayDescriptor) : list rankedRelay :=
  imap (λ i c, RankedRelay c (probe i c)) head.

Definition reachable (r : rankedRelay) : bool :=
  match probeMS r with Some _ => true | None => false end.

(** Indices of the answered probes, in broker order. *)
Definition answered (probed : list rankedRelay) : list nat :=
  List.filter (λ i, match probed !! i with Some r => reachable r | None => false end)
    (seq 0 (length probed)).

Definition bucketOf (bucketMS : Z) (probed : list rankedRelay) (i : nat) : Z :=
  match probed !! i with
  | Some r => Z.quot (default 0 (probeMS r)) bucketMS
  | None => 0
  end.

Definition rankLess (bucketMS : Z) (probed : list rankedRelay) (lhs rhs : nat) : bool :=
  let lb := bucketOf bucketMS probed lhs in
  let rb := bucketOf bucketMS probed rhs in
  if negb (lb =? rb) then lb <? rb else (lhs <? rhs)%nat.

Definition rankByTCPLatency (cands : list RelayDescriptor) (maxProbes : nat)
    (bucketMS : Z) (probe : nat → RelayDescriptor → option Z) : list rankedRelay :=
  if (length cands <? 2)%nat then unranked cands
  else
    let bucketMS := if bucketMS <? 1 then 1 else bucketMS in
    let head := if (maxProbes <? length cands)%nat then take maxProbes cands else cands in
    let tail := if (maxProbes <? length cands)%nat then drop maxProbes cands else [] in
    let probed := probeHead probe head in
    let failed := List.filter (λ r, negb (reachable r)) probed in
    let order := stable_sort (rankLess bucketMS probed) (answered probed) in
    omap (λ i, probed !! i) order ++ failed ++ unranked tail.

Record ladderOrder := {
  brokerOrder : list RelayDescriptor;
  ranked : list rankedRelay
}.

Definition rankLadder (cands : list RelayDescriptor) (target : RelayTarget)
    (probe : nat → RelayDescriptor → option Z) : ladderOrder :=
  {| brokerOrder := cands;
     ranked := if identity target || (length cands <? 2)%nat then unranked cands
               else rankByTCPLatency cands RelayRankMaxProbes RelayRankBucketMS probe |}.

Definition candidates (o : ladderOrder) : list RelayDescriptor := relay <$> ranked o.

(** [annotate] stamps the winner with its broker position (-1 when absent) and
    with what the ranker measured for it. *)
Fixpoint brokerIndexFrom (i : Z) (id : string) (l : list RelayDescriptor) : Z :=
  match l with
  | [] => -1
  | c :: l' => if str_eqb (rd_ID c) id then i else brokerIndexFrom (i + 1) id l'
  end.

Fixpoint rankProbeOf (id : string) (l : list rankedRelay) : option (option Z) :=
  match l with
  | [] => None
  | r :: l' => if str_eqb (rd_ID (relay r)) id then Some (probeMS r) else rankProbeOf id l'
  end.

Definition annotate (o : ladderOrder) (winner : RelayDescriptor) (rankProbe : option Z)
    : Z * option Z :=
  (brokerIndexFrom 0 (rd_ID winner) (brokerOrder o),
   default rankProbe (rankProbeOf (rd_ID winner) (ranked o))).

(** * Lemmas *)
Lemma fmap_relay_unranked l : relay <$> unranked l = l.
Proof. unfold unranked. rewrite <- list_fmap_compose. apply list_fmap_id. Qed.

Lemma fmap_relay_probeHead probe l : relay <$> probeHead probe l = l.
Proof.
  unfold probeHead. rewrite fmap_imap. unfold compose. simpl.
  rewrite <- (list_fmap_id l) at 2. rewrite <- imap_const. done.
Qed.

Lemma omap_answered probed :
  omap (λ i, probed !! i) (answered probed) = List.filter reachable probed.
Proof. apply omap_lookup_filter. Qed.

Lemma rankLess_asym b p x y : rankLess b p x y = true → rankLess b p y x = false.
Proof. unfold rankLess. intros H. cmp_lia. Qed.

Lemma rankLess_cotrans b p x y z :
  rankLess b p x z = true → rankLess b p x y = true ∨ rankLess b p y z = true.
Proof.
  unfold rankLess. intros H. cmp_cases; try done; try lia; auto.
Qed.

Lemma length_probeHead probe l : length (probeHead probe l) = length l.
Proof. unfold probeHead. by rewrite length_imap. Qed.

Lemma probeHead_lookup probe l i r :
  probeHead probe l !! i = Some r ↔ ∃ c, l !! i = Some c ∧ r = RankedRelay c (probe i c).
Proof.
  unfold probeHead. rewrite list_lookup_imap.
  destruct (l !! i); simpl; naive_solver.
Qed.

(** The head and the tail of the candidate list, as the function splits it. *)
Lemma head_tail_app (n : nat) (l : list RelayDescriptor) :
  (if (n <? length l)%nat then take n l else l) ++
  (if (n <? length l)%nat then drop n l else []) = l.
Proof. case_match; [apply take_drop|apply app_nil_r]. Qed.

Lemma demoteLoop_spec id l r d :
  demoteLoop id l r d =
    r ++ List.filter (λ c, negb (str_eqb (rd_ID c) id)) l ++
    d ++ List.filter (λ c, str_eqb (rd_ID c) id) l.
Proof.
  revert r d. induction l as [|c l IH]; intros r d; simpl; [by rewrite !app_nil_r|].
  destruct (str_eqb (rd_ID c) id); rewrite IH; simpl; by rewrite <- !app_assoc.
Qed.

Lemma answered_one_bucket probe head bucketMS k :
  (∀ i c, ∃ ms, probe i c = Some ms ∧ Z.quot ms bucketMS = k) →
  let probed := probeHead probe head in
  StronglySorted (λ i j, rankLess bucketMS probed j i = false) (answered probed).
Proof.
  intros Hk probed.
  apply (StronglySorted_weaken lt); [|apply StronglySorted_filter_bool, seq_StronglySorted].
  assert (∀ i, i ∈ answered probed → bucketOf bucketMS probed i = k) as Hb.
  { intros i [_ Hi]%elem_of_filter_bool. unfold bucketOf.
    destruct (probed !! i) eqn:E; [|done].
    apply probeHead_lookup in E as (c & _ & ->). simpl.
    by destruct (Hk i c) as (ms & -> & <-). }
  intros i j Hi%Hb Hj%Hb Hij. unfold rankLess. rewrite Hi, Hj. cmp_lia.
Qed.

(** A descriptor for concrete runs. *)
Definition exampleRelay (id : string) : RelayDescriptor :=
  {| rd_ID := id; rd_Label := "label-" +:+ id; rd_PublicHost := "203.0.113.7"; rd_PublicPort := 443;
     rd_Geo := {| City := "Tokyo"; Country := "Japan"; CountryCode := "JP";
                  Latitude := 0; Longitude := 0 |};
     rd_NodeClass := NodeClassFoundation; rd_Protocol := ProtocolVLESSRealityVision;
     rd_ClientID := "client"; rd_RealityPublicKey := "key"; rd_ShortID := "ab";
     rd_ServerName := "example.com"; rd_Flow := FlowVision; rd_ExitMode := ExitModeDirect;
     rd_MaxSessions := 4; rd_MaxMbps := 100; rd_RelayVersion := "1"; rd_Transport := "";
     rd_PunchCapable := false; rd_PunchEndpoint := "";
     rd_WSSFronts := [{| FrontID := "cdn-a"; FrontURL := "wss://a.example.com/bridge";
                         ProtocolVersion := 1 |}];
     rd_RegisteredAt := 0; rd_LastHeartbeatAt := 0; rd_ExpiresAt := 90 * second |}.

(** * Properties *)

(** ranking is fail-open.  For every list, probe budget, bucket width and
    outcome of the probes, the ladder holds exactly the broker's candidates:
    none is dropped, added or duplicated. *)
Theorem rank_is_permutation (cands : list RelayDescriptor) (maxProbes : nat)
    (bucketMS : Z) (probe : nat → RelayDescriptor → option Z) :
  relay <$> rankByTCPLatency cands maxProbes bucketMS probe ≡ₚ cands.
Proof.
  unfold rankByTCPLatency. case_match; [by rewrite fmap_relay_unranked|].
  rewrite !fmap_app, fmap_relay_unranked.
  rewrite (omap_perm _ _ _ (stable_sort_perm _ _)), omap_answered, app_assoc, <- fmap_app.
  rewrite filter_bool_split, fmap_relay_probeHead.
  by rewrite head_tail_app.
Qed.

(** the ladder's order.  With at least two candidates, the ladder is the
    answered probes, then the failed ones in broker order, then the unprobed
    tail in broker order; and the answered ones are in increasing order of
    latency bucket, ties broken by broker position. *)
Lemma rank_order (cands : list RelayDescriptor) (maxProbes : nat)
    (bucketMS : Z) (probe : nat → RelayDescriptor → option Z) :
  (2 ≤ length cands)%nat → 1 ≤ bucketMS →
  let head := if (maxProbes <? length cands)%nat then take maxProbes cands else cands in
  ∃ order : list nat,
    (∀ i, i ∈ order ↔ ∃ c, head !! i = Some c ∧ is_Some (probe i c)) ∧
    StronglySorted (λ i j, ∀ ci cj mi mj,
       head !! i = Some ci → head !! j = Some cj →
       probe i ci = Some mi → probe j cj = Some mj →
       Z.quot mi bucketMS < Z.quot mj bucketMS ∨
       Z.quot mi bucketMS = Z.quot mj bucketMS ∧ (i ≤ j)%nat) order ∧
    rankByTCPLatency cands maxProbes bucketMS probe =
      omap (λ i, probeHead probe head !! i) order ++
      List.filter (λ r, negb (reachable r)) (probeHead probe head) ++
      unranked (drop (length head) cands).
Proof.
  intros Hlen Hb head.
  unfold rankByTCPLatency.
  replace (length cands <? 2)%nat with false by cmp_lia.
  replace (bucketMS <? 1) with false by lia. fold head.
  exists (stable_sort (rankLess bucketMS (probeHead probe head)) (answered (probeHead probe head))).
  split_and!.
  - intros i. rewrite elem_of_stable_sort. unfold answered.
    rewrite elem_of_filter_bool, length_probeHead, elem_of_seq.
    destruct (probeHead probe head !! i) as [r|] eqn:E.
    + apply probeHead_lookup in E as (c & Hc & ->).
      pose proof (lookup_lt_Some _ _ _ Hc).
      unfold reachable, is_Some; simpl. split.
      * intros [_ H']. exists c. split; [done|]. destruct (probe i c); [eauto|done].
      * intros (c' & Hc' & m & Hm). assert (c' = c) as -> by congruence.
        rewrite Hm. split; [lia|done].
    + split; [naive_solver|]. intros (c & Hc & _).
      assert (probeHead probe head !! i = Some (RankedRelay c (probe i c))) as E2
        by (apply probeHead_lookup; eauto). congruence.
  - assert (H := stable_sort_sorted (rankLess bucketMS (probeHead probe head))
      (rankLess_asym _ _) (rankLess_cotrans _ _) (answered (probeHead probe head))).
    revert H. apply StronglySorted_weaken. intros i j _ _ Hij ci cj mi mj Hi Hj Hmi Hmj.
    unfold rankLess, bucketOf in Hij.
    rewrite (proj2 (probeHead_lookup probe head i _) (ex_intro _ ci (conj Hi eq_refl))),
      (proj2 (probeHead_lookup probe head j _) (ex_intro _ cj (conj Hj eq_refl))) in Hij.
    simpl in Hij. rewrite Hmi, Hmj in Hij. simpl in Hij. cmp_lia.
  - do 3 f_equal. unfold head. destruct (Nat.ltb_spec maxProbes (length cands)).
    + by rewrite length_take_le by lia.
    + by rewrite drop_all.
Qed.

Lemma rank_order_witness :
  let cands := exampleRelay <$> ["a"; "b"; "c"; "d"]%string in
  let probe i (_ : RelayDescriptor) :=
    match i with 0%nat => Some 61 | 1%nat => None | _ => Some 12 end in
  (∃ order : list nat, ∀ i, i ∈ order ↔ ∃ c, take 3 cands !! i = Some c ∧ is_Some (probe i c)) ∧
  relay <$> rankByTCPLatency cands 3 30 probe = exampleRelay <$> ["c"; "a"; "b"; "d"]%string.
Proof.
  intros cands probe. split; [|vm_compute; reflexivity].
  destruct (rank_order cands 3 30 probe) as (order & Hin & _ & _); [vm_compute; lia|lia|].
  exists order. exact Hin.
Defined.

(** Broker order survives when the client learns nothing.  If no probe
    answers, or every probe answers within one latency bucket, the ladder is
    the broker's list unchanged. *)
Theorem rank_keeps_broker_order (cands : list RelayDescriptor) (maxProbes : nat)
    (bucketMS : Z) (probe : nat → RelayDescriptor → option Z) :
  (∀ i c, probe i c = None) ∨
  (1 ≤ bucketMS ∧ ∃ k, ∀ i c, ∃ ms, probe i c = Some ms ∧ Z.quot ms bucketMS = k) →
  relay <$> rankByTCPLatency cands maxProbes bucketMS probe = cands.
Proof.
  intros Hprobe. unfold rankByTCPLatency.
  case_match; [apply fmap_relay_unranked|].
  set (head := if (maxProbes <? length cands)%nat then _ else _).
  set (probed := probeHead probe head).
  rewrite !fmap_app, fmap_relay_unranked.
  transitivity (head ++ (if (maxProbes <? length cands)%nat then drop maxProbes cands else []));
    [|apply head_tail_app].
  rewrite app_assoc. f_equal. rewrite <- (fmap_relay_probeHead probe head). fold probed.
  rewrite <- fmap_app. f_equal.
  assert (∀ r, r ∈ probed → ∃ i c, r = RankedRelay c (probe i c)) as Hr.
  { intros r [i (c & _ & ->)%probeHead_lookup]%list_elem_of_lookup. eauto. }
  destruct Hprobe as [Hnone|(Hb & k & Hk)].
  - rewrite (filter_bool_all (λ r, negb (reachable r)))
      by (intros r (i & c & ->)%Hr; unfold reachable; simpl; by rewrite Hnone).
    unfold answered. rewrite filter_bool_none; [done|].
    intros i _. destruct (probed !! i) eqn:E; [|done].
    apply probeHead_lookup in E as (c & _ & ->). unfold reachable; simpl. by rewrite Hnone.
  - replace (bucketMS <? 1) with false by lia.
    assert (∀ r, r ∈ probed → reachable r = true) as Hreach.
    { intros r (i & c & ->)%Hr. unfold reachable; simpl. by destruct (Hk i c) as (ms & -> & _). }
    rewrite (filter_bool_none (λ r, negb (reachable r))), app_nil_r
      by (intros r ->%Hreach; done).
    rewrite (stable_sort_id (rankLess bucketMS probed)), omap_answered, filter_bool_all by
      first [done|exact (answered_one_bucket probe head bucketMS k Hk)]. done.
Qed.

Lemma rank_keeps_broker_order_witness :
  let cands := exampleRelay <$> ["a"; "b"; "c"]%string in
  relay <$> rankByTCPLatency cands 8 30 (λ i _, Some (31 + Z.of_nat (i mod 20))) = cands.
Proof.
  apply rank_keeps_broker_order. right. split; [lia|]. exists 1. intros i c.
  eexists. split; [reflexivity|].
  pose proof (Nat.mod_upper_bound i 20 ltac:(lia)).
  rewrite Z.quot_div_nonneg by lia.
  symmetry. apply (Z.div_unique _ 30 1 (1 + Z.of_nat (i mod 20))); lia.
Defined.

(** targeting.  The result keeps broker order, is never empty for a
    targeted connect, and is exactly the candidates of the target: a pinned id
    or label never falls back to another relay, a country keeps every candidate
    in it and nothing else, and no target keeps the whole list. *)
Theorem FilterCandidates_spec (EqualFold : string → string → bool)
    (cands out : list RelayDescriptor) (t : RelayTarget) :
  FilterCandidates EqualFold cands t = Ok out →
  out `sublist_of` cands ∧
  (Targeted t = true → out ≠ []) ∧
  (∀ c, c ∈ out ↔ c ∈ cands ∧
     (identity t = true → matchesIdentity t c = true) ∧
     (identity t = false → str_empty (TrimSpace (targetCountry t)) = false →
      matchesCountry EqualFold t c = true)).
Proof.
  unfold FilterCandidates, Targeted. intros H.
  destruct (identity t); [|destruct (str_empty (TrimSpace (targetCountry t)))]; simpl in *.
  - destruct (List.filter _ cands) as [|c l] eqn:E; [done|]. injection H as <-. rewrite <- E.
    split_and!; [apply filter_bool_sublist|congruence|].
    intros x. rewrite elem_of_filter_bool. naive_solver.
  - injection H as <-. split_and!; [done|done|naive_solver].
  - destruct (List.filter _ cands) as [|c l] eqn:E; [done|]. injection H as <-. rewrite <- E.
    split_and!; [apply filter_bool_sublist|congruence|].
    intros x. rewrite elem_of_filter_bool. naive_solver.
Qed.

Lemma FilterCandidates_spec_witness :
  let t := {| targetRelayID := " b "; targetLabel := ""; targetCountry := "US" |} in
  let cands := exampleRelay <$> ["a"; "b"; "c"]%string in
  FilterCandidates str_eqb cands t = Ok [exampleRelay "b"] ∧
  [exampleRelay "b"] `sublist_of` cands.
Proof.
  intros t cands. assert (H : FilterCandidates str_eqb cands t = Ok [exampleRelay "b"])
    by (vm_compute; reflexivity).
  split; [exact H|].
  destruct (FilterCandidates_spec str_eqb cands [exampleRelay "b"] t H) as [Hs _]. exact Hs.
Defined.

(** Demotion retries a failed relay last and excludes nobody: the other
    candidates keep their order, then come the entries of the failed relay in
    their order. *)
Theorem demoteRelay_spec (cands : list RelayDescriptor) (id : string) :
  demoteRelay cands id ≡ₚ cands ∧
  demoteRelay cands id =
    List.filter (λ c, negb (str_eqb (rd_ID c) id)) cands ++
    List.filter (λ c, str_eqb (rd_ID c) id) cands.
Proof.
  unfold demoteRelay. rewrite demoteLoop_spec. simpl. split; [|done].
  by rewrite (Permutation_app_comm (List.filter _ _)), filter_bool_split.
Qed.

(** The recents list.  Prepending a desktop entry puts it first, keeps the
    list within its cap, and keeps country codes unique. *)
Theorem prependRecent_invariant (existing : list RecentNode) (node : RecentNode) (max : nat) :
  rn_RelayID node = ""%string → NoDup (rn_CountryCode <$> existing) → (0 < max)%nat →
  let out := prependRecent existing node max in
  head out = Some node ∧ (length out ≤ max)%nat ∧ NoDup (rn_CountryCode <$> out) ∧
  (∀ r, r ∈ out → r = node ∨ r ∈ existing).
Proof.
  intros Hid Hnd Hmax. unfold prependRecent.
  destruct max as [|max]; [lia|]. split_and!.
  - done.
  - rewrite length_take. lia.
  - eapply sublist_NoDup; [|apply fmap_sublist, sublist_take].
    rewrite fmap_cons. constructor.
    + intros (r & Hr & Hx)%list_elem_of_fmap. apply elem_of_filter_bool in Hx as [_ Hx].
      unfold replacedBy, str_eqb, str_empty in Hx. rewrite Hid, Hr in Hx. simpl in Hx.
      by rewrite bool_decide_true in Hx by done.
    + eapply sublist_NoDup; [done|apply fmap_sublist, filter_bool_sublist].
  - intros r Hr. eapply elem_of_sublist in Hr; [|apply sublist_take].
    apply elem_of_cons in Hr as [->|[? _]%elem_of_filter_bool]; auto.
Qed.

Lemma prependRecent_invariant_witness :
  let n cc := {| rn_CountryCode := cc; rn_Label := cc; rn_Latitude := 0; rn_Longitude := 0;
                 rn_RelayID := ""; rn_RelayName := "" |} in
  let out := prependRecent [n "JP"; n "US"; n "DE"]%string (n "US"%string) 3 in
  out = [n "US"; n "JP"; n "DE"]%string ∧ NoDup (rn_CountryCode <$> out).
Proof.
  intros n out. split; [reflexivity|].
  apply (prependRecent_invariant [n "JP"; n "US"; n "DE"]%string (n "US"%string) 3);
    [reflexivity| |lia].
  apply (bool_decide_unpack _). vm_compute. exact I.
Defined.
