(* ===== verification/Codec.v ===== *)
(** Byte-level pieces of the Go standard library the components use:
    [strings.Split] and [strings.Join], unpadded URL base64
    ([base64.RawURLEncoding]) and padded standard base64
    ([base64.StdEncoding]), decimal integers ([strconv.FormatInt]/[ParseInt])
    and line scanning ([bufio.Scanner]), with their round trips. *)
From stdpp Require Import base list list_numbers strings.
From Stdlib Require Import ZArith Lia.
From S2P Require Import Prelude.

Notation byte := Ascii.ascii (only parsing).

Definition bytes (s : string) : list byte := String.list_ascii_of_string s.
Definition text (bs : list byte) : string := String.string_of_list_ascii bs.

Lemma bytes_text bs : bytes (text bs) = bs.
Proof. apply String.list_ascii_of_string_of_list_ascii. Qed.
Lemma text_bytes s : text (bytes s) = s.
Proof. apply String.string_of_list_ascii_of_string. Qed.
#[global] Instance bytes_inj : Inj (=) (=) bytes.
Proof. intros a b H. rewrite <- (text_bytes a), <- (text_bytes b). by rewrite H. Qed.
#[global] Instance text_inj : Inj (=) (=) text.
Proof. intros a b H. rewrite <- (bytes_text a), <- (bytes_text b). by rewrite H. Qed.
Lemma bytes_app a b : bytes (a +:+ b) = bytes a ++ bytes b.
Proof. induction a as [|c a IH]; [done|]. change (c :: bytes (a +:+ b) = c :: (bytes a ++ bytes b)). by rewrite IH. Qed.

(** A byte as a number, and the byte of a number modulo 256. *)
Definition val (a : byte) : Z := Z.of_N (byte_of a).
Definition chr (z : Z) : byte := Ascii.ascii_of_N (Z.to_N (z mod 256)).

Lemma val_bound a : 0 ≤ val a < 256.
Proof.
  unfold val, byte_of. pose proof (Ascii.N_ascii_bounded a). lia.
Qed.

Lemma val_chr z : val (chr z) = z mod 256.
Proof.
  unfold val, byte_of, chr. pose proof (Z.mod_pos_bound z 256 eq_refl).
  rewrite Ascii.N_ascii_embedding by lia. lia.
Qed.

Lemma chr_val a : chr (val a) = a.
Proof.
  unfold chr. rewrite Z.mod_small by apply val_bound.
  unfold val, byte_of. rewrite N2Z.id. apply Ascii.ascii_N_embedding.
Qed.

#[global] Instance val_inj : Inj (=) (=) val.
Proof. intros a b H. by rewrite <- (chr_val a), <- (chr_val b), H. Qed.

(** * [strings.Split] with a one-byte separator; never empty. *)
Fixpoint splitOn (sep : N) (bs : list byte) : list (list byte) :=
  match bs with
  | [] => [[]]
  | c :: bs' =>
      let rest := splitOn sep bs' in
      if (byte_of c =? sep)%N then [] :: rest
      else match rest with
           | l :: ls => (c :: l) :: ls
           | [] => [[c]]
           end
  end.

(** [lacks sep bs]: the separator does not occur. *)
Definition lacks (sep : N) (bs : list byte) : bool :=
  forallb (λ c, negb (byte_of c =? sep)%N) bs.

Lemma lacks_app sep a b : lacks sep (a ++ b) = lacks sep a && lacks sep b.
Proof. apply forallb_app. Qed.

Lemma splitOn_nonempty sep bs : splitOn sep bs ≠ [].
Proof. destruct bs; simpl; [done|]. by repeat case_match. Qed.

Lemma splitOn_lacks sep a : lacks sep a = true → splitOn sep a = [a].
Proof.
  induction a as [|c a IH]; simpl; [done|]. rewrite andb_true_iff, negb_true_iff.
  intros [-> Ha]. by rewrite (IH Ha).
Qed.

Lemma splitOn_app sep a c b :
  lacks sep a = true → byte_of c = sep → splitOn sep (a ++ c :: b) = a :: splitOn sep b.
Proof.
  intros Ha Hc. induction a as [|d a IH]; simpl in *; [by rewrite Hc, N.eqb_refl|].
  rewrite andb_true_iff, negb_true_iff in Ha. destruct Ha as [-> Ha]. by rewrite (IH Ha).
Qed.

Lemma splitOn_one sep bs b : splitOn sep bs = [b] → bs = b ∧ lacks sep b = true.
Proof.
  revert b. induction bs as [|c bs IH]; intros b; simpl; [naive_solver|].
  destruct (N.eqb_spec (byte_of c) sep) as [|n];
    [intros [= <- Hn]; by destruct (splitOn_nonempty sep bs)|].
  destruct (splitOn sep bs) as [|l ls] eqn:E; [by destruct (splitOn_nonempty sep bs)|].
  intros [= <- ->]. destruct (IH l eq_refl) as [-> Hl].
  simpl. by rewrite (proj2 (N.eqb_neq _ _) n), Hl.
Qed.

(** Two parts come from exactly one separator. *)
Lemma splitOn_two sep bs a b :
  splitOn sep bs = [a; b] →
  ∃ c, byte_of c = sep ∧ bs = a ++ c :: b ∧ lacks sep a = true ∧ lacks sep b = true.
Proof.
  revert a b. induction bs as [|c bs IH]; intros a b; simpl; [done|].
  destruct (N.eqb_spec (byte_of c) sep) as [Hc|Hc].
  - intros [= <- [-> Hb]%splitOn_one]. by exists c.
  - destruct (splitOn sep bs) as [|l ls] eqn:E; [by destruct (splitOn_nonempty sep bs)|].
    intros [= <- ->]. destruct (IH l b eq_refl) as (d & Hd & -> & Hl & Hb).
    exists d. split_and!; [done|done| |done]. simpl. by rewrite (proj2 (N.eqb_neq _ _) Hc), Hl.
Qed.

(** [strings.Join] with a one-byte separator. *)
Fixpoint joinWith (sep : byte) (parts : list (list byte)) : list byte :=
  match parts with
  | [] => []
  | [p] => p
  | p :: rest => p ++ sep :: joinWith sep rest
  end.

(** Splitting yields one part more than there are separators. *)
Definition occurrences (sep : N) (bs : list byte) : nat :=
  length (filter (λ c, byte_of c = sep) bs).

Lemma occurrences_app sep a b : occurrences sep (a ++ b) = (occurrences sep a + occurrences sep b)%nat.
Proof. unfold occurrences. by rewrite filter_app, length_app. Qed.

Lemma lacks_occurrences sep a : lacks sep a = true ↔ occurrences sep a = 0%nat.
Proof.
  unfold occurrences, lacks. induction a as [|c a IH]; [done|]. cbn [forallb].
  rewrite filter_cons. case_decide as Hc.
  - rewrite (proj2 (N.eqb_eq _ _) Hc). naive_solver.
  - rewrite (proj2 (N.eqb_neq _ _) Hc). exact IH.
Qed.

Lemma occurrences_joinWith sep parts :
  parts ≠ [] →
  (occurrences (byte_of sep) (joinWith sep parts) + 1 =
   length parts + sum_list_with (occurrences (byte_of sep)) parts)%nat.
Proof.
  induction parts as [|p [|q parts] IH]; intros H;
    [done|cbn [joinWith length sum_list_with]; lia|].
  change (joinWith sep (p :: q :: parts)) with (p ++ [sep] ++ joinWith sep (q :: parts)).
  rewrite !occurrences_app.
  assert (occurrences (byte_of sep) [sep] = 1%nat) as ->.
  { unfold occurrences. by rewrite filter_cons_True. }
  specialize (IH ltac:(done)). cbn [length sum_list_with] in *. lia.
Qed.

Lemma splitOn_joinWith sep parts :
  parts ≠ [] → Forall (λ p, lacks (byte_of sep) p = true) parts →
  splitOn (byte_of sep) (joinWith sep parts) = parts.
Proof.
  intros Hne HF. induction HF as [|p parts Hp HF IH]; [done|].
  destruct parts as [|q parts]; [by apply splitOn_lacks|].
  change (joinWith sep (p :: q :: parts)) with (p ++ sep :: joinWith sep (q :: parts)).
  rewrite splitOn_app by done. f_equal. by apply IH.
Qed.

(** Two joins of equally many parts agree only part by part, as soon as the
    parts of one of them are free of the separator. *)
Lemma joinWith_inj sep ps qs :
  length ps = length qs → Forall (λ p, lacks (byte_of sep) p = true) ps →
  joinWith sep ps = joinWith sep qs → ps = qs.
Proof.
  intros Hl HF E. destruct ps as [|p ps]; [by destruct qs|]. destruct qs as [|q qs]; [done|].
  assert (Forall (λ p, lacks (byte_of sep) p = true) (q :: qs)) as HG.
  { pose proof (occurrences_joinWith sep (p :: ps) ltac:(done)) as H1.
    pose proof (occurrences_joinWith sep (q :: qs) ltac:(done)) as H2. rewrite <- E in H2.
    assert (sum_list_with (occurrences (byte_of sep)) (p :: ps) = 0%nat) as H0.
    { clear -HF. induction HF as [|x l Hx _ IH]; [done|].
      apply lacks_occurrences in Hx. cbn [sum_list_with] in *. lia. }
    assert (sum_list_with (occurrences (byte_of sep)) (q :: qs) = 0%nat) as H0' by lia.
    clear -H0'. induction (q :: qs) as [|x l IH]; constructor;
      cbn [sum_list_with] in *; [apply lacks_occurrences; lia|apply IH; lia]. }
  rewrite <- (splitOn_joinWith sep (p :: ps)), E by done. by apply splitOn_joinWith.
Qed.

(** * Unpadded URL base64 *)
Definition alphabet : list byte :=
  bytes "ABCDEFGHIJKLMNOPQRSTUVWXYZabcdefghijklmnopqrstuvwxyz0123456789-_".

Definition sextet (n : Z) : byte := default (chr 0) (alphabet !! Z.to_nat n).

Definition unsextet (c : byte) : option Z :=
  let v := val c in
  if (65 <=? v) && (v <=? 90) then Some (v - 65)
  else if (97 <=? v) && (v <=? 122) then Some (v - 71)
  else if (48 <=? v) && (v <=? 57) then Some (v + 4)
  else if v =? 45 then Some 62
  else if v =? 95 then Some 63
  else None.

Fixpoint EncodeToString (bs : list byte) : list byte :=
  match bs with
  | a :: b :: c :: rest =>
      let '(x, y, z) := (val a, val b, val c) in
      sextet (x / 4) :: sextet (x mod 4 * 16 + y / 16) ::
      sextet (y mod 16 * 4 + z / 64) :: sextet (z mod 64) :: EncodeToString rest
  | [a; b] =>
      let '(x, y) := (val a, val b) in
      [sextet (x / 4); sextet (x mod 4 * 16 + y / 16); sextet (y mod 16 * 4)]
  | [a] => [sextet (val a / 4); sextet (val a mod 4 * 16)]
  | [] => []
  end.

(** The decoder skips carriage returns and line feeds, and ignores the unused
    low bits of a final partial group; a lone final character is an error. *)
Fixpoint decodeSextets (xs : list Z) : option (list byte) :=
  match xs with
  | p :: q :: r :: s :: rest =>
      tail ← decodeSextets rest;
      Some (chr (p * 4 + q / 16) :: chr (q mod 16 * 16 + r / 4) :: chr (r mod 4 * 64 + s) :: tail)
  | [p; q; r] => Some [chr (p * 4 + q / 16); chr (q mod 16 * 16 + r / 4)]
  | [p; q] => Some [chr (p * 4 + q / 16)]
  | [_] => None
  | [] => Some []
  end.

Definition isCRLF (c : byte) : bool := (val c =? 10) || (val c =? 13).

Definition DecodeString (s : list byte) : option (list byte) :=
  xs ← mapM unsextet (filter (λ c, isCRLF c = false) s);
  decodeSextets xs.

Lemma sextet_facts n :
  0 ≤ n < 64 → unsextet (sextet n) = Some n ∧ isCRLF (sextet n) = false ∧
               byte_of (sextet n) ≠ 32%N ∧ byte_of (sextet n) ≠ 46%N.
Proof.
  intros Hn.
  set (f n := bool_decide (unsextet (sextet n) = Some n) && negb (isCRLF (sextet n)) &&
    negb (byte_of (sextet n) =? 32)%N && negb (byte_of (sextet n) =? 46)%N).
  assert (f n = true) as H by (by apply (allBelow_spec 64 0); [vm_compute|]). unfold f in H.
  rewrite !andb_true_iff, !negb_true_iff, !N.eqb_neq in H.
  destruct H as [[[H%bool_decide_eq_true ?] ?] ?]. done.
Qed.

(** The sextets of the encoding. *)
Fixpoint sextetsOf (bs : list byte) : list Z :=
  match bs with
  | a :: b :: c :: rest =>
      let '(x, y, z) := (val a, val b, val c) in
      (x / 4) :: (x mod 4 * 16 + y / 16) :: (y mod 16 * 4 + z / 64) :: (z mod 64) :: sextetsOf rest
  | [a; b] => let '(x, y) := (val a, val b) in [x / 4; x mod 4 * 16 + y / 16; y mod 16 * 4]
  | [a] => [val a / 4; val a mod 4 * 16]
  | [] => []
  end.

(** Induction three bytes at a time. *)
Lemma group_ind (P : list byte → Prop) :
  P [] → (∀ a, P [a]) → (∀ a b, P [a; b]) →
  (∀ a b c l, P l → P (a :: b :: c :: l)) → ∀ l, P l.
Proof.
  intros H0 H1 H2 H3 l. enough (P l ∧ (∀ a, P (a :: l)) ∧ (∀ a b, P (a :: b :: l))) by tauto.
  induction l as [|c l (IH0 & IH1 & IH2)]; [auto|]. split_and!; auto.
Qed.

Ltac bytes_bound :=
  repeat match goal with
  | a : Ascii.ascii |- _ =>
      lazymatch goal with
      | _ : 0 <= val a < 256 |- _ => fail
      | _ => pose proof (val_bound a)
      end
  end.

Lemma EncodeToString_sextets bs : EncodeToString bs = sextet <$> sextetsOf bs.
Proof. induction bs as [| | |a b c l IH] using group_ind; simpl; by rewrite ?IH. Qed.

Lemma sextetsOf_bound bs : Forall (λ n, 0 ≤ n < 64) (sextetsOf bs).
Proof.
  induction bs as [|a|a b|a b c l IH] using group_ind; simpl; bytes_bound;
    repeat (constructor; [Z.to_euclidean_division_equations; lia|]); done.
Qed.

Lemma decodeSextets_sextetsOf bs : decodeSextets (sextetsOf bs) = Some bs.
Proof.
  assert (∀ a z, z mod 256 = val a → chr z = a) as Hc.
  { intros a z Hz. apply (inj val). by rewrite val_chr. }
  induction bs as [|a|a b|a b c l IH] using group_ind; cbn [sextetsOf decodeSextets];
    bytes_bound; [done| | |rewrite IH; cbn]; repeat f_equal; apply Hc;
    Z.to_euclidean_division_equations; lia.
Qed.

Lemma DecodeString_EncodeToString bs : DecodeString (EncodeToString bs) = Some bs.
Proof.
  unfold DecodeString. rewrite EncodeToString_sextets.
  enough (filter (λ c, isCRLF c = false) (sextet <$> sextetsOf bs) = sextet <$> sextetsOf bs ∧
          mapM unsextet (sextet <$> sextetsOf bs) = Some (sextetsOf bs)) as [-> ->]
    by apply decodeSextets_sextetsOf.
  induction (sextetsOf_bound bs) as [|n l Hn _ [IH1 IH2]]; [done|].
  destruct (sextet_facts n Hn) as (Hu & Hf & _).
  rewrite fmap_cons, filter_cons_True by done. rewrite IH1. split; [done|].
  cbn. rewrite Hu. cbn. by rewrite IH2.
Qed.

#[global] Instance EncodeToString_inj : Inj (=) (=) EncodeToString.
Proof.
  intros a b H. apply (f_equal DecodeString) in H. rewrite !DecodeString_EncodeToString in H.
  by simplify_eq.
Qed.

(** The encoding uses none of the separators of the formats built on it. *)
Lemma EncodeToString_lacks bs sep :
  sep ∈ [10; 13; 32; 46]%N → lacks sep (EncodeToString bs) = true.
Proof.
  intros Hsep. rewrite EncodeToString_sextets. unfold lacks.
  induction (sextetsOf_bound bs) as [|n l Hn _ IH]; [done|]. cbn. rewrite IH, andb_true_r.
  destruct (sextet_facts n Hn) as (_ & Hf & H1 & H2). unfold isCRLF, val in Hf.
  rewrite negb_true_iff, N.eqb_neq. rewrite orb_false_iff, !Z.eqb_neq in Hf.
  rewrite !elem_of_cons, elem_of_nil in Hsep. destruct_or?; subst; try done; lia.
Qed.

Lemma length_EncodeToString bs :
  Z.of_nat (length (EncodeToString bs)) = (Z.of_nat (length bs) * 4 + 2) / 3.
Proof.
  induction bs as [|a|a b|a b c l IH] using group_ind; [done|done|done|].
  cbn [EncodeToString length]. rewrite !Nat2Z.inj_succ, IH.
  Z.to_euclidean_division_equations; lia.
Qed.

(** * Padded standard base64 *)
Definition stdAlphabet : list byte :=
  bytes "ABCDEFGHIJKLMNOPQRSTUVWXYZabcdefghijklmnopqrstuvwxyz0123456789+/".

Definition stdSextet (n : Z) : byte := default (chr 0) (stdAlphabet !! Z.to_nat n).

Definition stdUnsextet (c : byte) : option Z :=
  let v := val c in
  if (65 <=? v) && (v <=? 90) then Some (v - 65)
  else if (97 <=? v) && (v <=? 122) then Some (v - 71)
  else if (48 <=? v) && (v <=? 57) then Some (v + 4)
  else if v =? 43 then Some 62
  else if v =? 47 then Some 63
  else None.

(** [base64.RawStdEncoding.EncodeToString] and, padded to a multiple of four,
    [base64.StdEncoding.EncodeToString]. *)
Definition rawStdEncode (bs : list byte) : list byte := stdSextet <$> sextetsOf bs.

Definition padding (bs : list byte) : list byte :=
  match Nat.modulo (length bs) 3 with
  | 1%nat => [chr 61; chr 61]
  | 2%nat => [chr 61]
  | _ => []
  end.

Definition stdEncode (bs : list byte) : list byte := rawStdEncode bs ++ padding bs.

(** [base64.StdEncoding.DecodeString]: groups of four characters, the last one
    possibly padded with one or two equals signs. *)
Fixpoint stdQuads (s : list byte) : option (list byte) :=
  match s with
  | [] => Some []
  | a :: b :: c :: d :: rest =>
      p ← stdUnsextet a; q ← stdUnsextet b;
      if val c =? 61 then
        if (val d =? 61) && bool_decide (rest = []) then decodeSextets [p; q] else None
      else
        r ← stdUnsextet c;
        if val d =? 61 then
          if bool_decide (rest = []) then decodeSextets [p; q; r] else None
        else
          x ← stdUnsextet d; tail ← stdQuads rest; bs ← decodeSextets [p; q; r; x]; Some (bs ++ tail)
  | _ => None
  end.

Definition stdDecode (s : list byte) : option (list byte) :=
  stdQuads (filter (λ c, isCRLF c = false) s).

Lemma stdSextet_facts n :
  0 ≤ n < 64 → stdUnsextet (stdSextet n) = Some n ∧ isCRLF (stdSextet n) = false ∧
               val (stdSextet n) ≠ 61.
Proof.
  intros Hn.
  set (f n := bool_decide (stdUnsextet (stdSextet n) = Some n) && negb (isCRLF (stdSextet n)) &&
    negb (val (stdSextet n) =? 61)).
  assert (f n = true) as H by (by apply (allBelow_spec 64 0); [vm_compute|]). unfold f in H.
  rewrite !andb_true_iff, !negb_true_iff, Z.eqb_neq in H.
  destruct H as [[H%bool_decide_eq_true ?] ?]. done.
Qed.

Lemma padding_group a b c l : padding (a :: b :: c :: l) = padding l.
Proof.
  unfold padding. cbn [length]. replace (S (S (S (length l)))) with (length l + 1 * 3)%nat by lia.
  by rewrite Nat.Div0.mod_add.
Qed.

Lemma stdEncode_clean bs : filter (λ c, isCRLF c = false) (stdEncode bs) = stdEncode bs.
Proof.
  unfold stdEncode, rawStdEncode. rewrite filter_app. f_equal.
  - induction (sextetsOf_bound bs) as [|n l Hn _ IH]; [done|].
    destruct (stdSextet_facts n Hn) as (_ & Hf & _).
    by rewrite fmap_cons, filter_cons_True, IH.
  - unfold padding. by repeat case_match.
Qed.

Lemma stdDecode_stdEncode bs : stdDecode (stdEncode bs) = Some bs.
Proof.
  unfold stdDecode. rewrite stdEncode_clean. unfold stdEncode, rawStdEncode.
  induction bs as [|a|a b|a b c l IH] using group_ind; [done|..|rewrite padding_group];
    pose proof (decodeSextets_sextetsOf) as Hd.
  - specialize (Hd [a]). pose proof (sextetsOf_bound [a]) as HF. cbn [sextetsOf] in *.
    rewrite !Forall_cons in HF. destruct HF as (H1 & H2 & _).
    cbn [fmap list_fmap app padding length stdQuads Nat.modulo Nat.divmod fst snd Nat.sub].
    destruct (stdSextet_facts _ H1) as (-> & _), (stdSextet_facts _ H2) as (-> & _).
    exact Hd.
  - specialize (Hd [a; b]). pose proof (sextetsOf_bound [a; b]) as HF. cbn [sextetsOf] in *.
    rewrite !Forall_cons in HF. destruct HF as (H1 & H2 & H3 & _).
    cbn [fmap list_fmap app padding length stdQuads Nat.modulo Nat.divmod fst snd Nat.sub].
    destruct (stdSextet_facts _ H1) as (-> & _), (stdSextet_facts _ H2) as (-> & _).
    destruct (stdSextet_facts _ H3) as (E3 & _ & N3). cbn [mbind option_bind].
    rewrite (proj2 (Z.eqb_neq _ _) N3), E3. exact Hd.
  - specialize (Hd [a; b; c]). pose proof (sextetsOf_bound [a; b; c]) as HF. cbn [sextetsOf] in *.
    rewrite !Forall_cons in HF. destruct HF as (H1 & H2 & H3 & H4 & _).
    cbn [fmap list_fmap app padding length stdQuads Nat.modulo Nat.divmod fst snd Nat.sub].
    destruct (stdSextet_facts _ H1) as (-> & _), (stdSextet_facts _ H2) as (-> & _).
    destruct (stdSextet_facts _ H3) as (E3 & _ & N3), (stdSextet_facts _ H4) as (E4 & _ & N4).
    cbn [mbind option_bind].
    rewrite (proj2 (Z.eqb_neq _ _) N3), (proj2 (Z.eqb_neq _ _) N4), E3, E4.
    cbn [mbind option_bind]. change (list_fmap Z byte stdSextet (sextetsOf l)) with (stdSextet <$> sextetsOf l).
    rewrite IH. cbn [mbind option_bind]. by rewrite Hd.
Qed.

#[global] Instance rawStdEncode_inj : Inj (=) (=) rawStdEncode.
Proof.
  intros a b H. apply (f_equal (mapM stdUnsextet)) in H. unfold rawStdEncode in H.
  assert (∀ bs, mapM stdUnsextet (stdSextet <$> sextetsOf bs) = Some (sextetsOf bs)) as Hd.
  { intros bs. induction (sextetsOf_bound bs) as [|n l Hn _ IH]; [done|].
    destruct (stdSextet_facts n Hn) as (Hu & _). cbn. rewrite Hu. cbn. by rewrite IH. }
  rewrite !Hd in H. injection H as H. apply (f_equal decodeSextets) in H.
  rewrite !decodeSextets_sextetsOf in H. by simplify_eq.
Qed.

Lemma rawStdEncode_lacks bs : lacks 10 (rawStdEncode bs) = true.
Proof.
  unfold rawStdEncode, lacks. induction (sextetsOf_bound bs) as [|n l Hn _ IH]; [done|].
  cbn. rewrite IH, andb_true_r. destruct (stdSextet_facts n Hn) as (_ & Hf & _).
  unfold isCRLF, val in Hf. rewrite negb_true_iff, N.eqb_neq. cmp_lia.
Qed.

(** * Decimal integers *)
Definition digit (d : Z) : byte := chr (48 + d).
Definition undigit (c : byte) : option Z :=
  if (48 <=? val c) && (val c <=? 57) then Some (val c - 48) else None.

(** Twenty digits hold every 64-bit magnitude. *)
Fixpoint formatDigits (fuel : nat) (n : Z) (acc : list byte) : list byte :=
  match fuel with
  | O => acc
  | S fuel' =>
      if n <? 10 then digit n :: acc
      else formatDigits fuel' (n / 10) (digit (n mod 10) :: acc)
  end.

Definition FormatInt (z : Z) : list byte :=
  if z <? 0 then chr 45 :: formatDigits 20 (- z) [] else formatDigits 20 z [].

Fixpoint parseDigits (acc : Z) (s : list byte) : option Z :=
  match s with
  | [] => Some acc
  | c :: s' => d ← undigit c; parseDigits (acc * 10 + d) s'
  end.

(** [strconv.ParseInt(s, 10, 64)] *)
Definition ParseInt (s : list byte) : option Z :=
  let '(neg, body) :=
    match s with
    | c :: s' => if val c =? 45 then (true, s') else if val c =? 43 then (false, s') else (false, s)
    | [] => (false, [])
    end in
  match body with
  | [] => None
  | _ =>
      n ← parseDigits 0 body;
      let z := if (neg : bool) then - n else n in
      if (int64_min <=? z) && (z <=? int64_max) then Some z else None
  end.

Lemma val_digit d : 0 ≤ d < 10 → val (digit d) = 48 + d.
Proof. intros. unfold digit. rewrite val_chr, Z.mod_small; lia. Qed.

Lemma undigit_digit d : 0 ≤ d < 10 → undigit (digit d) = Some d.
Proof.
  intros Hd. unfold undigit. rewrite val_digit by done.
  rewrite (proj2 (Z.leb_le _ _)), (proj2 (Z.leb_le _ _)) by lia. simpl. f_equal. lia.
Qed.

Lemma parse_formatDigits fuel n acc :
  0 ≤ n < 10 ^ Z.of_nat fuel → parseDigits 0 (formatDigits fuel n acc) = parseDigits n acc.
Proof.
  revert n acc. induction fuel as [|fuel IH]; intros n acc Hn; simpl.
  { replace n with 0; [done|]. change (10 ^ Z.of_nat 0) with 1 in Hn. lia. }
  rewrite Nat2Z.inj_succ, Z.pow_succ_r in Hn by lia.
  destruct (Z.ltb_spec n 10); simpl.
  { rewrite undigit_digit by lia. simpl. by replace (0 * 10 + n) with n by lia. }
  rewrite IH by (Z.to_euclidean_division_equations; lia). simpl.
  rewrite undigit_digit by (by apply Z.mod_pos_bound). simpl. f_equal.
  Z.to_euclidean_division_equations; lia.
Qed.

Lemma formatDigits_shape fuel n acc :
  0 ≤ n → ∃ l, formatDigits fuel n acc = l ++ acc ∧ (length l ≤ fuel)%nat ∧
    (fuel ≠ 0%nat → l ≠ []) ∧ Forall (λ c, 48 ≤ val c ≤ 57) l.
Proof.
  revert n acc. induction fuel as [|fuel IH]; intros n acc Hn; simpl.
  { by exists []. }
  destruct (Z.ltb_spec n 10).
  { exists [digit n]. split_and!; [done|simpl; lia|done|].
    constructor; [|done]. rewrite val_digit; lia. }
  destruct (IH (n / 10) (digit (n mod 10) :: acc)) as (l & -> & Hl & _ & HF);
    [by apply Z.div_pos|].
  exists (l ++ [digit (n mod 10)]). rewrite <- (assoc_L (++)), length_app. simpl.
  split_and!; [done|lia|by destruct l|]. rewrite Forall_app. split; [done|].
  constructor; [|done]. pose proof (Z.mod_pos_bound n 10 eq_refl). rewrite val_digit; lia.
Qed.

(** What the decimal form of a non-negative 64-bit integer looks like. *)
Lemma FormatInt_shape n :
  0 ≤ n → (length (FormatInt n) ≤ 20)%nat ∧ FormatInt n ≠ [] ∧
          Forall (λ c, 48 ≤ val c ≤ 57) (FormatInt n).
Proof.
  intros Hn. unfold FormatInt. rewrite (proj2 (Z.ltb_ge _ _)) by done.
  destruct (formatDigits_shape 20 n [] Hn) as (l & -> & Hl & Hne & HF). rewrite app_nil_r. auto.
Qed.

Lemma ParseInt_FormatInt n : 0 ≤ n ≤ int64_max → ParseInt (FormatInt n) = Some n.
Proof.
  intros Hn. destruct (FormatInt_shape n) as (_ & Hne & HF); [lia|].
  unfold ParseInt. destruct (FormatInt n) as [|c l] eqn:E; [done|].
  assert (48 ≤ val c ≤ 57) by (by inversion HF).
  rewrite !(proj2 (Z.eqb_neq _ _)) by lia. rewrite <- E. unfold FormatInt.
  rewrite (proj2 (Z.ltb_ge _ _)) by lia.
  rewrite parse_formatDigits by (unfold int64_max in *; simpl; lia). cbn.
  unfold int64_min, int64_max in *.
  rewrite (proj2 (Z.leb_le _ _)), (proj2 (Z.leb_le _ _)) by lia. done.
Qed.

Lemma ParseInt_range s z : ParseInt s = Some z → in_int64 z.
Proof.
  unfold ParseInt, in_int64. destruct (match s with [] => _ | _ :: _ => _ end) as [neg body].
  destruct body as [|c body]; [done|]. intros (n & _ & Hz)%bind_Some. destruct (_ && _) eqn:Hr in Hz; simplify_eq.
  apply andb_true_iff in Hr. lia.
Qed.

Lemma FormatInt_lacks n sep :
  0 ≤ n → sep ∈ [10; 13; 32; 46]%N → lacks sep (FormatInt n) = true.
Proof.
  intros Hn Hsep. destruct (FormatInt_shape n Hn) as (_ & _ & HF). unfold lacks.
  rewrite forallb_forall. intros c Hc%list_elem_of_In. rewrite Forall_forall in HF.
  specialize (HF c Hc). unfold val in HF. rewrite negb_true_iff, N.eqb_neq.
  rewrite !elem_of_cons, elem_of_nil in Hsep. destruct_or?; subst; try done; lia.
Qed.

(** The same for every 64-bit integer, signs included. *)
Lemma ParseInt_FormatInt_int64 z : in_int64 z → ParseInt (FormatInt z) = Some z.
Proof.
  intros Hz. destruct (decide (0 ≤ z)) as [|Hneg]; [apply ParseInt_FormatInt; unfold in_int64 in Hz; lia|].
  unfold in_int64, int64_min, int64_max in Hz. unfold FormatInt. rewrite (proj2 (Z.ltb_lt _ _)) by lia.
  destruct (formatDigits_shape 20 (- z) []) as (l & El & _ & Hne & _); [lia|].
  rewrite app_nil_r in El. unfold ParseInt. cbn [val chr]. change (val (chr 45) =? 45) with true. cbn [fst snd].
  destruct (formatDigits 20 (- z) []) as [|c l'] eqn:E; [subst l; by destruct Hne|].
  rewrite <- E, parse_formatDigits by lia. cbn. unfold int64_min, int64_max.
  rewrite !(proj2 (Z.leb_le _ _)) by lia. cbn. f_equal. lia.
Qed.

Lemma FormatInt_inj x y : in_int64 x → in_int64 y → FormatInt x = FormatInt y → x = y.
Proof.
  intros Hx Hy E. apply (f_equal ParseInt) in E.
  rewrite !ParseInt_FormatInt_int64 in E by done. by simplify_eq.
Qed.

Lemma FormatInt_noBreak z : lacks 10 (FormatInt z) = true.
Proof.
  destruct (decide (0 ≤ z)); [apply FormatInt_lacks; [done|by left]|].
  pose proof (FormatInt_lacks (- z) 10 ltac:(lia) ltac:(by left)) as H.
  unfold FormatInt in *. rewrite (proj2 (Z.ltb_lt z 0)) by lia.
  by rewrite (proj2 (Z.ltb_ge (- z) 0)) in H by lia.
Qed.

(** * Lines

    [bufio.Scanner] with [ScanLines] and a buffer of [max] bytes, on data that
    ends with a line feed or is empty: each line is yielded without its line
    feed and one trailing carriage return; a line of [max] or more bytes stops
    the scan with [ErrTooLong] after the lines before it ([true]). *)
Definition dropCR (line : list byte) : list byte :=
  match rev line with
  | c :: r => if val c =? 13 then rev r else line
  | [] => []
  end.

Fixpoint scanFrom (max : nat) (lines : list (list byte)) : list (list byte) * bool :=
  match lines with
  | [] => ([], false)
  | l :: ls =>
      if (max <=? length l)%nat then ([], true)
      else let '(r, e) := scanFrom max ls in (dropCR l :: r, e)
  end.

(** The lines of [bs] that are terminated by a line feed. *)
Definition terminated (bs : list byte) : list (list byte) := removelast (splitOn 10 bs).

Definition ScanLines (max : nat) (bs : list byte) : list (list byte) * bool :=
  scanFrom max (terminated bs).

Lemma terminated_line a c b :
  lacks 10 a = true → byte_of c = 10%N → terminated (a ++ c :: b) = a :: terminated b.
Proof.
  intros Ha Hc. unfold terminated. rewrite splitOn_app by done.
  destruct (splitOn 10 b) as [|l ls] eqn:E; [by destruct (splitOn_nonempty 10 b)|]. done.
Qed.

Lemma dropCR_lacks l : lacks 13 l = true → dropCR l = l.
Proof.
  intros Hl. unfold dropCR. destruct (rev l) as [|c r] eqn:E.
  { apply (f_equal (@rev _)) in E. by rewrite rev_involutive in E. }
  apply (f_equal (@rev _)) in E. rewrite rev_involutive in E. subst l. simpl in Hl.
  rewrite lacks_app, andb_true_iff in Hl. destruct Hl as [_ Hc]. simpl in Hc.
  rewrite andb_true_r, negb_true_iff, N.eqb_neq in Hc. unfold val.
  by rewrite (proj2 (Z.eqb_neq _ _)) by lia.
Qed.

(** * JSON documents

    A value of [map[string]any] as a tree; [json.MarshalIndent] prints it. *)
Inductive json := JStr (s : string) | JNum (z : Z) | JBool (b : bool) | JArr (l : list json) | JObj (fields : list (string * json)).
