(* ===== verification/Fronts.v ===== *)
(** Signed WSS fronts (src/libs/wsscore/front.go) and the engine's acceptance
    of a relay's advertised set (src/libs/connectcore/wss.go,
    [supportedWSSFronts]).

    [net/url], Unicode case mapping and [net.ParseIP] are parameters; the
    canonical form of a front set is characterised for every choice of them. *)
From stdpp Require Import base list gmap strings sorting.
From Stdlib Require Import ZArith Lia.
From S2P Require Import Prelude Codec Directory.

Definition FrontProtocolVersion : Z := 1.
Definition MaxFronts : nat := 4.
Definition MaxFrontIDBytes : nat := 64.
Definition MaxFrontURLBytes : nat := 512.
Definition BridgePath : string := "/api/v1/wss-bridge".

(** [wsscore.Front] has the fields of [RelayWSSFront] and is converted to and
    from it. *)
Definition Front := RelayWSSFront.

(** [url.URL], the fields the code reads; [HasUser] is [User != nil]. *)
Record URL := {
  Scheme : string;
  Opaque : string;
  HasUser : bool;
  Host : string;
  Path : string;
  RawPath : string;
  RawQuery : string;
  ForceQuery : bool;
  Fragment : string
}.

Definition in_range (a : Ascii.ascii) (lo hi : N) : bool := ((lo <=? byte_of a) && (byte_of a <=? hi))%N.
Definition isLower (a : Ascii.ascii) : bool := in_range a 97 122.
Definition isDigit (a : Ascii.ascii) : bool := in_range a 48 57.
Definition isAlphaNumeric (a : Ascii.ascii) : bool := isLower a || isDigit a.

(** [strings.ContainsAny(s, "\r\n\t")] *)
Definition hasControlSpace (s : string) : bool :=
  existsb (λ a, (byte_of a =? 13)%N || (byte_of a =? 10)%N || (byte_of a =? 9)%N) (bytes s).

Definition validFrontID (value : string) : bool :=
  let bs := bytes value in
  match bs, last bs with
  | first :: _, Some final =>
      (length bs <=? MaxFrontIDBytes)%nat && isAlphaNumeric first && isAlphaNumeric final &&
      forallb (λ c, isAlphaNumeric c || (byte_of c =? 46)%N || (byte_of c =? 95)%N
                    || (byte_of c =? 45)%N) bs
  | _, _ => false
  end.

Definition validLabel (l : list Ascii.ascii) : bool :=
  match l, last l with
  | first :: _, Some final =>
      (length l <=? 63)%nat && negb (byte_of first =? 45)%N && negb (byte_of final =? 45)%N &&
      forallb (λ c, isAlphaNumeric c || (byte_of c =? 45)%N) l
  | _, _ => false
  end.

Definition validFrontDNSName (host : string) : bool :=
  let bs := bytes host in
  let labels := splitOn 46 bs in
  negb (length bs =? 0)%nat && (length bs <=? 253)%nat &&
  negb (match last bs with Some c => (byte_of c =? 46)%N | None => false end) &&
  (2 <=? length labels)%nat && forallb validLabel labels &&
  match last labels with
  | Some (c :: _) => isLower c
  | _ => false
  end.

Inductive FrontError := ErrInvalidFront.

Section fronts.
Context (ToLower : string → string) (EqualFold : string → string → bool).
Context (urlParse : string → option URL) (urlString : URL → string).
(** [u.Hostname()], [u.Port()] and [net.ParseIP(s) != nil]. *)
Context (Hostname Port : URL → string) (isIPLiteral : string → bool).

Definition NormalizeFrontID (value : string) : result FrontError string :=
  if hasControlSpace value then Err ErrInvalidFront else
  let normalized := ToLower (TrimSpace value) in
  if validFrontID normalized then Ok normalized else Err ErrInvalidFront.

Definition ValidateFrontID (value : string) : result FrontError unit :=
  let? normalized := NormalizeFrontID value in
  if str_eqb normalized value then Ok tt else Err ErrInvalidFront.

Definition withSchemeHost (u : URL) (scheme host : string) : URL :=
  {| Scheme := scheme; Opaque := Opaque u; HasUser := HasUser u; Host := host;
     Path := Path u; RawPath := RawPath u; RawQuery := RawQuery u;
     ForceQuery := ForceQuery u; Fragment := Fragment u |}.

Definition NormalizeFrontURL (raw : string) : result FrontError string :=
  if hasControlSpace raw then Err ErrInvalidFront else
  let raw := TrimSpace raw in
  if str_empty raw || (MaxFrontURLBytes <? String.length raw)%nat then Err ErrInvalidFront else
  match urlParse raw with
  | None => Err ErrInvalidFront
  | Some p =>
      if negb (str_empty (Opaque p)) || str_empty (Host p) || str_empty (Hostname p)
      then Err ErrInvalidFront else
      if negb (EqualFold (Scheme p) "wss") then Err ErrInvalidFront else
      if HasUser p || negb (str_empty (RawQuery p)) || ForceQuery p
         || negb (str_empty (Fragment p)) then Err ErrInvalidFront else
      if negb (str_empty (Port p)) || negb (str_eqb (Host p) (Hostname p))
      then Err ErrInvalidFront else
      let host := ToLower (Hostname p) in
      if negb (validFrontDNSName host) || isIPLiteral host then Err ErrInvalidFront else
      if negb (str_eqb (Path p) BridgePath) || negb (str_empty (RawPath p))
      then Err ErrInvalidFront else
      Ok (urlString (withSchemeHost p "wss" host))
  end.

Fixpoint normalizeEach (fronts : list Front) : result FrontError (list Front) :=
  match fronts with
  | [] => Ok []
  | f :: fs =>
      let? id := NormalizeFrontID (FrontID f) in
      if negb (ProtocolVersion f =? FrontProtocolVersion) then Err ErrInvalidFront else
      let? u := NormalizeFrontURL (FrontURL f) in
      let? rest := normalizeEach fs in
      Ok ({| FrontID := id; FrontURL := u; ProtocolVersion := FrontProtocolVersion |} :: rest)
  end.

(** The scan over the sorted set: neighbours with one ID, or a URL seen before. *)
Fixpoint uniqueFrom (prev : option string) (seen : gset string) (l : list Front) : bool :=
  match l with
  | [] => true
  | f :: l' =>
      negb (bool_decide (prev = Some (FrontID f))) &&
      negb (bool_decide (FrontURL f ∈ seen)) &&
      uniqueFrom (Some (FrontID f)) ({[FrontURL f]} ∪ seen) l'
  end.

Definition frontLess (a b : Front) : bool := String.ltb (FrontID a) (FrontID b).

Definition NormalizeFronts (fronts : list Front) : result FrontError (list Front) :=
  if (length fronts =? 0)%nat then Ok [] else
  if (MaxFronts <? length fronts)%nat then Err ErrInvalidFront else
  let? normalized := normalizeEach fronts in
  let sorted := stable_sort frontLess normalized in
  if uniqueFrom None ∅ sorted then Ok sorted else Err ErrInvalidFront.

Definition EffectiveNodeClass (class : string) : string :=
  if str_eqb class NodeClassFoundation then NodeClassFoundation else NodeClassVolunteer.

(** Only a direct-mode Foundation relay at port 443 whose signed set is already
    canonical has fronts; [[]] is Go's nil. *)
Definition supportedWSSFronts (c : RelayDescriptor) : list RelayWSSFront :=
  let t := ToLower (TrimSpace (rd_Transport c)) in
  let t := if str_empty t then TransportDirect else t in
  if negb (str_eqb t TransportDirect) ||
     negb (str_eqb (EffectiveNodeClass (rd_NodeClass c)) NodeClassFoundation) ||
     negb (str_eqb (rd_ExitMode c) ExitModeDirect) || negb (rd_PublicPort c =? 443)
  then []
  else
    match NormalizeFronts (rd_WSSFronts c) with
    | Ok normalized =>
        if bool_decide (normalized = rd_WSSFronts c) then rd_WSSFronts c else []
    | Err _ => []
    end.

(** * Lemmas *)
Lemma normalizeEach_Forall fs out :
  normalizeEach fs = Ok out →
  length out = length fs ∧
  Forall (λ f, validFrontID (FrontID f) = true ∧ ProtocolVersion f = FrontProtocolVersion) out.
Proof.
  revert out. induction fs as [|f fs IH]; intros out; simpl.
  { intros [= <-]. done. }
  destruct (NormalizeFrontID (FrontID f)) as [id|] eqn:Eid; [|done].
  case_match; [done|]. destruct (NormalizeFrontURL _); [|done].
  destruct (normalizeEach fs) as [rest|]; [|done]. intros [= <-].
  destruct (IH rest eq_refl) as [Hl Hf]. simpl. split; [by rewrite Hl|].
  constructor; [|done]. split; [|done]. simpl.
  unfold NormalizeFrontID in Eid. repeat case_match; simplify_eq; done.
Qed.

Lemma uniqueFrom_urls prev seen l :
  uniqueFrom prev seen l = true →
  NoDup (FrontURL <$> l) ∧ ∀ f, f ∈ l → FrontURL f ∉ seen.
Proof.
  revert prev seen. induction l as [|f l IH]; intros prev seen; simpl; [split; [constructor|]; set_solver|].
  intros [[_ Hf]%andb_prop Hu]%andb_prop.
  apply negb_true_iff, bool_decide_eq_false in Hf.
  apply IH in Hu as [Hnd Hs]. split.
  - constructor; [|done]. intros (g & Hg & Hin)%list_elem_of_fmap. apply (Hs g Hin). set_solver.
  - intros g [->|Hg]%elem_of_cons; [done|]. specialize (Hs g Hg). set_solver.
Qed.

Lemma uniqueFrom_neighbours prev seen l :
  uniqueFrom prev seen l = true →
  ∀ i f g, l !! i = Some f → l !! S i = Some g → FrontID f ≠ FrontID g.
Proof.
  revert prev seen. induction l as [|h l IH]; intros prev seen H i f g Hf Hg; [done|].
  simpl in H. apply andb_prop in H as [_ H].
  destruct i as [|i]; [|exact (IH _ _ H i f g Hf Hg)].
  simpl in *. injection Hf as ->. destruct l as [|g' l]; [done|]. injection Hg as ->.
  simpl in H. apply andb_prop in H as [[H _]%andb_prop _].
  apply negb_true_iff, bool_decide_eq_false in H. congruence.
Qed.

Lemma sorted_distinct_strict (l : list Front) :
  StronglySorted (λ a b, frontLess b a = false) l →
  (∀ i f g, l !! i = Some f → l !! S i = Some g → FrontID f ≠ FrontID g) →
  StronglySorted (λ a b, String.ltb (FrontID a) (FrontID b) = true) l.
Proof.
  unfold frontLess. induction 1 as [|x l Hl IH Hx]; intros Hne; constructor.
  { apply IH. intros i f g Hf Hg. exact (Hne (S i) f g Hf Hg). }
  destruct l as [|h l]; [constructor|].
  assert (String.ltb (FrontID x) (FrontID h) = true) as Hxh.
  { apply Forall_cons in Hx as [Hx _]. specialize (Hne 0%nat x h eq_refl eq_refl).
    rewrite str_ltb_leb, negb_false_iff in Hx. rewrite str_ltb_leb, negb_true_iff.
    apply not_true_is_false. intros H. apply Hne. by apply str_leb_antisym. }
  constructor; [done|]. apply StronglySorted_inv in Hl as [_ Hl].
  eapply Forall_impl; [exact Hl|]. simpl. intros y Hy.
  destruct (str_ltb_cotrans (FrontID x) (FrontID y) (FrontID h) Hxh); [done|congruence].
Qed.

(** * Properties *)

(** a normalized front set is canonical.  Whenever the set is accepted it
    has as many fronts as the input and at most four; identifiers are valid and
    strictly increasing in byte order, so unique; URLs are unique; and every
    front is of the current protocol version. *)
Lemma NormalizeFronts_canonical (fronts out : list Front) :
  NormalizeFronts fronts = Ok out →
  length out = length fronts ∧ (length out ≤ MaxFronts)%nat ∧
  StronglySorted (λ a b, String.ltb (FrontID a) (FrontID b) = true) out ∧
  NoDup (FrontURL <$> out) ∧
  Forall (λ f, validFrontID (FrontID f) = true ∧ ProtocolVersion f = FrontProtocolVersion) out.
Proof.
  unfold NormalizeFronts. intros H.
  destruct (Nat.eqb_spec (length fronts) 0) as [E0|E0].
  { injection H as <-. rewrite E0. split_and!; [done|simpl; lia|constructor|constructor|constructor]. }
  destruct (Nat.ltb_spec MaxFronts (length fronts)); [done|].
  destruct (normalizeEach fronts) as [normalized|] eqn:En; [|done].
  destruct (uniqueFrom None ∅ _) eqn:Eu; [|done]. injection H as <-.
  apply normalizeEach_Forall in En as [Hl Hf].
  split_and!.
  - by rewrite length_stable_sort.
  - rewrite length_stable_sort. lia.
  - apply sorted_distinct_strict; [|by eapply uniqueFrom_neighbours].
    apply stable_sort_sorted; unfold frontLess; intros *; [apply str_ltb_asym|apply str_ltb_cotrans].
  - by apply uniqueFrom_urls in Eu as [? _].
  - by rewrite stable_sort_perm.
Qed.

(** What the engine dials over WSS is what the broker signed.  A relay has
    supported fronts only if it is a direct-mode Foundation relay on port 443,
    and then they are its signed entries verbatim, already canonical. *)
Theorem supportedWSSFronts_signed (c : RelayDescriptor) (f : RelayWSSFront) :
  f ∈ supportedWSSFronts c →
  supportedWSSFronts c = rd_WSSFronts c ∧
  NormalizeFronts (rd_WSSFronts c) = Ok (rd_WSSFronts c) ∧
  rd_NodeClass c = NodeClassFoundation ∧ rd_ExitMode c = ExitModeDirect ∧ rd_PublicPort c = 443.
Proof.
  unfold supportedWSSFronts. intros H.
  match goal with H : _ ∈ (if ?b then _ else _) |- _ => destruct b eqn:E end;
    [by apply not_elem_of_nil in H|].
  rewrite !orb_false_iff, !negb_false_iff in E. destruct E as (((_ & Hc) & He) & Hp).
  destruct (NormalizeFronts (rd_WSSFronts c)) as [n|] eqn:En; [|by apply not_elem_of_nil in H].
  destruct (decide (n = rd_WSSFronts c)) as [->|Hn].
  2: { rewrite bool_decide_false in H by done. by apply not_elem_of_nil in H. }
  rewrite bool_decide_true by done.
  apply bool_decide_eq_true in He. apply Z.eqb_eq in Hp.
  unfold EffectiveNodeClass, str_eqb in Hc. apply bool_decide_eq_true in Hc.
  destruct (decide (rd_NodeClass c = NodeClassFoundation)) as [Hf|Hf].
  - split_and!; done.
  - by rewrite (bool_decide_false _ Hf) in Hc.
Qed.
End fronts.

(** A toy [net/url] for concrete runs: it accepts one URL. *)
Definition exampleURL : URL :=
  {| Scheme := "wss"; Opaque := ""; HasUser := false; Host := "a.example.com";
     Path := BridgePath; RawPath := ""; RawQuery := ""; ForceQuery := false; Fragment := "" |}.
Definition exampleParse (s : string) : option URL :=
  if str_eqb s "wss://a.example.com/api/v1/wss-bridge" then Some exampleURL else None.
Definition exampleString (u : URL) : string := "wss://" +:+ Host u +:+ Path u.
Definition exampleFront (id : string) : Front :=
  {| FrontID := id; FrontURL := "wss://a.example.com/api/v1/wss-bridge"; ProtocolVersion := 1 |}.

Lemma NormalizeFronts_canonical_witness :
  let norm := NormalizeFronts (λ s, s) str_eqb exampleParse exampleString
                Host (λ _, ""%string) (λ _, false) in
  norm [exampleFront " cdn-a"] = Ok [exampleFront "cdn-a"] ∧
  norm [exampleFront "b"; exampleFront "a"] = Err ErrInvalidFront ∧
  NoDup (FrontURL <$> [exampleFront "cdn-a"]).
Proof.
  intros norm. split; [vm_compute; reflexivity|]. split; [vm_compute; reflexivity|].
  apply (NormalizeFronts_canonical (λ s, s) str_eqb exampleParse exampleString
    Host (λ _, ""%string) (λ _, false) [exampleFront " cdn-a"] [exampleFront "cdn-a"]).
  vm_compute. reflexivity.
Defined.

Definition exampleFrontRelay : RelayDescriptor :=
  {| rd_ID := "relay_1"; rd_Label := ""; rd_PublicHost := "203.0.113.7"; rd_PublicPort := 443;
     rd_Geo := {| City := ""; Country := ""; CountryCode := ""; Latitude := 0; Longitude := 0 |};
     rd_NodeClass := NodeClassFoundation; rd_Protocol := ProtocolVLESSRealityVision;
     rd_ClientID := "c"; rd_RealityPublicKey := "k"; rd_ShortID := "s"; rd_ServerName := "n";
     rd_Flow := FlowVision; rd_ExitMode := ExitModeDirect; rd_MaxSessions := 1; rd_MaxMbps := 1;
     rd_RelayVersion := ""; rd_Transport := "direct"; rd_PunchCapable := false;
     rd_PunchEndpoint := ""; rd_WSSFronts := [exampleFront "cdn-a"]; rd_RegisteredAt := 0;
     rd_LastHeartbeatAt := 0; rd_ExpiresAt := 0 |}.

Lemma supportedWSSFronts_signed_witness :
  let fronts := supportedWSSFronts (λ s, s) str_eqb exampleParse exampleString
                  Host (λ _, ""%string) (λ _, false) exampleFrontRelay in
  fronts = [exampleFront "cdn-a"] ∧ rd_NodeClass exampleFrontRelay = NodeClassFoundation.
Proof.
  intros fronts. split; [vm_compute; reflexivity|].
  apply (supportedWSSFronts_signed (λ s, s) str_eqb exampleParse exampleString
    Host (λ _, ""%string) (λ _, false) exampleFrontRelay (exampleFront "cdn-a")).
  vm_compute. left.
Defined.
