(* ===== verification/Ladder.v ===== *)
(** The connect ladder of the engine
    (src/libs/connectcore/engine.go: [runLadder], [attemptCandidate],
    [attemptDirectCandidate], [startCandidate], [teardown];
    src/libs/connectcore/wss.go: [attemptWSSCandidate],
    [requestWSSSessionTicket] and the error markers;
    src/libs/connectcore/punch.go: [maybePunch]).

    The code drives sockets, a tunnel runtime and telemetry.  Here every call
    that leaves the engine is an operation of an environment [Env], which may
    answer anything at every call, and every effect the engine performs is an
    event of a trace; the world, the trace and the connection's retry flag are
    threaded by a state-and-writer monad.  Log lines are left out. *)
From stdpp Require Import base list gmap strings.
From Stdlib Require Import ZArith Lia.
From S2P Require Import Prelude PunchBreaker Directory.

(** * Errors

    A Go error is the chain that [errors.As] and [errors.Is] walk. *)
Inductive goerr :=
| ErrMsg (msg : string)
| ErrContext                      (* context.Canceled or DeadlineExceeded *)
| ErrSocketProtection             (* the host refused to protect a socket *)
| WSSTicketStatusError (StatusCode RetryAfter : Z)
| RemotePathError (stage : string) (e : goerr)
| localCandidateError (stage : string) (e : goerr)
| directPathError (stage : string) (e : goerr)
| wssTransportError (stage frontID : string) (e : goerr)
| relayFailureRecordedError (e : goerr)
| ErrWrap (msg : string) (e : goerr).

Definition unwrap (e : goerr) : option goerr :=
  match e with
  | RemotePathError _ e | localCandidateError _ e | directPathError _ e
  | wssTransportError _ _ e | relayFailureRecordedError e | ErrWrap _ e => Some e
  | _ => None
  end.

(** [errors.As] with the test [f] for the target type. *)
Fixpoint errorsAs {A} (f : goerr → option A) (e : goerr) : option A :=
  match f e with
  | Some a => Some a
  | None =>
      match e with
      | RemotePathError _ e | localCandidateError _ e | directPathError _ e
      | wssTransportError _ _ e | relayFailureRecordedError e | ErrWrap _ e => errorsAs f e
      | _ => None
      end
  end.

Definition localCandidateErrorStage : goerr → option string :=
  errorsAs (λ e, match e with localCandidateError s _ => Some s | _ => None end).
Definition directPathErrorStage : goerr → option string :=
  errorsAs (λ e, match e with directPathError s _ => Some s | _ => None end).
Definition wssTransportMetadata : goerr → option (string * string) :=
  errorsAs (λ e, match e with wssTransportError s f _ => Some (s, f) | _ => None end).
Definition wssTransportStage (e : goerr) : option string := fst <$> wssTransportMetadata e.
Definition remotePathStage : goerr → option string :=
  errorsAs (λ e, match e with RemotePathError s _ => Some s | _ => None end).
Definition isSocketProtectionFailure (e : goerr) : bool :=
  bool_decide (is_Some
    (errorsAs (λ e, match e with ErrSocketProtection => Some () | _ => None end) e)).
Definition relayFailureAlreadyRecorded (e : goerr) : bool :=
  bool_decide (is_Some
    (errorsAs (λ e, match e with relayFailureRecordedError _ => Some () | _ => None end) e)).

(** The markers; their nil-error branches concern a nil argument, which no
    caller of the ladder passes. *)
Definition markLocalCandidateError (stage : string) (e : goerr) : goerr :=
  localCandidateError stage e.
Definition markDirectPathError (stage : string) (e : goerr) : goerr :=
  if isSocketProtectionFailure e then markLocalCandidateError "socket_protection" e
  else directPathError stage e.
Definition markWSSTransportError (stage frontID : string) (e : goerr) : goerr :=
  if isSocketProtectionFailure e then markLocalCandidateError "socket_protection" e
  else wssTransportError stage frontID e.
Definition markRelayFailureRecorded (e : goerr) : goerr := relayFailureRecordedError e.

Definition accessTransportWSS : string := "wss".
Definition wssTicketAttemptLimit : Z := 5 * second.
Definition wssTicketDefaultRetry : Z := 10 * second.
Definition wssTicketMaxRetry : Z := 30 * second.
Definition wssTicketTotalDeadline : Z := 15 * second.

Definition wssRetryAfter (e : goerr) : Z :=
  match errorsAs (λ e, match e with WSSTicketStatusError c r => Some (c, r) | _ => None end) e with
  | None => 0
  | Some (code, retryAfter) =>
      if (code =? 429) || (code =? 503) then
        if 0 <? retryAfter then retryAfter else wssTicketDefaultRetry
      else 0
  end.

(** * What the engine does, as seen from outside *)
Inductive event :=
| EvRelayAttemptFailed (relayID : string) (attempt : Z)   (* telemetry relay_attempt_failed *)
| EvTransportFallback (relayID : string)                  (* telemetry transport_fallback *)
| EvWSSTransportFailed (relayID : string)                 (* telemetry wss failure *)
| EvPunchSkipped (relayID : string)                       (* telemetry punch_skipped *)
| EvNoticeWSSFallback (relayID frontID : string)
| EvNoticeTicketRetry (relayID frontID : string) (wait : Z)
| EvDialRelay (host : string) (port : Z)
| EvTicketRequest (broker relayID frontID : string)
| EvWaitRetry (d : Z)
| EvDialWSS (url : string)
| EvPunchOpen | EvPunchClose
| EvBridgeOpen | EvBridgeClose
| EvRunStart | EvRunStop
| EvCancel.

Record PunchPath := {
  BridgeHost : string;
  BridgePort : Z;
  PeerIP : string
}.

Record WSSTicketResponse := {
  ticketURL : string;
  Ticket : string;
  ticketExpiresAt : Z
}.

Record SingBoxConfigInput := {
  ciRelay : RelayDescriptor;
  ciTUN : bool;
  ciDNSServers : list string;
  ciIPv6Disabled : bool;
  ciDNSStrategy : string;
  ciMTU : Z;
  ciProxyListenAddress : string;
  ciProxyListenPort : Z;
  ciBridgeHost : string;
  ciBridgePort : Z;
  ciPunchPeerExcludeAddress : string
}.

Record candidateResult := {
  cr_relay : RelayDescriptor;
  cr_accessTransport : string;
  cr_frontID : string;
  cr_run : bool;          (* run != nil *)
  cr_punch : bool;        (* punch != nil *)
  cr_bridge : bool;       (* wssBridge != nil *)
  cr_proxyPort : Z;
  cr_tcpMS : option Z;    (* None is hasTCPMS = false *)
  cr_transportMS : Z;
  cr_startMS : Z;
  cr_probeMS : Z;
  cr_attempt : Z;
  cr_brokerIndex : Z;
  cr_rankProbeMS : option Z;
  cr_netEpoch : Z
}.

Definition withRun (r : candidateResult) : candidateResult :=
  {| cr_relay := cr_relay r; cr_accessTransport := cr_accessTransport r;
     cr_frontID := cr_frontID r; cr_run := true; cr_punch := cr_punch r;
     cr_bridge := cr_bridge r; cr_proxyPort := cr_proxyPort r; cr_tcpMS := cr_tcpMS r;
     cr_transportMS := cr_transportMS r; cr_startMS := cr_startMS r;
     cr_probeMS := cr_probeMS r; cr_attempt := cr_attempt r;
     cr_brokerIndex := cr_brokerIndex r; cr_rankProbeMS := cr_rankProbeMS r;
     cr_netEpoch := cr_netEpoch r |}.
Definition withTimes (start probe : Z) (r : candidateResult) : candidateResult :=
  {| cr_relay := cr_relay r; cr_accessTransport := cr_accessTransport r;
     cr_frontID := cr_frontID r; cr_run := cr_run r; cr_punch := cr_punch r;
     cr_bridge := cr_bridge r; cr_proxyPort := cr_proxyPort r; cr_tcpMS := cr_tcpMS r;
     cr_transportMS := cr_transportMS r; cr_startMS := start; cr_probeMS := probe;
     cr_attempt := cr_attempt r; cr_brokerIndex := cr_brokerIndex r;
     cr_rankProbeMS := cr_rankProbeMS r; cr_netEpoch := cr_netEpoch r |}.

(** Engine settings the ladder reads. *)
Record EngineConfig := {
  tunMode : bool;
  mobile : bool;                    (* s.Mobile != nil *)
  tunnelDNSServers : list string;
  tunnelDNSIPv6Disabled : bool;
  TunnelMTU : Z;
  PunchEnabled : bool;
  hasPunchEstablisher : bool;
  wssTicketBudget : Z;
  brokerURL : string;               (* connBrokerURL(conn) *)
  DefaultBrokerURLs : list string
}.

(** * The environment *)
Record Env (W : Type) := {
  env_ctxErr : W → bool * W;                     (* ctx.Err() != nil *)
  env_candCtxErr : W → bool * W;                 (* res.ctx.Err() != nil *)
  env_now : W → Z * W;
  env_networkEpoch : W → Z * W;
  env_mobileConfig : SingBoxConfigInput → W → result goerr SingBoxConfigInput * W;
  env_relayDial : string → Z → W → result goerr Z * W;
  env_attemptPunch : RelayDescriptor → W → option PunchPath * W;
  env_buildConfig : SingBoxConfigInput → result goerr string;
  env_run : string → W → result goerr bool * W;  (* false: no run and no error *)
  env_awaitReady : W → result goerr Z * W;
  env_probe : W → result goerr Z * W;
  env_requestTicket : string → string → string → Z → W → result goerr WSSTicketResponse * W;
  env_waitRetry : Z → W → option goerr * W;
  env_dialWSS : string → string → W → result goerr (string * Z) * W;
  env_loopbackIP : string → option string;       (* ParseIP(Trim(host)), loopback *)
  env_supportedWSSFronts : RelayDescriptor → list RelayWSSFront;
  env_endpointUnbound : string → bool            (* EndpointUnboundBrokerFront *)
}.
Arguments env_ctxErr {W}. Arguments env_candCtxErr {W}. Arguments env_now {W}.
Arguments env_networkEpoch {W}. Arguments env_mobileConfig {W}. Arguments env_relayDial {W}.
Arguments env_attemptPunch {W}. Arguments env_buildConfig {W}. Arguments env_run {W}.
Arguments env_awaitReady {W}. Arguments env_probe {W}. Arguments env_requestTicket {W}.
Arguments env_waitRetry {W}. Arguments env_dialWSS {W}. Arguments env_loopbackIP {W}.
Arguments env_supportedWSSFronts {W}. Arguments env_endpointUnbound {W}.

Section ladder.
Context {W : Type} (env : Env W) (cfg : EngineConfig) (punchBreaker : punchRecoveryBreaker).

(** The mutable part the ladder touches: the world and the connection's
    [wssTicketRetryUsed]. *)
Record St := mkSt { world : W; wssTicketRetryUsed : bool }.

Definition M (A : Type) : Type := St → A * list event * St.
Definition mret {A} (a : A) : M A := λ s, (a, [], s).
Definition mbind {A B} (m : M A) (k : A → M B) : M B := λ s,
  let '(a, t1, s1) := m s in
  let '(b, t2, s2) := k a s1 in
  (b, t1 ++ t2, s2).
Definition emit (e : event) : M () := λ s, ((), [e], s).
Definition ask {A} (f : W → A * W) : M A := λ s,
  let '(a, w) := f (world s) in (a, [], mkSt w (wssTicketRetryUsed s)).
Definition getRetryUsed : M bool := λ s, (wssTicketRetryUsed s, [], s).
Definition setRetryUsed (b : bool) : M () := λ s, ((), [], mkSt (world s) b).

Lemma mbind_ask {A B} (f : W → A * W) (k : A → M B) s :
  mbind (ask f) k s = k (f (world s)).1 (mkSt (f (world s)).2 (wssTicketRetryUsed s)).
Proof. unfold mbind, ask. destruct (f (world s)). simpl. by destruct (k _ _) as [[??]?]. Qed.

Lemma mbind_getRetryUsed {B} (k : bool → M B) s :
  mbind getRetryUsed k s = k (wssTicketRetryUsed s) s.
Proof. unfold mbind, getRetryUsed. simpl. by destruct (k _ _) as [[??]?]. Qed.

Lemma mbind_setRetryUsed {B} b (k : () → M B) s :
  mbind (setRetryUsed b) k s = k () (mkSt (world s) b).
Proof. unfold mbind, setRetryUsed. simpl. by destruct (k _ _) as [[??]?]. Qed.

Notation "x <- m ;; k" := (mbind m (λ x, k)) (at level 100, m at next level, right associativity).
Notation "m ;;; k" := (mbind m (λ _, k)) (at level 100, right associativity).

(** [candidateResult.teardown] in its pinned order: cancel, stop the run, close
    the punched path, close the WSS adapter. *)
Definition teardown (r : candidateResult) : M () :=
  emit EvCancel ;;;
  (if cr_run r then emit EvRunStop else mret ()) ;;;
  (if cr_punch r then emit EvPunchClose else mret ()) ;;;
  (if cr_bridge r then emit EvBridgeClose else mret ()).

Definition candidateConfigInput (cand : RelayDescriptor) (port : Z) : SingBoxConfigInput :=
  {| ciRelay := cand; ciTUN := tunMode cfg;
     ciDNSServers := tunnelDNSServers cfg;
     ciIPv6Disabled := tunnelDNSIPv6Disabled cfg;
     ciDNSStrategy := if tunnelDNSIPv6Disabled cfg then "ipv4_only" else "";
     ciMTU := if tunMode cfg then TunnelMTU cfg else 0;
     ciProxyListenAddress := if tunMode cfg then "" else "127.0.0.1";
     ciProxyListenPort := if tunMode cfg then 0 else port;
     ciBridgeHost := ""; ciBridgePort := 0; ciPunchPeerExcludeAddress := "" |}.

Definition withBridge (i : SingBoxConfigInput) (host : string) (port : Z) (peer : string)
    : SingBoxConfigInput :=
  {| ciRelay := ciRelay i; ciTUN := ciTUN i; ciDNSServers := ciDNSServers i;
     ciIPv6Disabled := ciIPv6Disabled i; ciDNSStrategy := ciDNSStrategy i; ciMTU := ciMTU i;
     ciProxyListenAddress := ciProxyListenAddress i; ciProxyListenPort := ciProxyListenPort i;
     ciBridgeHost := host; ciBridgePort := port; ciPunchPeerExcludeAddress := peer |}.

(** The mobile host's settings are applied before anything is dialed. *)
Definition mobileConfig (i : SingBoxConfigInput) : M (result goerr SingBoxConfigInput) :=
  if mobile cfg then ask (env_mobileConfig env i) else mret (Ok i).

Definition maybePunch (cand : RelayDescriptor) : M (option PunchPath) :=
  if PunchEnabled cfg && rd_PunchCapable cand && hasPunchEstablisher cfg &&
     negb (allowsDirectPunch punchBreaker (rd_ID cand))
  then emit (EvPunchSkipped (rd_ID cand)) ;;; mret None
  else ask (env_attemptPunch env cand).

(** The stage of a failed end-to-end probe. *)
Definition probeStage (default_stage : string) (e : goerr) : string :=
  default default_stage (remotePathStage e).

Definition classifyProbeError (res : candidateResult) (e : goerr) : goerr :=
  match localCandidateErrorStage e, wssTransportStage e with
  | Some _, _ => e
  | None, Some _ => e
  | None, None =>
      if str_eqb (cr_accessTransport res) TransportDirect || str_eqb (cr_accessTransport res) "punch"
      then markDirectPathError (probeStage "internet_probe" e) e
      else if str_eqb (cr_accessTransport res) accessTransportWSS
      then markWSSTransportError (probeStage "wss_internet_probe" e) (cr_frontID res) e
      else e
  end.

Definition startCandidate (res : candidateResult) (input : SingBoxConfigInput)
    : M (result goerr candidateResult) :=
  match env_buildConfig env input with
  | Err e => teardown res ;;; mret (Err (markLocalCandidateError "config" e))
  | Ok json =>
      run <- ask (env_run env json) ;;
      match run with
      | Err e =>
          teardown res ;;;
          mret (Err (match localCandidateErrorStage e with
                     | Some _ => e
                     | None => markLocalCandidateError "tunnel_start" e
                     end))
      | Ok false =>
          teardown res ;;;
          mret (Err (markLocalCandidateError "tunnel_start" (ErrMsg "runtime returned no run")))
      | Ok true =>
          emit EvRunStart ;;;
          let res := withRun res in
          cancelled <- ask (env_candCtxErr env) ;;
          match cancelled with
          | true => teardown res ;;; mret (Err ErrContext)
          | false =>
              ready <- ask (env_awaitReady env) ;;
              match ready with
              | Err e =>
                  teardown res ;;;
                  mret (Err (match wssTransportStage e with
                             | Some _ => e
                             | None => markLocalCandidateError "tunnel_start" e
                             end))
              | Ok startMS =>
                  probe <- ask (env_probe env) ;;
                  match probe with
                  | Err e => teardown res ;;; mret (Err (classifyProbeError res e))
                  | Ok probeMS => mret (Ok (withTimes startMS probeMS res))
                  end
              end
          end
      end
  end.

Definition attemptDirectCandidate (cand : RelayDescriptor) (port attempt : Z)
    : M (result goerr candidateResult) :=
  epoch <- ask (env_networkEpoch env) ;;
  input <- mobileConfig (candidateConfigInput cand port) ;;
  match input with
  | Err e => mret (Err (markLocalCandidateError "config" e))
  | Ok input =>
      emit (EvDialRelay (rd_PublicHost cand) (rd_PublicPort cand)) ;;;
      tcp <- ask (env_relayDial env (rd_PublicHost cand) (rd_PublicPort cand)) ;;
      match tcp with
      | Err e => mret (Err (markDirectPathError "tcp" e))
      | Ok tcpMS =>
          punch <- maybePunch cand ;;
          let res transport punched :=
            {| cr_relay := cand; cr_accessTransport := transport; cr_frontID := "";
               cr_run := false; cr_punch := punched; cr_bridge := false; cr_proxyPort := port;
               cr_tcpMS := Some tcpMS; cr_transportMS := 0; cr_startMS := 0; cr_probeMS := 0;
               cr_attempt := attempt; cr_brokerIndex := -1; cr_rankProbeMS := None;
               cr_netEpoch := epoch |} in
          match punch with
          | Some est =>
              emit EvPunchOpen ;;;
              startCandidate (res "punch"%string true)
                (withBridge input (BridgeHost est) (BridgePort est) (PeerIP est))
          | None => startCandidate (res TransportDirect false) input
          end
      end
  end.

(** [wssTicketBrokerFronts]: the session's front first, then the defaults,
    trimmed, without blanks, endpoint-unbound fronts or duplicates. *)
Fixpoint addFronts (seen : list string) (values : list string) : list string :=
  match values with
  | [] => seen
  | v :: vs =>
      let v := TrimSpace v in
      if str_empty v || env_endpointUnbound env v || bool_decide (v ∈ seen)
      then addFronts seen vs
      else addFronts (seen ++ [v]) vs
  end.

Definition wssTicketBrokerFronts (primary : string) : list string :=
  addFronts [] (primary :: DefaultBrokerURLs cfg).

Definition deadlineExceeded (firstErr : option goerr) : goerr :=
  default (ErrMsg "WSS ticket request deadline exceeded") firstErr.

(** One pass over the broker fronts: [inl] is a return of the whole request,
    [inr] the first error so far and the longest Retry-After hint. *)
Fixpoint tryFronts (fronts : list string) (relayID frontID : string) (deadline : Z)
    (firstErr : option goerr) (retryAfter : Z)
    : M (result goerr WSSTicketResponse + option goerr * Z) :=
  match fronts with
  | [] => mret (inr (firstErr, retryAfter))
  | u :: rest =>
      now <- ask (env_now env) ;;
      let remaining := time_sub deadline now in
      if remaining <=? 0 then mret (inl (Err (deadlineExceeded firstErr))) else
      let limit := if remaining <? wssTicketAttemptLimit then remaining else wssTicketAttemptLimit in
      emit (EvTicketRequest u relayID frontID) ;;;
      r <- ask (env_requestTicket env u relayID frontID limit) ;;
      match r with
      | Ok ticket => mret (inl (Ok ticket))
      | Err e =>
          if isSocketProtectionFailure e then mret (inl (Err e)) else
          let firstErr := match firstErr with Some f => Some f | None => Some e end in
          let retryAfter := if retryAfter <? wssRetryAfter e then wssRetryAfter e else retryAfter in
          cancelled <- ask (env_candCtxErr env) ;;
          match cancelled with
          | true => mret (inl (Err ErrContext))
          | false => tryFronts rest relayID frontID deadline firstErr retryAfter
          end
      end
  end.

(** The two rounds; [rounds] counts those left, and running out is the source's
    unreachable panic.  In the first-round exits [firstErr] is set whenever a
    front was tried, and there is at least one. *)
Definition errPanic : goerr := ErrMsg "unreachable".

Fixpoint ticketRounds (rounds : nat) (first : bool) (fronts : list string)
    (relayID frontID : string) (deadline : Z) (firstErr : option goerr)
    : M (result goerr WSSTicketResponse) :=
  match rounds with
  | O => mret (Err errPanic)
  | S rounds' =>
      pass <- tryFronts fronts relayID frontID deadline firstErr 0 ;;
      match pass with
      | inl r => mret r
      | inr (firstErr, retryAfter) =>
          used <- getRetryUsed ;;
          if negb first || (retryAfter <=? 0) || used
          then mret (Err (default errPanic firstErr)) else
          let retryAfter := if wssTicketMaxRetry <? retryAfter then wssTicketMaxRetry else retryAfter in
          now <- ask (env_now env) ;;
          if time_sub deadline now <=? retryAfter
          then mret (Err (default errPanic firstErr)) else
          setRetryUsed true ;;;
          emit (EvNoticeTicketRetry relayID frontID retryAfter) ;;;
          emit (EvWaitRetry retryAfter) ;;;
          waited <- ask (env_waitRetry env retryAfter) ;;
          match waited with
          | Some e => mret (Err e)
          | None => ticketRounds rounds' false fronts relayID frontID deadline firstErr
          end
      end
  end.

Definition requestWSSSessionTicket (relayID frontID : string)
    : M (result goerr WSSTicketResponse) :=
  let fronts := wssTicketBrokerFronts (brokerURL cfg) in
  if (length fronts =? 0)%nat
  then mret (Err (ErrMsg "no HTTPS broker fronts configured for WSS ticket")) else
  let budget := if wssTicketBudget cfg <=? 0 then wssTicketTotalDeadline else wssTicketBudget cfg in
  now <- ask (env_now env) ;;
  ticketRounds 2 true fronts relayID frontID (time_add now budget) None.

Definition attemptWSSCandidate (cand : RelayDescriptor) (front : RelayWSSFront)
    (port attempt : Z) : M (result goerr candidateResult) :=
  epoch <- ask (env_networkEpoch env) ;;
  input <- mobileConfig (candidateConfigInput cand port) ;;
  match input with
  | Err e => mret (Err (markLocalCandidateError "config" e))
  | Ok input =>
      ticket <- requestWSSSessionTicket (rd_ID cand) (FrontID front) ;;
      match ticket with
      | Err e =>
          emit EvCancel ;;;
          mret (Err (markWSSTransportError "ticket" (FrontID front) (ErrWrap "request WSS ticket" e)))
      | Ok t =>
          if negb (str_eqb (ticketURL t) (FrontURL front)) then
            emit EvCancel ;;;
            mret (Err (markWSSTransportError "ticket_binding" (FrontID front)
              (ErrMsg "WSS ticket URL does not match the signed relay front")))
          else
          now <- ask (env_now env) ;;
          if negb (time_after (ticketExpiresAt t) now) then
            emit EvCancel ;;;
            mret (Err (markWSSTransportError "ticket_expired" (FrontID front)
              (ErrMsg "WSS ticket is already expired")))
          else
          started <- ask (env_now env) ;;
          emit (EvDialWSS (FrontURL front)) ;;;
          bridge <- ask (env_dialWSS env (FrontURL front) (Ticket t)) ;;
          match bridge with
          | Err e =>
              emit EvCancel ;;;
              mret (Err (markWSSTransportError "wss_handshake" (FrontID front)
                (ErrWrap "connect WSS front" e)))
          | Ok (host, bport) =>
              emit EvBridgeOpen ;;;
              match env_loopbackIP env host with
              | Some ip =>
                  if (bport <? 1) || (65535 <? bport) then
                    emit EvCancel ;;; emit EvBridgeClose ;;;
                    mret (Err (markWSSTransportError "local_adapter" (FrontID front)
                      (ErrMsg "WSS adapter returned no safe loopback endpoint")))
                  else
                  finished <- ask (env_now env) ;;
                  startCandidate
                    {| cr_relay := cand; cr_accessTransport := accessTransportWSS;
                       cr_frontID := FrontID front; cr_run := false; cr_punch := false;
                       cr_bridge := true; cr_proxyPort := port; cr_tcpMS := None;
                       cr_transportMS := milliseconds (time_sub finished started);
                       cr_startMS := 0; cr_probeMS := 0; cr_attempt := attempt;
                       cr_brokerIndex := -1; cr_rankProbeMS := None; cr_netEpoch := epoch |}
                    (withBridge input ip bport (ciPunchPeerExcludeAddress input))
              | None =>
                  emit EvCancel ;;; emit EvBridgeClose ;;;
                  mret (Err (markWSSTransportError "local_adapter" (FrontID front)
                    (ErrMsg "WSS adapter returned no safe loopback endpoint")))
              end
          end
      end
  end.

(** The loop over a relay's fronts in [attemptCandidate]. *)
Fixpoint frontLoop (cand : RelayDescriptor) (fronts : list RelayWSSFront) (port attempt : Z)
    (directErr lastErr : goerr) : M (result goerr candidateResult) :=
  match fronts with
  | [] => mret (Err (markRelayFailureRecorded
            (ErrWrap "direct path failed; WSS fallback failed" lastErr)))
  | front :: rest =>
      emit (EvNoticeWSSFallback (rd_ID cand) (FrontID front)) ;;;
      r <- attemptWSSCandidate cand front port attempt ;;
      match r with
      | Ok res => mret (Ok res)
      | Err e =>
          cancelled <- ask (env_ctxErr env) ;;
          match cancelled with
          | true => mret (Err ErrContext)
          | false =>
              match localCandidateErrorStage e with
              | Some _ => mret (Err e)
              | None =>
                  (match wssTransportStage e with
                   | Some _ => emit (EvWSSTransportFailed (rd_ID cand))
                   | None => mret ()
                   end) ;;;
                  frontLoop cand rest port attempt directErr e
              end
          end
      end
  end.

Definition attemptCandidate (cand : RelayDescriptor) (port attempt : Z)
    : M (result goerr candidateResult) :=
  direct <- attemptDirectCandidate cand port attempt ;;
  match direct with
  | Ok res => mret (Ok res)
  | Err directErr =>
      cancelled <- ask (env_ctxErr env) ;;
      match cancelled with
      | true => mret (Err ErrContext)
      | false =>
          match directPathErrorStage directErr with
          | None => mret (Err directErr)
          | Some _ =>
              let fronts := env_supportedWSSFronts env cand in
              if (length fronts =? 0)%nat then mret (Err directErr) else
              if tunMode cfg && negb (mobile cfg) then mret (Err directErr) else
              emit (EvRelayAttemptFailed (rd_ID cand) attempt) ;;;
              emit (EvTransportFallback (rd_ID cand)) ;;;
              frontLoop cand fronts port attempt directErr directErr
          end
      end
  end.

Fixpoint ladderLoop (cands : list RelayDescriptor) (port attempt : Z) (lastErr : option goerr)
    : M (result goerr candidateResult) :=
  match cands with
  | [] => mret (Err (ErrWrap "All relay connection attempts failed. Last error"
                       (default (ErrMsg "<nil>") lastErr)))
  | cand :: rest =>
      cancelled <- ask (env_ctxErr env) ;;
      match cancelled with
      | true => mret (Err ErrContext)
      | false =>
          r <- attemptCandidate cand port attempt ;;
          match r with
          | Ok res => mret (Ok res)
          | Err e =>
              cancelled <- ask (env_ctxErr env) ;;
              match cancelled with
              | true => mret (Err ErrContext)
              | false =>
                  match localCandidateErrorStage e with
                  | Some _ => mret (Err (ErrWrap "local VPN setup failed" e))
                  | None =>
                      (if relayFailureAlreadyRecorded e then mret ()
                       else emit (EvRelayAttemptFailed (rd_ID cand) attempt)) ;;;
                      ladderLoop rest port (attempt + 1) (Some e)
                  end
              end
          end
      end
  end.

Definition runLadder (cands : list RelayDescriptor) (port : Z) : M (result goerr candidateResult) :=
  setRetryUsed false ;;;
  ladderLoop cands port 1 None.

(** * Reasoning about traces

    A trace is judged by an automaton: [delta] consumes one event, and [None]
    rejects.  [spec delta m x Q] says that [m], from any world, produces a trace
    the automaton accepts from [x], ending in a state and result satisfying
    [Q]. *)
Section spec.
Context {X : Type} (delta : X → event → option X).

Fixpoint accept (x : X) (tr : list event) : option X :=
  match tr with
  | [] => Some x
  | e :: tr' => delta x e ≫= λ x', accept x' tr'
  end.

Lemma accept_app x t1 t2 : accept x (t1 ++ t2) = accept x t1 ≫= λ x', accept x' t2.
Proof.
  revert x. induction t1 as [|e t1 IH]; intros x; simpl; [done|].
  destruct (delta x e); simpl; [apply IH|done].
Qed.

Definition spec {A} (m : M A) (x : X) (Q : A → X → St → Prop) : Prop :=
  ∀ s, ∃ x', accept x (m s).1.2 = Some x' ∧ Q (m s).1.1 x' (m s).2.

Lemma spec_ret {A} (a : A) x (Q : A → X → St → Prop) : (∀ s, Q a x s) → spec (mret a) x Q.
Proof. intros H s. exists x. split; [done|apply H]. Qed.

Lemma spec_bind {A B} (m : M A) (k : A → M B) x R (Q : B → X → St → Prop) :
  spec m x R → (∀ a x1 s, R a x1 s → ∃ x2, accept x1 (k a s).1.2 = Some x2 ∧
                                         Q (k a s).1.1 x2 (k a s).2) →
  spec (mbind m k) x Q.
Proof.
  intros Hm Hk s. destruct (Hm s) as (x1 & Ha & HR). specialize (Hk _ _ _ HR) as (x2 & Hb & HQ).
  unfold mbind. destruct (m s) as [[a t1] s1]. simpl in *.
  destruct (k a s1) as [[b t2] s2]. simpl in *.
  exists x2. split; [|done]. rewrite accept_app, Ha. done.
Qed.

(** Sequencing when the world does not matter. *)
Lemma spec_seq {A B} (m : M A) (k : A → M B) x (R : A → X → Prop) (Q : B → X → St → Prop) :
  spec m x (λ a x1 _, R a x1) → (∀ a x1, R a x1 → spec (k a) x1 Q) → spec (mbind m k) x Q.
Proof. intros Hm Hk. eapply spec_bind; [exact Hm|]. intros a x1 s HR. by apply Hk. Qed.

Lemma spec_emit e x x' (Q : () → X → St → Prop) :
  delta x e = Some x' → (∀ s, Q () x' s) → spec (emit e) x Q.
Proof. intros He H s. exists x'. simpl. rewrite He. eauto. Qed.

Lemma spec_emit_seq {B} e x x' (k : () → M B) (Q : B → X → St → Prop) :
  delta x e = Some x' → spec (k ()) x' Q → spec (mbind (emit e) k) x Q.
Proof.
  intros He Hk. eapply (spec_seq _ _ _ (λ _ x1, x1 = x')); [by apply (spec_emit _ _ x')|].
  intros [] x1 ->. done.
Qed.

Lemma spec_ask {A} (f : W → A * W) x (Q : A → X → St → Prop) :
  (∀ s, Q (f (world s)).1 x (mkSt (f (world s)).2 (wssTicketRetryUsed s))) → spec (ask f) x Q.
Proof. intros H s. exists x. unfold ask. specialize (H s). by destruct (f (world s)). Qed.

Lemma spec_ask_seq {A B} (f : W → A * W) x (k : A → M B) (Q : B → X → St → Prop) :
  (∀ a, spec (k a) x Q) → spec (mbind (ask f) k) x Q.
Proof.
  intros Hk. eapply (spec_seq _ _ _ (λ _ x1, x1 = x)); [by apply spec_ask|].
  intros a x1 ->. apply Hk.
Qed.

Lemma spec_weaken {A} (m : M A) x (Q R : A → X → St → Prop) :
  spec m x Q → (∀ a x1 s, Q a x1 s → R a x1 s) → spec m x R.
Proof. intros Hm H s. destruct (Hm s) as (x1 & ? & ?). eauto. Qed.
End spec.
End ladder.

(** The notations of the monad, for the proofs below. *)
Ltac spec_step :=
  lazymatch goal with
  | |- spec _ (mbind (ask _) _) _ _ => apply spec_ask_seq; intros ?
  | |- spec _ (mbind (emit _) _) _ _ => eapply spec_emit_seq; [reflexivity|]
  | |- spec _ (mret _) _ _ => apply spec_ret; intros ?
  | |- spec _ (match ?x with _ => _ end) _ _ => destruct x eqn:?
  | |- spec _ (let _ := _ in _) _ _ => cbv zeta
  end.

(** * Resources

    The live resources of the ladder, and the discipline: one tunnel run at a
    time; a path the run reads closes only after the run stopped; and nothing
    new is dialed while anything is still up. *)
Record resources := Res { liveRun : bool; livePunch : bool; liveBridge : bool }.
Definition noneLive : resources := Res false false false.

Definition idle (a : resources) : bool :=
  negb (liveRun a) && negb (livePunch a) && negb (liveBridge a).

Definition useResources (a : resources) (e : event) : option resources :=
  match e with
  | EvRunStart => if liveRun a then None else Some (Res true (livePunch a) (liveBridge a))
  | EvRunStop => if liveRun a then Some (Res false (livePunch a) (liveBridge a)) else None
  | EvPunchOpen => if idle a then Some (Res false true false) else None
  | EvPunchClose =>
      if livePunch a && negb (liveRun a) then Some (Res false false (liveBridge a)) else None
  | EvBridgeOpen => if idle a then Some (Res false false true) else None
  | EvBridgeClose =>
      if liveBridge a && negb (liveRun a) then Some (Res false (livePunch a) false) else None
  | EvDialRelay _ _ | EvTicketRequest _ _ _ | EvDialWSS _ => if idle a then Some a else None
  | _ => Some a
  end.

(** What is live when a step of the ladder returns: nothing on an error; on
    success the winner's run and exactly the winner's path. *)
Definition holds (r : result goerr candidateResult) (a : resources) : Prop :=
  match r with
  | Err _ => a = noneLive
  | Ok res => cr_run res = true ∧ a = Res true (cr_punch res) (cr_bridge res)
  end.

Section resources.
Context {W : Type} (env : Env W) (cfg : EngineConfig) (breaker : punchRecoveryBreaker).

Lemma teardown_spec res (Q : () → resources → St → Prop) :
  (∀ s, Q () noneLive s) →
  spec useResources (teardown (W := W) res) (Res (cr_run res) (cr_punch res) (cr_bridge res)) Q.
Proof.
  intros HQ s. exists noneLive. unfold teardown.
  destruct (cr_run res), (cr_punch res), (cr_bridge res); (split; [reflexivity|apply HQ]).
Qed.

Lemma teardown_seq {B} res (k : () → M B) Q :
  spec useResources (k ()) noneLive Q →
  spec useResources (mbind (W := W) (teardown res) k)
    (Res (cr_run res) (cr_punch res) (cr_bridge res)) Q.
Proof.
  intros Hk. eapply (spec_seq _ _ _ _ (λ _ x, x = noneLive)); [by apply teardown_spec|].
  by intros [] x ->.
Qed.

Lemma startCandidate_spec res input :
  cr_run res = false →
  spec useResources (startCandidate env res input)
    (Res false (cr_punch res) (cr_bridge res)) (λ r a _, holds r a).
Proof.
  intros Hrun. unfold startCandidate. rewrite <- Hrun at 1.
  destruct (env_buildConfig env input) as [json|e].
  2: { apply teardown_seq. by apply spec_ret. }
  apply spec_ask_seq. intros [[]|e].
  - rewrite Hrun. eapply spec_emit_seq; [reflexivity|].
    change (Res true _ _) with
      (Res (cr_run (withRun res)) (cr_punch (withRun res)) (cr_bridge (withRun res))).
    apply spec_ask_seq. intros []; [apply teardown_seq; by apply spec_ret|].
    apply spec_ask_seq. intros [startMS|e]; [|apply teardown_seq; by apply spec_ret].
    apply spec_ask_seq. intros [probeMS|e]; [|apply teardown_seq; by apply spec_ret].
    by apply spec_ret.
  - apply teardown_seq. by apply spec_ret.
  - apply teardown_seq. by apply spec_ret.
Qed.

Lemma mobileConfig_spec i : spec useResources (mobileConfig env cfg i) noneLive (λ _ a _, a = noneLive).
Proof. unfold mobileConfig. case_match; [by apply spec_ask|by apply spec_ret]. Qed.

Lemma attemptDirectCandidate_spec cand port attempt :
  spec useResources (attemptDirectCandidate env cfg breaker cand port attempt) noneLive (λ r a _, holds r a).
Proof.
  unfold attemptDirectCandidate. apply spec_ask_seq. intros epoch.
  eapply spec_seq; [apply (mobileConfig_spec _)|]. intros [input|e] a ->; [|by apply spec_ret].
  eapply spec_emit_seq; [reflexivity|]. apply spec_ask_seq.
  intros [tcpMS|e]; [|by apply spec_ret].
  eapply (spec_seq _ _ _ _ (λ _ a, a = noneLive)).
  { unfold maybePunch. case_match; [|by apply spec_ask].
    eapply spec_emit_seq; [reflexivity|]. by apply spec_ret. }
  intros [est|] a ->; [eapply spec_emit_seq; [reflexivity|]|]; by apply startCandidate_spec.
Qed.

Lemma tryFronts_spec fronts rid fid deadline first retry :
  spec useResources (tryFronts env fronts rid fid deadline first retry) noneLive
    (λ _ a _, a = noneLive).
Proof.
  revert first retry. induction fronts as [|u fronts IH]; intros first retry; simpl;
    [by apply spec_ret|].
  apply spec_ask_seq. intros now. case_match; [by apply spec_ret|].
  eapply spec_emit_seq; [reflexivity|]. apply spec_ask_seq.
  intros [t|e]; [by apply spec_ret|]. case_match; [by apply spec_ret|].
  apply spec_ask_seq. intros []; [by apply spec_ret|apply IH].
Qed.

Lemma ticketRounds_spec rounds first fronts rid fid deadline firstErr :
  spec useResources (ticketRounds env rounds first fronts rid fid deadline firstErr) noneLive
    (λ _ a _, a = noneLive).
Proof.
  revert first firstErr. induction rounds as [|rounds IH]; intros first firstErr; simpl;
    [by apply spec_ret|].
  eapply spec_seq; [apply tryFronts_spec|].
  intros [r|[fe retry]] a ->; [by apply spec_ret|].
  eapply (spec_seq _ _ _ _ (λ _ a, a = noneLive)); [by intros s; exists noneLive|].
  intros used a ->. case_match; [by apply spec_ret|].
  apply spec_ask_seq. intros now. case_match; [by apply spec_ret|].
  eapply (spec_seq _ _ _ _ (λ _ a, a = noneLive)); [by intros s; exists noneLive|].
  intros [] a ->. do 2 (eapply spec_emit_seq; [reflexivity|]).
  apply spec_ask_seq. intros [e|]; [by apply spec_ret|apply IH].
Qed.

Lemma requestWSSSessionTicket_spec rid fid :
  spec useResources (requestWSSSessionTicket env cfg rid fid) noneLive (λ _ a _, a = noneLive).
Proof.
  unfold requestWSSSessionTicket. case_match; [by apply spec_ret|].
  apply spec_ask_seq. intros now. apply ticketRounds_spec.
Qed.

Lemma attemptWSSCandidate_spec cand front port attempt :
  spec useResources (attemptWSSCandidate env cfg cand front port attempt) noneLive (λ r a _, holds r a).
Proof.
  unfold attemptWSSCandidate. apply spec_ask_seq. intros epoch.
  eapply spec_seq; [apply (mobileConfig_spec _)|]. intros [input|e] a ->; [|by apply spec_ret].
  eapply spec_seq; [apply requestWSSSessionTicket_spec|].
  intros [t|e] a ->; [|eapply spec_emit_seq; [reflexivity|]; by apply spec_ret].
  case_match; [eapply spec_emit_seq; [reflexivity|]; by apply spec_ret|].
  apply spec_ask_seq. intros now.
  case_match; [eapply spec_emit_seq; [reflexivity|]; by apply spec_ret|].
  apply spec_ask_seq. intros started. eapply spec_emit_seq; [reflexivity|].
  apply spec_ask_seq.
  intros [[host bport]|e]; [|eapply spec_emit_seq; [reflexivity|]; by apply spec_ret].
  eapply spec_emit_seq; [reflexivity|].
  destruct (env_loopbackIP env host) as [ip|].
  - case_match; [do 2 (eapply spec_emit_seq; [reflexivity|]); by apply spec_ret|].
    apply spec_ask_seq. intros finished. by apply startCandidate_spec.
  - do 2 (eapply spec_emit_seq; [reflexivity|]). by apply spec_ret.
Qed.

Lemma frontLoop_spec cand fronts port attempt de le :
  spec useResources (frontLoop env cfg cand fronts port attempt de le) noneLive (λ r a _, holds r a).
Proof.
  revert le. induction fronts as [|f fronts IH]; intros le; simpl; [by apply spec_ret|].
  eapply spec_emit_seq; [reflexivity|].
  eapply spec_seq; [apply attemptWSSCandidate_spec|].
  intros [res|e] a Ha; [by apply spec_ret|]. simpl in Ha. subst a.
  apply spec_ask_seq. intros []; [by apply spec_ret|].
  case_match; [by apply spec_ret|].
  eapply (spec_seq _ _ _ _ (λ _ a, a = noneLive)).
  - case_match; [by apply (spec_emit _ _ _ noneLive)|by apply spec_ret].
  - intros [] a ->. apply IH.
Qed.

Lemma attemptCandidate_spec cand port attempt :
  spec useResources (attemptCandidate env cfg breaker cand port attempt) noneLive (λ r a _, holds r a).
Proof.
  unfold attemptCandidate. eapply spec_seq; [apply attemptDirectCandidate_spec|].
  intros [res|e] a Ha; [by apply spec_ret|]. simpl in Ha. subst a.
  apply spec_ask_seq. intros []; [by apply spec_ret|].
  case_match; [|by apply spec_ret]. case_match; [by apply spec_ret|].
  case_match; [by apply spec_ret|].
  do 2 (eapply spec_emit_seq; [reflexivity|]). apply frontLoop_spec.
Qed.

Lemma ladderLoop_spec cands port attempt le :
  spec useResources (ladderLoop env cfg breaker cands port attempt le) noneLive (λ r a _, holds r a).
Proof.
  revert attempt le. induction cands as [|c cands IH]; intros attempt le; simpl;
    [by apply spec_ret|].
  apply spec_ask_seq. intros []; [by apply spec_ret|].
  eapply spec_seq; [apply attemptCandidate_spec|].
  intros [res|e] a Ha; [by apply spec_ret|]. simpl in Ha. subst a.
  apply spec_ask_seq. intros []; [by apply spec_ret|].
  case_match; [by apply spec_ret|].
  eapply (spec_seq _ _ _ _ (λ _ a, a = noneLive)).
  - case_match; [by apply spec_ret|by apply (spec_emit _ _ _ noneLive)].
  - intros [] a ->. apply IH.
Qed.

(** C3: the ladder owns its resources.  Whatever the world answers, the
    ladder's trace obeys the discipline (one tunnel run at a time, a punched
    path or WSS adapter closed only after the run that reads it stopped, no
    dial while anything is up); a failed ladder leaves nothing live, and a
    successful one leaves exactly the winner's run and path. *)
Theorem runLadder_resources (cands : list RelayDescriptor) (port : Z) (s : St) :
  let '(r, trace, _) := runLadder env cfg breaker cands port s in
  ∃ live, accept useResources noneLive trace = Some live ∧
    match r with
    | Err _ => live = noneLive
    | Ok res => cr_run res = true ∧ live = Res true (cr_punch res) (cr_bridge res)
    end.
Proof.
  destruct (runLadder env cfg breaker cands port s) as [[r tr] s'] eqn:E.
  unfold runLadder in E.
  assert (spec useResources (mbind (setRetryUsed false)
    (λ _, ladderLoop env cfg breaker cands port 1 None)) noneLive (λ r a _, holds r a)) as H.
  { eapply (spec_seq _ _ _ _ (λ _ a, a = noneLive)); [by intros st; exists noneLive|].
    intros [] a ->. apply ladderLoop_spec. }
  specialize (H s). rewrite E in H. simpl in H. destruct H as (a & Ha & Hh).
  exists a. by destruct r.
Qed.
End resources.

(** * Events and errors of each step

    [does m E R]: from any world, every event [m] performs satisfies [E] and its
    result satisfies [R]. *)
Section does.
Context {W : Type}.

Definition does {A} (m : @M W A) (E : event → Prop) (R : A → Prop) : Prop :=
  ∀ s, Forall E (m s).1.2 ∧ R (m s).1.1.

Lemma does_ret {A} (a : A) (E : event → Prop) (R : A → Prop) : R a → does (mret a) E R.
Proof. intros H s. split; [constructor|done]. Qed.

Lemma does_bind {A B} (m : M A) (k : A → M B) (E : event → Prop) R (Q : B → Prop) :
  does m E R → (∀ a, R a → does (k a) E Q) → does (mbind m k) E Q.
Proof.
  intros Hm Hk s. destruct (Hm s) as [H1 H2]. unfold mbind.
  destruct (m s) as [[a t1] s1]. simpl in *. destruct (Hk a H2 s1) as [H3 H4].
  destruct (k a s1) as [[b t2] s2]. simpl in *. by rewrite Forall_app.
Qed.

Lemma does_emit {B} e (k : () → M B) (E : event → Prop) (Q : B → Prop) :
  E e → does (k ()) E Q → does (mbind (emit e) k) E Q.
Proof.
  intros He Hk. apply (does_bind _ _ _ (λ _, True)); [|by intros []].
  intros s. simpl. by repeat constructor.
Qed.

Lemma does_ask {A B} (f : W → A * W) (k : A → M B) (E : event → Prop) (P : A → Prop) (Q : B → Prop) :
  (∀ w, P (f w).1) → (∀ a, P a → does (k a) E Q) → does (mbind (ask f) k) E Q.
Proof.
  intros Hf Hk. apply (does_bind _ _ _ P); [|done].
  intros s. unfold ask. specialize (Hf (world s)). destruct (f (world s)). by split.
Qed.

Lemma does_silent {A B} (m : M A) (k : A → M B) (E : event → Prop) (Q : B → Prop) :
  (∀ s, (m s).1.2 = []) → (∀ a, does (k a) E Q) → does (mbind m k) E Q.
Proof.
  intros Hm Hk. apply (does_bind _ _ _ (λ _, True)); [|auto].
  intros s. by rewrite Hm.
Qed.

Lemma does_weaken {A} (m : M A) (E E' : event → Prop) (R R' : A → Prop) :
  does m E R → (∀ e, E e → E' e) → (∀ a, R a → R' a) → does m E' R'.
Proof.
  intros Hm HE HR s. destruct (Hm s) as [H1 H2].
  split; [by eapply Forall_impl|by apply HR].
Qed.

(** An automaton that ignores every event of [E] does not move. *)
Lemma does_spec {X A} (delta : X → event → option X) (m : M A) E R x :
  does m E R → (∀ e, E e → delta x e = Some x) → spec delta m x (λ a x' _, x' = x ∧ R a).
Proof.
  intros Hm HE s. destruct (Hm s) as [H1 H2]. exists x. split; [|done].
  induction H1 as [|e l He _ IH]; simpl; [done|]. by rewrite HE by done.
Qed.

(** An automaton that never rejects an event of [E] accepts the trace. *)
Lemma does_accepted {X A} (delta : X → event → option X) (m : M A) E R x :
  does m E R → (∀ y e, E e → is_Some (delta y e)) → spec delta m x (λ a _ _, R a).
Proof.
  intros Hm HE s. destruct (Hm s) as [H1 H2]. revert x. generalize (m s).1.1 H2.
  clear H2. induction H1 as [|e l He _ IH]; intros a Ha x; simpl; [eauto|].
  destruct (HE x e He) as [y ->]. simpl. by apply IH.
Qed.
End does.

(** The resource events of a candidate, and the events of each kind of rung. *)
Definition resourceEvent (e : event) : Prop :=
  match e with
  | EvCancel | EvRunStart | EvRunStop | EvPunchOpen | EvPunchClose
  | EvBridgeOpen | EvBridgeClose => True
  | _ => False
  end.

Definition directEvent (cand : RelayDescriptor) (e : event) : Prop :=
  match e with
  | EvDialRelay h p => h = rd_PublicHost cand ∧ p = rd_PublicPort cand
  | EvPunchSkipped id => id = rd_ID cand
  | _ => resourceEvent e
  end.

Definition ticketEvent (brokers : list string) (rid fid : string) (e : event) : Prop :=
  match e with
  | EvTicketRequest u r f => u ∈ brokers ∧ r = rid ∧ f = fid
  | EvNoticeTicketRetry r f d => r = rid ∧ f = fid ∧ 0 < d ≤ wssTicketMaxRetry
  | EvWaitRetry d => 0 < d ≤ wssTicketMaxRetry
  | _ => False
  end.

Definition wssEvent (brokers : list string) (cand : RelayDescriptor) (front : RelayWSSFront)
    (e : event) : Prop :=
  ticketEvent brokers (rd_ID cand) (FrontID front) e ∨ resourceEvent e ∨
  e = EvDialWSS (FrontURL front).

(** Errors that do not carry the "already recorded" marker. *)
Definition unmarked {A} (r : result goerr A) : Prop :=
  match r with Ok _ => True | Err e => relayFailureAlreadyRecorded e = false end.

(** The outcome of one rung: a success describes that rung, an error is not
    marked. *)
Definition outcome (cand : RelayDescriptor) (attempt : Z) (r : result goerr candidateResult) : Prop :=
  match r with
  | Ok res => cr_relay res = cand ∧ cr_attempt res = attempt
  | Err e => relayFailureAlreadyRecorded e = false
  end.

(** What the code outside the ladder guarantees: only the ladder itself wraps an
    error in [relayFailureRecordedError], and a context that is done stays
    done. *)
Class EnvLaws {W} (env : Env W) : Prop := {
  law_mobileConfig i w : unmarked (env_mobileConfig env i w).1;
  law_relayDial h p w : unmarked (env_relayDial env h p w).1;
  law_buildConfig i : unmarked (env_buildConfig env i);
  law_run c w : unmarked (env_run env c w).1;
  law_awaitReady w : unmarked (env_awaitReady env w).1;
  law_probe w : unmarked (env_probe env w).1;
  law_requestTicket u r f d w : unmarked (env_requestTicket env u r f d w).1;
  law_waitRetry d w e : (env_waitRetry env d w).1 = Some e → relayFailureAlreadyRecorded e = false;
  law_dialWSS u t w : unmarked (env_dialWSS env u t w).1;
  law_ctxDone w : (env_ctxErr env w).1 = true → (env_ctxErr env (env_ctxErr env w).2).1 = true
}.

Lemma recorded_markDirectPathError st e :
  relayFailureAlreadyRecorded (markDirectPathError st e) = relayFailureAlreadyRecorded e.
Proof. unfold markDirectPathError, markLocalCandidateError. by case_match. Qed.
Lemma recorded_markWSSTransportError st f e :
  relayFailureAlreadyRecorded (markWSSTransportError st f e) = relayFailureAlreadyRecorded e.
Proof. unfold markWSSTransportError, markLocalCandidateError. by case_match. Qed.
Lemma recorded_classifyProbeError res e :
  relayFailureAlreadyRecorded (classifyProbeError res e) = relayFailureAlreadyRecorded e.
Proof.
  unfold classifyProbeError.
  repeat case_match; rewrite ?recorded_markDirectPathError, ?recorded_markWSSTransportError; done.
Qed.

Section events.
Context {W : Type} (env : Env W) `{!EnvLaws env} (cfg : EngineConfig) (breaker : punchRecoveryBreaker).

Lemma does_teardown {B} res (k : () → M B) (E : event → Prop) (Q : B → Prop) :
  (∀ e, resourceEvent e → E e) → does (k ()) E Q → does (mbind (W := W) (teardown res) k) E Q.
Proof.
  intros HE Hk. apply (does_bind _ _ _ (λ _, True)); [|by intros []].
  intros s. split; [|done].
  unfold teardown. destruct (cr_run res), (cr_punch res), (cr_bridge res); simpl;
    repeat (constructor; [by apply HE|]); constructor.
Qed.

Lemma does_startCandidate res input :
  does (startCandidate env res input) resourceEvent (outcome (cr_relay res) (cr_attempt res)).
Proof.
  unfold startCandidate. pose proof (law_buildConfig input) as Hc.
  destruct (env_buildConfig env input) as [json|e]; simpl in Hc.
  2: { apply does_teardown; [done|]. by apply does_ret. }
  eapply does_ask; [apply law_run|]. intros [[]|e] He; simpl in He.
  - apply does_emit; [done|].
    eapply (does_ask _ _ _ (λ _, True)); [done|].
    intros [] _; [apply does_teardown; [done|]; by apply does_ret|].
    eapply does_ask; [apply law_awaitReady|]. intros [startMS|e] He'; simpl in He'.
    2: { apply does_teardown; [done|]. apply does_ret. simpl. by case_match. }
    eapply does_ask; [apply law_probe|]. intros [probeMS|e] Hp; simpl in Hp.
    + by apply does_ret.
    + apply does_teardown; [done|]. apply does_ret. simpl. by rewrite recorded_classifyProbeError.
  - apply does_teardown; [done|]. by apply does_ret.
  - apply does_teardown; [done|]. apply does_ret. simpl. by case_match.
Qed.

Lemma does_mobileConfig {B} i (k : result goerr SingBoxConfigInput → M B) (E : event → Prop) Q :
  (∀ r, unmarked r → does (k r) E Q) → does (mbind (mobileConfig env cfg i) k) E Q.
Proof.
  intros Hk. unfold mobileConfig. case_match.
  - by eapply does_ask; [apply law_mobileConfig|].
  - eapply does_bind; [by apply (does_ret _ _ unmarked)|]. done.
Qed.

Lemma does_attemptDirectCandidate cand port attempt :
  does (attemptDirectCandidate env cfg breaker cand port attempt) (directEvent cand)
    (outcome cand attempt).
Proof.
  unfold attemptDirectCandidate.
  eapply (does_ask _ _ _ (λ _, True)); [done|]. intros epoch _.
  apply does_mobileConfig. intros [input|e] He; [|by apply does_ret].
  apply does_emit; [done|]. eapply does_ask; [apply law_relayDial|].
  intros [tcpMS|e] He'; [|apply does_ret; simpl; by rewrite recorded_markDirectPathError].
  assert (∀ r i, cr_relay r = cand → cr_attempt r = attempt →
    does (startCandidate env r i) (directEvent cand) (outcome cand attempt)) as Hstart.
  { intros r i <- <-. eapply does_weaken; [apply does_startCandidate| |done]. by intros []. }
  eapply (does_bind _ _ _ (λ _, True)).
  { unfold maybePunch. case_match.
    - apply does_emit; [done|]. by apply does_ret.
    - intros s. unfold ask. by destruct (env_attemptPunch env cand (world s)). }
  intros [est|] _; [apply does_emit; [done|]|]; by apply Hstart.
Qed.

Lemma does_tryFronts brokers fronts rid fid deadline first retry :
  (∀ u, u ∈ fronts → u ∈ brokers) →
  (∀ e, first = Some e → relayFailureAlreadyRecorded e = false) →
  does (tryFronts env fronts rid fid deadline first retry) (ticketEvent brokers rid fid)
    (λ r, match r with
          | inl r => unmarked r
          | inr (fe, _) => ∀ e, fe = Some e → relayFailureAlreadyRecorded e = false
          end).
Proof.
  revert first retry. induction fronts as [|u fronts IH]; intros first retry Hin Hf; simpl;
    [by apply does_ret|].
  eapply (does_ask _ _ _ (λ _, True)); [done|]. intros now _.
  case_match.
  { apply does_ret. simpl. unfold deadlineExceeded. destruct first; simpl; eauto. }
  apply does_emit; [simpl; split; [apply Hin; left|done]|].
  eapply does_ask; [apply law_requestTicket|].
  intros [t|e] He; [by apply does_ret|]. case_match; [by apply does_ret|].
  eapply (does_ask _ _ _ (λ _, True)); [done|]. intros [] _; [by apply does_ret|].
  apply IH; [intros; apply Hin; by right|]. intros e' He'. destruct first; simplify_eq; eauto.
Qed.

Lemma does_ticketRounds rounds first fronts rid fid deadline firstErr :
  (∀ e, firstErr = Some e → relayFailureAlreadyRecorded e = false) →
  does (ticketRounds env rounds first fronts rid fid deadline firstErr)
    (ticketEvent fronts rid fid) unmarked.
Proof.
  revert first firstErr. induction rounds as [|rounds IH]; intros first firstErr Hf; simpl;
    [by apply does_ret|].
  eapply does_bind; [by apply does_tryFronts|].
  intros [r|[fe retry]] Hr; [by apply does_ret|].
  assert (unmarked (A := WSSTicketResponse) (Err (default errPanic fe))) as Hfe
    by (destruct fe; simpl; eauto).
  apply does_silent; [done|]. intros used.
  destruct (negb first || (retry <=? 0) || used) eqn:Hg; [by apply does_ret|].
  eapply (does_ask _ _ _ (λ _, True)); [done|]. intros now _.
  case_match; [by apply does_ret|].
  apply does_silent; [done|]. intros [].
  assert (0 < (if wssTicketMaxRetry <? retry then wssTicketMaxRetry else retry)
            ≤ wssTicketMaxRetry) as Hb.
  { rewrite !orb_false_iff in Hg. unfold wssTicketMaxRetry, second, millisecond. cmp_lia. }
  do 2 (apply does_emit; [done|]).
  eapply (does_ask _ _ _ (λ o, ∀ e, o = Some e → relayFailureAlreadyRecorded e = false));
    [intros w e; apply law_waitRetry|].
  intros [e|] He; [apply does_ret; simpl; eauto|]. by apply IH.
Qed.

Lemma does_attemptWSSCandidate cand front port attempt :
  does (attemptWSSCandidate env cfg cand front port attempt)
    (wssEvent (wssTicketBrokerFronts env cfg (brokerURL cfg)) cand front) (outcome cand attempt).
Proof.
  set (brokers := wssTicketBrokerFronts env cfg (brokerURL cfg)).
  assert (∀ e, resourceEvent e → wssEvent brokers cand front e) as Hres by (right; by left).
  unfold attemptWSSCandidate.
  eapply (does_ask _ _ _ (λ _, True)); [done|]. intros epoch _.
  apply does_mobileConfig. intros [input|e] He; [|by apply does_ret].
  eapply (does_bind _ _ _ unmarked).
  { unfold requestWSSSessionTicket. case_match; [by apply does_ret|].
    eapply (does_ask _ _ _ (λ _, True)); [done|]. intros now _.
    eapply does_weaken; [by apply does_ticketRounds| |done]. by left. }
  intros [t|e] Ht.
  2: { apply does_emit; [by apply Hres|]. apply does_ret.
       simpl. by rewrite recorded_markWSSTransportError. }
  case_match; [apply does_emit; [by apply Hres|]; by apply does_ret|].
  eapply (does_ask _ _ _ (λ _, True)); [done|]. intros now _.
  case_match; [apply does_emit; [by apply Hres|]; by apply does_ret|].
  eapply (does_ask _ _ _ (λ _, True)); [done|]. intros started _.
  apply does_emit; [by right; right|]. eapply does_ask; [apply law_dialWSS|].
  intros [[host bport]|e] Hd.
  2: { apply does_emit; [by apply Hres|]. apply does_ret.
       simpl. by rewrite recorded_markWSSTransportError. }
  apply does_emit; [by apply Hres|].
  destruct (env_loopbackIP env host) as [ip|].
  - case_match; [do 2 (apply does_emit; [by apply Hres|]); by apply does_ret|].
    eapply (does_ask _ _ _ (λ _, True)); [done|]. intros finished _.
    eapply does_weaken; [apply does_startCandidate|exact Hres|done].
  - do 2 (apply does_emit; [by apply Hres|]). by apply does_ret.
Qed.
End events.

(** * Telemetry: each failed rung is reported once *)

(** The rungs reported as failed, in trace order. *)
Definition failures (trace : list event) : list (string * Z) :=
  omap (λ e, match e with EvRelayAttemptFailed id n => Some (id, n) | _ => None end) trace.

Fixpoint rungs (attempt : Z) (cands : list RelayDescriptor) : list (string * Z) :=
  match cands with
  | [] => []
  | c :: cands => (rd_ID c, attempt) :: rungs (attempt + 1) cands
  end.

Definition collect (x : list (string * Z)) (e : event) : option (list (string * Z)) :=
  Some (match e with EvRelayAttemptFailed id n => x ++ [(id, n)] | _ => x end).

Lemma accept_collect trace x : accept collect x trace = Some (x ++ failures trace).
Proof.
  revert x. induction trace as [|e trace IH]; intros x; simpl; [by rewrite app_nil_r|].
  rewrite IH. destruct e; try done. by rewrite <- (assoc_L (++)).
Qed.

Section failures.
Context {W : Type} (env : Env W) `{!EnvLaws env} (cfg : EngineConfig) (breaker : punchRecoveryBreaker).

(** The next time the engine looks, the context is done. *)
Definition ctxDone (s : @St W) : Prop := (env_ctxErr env (world s)).1 = true.

Lemma spec_ctxErr {X B} (delta : X → event → option X) x (k : bool → M B) Q :
  (∀ s, ctxDone s → ∃ x', accept delta x (k true s).1.2 = Some x' ∧ Q (k true s).1.1 x' (k true s).2) →
  spec delta (k false) x Q → spec delta (mbind (ask (env_ctxErr env)) k) x Q.
Proof.
  intros Ht Hf. eapply (spec_bind _ _ _ _ (λ b x' s, x' = x ∧ (b = true → ctxDone s))).
  - apply spec_ask. intros s. split; [done|]. apply law_ctxDone.
  - intros [] x1 s [-> Hs]; [by apply Ht; auto|by apply Hf].
Qed.

Lemma frontLoop_failures cand fronts port attempt de le x :
  spec collect (frontLoop env cfg cand fronts port attempt de le) x
    (λ r x' s, x' = x ∧
      match r with
      | Ok res => cr_relay res = cand ∧ cr_attempt res = attempt
      | Err e => relayFailureAlreadyRecorded e = true ∨ is_Some (localCandidateErrorStage e) ∨ ctxDone s
      end).
Proof.
  revert le. induction fronts as [|f fronts IH]; intros le; simpl.
  { apply spec_ret. intros s. split; [done|]. by left. }
  eapply spec_emit_seq; [reflexivity|].
  eapply spec_seq; [eapply does_spec; [exact (does_attemptWSSCandidate env cfg cand f port attempt)|]|].
  { intros e He. destruct e; try done. unfold wssEvent in He. naive_solver. }
  intros [res|e] x1 [-> Hr]; [by apply spec_ret|].
  apply spec_ctxErr; [intros s Hs; exists x; naive_solver|].
  case_match eqn:Hl; [apply spec_ret; naive_solver|].
  eapply (spec_seq _ _ _ _ (λ _ a, a = x)); [|intros [] a ->; apply IH].
  case_match; [by apply (spec_emit _ _ _ x)|by apply spec_ret].
Qed.

(** A rung appends its own failure at most once, and has done so when it returns
    an error carrying the marker. *)
Lemma attemptCandidate_failures cand port attempt x :
  spec collect (attemptCandidate env cfg breaker cand port attempt) x
    (λ r x' s, let own := x ++ [(rd_ID cand, attempt)] in
      match r with
      | Ok res => (x' = x ∨ x' = own) ∧ cr_relay res = cand ∧ cr_attempt res = attempt
      | Err e =>
          (relayFailureAlreadyRecorded e = true ∧ x' = own) ∨
          (relayFailureAlreadyRecorded e = false ∧ x' = x) ∨
          ((is_Some (localCandidateErrorStage e) ∨ ctxDone s) ∧ (x' = x ∨ x' = own))
      end).
Proof.
  unfold attemptCandidate.
  eapply spec_seq;
    [eapply does_spec; [exact (does_attemptDirectCandidate env cfg breaker cand port attempt)|]|].
  { by intros []. }
  intros [res|e] x1 [-> Hr]; [apply spec_ret; simpl in Hr; naive_solver|]. simpl in Hr.
  apply spec_ctxErr; [intros s Hs; exists x; naive_solver|].
  case_match; [|apply spec_ret; naive_solver]. case_match; [apply spec_ret; naive_solver|].
  case_match; [apply spec_ret; naive_solver|].
  do 2 (eapply spec_emit_seq; [reflexivity|]).
  eapply spec_weaken; [apply frontLoop_failures|]. intros [res|e'] x1 s' [-> ?]; naive_solver.
Qed.

Definition allFailed (r : result goerr candidateResult) : bool :=
  match r with Err (ErrWrap m _) => str_eqb m "All relay connection attempts failed. Last error" | _ => false end.

(** From [x], the ladder over [cands] reported the first [k] rungs: all of them
    when it gave up on every candidate, those before the winner (and possibly
    the winner's own direct path) when it connected. *)
Definition reported (cands : list RelayDescriptor) (attempt : Z) (x : list (string * Z))
    (r : result goerr candidateResult) (x' : list (string * Z)) : Prop :=
  ∃ k, (k ≤ length cands)%nat ∧ x' = x ++ take k (rungs attempt cands) ∧
    (allFailed r = true → k = length cands) ∧
    (∀ res, r = Ok res → ∃ i, cr_attempt res = attempt + Z.of_nat i ∧
       cands !! i = Some (cr_relay res) ∧ (k = i ∨ k = S i)).

Lemma reported_cons c cands attempt x r x' :
  reported cands (attempt + 1) (x ++ [(rd_ID c, attempt)]) r x' → reported (c :: cands) attempt x r x'.
Proof.
  intros (k & Hk & -> & Hall & Hok). exists (S k).
  split_and!; [simpl; lia|by rewrite <- (assoc_L (++))|intros; simpl; f_equal; by apply Hall|].
  intros res Hres. destruct (Hok res Hres) as (i & Hi & Hci & Hki).
  exists (S i). split_and!; [lia|done|lia].
Qed.

Lemma reported_here c cands attempt x r x' :
  x' = x ∨ x' = x ++ [(rd_ID c, attempt)] → allFailed r = false →
  (∀ res, r = Ok res → cr_relay res = c ∧ cr_attempt res = attempt) →
  reported (c :: cands) attempt x r x'.
Proof.
  intros Hx Hr Hok. destruct Hx as [->| ->]; [exists 0%nat|exists 1%nat];
    (split_and!; [simpl; lia|by rewrite ?app_nil_r|congruence|]);
    (intros res Hres; destruct (Hok res Hres) as [-> ->]; exists 0%nat;
     split_and!; [lia|done|auto]).
Qed.

Lemma ladderLoop_failures cands port attempt le x :
  spec collect (ladderLoop env cfg breaker cands port attempt le) x
    (λ r x' _, reported cands attempt x r x').
Proof.
  revert attempt le x. induction cands as [|c cands IH]; intros attempt le x; simpl.
  { apply spec_ret. intros _. exists 0%nat. rewrite app_nil_r. naive_solver. }
  eapply spec_ctxErr.
  { intros s _. exists x. split; [done|]. apply reported_here; [by left|done|intros ? [=]]. }
  eapply spec_bind; [apply attemptCandidate_failures|].
  intros [res|e] x1 s Hpost; simpl in Hpost.
  { exists x1. split; [done|]. apply reported_here; [naive_solver|done|intros ? [= <-]; naive_solver]. }
  rewrite mbind_ask.
  destruct (env_ctxErr env (world s)) as [isDone w] eqn:Hctx. simpl.
  assert (∀ e', allFailed (Err e') = false → reported (c :: cands) attempt x (Err e') x1) as Hstop.
  { intros e' He'. apply reported_here; [naive_solver|done|intros ? [=]]. }
  destruct isDone; [exists x1; split; [done|by apply Hstop]|].
  destruct (localCandidateErrorStage e) as [st|] eqn:Hl; [exists x1; split; [done|by apply Hstop]|].
  assert (¬ ctxDone s) as Hnd by (unfold ctxDone; by rewrite Hctx).
  match goal with |- context [mbind ?m ?k ?s0] =>
    enough (spec collect (mbind m k) x1 (λ r x' _, reported (c :: cands) attempt x r x')) as H
      by apply H end.
  eapply (spec_seq _ _ _ _ (λ _ x2, x2 = x ++ [(rd_ID c, attempt)])).
  - destruct (relayFailureAlreadyRecorded e) eqn:Hr; [apply spec_ret; naive_solver|].
    eapply spec_emit; [reflexivity|]. naive_solver.
  - intros [] x2 ->. eapply spec_weaken; [apply IH|]. intros r x' ?. apply reported_cons.
Qed.

(** each failed rung is reported exactly once.  Under the laws of the
    environment, the relay_attempt_failed events of a ladder name the first [k]
    candidates in ladder order, numbered from 1, each once: all of them when
    the ladder gives up on every candidate, and when it connects at candidate
    [i] all earlier ones, plus [i] itself only if its direct path failed before
    a WSS front won. *)
Lemma runLadder_reports_failures (cands : list RelayDescriptor) (port : Z) (s : St) :
  let '(r, trace, _) := runLadder env cfg breaker cands port s in
  ∃ k, (k ≤ length cands)%nat ∧ failures trace = take k (rungs 1 cands) ∧
    (allFailed r = true → k = length cands) ∧
    (∀ res, r = Ok res → ∃ i, cr_attempt res = 1 + Z.of_nat i ∧
       cands !! i = Some (cr_relay res) ∧ (k = i ∨ k = S i)).
Proof.
  destruct (runLadder env cfg breaker cands port s) as [[r tr] s'] eqn:E. unfold runLadder in E.
  rewrite mbind_setRetryUsed in E.
  destruct (ladderLoop_failures cands port 1 None [] (mkSt (world s) false)) as (x & Ha & HQ).
  rewrite E, accept_collect in Ha. rewrite E in HQ. simpl in *. by simplify_eq.
Qed.
End failures.

(** A world in which no relay answers, every broker asks to come back later and
    nothing is ever cancelled. *)
Definition offlineEnv : Env () := {|
  env_ctxErr w := (false, w); env_candCtxErr w := (false, w);
  env_now w := (0, w); env_networkEpoch w := (1, w);
  env_mobileConfig i w := (Ok i, w);
  env_relayDial _ _ w := (Err (ErrMsg "connection refused"), w);
  env_attemptPunch _ w := (None, w);
  env_buildConfig _ := Ok ""%string;
  env_run _ w := (Ok true, w);
  env_awaitReady w := (Ok 1, w);
  env_probe w := (Ok 1, w);
  env_requestTicket _ _ _ _ w := (Err (WSSTicketStatusError 503 0), w);
  env_waitRetry _ w := (None, w);
  env_dialWSS _ _ w := (Err (ErrMsg "connection refused"), w);
  env_loopbackIP _ := None;
  env_supportedWSSFronts := rd_WSSFronts;
  env_endpointUnbound _ := false |}.

Instance offlineEnv_laws : EnvLaws offlineEnv.
Proof. by split. Defined.

Definition exampleEngine : EngineConfig :=
  {| tunMode := false; mobile := false; tunnelDNSServers := []; tunnelDNSIPv6Disabled := false;
     TunnelMTU := 0; PunchEnabled := false; hasPunchEstablisher := false; wssTicketBudget := 0;
     brokerURL := "https://broker.example"; DefaultBrokerURLs := [] |}.

Definition exampleBreaker : punchRecoveryBreaker :=
  {| config := withDefaults (λ _, 0) (PunchBreakerConfig 0 0 0 0 None); relays := ∅ |}.

(** In the offline world both rungs of a two-relay ladder are reported. *)
Lemma runLadder_reports_failures_witness :
  let '(r, trace, _) := runLadder offlineEnv exampleEngine exampleBreaker
    [exampleRelay "a"; exampleRelay "b"] 2080 (mkSt () true) in
  allFailed r = true ∧ failures trace = [("a", 1); ("b", 2)]%string.
Proof.
  pose proof (runLadder_reports_failures offlineEnv exampleEngine exampleBreaker
    [exampleRelay "a"; exampleRelay "b"] 2080 (mkSt () true)) as H.
  destruct (runLadder _ _ _ _ _ _) as [[r trace] s'] eqn:E.
  assert (allFailed r = true) as Hr
    by (change r with (r, trace, s').1.1; rewrite <- E; vm_compute; reflexivity).
  destruct H as (k & _ & Hf & Hk & _). split; [exact Hr|]. rewrite Hf, (Hk Hr). reflexivity.
Defined.

(** * Where the ladder connects *)

(** The waits for a broker's Retry-After hint. *)
Definition waits (trace : list event) : nat :=
  length (omap (λ e, match e with EvWaitRetry d => Some d | _ => None end) trace).

(** WSS traffic is a fallback: a ticket is requested, and a front dialed, only
    for the relay whose direct path was last dialed and then reported failed. *)
Definition fallbackOnly (failed : option string) (e : event) : option (option string) :=
  match e with
  | EvDialRelay _ _ => Some None
  | EvRelayAttemptFailed id _ => Some (Some id)
  | EvTicketRequest _ rid _ =>
      if bool_decide (failed = Some rid) then Some failed else None
  | EvDialWSS _ => if bool_decide (is_Some failed) then Some failed else None
  | _ => Some failed
  end.

(** The destinations a ladder over [cands] may reach. *)
Definition destination {W} (env : Env W) (cfg : EngineConfig) (cands : list RelayDescriptor)
    (e : event) : Prop :=
  match e with
  | EvDialRelay h p => ∃ c, c ∈ cands ∧ h = rd_PublicHost c ∧ p = rd_PublicPort c
  | EvTicketRequest u r f =>
      tunMode cfg && negb (mobile cfg) = false ∧
      u ∈ wssTicketBrokerFronts env cfg (brokerURL cfg) ∧ env_endpointUnbound env u = false ∧
      ∃ c fr, c ∈ cands ∧ fr ∈ env_supportedWSSFronts env c ∧ r = rd_ID c ∧ f = FrontID fr
  | EvDialWSS url =>
      tunMode cfg && negb (mobile cfg) = false ∧
      ∃ c fr, c ∈ cands ∧ fr ∈ env_supportedWSSFronts env c ∧ url = FrontURL fr
  | EvWaitRetry d => 0 < d ≤ wssTicketMaxRetry
  | _ => True
  end.

Section destinations.
Context {W : Type} (env : Env W) `{!EnvLaws env} (cfg : EngineConfig) (breaker : punchRecoveryBreaker).

Lemma addFronts_bound seen values u :
  u ∈ addFronts env seen values → u ∈ seen ∨ env_endpointUnbound env u = false.
Proof.
  revert seen. induction values as [|v vs IH]; intros seen; simpl; [auto|].
  case_match eqn:Hg; [apply IH|]. rewrite !orb_false_iff in Hg. intros [Hin|]%IH; [|auto].
  rewrite elem_of_app, list_elem_of_singleton in Hin. naive_solver.
Qed.

Lemma does_frontLoop cand fronts port attempt de le cands :
  cand ∈ cands → (∀ f, f ∈ fronts → f ∈ env_supportedWSSFronts env cand) →
  tunMode cfg && negb (mobile cfg) = false →
  does (frontLoop env cfg cand fronts port attempt de le)
    (λ e, destination env cfg cands e ∧
       fallbackOnly (Some (rd_ID cand)) e = Some (Some (rd_ID cand))) (λ _, True).
Proof.
  intros Hc Hfr Hmode. revert le. induction fronts as [|f fronts IH]; intros le; simpl;
    [by apply does_ret|].
  apply does_emit; [simpl; eauto|].
  eapply (does_bind _ _ _ (λ _, True)).
  { eapply does_weaken; [exact (does_attemptWSSCandidate env cfg cand f port attempt)| |done].
    intros e [He|[He| ->]]; [|by destruct e; simpl; eauto|].
    - destruct e; simpl in He; try done.
      destruct He as (Hu & -> & ->). unfold destination, fallbackOnly. rewrite bool_decide_true by done.
      split_and!; eauto; [|exists cand, f; split_and!; eauto; apply Hfr; left].
      destruct (addFronts_bound _ _ _ Hu) as [[]%elem_of_nil|]; done.
    - unfold destination, fallbackOnly. rewrite bool_decide_true by eauto.
      split_and!; eauto. exists cand, f. split_and!; eauto. apply Hfr. left. }
  intros [res|e] _; [by apply does_ret|].
  eapply (does_ask _ _ _ (λ _, True)); [done|]. intros [] _; [by apply does_ret|].
  case_match; [by apply does_ret|].
  eapply (does_bind _ _ _ (λ _, True)); [|intros _ _; apply IH; intros; apply Hfr; by right].
  case_match; [|by apply does_ret]. intros st. simpl. repeat constructor; eauto.
Qed.

Lemma does_attemptCandidate cand port attempt cands :
  cand ∈ cands →
  does (attemptCandidate env cfg breaker cand port attempt) (destination env cfg cands) (λ _, True).
Proof.
  intros Hc. unfold attemptCandidate. eapply (does_bind _ _ _ (λ _, True)).
  { eapply does_weaken; [exact (does_attemptDirectCandidate env cfg breaker cand port attempt)| |done].
    intros []; simpl; naive_solver. }
  intros [res|e] _; [by apply does_ret|].
  eapply (does_ask _ _ _ (λ _, True)); [done|]. intros [] _; [by apply does_ret|].
  case_match; [|by apply does_ret]. case_match; [by apply does_ret|].
  case_match; [by apply does_ret|].
  do 2 (apply does_emit; [done|]).
  eapply does_weaken; [by apply (does_frontLoop _ _ _ _ _ _ cands)|naive_solver|done].
Qed.

Lemma does_ladderLoop cands' cands port attempt le :
  (∀ c, c ∈ cands → c ∈ cands') →
  does (ladderLoop env cfg breaker cands port attempt le) (destination env cfg cands') (λ _, True).
Proof.
  revert attempt le. induction cands as [|c cands IH]; intros attempt le Hin; simpl;
    [by apply does_ret|].
  eapply (does_ask _ _ _ (λ _, True)); [done|]. intros [] _; [by apply does_ret|].
  eapply (does_bind _ _ _ (λ _, True)); [apply does_attemptCandidate, Hin; left|].
  intros [res|e] _; [by apply does_ret|].
  eapply (does_ask _ _ _ (λ _, True)); [done|]. intros [] _; [by apply does_ret|].
  case_match; [by apply does_ret|].
  eapply (does_bind _ _ _ (λ _, True)); [|intros _ _; apply IH; intros; apply Hin; by right].
  case_match; [by apply does_ret|]. intros s. simpl. by repeat constructor.
Qed.

Lemma attemptCandidate_fallback cand port attempt x :
  spec fallbackOnly (attemptCandidate env cfg breaker cand port attempt) x (λ _ _ _, True).
Proof.
  unfold attemptCandidate. eapply (spec_seq _ _ _ _ (λ r _, True)).
  { eapply spec_weaken; [eapply does_accepted;
      [exact (does_attemptDirectCandidate env cfg breaker cand port attempt)|]|done].
    intros y e He. destruct e; simpl in *; naive_solver. }
  intros [res|e] x1 _; [by apply spec_ret|].
  apply spec_ask_seq. intros []; [by apply spec_ret|].
  case_match; [|by apply spec_ret]. case_match; [by apply spec_ret|].
  case_match; [by apply spec_ret|].
  do 2 (eapply spec_emit_seq; [reflexivity|]).
  eapply spec_weaken; [eapply does_spec;
    [apply (does_frontLoop _ _ _ _ _ _ [cand]); [by left|auto|done]|]|done].
  by intros e' [_ ->].
Qed.

Lemma ladderLoop_fallback cands port attempt le x :
  spec fallbackOnly (ladderLoop env cfg breaker cands port attempt le) x (λ _ _ _, True).
Proof.
  revert attempt le x. induction cands as [|c cands IH]; intros attempt le x; simpl;
    [by apply spec_ret|].
  apply spec_ask_seq. intros []; [by apply spec_ret|].
  eapply (spec_seq _ _ _ _ (λ r _, True)); [apply attemptCandidate_fallback|].
  intros [res|e] x1 _; [by apply spec_ret|].
  apply spec_ask_seq. intros []; [by apply spec_ret|].
  case_match; [by apply spec_ret|].
  eapply (spec_seq _ _ _ _ (λ _ _, True)); [|intros [] y _; apply IH].
  case_match; [by apply spec_ret|]. by eapply spec_emit.
Qed.

(** ** At most one wait per ladder *)
Definition retriesLeft (s : @St W) : nat := if wssTicketRetryUsed s then 0 else 1.

Definition budgeted {A} (m : @M W A) : Prop :=
  ∀ s, (waits (m s).1.2 + retriesLeft (m s).2 ≤ retriesLeft s)%nat.

Lemma waits_app t1 t2 : waits (t1 ++ t2) = (waits t1 + waits t2)%nat.
Proof. unfold waits. by rewrite omap_app, length_app. Qed.

Lemma budgeted_bind {A B} (m : M A) (k : A → M B) :
  budgeted m → (∀ a, budgeted (k a)) → budgeted (mbind m k).
Proof.
  intros Hm Hk s. specialize (Hm s). unfold mbind. destruct (m s) as [[a t1] s1].
  specialize (Hk a s1). destruct (k a s1) as [[b t2] s2]. simpl in *. rewrite waits_app. lia.
Qed.

Lemma budgeted_ret {A} (a : A) : budgeted (mret a).
Proof. by intros s. Qed.
Lemma budgeted_ask {A} (f : W → A * W) : budgeted (ask f).
Proof. intros s. unfold ask. by destruct (f (world s)). Qed.
Lemma budgeted_emit e : (∀ d, e ≠ EvWaitRetry d) → budgeted (emit e).
Proof. intros He s. destruct e; try done. by destruct (He d). Qed.
Lemma budgeted_get : budgeted getRetryUsed.
Proof. by intros s. Qed.

(** The one retry: the flag is still unset, and it is set before the wait. *)
Lemma budgeted_retry {A} d rid fid (k : () → M A) s :
  wssTicketRetryUsed s = false → budgeted (k ()) →
  let m := mbind (setRetryUsed true) (λ _, mbind (emit (EvNoticeTicketRetry rid fid d))
             (λ _, mbind (emit (EvWaitRetry d)) k)) in
  (waits (m s).1.2 + retriesLeft (m s).2 ≤ retriesLeft s)%nat.
Proof.
  intros Hs Hk m. unfold m. rewrite mbind_setRetryUsed. specialize (Hk (mkSt (world s) true)).
  unfold mbind, emit. simpl. destruct (k () _) as [[a t] s']. simpl in *.
  change (retriesLeft (mkSt (world s) true)) with 0%nat in Hk.
  replace (retriesLeft s) with 1%nat by (unfold retriesLeft; by rewrite Hs).
  change (S (waits t) + retriesLeft s' ≤ 1)%nat. lia.
Qed.

(** [m] keeps the budget by the rules above; the parts that only read the world
    or emit other events need no thought. *)
Ltac budget :=
  repeat first
    [ progress cbv zeta
    | apply budgeted_ret | apply budgeted_ask | apply budgeted_get
    | by apply budgeted_emit
    | match goal with
      | |- budgeted (mbind _ _) => apply budgeted_bind; [|intros ?]
      | |- budgeted (match ?x with _ => _ end) => destruct x
      end ].

Lemma budgeted_startCandidate res input : budgeted (startCandidate env res input).
Proof. unfold startCandidate, teardown. budget. Qed.

Lemma budgeted_attemptDirectCandidate cand port attempt :
  budgeted (attemptDirectCandidate env cfg breaker cand port attempt).
Proof.
  unfold attemptDirectCandidate, mobileConfig, maybePunch. budget; apply budgeted_startCandidate.
Qed.

Lemma budgeted_tryFronts fronts rid fid deadline first retry :
  budgeted (tryFronts env fronts rid fid deadline first retry).
Proof.
  revert first retry. induction fronts as [|u fronts IH]; intros; simpl; budget; apply IH.
Qed.

Lemma budgeted_ticketRounds rounds first fronts rid fid deadline firstErr :
  budgeted (ticketRounds env rounds first fronts rid fid deadline firstErr).
Proof.
  revert first firstErr. induction rounds as [|rounds IH]; intros first firstErr; simpl; [budget|].
  apply budgeted_bind; [apply budgeted_tryFronts|]. intros [r|[fe retry]]; [budget|].
  intros s. rewrite mbind_getRetryUsed.
  destruct (negb first || (retry <=? 0) || wssTicketRetryUsed s) eqn:Hg; [done|].
  apply orb_false_elim in Hg as [_ Hs]. rewrite mbind_ask.
  change (retriesLeft s) with
    (retriesLeft (mkSt (env_now env (world s)).2 (wssTicketRetryUsed s))).
  destruct (time_sub _ _ <=? _); [done|]. apply (budgeted_retry _ _ _ _ (mkSt _ _)); [done|].
  budget. apply IH.
Qed.

Lemma budgeted_attemptWSSCandidate cand front port attempt :
  budgeted (attemptWSSCandidate env cfg cand front port attempt).
Proof.
  unfold attemptWSSCandidate, mobileConfig, requestWSSSessionTicket.
  budget; first [apply budgeted_ticketRounds|apply budgeted_startCandidate].
Qed.

Lemma budgeted_frontLoop cand fronts port attempt de le :
  budgeted (frontLoop env cfg cand fronts port attempt de le).
Proof.
  revert le. induction fronts as [|f fronts IH]; intros le; simpl; budget;
    first [apply budgeted_attemptWSSCandidate|apply IH].
Qed.

Lemma budgeted_ladderLoop cands port attempt le :
  budgeted (ladderLoop env cfg breaker cands port attempt le).
Proof.
  revert attempt le. induction cands as [|c cands IH]; intros attempt le; simpl;
    unfold attemptCandidate; budget;
    first [apply budgeted_attemptDirectCandidate|apply budgeted_frontLoop|apply IH].
Qed.

(** where a ladder connects.  Every dial and ticket request of a ladder is
    for one of its candidates: its own public endpoint, or one of its signed
    and supported WSS fronts with a ticket asked only of endpoint-bound broker
    fronts; desktop TUN mode never leaves the direct path.  WSS is a fallback:
    it is used only for the relay whose direct path was just reported failed.
    A ladder waits for a Retry-After hint at most once, and at most 30s. *)
Lemma runLadder_destinations (cands : list RelayDescriptor) (port : Z) (s : St) :
  let trace := (runLadder env cfg breaker cands port s).1.2 in
  Forall (destination env cfg cands) trace ∧
  is_Some (accept fallbackOnly None trace) ∧
  (waits trace ≤ 1)%nat.
Proof.
  intros trace. unfold trace, runLadder. rewrite mbind_setRetryUsed. split_and!.
  - by apply (does_ladderLoop cands cands port 1 None).
  - destruct (ladderLoop_fallback cands port 1 None None (mkSt (world s) false)) as (x & -> & _).
    eauto.
  - pose proof (budgeted_ladderLoop cands port 1 None (mkSt (world s) false)) as H.
    unfold retriesLeft at 2 in H. simpl in H. lia.
Qed.
End destinations.

(** In the offline world the ladder asks for a ticket, waits once for the
    broker's hint, asks again, and reaches no destination of its own choosing. *)
Lemma runLadder_destinations_witness :
  let trace := (runLadder offlineEnv exampleEngine exampleBreaker [exampleRelay "a"] 2080
                  (mkSt () true)).1.2 in
  EvTicketRequest "https://broker.example" "a" "cdn-a" ∈ trace ∧ waits trace = 1%nat ∧
  is_Some (accept fallbackOnly None trace).
Proof.
  intros trace.
  destruct (runLadder_destinations offlineEnv exampleEngine exampleBreaker [exampleRelay "a"] 2080
    (mkSt () true)) as (_ & Hf & Hw).
  split_and!; [|vm_compute; reflexivity|exact Hf].
  eapply (list_elem_of_lookup_2 _ 4%nat). vm_compute. reflexivity.
Defined.
