(* ===== verification/Ticket.v ===== *)
(** Bridge tickets (src/libs/openrung/internal/wssbridge/ticket.go): the claims
    policy, the signer and the verifier.

    Ed25519 and SHA-256 are parameters, as is [encoding/json] on [Claims]; what
    the code relies on is stated where it is used. *)
From stdpp Require Import base list gmap strings.
From Stdlib Require Import ZArith Lia.
From S2P Require Import Prelude Codec Directory Fronts.

Definition TicketVersion : Z := 1.
Definition TicketAudience : string := "openrung-wss-bridge".
Definition MaxTicketBytes : nat := 4096.
Definition MaxTicketLifetime : Z := 5 * minute.
Definition MaxTicketClockSkew : Z := 2 * minute.
Definition MaxTicketStreams : Z := 1024.
Definition ticketPrefix : list byte := bytes "v1".
Definition ticketSignatureSpec : list byte := bytes "openrung-wss-bridge-ticket-v1" ++ [chr 10].
Definition PublicKeySize : nat := 32.
Definition PrivateKeySize : nat := 64.
Definition SignatureSize : nat := 64.

Record Claims := {
  Version : Z;
  Audience : string;
  JTI : string;
  RelayID : string;
  ClaimFrontID : string;
  IssuedAt : Z;
  NotBefore : Z;
  ExpiresAt : Z;
  MaxStreams : Z
}.

(** [time.Unix(s, 0)] *)
Definition unixTime (s : Z) : Z := s * second.
Definition Expiry (c : Claims) : Z := unixTime (ExpiresAt c).

(** The clock is an argument of the operations that read it. *)
Record TicketOptions := { MaxLifetime : Z; ClockSkew : Z }.

Inductive TicketError := ErrInvalidTicket (msg : string) | ErrTicketExpired | ErrTicketConfig.

Definition normalized (o : TicketOptions) : result TicketError TicketOptions :=
  let o := {| MaxLifetime := if MaxLifetime o =? 0 then MaxTicketLifetime else MaxLifetime o;
              ClockSkew := ClockSkew o |} in
  if (MaxLifetime o <? second) || (MaxTicketLifetime <? MaxLifetime o) then Err ErrTicketConfig else
  if (ClockSkew o <? 0) || (MaxTicketClockSkew <? ClockSkew o) then Err ErrTicketConfig else
  Ok o.

(** [validID]: every byte outside the ASCII set below belongs to a rune outside
    it, so the rune loop of the source is a byte loop. *)
Definition idByte (c : byte) : bool :=
  in_range c 97 122 || in_range c 65 90 || in_range c 48 57 ||
  (val c =? 45) || (val c =? 95) || (val c =? 46) || (val c =? 58).

Definition validID (value : string) (minLen maxLen : nat) : bool :=
  let bs := bytes value in
  (minLen <=? length bs)%nat && (length bs <=? maxLen)%nat && forallb idByte bs.

Definition hexDigit (n : Z) : byte := if n <? 10 then chr (48 + n) else chr (87 + n).
Definition hexEncode (bs : list byte) : list byte :=
  bs ≫= λ b, [hexDigit (val b / 16); hexDigit (val b mod 16)].

Definition ticketInvalid {A} (msg : string) : result TicketError A := Err (ErrInvalidTicket msg).

Lemma guard_ok {A} (g : bool) msg (k : result TicketError A) a :
  (if g then ticketInvalid msg else k) = Ok a ↔ g = false ∧ k = Ok a.
Proof. unfold ticketInvalid. destruct g; naive_solver. Qed.

Lemma guard_err {A} (g : bool) e (k : result TicketError A) a :
  (if g then Err e else k) = Ok a ↔ g = false ∧ k = Ok a.
Proof. destruct g; naive_solver. Qed.

Lemma implies_guard (a b : bool) : a && negb b = false ↔ (a = true → b = true).
Proof. destruct a, b; naive_solver. Qed.

Lemma hexDigit_lacks n : 0 ≤ n < 16 → byte_of (hexDigit n) ≠ 46%N.
Proof.
  intros Hn. assert (val (hexDigit n) ≠ 46) as Hv; [|intros He; apply Hv; unfold val; by rewrite He].
  unfold hexDigit. destruct (Z.ltb_spec n 10); rewrite val_chr, Z.mod_small; lia.
Qed.

Lemma hexEncode_lacks l : lacks 46 (hexEncode l) = true.
Proof.
  unfold hexEncode, lacks. induction l as [|b l IH]; [done|]. cbn. rewrite IH, andb_true_r.
  pose proof (val_bound b). rewrite andb_true_iff, !negb_true_iff, !N.eqb_neq.
  split; apply hexDigit_lacks; Z.to_euclidean_division_equations; lia.
Qed.

Section tickets.
#[local] Set Default Proof Using "Type".
Context (ToLower : string → string).
(** [sha256.Sum256], [key.Public()], [ed25519.Sign] and [ed25519.Verify]. *)
Context (Sum256 Public : list byte → list byte) (edSign : list byte → list byte → list byte).
Context (edVerify : list byte → list byte → list byte → bool).
(** [json.Marshal] and the strict decoder on [Claims]. *)
Context (Marshal : Claims → option (list byte)) (Decode : list byte → option Claims).
Context `{!MapRange string (list byte)}.

Definition validateClaims (c : Claims) (now : Z) (opts : TicketOptions) (verifying : bool)
    (localRelayID : string) : result TicketError unit :=
  if negb (Version c =? TicketVersion) then ticketInvalid "unsupported version" else
  if negb (str_eqb (Audience c) TicketAudience) then ticketInvalid "wrong audience" else
  if negb (validID (JTI c) 16 128) then ticketInvalid "invalid JTI" else
  if negb (validID (RelayID c) 1 128) || verifying && negb (str_eqb (RelayID c) localRelayID)
  then ticketInvalid "wrong relay" else
  if negb (is_ok (ValidateFrontID ToLower (ClaimFrontID c))) then ticketInvalid "invalid front" else
  if (MaxStreams c <? 1) || (MaxTicketStreams <? MaxStreams c)
  then ticketInvalid "max_streams outside bounds" else
  if (IssuedAt c <=? 0) || (NotBefore c <=? 0) || (ExpiresAt c <=? 0)
     || (ExpiresAt c <=? IssuedAt c) || (NotBefore c <? IssuedAt c) || (ExpiresAt c <=? NotBefore c)
  then ticketInvalid "invalid time ordering" else
  let lifetimeSeconds := wrap64 (ExpiresAt c - IssuedAt c) in
  if (Z.quot (MaxLifetime opts) second <? lifetimeSeconds)
     || (Z.quot MaxTicketLifetime second <? lifetimeSeconds)
  then ticketInvalid "lifetime exceeds maximum" else
  if time_after (unixTime (IssuedAt c)) (time_add now (ClockSkew opts))
  then ticketInvalid "issued in the future" else
  if negb verifying then
    if negb (time_after (unixTime (ExpiresAt c)) now)
    then ticketInvalid "claims are not currently signable" else Ok tt
  else
  if time_after (unixTime (NotBefore c)) (time_add now (ClockSkew opts))
  then ticketInvalid "not yet valid" else
  if negb (time_after (unixTime (ExpiresAt c)) (time_add now (- ClockSkew opts)))
  then Err ErrTicketExpired else Ok tt.

Definition ticketStatement (payload : list byte) : list byte := ticketSignatureSpec ++ payload.
Definition TicketKeyID (key : list byte) : string := text (hexEncode (take 8 (Sum256 key))).

Record TicketSigner := { signerKey : list byte; signerKeyID : string; signerOpts : TicketOptions }.

Definition NewTicketSigner (key : list byte) (opts : TicketOptions) : result TicketError TicketSigner :=
  if negb (length key =? PrivateKeySize)%nat then Err ErrTicketConfig else
  let? o := normalized opts in
  Ok {| signerKey := key; signerKeyID := TicketKeyID (Public key); signerOpts := o |}.

Definition dot : byte := chr 46.

(** [strings.Join(parts, ".")] *)
Fixpoint joinDots (parts : list (list byte)) : list byte :=
  match parts with
  | [] => []
  | [p] => p
  | p :: rest => p ++ dot :: joinDots rest
  end.

Definition Sign (s : TicketSigner) (now : Z) (claims : Claims) : result TicketError (list byte) :=
  if negb (length (signerKey s) =? PrivateKeySize)%nat then Err ErrTicketConfig else
  let? _ := validateClaims claims now (signerOpts s) false "" in
  match Marshal claims with
  | None => Err ErrTicketConfig
  | Some payload =>
      let signature := edSign (signerKey s) (ticketStatement payload) in
      let token := joinDots [ticketPrefix; bytes (signerKeyID s); EncodeToString payload;
                             EncodeToString signature] in
      if (MaxTicketBytes <? length token)%nat then Err ErrTicketConfig else Ok token
  end.

Record TicketVerifier := {
  keys : gmap string (list byte);
  localRelayID : string;
  verifierOpts : TicketOptions
}.

(** The copy loop: every configured key has the right size and its derived
    ID. *)
Definition keyAccepted (kv : string * list byte) : bool :=
  (length kv.2 =? PublicKeySize)%nat && str_eqb kv.1 (TicketKeyID kv.2).

Definition NewTicketVerifier (ks : gmap string (list byte)) (relay : string) (opts : TicketOptions)
    : result TicketError TicketVerifier :=
  if negb (validID relay 1 128) then Err ErrTicketConfig else
  if (size ks =? 0)%nat then Err ErrTicketConfig else
  let? o := normalized opts in
  if forallb keyAccepted (map_range ks)
  then Ok {| keys := list_to_map (map_range ks); localRelayID := relay; verifierOpts := o |}
  else Err ErrTicketConfig.

(** A canonical unpadded base64 part. *)
Definition canonicalPart (part : list byte) : option (list byte) :=
  raw ← DecodeString part;
  if bool_decide (EncodeToString raw = part) then Some raw else None.

Definition Verify (v : TicketVerifier) (now : Z) (token : list byte) : result TicketError Claims :=
  if (size (keys v) =? 0)%nat then ticketInvalid "verifier is not initialized" else
  if (length token =? 0)%nat || (MaxTicketBytes <? length token)%nat
  then ticketInvalid "ticket size is outside bounds" else
  match splitOn 46 token with
  | [p0; p1; p2; p3] =>
      if negb (bool_decide (p0 = ticketPrefix)) then ticketInvalid "malformed compact encoding" else
      match keys v !! text p1 with
      | None => ticketInvalid "unknown signing key"
      | Some key =>
          match canonicalPart p2 with
          | None => ticketInvalid "malformed payload"
          | Some payload =>
              if (length payload =? 0)%nat || (MaxTicketBytes <? length payload)%nat
              then ticketInvalid "malformed payload" else
              match canonicalPart p3 with
              | None => ticketInvalid "malformed signature"
              | Some signature =>
                  if negb (length signature =? SignatureSize)%nat
                  then ticketInvalid "malformed signature" else
                  if negb (edVerify key (ticketStatement payload) signature)
                  then ticketInvalid "signature verification failed" else
                  match Decode payload with
                  | None => ticketInvalid "payload is not valid claims JSON"
                  | Some claims =>
                      if negb (bool_decide (Marshal claims = Some payload))
                      then ticketInvalid "claims encoding is not canonical" else
                      let? _ := validateClaims claims now (verifierOpts v) true (localRelayID v) in
                      Ok claims
                  end
              end
          end
      end
  | _ => ticketInvalid "malformed compact encoding"
  end.

(** * The claims policy *)
Record policy (c : Claims) (maxLifetime : Z) : Prop := {
  pol_version : Version c = TicketVersion;
  pol_audience : Audience c = TicketAudience;
  pol_jti : validID (JTI c) 16 128 = true;
  pol_relay : validID (RelayID c) 1 128 = true;
  pol_front : is_ok (ValidateFrontID ToLower (ClaimFrontID c)) = true;
  pol_streams : 1 ≤ MaxStreams c ≤ MaxTicketStreams;
  pol_order : 0 < IssuedAt c ≤ NotBefore c ∧ NotBefore c < ExpiresAt c;
  pol_lifetime : ExpiresAt c - IssuedAt c ≤ Z.quot maxLifetime second ∧
                 ExpiresAt c - IssuedAt c ≤ 300
}.

(** The policy at an instant. *)
Lemma validateClaims_ok c now opts verifying relay :
  in_int64 (ExpiresAt c) →
  validateClaims c now opts verifying relay = Ok tt ↔
  policy c (MaxLifetime opts) ∧ (verifying = true → RelayID c = relay) ∧
  unixTime (IssuedAt c) ≤ now + ClockSkew opts ∧
  (if verifying
   then unixTime (NotBefore c) ≤ now + ClockSkew opts ∧ now - ClockSkew opts < unixTime (ExpiresAt c)
   else now < unixTime (ExpiresAt c)).
Proof.
  intros Hin. unfold validateClaims, time_after, time_add. rewrite !guard_ok.
  change (Z.quot MaxTicketLifetime second) with 300.
  rewrite !orb_false_iff, !negb_false_iff, !Z.ltb_ge, !Z.leb_gt, Z.eqb_eq, !str_eqb_true.
  unfold in_int64, int64_min, int64_max in Hin.
  assert (0 < IssuedAt c → IssuedAt c < ExpiresAt c →
    wrap64 (ExpiresAt c - IssuedAt c) = ExpiresAt c - IssuedAt c) as Hw.
  { intros. apply wrap64_id. unfold in_int64, int64_min, int64_max. lia. }
  assert (verifying && negb (str_eqb (RelayID c) relay) = false ↔
          (verifying = true → RelayID c = relay)) as Hrel.
  { rewrite <- str_eqb_true. apply implies_guard. }
  rewrite Hrel. clear Hrel.
  split.
  - intros H. destruct_and! H. rewrite Hw in * by lia.
    match goal with H : (if negb verifying then _ else _) = Ok tt |- _ => rename H into Hlast end.
    split_and!; [split; (done || lia)|done|lia|].
    destruct verifying; simpl in Hlast.
    + rewrite guard_ok, guard_err, Z.ltb_ge, negb_false_iff, Z.ltb_lt in Hlast. lia.
    + rewrite guard_ok, negb_false_iff, Z.ltb_lt in Hlast. lia.
  - intros ([] & Hv & Hi & Ht). rewrite Hw by lia. split_and!; try (done || lia).
    destruct verifying; simpl; [|rewrite guard_ok, negb_false_iff, Z.ltb_lt; by split].
    rewrite guard_ok, guard_err, Z.ltb_ge, negb_false_iff, Z.ltb_lt. split_and!; [lia|lia|done].
Qed.

Lemma joinDots_split p0 p1 p2 p3 :
  lacks 46 p0 = true → lacks 46 p1 = true → lacks 46 p2 = true → lacks 46 p3 = true →
  splitOn 46 (joinDots [p0; p1; p2; p3]) = [p0; p1; p2; p3].
Proof. intros H0 H1 H2 H3. simpl. by rewrite !splitOn_app, splitOn_lacks. Qed.

Lemma joinDots_splitOn bs : joinDots (splitOn 46 bs) = bs.
Proof.
  induction bs as [|c bs IH]; [done|]. cbn [splitOn].
  destruct (splitOn 46 bs) as [|l ls] eqn:E; [by destruct (splitOn_nonempty 46 bs)|].
  destruct (N.eqb_spec (byte_of c) 46) as [Hc|Hc].
  - assert (c = dot) as -> by (apply (inj val); unfold val; by rewrite Hc).
    change (dot :: joinDots (l :: ls) = dot :: bs). by rewrite IH.
  - rewrite <- IH. by destruct ls.
Qed.

Lemma canonicalPart_spec part raw : canonicalPart part = Some raw ↔ part = EncodeToString raw.
Proof.
  unfold canonicalPart. split.
  - intros (r & _ & Hr)%bind_Some. case_bool_decide; [|done]. by injection Hr as <-.
  - intros ->. rewrite DecodeString_EncodeToString. simpl. by rewrite bool_decide_true.
Qed.

Lemma TicketKeyID_lacks key : lacks 46 (bytes (TicketKeyID key)) = true.
Proof. unfold TicketKeyID. rewrite bytes_text. apply hexEncode_lacks. Qed.

Lemma NewTicketVerifier_keys ks relay opts v :
  NewTicketVerifier ks relay opts = Ok v →
  keys v = ks ∧ localRelayID v = relay ∧ size ks ≠ 0%nat.
Proof.
  unfold NewTicketVerifier. destruct (negb _); [done|].
  destruct (Nat.eqb_spec (size ks) 0); [done|]. destruct (normalized opts); [|done].
  destruct (forallb _ _); [|done]. intros [= <-]. split_and!; [|done|done]. simpl.
  rewrite <- (list_to_map_to_list ks) at 2. apply list_to_map_proper; [|apply map_range_perm].
  apply NoDup_map_range_fst.
Qed.

(** What acceptance means. *)
Lemma Verify_inv (v : TicketVerifier) (now : Z) (token : list byte) (c : Claims) :
  in_int64 (ExpiresAt c) →
  Verify v now token = Ok c →
  (∃ keyID key payload signature,
     keys v !! keyID = Some key ∧ Marshal c = Some payload ∧
     edVerify key (ticketStatement payload) signature = true ∧
     length signature = SignatureSize ∧
     token = joinDots [ticketPrefix; bytes keyID; EncodeToString payload; EncodeToString signature]) ∧
  RelayID c = localRelayID v ∧ policy c (MaxLifetime (verifierOpts v)) ∧
  unixTime (NotBefore c) ≤ now + ClockSkew (verifierOpts v) ∧
  now < time_add (Expiry c) (ClockSkew (verifierOpts v)).
Proof.
  intros Hin. unfold Verify. rewrite !guard_ok. intros (_ & _ & Hv).
  destruct (splitOn 46 token) as [|p0 [|p1 [|p2 [|p3 [|]]]]] eqn:Hs; try done.
  rewrite guard_ok in Hv. destruct Hv as [Hp0 Hv].
  apply negb_false_iff, bool_decide_eq_true in Hp0.
  destruct (keys v !! text p1) as [key|] eqn:Hk; [|done].
  destruct (canonicalPart p2) as [payload|] eqn:H2; [|done]. apply canonicalPart_spec in H2.
  rewrite guard_ok in Hv. destruct Hv as [_ Hv].
  destruct (canonicalPart p3) as [sig|] eqn:H3; [|done]. apply canonicalPart_spec in H3.
  rewrite !guard_ok, !negb_false_iff, Nat.eqb_eq in Hv. destruct Hv as (Hlen & Hsig & Hv).
  destruct (Decode payload) as [c'|]; [|done]. rewrite guard_ok in Hv. destruct Hv as [Hc Hv].
  apply negb_false_iff, bool_decide_eq_true in Hc.
  destruct (validateClaims c' now _ _ _) as [[]|] eqn:Hval; [|done]. injection Hv as <-.
  apply validateClaims_ok in Hval as (Hpol & Hrel & _ & Hnb & Hexp); [|done].
  split; [|split_and!; [by apply Hrel|done|done|unfold time_add, Expiry; lia]].
  exists (text p1), key, payload, sig. split_and!; [done..|]. rewrite bytes_text.
  subst p0 p2 p3. by rewrite <- Hs, joinDots_splitOn.
Qed.

(** C25: what an accepted ticket proves.  If the verifier accepts a token, then
    the token is the canonical encoding of those claims under a configured
    key, that key's signature over them verified, the claims name this relay,
    obey the policy (version, audience, identifiers, stream budget, at most
    five minutes of lifetime) and are within their time window; and the instant
    until which the sidecar remembers the ticket has not passed. *)
Theorem Verify_sound (v : TicketVerifier) (now : Z) (token : list byte) (c : Claims) :
  in_int64 (ExpiresAt c) →
  Verify v now token = Ok c →
  (∃ keyID key payload signature,
     keys v !! keyID = Some key ∧ Marshal c = Some payload ∧
     edVerify key (ticketStatement payload) signature = true ∧
     length signature = SignatureSize ∧
     token = joinDots [ticketPrefix; bytes keyID; EncodeToString payload; EncodeToString signature]) ∧
  RelayID c = localRelayID v ∧ policy c (MaxLifetime (verifierOpts v)) ∧
  unixTime (NotBefore c) ≤ now + ClockSkew (verifierOpts v) ∧
  now < time_add (Expiry c) (ClockSkew (verifierOpts v)).
Proof. apply Verify_inv. Qed.

Lemma Sign_Verify (key : list byte) (so vo : TicketOptions) (s : TicketSigner)
    (ks : gmap string (list byte)) (v : TicketVerifier) (t1 t2 : Z) (c : Claims) (token : list byte) :
  (∀ msg, edVerify (Public key) msg (edSign key msg) = true ∧ length (edSign key msg) = SignatureSize) →
  (∀ m p, policy c m → Marshal c = Some p → Decode p = Some c ∧ p ≠ []) →
  NewTicketSigner key so = Ok s → NewTicketVerifier ks (RelayID c) vo = Ok v →
  ks !! TicketKeyID (Public key) = Some (Public key) →
  in_int64 (ExpiresAt c) → Sign s t1 c = Ok token →
  ExpiresAt c - IssuedAt c ≤ Z.quot (MaxLifetime (verifierOpts v)) second →
  unixTime (NotBefore c) ≤ t2 + ClockSkew (verifierOpts v) →
  t2 < unixTime (ExpiresAt c) + ClockSkew (verifierOpts v) →
  Verify v t2 token = Ok c.
Proof.
  intros Hed Hjson Hs Hv Hkey Hin Hsign Hlife Hnb Hexp.
  destruct (NewTicketVerifier_keys _ _ _ _ Hv) as (Hks & Hloc & Hne).
  unfold NewTicketSigner in Hs. rewrite guard_err in Hs. destruct Hs as [_ Hs].
  destruct (normalized so) as [o|]; [|done]. injection Hs as <-.
  unfold Sign in Hsign. cbn [signerKey signerKeyID signerOpts] in Hsign. rewrite guard_err in Hsign. destruct Hsign as [_ Hsign].
  destruct (validateClaims c t1 o false "") as [[]|] eqn:Hval; [|done].
  apply validateClaims_ok in Hval as (Hpol & _ & _); [|done].
  destruct (Marshal c) as [payload|] eqn:Hm; [|done].
  rewrite guard_err, Nat.ltb_ge in Hsign. destruct Hsign as [Hlen Hsign].
  set (tok := joinDots _) in *. injection Hsign as <-. subst tok. destruct (Hjson _ _ Hpol eq_refl) as [Hdec Hpne].
  destruct (Hed (ticketStatement payload)) as [Hver Hslen].
  assert (length payload ≤ length (EncodeToString payload))%nat as Hple.
  { pose proof (length_EncodeToString payload). Z.to_euclidean_division_equations; lia. }
  unfold Verify. rewrite !guard_ok, Hks. split; [by apply Nat.eqb_neq|]. split.
  { apply orb_false_iff. split; [by apply Nat.eqb_neq|by apply Nat.ltb_ge]. }
  assert (46 ∈ [10; 13; 32; 46])%N by set_solver.
  rewrite joinDots_split by (done || apply TicketKeyID_lacks || by apply EncodeToString_lacks).
  rewrite bool_decide_true by done. cbn [negb]. rewrite text_bytes, Hkey.
  rewrite (proj2 (canonicalPart_spec _ payload) eq_refl).
  rewrite (proj2 (canonicalPart_spec _ (edSign key (ticketStatement payload))) eq_refl).
  rewrite (proj2 (Nat.eqb_neq _ _)) by (by destruct payload).
  rewrite (proj2 (Nat.ltb_ge _ _)).
  2: { etrans; [exact Hple|]. etrans; [|exact Hlen]. cbn [joinDots].
       repeat (rewrite length_app; cbn [length]). lia. }
  cbn [orb]. rewrite Hslen, Nat.eqb_refl, Hver. cbn [negb]. rewrite Hdec, Hm, bool_decide_true by done.
  cbn [negb].
  assert (validateClaims c t2 (verifierOpts v) true (localRelayID v) = Ok tt) as ->; [|done].
  apply validateClaims_ok; [done|].
  destruct Hpol as [P1 P2 P3 P4 P5 P6 P7 P8].
  split_and!; [split; (done || lia)|by intros _| |lia|lia].
  unfold unixTime, second, millisecond in *. lia.
Qed.

(** a signed ticket verifies.  Given Ed25519's correctness and a JSON codec
    that decodes what it encoded, a ticket the broker's signer issued is
    accepted by every verifier of the named relay that holds the signer's
    public key, at every instant of its window within the verifier's skew, and
    yields exactly the signed claims. *)
Lemma sign_then_verify (key : list byte) (so vo : TicketOptions) (s : TicketSigner)
    (ks : gmap string (list byte)) (v : TicketVerifier) (t1 t2 : Z) (c : Claims) (token : list byte) :
  (∀ msg, edVerify (Public key) msg (edSign key msg) = true ∧ length (edSign key msg) = SignatureSize) →
  (∀ m p, policy c m → Marshal c = Some p → Decode p = Some c ∧ p ≠ []) →
  NewTicketSigner key so = Ok s → NewTicketVerifier ks (RelayID c) vo = Ok v →
  ks !! TicketKeyID (Public key) = Some (Public key) →
  in_int64 (ExpiresAt c) → Sign s t1 c = Ok token →
  ExpiresAt c - IssuedAt c ≤ Z.quot (MaxLifetime (verifierOpts v)) second →
  unixTime (NotBefore c) ≤ t2 + ClockSkew (verifierOpts v) →
  t2 < unixTime (ExpiresAt c) + ClockSkew (verifierOpts v) →
  Verify v t2 token = Ok c.
Proof. apply Sign_Verify. Qed.
End tickets.

(** * A concrete ticket *)
Definition exampleClaims : Claims :=
  {| Version := 1; Audience := TicketAudience; JTI := "jti-0123456789abcdef"; RelayID := "relay-1";
     ClaimFrontID := "cdn-a"; IssuedAt := 1000; NotBefore := 1000; ExpiresAt := 1060; MaxStreams := 8 |}.

(** The JSON object of claims whose strings need no escape. *)
Definition jsonField (name : string) (v : list byte) : list byte :=
  chr 34 :: bytes name ++ [chr 34; chr 58] ++ v.
Definition jsonText (s : string) : list byte := chr 34 :: bytes s ++ [chr 34].
Definition exampleMarshal (c : Claims) : option (list byte) :=
  Some (chr 123 :: jsonField "v" (FormatInt (Version c)) ++ [chr 44] ++
    jsonField "aud" (jsonText (Audience c)) ++ [chr 44] ++ jsonField "jti" (jsonText (JTI c)) ++ [chr 44] ++
    jsonField "relay_id" (jsonText (RelayID c)) ++ [chr 44] ++
    jsonField "front_id" (jsonText (ClaimFrontID c)) ++ [chr 44] ++
    jsonField "iat" (FormatInt (IssuedAt c)) ++ [chr 44] ++ jsonField "nbf" (FormatInt (NotBefore c)) ++
    [chr 44] ++ jsonField "exp" (FormatInt (ExpiresAt c)) ++ [chr 44] ++
    jsonField "max_streams" (FormatInt (MaxStreams c)) ++ [chr 125]).
Definition exampleDecode (p : list byte) : option Claims :=
  if bool_decide (exampleMarshal exampleClaims = Some p) then Some exampleClaims else None.

Definition exampleKey : list byte := replicate 64 (chr 7).
Definition examplePublic (k : list byte) : list byte := take 32 k.
Definition exampleSum (bs : list byte) : list byte := take 32 (bs ++ replicate 32 (chr 0)).
Definition exampleSign (k m : list byte) : list byte := replicate 64 (chr (Z.of_nat (length m))).
Definition exampleVerify (k m sg : list byte) : bool :=
  bool_decide (sg = replicate 64 (chr (Z.of_nat (length m)))).
Definition exampleOpts : TicketOptions := {| MaxLifetime := 0; ClockSkew := 30 * second |}.
Definition exampleKeys : gmap string (list byte) :=
  {[ TicketKeyID exampleSum (examplePublic exampleKey) := examplePublic exampleKey ]}.

Lemma sign_then_verify_witness :
  ∃ s v token,
    NewTicketSigner exampleSum examplePublic exampleKey exampleOpts = Ok s ∧
    NewTicketVerifier (MapRange0 := map_to_list_range) exampleSum exampleKeys "relay-1" exampleOpts = Ok v ∧
    Sign id exampleSign exampleMarshal s (unixTime 1000) exampleClaims = Ok token ∧
    Verify id exampleVerify exampleMarshal exampleDecode v (unixTime 1070) token = Ok exampleClaims.
Proof.
  destruct (NewTicketSigner exampleSum examplePublic exampleKey exampleOpts) as [s|] eqn:Hs;
    [|vm_compute in Hs; discriminate].
  destruct (NewTicketVerifier (MapRange0 := map_to_list_range) exampleSum exampleKeys "relay-1"
    exampleOpts) as [v|] eqn:Hv; [|vm_compute in Hv; discriminate].
  destruct (Sign id exampleSign exampleMarshal s (unixTime 1000) exampleClaims) as [token|] eqn:Ht.
  2: { vm_compute in Hs. injection Hs as <-. vm_compute in Ht. discriminate. }
  exists s, v, token. split_and!; [reflexivity|reflexivity|exact Ht|].
  refine (sign_then_verify (MapRange0 := map_to_list_range) id exampleSum examplePublic exampleSign
    exampleVerify exampleMarshal exampleDecode exampleKey exampleOpts exampleOpts s exampleKeys v
    (unixTime 1000) (unixTime 1070) exampleClaims token _ _ Hs Hv _ _ Ht _ _ _).
  - intros m. split; [by apply bool_decide_eq_true|done].
  - intros m p _ Hp. unfold exampleDecode. rewrite bool_decide_true by exact Hp.
    split; [done|]. intros ->. by vm_compute in Hp.
  - vm_compute. reflexivity.
  - vm_compute. split; discriminate.
  - vm_compute in Hv. injection Hv as <-. vm_compute. discriminate.
  - vm_compute in Hv. injection Hv as <-. vm_compute. discriminate.
  - vm_compute in Hv. injection Hv as <-. vm_compute. reflexivity.
Defined.

Lemma Verify_sound_witness :
  ∃ v token,
    Verify id exampleVerify exampleMarshal exampleDecode v (unixTime 1070) token = Ok exampleClaims ∧
    RelayID exampleClaims = localRelayID v ∧ policy id exampleClaims (MaxLifetime (verifierOpts v)).
Proof.
  set (v := {| keys := exampleKeys; localRelayID := "relay-1";
               verifierOpts := {| MaxLifetime := 5 * minute; ClockSkew := 30 * second |} |}).
  set (p := default [] (exampleMarshal exampleClaims)).
  set (token := joinDots [ticketPrefix; bytes (TicketKeyID exampleSum (examplePublic exampleKey));
    EncodeToString p; EncodeToString (exampleSign exampleKey (ticketStatement p))]).
  assert (Verify id exampleVerify exampleMarshal exampleDecode v (unixTime 1070) token = Ok exampleClaims)
    as Hok by (vm_compute; reflexivity).
  exists v, token. split; [exact Hok|].
  assert (in_int64 (ExpiresAt exampleClaims)) as Hin by (vm_compute; split; discriminate).
  destruct (Verify_sound id exampleVerify exampleMarshal exampleDecode v (unixTime 1070) token
    exampleClaims Hin Hok) as (_ & Hr & Hp & _).
  split; [exact Hr|exact Hp].
Defined.
