(* ===== verification/Replay.v ===== *)
(** The relay-local replay journal
    (src/libs/openrung/internal/wssbridge/replay.go).

    A WSS bridge ticket is admitted once: [Consume] answers true only after the
    hashed ticket identifier is durable.  The in-memory index, the expiry heap,
    the record format, crash recovery ([load]) and compaction are modelled,
    with the file system as an explicit disk: what the process sees at the
    path, how much of it is known durable, and the older versions the path may
    revert to while a rename is not yet durable.  I/O outcomes (a short write,
    a failed fsync, a compaction stopped at any point) are inputs. *)
From stdpp Require Import base list gmap strings sorting.
From Stdlib Require Import ZArith Lia.
From S2P Require Import Prelude Codec Ticket.

Definition replayJournalHeader : list byte := bytes "openrung-wss-replay-v1" ++ [chr 10].
Definition replayRecordMaxBytes : nat := 96.
Definition defaultReplayEntries : Z := 100000.
Definition minCompactStaleRecords : Z := 128.
Definition MaxReplayEntries : Z := 1000000.

(** A SHA-256 value. *)
Definition replayKey : Type := list byte.
Definition keySize : nat := 32.

Record replayExpiry := { key : replayKey; expiresAt : Z }.
#[global] Instance replayExpiry_eq_dec : EqDecision replayExpiry.
Proof. solve_decision. Defined.

Definition Less (x y : replayExpiry) : bool := expiresAt x <? expiresAt y.

(** What [container/heap] promises its client: [Push] adds an element and [Pop]
    removes a least one, which is the element the client sees at index 0. *)
Class ExpiryHeap (H : Type) := {
  heap_empty : H;
  heap_push : H → replayExpiry → H;
  heap_pop : H → option (replayExpiry * H);
  heap_elems : H → list replayExpiry;
  heap_elems_empty : heap_elems heap_empty = [];
  heap_elems_push h x : heap_elems (heap_push h x) ≡ₚ x :: heap_elems h;
  heap_pop_None h : heap_pop h = None → heap_elems h = [];
  heap_pop_perm h x h' : heap_pop h = Some (x, h') → heap_elems h ≡ₚ x :: heap_elems h';
  heap_pop_least h x h' y : heap_pop h = Some (x, h') → y ∈ heap_elems h → Less y x = false
}.

(** A heap kept as a list in expiry order. *)
Fixpoint insertExpiry (x : replayExpiry) (l : list replayExpiry) : list replayExpiry :=
  match l with
  | [] => [x]
  | y :: l' => if Less x y then x :: l else y :: insertExpiry x l'
  end.

Definition sortedHeap : Type := { l : list replayExpiry | StronglySorted (λ x y, expiresAt x ≤ expiresAt y) l }.

Lemma insertExpiry_perm x l : insertExpiry x l ≡ₚ x :: l.
Proof.
  induction l as [|y l IH]; simpl; [done|]. case_match; [done|]. by rewrite IH, Permutation_swap.
Qed.

Lemma insertExpiry_sorted x l :
  StronglySorted (λ x y, expiresAt x ≤ expiresAt y) l →
  StronglySorted (λ x y, expiresAt x ≤ expiresAt y) (insertExpiry x l).
Proof.
  unfold Less. induction 1 as [|y l Hl IH Hy]; simpl; [by repeat constructor|]. unfold Less.
  destruct (Z.ltb_spec (expiresAt x) (expiresAt y)).
  - constructor; [by constructor|]. constructor; [lia|].
    eapply Forall_impl; [exact Hy|]. simpl. lia.
  - constructor; [done|]. rewrite insertExpiry_perm. constructor; [lia|done].
Qed.

Lemma sorted_tail x l :
  StronglySorted (λ x y, expiresAt x ≤ expiresAt y) (x :: l) →
  StronglySorted (λ x y, expiresAt x ≤ expiresAt y) l.
Proof. by inversion 1. Qed.

Definition sortedPush (h : sortedHeap) (x : replayExpiry) : sortedHeap :=
  exist _ (insertExpiry x (proj1_sig h)) (insertExpiry_sorted x _ (proj2_sig h)).

Definition sortedPop (h : sortedHeap) : option (replayExpiry * sortedHeap) :=
  let '(exist _ l Hl) := h in
  match l return StronglySorted _ l → option (replayExpiry * sortedHeap) with
  | [] => λ _, None
  | x :: l' => λ Hl, Some (x, exist _ l' (sorted_tail x l' Hl))
  end Hl.

#[refine] Definition sortedHeap_heap : ExpiryHeap sortedHeap := {|
  heap_empty := exist _ [] (SSorted_nil _);
  heap_push := sortedPush;
  heap_pop := sortedPop;
  heap_elems h := proj1_sig h |}.
Proof.
  - done.
  - intros [l Hl] x. apply insertExpiry_perm.
  - by intros [[|x l] Hl].
  - intros [[|y l] Hl] x [l' Hl'] Hp; simpl in *; by simplify_eq.
  - intros [[|z l] Hl] x [l' Hl'] y Hp Hy; simpl in *; [done|]. simplify_eq.
    unfold Less. apply Z.ltb_ge. apply elem_of_cons in Hy as [->|Hy]; [done|].
    inversion Hl as [|? ? _ HF]; subst. rewrite Forall_forall in HF. by apply HF.
Defined.

(** * The record format *)
Definition encodeReplayRecord (k : replayKey) (e : Z) : list byte :=
  EncodeToString k ++ chr 32 :: FormatInt e ++ [chr 10].

Inductive ReplayError :=
| ErrContextDone
| ErrInvalidJTI
| ErrExpiredTicket
| ErrReplayStoreFull
| ErrReplayStoreClosed
| ErrCompact
| ErrAppend
| ErrSync
| ErrMalformedRecord
| ErrOversizedRecord
| ErrCorruptHeader
| ErrJournalTooLarge
| ErrEntryLimit
| ErrLock.

Definition bytes_eqb (a b : list byte) : bool := bool_decide (a = b).

Definition parseReplayRecord (line : list byte) : result ReplayError (replayKey * Z) :=
  match splitOn 32 line with
  | [a; b] =>
      match DecodeString a with
      | None => Err ErrMalformedRecord
      | Some raw =>
          if negb (length raw =? keySize)%nat || negb (bytes_eqb (EncodeToString raw) a)
          then Err ErrMalformedRecord else
          match ParseInt b with
          | None => Err ErrMalformedRecord
          | Some e =>
              if (e <=? 0) || negb (bytes_eqb (FormatInt e) b)
              then Err ErrMalformedRecord else Ok (raw, e)
          end
      end
  | _ => Err ErrMalformedRecord
  end.

Definition compactThreshold (maxEntries : Z) : Z :=
  let threshold := Z.quot maxEntries 2 in
  if threshold <? minCompactStaleRecords then minCompactStaleRecords else threshold.

Definition maxReplayJournalBytes (maxEntries : Z) : Z :=
  Z.of_nat (length replayJournalHeader) +
  (maxEntries + compactThreshold maxEntries + 1) * Z.of_nat replayRecordMaxBytes.

(** [records[:cut+1]] at the last line feed, or nil. *)
Fixpoint cutTail (records : list byte) : list byte :=
  match records with
  | [] => []
  | c :: rest =>
      match cutTail rest with
      | [] => if val c =? 10 then [c] else []
      | kept => c :: kept
      end
  end.

Definition rec_ok (r : replayKey * Z) : Prop := length r.1 = keySize ∧ 0 < r.2 ≤ int64_max.

(** A record without its line feed. *)
Definition lineOf (r : replayKey * Z) : list byte := EncodeToString r.1 ++ chr 32 :: FormatInt r.2.

Lemma encode_lineOf r : encodeReplayRecord r.1 r.2 = lineOf r ++ [chr 10].
Proof. unfold encodeReplayRecord, lineOf. by rewrite <- (assoc_L (++)). Qed.

Lemma lineOf_lacks r sep : rec_ok r → sep ∈ [10; 13]%N → lacks sep (lineOf r) = true.
Proof.
  intros [_ He] Hs. unfold lineOf. rewrite lacks_app. apply andb_true_iff.
  assert (sep ∈ [10; 13; 32; 46]%N) as Hs' by set_solver.
  split; [by apply EncodeToString_lacks|].
  change (negb (byte_of (chr 32) =? sep)%N && lacks sep (FormatInt r.2) = true).
  rewrite FormatInt_lacks by (done || lia). rewrite andb_true_r, negb_true_iff, N.eqb_neq.
  set_solver.
Qed.

Lemma lineOf_length r : rec_ok r → (length (lineOf r) ≤ 64)%nat.
Proof.
  intros [Hk He]. unfold lineOf. rewrite length_app. cbn [length].
  pose proof (length_EncodeToString r.1) as Hl. rewrite Hk in Hl.
  change ((Z.of_nat keySize * 4 + 2) / 3) with 43 in Hl.
  destruct (FormatInt_shape r.2) as [Hf _]; lia.
Qed.

Lemma parse_lineOf r : rec_ok r → parseReplayRecord (lineOf r) = Ok r.
Proof.
  intros [Hk He]. destruct r as [k e]. unfold parseReplayRecord, lineOf. simpl in *.
  rewrite splitOn_app by (done || by apply EncodeToString_lacks; set_solver).
  rewrite splitOn_lacks by (apply FormatInt_lacks; [lia|set_solver]).
  rewrite DecodeString_EncodeToString, Hk, ParseInt_FormatInt by lia.
  unfold bytes_eqb. rewrite !bool_decide_true by done.
  by rewrite (proj2 (Z.leb_gt _ _)) by lia.
Qed.

(** Only the canonical encoding of a record parses. *)
Lemma parse_canonical line r : parseReplayRecord line = Ok r → line = lineOf r ∧ rec_ok r.
Proof.
  unfold parseReplayRecord, bytes_eqb.
  destruct (splitOn 32 line) as [|a [|b [|]]] eqn:Hs; try done.
  destruct (DecodeString a) as [raw|]; [|done].
  destruct (Nat.eqb_spec (length raw) keySize) as [Hlen|]; [|done].
  case_bool_decide; [|done]. simpl.
  destruct (ParseInt b) as [e|] eqn:Hp; [|done]. apply ParseInt_range in Hp.
  destruct (Z.leb_spec e 0); [done|]. case_bool_decide; [|done]. simpl. intros [= <-].
  apply splitOn_two in Hs as (c & Hc & -> & _).
  split; [|split; [done|unfold in_int64 in Hp; simpl; lia]]. unfold lineOf. simpl. repeat f_equal; [done| |done].
  apply (inj val). unfold val. by rewrite Hc.
Qed.

(** the record format is a bijection.  A line parses to a key and an
    expiry exactly when the line, with its line feed, is the encoding of that
    32-byte key and positive 64-bit expiry; no second spelling is accepted. *)
Theorem record_roundtrip (line : list byte) (k : replayKey) (e : Z) :
  parseReplayRecord line = Ok (k, e) ↔
  line ++ [chr 10] = encodeReplayRecord k e ∧ length k = keySize ∧ 0 < e ≤ int64_max.
Proof.
  change (encodeReplayRecord k e) with (encodeReplayRecord (k, e).1 (k, e).2).
  rewrite encode_lineOf. split.
  - by intros [-> [Hk He]]%parse_canonical.
  - intros (Hl%app_inv_tail & Hk & He). rewrite Hl. by apply parse_lineOf.
Qed.

(** * The index *)
Section store.
Context {H : Type} `{!ExpiryHeap H} `{!MapRange replayKey Z}.
Record replayIndex := { entries : gmap replayKey Z; expiry : H }.

Definition newReplayIndex : replayIndex := {| entries := ∅; expiry := heap_empty |}.

Definition contains (i : replayIndex) (k : replayKey) (now : Z) : bool :=
  match entries i !! k with Some e => now <? e | None => false end.

Definition insertIndex (i : replayIndex) (k : replayKey) (e : Z) : replayIndex :=
  {| entries := <[k := e]> (entries i);
     expiry := heap_push (expiry i) {| key := k; expiresAt := e |} |}.

(** One turn of the pruning loop removes one heap element, so their number is
    enough fuel. *)
Fixpoint pruneLoop (fuel : nat) (now : Z) (i : replayIndex) (removed : Z) : replayIndex * Z :=
  match fuel with
  | O => (i, removed)
  | S fuel' =>
      match heap_pop (expiry i) with
      | None => (i, removed)
      | Some (candidate, rest) =>
          if expiresAt candidate <=? now then
            match entries i !! key candidate with
            | Some current =>
                if current =? expiresAt candidate
                then pruneLoop fuel' now
                       {| entries := delete (key candidate) (entries i); expiry := rest |} (removed + 1)
                else pruneLoop fuel' now {| entries := entries i; expiry := rest |} removed
            | None => pruneLoop fuel' now {| entries := entries i; expiry := rest |} removed
            end
          else (i, removed)
      end
  end.

Definition prune (now : Z) (i : replayIndex) : replayIndex * Z :=
  pruneLoop (length (heap_elems (expiry i))) now i 0.

(** Every entry has its heap element. *)
Definition indexed (i : replayIndex) : Prop :=
  ∀ k e, entries i !! k = Some e → {| key := k; expiresAt := e |} ∈ heap_elems (expiry i).

Lemma indexed_new : indexed newReplayIndex.
Proof. by intros k e. Qed.

Lemma indexed_insert i k e : indexed i → indexed (insertIndex i k e).
Proof.
  intros Hi k' e'. simpl. rewrite heap_elems_push, elem_of_cons.
  destruct (decide (k = k')) as [->|Hk]; [rewrite lookup_insert_eq; naive_solver|].
  rewrite lookup_insert_ne by done. right. by apply Hi.
Qed.

Lemma pruneLoop_entries fuel now i removed :
  indexed i → (length (heap_elems (expiry i)) ≤ fuel)%nat →
  indexed (pruneLoop fuel now i removed).1 ∧
  entries (pruneLoop fuel now i removed).1 = filter (λ p, now < p.2) (entries i) ∧
  (pruneLoop fuel now i removed).2 =
    removed + Z.of_nat (size (entries i)) - Z.of_nat (size (entries (pruneLoop fuel now i removed).1)).
Proof.
  revert i removed. induction fuel as [|fuel IH]; intros i removed Hi Hf; simpl.
  { split_and!; [done| |lia].
    assert (heap_elems (expiry i) = []) as E by (apply length_zero_iff_nil; lia).
    assert (entries i = ∅) as ->; [|by rewrite map_filter_empty].
    apply map_empty. intros k. destruct (entries i !! k) as [e|] eqn:Hk; [|done].
    apply Hi in Hk. rewrite E in Hk. by apply elem_of_nil in Hk. }
  destruct (heap_pop (expiry i)) as [[x rest]|] eqn:Hpop; simpl.
  2: { split_and!; [done| |lia]. apply heap_pop_None in Hpop.
       rewrite map_filter_id; [done|]. intros k e Hk%Hi.
       rewrite Hpop in Hk. by apply elem_of_nil in Hk. }
  pose proof (heap_pop_perm _ _ _ Hpop) as Hperm.
  assert (length (heap_elems rest) ≤ fuel)%nat as Hf'.
  { rewrite Hperm in Hf. simpl in Hf. lia. }
  destruct (Z.leb_spec (expiresAt x) now) as [Hx|Hx]; simpl.
  2: { split_and!; [done| |lia]. rewrite map_filter_id; [done|]. intros k e Hk%Hi. simpl.
       pose proof (heap_pop_least _ _ _ _ Hpop Hk) as Hl. unfold Less in Hl.
       apply Z.ltb_ge in Hl. simpl in Hl. lia. }
  assert (∀ k e, {| key := k; expiresAt := e |} ∈ heap_elems (expiry i) →
    {| key := k; expiresAt := e |} ≠ x → {| key := k; expiresAt := e |} ∈ heap_elems rest) as Hrest.
  { intros k e. rewrite Hperm, elem_of_cons. naive_solver. }
  assert (entries i !! key x ≠ Some (expiresAt x) →
    indexed {| entries := entries i; expiry := rest |}) as Hkeep.
  { intros Hne k e Hk. apply Hrest; [by apply Hi|]. intros <-. by apply Hne. }
  destruct (entries i !! key x) as [cur|] eqn:Hcur; 
    [|by apply (IH {| entries := entries i; expiry := rest |}); [apply Hkeep|]].
  destruct (Z.eqb_spec cur (expiresAt x)) as [->|Hne]; 
    [|apply (IH {| entries := entries i; expiry := rest |}); [apply Hkeep; congruence|done]].
  destruct (IH {| entries := delete (key x) (entries i); expiry := rest |} (removed + 1))
    as (H1 & H2 & H3); [|done|].
  { intros k e. simpl. intros [Hk He]%lookup_delete_Some. apply Hrest; [by apply Hi|].
    intros <-. simpl in *. by destruct Hk. }
  assert (size (entries i) ≠ 0)%nat by (eapply map_size_ne_0_lookup_2; eauto).
  split_and!; [done| |rewrite H3; simpl; rewrite map_size_delete_Some by eauto; lia].
  rewrite H2. simpl. rewrite map_filter_delete. rewrite delete_id; [done|]. apply map_lookup_filter_None. right. intros e He. simpl.
  rewrite Hcur in He. simplify_eq. lia.
Qed.

Lemma prune_entries now i :
  indexed i → indexed (prune now i).1 ∧ entries (prune now i).1 = filter (λ p, now < p.2) (entries i) ∧
  (prune now i).2 = Z.of_nat (size (entries i)) - Z.of_nat (size (entries (prune now i).1)).
Proof. intros Hi. by apply pruneLoop_entries. Qed.

(** [sha256.Sum256] *)
Context (Sum256 : list byte → list byte).

Definition newReplayKey (jti : string) : replayKey := Sum256 (bytes jti).

(** * The disk

    [visible] is the file at the path as a process reads it; its first [synced]
    bytes survive a power loss.  [shadows] are the files (with their durable
    lengths) the path may name again after a power loss, because the renames
    that replaced them are not durable yet. *)
Record disk := Disk {
  visible : list byte;
  synced : nat;
  shadows : list (list byte * nat)
}.

Definition versions (d : disk) : list (list byte * nat) := (visible d, synced d) :: shadows d.

(** The files a power loss may leave at the path. *)
Definition survives (d : disk) (c : list byte) : Prop :=
  ∃ v n m, (v, n) ∈ versions d ∧ (n ≤ m)%nat ∧ c = take m v.

Definition diskOf (c : list byte) : disk := Disk c (length c) [].

Definition appendDisk (d : disk) (bs : list byte) : disk :=
  Disk (visible d ++ bs) (synced d) (shadows d).

(** [fsync] of the journal makes all of it durable, and says nothing about the
    rename that put the file at its path. *)
Definition syncDisk (d : disk) : disk := Disk (visible d) (length (visible d)) (shadows d).

Definition renameDisk (d : disk) (new : list byte) : disk := Disk new (length new) (versions d).
Definition syncDirectory (d : disk) : disk := Disk (visible d) (synced d) [].

(** * The store

    The open journal: none, the file at the path, or a file that a compaction
    has already replaced there. *)
Inductive journalHandle := NoJournal | OpenJournal | ReplacedJournal.

Record DurableReplayStore := {
  index : replayIndex;
  maxEntries : Z;
  journalRecords : Z;
  closed : bool;
  broken : bool;
  journal : journalHandle
}.

Definition withIndex (s : DurableReplayStore) (i : replayIndex) : DurableReplayStore :=
  {| index := i; maxEntries := maxEntries s; journalRecords := journalRecords s;
     closed := closed s; broken := broken s; journal := journal s |}.
Definition withRecords (s : DurableReplayStore) (n : Z) : DurableReplayStore :=
  {| index := index s; maxEntries := maxEntries s; journalRecords := n;
     closed := closed s; broken := broken s; journal := journal s |}.
Definition setBroken (s : DurableReplayStore) : DurableReplayStore :=
  {| index := index s; maxEntries := maxEntries s; journalRecords := journalRecords s;
     closed := closed s; broken := true; journal := journal s |}.

Definition setReplaced (s : DurableReplayStore) : DurableReplayStore :=
  {| index := index s; maxEntries := maxEntries s; journalRecords := journalRecords s;
     closed := closed s; broken := true; journal := ReplacedJournal |}.

Definition entryCount (i : replayIndex) : Z := Z.of_nat (size (entries i)).

Definition shouldCompact (s : DurableReplayStore) : bool :=
  let stale := journalRecords s - entryCount (index s) in
  compactThreshold (maxEntries s) <=? stale.

(** Where a compaction stops: before the rename (the temporary file is removed
    and the journal untouched), or at one of the calls after it. *)
Inductive compactIO := CompactOk | CompactBeforeRename | CompactReopen | CompactClosePrevious | CompactSyncDir.

Definition flat (recs : list (replayKey * Z)) : list byte :=
  recs ≫= λ r, encodeReplayRecord r.1 r.2.

Definition compactLocked (io : compactIO) (s : DurableReplayStore) (d : disk)
    : bool * DurableReplayStore * disk :=
  let d' := renameDisk d (replayJournalHeader ++ flat (map_range (entries (index s)))) in
  let s' := withRecords s (entryCount (index s)) in
  match io with
  | CompactBeforeRename => (false, s, d)
  | CompactReopen => (false, setReplaced s, d')
  | CompactClosePrevious => (false, setBroken s', d')
  | CompactSyncDir => (false, setBroken s', d')
  | CompactOk => (true, s', syncDirectory d')
  end.

(** [io_write] is the number of bytes a failed write left behind. *)
Record consumeIO := {
  io_compact : compactIO;
  io_write : option nat;
  io_sync : bool
}.

Definition validateReplayConsume (ctxDone : bool) (jti : string) (expires : Z)
    : result ReplayError unit :=
  if ctxDone then Err ErrContextDone else
  if negb (validID jti 16 128) then Err ErrInvalidJTI else
  if time_is_zero expires then Err ErrExpiredTicket else Ok tt.

(** The tail of [Consume]: append, fsync, and only then admit. *)
Definition appendRecord (io : consumeIO) (k : replayKey) (e : Z) (s : DurableReplayStore) (d : disk)
    : result ReplayError bool * DurableReplayStore * disk :=
  let record := encodeReplayRecord k e in
  match io_write io with
  | Some n => (Err ErrAppend, setBroken s, appendDisk d (take n record))
  | None =>
      let d := appendDisk d record in
      if io_sync io
      then (Ok true, withRecords (withIndex s (insertIndex (index s) k e)) (journalRecords s + 1),
            syncDisk d)
      else (Err ErrSync, setBroken s, d)
  end.

(** [now] is the clock read under the lock. *)
Definition Consume (io : consumeIO) (ctxDone ctxDoneLocked : bool) (now : Z)
    (jti : string) (expires : Z) (s : DurableReplayStore) (d : disk)
    : result ReplayError bool * DurableReplayStore * disk :=
  match validateReplayConsume ctxDone jti expires with
  | Err e => (Err e, s, d)
  | Ok _ =>
      let k := newReplayKey jti in
      let expiresUnixNano := unix_nano expires in
      if closed s || broken s || match journal s with NoJournal => true | _ => false end then (Err ErrReplayStoreClosed, s, d) else
      if ctxDoneLocked then (Err ErrContextDone, s, d) else
      let nowUnixNano := unix_nano now in
      if expiresUnixNano <=? nowUnixNano then (Err ErrExpiredTicket, s, d) else
      let s := withIndex s (prune nowUnixNano (index s)).1 in
      if contains (index s) k nowUnixNano then (Ok false, s, d) else
      if maxEntries s <=? entryCount (index s) then (Err ErrReplayStoreFull, s, d) else
      if shouldCompact s then
        let '(ok, s, d) := compactLocked (io_compact io) s d in
        if (ok : bool) then appendRecord io k expiresUnixNano s d else (Err ErrCompact, s, d)
      else appendRecord io k expiresUnixNano s d
  end.

(** [fsync] of a replaced file makes that file durable. *)
Definition syncReplaced (d : disk) : disk :=
  Disk (visible d) (synced d)
    (match shadows d with (v, _) :: rest => (v, length v) :: rest | [] => [] end).

Definition Close (syncOk : bool) (s : DurableReplayStore) (d : disk) : DurableReplayStore * disk :=
  if closed s then (s, d) else
  ({| index := index s; maxEntries := maxEntries s; journalRecords := journalRecords s;
      closed := true; broken := broken s; journal := NoJournal |},
   if syncOk then
     match journal s with
     | OpenJournal => syncDisk d
     | ReplacedJournal => syncReplaced d
     | NoJournal => d
     end
   else d).

(** The record loop of [load]: index, records read and whether to compact. *)
Fixpoint loadRecords (now : Z) (lines : list (list byte)) (i : replayIndex) (records : Z)
    (needsCompact : bool) : result ReplayError (replayIndex * Z * bool) :=
  match lines with
  | [] => Ok (i, records, needsCompact)
  | line :: rest =>
      let? (k, e) := parseReplayRecord line in
      let records := records + 1 in
      if e <=? now then loadRecords now rest i records true else
      match entries i !! k with
      | Some existing =>
          if e <=? existing then loadRecords now rest i records true
          else loadRecords now rest (insertIndex i k e) records true
      | None => loadRecords now rest (insertIndex i k e) records needsCompact
      end
  end.

Definition endsWithLF (bs : list byte) : bool :=
  match last bs with Some c => val c =? 10 | None => false end.

(** The parse of a journal: the scan error is looked at after the records. *)
Definition loadJournal (now : Z) (data : list byte) : result ReplayError (replayIndex * Z * bool) :=
  if (length data =? 0)%nat then Ok (newReplayIndex, 0, true) else
  if negb (bytes_eqb (take (length replayJournalHeader) data) replayJournalHeader)
  then Err ErrCorruptHeader else
  let records := drop (length replayJournalHeader) data in
  let torn := negb (length records =? 0)%nat && negb (endsWithLF records) in
  let records := if torn then cutTail records else records in
  let '(lines, tooLong) := ScanLines replayRecordMaxBytes records in
  let? loaded := loadRecords now lines newReplayIndex 0 torn in
  if (tooLong : bool) then Err ErrOversizedRecord else Ok loaded.

Definition load (io : compactIO) (max : Z) (now : Z) (d : disk)
    : result ReplayError DurableReplayStore * disk :=
  let data := visible d in
  if maxReplayJournalBytes max <? Z.of_nat (length data) then (Err ErrJournalTooLarge, d) else
  match loadJournal (unix_nano now) data with
  | Err e => (Err e, d)
  | Ok (i, records, needsCompact) =>
      let s := {| index := i; maxEntries := max; journalRecords := records;
                  closed := false; broken := false; journal := OpenJournal |} in
      if max <? entryCount i then (Err ErrReplayStoreFull, d) else
      if needsCompact || shouldCompact s then
        let '(ok, s, d) := compactLocked io s d in
        ((if (ok : bool) then Ok s else Err ErrCompact), d)
      else (Ok s, d)
  end.

Definition OpenDurableReplayStore (locked : bool) (io : compactIO) (max now : Z) (d : disk)
    : result ReplayError DurableReplayStore * disk :=
  let max := if max <=? 0 then defaultReplayEntries else max in
  if MaxReplayEntries <? max then (Err ErrEntryLimit, d) else
  if negb locked then (Err ErrLock, d) else
  load io max now d.

(** * Records and journals *)
Lemma flat_cons r recs : flat (r :: recs) = lineOf r ++ chr 10 :: flat recs.
Proof. unfold flat. simpl. rewrite encode_lineOf. by rewrite <- (assoc_L (++)). Qed.

Lemma flat_app r1 r2 : flat (r1 ++ r2) = flat r1 ++ flat r2.
Proof. apply bind_app. Qed.

Lemma terminated_flat recs : Forall rec_ok recs → terminated (flat recs) = lineOf <$> recs.
Proof.
  induction 1 as [|r recs Hr _ IH]; [done|]. rewrite flat_cons, terminated_line; [|by apply lineOf_lacks; [|set_solver]|done].
  by rewrite IH.
Qed.

Lemma scan_flat recs :
  Forall rec_ok recs → ScanLines replayRecordMaxBytes (flat recs) = (lineOf <$> recs, false).
Proof.
  intros Hr. unfold ScanLines. rewrite terminated_flat by done.
  induction Hr as [|r recs Hr _ IH]; [done|]. cbn [fmap list_fmap scanFrom].
  pose proof (lineOf_length r Hr).
  rewrite (proj2 (Nat.leb_gt _ _)) by (unfold replayRecordMaxBytes; lia).
  rewrite IH, dropCR_lacks by (apply lineOf_lacks; [done|set_solver]). done.
Qed.

Lemma flat_length recs :
  Forall rec_ok recs → (length (flat recs) ≤ 65 * length recs)%nat.
Proof.
  induction 1 as [|r recs Hr _ IH]; [done|]. rewrite flat_cons, length_app. cbn [length].
  pose proof (lineOf_length r Hr). lia.
Qed.

(** The torn tail is what follows the last record. *)
Lemma cutTail_lacks tail : lacks 10 tail = true → cutTail tail = [].
Proof.
  induction tail as [|c tail IH]; [done|]. cbn. rewrite andb_true_iff, negb_true_iff, N.eqb_neq.
  intros [Hc Ht]. rewrite (IH Ht). unfold val. by rewrite (proj2 (Z.eqb_neq _ _)) by lia.
Qed.

Lemma cutTail_line a b : cutTail (a ++ chr 10 :: b) = a ++ chr 10 :: cutTail b.
Proof.
  induction a as [|c a IH]; simpl; [by destruct (cutTail b)|]. rewrite IH. by destruct a.
Qed.

Lemma cutTail_flat recs tail :
  lacks 10 tail = true → cutTail (flat recs ++ tail) = flat recs.
Proof.
  intros Ht. induction recs as [|r recs IH]; [by apply cutTail_lacks|].
  rewrite flat_cons, <- (assoc_L (++)). simpl. by rewrite cutTail_line, IH.
Qed.

(** A journal determines its records. *)
Lemma flat_determines recs recs' tail :
  Forall rec_ok recs → Forall rec_ok recs' → lacks 10 tail = true →
  flat recs = flat recs' ++ tail → recs = recs' ∧ tail = [].
Proof.
  intros Hr Hr' Ht Heq.
  assert (flat recs = flat recs') as Hf.
  { rewrite <- (cutTail_flat recs' tail) by done. rewrite <- Heq.
    rewrite <- (app_nil_r (flat recs)) at 2. by rewrite cutTail_flat. }
  split.
  - apply (f_equal terminated) in Hf. rewrite !terminated_flat in Hf by done. clear Heq Ht.
    revert recs' Hr' Hf. induction Hr as [|r recs Hr _ IH]; intros [|r' recs'] Hr' Hf; try done.
    cbn in Hf. inversion Hr'; subst. injection Hf as Hl Hf. f_equal; [|by apply IH].
    apply (f_equal parseReplayRecord) in Hl. rewrite !parse_lineOf in Hl by done. by simplify_eq.
  - rewrite Hf in Heq. rewrite <- (app_nil_r (flat recs')) in Heq at 1. by apply app_inv_head in Heq.
Qed.

(** A prefix of records and a tail is a prefix of the records and a tail. *)
Lemma take_flat recs tail j :
  Forall rec_ok recs → lacks 10 tail = true → (length tail < 96)%nat →
  ∃ n tail', take j (flat recs ++ tail) = flat (take n recs) ++ tail' ∧
    lacks 10 tail' = true ∧ (length tail' < 96)%nat.
Proof.
  assert (∀ j l, lacks 10 l = true → lacks 10 (take j l) = true) as Htake.
  { intros k l Hl. rewrite <- (take_drop k l), lacks_app, andb_true_iff in Hl. apply Hl. }
  intros Hr Ht Hlen. revert j. induction Hr as [|r recs Hr _ IH]; intros j.
  { exists 0%nat, (take j tail). split_and!; [done|by apply Htake|]. rewrite length_take. lia. }
  rewrite flat_cons, <- (assoc_L (++)). cbn [app].
  destruct (decide (j ≤ length (lineOf r))%nat) as [Hj|Hj].
  - exists 0%nat, (take j (lineOf r)). rewrite take_app_le by done.
    split_and!; [done|by apply Htake, lineOf_lacks; [|set_solver]|].
    rewrite length_take. pose proof (lineOf_length r Hr). lia.
  - destruct (IH (j - S (length (lineOf r)))%nat) as (n & tail' & Heq & ? & ?).
    exists (S n), tail'. split_and!; [|done|done]. cbn [take]. rewrite flat_cons.
    rewrite take_app_ge by lia.
    replace (j - length (lineOf r))%nat with (S (j - S (length (lineOf r)))) by lia.
    cbn [take]. rewrite Heq. by rewrite <- (assoc_L (++)).
Qed.

(** * Loading *)
Definition liveKeys (now : Z) (recs : list (replayKey * Z)) : gset replayKey :=
  list_to_set (fst <$> filter (λ r, now < r.2) recs).

Lemma elem_of_liveKeys now recs k : k ∈ liveKeys now recs ↔ ∃ e, (k, e) ∈ recs ∧ now < e.
Proof.
  unfold liveKeys. rewrite elem_of_list_to_set, list_elem_of_fmap. split.
  - intros ([k' e] & -> & [? ?]%list_elem_of_filter). eauto.
  - intros (e & Hin & He). exists (k, e). split; [done|]. by apply list_elem_of_filter.
Qed.

(** [later i k e]: the index holds [k] until at least [e]. *)
Definition later (m : gmap replayKey Z) (k : replayKey) (e : Z) : Prop :=
  ∃ e', e ≤ e' ∧ m !! k = Some e'.

Definition entries_ok (i : replayIndex) : Prop :=
  indexed i ∧ ∀ k e, entries i !! k = Some e → rec_ok (k, e).

Lemma later_insert m k e k' e' : later m k e → (∀ x, m !! k' = Some x → x < e') → later (<[k':=e']> m) k e.
Proof.
  intros (x & Hx & Hm) Hle. destruct (decide (k' = k)) as [->|Hk].
  - exists e'. rewrite lookup_insert_eq. split; [|done]. specialize (Hle x Hm). lia.
  - exists x. by rewrite lookup_insert_ne.
Qed.

Lemma entries_ok_insert i k e : entries_ok i → rec_ok (k, e) → entries_ok (insertIndex i k e).
Proof.
  intros [Hi Ho] Hr. split; [by apply indexed_insert|]. intros k' e'. simpl.
  destruct (decide (k = k')) as [->|Hk]; [rewrite lookup_insert_eq; naive_solver|].
  rewrite lookup_insert_ne by done. apply Ho.
Qed.

(** One record of the loop. *)
Lemma loadRecords_step now k e lines i n nc :
  rec_ok (k, e) → entries_ok i →
  ∃ i1 nc1, loadRecords now (lineOf (k, e) :: lines) i n nc = loadRecords now lines i1 (n + 1) nc1 ∧
    (nc = true → nc1 = true) ∧ entries_ok i1 ∧
    (∀ k' e', later (entries i) k' e' → later (entries i1) k' e') ∧
    (now < e → later (entries i1) k e) ∧
    dom (entries i1) ⊆ dom (entries i) ∪ liveKeys now [(k, e)].
Proof.
  intros Hr Hi. cbn [loadRecords]. rewrite parse_lineOf by done.
  destruct (Z.leb_spec e now) as [He|He].
  { exists i, true. split_and!; [done|done|done|done|lia|set_solver]. }
  assert (k ∈ liveKeys now [(k, e)]) as Hk by (apply elem_of_liveKeys; set_solver).
  assert (later (<[k := e]> (entries i)) k e) as Hnew by (exists e; by rewrite lookup_insert_eq).
  destruct (entries i !! k) as [x|] eqn:Hx; [destruct (Z.leb_spec e x) as [Hle|Hlt]|].
  - exists i, true. split_and!; [done|done|done|done|by exists x|set_solver].
  - exists (insertIndex i k e), true. split_and!; [done|done|by apply entries_ok_insert| |done|].
    + intros k' e' Hl. apply later_insert; [done|]. naive_solver.
    + simpl. rewrite dom_insert_L. set_solver.
  - exists (insertIndex i k e), nc. split_and!; [done|done|by apply entries_ok_insert| |done|].
    + intros k' e' Hl. apply later_insert; [done|]. naive_solver.
    + simpl. rewrite dom_insert_L. set_solver.
Qed.

Lemma loadRecords_spec now recs i n nc :
  Forall rec_ok recs → entries_ok i →
  ∃ i' nc', loadRecords now (lineOf <$> recs) i n nc = Ok (i', n + Z.of_nat (length recs), nc') ∧
    (nc = true → nc' = true) ∧ entries_ok i' ∧
    (∀ k e, later (entries i) k e → later (entries i') k e) ∧
    (∀ k e, (k, e) ∈ recs → now < e → later (entries i') k e) ∧
    dom (entries i') ⊆ dom (entries i) ∪ liveKeys now recs.
Proof.
  intros Hrecs. revert i n nc. induction Hrecs as [|[k e] recs Hr _ IH]; intros i n nc Hi.
  { exists i, nc. simpl. split_and!; [do 3 f_equal; lia|done|done|done|set_solver|set_solver]. }
  cbn [fmap list_fmap].
  destruct (loadRecords_step now k e (lineOf <$> recs) i n nc Hr Hi)
    as (i1 & nc1 & -> & Hnc1 & Hi1 & Hold1 & Hnew1 & Hdom1).
  destruct (IH i1 (n + 1) nc1 Hi1) as (i' & nc' & -> & Hnc & Hok & Hold & Hnew & Hdom).
  exists i', nc'. split_and!; [|auto|done|auto| |].
  - do 3 f_equal. simpl length. lia.
  - intros k' e' [[= -> ->]|?]%elem_of_cons; auto.
  - assert (liveKeys now recs ⊆ liveKeys now ((k, e) :: recs) ∧
            liveKeys now [(k, e)] ⊆ liveKeys now ((k, e) :: recs)) as [? ?].
    { split; intros x; rewrite !elem_of_liveKeys; set_solver. }
    intros x Hx. apply elem_of_union. apply Hdom, elem_of_union in Hx as [Hx|Hx]; [|auto].
    apply Hdom1, elem_of_union in Hx as [Hx|Hx]; auto.
Qed.

Lemma entries_ok_new : entries_ok newReplayIndex.
Proof. split; [apply indexed_new|done]. Qed.

Lemma endsWithLF_flat recs tail :
  lacks 10 tail = true →
  negb (length (flat recs ++ tail) =? 0)%nat && negb (endsWithLF (flat recs ++ tail)) =
  negb (length tail =? 0)%nat.
Proof.
  intros Ht. destruct (rev tail) as [|c rt] eqn:E.
  - apply (f_equal (@rev _)) in E. rewrite rev_involutive in E. subst tail. simpl.
    rewrite app_nil_r. destruct recs as [|r recs] using rev_ind; [done|].
    rewrite flat_app, flat_cons. unfold endsWithLF.
    change (chr 10 :: flat []) with [chr 10]. rewrite (assoc_L (++)), last_snoc.
    by rewrite andb_false_r.
  - apply (f_equal (@rev _)) in E. rewrite rev_involutive in E. subst tail. simpl in *.
    rewrite lacks_app, andb_true_iff in Ht. destruct Ht as [_ Hc]. simpl in Hc.
    rewrite andb_true_r, negb_true_iff, N.eqb_neq in Hc.
    unfold endsWithLF. rewrite (assoc_L (++)), last_snoc, !length_app. unfold val.
    rewrite (proj2 (Z.eqb_neq _ _)) by lia. simpl.
    rewrite !(proj2 (Nat.eqb_neq _ _)) by lia. done.
Qed.

(** A journal of records and a torn tail loads, and the index then holds every
    live record. *)
Lemma loadJournal_spec now recs tail :
  Forall rec_ok recs → lacks 10 tail = true →
  ∃ i nc, loadJournal now (replayJournalHeader ++ flat recs ++ tail) =
            Ok (i, Z.of_nat (length recs), nc) ∧
    (tail ≠ [] → nc = true) ∧ entries_ok i ∧
    (∀ k e, (k, e) ∈ recs → now < e → later (entries i) k e) ∧
    dom (entries i) ⊆ liveKeys now recs.
Proof.
  intros Hr Ht. unfold loadJournal. rewrite length_app. cbn [Nat.eqb length replayJournalHeader plus].
  change (length replayJournalHeader =? 0)%nat with false.
  rewrite (proj2 (Nat.eqb_neq _ _)) by (change (length replayJournalHeader) with 23%nat; lia).
  rewrite take_app_length, drop_app_length. unfold bytes_eqb. rewrite bool_decide_true by done.
  cbn [negb]. rewrite endsWithLF_flat by done.
  assert ((if negb (length tail =? 0)%nat then cutTail (flat recs ++ tail) else flat recs ++ tail)
    = flat recs) as ->.
  { destruct tail; [by rewrite app_nil_r|]. by apply cutTail_flat. }
  rewrite scan_flat by done.
  destruct (loadRecords_spec now recs newReplayIndex 0 (negb (length tail =? 0)%nat) Hr entries_ok_new)
    as (i & nc & -> & Hnc & Hi & _ & Hl & Hd).
  exists i, nc. split_and!; [done| |done|done|set_solver].
  intros Hne. apply Hnc. by destruct tail.
Qed.

(** * A relay over its lifetime

    The configured entry limit is fixed; the clock does not run backwards.  A
    grant is a [Consume] that answered true: the key, the expiry and the clock
    reading, newest first.

    Two fields follow what the disk owes: a ticket granted while renames of the
    journal are pending is in none of the files they replaced, which are the
    [sy_stale] oldest ones; [sy_undone] says that a power loss brought one of
    these back. *)
Record grant := { g_key : replayKey; g_expires : Z; g_at : Z }.

Record system := {
  sy_store : option DurableReplayStore;
  sy_disk : disk;
  sy_now : Z;
  sy_grants : list grant;
  sy_stale : nat;
  sy_undone : bool
}.

Context (limit : Z).

Definition afterOpen (now : Z) (r : result ReplayError DurableReplayStore) (d : disk) (sy : system) : system :=
  {| sy_store := match r with Ok s => Some s | Err _ => None end; sy_disk := d; sy_now := now; sy_grants := sy_grants sy;
     sy_stale := Nat.min (sy_stale sy) (length (shadows d)); sy_undone := sy_undone sy |}.
Definition afterConsume (now : Z) (jti : string) (expires : Z) (r : result ReplayError bool) (s : DurableReplayStore) (d : disk)
    (sy : system) : system :=
  let granted := match r with Ok true => true | _ => false end in
  {| sy_store := Some s; sy_disk := d; sy_now := now;
     sy_grants := if granted then {| g_key := newReplayKey jti; g_expires := unix_nano expires; g_at := now |} :: sy_grants sy
                  else sy_grants sy;
     sy_stale := if granted then length (shadows d) else Nat.min (sy_stale sy) (length (shadows d)); sy_undone := sy_undone sy |}.
Definition afterClose (s : DurableReplayStore) (d : disk) (sy : system) : system :=
  {| sy_store := Some s; sy_disk := d; sy_now := sy_now sy; sy_grants := sy_grants sy; sy_stale := sy_stale sy; sy_undone := sy_undone sy |}.
Definition afterKill (sy : system) : system :=
  {| sy_store := None; sy_disk := sy_disk sy; sy_now := sy_now sy; sy_grants := sy_grants sy; sy_stale := sy_stale sy;
     sy_undone := sy_undone sy |}.
(** The power loss leaves [c], of the file [i] renames back. *)
Definition afterCrash (i : nat) (c : list byte) (sy : system) : system :=
  {| sy_store := None; sy_disk := diskOf c; sy_now := sy_now sy; sy_grants := sy_grants sy; sy_stale := 0;
     sy_undone := sy_undone sy || (length (shadows (sy_disk sy)) - sy_stale sy <? i)%nat |}.

(** A power loss or kill inside an operation is an I/O failure of that operation
    at the point it reached, followed by [step_crash] or [step_kill]. *)
Inductive step : system → system → Prop :=
| step_open sy locked io now r d :
    sy_store sy = None → sy_now sy ≤ now ≤ int64_max →
    OpenDurableReplayStore locked io limit now (sy_disk sy) = (r, d) →
    step sy (afterOpen now r d sy)
| step_consume sy s io c1 c2 now jti expires r s' d :
    sy_store sy = Some s → sy_now sy ≤ now ≤ int64_max →
    Consume io c1 c2 now jti expires s (sy_disk sy) = (r, s', d) →
    step sy (afterConsume now jti expires r s' d sy)
| step_close sy s ok s' d :
    sy_store sy = Some s → Close ok s (sy_disk sy) = (s', d) →
    step sy (afterClose s' d sy)
| step_kill sy : step sy (afterKill sy)
| step_crash sy i v n m :
    versions (sy_disk sy) !! i = Some (v, n) → (n ≤ m)%nat →
    step sy (afterCrash i (take m v) sy).

(** A relay that was never started: no journal, no grants. *)
Definition fresh (now : Z) : system :=
  {| sy_store := None; sy_disk := diskOf []; sy_now := now; sy_grants := []; sy_stale := 0; sy_undone := false |}.

Definition effectiveLimit : Z := if limit <=? 0 then defaultReplayEntries else limit.

(** ** The invariant *)
Definition liveGrant (now : Z) (gs : list grant) (k : replayKey) (e : Z) : Prop :=
  ∃ g, g ∈ gs ∧ g_key g = k ∧ g_expires g = e ∧ now < e.

(** Every live grant is in the records. *)
Definition covered (now : Z) (gs : list grant) (recs : list (replayKey * Z)) : Prop :=
  ∀ k e, liveGrant now gs k e → ∃ e', e ≤ e' ∧ (k, e') ∈ recs.

Definition within (now : Z) (recs : list (replayKey * Z)) : Prop :=
  Z.of_nat (length recs) ≤ effectiveLimit + compactThreshold effectiveLimit ∧
  Z.of_nat (size (liveKeys now recs)) ≤ effectiveLimit.

(** A file version: empty before the first grant, or a header, records and a
    torn tail, with the live grants among the durable records. *)
Definition version_ok (now : Z) (gs : list grant) (v : list byte) (n : nat) : Prop :=
  (v = [] ∧ ∀ k e, ¬ liveGrant now gs k e) ∨
  ∃ r1 r2 tail, v = replayJournalHeader ++ flat r1 ++ flat r2 ++ tail ∧
    (length replayJournalHeader + length (flat r1) ≤ n)%nat ∧
    Forall rec_ok (r1 ++ r2) ∧ lacks 10 tail = true ∧ (length tail < 96)%nat ∧
    covered now gs r1 ∧ within now (r1 ++ r2).

Definition disk_ok (now : Z) (gs : list grant) (d : disk) : Prop :=
  ∀ v n, (v, n) ∈ versions d → version_ok now gs v n.

(** An open, unbroken store mirrors its journal. *)
Definition mirrors (now : Z) (s : DurableReplayStore) (d : disk) : Prop :=
  maxEntries s = effectiveLimit ∧
  entries_ok (index s) ∧ entryCount (index s) ≤ effectiveLimit ∧
  ∃ recs, visible d = replayJournalHeader ++ flat recs ∧ Forall rec_ok recs ∧
    journalRecords s = Z.of_nat (length recs) ∧
    journalRecords s ≤ effectiveLimit + compactThreshold effectiveLimit ∧
    ∀ k e, (k, e) ∈ recs → now < e → later (entries (index s)) k e.

Definition store_ok (now : Z) (s : DurableReplayStore) (d : disk) : Prop :=
  closed s || broken s = false → mirrors now s d.

(** Two grants of one key: the first had expired by the time of the second. *)
Definition once (gs : list grant) : Prop :=
  ForallOrdPairs (λ g2 g1, g_key g2 = g_key g1 → g_expires g1 ≤ g_at g2) gs ∧
  Forall (λ g, g_at g < g_expires g) gs.

(** The disk without its [k] oldest files. *)
Definition settled (k : nat) (d : disk) : disk := Disk (visible d) (synced d) (take (length (shadows d) - k) (shadows d)).

Definition sys_ok (sy : system) : Prop :=
  0 ≤ sy_now sy ∧ (sy_stale sy ≤ length (shadows (sy_disk sy)))%nat ∧
  disk_ok (sy_now sy) (sy_grants sy) (settled (sy_stale sy) (sy_disk sy)) ∧
  (∀ s, sy_store sy = Some s → store_ok (sy_now sy) s (sy_disk sy)) ∧
  once (sy_grants sy).

Lemma effectiveLimit_pos : 0 < effectiveLimit.
Proof. unfold effectiveLimit, defaultReplayEntries. cmp_lia. Qed.

Lemma compactThreshold_pos m : 128 ≤ compactThreshold m.
Proof. unfold compactThreshold, minCompactStaleRecords. cmp_lia. Qed.

(** Time only kills grants and records. *)
Lemma liveGrant_mono now now' gs k e : now ≤ now' → liveGrant now' gs k e → liveGrant now gs k e.
Proof. intros ? (g & ? & ? & ? & ?). exists g. split_and!; [done..|lia]. Qed.

Lemma liveKeys_mono now now' r r' : now ≤ now' → r' ⊆ r → liveKeys now' r' ⊆ liveKeys now r.
Proof.
  intros Hn Hr k. rewrite !elem_of_liveKeys. intros (e & Hin & ?). exists e. split; [by apply Hr|lia].
Qed.

Lemma within_mono now now' r r' :
  now ≤ now' → r' ⊆ r → (length r' ≤ length r)%nat → within now r → within now' r'.
Proof.
  intros Hn Hr Hl [H1 H2]. split; [lia|].
  pose proof (subseteq_size _ _ (liveKeys_mono _ _ _ _ Hn Hr)). lia.
Qed.

Lemma version_ok_mono now now' gs v n n' :
  now ≤ now' → (n ≤ n')%nat → version_ok now gs v n → version_ok now' gs v n'.
Proof.
  intros Hn Hnn [[-> Hno]|(r1 & r2 & tail & -> & Hl & Hr & Ht & Htl & Hc & Hw)].
  - left. split; [done|]. intros k e Hg. by eapply Hno, liveGrant_mono.
  - right. exists r1, r2, tail. split_and!; [done|lia|done|done|done| |].
    + intros k e Hg. by eapply Hc, liveGrant_mono.
    + by eapply within_mono; [exact Hn|..].
Qed.

(** A version survives a power loss. *)
Lemma version_ok_crash now gs v n m :
  version_ok now gs v n → (n ≤ m)%nat → version_ok now gs (take m v) (length (take m v)).
Proof.
  intros [[-> Hno]|(r1 & r2 & tail & -> & Hl & Hr & Ht & Htl & Hc & Hw)] Hm.
  { left. by rewrite take_nil. }
  rewrite Forall_app in Hr. destruct Hr as [Hr1 Hr2].
  destruct (take_flat r2 tail (m - (length replayJournalHeader + length (flat r1))) Hr2 Ht Htl)
    as (j & tail' & Heq & Ht' & Htl').
  right. exists (r1 ++ take j r2), [], tail'.
  rewrite (assoc_L (++) replayJournalHeader (flat r1)), take_app_ge
    by (rewrite length_app; lia).
  rewrite length_app, Heq, flat_app, app_nil_r. change (flat []) with (@nil byte). rewrite app_nil_l.
  assert (take j r2 ⊆ r2) as Hsub by (intros x Hx; eapply elem_of_sublist; [exact Hx|apply sublist_take]).
  split_and!.
  - by rewrite <- !(assoc_L (++)).
  - rewrite ?flat_app, !length_app. lia.
  - rewrite Forall_app. split; [done|]. by apply Forall_take.
  - done.
  - done.
  - intros k e Hg. destruct (Hc k e Hg) as (e' & ? & ?). exists e'. set_solver.
  - eapply within_mono; [done| | |exact Hw]; [set_solver|].
    rewrite !length_app, length_take. lia.
Qed.

Lemma disk_ok_mono now now' gs d : now ≤ now' → disk_ok now gs d → disk_ok now' gs d.
Proof. intros Hn Hd v n Hv. by eapply version_ok_mono; [exact Hn|done|apply Hd]. Qed.

Lemma mirrors_mono now now' s d : now ≤ now' → mirrors now s d → mirrors now' s d.
Proof.
  intros Hn (H1 & H2 & H3 & recs & H4 & H5 & H6 & H7 & H8). split_and!; [done..|].
  exists recs. split_and!; [done..|]. intros k e Hin He. apply H8; [done|lia].
Qed.

(** The records of a mirrored journal are within the limit. *)
Lemma mirrored_within now (i : replayIndex) recs :
  Z.of_nat (length recs) ≤ effectiveLimit + compactThreshold effectiveLimit →
  entryCount i ≤ effectiveLimit →
  (∀ k e, (k, e) ∈ recs → now < e → later (entries i) k e) → within now recs.
Proof.
  intros Hl He Hk. split; [done|].
  assert (liveKeys now recs ⊆ dom (entries i)) as Hsub.
  { intros k (e & Hin & Hlt)%elem_of_liveKeys. destruct (Hk k e Hin Hlt) as (e' & _ & Hx).
    by apply elem_of_dom_2 in Hx. }
  pose proof (subseteq_size _ _ Hsub) as Hs. rewrite size_dom in Hs. unfold entryCount in He. lia.
Qed.

(** ** Compaction *)
Lemma compact_version now gs (i : replayIndex) recs :
  entries_ok i → entryCount i ≤ effectiveLimit → covered now gs recs →
  (∀ k e, (k, e) ∈ recs → now < e → later (entries i) k e) →
  let new := map_range (entries i) in
  Forall rec_ok new ∧ (∀ k e, (k, e) ∈ new → now < e → later (entries i) k e) ∧
  Z.of_nat (length new) = entryCount i ∧
  version_ok now gs (replayJournalHeader ++ flat new) (length (replayJournalHeader ++ flat new)).
Proof.
  intros [Hidx Hok] Hle Hcov Hlater new. unfold new.
  assert (∀ k e, (k, e) ∈ map_range (entries i) → now < e → later (entries i) k e) as Hnew.
  { intros k e Hin%elem_of_map_range He. by exists e. }
  assert (Z.of_nat (length (map_range (entries i))) = entryCount i) as Hlen
    by (by rewrite length_map_range).
  assert (Forall rec_ok (map_range (entries i))) as Hrec.
  { apply Forall_forall. intros [k e] Hin%elem_of_map_range. by apply Hok. }
  split_and!; [done..|]. right. exists (map_range (entries i)), [], [].
  rewrite !app_nil_r. pose proof (compactThreshold_pos effectiveLimit).
  split_and!; [done| |done|done|simpl; lia| |].
  - rewrite length_app. lia.
  - intros k e Hg. destruct (Hcov k e Hg) as (e' & He & Hin).
    destruct Hg as (g & _ & _ & _ & Hlt).
    destruct (Hlater k e' Hin) as (e2 & He2 & Hx); [lia|].
    exists e2. split; [lia|]. by apply elem_of_map_range.
  - apply (mirrored_within now i); [lia|done|done].
Qed.

Lemma covered_mirror now gs s d :
  disk_ok now gs d → mirrors now s d →
  ∃ recs, visible d = replayJournalHeader ++ flat recs ∧ Forall rec_ok recs ∧
    journalRecords s = Z.of_nat (length recs) ∧
    journalRecords s ≤ effectiveLimit + compactThreshold effectiveLimit ∧
    (∀ k e, (k, e) ∈ recs → now < e → later (entries (index s)) k e) ∧
    ∃ r1 r2, recs = r1 ++ r2 ∧ covered now gs r1 ∧
      (length replayJournalHeader + length (flat r1) ≤ synced d)%nat.
Proof.
  intros Hd (_ & _ & _ & recs & Hv & Hr & Hj & Hjl & Hl).
  exists recs. split_and!; [done..|].
  assert (version_ok now gs (visible d) (synced d)) as [[He _]|Hok] by (apply Hd; left).
  { rewrite Hv in He. by apply app_nil in He as [? _]. }
  destruct Hok as (r1 & r2 & tail & Hv' & Hs & Hr' & Ht & Htl & Hc & _).
  exists r1, r2. split_and!; [|done|done].
  rewrite Hv in Hv'. apply app_inv_head in Hv'. rewrite (assoc_L (++)), <- flat_app in Hv'.
  by apply flat_determines in Hv' as [? _].
Qed.

(** What a compaction does to the disk, wherever it stops: the index holds the
    live part of records that cover the live grants. *)
Lemma compact_ok now gs s d recs io ok s' d' :
  disk_ok now gs d → maxEntries s = effectiveLimit →
  entries_ok (index s) → entryCount (index s) ≤ effectiveLimit → covered now gs recs →
  (∀ k e, (k, e) ∈ recs → now < e → later (entries (index s)) k e) →
  compactLocked io s d = (ok, s', d') →
  disk_ok now gs d' ∧
  (if ok then mirrors now s' d' ∧ s' = withRecords s (entryCount (index s))
   else broken s' = true ∨ (s' = s ∧ d' = d)) ∧
  (io = CompactOk → ok = true).
Proof.
  intros Hd Hmax Hent Hcount Hcov Hl Hc.
  destruct (compact_version now gs (index s) recs Hent Hcount Hcov Hl) as (Hnr & Hnl & Hnlen & Hnew).
  set (new := replayJournalHeader ++ flat (map_range (entries (index s)))) in *.
  assert (disk_ok now gs (renameDisk d new)) as Hd'.
  { intros v n [[= -> ->]|Hin]%elem_of_cons; [done|]. by apply Hd. }
  assert (disk_ok now gs (syncDirectory (renameDisk d new))) as Hd2.
  { intros v n [[= -> ->]|Hin%elem_of_nil]%elem_of_cons; done. }
  destruct io; simpl in Hc; simplify_eq; (split; [done|split; [|done]]); auto.
  split; [|done]. split_and!; [done..|]. exists (map_range (entries (index s))).
  pose proof (compactThreshold_pos effectiveLimit).
  split_and!; [done|done|by simpl|simpl; lia|done].
Qed.

(** ** Appending a record *)
Section append.
Context (now : Z) (gs : list grant) (s : DurableReplayStore) (d : disk) (k : replayKey) (e : Z).
Hypothesis Hd : disk_ok now gs d.
Hypothesis Hm : mirrors now s d.
Hypothesis Hrec : rec_ok (k, e).
Hypothesis Hnew : entries (index s) !! k = None.
Hypothesis Hroom : entryCount (index s) < effectiveLimit.
Hypothesis Hstale : journalRecords s - entryCount (index s) < compactThreshold effectiveLimit.

Lemma entryCount_insert : entryCount (insertIndex (index s) k e) = entryCount (index s) + 1.
Proof. unfold entryCount. simpl. rewrite map_size_insert_None by done. lia. Qed.

Lemma append_later recs :
  (∀ k e, (k, e) ∈ recs → now < e → later (entries (index s)) k e) →
  ∀ k' e', (k', e') ∈ recs ++ [(k, e)] → now < e' → later (entries (insertIndex (index s) k e)) k' e'.
Proof.
  intros Hl k' e' [Hin|[= -> ->]%list_elem_of_singleton]%elem_of_app He; simpl.
  - apply later_insert; [by apply Hl|]. naive_solver.
  - exists e. by rewrite lookup_insert_eq.
Qed.

(** However much of the record a write leaves behind, every live grant stays
    recoverable. *)
Lemma append_disk_ok n : disk_ok now gs (appendDisk d (take n (encodeReplayRecord k e))).
Proof.
  intros v m [[= -> ->]|Hin]%elem_of_cons; [|by apply Hd; right].
  destruct (covered_mirror _ _ _ _ Hd Hm) as (recs & Hv & Hr & Hj & Hjl & Hl & r1 & r2 & -> & Hcov & Hs).
  destruct (take_flat [(k, e)] [] n) as (j & tail & Heq & Ht & Htl);
    [by apply Forall_singleton|done|simpl; lia|].
  unfold flat in Heq at 1. simpl in Heq. rewrite !app_nil_r in Heq.
  right. exists r1, (r2 ++ take j [(k, e)]), tail.
  assert (take j [(k, e)] ⊆ [(k, e)]) as Hsub
    by (intros x Hx; eapply elem_of_sublist; [exact Hx|apply sublist_take]).
  split_and!.
  - rewrite Hv, Heq, !flat_app. by rewrite <- !(assoc_L (++)).
  - done.
  - rewrite (assoc_L (++)), Forall_app. split; [done|]. apply Forall_take. by apply Forall_singleton.
  - done.
  - done.
  - done.
  - apply (within_mono now now ((r1 ++ r2) ++ [(k, e)])); [done|set_solver| |].
    { rewrite !length_app, length_take. simpl. lia. }
    apply (mirrored_within now (insertIndex (index s) k e)).
    + rewrite length_app. simpl. lia.
    + rewrite entryCount_insert. lia.
    + by apply append_later.
Qed.

Lemma append_ok io r s' d' :
  closed s = false → now < e →
  appendRecord io k e s d = (r, s', d') →
  (r = Ok true ∧ disk_ok now ({| g_key := k; g_expires := e; g_at := now |} :: gs) (settled (length (shadows d')) d') ∧
   store_ok now s' d') ∨
  (r ≠ Ok true ∧ disk_ok now gs d' ∧ store_ok now s' d').
Proof.
  intros Hcl Hlive. unfold appendRecord.
  assert (∀ st dd, broken st = true → store_ok now st dd) as Hbr.
  { intros st dd Hb. unfold store_ok. by rewrite Hb, orb_true_r. }
  destruct (io_write io) as [n|].
  { intros [= <- <- <-]. right. split_and!; [done|apply append_disk_ok|by apply Hbr]. }
  destruct (io_sync io); intros [= <- <- <-].
  2: { right. split_and!; [done| |by apply Hbr].
       pose proof (append_disk_ok (length (encodeReplayRecord k e))) as Ha.
       by rewrite firstn_all in Ha. }
  left. split; [done|].
  destruct (covered_mirror _ _ _ _ Hd Hm) as (recs & Hv & Hr & Hj & Hjl & Hl & r1 & r2 & -> & Hcov & Hs).
  assert (flat [(k, e)] = encodeReplayRecord k e) as Hflat
    by (unfold flat; simpl; by rewrite app_nil_r).
  assert (Forall rec_ok ((r1 ++ r2) ++ [(k, e)])) as Hrs
    by (rewrite Forall_app; split; [done|by apply Forall_singleton]).
  assert (Z.of_nat (length ((r1 ++ r2) ++ [(k, e)])) ≤
    effectiveLimit + compactThreshold effectiveLimit) as Hlen
    by (rewrite length_app; simpl; lia).
  split.
  - intros v m. unfold settled, syncDisk, versions. rewrite Nat.sub_diag.
    cbn [visible synced shadows appendDisk take].
    intros [[= -> ->]|Hin%elem_of_nil]%elem_of_cons; [|done].
    right. exists ((r1 ++ r2) ++ [(k, e)]), [], []. rewrite !app_nil_r, Hv.
    rewrite (flat_app (r1 ++ r2)), Hflat. change (flat []) with (@nil byte). rewrite ?app_nil_r.
    split_and!; [by rewrite <- (assoc_L (++))| |done|done|simpl; lia| |].
    + rewrite !length_app. lia.
    + intros k' e' (g & [->|Hg]%elem_of_cons & <- & <- & Hlt); simpl.
      * exists e. set_solver.
      * destruct (Hcov (g_key g) (g_expires g)) as (e' & ? & ?); [by exists g|].
        exists e'. set_solver.
    + apply (mirrored_within now (insertIndex (index s) k e)); [done| |by apply append_later].
      rewrite entryCount_insert. lia.
  - intros _. destruct Hm as (Hmax & Hent & Hcount & _). split_and!; [done| | |].
    + by apply entries_ok_insert.
    + cbn [index withRecords withIndex]. rewrite entryCount_insert. lia.
    + exists ((r1 ++ r2) ++ [(k, e)]). cbn [visible syncDisk appendDisk journalRecords withRecords index withIndex].
      rewrite (flat_app (r1 ++ r2)), Hflat, Hv, (assoc_L (++)).
      rewrite length_app in Hlen. simpl length in Hlen.
      split_and!; [done|done|rewrite (length_app (r1 ++ r2)); simpl length; lia|lia|by apply append_later].
Qed.
End append.

(** ** The operations preserve the invariant *)
Lemma prune_mirrors now s d :
  mirrors now s d → mirrors now (withIndex s (prune now (index s)).1) d ∧
  ∀ k e, entries (prune now (index s)).1 !! k = Some e → now < e.
Proof.
  intros (Hmax & [Hidx Hok] & Hcount & recs & Hv & Hr & Hj & Hjl & Hl).
  destruct (prune_entries now (index s) Hidx) as (Hidx' & Hent & _).
  assert (∀ k e, entries (prune now (index s)).1 !! k = Some e ↔
    entries (index s) !! k = Some e ∧ now < e) as Hlook.
  { intros k e. rewrite Hent, map_lookup_filter_Some. done. }
  split; [|by intros k e [_ He]%Hlook].
  split_and!; [done| | |].
  - split; [done|]. intros k e [He _]%Hlook. by apply Hok.
  - unfold entryCount in *. simpl. rewrite Hent.
    pose proof (map_subseteq_size _ _ (map_filter_subseteq (λ p : replayKey * Z, now < p.2) (entries (index s)))).
    lia.
  - exists recs. split_and!; [done..|]. intros k e Hin He.
    destruct (Hl k e Hin He) as (e' & Hle & Hx). exists e'. split; [done|]. apply Hlook. split; [done|lia].
Qed.

Lemma unix_nano_id t : 0 ≤ t ≤ int64_max → unix_nano t = t.
Proof. intros. apply wrap64_id. unfold in_int64, int64_min. lia. Qed.

(** A refusal that leaves the disk alone. *)
Ltac refused := intros [= <- <- <-]; right; split; [by intros [=]|split; [try done|try done]].

Lemma consume_ok now gs s d io c1 c2 jti expires r s' d' :
  (∀ bs, length (Sum256 bs) = keySize) → 0 ≤ now ≤ int64_max →
  disk_ok now gs d → store_ok now s d →
  Consume io c1 c2 now jti expires s d = (r, s', d') →
  (r = Ok true ∧ (∀ e, ¬ liveGrant now gs (newReplayKey jti) e) ∧ now < unix_nano expires ∧
   disk_ok now ({| g_key := newReplayKey jti; g_expires := unix_nano expires; g_at := now |} :: gs)
     (settled (length (shadows d')) d') ∧
   store_ok now s' d') ∨
  (r ≠ Ok true ∧ disk_ok now gs d' ∧ store_ok now s' d').
Proof.
  intros Hsum Hnow Hd Hs. unfold Consume.
  destruct (validateReplayConsume _ _ _); [|refused].
  destruct (closed s || broken s) eqn:Hcb; [refused|].
  destruct (match journal s with NoJournal => true | _ => false end); [refused|]. cbn [orb].
  destruct c2; [refused|]. rewrite (unix_nano_id now) by done.
  destruct (Z.leb_spec (unix_nano expires) now) as [|Hlive]; [refused|].
  specialize (Hs Hcb). apply prune_mirrors in Hs as [Hm Hp].
  set (s1 := withIndex s (prune now (index s)).1) in *.
  assert (closed s1 || broken s1 = false) as Hcb1 by done.
  apply orb_false_elim in Hcb1 as [Hcl Hbr].
  destruct (contains (index s1) (newReplayKey jti) now) eqn:Hcon.
  { refused. by intros _. }
  destruct (Z.leb_spec (maxEntries s1) (entryCount (index s1))) as [|Hroom].
  { refused. by intros _. }
  assert (entries (index s1) !! newReplayKey jti = None) as Hnone.
  { unfold contains in Hcon. destruct (entries (index s1) !! newReplayKey jti) as [x|] eqn:Hx; [|done].
    apply Hp in Hx. apply Z.ltb_ge in Hcon. lia. }
  assert (rec_ok (newReplayKey jti, unix_nano expires)) as Hrec.
  { split; [apply Hsum|]. simpl. pose proof (wrap64_range expires) as Hw.
    unfold in_int64 in Hw. unfold unix_nano in *. lia. }
  destruct (covered_mirror _ _ _ _ Hd Hm)
    as (recs & _ & _ & _ & _ & Hl & r1 & r2 & -> & Hcov & _).
  assert (∀ e, ¬ liveGrant now gs (newReplayKey jti) e) as Hno.
  { intros e Hg. destruct (Hcov _ _ Hg) as (e' & He' & Hin). destruct Hg as (_ & _ & _ & _ & Hlt).
    destruct (Hl (newReplayKey jti) e') as (x & _ & Hx); [set_solver|lia|]. by rewrite Hnone in Hx. }
  assert (maxEntries s1 = effectiveLimit) as Hmax by apply Hm.
  assert (∀ s2 d2, disk_ok now gs d2 → mirrors now s2 d2 → index s2 = index s1 → closed s2 = false →
    journalRecords s2 - entryCount (index s2) < compactThreshold effectiveLimit →
    appendRecord io (newReplayKey jti) (unix_nano expires) s2 d2 = (r, s', d') →
    (r = Ok true ∧ (∀ e, ¬ liveGrant now gs (newReplayKey jti) e) ∧ now < unix_nano expires ∧
     disk_ok now ({| g_key := newReplayKey jti; g_expires := unix_nano expires; g_at := now |} :: gs)
       (settled (length (shadows d')) d') ∧
     store_ok now s' d') ∨
    (r ≠ Ok true ∧ disk_ok now gs d' ∧ store_ok now s' d')) as Happ.
  { intros s2 d2 Hd2 Hm2 Hi2 Hcl2 Hst2 Ha. rewrite Hmax in Hroom. rewrite <- Hi2 in Hroom, Hnone.
    destruct (append_ok now gs s2 d2 (newReplayKey jti) (unix_nano expires) Hd2 Hm2 Hrec Hnone Hroom
      Hst2 io r s' d' Hcl2 Hlive Ha) as [(?&?&?)|?]; [left|right]; auto. }
  unfold shouldCompact. rewrite Hmax.
  destruct (Z.leb_spec (compactThreshold effectiveLimit) (journalRecords s1 - entryCount (index s1)))
    as [|Hst]; [|by apply Happ].
  destruct (compactLocked (io_compact io) s1 d) as [[ok s2] d2] eqn:Hc.
  assert (covered now gs (r1 ++ r2)) as Hcov'.
  { intros k e Hg. destruct (Hcov k e Hg) as (e' & ? & ?). exists e'. set_solver. }
  pose proof Hm as (_ & Hent & Hcount & _).
  destruct (compact_ok now gs s1 d (r1 ++ r2) _ _ _ _ Hd Hmax Hent Hcount Hcov' Hl Hc)
    as (Hd2 & Hok & _).
  destruct ok.
  - destruct Hok as [Hm2 ->]. apply Happ; [done|done|done|done|]. simpl.
    pose proof (compactThreshold_pos effectiveLimit). lia.
  - intros [= <- <- <-]. right. split_and!; [done|done|].
    destruct Hok as [Hb|[-> ->]]; [|by intros _].
    unfold store_ok. by rewrite Hb, orb_true_r.
Qed.

(** What [load] reads off a version: the index holds its live records, within
    the limits, and is exact unless a compaction follows. *)
Lemma loadJournal_version now gs v n :
  version_ok now gs v n →
  ∃ i records nc recs, loadJournal now v = Ok (i, records, nc) ∧
    Z.of_nat (length v) ≤ maxReplayJournalBytes effectiveLimit ∧
    entries_ok i ∧ entryCount i ≤ effectiveLimit ∧ covered now gs recs ∧
    (∀ k e, (k, e) ∈ recs → now < e → later (entries i) k e) ∧
    (nc = false → v = replayJournalHeader ++ flat recs ∧ Forall rec_ok recs ∧
                  records = Z.of_nat (length recs)).
Proof.
  pose proof effectiveLimit_pos. pose proof (compactThreshold_pos effectiveLimit).
  intros [[-> Hno]|(r1 & r2 & tail & -> & Hl & Hr & Ht & Htl & Hc & Hw1 & Hw2)].
  { exists newReplayIndex, 0, true, []. split_and!; try done.
    - unfold maxReplayJournalBytes. change (length replayJournalHeader) with 23%nat. simpl length. lia.
    - change (entryCount newReplayIndex) with 0. lia.
    - intros k e Hg. by destruct (Hno k e).
    - intros k e Hin%elem_of_nil. done. }
  rewrite (assoc_L (++) (flat r1)), <- flat_app.
  destruct (loadJournal_spec now (r1 ++ r2) tail Hr Ht) as (i & nc & -> & Hnc & Hi & Hlat & Hdom).
  exists i, (Z.of_nat (length (r1 ++ r2))), nc, (r1 ++ r2). split_and!; [done| |done| | |done|].
  - pose proof (flat_length _ Hr). unfold maxReplayJournalBytes, replayRecordMaxBytes.
    rewrite !length_app in *. lia.
  - apply subseteq_size in Hdom. rewrite size_dom in Hdom. unfold entryCount. lia.
  - intros k e Hg. destruct (Hc k e Hg) as (e' & ? & ?). exists e'. set_solver.
  - intros ->. destruct tail; [|by discriminate Hnc]. by rewrite app_nil_r.
Qed.

Lemma load_ok now gs d io r d' :
  0 ≤ now ≤ int64_max → disk_ok now gs d →
  load io effectiveLimit now d = (r, d') →
  disk_ok now gs d' ∧ (∀ s, r = Ok s → store_ok now s d') ∧ (io = CompactOk → is_ok r = true).
Proof.
  intros Hnow Hd. unfold load. rewrite (unix_nano_id now) by done.
  destruct (loadJournal_version now gs (visible d) (synced d))
    as (i & records & nc & recs & -> & Hlen & Hi & Hcount & Hcov & Hlat & Hexact); [apply Hd; left|].
  rewrite (proj2 (Z.ltb_ge _ _)) by lia. rewrite (proj2 (Z.ltb_ge _ _)) by lia.
  set (s := {| index := i |}).
  destruct (nc || shouldCompact s) eqn:Hcomp.
  - destruct (compactLocked io s d) as [[ok s'] d2] eqn:Hc. intros [= <- <-].
    destruct (compact_ok now gs s d recs io ok s' d2 Hd eq_refl Hi Hcount Hcov Hlat Hc)
      as (Hd2 & Hok & Hio).
    split_and!; [done| |intros ->; by rewrite Hio].
    intros s2. destruct ok; [|done]. intros [= <-] _. apply Hok.
  - intros [= <- <-]. split_and!; [done| |done]. intros s2 [= <-] _.
    apply orb_false_elim in Hcomp as [-> Hst]. destruct (Hexact eq_refl) as (Hv & Hr & ->).
    unfold shouldCompact in Hst. apply Z.leb_gt in Hst. simpl in Hst.
    split_and!; [done..|]. exists recs. split_and!; [done|done|done|simpl; lia|done].
Qed.

Lemma once_cons now gs g :
  (∀ e, ¬ liveGrant now gs (g_key g) e) → g_at g = now → now < g_expires g →
  once gs → once (g :: gs).
Proof.
  intros Hno Hat Hlt [Hgs Hall]. split; [|constructor; [lia|done]]. constructor; [|done]. apply Forall_forall. intros g1 Hin Hk.
  destruct (decide (g_expires g1 ≤ g_at g)) as [|Hle]; [done|].
  destruct (Hno (g_expires g1)). exists g1. split_and!; [done|done|done|lia].
Qed.

(** A file that is fsynced keeps its records. *)
Lemma version_full now gs v n : version_ok now gs v n → version_ok now gs v (length v).
Proof.
  intros Hv. pose proof (version_ok_crash _ _ _ _ (n + length v) Hv) as Hf.
  rewrite take_ge in Hf by lia. apply Hf. lia.
Qed.

Lemma sync_disk_ok now gs d : disk_ok now gs d → disk_ok now gs (syncDisk d).
Proof.
  intros Hd v n [[= -> ->]|Hin]%elem_of_cons; [|by apply Hd; right].
  eapply version_full, Hd. left.
Qed.

Lemma replaced_disk_ok now gs d : disk_ok now gs d → disk_ok now gs (syncReplaced d).
Proof.
  intros Hd v n. unfold syncReplaced, versions. simpl.
  intros [[= -> ->]|Hin]%elem_of_cons; [apply Hd; left|].
  destruct (shadows d) as [|[v0 n0] rest] eqn:E; [by apply elem_of_nil in Hin|].
  assert (∀ x, x ∈ shadows d → x ∈ versions d) as Hsh by (intros x Hx; by right).
  rewrite E in Hsh. apply elem_of_cons in Hin as [[= -> ->]|Hin].
  - eapply version_full, Hd, Hsh. left.
  - apply Hd, Hsh. by right.
Qed.

(** The store sees the file at the path only, so what it does is the same
    whatever older files are behind it. *)
Lemma settled_min k d : settled (Nat.min k (length (shadows d))) d = settled k d.
Proof. unfold settled. f_equal. f_equal. lia. Qed.
Lemma settled_zero d : settled 0 d = d.
Proof. unfold settled. rewrite Nat.sub_0_r, firstn_all. by destruct d. Qed.
Lemma settled_bare k d : shadows d = [] → settled k d = d.
Proof. intros E. unfold settled. destruct d; cbn in *; subst. done. Qed.
Lemma settled_rename k d new : (k ≤ length (shadows d))%nat → settled k (renameDisk d new) = renameDisk (settled k d) new.
Proof.
  intros Hk. unfold settled, renameDisk, versions. cbn [shadows visible synced length]. f_equal.
  replace (S (length (shadows d)) - k)%nat with (S (length (shadows d) - k)) by lia. done.
Qed.
Lemma settled_replaced k d : settled k (syncReplaced d) = syncReplaced (settled k d).
Proof.
  unfold settled, syncReplaced. cbn [shadows visible synced]. f_equal. destruct (shadows d) as [|[v n] rest]; [done|]. cbn [length].
  by destruct (S (length rest) - k)%nat.
Qed.
Lemma length_replaced d : length (shadows (syncReplaced d)) = length (shadows d).
Proof. unfold syncReplaced. cbn. by destruct (shadows d) as [|[v n] rest]. Qed.

Lemma compactLocked_settled k io s d ok s' d' : (k ≤ length (shadows d))%nat → compactLocked io s d = (ok, s', d') →
  compactLocked io s (settled k d) = (ok, s', settled k d').
Proof.
  intros Hk. unfold compactLocked. destruct io; intros [= <- <- <-]; rewrite <- ?settled_rename by done; done.
Qed.

Lemma Consume_settled k io c1 c2 now jti ex s d r s' d' : (k ≤ length (shadows d))%nat →
  Consume io c1 c2 now jti ex s d = (r, s', d') → Consume io c1 c2 now jti ex s (settled k d) = (r, s', settled k d').
Proof.
  assert (Ha : ∀ s d, (appendRecord io (newReplayKey jti) (unix_nano ex) s d) = (r, s', d') →
    appendRecord io (newReplayKey jti) (unix_nano ex) s (settled k d) = (r, s', settled k d')).
  { intros s2 d2. unfold appendRecord. destruct (io_write io), (io_sync io); by intros [= <- <- <-]. }
  intros Hk. unfold Consume. destruct (validateReplayConsume _ _ _); [|by intros [= <- <- <-]].
  destruct (_ || _); [by intros [= <- <- <-]|]. destruct c2; [by intros [= <- <- <-]|].
  destruct (_ <=? _); [by intros [= <- <- <-]|]. destruct (contains _ _ _); [by intros [= <- <- <-]|].
  destruct (_ <=? _); [by intros [= <- <- <-]|]. destruct (shouldCompact _); [|by apply Ha].
  destruct (compactLocked (io_compact io) _ d) as [[ok s2] d2] eqn:E. rewrite (compactLocked_settled k _ _ _ _ _ _ Hk E).
  destruct ok; [by apply Ha|by intros [= <- <- <-]].
Qed.

Lemma Open_settled k lk io now d r d' : (k ≤ length (shadows d))%nat →
  OpenDurableReplayStore lk io limit now d = (r, d') → OpenDurableReplayStore lk io limit now (settled k d) = (r, settled k d').
Proof.
  intros Hk. unfold OpenDurableReplayStore, load. cbn [visible settled].
  destruct (_ <? _); [by intros [= <- <-]|]. destruct (negb lk); [by intros [= <- <-]|].
  destruct (_ <? _); [by intros [= <- <-]|]. destruct (loadJournal _ _) as [[[i records] nc]|]; [|by intros [= <- <-]].
  destruct (_ <? _); [by intros [= <- <-]|]. destruct (_ || _); [|by intros [= <- <-]].
  destruct (compactLocked io _ d) as [[ok s2] d2] eqn:E. rewrite (compactLocked_settled k _ _ _ _ _ _ Hk E).
  by intros [= <- <-].
Qed.

Lemma versions_settled k d i v n : versions d !! i = Some (v, n) → (length (shadows d) - k <? i)%nat = false →
  (v, n) ∈ versions (settled k d).
Proof.
  intros Hi Hle%Nat.ltb_ge. destruct i as [|i]; [injection Hi as <- <-; by left|]. right. cbn in *.
  apply list_elem_of_lookup. exists i. rewrite lookup_take. case_decide; [done|lia].
Qed.

Lemma undone_step sy sy' : step sy sy' → sy_undone sy' = false → sy_undone sy = false.
Proof. destruct 1; cbn; try done. by intros [-> _]%orb_false_elim. Qed.

Lemma step_ok sy sy' : (∀ bs, length (Sum256 bs) = keySize) →
  step sy sy' → sy_undone sy' = false → sys_ok sy → sys_ok sy'.
Proof.
  intros Hsum Hstep Hun (Hnow & Hk & Hd & Hs & Hg).
  destruct Hstep as [sy lk io now r d Hst Hn Ho|sy s io c1 c2 now jti ex r s' d Hst Hn Hc
                    |sy s ok s' d Hst Hc|sy|sy i v n m Hv Hm].
  - apply (Open_settled _ _ _ _ _ _ _ Hk) in Ho. unfold OpenDurableReplayStore in Ho. change (if limit <=? 0 then defaultReplayEntries else limit)
      with effectiveLimit in Ho.
    apply (disk_ok_mono _ now) in Hd; [|lia].
    assert (disk_ok now (sy_grants sy) (settled (sy_stale sy) d) ∧ ∀ s, r = Ok s → store_ok now s (settled (sy_stale sy) d)) as [Hd' Hs'].
    { revert Ho. generalize (settled (sy_stale sy) d) as d2. intros d2 Ho. destruct (_ <? _); [naive_solver|]. destruct (negb lk); [naive_solver|].
      destruct (load_ok now (sy_grants sy) (settled (sy_stale sy) (sy_disk sy)) io r d2) as (? & ? & _); [lia|done..]. }
    split_and!; cbn; [lia|lia|by rewrite settled_min| |done]. intros s. destruct r; [|done]. intros [= <-]. by apply Hs'.
  - apply (Consume_settled _ _ _ _ _ _ _ _ _ _ _ _ Hk) in Hc. apply (disk_ok_mono _ now) in Hd; [|lia].
    assert (store_ok now s (settled (sy_stale sy) (sy_disk sy))) as Hs'.
    { intros Hcb. apply (mirrors_mono (sy_now sy)); [lia|]. by apply Hs. }
    destruct (consume_ok now (sy_grants sy) s (settled (sy_stale sy) (sy_disk sy)) io c1 c2 jti ex r s' (settled (sy_stale sy) d))
      as [(-> & Hno & Hlt & Hd' & Hs2)|(Hr & Hd' & Hs2)]; [done|lia|done|done|done| |].
    + split_and!; cbn; [lia|done| |intros ? [= <-]; exact Hs2|by apply (once_cons now)].
      unfold settled in *. rewrite Nat.sub_diag in *. exact Hd'.
    + unfold afterConsume. replace (match r with Ok true => true | _ => false end) with false by (destruct r as [[]|]; naive_solver).
      split_and!; cbn; [lia|lia|by rewrite settled_min|intros ? [= <-]; exact Hs2|done].
  - unfold Close in Hc. destruct (closed s) eqn:Hcl; simplify_eq.
    { split_and!; cbn; [done|done|done|intros ? [= <-]; by apply Hs|done]. }
    split_and!; cbn; [done| | |intros ? [= <-] [=]|done].
    + destruct ok; [|done]. destruct (journal s); [done|done|by rewrite length_replaced].
    + destruct ok; [|done]. destruct (journal s); [done|exact (sync_disk_ok _ _ _ Hd)|].
      rewrite settled_replaced. by apply replaced_disk_ok.
  - split_and!; cbn; [done|done|done|done|done].
  - cbn in Hun. apply orb_false_elim in Hun as [_ Hi]. split_and!; cbn; [done|lia| |done|done].
    intros v' n' [[= -> ->]|Hin%elem_of_nil]%elem_of_cons; [|done].
    apply (version_ok_crash _ _ _ n); [|done]. by eapply Hd, versions_settled.
Qed.

(** ** Runs as programs *)
Inductive op :=
| OOpen (locked : bool) (io : compactIO) (now : Z)
| OConsume (io : consumeIO) (now : Z) (jti : string) (expires : Z)
| OClose (syncOk : bool)
| OKill
| OCrash (version cut : nat).     (* the version the path names, and its length *)

Definition exec (o : op) (sy : system) : option system :=
  match o, sy_store sy with
  | OOpen locked io now, None =>
      if (sy_now sy <=? now) && (now <=? int64_max) then
        let '(r, d) := OpenDurableReplayStore locked io limit now (sy_disk sy) in
        Some (afterOpen now r d sy)
      else None
  | OConsume io now jti expires, Some s =>
      if (sy_now sy <=? now) && (now <=? int64_max) then
        let '(r, s', d) := Consume io false false now jti expires s (sy_disk sy) in Some (afterConsume now jti expires r s' d sy)
      else None
  | OClose ok, Some s => let '(s', d) := Close ok s (sy_disk sy) in Some (afterClose s' d sy)
  | OKill, _ => Some (afterKill sy)
  | OCrash i m, _ =>
      '(v, n) ← versions (sy_disk sy) !! i;
      if (n <=? m)%nat then Some (afterCrash i (take m v) sy) else None
  | _, _ => None
  end.

Fixpoint execs (os : list op) (sy : system) : option system :=
  match os with
  | [] => Some sy
  | o :: os' => exec o sy ≫= execs os'
  end.

Lemma exec_step o sy sy' : exec o sy = Some sy' → step sy sy'.
Proof.
  unfold exec. destruct o as [lk io now|io now jti ex|ok| |i m].
  - destruct (sy_store sy) eqn:Hs; [done|]. destruct (_ && _) eqn:Hn; [|done].
    apply andb_true_iff in Hn as [?%Z.leb_le ?%Z.leb_le].
    destruct (OpenDurableReplayStore _ _ _ _ _) as [r d] eqn:Ho. intros [= <-].
    by eapply step_open.
  - destruct (sy_store sy) as [s|] eqn:Hs; [|done]. destruct (_ && _) eqn:Hn; [|done].
    apply andb_true_iff in Hn as [?%Z.leb_le ?%Z.leb_le].
    destruct (Consume _ _ _ _ _ _ _ _) as [[r s'] d] eqn:Hc. intros [= <-]. by eapply step_consume.
  - destruct (sy_store sy) as [s|] eqn:Hs; [|done].
    destruct (Close _ _ _) as [s' d] eqn:Hc. intros [= <-]. by eapply step_close.
  - intros [= <-]. apply step_kill.
  - intros ([v n] & Hv & Hx)%bind_Some. destruct (Nat.leb_spec n m); [|done]. simplify_eq.
    by eapply step_crash.
Qed.

Lemma execs_rtc os sy sy' : execs os sy = Some sy' → rtc step sy sy'.
Proof.
  revert sy. induction os as [|o os IH]; intros sy; simpl; [intros [= ->]; constructor|].
  intros (sy1 & H1%exec_step & H2)%bind_Some. eapply rtc_l; [done|]. by apply IH.
Qed.

Lemma fresh_ok now : 0 ≤ now → sys_ok (fresh now).
Proof.
  intros Hn. split_and!; simpl; [done|done| |done|split; constructor].
  intros v n [[= -> ->]|Hin%elem_of_nil]%elem_of_cons; [|done].
  left. split; [done|]. intros k e (g & Hg%elem_of_nil & _). done.
Qed.

Lemma reachable_ok now sy : (∀ bs, length (Sum256 bs) = keySize) → 0 ≤ now →
  rtc step (fresh now) sy → sy_undone sy = false → sys_ok sy.
Proof.
  intros Hsum Hn Hr Hun. apply fresh_ok in Hn. revert Hn.
  induction Hr as [|x y z Hxy Hyz IH]; [done|]. intros Hx. apply IH; [done|]. apply (step_ok x); [done|done| |done].
  clear -Hyz Hun. induction Hyz as [|? ? ? Hs _ IH]; [done|]. by eapply undone_step, IH.
Qed.

Lemma once_NoDup gs : once gs → NoDup ((λ g, (g_key g, g_expires g)) <$> gs).
Proof.
  intros [Ho Ha]. induction Ho as [|g gs Hg Ho IH]; [constructor|].
  inversion Ha; subst. cbn. constructor; [|by apply IH].
  intros (g1 & [= Hk He] & Hin)%list_elem_of_fmap. rewrite Forall_forall in Hg.
  specialize (Hg g1 Hin Hk). lia.
Qed.

Lemma load_open io max now d s d' : load io max now d = (Ok s, d') → closed s || broken s = false.
Proof.
  unfold load. case_match; [done|]. case_match; [|done]. repeat case_match; try done; intros [= <- <-];
    [|done]. destruct io; simpl in *; by simplify_eq.
Qed.

(** Every compaction failed before its rename or synced the directory. *)
Definition committedIO (io : compactIO) : bool := match io with CompactOk | CompactBeforeRename => true | _ => false end.
Definition committed (o : op) : bool :=
  match o with OOpen _ io _ => committedIO io | OConsume io _ _ _ => committedIO (io_compact io) | _ => true end.

Lemma compact_committed io s d ok s' d' : committedIO io = true → shadows d = [] → compactLocked io s d = (ok, s', d') → shadows d' = [].
Proof. unfold compactLocked. by destruct io; intros Hc Hd [= <- <- <-]. Qed.

Lemma append_shadows io k e s d r s' d' : appendRecord io k e s d = (r, s', d') → shadows d' = shadows d.
Proof. unfold appendRecord. destruct (io_write io); [|destruct (io_sync io)]; by intros [= <- <- <-]. Qed.

Lemma Consume_committed io c1 c2 now jti ex s d r s' d' : committedIO (io_compact io) = true → shadows d = [] →
  Consume io c1 c2 now jti ex s d = (r, s', d') → shadows d' = [].
Proof.
  intros Hc Hd. unfold Consume. destruct (validateReplayConsume _ _ _); [|by intros [= <- <- <-]].
  destruct (_ || _); [by intros [= <- <- <-]|]. destruct c2; [by intros [= <- <- <-]|].
  destruct (_ <=? _); [by intros [= <- <- <-]|]. destruct (contains _ _ _); [by intros [= <- <- <-]|].
  destruct (_ <=? _); [by intros [= <- <- <-]|]. destruct (shouldCompact _); [|by intros ->%append_shadows].
  destruct (compactLocked (io_compact io) _ d) as [[ok s2] d2] eqn:E. apply compact_committed in E; [|done..].
  destruct ok; [by intros ->%append_shadows|by intros [= <- <- <-]].
Qed.

Lemma Open_committed lk io now d r d' : committedIO io = true → shadows d = [] → OpenDurableReplayStore lk io limit now d = (r, d') → shadows d' = [].
Proof.
  intros Hc Hd. unfold OpenDurableReplayStore, load.
  destruct (_ <? _); [by intros [= <- <-]|]. destruct (negb lk); [by intros [= <- <-]|].
  destruct (_ <? _); [by intros [= <- <-]|]. destruct (loadJournal _ _) as [[[i records] nc]|]; [|by intros [= <- <-]].
  destruct (_ <? _); [by intros [= <- <-]|]. destruct (_ || _); [|by intros [= <- <-]].
  destruct (compactLocked io _ d) as [[ok s2] d2] eqn:E. intros [= <- <-]. by eapply compact_committed.
Qed.

Lemma committed_run ops sy sy' : forallb committed ops = true → shadows (sy_disk sy) = [] → execs ops sy = Some sy' →
  shadows (sy_disk sy') = [] ∧ sy_undone sy' = sy_undone sy.
Proof.
  revert sy. induction ops as [|o ops IH]; intros sy; cbn [execs forallb]; [by intros _ Hd [= <-]|].
  intros [Ho Hops]%andb_true_iff Hd (sy1 & H1 & H2)%bind_Some.
  assert (Hs : shadows (sy_disk sy1) = [] ∧ sy_undone sy1 = sy_undone sy).
  { unfold exec in H1. destruct o as [lk io now|io now jti ex|ok| |i m]; cbn [committed] in Ho.
    - destruct (sy_store sy); [done|]. destruct (_ && _); [|done]. destruct (OpenDurableReplayStore _ _ _ _ _) as [r d] eqn:E.
      injection H1 as <-. split; [by eapply Open_committed|done].
    - destruct (sy_store sy) as [s|]; [|done]. destruct (_ && _); [|done]. destruct (Consume _ _ _ _ _ _ _ _) as [[r s'] d] eqn:E.
      injection H1 as <-. split; [by eapply Consume_committed|done].
    - destruct (sy_store sy) as [s|]; [|done]. destruct (Close ok s (sy_disk sy)) as [s' d] eqn:E. injection H1 as <-. split; [|done].
      unfold Close in E. cbn. destruct (closed s); [by injection E as <- <-|]. injection E as <- <-.
      destruct ok; [|done]. destruct (journal s); [done|done|]. apply length_zero_iff_nil. rewrite length_replaced. by rewrite Hd.
    - injection H1 as <-. done.
    - destruct (versions (sy_disk sy) !! i) as [[v n]|] eqn:E; [|done]. cbn in H1. destruct (n <=? m)%nat; [|done]. injection H1 as <-.
      split; [done|]. cbn. unfold versions in E. rewrite Hd in *. destruct i as [|i]; [|by destruct i]. by rewrite orb_false_r. }
  destruct Hs as [Hs1 Hs2]. destruct (IH sy1 Hops Hs1 H2) as [? ?]. split; [done|congruence].
Qed.

(** C1: a ticket is admitted once, across crashes.  In every run of a relay
    (opens, consumes, closes, kills and power losses in any order, with any I/O
    failure at any point, under a clock that does not run backwards, on a file
    system where a rename is durable when its directory has been synced and not
    before), as long as no power loss brings back a journal that was replaced
    before a ticket was granted: if one key is granted twice then the first
    grant had expired when the second was given, and no ticket (key and expiry)
    is ever granted twice.  No power loss can do that in a run whose compactions
    all fail before their rename or complete their directory sync; that it can
    where one stops between the two is [double_spend_without_directory_sync]. *)
Theorem no_double_spend (start : Z) : (∀ bs, length (Sum256 bs) = keySize) → 0 ≤ start →
  (∀ sy, rtc step (fresh start) sy → sy_undone sy = false →
     ForallOrdPairs (λ g2 g1, g_key g2 = g_key g1 → g_expires g1 ≤ g_at g2) (sy_grants sy) ∧
     NoDup ((λ g, (g_key g, g_expires g)) <$> sy_grants sy)) ∧
  (∀ ops sy, execs ops (fresh start) = Some sy → forallb committed ops = true → sy_undone sy = false).
Proof.
  intros Hsum Hn. split.
  - intros sy Hr Hun. destruct (reachable_ok _ _ Hsum Hn Hr Hun) as (_ & _ & _ & _ & Ho). split; [apply Ho|by apply once_NoDup].
  - intros ops sy He Hc. by destruct (committed_run ops (fresh start) sy Hc eq_refl He).
Qed.

(** a journal the store wrote always reopens.  Whatever a run did and
    wherever a crash or power loss cut the file, opening what is left at the
    path with the same entry limit succeeds when the I/O does, and the reopened
    store refuses every ticket granted before that has not expired. *)
Lemma reopen_remembers (start now : Z) (sy : system) (c : list byte) :
  (∀ bs, length (Sum256 bs) = keySize) → 0 ≤ start →
  rtc step (fresh start) sy → sy_undone sy = false → sy_now sy ≤ now ≤ int64_max → limit ≤ MaxReplayEntries →
  c = visible (sy_disk sy) ∨ survives (settled (sy_stale sy) (sy_disk sy)) c →
  ∃ s d, OpenDurableReplayStore true CompactOk limit now (diskOf c) = (Ok s, d) ∧
    ∀ g, g ∈ sy_grants sy → now < g_expires g → contains (index s) (g_key g) now = true.
Proof.
  intros Hsum Hn Hr Hun Hnow Hlim Hc.
  destruct (reachable_ok _ _ Hsum Hn Hr Hun) as (H0 & _ & Hd & _).
  assert (disk_ok now (sy_grants sy) (diskOf c)) as Hdc.
  { apply (disk_ok_mono (sy_now sy)); [lia|].
    intros v n [[= -> ->]|Hin%elem_of_nil]%elem_of_cons; [|done].
    destruct Hc as [->|(v & n & m & Hv & Hm & ->)].
    - eapply (version_full _ _ _ (synced (sy_disk sy))), Hd. by left.
    - apply (version_ok_crash _ _ _ n); [by apply Hd|done]. }
  unfold OpenDurableReplayStore. change (if limit <=? 0 then _ else _) with effectiveLimit.
  rewrite (proj2 (Z.ltb_ge _ _)) by
    (unfold effectiveLimit, defaultReplayEntries, MaxReplayEntries in *; cmp_lia).
  cbn [negb]. destruct (load CompactOk effectiveLimit now (diskOf c)) as [r d] eqn:Hl.
  destruct (load_ok now (sy_grants sy) (diskOf c) CompactOk r d) as (Hd' & Hs & Hok); [lia|done..|].
  destruct r as [s|]; [|by discriminate Hok]. exists s, d. split; [done|]. intros g Hg He.
  assert (closed s || broken s = false) as Hopen by (eapply load_open; exact Hl).
  destruct (covered_mirror _ _ _ _ Hd' (Hs s eq_refl Hopen))
    as (recs & _ & _ & _ & _ & Hlat & r1 & r2 & -> & Hcov & _).
  destruct (Hcov (g_key g) (g_expires g)) as (e' & He' & Hin); [by exists g|].
  destruct (Hlat (g_key g) e') as (x & Hx & Hlook); [set_solver|lia|].
  unfold contains. rewrite Hlook. apply Z.ltb_lt. lia.
Qed.

(** pruning removes exactly the expired entries and reports their number,
    so a full store makes room as soon as a ticket expires. *)
Theorem prune_exact (now : Z) (i : replayIndex) :
  indexed i →
  indexed (prune now i).1 ∧
  (∀ k e, entries (prune now i).1 !! k = Some e ↔ entries i !! k = Some e ∧ now < e) ∧
  (prune now i).2 = Z.of_nat (size (entries i)) - Z.of_nat (size (entries (prune now i).1)).
Proof.
  intros Hi. destruct (prune_entries now i Hi) as (H1 & H2 & H3). split_and!; [done| |done].
  intros k e. rewrite H2, map_lookup_filter_Some. done.
Qed.
End store.

(** * Concrete runs *)

(** A stand-in digest: the first 32 bytes of the padded input. *)
Definition demoSum (bs : list byte) : list byte := take 32 (bs ++ replicate 32 (chr 0)).

Lemma demoSum_length bs : length (demoSum bs) = keySize.
Proof. unfold demoSum. rewrite length_take, length_app, length_replicate. unfold keySize. lia. Qed.

Definition goodIO : consumeIO := {| io_compact := CompactOk; io_write := None; io_sync := true |}.
Definition demoJTI : string := "ticket-0123456789".

Definition demoExecs (ops : list op) : option system :=
  execs (H := sortedHeap) (ExpiryHeap0 := sortedHeap_heap) (MapRange0 := map_to_list_range)
    demoSum 4 ops (fresh 0).

(** A relay admits a ticket, tears the journal in a second admission, loses
    power, restarts and is offered the first ticket again. *)
Definition demoRun : list op :=
  [OOpen true CompactOk 1; OConsume goodIO 2 demoJTI 100;
   OConsume {| io_compact := CompactOk; io_write := Some 9%nat; io_sync := true |} 3 "ticket-other-0123" 100;
   OCrash 0 90; OOpen true CompactOk 4; OConsume goodIO 5 demoJTI 100].

Lemma demo_run ops t gs un :
  (λ sy, (sy_now sy, sy_grants sy, sy_undone sy)) <$> demoExecs ops = Some (t, gs, un) →
  ∃ sy, demoExecs ops = Some sy ∧ sy_now sy = t ∧ sy_grants sy = gs ∧ sy_undone sy = un.
Proof. destruct (demoExecs ops) as [sy|]; [|done]. intros [= <- <-]. by exists sy. Qed.

Definition demoGrant (t : Z) : grant :=
  {| g_key := demoSum (bytes demoJTI); g_expires := 100; g_at := t |}.

Lemma no_double_spend_witness :
  ∃ sy, demoExecs demoRun = Some sy ∧ sy_grants sy = [demoGrant 2] ∧
    NoDup ((λ g, (g_key g, g_expires g)) <$> sy_grants sy).
Proof.
  destruct (no_double_spend (ExpiryHeap0 := sortedHeap_heap) (MapRange0 := map_to_list_range) demoSum 4 0 demoSum_length (Z.le_refl 0))
    as [Ho Hc].
  destruct (demo_run demoRun 5 [demoGrant 2] false) as (sy & E & _ & Hg & _); [vm_compute; reflexivity|].
  exists sy. split_and!; [exact E|exact Hg|].
  apply Ho; [eapply execs_rtc; exact E|]. apply (Hc demoRun); [exact E|reflexivity].
Defined.

Lemma reopen_remembers_witness :
  ∃ sy s d, demoExecs (take 3 demoRun) = Some sy ∧
    OpenDurableReplayStore (ExpiryHeap0 := sortedHeap_heap) (MapRange0 := map_to_list_range)
      true CompactOk 4 6 (diskOf (visible (sy_disk sy))) = (Ok s, d) ∧
    contains (H := sortedHeap) (index s) (demoSum (bytes demoJTI)) 6 = true.
Proof.
  destruct (demo_run (take 3 demoRun) 3 [demoGrant 2] false) as (sy & E & Ht & Hg & Hun);
    [vm_compute; reflexivity|].
  destruct (reopen_remembers (ExpiryHeap0 := sortedHeap_heap) (MapRange0 := map_to_list_range)
    demoSum 4 0 6 sy (visible (sy_disk sy))) as (s & d & Ho & Hc).
  - exact demoSum_length.
  - lia.
  - eapply execs_rtc. exact E.
  - exact Hun.
  - rewrite Ht. unfold int64_max. lia.
  - unfold MaxReplayEntries. lia.
  - left. reflexivity.
  - exists sy, s, d. split_and!; [exact E|exact Ho|].
    apply (Hc (demoGrant 2)); [rewrite Hg; left|reflexivity].
Defined.

Lemma prune_exact_witness :
  let i := insertIndex (H := sortedHeap) (ExpiryHeap0 := sortedHeap_heap)
             (insertIndex (ExpiryHeap0 := sortedHeap_heap)
                (newReplayIndex (ExpiryHeap0 := sortedHeap_heap)) [chr 1] 5) [chr 2] 9 in
  (prune (ExpiryHeap0 := sortedHeap_heap) 7 i).2 = 1 ∧
  entries (prune (ExpiryHeap0 := sortedHeap_heap) 7 i).1 !! [chr 2] = Some 9.
Proof.
  intros i. destruct (prune_exact (ExpiryHeap0 := sortedHeap_heap) 7 i) as (_ & Hl & Hn).
  - apply indexed_insert, indexed_insert, indexed_new.
  - split; [vm_compute; reflexivity|]. apply Hl. split; [reflexivity|reflexivity].
Defined.

(** Reopening does not make a pending rename durable: a process killed
    between the rename of a compaction and the directory fsync leaves a rename
    that the next process neither repeats nor syncs; a power loss after it has
    granted a ticket brings the old journal back, and the ticket is granted
    again. *)
Theorem double_spend_without_directory_sync :
  ∃ sy g1 g2,
    rtc (step (H := sortedHeap) (ExpiryHeap0 := sortedHeap_heap) (MapRange0 := map_to_list_range)
           demoSum 4) (fresh 0) sy ∧
    sy_grants sy = [g2; g1] ∧ g_key g2 = g_key g1 ∧ g_expires g2 = g_expires g1.
Proof.
  destruct (demo_run
    [OOpen true CompactSyncDir 1; OOpen true CompactOk 2; OConsume goodIO 3 demoJTI 100;
     OCrash 1 0; OOpen true CompactOk 4; OConsume goodIO 5 demoJTI 100] 5 [demoGrant 5; demoGrant 3] true)
    as (sy & E & _ & Hg & _); [vm_compute; reflexivity|].
  exists sy, (demoGrant 3), (demoGrant 5). split_and!; [|exact Hg|reflexivity|reflexivity].
  eapply execs_rtc. exact E.
Qed.
