(* ===== verification/Sidecar.v ===== *)
(** The relay-local WSS sidecar (src/libs/openrung/internal/wssbridge/sidecar.go
    and the per-source accounting of limits.go).

    A request moves through the guards of [handleBridge] in order: origin
    token, rate limits, viewer address, subprotocol, bearer ticket, a pending
    slot, ticket verification, replay consumption, the per-source count and a
    session slot; then [serveSession] admits streams.  Each atomic action of
    the handler is one definition, and the interleaving of the goroutines is a
    step relation over the shared counters and the requests' phases.  HTTP
    parsing, [net/netip], the WebSocket upgrade and the floating-point token
    buckets are inputs. *)
From stdpp Require Import base list list_numbers gmap strings.
From Stdlib Require Import ZArith Lia.
From S2P Require Import Prelude Codec Directory Fronts Ticket.

(** * Per-source accounting (limits.go) *)
Record sourceUsageEntry := { useSessions : Z; useStreams : Z }.
#[global] Instance sourceUsageEntry_eq_dec : EqDecision sourceUsageEntry.
Proof. solve_decision. Defined.

Notation usage := (gmap string sourceUsageEntry).
Definition noUsage : sourceUsageEntry := {| useSessions := 0; useStreams := 0 |}.

Definition deleteEmptyLocked (u : usage) (key : string) : usage :=
  match u !! key with
  | Some e => if (useSessions e =? 0) && (useStreams e =? 0) then delete key u else u
  | None => u
  end.

Definition entryFor (u : usage) (key : string) : sourceUsageEntry := default noUsage (u !! key).

Definition acquireSession (maxSessions : Z) (u : usage) (key : string) : bool * usage :=
  let e := entryFor u key in
  let u := <[key := e]> u in
  if maxSessions <=? useSessions e then (false, deleteEmptyLocked u key)
  else (true, <[key := {| useSessions := useSessions e + 1; useStreams := useStreams e |}]> u).

Definition releaseSession (u : usage) (key : string) : usage :=
  match u !! key with
  | None => u
  | Some e =>
      if useSessions e =? 0 then u
      else deleteEmptyLocked
             (<[key := {| useSessions := useSessions e - 1; useStreams := useStreams e |}]> u) key
  end.

Definition acquireStream (maxStreams : Z) (u : usage) (key : string) : bool * usage :=
  let e := entryFor u key in
  let u := <[key := e]> u in
  if maxStreams <=? useStreams e then (false, deleteEmptyLocked u key)
  else (true, <[key := {| useSessions := useSessions e; useStreams := useStreams e + 1 |}]> u).

Definition releaseStream (u : usage) (key : string) : usage :=
  match u !! key with
  | None => u
  | Some e =>
      if useStreams e =? 0 then u
      else deleteEmptyLocked
             (<[key := {| useSessions := useSessions e; useStreams := useStreams e - 1 |}]> u) key
  end.

(** ** What the accounting means: the counts of a source, and no empty entry. *)
Definition addUsage (e : sourceUsageEntry) (a b : Z) : sourceUsageEntry :=
  {| useSessions := useSessions e + a; useStreams := useStreams e + b |}.

Definition noEmpty (u : usage) : Prop :=
  ∀ k e, u !! k = Some e → ¬ (useSessions e = 0 ∧ useStreams e = 0).

Lemma entryFor_insert u k e k' : entryFor (<[k := e]> u) k' = if str_eqb k k' then e else entryFor u k'.
Proof.
  unfold entryFor, str_eqb. case_bool_decide as Hk; [subst; by rewrite lookup_insert_eq|].
  by rewrite lookup_insert_ne.
Qed.

Lemma entryFor_deleteEmpty u k k' : entryFor (deleteEmptyLocked u k) k' = entryFor u k'.
Proof.
  unfold deleteEmptyLocked. destruct (u !! k) as [e|] eqn:Hk; [|done].
  destruct ((useSessions e =? 0) && (useStreams e =? 0)) eqn:He; [|done].
  unfold entryFor. destruct (decide (k = k')) as [->|Hne]; [|by rewrite lookup_delete_ne].
  rewrite lookup_delete_eq, Hk. simpl. apply andb_true_iff in He as [H1%Z.eqb_eq H2%Z.eqb_eq].
  destruct e. simpl in *. by subst.
Qed.

Lemma noEmpty_deleteEmpty u k :
  (∀ k' e, u !! k' = Some e → k' ≠ k → ¬ (useSessions e = 0 ∧ useStreams e = 0)) →
  noEmpty (deleteEmptyLocked u k).
Proof.
  intros Hu k' e He. unfold deleteEmptyLocked in He.
  destruct (u !! k) as [x|] eqn:Hk.
  - destruct ((useSessions x =? 0) && (useStreams x =? 0)) eqn:Hx.
    + apply lookup_delete_Some in He as [Hne He]. by eapply Hu.
    + destruct (decide (k' = k)) as [->|Hne]; [|by eapply Hu].
      rewrite Hk in He. simplify_eq. intros [H1 H2]. by rewrite H1, H2 in Hx.
  - destruct (decide (k' = k)) as [->|Hne]; [congruence|by eapply Hu].
Qed.

Lemma noEmpty_insert u k e :
  noEmpty u → ¬ (useSessions e = 0 ∧ useStreams e = 0) → noEmpty (<[k := e]> u).
Proof. intros Hu He k' e'. destruct (decide (k = k')) as [->|Hne];
  [rewrite lookup_insert_eq; naive_solver|rewrite lookup_insert_ne by done; apply Hu]. Qed.

Lemma noEmpty_insert_except u k e k' e' :
  noEmpty u → <[k := e]> u !! k' = Some e' → k' ≠ k → ¬ (useSessions e' = 0 ∧ useStreams e' = 0).
Proof. intros Hu He Hne. rewrite lookup_insert_ne in He by done. by eapply Hu. Qed.

(** A refused acquisition changes nothing; a granted one adds one to its source. *)
Lemma acquireSession_spec max u k ok u' :
  noEmpty u → acquireSession max u k = (ok, u') → 0 ≤ useSessions (entryFor u k) →
  0 ≤ useStreams (entryFor u k) →
  noEmpty u' ∧ (ok = true → useSessions (entryFor u k) < max) ∧
  ∀ key, entryFor u' key =
    addUsage (entryFor u key) (if (ok && str_eqb k key) then 1 else 0) 0.
Proof.
  unfold acquireSession. intros Hu. destruct (Z.leb_spec max (useSessions (entryFor u k))) as [Hm|Hm];
    intros [= <- <-] H1 H2.
  - split_and!; [apply noEmpty_deleteEmpty; intros; by eapply noEmpty_insert_except|done|].
    intros key. rewrite entryFor_deleteEmpty, entryFor_insert. simpl.
    unfold addUsage. unfold str_eqb. case_bool_decide; subst; destruct (entryFor u key); simpl; f_equal; lia.
  - split_and!; [|done|].
    + rewrite insert_insert_eq. apply noEmpty_insert; [done|]. simpl. lia.
    + intros key. rewrite !entryFor_insert. simpl. unfold addUsage, str_eqb.
      case_bool_decide; subst; destruct (entryFor u key); simpl; f_equal; lia.
Qed.

Lemma acquireStream_spec max u k ok u' :
  noEmpty u → acquireStream max u k = (ok, u') → 0 ≤ useSessions (entryFor u k) →
  0 ≤ useStreams (entryFor u k) →
  noEmpty u' ∧ (ok = true → useStreams (entryFor u k) < max) ∧
  ∀ key, entryFor u' key =
    addUsage (entryFor u key) 0 (if (ok && str_eqb k key) then 1 else 0).
Proof.
  unfold acquireStream. intros Hu. destruct (Z.leb_spec max (useStreams (entryFor u k))) as [Hm|Hm];
    intros [= <- <-] H1 H2.
  - split_and!; [apply noEmpty_deleteEmpty; intros; by eapply noEmpty_insert_except|done|].
    intros key. rewrite entryFor_deleteEmpty, entryFor_insert. simpl.
    unfold addUsage. unfold str_eqb. case_bool_decide; subst; destruct (entryFor u key); simpl; f_equal; lia.
  - split_and!; [|done|].
    + rewrite insert_insert_eq. apply noEmpty_insert; [done|]. simpl. lia.
    + intros key. rewrite !entryFor_insert. simpl. unfold addUsage, str_eqb.
      case_bool_decide; subst; destruct (entryFor u key); simpl; f_equal; lia.
Qed.

(** A release by a holder takes one away. *)
Lemma entryFor_positive u k : 0 < useSessions (entryFor u k) ∨ 0 < useStreams (entryFor u k) →
  u !! k = Some (entryFor u k).
Proof. unfold entryFor. destruct (u !! k); simpl; [done|lia]. Qed.

Lemma releaseSession_spec u k :
  noEmpty u → 0 < useSessions (entryFor u k) →
  noEmpty (releaseSession u k) ∧
  ∀ key, entryFor (releaseSession u k) key = addUsage (entryFor u key) (if str_eqb k key then -1 else 0) 0.
Proof.
  intros Hu Hp. unfold releaseSession. rewrite (entryFor_positive u k) by auto.
  rewrite (proj2 (Z.eqb_neq _ _)) by lia. split.
  - apply noEmpty_deleteEmpty. intros. by eapply noEmpty_insert_except.
  - intros key. rewrite entryFor_deleteEmpty, entryFor_insert. unfold addUsage, str_eqb.
    case_bool_decide; subst; destruct (entryFor u key); simpl; f_equal; lia.
Qed.

Lemma releaseStream_spec u k :
  noEmpty u → 0 < useStreams (entryFor u k) →
  noEmpty (releaseStream u k) ∧
  ∀ key, entryFor (releaseStream u k) key = addUsage (entryFor u key) 0 (if str_eqb k key then -1 else 0).
Proof.
  intros Hu Hp. unfold releaseStream. rewrite (entryFor_positive u k) by auto.
  rewrite (proj2 (Z.eqb_neq _ _)) by lia. split.
  - apply noEmpty_deleteEmpty. intros. by eapply noEmpty_insert_except.
  - intros key. rewrite entryFor_deleteEmpty, entryFor_insert. unfold addUsage, str_eqb.
    case_bool_decide; subst; destruct (entryFor u key); simpl; f_equal; lia.
Qed.

(** * Configuration *)
Inductive SidecarError := ErrSidecarConfig | ErrFrontTokens.

Definition maxSidecarSessions : Z := 100000.
Definition maxSidecarGlobalStreams : Z := 100000.
Definition maxConfiguredFronts : nat := 32.
Definition maxTokensPerFront : nat := 8.
Definition DefaultMaxSessions : Z := 2048.
Definition DefaultMaxPendingHandshakes : Z := 4096.
Definition DefaultMaxStreamsPerSession : Z := 128.
Definition DefaultMaxGlobalStreams : Z := 16384.
Definition DefaultMaxSessionsPerSource : Z := 512.
Definition DefaultMaxStreamsPerSource : Z := 4096.

Definition boundedDefault (value fallback hardMax : Z) : result SidecarError Z :=
  let value := if value =? 0 then fallback else value in
  if (value <? 1) || (hardMax <? value) then Err ErrSidecarConfig else Ok value.

Definition durationDefault (value fallback hardMax : Z) : result SidecarError Z :=
  let value := if value =? 0 then fallback else value in
  if (value <? millisecond) || (hardMax <? value) then Err ErrSidecarConfig else Ok value.

(** The limits of [SidecarOptions], before and after [NewSidecarHandler]. *)
Record SidecarLimits := {
  MaxSessions : Z;
  MaxPendingHandshakes : Z;
  MaxStreamsPerSession : Z;
  MaxGlobalStreams : Z;
  MaxSessionsPerSource : Z;
  MaxStreamsPerSource : Z
}.

Definition normalizeLimits (o : SidecarLimits) : result SidecarError SidecarLimits :=
  let? a := boundedDefault (MaxSessions o) DefaultMaxSessions maxSidecarSessions in
  let? b := boundedDefault (MaxPendingHandshakes o) DefaultMaxPendingHandshakes maxSidecarSessions in
  let? c := boundedDefault (MaxStreamsPerSession o) DefaultMaxStreamsPerSession MaxTicketStreams in
  let? d := boundedDefault (MaxGlobalStreams o) DefaultMaxGlobalStreams maxSidecarGlobalStreams in
  let? e := boundedDefault (MaxSessionsPerSource o) DefaultMaxSessionsPerSource maxSidecarSessions in
  let? f := boundedDefault (MaxStreamsPerSource o) DefaultMaxStreamsPerSource maxSidecarGlobalStreams in
  Ok {| MaxSessions := a; MaxPendingHandshakes := b; MaxStreamsPerSession := c;
        MaxGlobalStreams := d; MaxSessionsPerSource := e; MaxStreamsPerSource := f |}.

Lemma boundedDefault_ok v f h x : boundedDefault v f h = Ok x → 1 ≤ x ≤ h.
Proof. unfold boundedDefault. case_match eqn:E; [done|]. intros [= <-]. cmp_lia. Qed.

Lemma normalizeLimits_positive o l :
  normalizeLimits o = Ok l →
  1 ≤ MaxSessions l ∧ 1 ≤ MaxPendingHandshakes l ∧ 1 ≤ MaxStreamsPerSession l ∧
  1 ≤ MaxGlobalStreams l ∧ 1 ≤ MaxSessionsPerSource l ∧ 1 ≤ MaxStreamsPerSource l.
Proof.
  unfold normalizeLimits. intros Ho.
  repeat match type of Ho with
  | match ?x with Ok _ => _ | Err _ => _ end = _ =>
      destruct x eqn:?; [|done]
  end.
  repeat match goal with H : boundedDefault _ _ _ = Ok _ |- _ => apply boundedDefault_ok in H end.
  injection Ho as <-. simpl. lia.
Qed.

(** * Origin authentication *)
Record frontOriginAuth := { oa_frontID : string; oa_hashes : list (list byte) }.

#[global] Instance frontOriginAuth_eq_dec : EqDecision frontOriginAuth.
Proof. solve_decision. Defined.

Definition validOriginToken (token : string) : bool :=
  let bs := bytes token in
  (32 <=? length bs)%nat && (length bs <=? 512)%nat && str_eqb (TrimSpace token) token &&
  forallb (λ c, negb ((val c =? 0) || (val c =? 13) || (val c =? 10))) bs.

Section sidecar.
#[local] Set Default Proof Using "Type".
Context (ToLower : string → string) (Sum256 : list byte → list byte).

(** The token loop of one front; [owners] maps a token hash to its front. *)
Fixpoint frontHashes (frontID : string) (tokens : list string) (hashes : list (list byte))
    (owners : gmap (list byte) string) : result SidecarError (list (list byte) * gmap (list byte) string) :=
  match tokens with
  | [] => Ok (hashes, owners)
  | token :: rest =>
      if negb (validOriginToken token) then Err ErrFrontTokens else
      let hash := Sum256 (bytes token) in
      if bool_decide (hash ∈ hashes) then frontHashes frontID rest hashes owners else
      if match owners !! hash with Some owner => negb (str_eqb owner frontID) | None => false end
      then Err ErrFrontTokens
      else frontHashes frontID rest (hashes ++ [hash]) (<[hash := frontID]> owners)
  end.

Fixpoint originFronts (configured : list (string * list string)) (owners : gmap (list byte) string)
    : result SidecarError (list frontOriginAuth) :=
  match configured with
  | [] => Ok []
  | (frontID, tokens) :: rest =>
      if negb (is_ok (ValidateFrontID ToLower frontID)) then Err ErrFrontTokens else
      if (length tokens =? 0)%nat || (maxTokensPerFront <? length tokens)%nat then Err ErrFrontTokens else
      let? (hashes, owners) := frontHashes frontID tokens [] owners in
      let? fronts := originFronts rest owners in
      Ok ({| oa_frontID := frontID; oa_hashes := hashes |} :: fronts)
  end.

Definition validateFrontOriginTokens `{!MapRange string (list string)}
    (configured : gmap string (list string)) : result SidecarError (list frontOriginAuth) :=
  if (size configured =? 0)%nat || (maxConfiguredFronts <? size configured)%nat
  then Err ErrFrontTokens else
  originFronts (map_range configured) ∅.

(** [authenticateOrigin]: the front whose token was presented; the constant-time
    comparison is equality of the full hash. *)
Fixpoint matchFronts (presented : list byte) (fronts : list frontOriginAuth) (matched : string)
    (matches : Z) : string * Z :=
  match fronts with
  | [] => (matched, matches)
  | f :: rest =>
      if existsb (λ h, bool_decide (presented = h)) (oa_hashes f)
      then matchFronts presented rest (oa_frontID f) (matches + 1)
      else matchFronts presented rest matched matches
  end.

Definition authenticateOrigin (fronts : list frontOriginAuth) (values : list string) : string * bool :=
  let provided := match values with [v] => v | _ => "" end in
  let '(front, matches) := matchFronts (Sum256 (bytes provided)) fronts "" 0 in
  (front, (length values =? 1)%nat && (matches =? 1)).

Definition TicketBearerPrefix : string := "Bearer ".

Definition bearerTicket (values : list string) : option string :=
  match values with
  | [v] =>
      if String.prefix TicketBearerPrefix v then
        let ticket := String.substring (String.length TicketBearerPrefix) (String.length v) v in
        if str_empty ticket || negb (str_eqb (TrimSpace ticket) ticket)
           || (MaxTicketBytes <? String.length ticket)%nat
        then None else Some ticket
      else None
  | _ => None
  end.

(** ** One token, one front *)
Lemma frontHashes_spec f tokens hashes owners hs ow :
  frontHashes f tokens hashes owners = Ok (hs, ow) →
  (∀ h, h ∈ hashes → owners !! h = Some f) →
  (∀ h, h ∈ hs ↔ h ∈ hashes ∨ ∃ t, t ∈ tokens ∧ Sum256 (bytes t) = h) ∧
  (∀ h, h ∈ hs → ow !! h = Some f ∧ (owners !! h = None ∨ owners !! h = Some f)) ∧
  (∀ h g, ow !! h = Some g → owners !! h = Some g ∨ g = f) ∧
  (∀ h, owners !! h = None ∨ ow !! h = owners !! h).
Proof.
  clear ToLower. revert hashes owners. induction tokens as [|t tokens IH]; intros hashes owners; simpl.
  { intros [= <- <-] Ho. split_and!; [set_solver|auto|auto|auto]. }
  destruct (negb (validOriginToken t)); [done|].
  case_bool_decide as Hin.
  { intros Hf Ho. destruct (IH _ _ Hf Ho) as (H1 & H2 & H3 & H4). split_and!; try done.
    intros h. rewrite H1. set_solver. }
  destruct (match owners !! Sum256 (bytes t) with Some _ => _ | None => _ end) eqn:Hown; [done|].
  intros Hf Ho.
  assert (owners !! Sum256 (bytes t) = None ∨ owners !! Sum256 (bytes t) = Some f) as Hcase.
  { destruct (owners !! Sum256 (bytes t)) as [g|]; [right|by left].
    apply negb_false_iff, str_eqb_true in Hown. by subst. }
  destruct (IH _ _ Hf) as (H1 & H2 & H3 & H4).
  { intros h [Hh| ->%list_elem_of_singleton]%elem_of_app; [|by rewrite lookup_insert_eq].
    destruct (decide (Sum256 (bytes t) = h)) as [<-|]; [by rewrite lookup_insert_eq|].
    rewrite lookup_insert_ne by done. by apply Ho. }
  assert (∀ h, <[Sum256 (bytes t) := f]> owners !! h = None ∨
               <[Sum256 (bytes t) := f]> owners !! h = Some f →
    owners !! h = None ∨ owners !! h = Some f) as Hins.
  { intros h. destruct (decide (Sum256 (bytes t) = h)) as [<-|]; [auto|].
    rewrite !lookup_insert_ne by done. auto. }
  split_and!.
  - intros h. rewrite H1. set_solver.
  - intros h Hh. destruct (H2 h Hh) as [? ?]. auto.
  - intros h g Hg. destruct (H3 h g Hg) as [Hg'|]; [|auto].
    apply lookup_insert_Some in Hg' as [[_ <-]|[_ ?]]; auto.
  - intros h. destruct (H4 h) as [Hn|Hs].
    + apply lookup_insert_None in Hn as [? _]. auto.
    + destruct (decide (Sum256 (bytes t) = h)) as [<-|Hne].
      * destruct Hcase as [?|Hc]; [auto|]. right. by rewrite Hs, lookup_insert_eq.
      * right. by rewrite Hs, lookup_insert_ne.
Qed.

Definition authOf (c : string * list string) (fr : frontOriginAuth) : Prop :=
  oa_frontID fr = c.1 ∧ ∀ h, h ∈ oa_hashes fr ↔ ∃ t, t ∈ c.2 ∧ Sum256 (bytes t) = h.

Lemma originFronts_spec conf owners fronts :
  originFronts conf owners = Ok fronts → NoDup conf.*1 →
  (∀ h g, owners !! h = Some g → g ∉ conf.*1) →
  Forall2 authOf conf fronts ∧
  (∀ fr h, fr ∈ fronts → h ∈ oa_hashes fr → owners !! h = None) ∧
  ForallOrdPairs (λ a b, ∀ h, h ∈ oa_hashes a → h ∉ oa_hashes b) fronts.
Proof.
  revert owners fronts. induction conf as [|[f tokens] conf IH]; intros owners fronts; simpl.
  { intros [= <-] _ _. split_and!; [constructor|set_solver|constructor]. }
  destruct (negb _); [done|]. destruct (_ || _); [done|].
  destruct (frontHashes f tokens [] owners) as [[hs ow]|] eqn:Hf; [|done].
  destruct (originFronts conf ow) as [rest|] eqn:Hr; [|done]. intros [= <-] Hnd Hown.
  apply NoDup_cons in Hnd as [Hni Hnd].
  destruct (frontHashes_spec _ _ _ _ _ _ Hf) as (H1 & H2 & H3 & H4); [set_solver|].
  destruct (IH ow rest Hr Hnd) as (I1 & I2 & I3).
  { intros h g Hg. destruct (H3 h g Hg) as [Hg'| ->]; [|done]. set_solver. }
  split_and!.
  - constructor; [|done]. split; [done|]. intros h. simpl. rewrite H1. set_solver.
  - intros fr h [->|Hfr]%elem_of_cons Hh; simpl in *.
    + destruct (H2 h Hh) as [_ [?|Ho]]; [done|]. exfalso. eapply Hown; [exact Ho|]. left.
    + specialize (I2 fr h Hfr Hh). destruct (H4 h) as [?|Heq]; [done|]. by rewrite <- Heq.
  - constructor; [|done]. apply Forall_forall. intros b Hb h Hh Hhb. simpl in Hh.
    specialize (I2 b h Hb Hhb). destruct (H2 h Hh) as [Hs _]. congruence.
Qed.

(** At most one front matches, so the answer is that front. *)
Lemma matchFronts_none p fronts m n :
  (∀ fr, fr ∈ fronts → p ∉ oa_hashes fr) → matchFronts p fronts m n = (m, n).
Proof.
  induction fronts as [|fr fronts IH]; intros Hno; simpl; [done|].
  assert (existsb (λ h, bool_decide (p = h)) (oa_hashes fr) = false) as ->.
  { apply not_true_iff_false. rewrite existsb_exists. intros (h & Hh%list_elem_of_In & Hp).
    apply bool_decide_eq_true in Hp. subst h. by eapply Hno; [left|]. }
  apply IH. intros. apply Hno. by right.
Qed.

Lemma matchFronts_spec p fronts :
  ForallOrdPairs (λ a b, ∀ h, h ∈ oa_hashes a → h ∉ oa_hashes b) fronts →
  (∃ fr, fr ∈ fronts ∧ p ∈ oa_hashes fr ∧ ∀ m n, matchFronts p fronts m n = (oa_frontID fr, n + 1)) ∨
  ((∀ fr, fr ∈ fronts → p ∉ oa_hashes fr) ∧ ∀ m n, matchFronts p fronts m n = (m, n)).
Proof.
  clear ToLower Sum256. induction 1 as [|fr fronts Hfr _ IH]; simpl.
  { right. split; [set_solver|done]. }
  destruct (existsb (λ h, bool_decide (p = h)) (oa_hashes fr)) eqn:Hm.
  - apply existsb_exists in Hm as (h & Hh%list_elem_of_In & Hp%bool_decide_eq_true). subst h.
    left. exists fr. split_and!; [left|done|]. intros m n. apply matchFronts_none.
    intros b Hb. rewrite Forall_forall in Hfr. by apply Hfr.
  - assert (p ∉ oa_hashes fr) as Hno.
    { intros Hp. apply not_true_iff_false in Hm. apply Hm. apply existsb_exists. exists p.
      split; [by apply list_elem_of_In|by apply bool_decide_eq_true]. }
    destruct IH as [(b & Hb & Hp & Heq)|[Hall Heq]]; [left; exists b; split_and!; [by right|done|done]|].
    right. split; [|done]. intros b [->|Hb]%elem_of_cons; [done|by apply Hall].
Qed.

Lemma pairwise_disjoint (l : list frontOriginAuth) a b h :
  ForallOrdPairs (λ a b, ∀ h, h ∈ oa_hashes a → h ∉ oa_hashes b) l →
  a ∈ l → b ∈ l → h ∈ oa_hashes a → h ∈ oa_hashes b → a ≠ b → False.
Proof.
  induction 1 as [|x l Hx _ IH]; intros Ha Hb Hha Hhb Hne; [by apply elem_of_nil in Ha|].
  rewrite Forall_forall in Hx. apply elem_of_cons in Ha as [->|Ha], Hb as [->|Hb]; try done.
  - by apply (Hx b Hb h).
  - by apply (Hx a Ha h).
  - by apply IH.
Qed.

(** an origin token names exactly one front.  Under an accepted
    configuration, in whatever order its fronts are read, a request is
    authenticated for a front exactly when it carries one header value whose
    hash is that of one of the front's configured tokens; no request matches
    two fronts. *)
Theorem authenticateOrigin_exact `{!MapRange string (list string)}
    (configured : gmap string (list string)) (fronts : list frontOriginAuth)
    (values : list string) (front : string) :
  validateFrontOriginTokens configured = Ok fronts →
  authenticateOrigin fronts values = (front, true) ↔
  ∃ v t tokens, values = [v] ∧ configured !! front = Some tokens ∧ t ∈ tokens ∧
    Sum256 (bytes t) = Sum256 (bytes v).
Proof.
  unfold validateFrontOriginTokens. destruct (_ || _); [done|]. intros Ho.
  destruct (originFronts_spec _ _ _ Ho) as (H1 & _ & H3); [apply NoDup_map_range_fst|done|].
  assert (∀ v, authenticateOrigin fronts [v] = (front, true) ↔
    ∃ fr, fr ∈ fronts ∧ oa_frontID fr = front ∧ Sum256 (bytes v) ∈ oa_hashes fr) as Hone.
  { intros v. unfold authenticateOrigin.
    destruct (matchFronts_spec (Sum256 (bytes v)) fronts H3) as [(fr & Hfr & Hp & ->)|[Hall ->]]; simpl.
    - split; [intros [= <-]; eauto|]. intros (b & Hb & <- & Hpb). f_equal.
      destruct (decide (b = fr)) as [->|Hne]; [done|]. exfalso.
      by eapply (pairwise_disjoint fronts b fr).
    - split; [done|]. intros (b & Hb & _ & Hp). by destruct (Hall b Hb). }
  split.
  - destruct values as [|v [|]]; [by unfold authenticateOrigin; destruct (matchFronts _ _ _ _)| |
      by unfold authenticateOrigin; destruct (matchFronts _ _ _ _)].
    rewrite Hone. intros (fr & Hfr & <- & Hh).
    apply list_elem_of_lookup in Hfr as (j & Hj).
    destruct (Forall2_lookup_r _ _ _ _ _ H1 Hj) as ([f tokens] & Hc & Hid & Hhs). simpl in *.
    apply Hhs in Hh as (t & Ht & Heq). exists v, t, tokens. split_and!; [done| |done|done].
    rewrite Hid. apply elem_of_map_range. by eapply list_elem_of_lookup_2.
  - intros (v & t & tokens & -> & Hc & Ht & Heq). apply Hone.
    apply elem_of_map_range, list_elem_of_lookup in Hc as (j & Hj).
    destruct (Forall2_lookup_l _ _ _ _ _ H1 Hj) as (fr & Hfr & Hid & Hhs). simpl in *.
    exists fr. split_and!; [by eapply list_elem_of_lookup_2|done|]. apply Hhs. eauto.
Qed.

(** * Requests *)
Inductive rejection :=
| RejMethod | RejOrigin | RejGlobalRate | RejViewer | RejRate | RejProtocol | RejBearer
| RejGone | RejBusy | RejTicket | RejFront | RejReplayStore | RejReplayed
| RejSourceSessions | RejSessions | RejUpgrade.

(** The HTTP status of each; 0 when nothing is written. *)
Definition rejectionStatus (r : rejection) : Z :=
  match r with
  | RejMethod => 405
  | RejOrigin | RejBearer | RejTicket | RejFront => 401
  | RejGlobalRate | RejRate | RejSourceSessions => 429
  | RejViewer | RejProtocol => 400
  | RejBusy | RejReplayStore | RejSessions => 503
  | RejReplayed => 409
  | RejGone | RejUpgrade => 0
  end.

Record request := {
  rq_get : bool;                          (* r.Method == GET *)
  rq_originTokens : list string;          (* the origin-token header values *)
  rq_viewer : list string;                (* the viewer-address header values *)
  rq_upgrade : bool;                      (* a WebSocket upgrade offering the subprotocol *)
  rq_authorization : list string
}.

(** [netip.ParseAddrPort]: the unmapped address, its zone and the port. *)
Context (ParseAddrPort : string → option (string * string * Z)).

Definition parseViewerAddress (values : list string) : option string :=
  match values with
  | [v] =>
      if str_empty v then None else
      match ParseAddrPort v with
      | Some (addr, zone, port) =>
          if (port =? 0) || negb (str_empty zone) then None else Some addr
      | None => None
      end
  | _ => None
  end.

(** The guards of [handleBridge] before any slot is taken.  [globalAllowed] and
    [sourceAllowed] are the answers of the two token-bucket limiters. *)
Definition screen (fronts : list frontOriginAuth) (globalAllowed sourceAllowed : bool) (r : request)
    : result rejection (string * string * string) :=
  if negb (rq_get r) then Err RejMethod else
  let '(frontID, ok) := authenticateOrigin fronts (rq_originTokens r) in
  if negb ok then Err RejOrigin else
  if negb globalAllowed then Err RejGlobalRate else
  match parseViewerAddress (rq_viewer r) with
  | None => Err RejViewer
  | Some source =>
      if negb sourceAllowed then Err RejRate else
      if negb (rq_upgrade r) then Err RejProtocol else
      match bearerTicket (rq_authorization r) with
      | None => Err RejBearer
      | Some ticket => Ok (frontID, source, ticket)
      end
  end.

(** * The replay store as the sidecar sees it

    [ReplayStore] is the Go interface.  [rs_input] is what a call depends on
    besides its arguments (clock, context, I/O); [rs_granted] lists the keys
    and expiries for which it has answered true. *)
Class ReplayStore (R K : Type) := {
  rs_input : Type;
  rs_key : string → K;
  rs_consume : rs_input → string → Z → R → result unit bool * R;
  rs_granted : R → list (K * Z);
  rs_consume_granted i jti e r r' :
    rs_consume i jti e r = (Ok true, r') →
    (rs_key jti, unix_nano e) ∉ rs_granted r ∧ rs_granted r' = (rs_key jti, unix_nano e) :: rs_granted r;
  rs_consume_refused i jti e r res r' :
    rs_consume i jti e r = (res, r') → res ≠ Ok true → rs_granted r' = rs_granted r
}.

Context {R K : Type} `{!ReplayStore R K}.

(** The state the handler's goroutines share. *)
Record shared := Shared {
  sh_pending : Z;
  sh_sessions : Z;
  sh_streams : Z;
  sh_usage : usage;
  sh_replay : R
}.

(** Where a request is, and so what it holds.  An open session carries its
    remaining stream budget, its live streams and the streams it was ever
    granted. *)
Inductive phase :=
| Pending (front source : string) (ticket : string)
| Verified (source : string) (claims : Claims)
| Consumed (source : string) (claims : Claims)
| Counted (source : string) (claims : Claims)
| Slotted (source : string) (claims : Claims)
| Open (source : string) (claims : Claims) (remaining live opened : Z) (accepting : bool)
| Finished (used : option (Claims * Z)).    (* the consumed ticket and its streams, if any *)

Context (limits : SidecarLimits) (verify : Z → list byte → result TicketError Claims) (skew : Z).

Definition perSessionMax (claims : Claims) : Z :=
  Z.min (Ticket.MaxStreams claims) (MaxStreamsPerSession limits).

(** [select] on [pendingHandshakes]; [gone] is a request whose context is done,
    and [pickGone] the choice of a [select] that could also take a slot. *)
Definition takePending (gone pickGone : bool) (st : shared) (front source ticket : string)
    : result rejection phase * shared :=
  let free := sh_pending st <? MaxPendingHandshakes limits in
  if gone && (negb free || pickGone) then (Err RejGone, st) else
  if free then
    (Ok (Pending front source ticket),
     Shared (sh_pending st + 1) (sh_sessions st) (sh_streams st) (sh_usage st) (sh_replay st))
  else (Err RejBusy, st).

Definition releasePending (st : shared) : shared :=
  Shared (sh_pending st - 1) (sh_sessions st) (sh_streams st) (sh_usage st) (sh_replay st).

Definition verifyTicket (now : Z) (front source ticket : string) (st : shared)
    : result rejection phase * shared :=
  match verify now (bytes ticket) with
  | Err _ => (Err RejTicket, releasePending st)
  | Ok claims =>
      if negb (str_eqb (ClaimFrontID claims) front) then (Err RejFront, releasePending st)
      else (Ok (Verified source claims), st)
  end.

Definition replayUntil (c : Claims) : Z := time_add (Expiry c) skew.

Definition consumeTicket (i : rs_input) (source : string) (claims : Claims) (st : shared)
    : result rejection phase * shared :=
  let '(res, r) := rs_consume i (JTI claims) (replayUntil claims) (sh_replay st) in
  let st := Shared (sh_pending st) (sh_sessions st) (sh_streams st) (sh_usage st) r in
  match res with
  | Err _ => (Err RejReplayStore, releasePending st)
  | Ok false => (Err RejReplayed, releasePending st)
  | Ok true => (Ok (Consumed source claims), st)
  end.

Definition countSession (source : string) (claims : Claims) (st : shared)
    : result rejection phase * shared :=
  let '(ok, u) := acquireSession (MaxSessionsPerSource limits) (sh_usage st) source in
  let st := Shared (sh_pending st) (sh_sessions st) (sh_streams st) u (sh_replay st) in
  if (ok : bool) then (Ok (Counted source claims), st)
  else (Err RejSourceSessions, releasePending st).

Definition releaseSource (source : string) (st : shared) : shared :=
  Shared (sh_pending st) (sh_sessions st) (sh_streams st)
    (releaseSession (sh_usage st) source) (sh_replay st).

Definition takeSession (source : string) (claims : Claims) (st : shared)
    : result rejection phase * shared :=
  if sh_sessions st <? MaxSessions limits then
    (Ok (Slotted source claims),
     Shared (sh_pending st) (sh_sessions st + 1) (sh_streams st) (sh_usage st) (sh_replay st))
  else (Err RejSessions, releaseSource source (releasePending st)).

Definition releaseSlot (st : shared) : shared :=
  Shared (sh_pending st) (sh_sessions st - 1) (sh_streams st) (sh_usage st) (sh_replay st).

(** The upgrade gives the pending slot back whether it succeeds or not. *)
Definition upgrade (ok : bool) (source : string) (claims : Claims) (st : shared)
    : result rejection phase * shared :=
  let st := releasePending st in
  if ok then (Ok (Open source claims (perSessionMax claims) 0 0 true), st)
  else (Err RejUpgrade, releaseSource source (releaseSlot st)).

(** One turn of the accept loop of [serveSession].  The per-session channel has
    the capacity of the initial budget; [idleOpen] is the answer of the idle
    guard.  The code takes the two slots and the source's stream in separate
    atomic steps and gives the first back when a later one is refused; here the
    turn is one step, so what it holds in between is not a state. *)
Definition acceptStream (idleOpen : bool) (source : string) (claims : Claims)
    (remaining live opened : Z) (st : shared) : phase * shared :=
  if remaining =? 0 then (Open source claims remaining live opened false, st) else
  let remaining := remaining - 1 in
  let refused st := (Open source claims remaining live opened true, st) in
  if perSessionMax claims <=? live then refused st else
  if MaxGlobalStreams limits <=? sh_streams st then refused st else
  let '(ok, u) := acquireStream (MaxStreamsPerSource limits) (sh_usage st) source in
  if negb ok then refused (Shared (sh_pending st) (sh_sessions st) (sh_streams st) u (sh_replay st)) else
  if negb idleOpen then
    refused (Shared (sh_pending st) (sh_sessions st) (sh_streams st) (releaseStream u source) (sh_replay st))
  else
  (Open source claims remaining (live + 1) (opened + 1) true,
   Shared (sh_pending st) (sh_sessions st) (sh_streams st + 1) u (sh_replay st)).

(** A stream's deferred releases. *)
Definition endStream (source : string) (st : shared) : shared :=
  Shared (sh_pending st) (sh_sessions st) (sh_streams st - 1)
    (releaseStream (sh_usage st) source) (sh_replay st).

(** After [wg.Wait] the session's deferred releases run. *)
Definition endSession (source : string) (st : shared) : shared :=
  releaseSource source (releaseSlot st).

(** * The handler as a system of goroutines *)
Record sidecar := Sidecar { sc_shared : shared; sc_conns : list phase }.

Context (fronts : list frontOriginAuth).

(** What becomes of a request after a guard; [used] is its consumed ticket. *)
Definition after (used : option (Claims * Z)) (r : result rejection phase) : phase :=
  match r with Ok p => p | Err _ => Finished used end.

Definition put (sc : sidecar) (i : nat) (p : phase) (st : shared) : sidecar :=
  Sidecar st (<[i := p]> (sc_conns sc)).

Inductive sstep : sidecar → sidecar → Prop :=
| s_arrive sc ga sa rq front source ticket gone pick r st :
    screen fronts ga sa rq = Ok (front, source, ticket) →
    takePending gone pick (sc_shared sc) front source ticket = (r, st) →
    sstep sc (Sidecar st (sc_conns sc ++ [after None r]))
| s_verify sc i now front source ticket r st :
    sc_conns sc !! i = Some (Pending front source ticket) →
    verifyTicket now front source ticket (sc_shared sc) = (r, st) →
    sstep sc (put sc i (after None r) st)
| s_consume sc i inp source claims r st :
    sc_conns sc !! i = Some (Verified source claims) →
    consumeTicket inp source claims (sc_shared sc) = (r, st) →
    sstep sc (put sc i (after None r) st)
| s_count sc i source claims r st :
    sc_conns sc !! i = Some (Consumed source claims) →
    countSession source claims (sc_shared sc) = (r, st) →
    sstep sc (put sc i (after (Some (claims, 0)) r) st)
| s_session sc i source claims r st :
    sc_conns sc !! i = Some (Counted source claims) →
    takeSession source claims (sc_shared sc) = (r, st) →
    sstep sc (put sc i (after (Some (claims, 0)) r) st)
| s_upgrade sc i ok source claims r st :
    sc_conns sc !! i = Some (Slotted source claims) →
    upgrade ok source claims (sc_shared sc) = (r, st) →
    sstep sc (put sc i (after (Some (claims, 0)) r) st)
| s_accept sc i idle source claims rem live opened p st :
    sc_conns sc !! i = Some (Open source claims rem live opened true) →
    acceptStream idle source claims rem live opened (sc_shared sc) = (p, st) →
    sstep sc (put sc i p st)
| s_stop sc i source claims rem live opened :
    sc_conns sc !! i = Some (Open source claims rem live opened true) →
    sstep sc (put sc i (Open source claims rem live opened false) (sc_shared sc))
| s_stream_end sc i source claims rem live opened acc :
    sc_conns sc !! i = Some (Open source claims rem live opened acc) → 0 < live →
    sstep sc (put sc i (Open source claims rem (live - 1) opened acc)
                (endStream source (sc_shared sc)))
| s_session_end sc i source claims rem opened :
    sc_conns sc !! i = Some (Open source claims rem 0 opened false) →
    sstep sc (put sc i (Finished (Some (claims, opened))) (endSession source (sc_shared sc))).

(** What a phase holds. *)
Definition holdsPending (p : phase) : Z :=
  match p with Pending _ _ _ | Verified _ _ | Consumed _ _ | Counted _ _ | Slotted _ _ => 1 | _ => 0 end.
Definition holdsSession (p : phase) : Z :=
  match p with Slotted _ _ | Open _ _ _ _ _ _ => 1 | _ => 0 end.
Definition holdsStreams (p : phase) : Z :=
  match p with Open _ _ _ live _ _ => live | _ => 0 end.
Definition sourceSessions (key : string) (p : phase) : Z :=
  match p with
  | Counted s _ | Slotted s _ | Open s _ _ _ _ _ => if str_eqb s key then 1 else 0
  | _ => 0
  end.
Definition sourceStreams (key : string) (p : phase) : Z :=
  match p with Open s _ _ live _ _ => if str_eqb s key then live else 0 | _ => 0 end.
Definition consumedTicket (p : phase) : option Claims :=
  match p with
  | Consumed _ c | Counted _ c | Slotted _ c | Open _ c _ _ _ _ | Finished (Some (c, _)) => Some c
  | _ => None
  end.

Fixpoint total (f : phase → Z) (l : list phase) : Z :=
  match l with [] => 0 | p :: l' => f p + total f l' end.

Lemma total_app f l1 l2 : total f (l1 ++ l2) = total f l1 + total f l2.
Proof. induction l1 as [|p l1 IH]; simpl; lia. Qed.

Lemma total_put f l i p q : l !! i = Some p → total f (<[i := q]> l) = total f l - f p + f q.
Proof.
  revert i. induction l as [|x l IH]; intros [|i] Hi; simplify_eq/=; [lia|].
  rewrite (IH i Hi). lia.
Qed.

Lemma total_nonneg f l : (∀ p, p ∈ l → 0 ≤ f p) → 0 ≤ total f l.
Proof.
  induction l as [|p l IH]; intros Hf; simpl; [lia|].
  pose proof (Hf p ltac:(left)). assert (0 ≤ total f l); [|lia].
  apply IH. intros q Hq. apply Hf. by right.
Qed.

Lemma total_member f l i p : (∀ p, p ∈ l → 0 ≤ f p) → l !! i = Some p → f p ≤ total f l.
Proof.
  intros Hf Hi. rewrite <- (take_drop_middle l i p Hi), total_app. simpl.
  assert (0 ≤ total f (take i l) ∧ 0 ≤ total f (drop (S i) l)); [|lia].
  split; apply total_nonneg; intros q Hq; apply Hf.
  - by eapply elem_of_take in Hq as (j & Hj & _); eapply list_elem_of_lookup_2.
  - apply list_elem_of_lookup in Hq as (j & Hj). rewrite lookup_drop in Hj.
    by eapply list_elem_of_lookup_2.
Qed.

(** ** The slot invariant *)
Definition phase_ok (p : phase) : Prop :=
  match p with
  | Pending _ _ _ | Finished None => True
  | Verified _ c | Consumed _ c | Counted _ c | Slotted _ c => 1 ≤ perSessionMax c
  | Open _ c rem live opened _ => 0 ≤ rem ∧ 0 ≤ live ≤ opened ∧ opened + rem ≤ perSessionMax c
  | Finished (Some (c, opened)) => 0 ≤ opened ≤ perSessionMax c
  end.

Record slots (sc : sidecar) : Prop := {
  sl_pending : sh_pending (sc_shared sc) = total holdsPending (sc_conns sc);
  sl_sessions : sh_sessions (sc_shared sc) = total holdsSession (sc_conns sc);
  sl_streams : sh_streams (sc_shared sc) = total holdsStreams (sc_conns sc);
  sl_usage key : entryFor (sh_usage (sc_shared sc)) key =
    {| useSessions := total (sourceSessions key) (sc_conns sc);
       useStreams := total (sourceStreams key) (sc_conns sc) |};
  sl_noEmpty : noEmpty (sh_usage (sc_shared sc));
  sl_max : sh_pending (sc_shared sc) ≤ MaxPendingHandshakes limits ∧
           sh_sessions (sc_shared sc) ≤ MaxSessions limits ∧
           sh_streams (sc_shared sc) ≤ MaxGlobalStreams limits;
  sl_sourceMax key : total (sourceSessions key) (sc_conns sc) ≤ MaxSessionsPerSource limits ∧
                     total (sourceStreams key) (sc_conns sc) ≤ MaxStreamsPerSource limits;
  sl_phases : Forall phase_ok (sc_conns sc)
}.

(** Replacing one phase, when the shared state moves by what it gains and
    loses. *)
Lemma slots_put sc i p q st :
  slots sc → sc_conns sc !! i = Some p → phase_ok q →
  sh_pending st = sh_pending (sc_shared sc) - holdsPending p + holdsPending q →
  sh_sessions st = sh_sessions (sc_shared sc) - holdsSession p + holdsSession q →
  sh_streams st = sh_streams (sc_shared sc) - holdsStreams p + holdsStreams q →
  (∀ key, entryFor (sh_usage st) key =
     addUsage (entryFor (sh_usage (sc_shared sc)) key)
       (sourceSessions key q - sourceSessions key p) (sourceStreams key q - sourceStreams key p)) →
  noEmpty (sh_usage st) →
  sh_pending st ≤ MaxPendingHandshakes limits → sh_sessions st ≤ MaxSessions limits →
  sh_streams st ≤ MaxGlobalStreams limits →
  (∀ key, useSessions (entryFor (sh_usage st) key) ≤ MaxSessionsPerSource limits ∧
          useStreams (entryFor (sh_usage st) key) ≤ MaxStreamsPerSource limits) →
  slots (put sc i q st).
Proof.
  intros [S1 S2 S3 S4 S5 S6 S7 S8] Hi Hq H1 H2 H3 H4 H5 H6 H7 H8 H9.
  assert (∀ key, entryFor (sh_usage st) key =
    {| useSessions := total (sourceSessions key) (<[i := q]> (sc_conns sc));
       useStreams := total (sourceStreams key) (<[i := q]> (sc_conns sc)) |}) as Hu.
  { intros key. rewrite H4, S4, !(total_put _ _ _ _ _ Hi). unfold addUsage. simpl. f_equal; lia. }
  split; simpl; rewrite ?(total_put _ _ _ _ _ Hi); try lia; [done|done| |].
  - intros key. specialize (H9 key). by rewrite Hu in H9.
  - by apply Forall_insert.
Qed.

(** The counts of a source bound what one of its requests holds. *)
Lemma held_bounds sc i p key :
  slots sc → sc_conns sc !! i = Some p →
  0 ≤ sourceSessions key p ≤ useSessions (entryFor (sh_usage (sc_shared sc)) key) ∧
  0 ≤ sourceStreams key p ≤ useStreams (entryFor (sh_usage (sc_shared sc)) key).
Proof.
  intros [S1 S2 S3 S4 S5 S6 S7 S8] Hi. rewrite S4. simpl. rewrite Forall_forall in S8.
  assert (∀ p, p ∈ sc_conns sc → 0 ≤ sourceSessions key p) as Ha.
  { intros q _. destruct q; simpl; try lia; by case_match. }
  assert (∀ p, p ∈ sc_conns sc → 0 ≤ sourceStreams key p) as Hb.
  { intros q Hq%S8. destruct q; simpl in *; try lia. case_match; lia. }
  pose proof (total_member _ _ _ _ Ha Hi). pose proof (total_member _ _ _ _ Hb Hi).
  pose proof (Ha p ltac:(by eapply list_elem_of_lookup_2)).
  pose proof (Hb p ltac:(by eapply list_elem_of_lookup_2)). lia.
Qed.

Lemma addUsage_0 e : addUsage e 0 0 = e.
Proof. unfold addUsage. destruct e; simpl. f_equal; lia. Qed.

Lemma usage_nonneg sc key :
  slots sc → 0 ≤ useSessions (entryFor (sh_usage (sc_shared sc)) key) ∧
             0 ≤ useStreams (entryFor (sh_usage (sc_shared sc)) key).
Proof.
  intros [S1 S2 S3 S4 S5 S6 S7 S8]. rewrite S4. simpl. rewrite Forall_forall in S8.
  split; apply total_nonneg; intros q Hq%S8; destruct q; simpl in *; try lia; case_match; lia.
Qed.

(** A step that leaves the per-source counts alone. *)
Lemma slots_put_same sc i p q st :
  slots sc → sc_conns sc !! i = Some p → phase_ok q →
  (∀ key, sourceSessions key q = sourceSessions key p ∧ sourceStreams key q = sourceStreams key p) →
  sh_usage st = sh_usage (sc_shared sc) →
  sh_pending st = sh_pending (sc_shared sc) - holdsPending p + holdsPending q →
  sh_sessions st = sh_sessions (sc_shared sc) - holdsSession p + holdsSession q →
  sh_streams st = sh_streams (sc_shared sc) - holdsStreams p + holdsStreams q →
  sh_pending st ≤ MaxPendingHandshakes limits → sh_sessions st ≤ MaxSessions limits →
  sh_streams st ≤ MaxGlobalStreams limits →
  slots (put sc i q st).
Proof.
  intros Hs Hi Hq Hsame Hu H1 H2 H3 H4 H5 H6. apply (slots_put sc i p); rewrite ?Hu; try done.
  - intros key. destruct (Hsame key) as [-> ->]. by rewrite !Z.sub_diag, addUsage_0.
  - apply Hs.
  - intros key. destruct Hs as [_ _ _ S4 _ _ S7 _]. rewrite S4. apply S7.
Qed.

(** A request that gives back its pending slot and, if it was counted, its
    source count and session slot. *)
Lemma slots_finish sc i p used st :
  slots sc → sc_conns sc !! i = Some p → phase_ok (Finished used) →
  holdsStreams p = 0 → (∀ key, sourceStreams key p = 0) →
  sh_pending st = sh_pending (sc_shared sc) - holdsPending p →
  sh_sessions st = sh_sessions (sc_shared sc) - holdsSession p →
  sh_streams st = sh_streams (sc_shared sc) →
  (sh_usage st = sh_usage (sc_shared sc) ∧ (∀ key, sourceSessions key p = 0) ∨
   ∃ source, sh_usage st = releaseSession (sh_usage (sc_shared sc)) source ∧
     ∀ key, sourceSessions key p = if str_eqb source key then 1 else 0) →
  slots (put sc i (Finished used) st).
Proof.
  intros Hs Hi Hf Hst Hss H1 H2 H3 Hu.
  pose proof (sl_max _ Hs) as Hmax.
  assert (0 ≤ holdsPending p ∧ 0 ≤ holdsSession p) as Hpos by (destruct p; simpl; lia).
  destruct Hu as [[Hu Hse]|(source & Hu & Hse)].
  { apply (slots_put_same sc i p); try done; simpl; lia. }
  destruct (releaseSession_spec (sh_usage (sc_shared sc)) source) as [Hne Hent].
  { apply Hs. }
  { destruct (held_bounds sc i p source Hs Hi) as [[_ Hb] _]. rewrite Hse in Hb.
    unfold str_eqb in Hb. rewrite bool_decide_true in Hb by done. lia. }
  apply (slots_put sc i p); rewrite ?Hu; try done; simpl; try lia.
  - intros key. rewrite Hent, Hse, Hss. f_equal. by case_match.
  - intros key. rewrite Hent. unfold addUsage. simpl.
    destruct Hs as [_ _ _ S4 _ _ S7 _]. rewrite S4. simpl. specialize (S7 key). case_match; lia.
Qed.

Context (Hverify : ∀ now t c, verify now t = Ok c → 1 ≤ Ticket.MaxStreams c).
Context (configuredLimits : SidecarLimits) (Hlimits : normalizeLimits configuredLimits = Ok limits).
#[local] Set Default Proof Using "Type Hverify Hlimits".

Lemma slots_arrive sc front source ticket gone pick r st :
  slots sc → takePending gone pick (sc_shared sc) front source ticket = (r, st) →
  slots (Sidecar st (sc_conns sc ++ [after None r])).
Proof.
  intros [S1 S2 S3 S4 S5 S6 S7 S8] Ht. unfold takePending in Ht.
  assert (∀ p, phase_ok p → holdsSession p = 0 ∧ holdsStreams p = 0 →
    (∀ key, sourceSessions key p = 0 ∧ sourceStreams key p = 0) →
    sh_pending st = sh_pending (sc_shared sc) + holdsPending p →
    sh_sessions st = sh_sessions (sc_shared sc) → sh_streams st = sh_streams (sc_shared sc) →
    sh_usage st = sh_usage (sc_shared sc) → sh_pending st ≤ MaxPendingHandshakes limits →
    slots (Sidecar st (sc_conns sc ++ [p]))) as Happ.
  { intros p Hp [Hz1 Hz2] Hk H1 H2 H3 H4 H5.
    split; simpl; rewrite ?total_app, ?H4; simpl; try lia; try done.
    - intros key. destruct (Hk key) as [K1 K2]. rewrite S4, !total_app. simpl. f_equal; lia.
    - intros key. destruct (Hk key) as [K1 K2]. rewrite !total_app. simpl. specialize (S7 key). lia.
    - rewrite Forall_app. split; [done|]. by apply Forall_singleton. }
  destruct (gone && _); [injection Ht as <- <-; apply Happ; simpl; (done || lia)|].
  destruct (Z.ltb_spec (sh_pending (sc_shared sc)) (MaxPendingHandshakes limits));
    injection Ht as <- <-; apply Happ; simpl; (done || lia).
Qed.

Lemma slots_guards sc i p r st used :
  slots sc → sc_conns sc !! i = Some p →
  (∃ now front source ticket, p = Pending front source ticket ∧ used = None ∧
     verifyTicket now front source ticket (sc_shared sc) = (r, st)) ∨
  (∃ inp source claims, p = Verified source claims ∧ used = None ∧
     consumeTicket inp source claims (sc_shared sc) = (r, st)) →
  slots (put sc i (after used r) st).
Proof.
  intros Hs Hi Hstep. pose proof (sl_max _ Hs) as Hmax.
  pose proof (Forall_lookup_1 _ _ _ _ (sl_phases _ Hs) Hi) as Hp.
  destruct Hstep as [(now & front & source & ticket & -> & -> & Hv)|(inp & source & claims & -> & -> & Hc)].
  - unfold verifyTicket in Hv. destruct (verify now (bytes ticket)) as [claims|] eqn:Hver;
      [destruct (negb _)|]; injection Hv as <- <-; simpl.
    2: { apply (slots_put_same sc i (Pending front source ticket)); try done; simpl; try lia.
         apply Hverify in Hver. destruct (normalizeLimits_positive _ _ Hlimits) as (_ & _ & ? & _).
         unfold perSessionMax. lia. }
    all: apply (slots_finish sc i (Pending front source ticket)); try done; simpl; try lia; by left.
  - unfold consumeTicket in Hc. destruct (rs_consume _ _ _ _) as [[[]|] r'];
      injection Hc as <- <-; simpl.
    { apply (slots_put_same sc i (Verified source claims)); try done; simpl; lia. }
    all: apply (slots_finish sc i (Verified source claims)); try done; simpl; try lia; by left.
Qed.

Lemma slots_count sc i source claims r st :
  slots sc → sc_conns sc !! i = Some (Consumed source claims) →
  countSession source claims (sc_shared sc) = (r, st) →
  slots (put sc i (after (Some (claims, 0)) r) st).
Proof.
  intros Hs Hi Hc. pose proof (sl_max _ Hs) as Hmax.
  pose proof (Forall_lookup_1 _ _ _ _ (sl_phases _ Hs) Hi) as Hp. simpl in Hp.
  unfold countSession in Hc. destruct (acquireSession _ _ _) as [ok u] eqn:Ha.
  destruct (usage_nonneg sc source Hs) as [Hn1 Hn2].
  destruct (acquireSession_spec _ _ _ _ _ (sl_noEmpty _ Hs) Ha Hn1 Hn2) as (Hne & Hlt & Hent).
  destruct ok; injection Hc as <- <-.
  - apply (slots_put sc i (Consumed source claims)); try done; simpl; try lia.
    + intros key. rewrite Hent. simpl. f_equal. lia.
    + intros key. rewrite Hent. unfold addUsage. simpl.
      destruct Hs as [_ _ _ S4 _ _ S7 _]. rewrite S4. simpl. specialize (S7 key).
      specialize (Hlt eq_refl). rewrite S4 in Hlt. simpl in Hlt.
      unfold str_eqb. case_bool_decide; subst; lia.
  - apply (slots_put sc i (Consumed source claims)); try done; simpl; try lia.
    intros key. rewrite Hent, addUsage_0.
    destruct Hs as [_ _ _ S4 _ _ S7 _]. rewrite S4. simpl. apply S7.
Qed.

Lemma slots_session sc i source claims r st :
  slots sc → sc_conns sc !! i = Some (Counted source claims) →
  takeSession source claims (sc_shared sc) = (r, st) →
  slots (put sc i (after (Some (claims, 0)) r) st).
Proof.
  intros Hs Hi Hc. pose proof (sl_max _ Hs) as Hmax.
  pose proof (Forall_lookup_1 _ _ _ _ (sl_phases _ Hs) Hi) as Hp. simpl in Hp.
  unfold takeSession in Hc.
  destruct (Z.ltb_spec (sh_sessions (sc_shared sc)) (MaxSessions limits)); injection Hc as <- <-.
  - apply (slots_put_same sc i (Counted source claims)); try done; simpl; lia.
  - apply (slots_finish sc i (Counted source claims)); try done; simpl; try lia.
    right. by exists source.
Qed.

Lemma slots_upgrade sc i ok source claims r st :
  slots sc → sc_conns sc !! i = Some (Slotted source claims) →
  upgrade ok source claims (sc_shared sc) = (r, st) →
  slots (put sc i (after (Some (claims, 0)) r) st).
Proof.
  intros Hs Hi Hc. pose proof (sl_max _ Hs) as Hmax.
  pose proof (Forall_lookup_1 _ _ _ _ (sl_phases _ Hs) Hi) as Hp. simpl in Hp.
  unfold upgrade in Hc. destruct ok; injection Hc as <- <-.
  - apply (slots_put_same sc i (Slotted source claims)); try done; simpl; try lia.
    intros key. split; [done|]. by case_match.
  - apply (slots_finish sc i (Slotted source claims)); try done; simpl; try lia.
    right. by exists source.
Qed.

Lemma slots_accept sc i idle source claims rem live opened p st :
  slots sc → sc_conns sc !! i = Some (Open source claims rem live opened true) →
  acceptStream idle source claims rem live opened (sc_shared sc) = (p, st) →
  slots (put sc i p st).
Proof.
  intros Hs Hi Hc. pose proof (sl_max _ Hs) as Hmax.
  pose proof (Forall_lookup_1 _ _ _ _ (sl_phases _ Hs) Hi) as Hp. simpl in Hp.
  assert (∀ acc rem' u, 0 ≤ rem' ≤ rem → noEmpty u →
    (∀ key, entryFor u key = entryFor (sh_usage (sc_shared sc)) key) →
    slots (put sc i (Open source claims rem' live opened acc)
      (Shared (sh_pending (sc_shared sc)) (sh_sessions (sc_shared sc)) (sh_streams (sc_shared sc)) u
         (sh_replay (sc_shared sc))))) as Hrefused.
  { intros acc rem' u Hrem Hne Hu. apply (slots_put sc i (Open source claims rem live opened true));
      try done; simpl; try lia.
    - intros key. by rewrite Hu, !Z.sub_diag, addUsage_0.
    - intros key. rewrite Hu. destruct Hs as [_ _ _ S4 _ _ S7 _]. rewrite S4. apply S7. }
  assert (sc_shared sc = Shared (sh_pending (sc_shared sc)) (sh_sessions (sc_shared sc))
    (sh_streams (sc_shared sc)) (sh_usage (sc_shared sc)) (sh_replay (sc_shared sc))) as Heta
    by (by destruct (sc_shared sc)).
  pose proof (sl_noEmpty _ Hs) as Hne.
  unfold acceptStream in Hc. destruct (Z.eqb_spec rem 0).
  { injection Hc as <- <-. rewrite Heta. by apply Hrefused; [lia|..]. }
  destruct (_ <=? live); [injection Hc as <- <-; rewrite Heta; by apply Hrefused; [lia|..]|].
  destruct (Z.leb_spec (MaxGlobalStreams limits) (sh_streams (sc_shared sc)));
    [injection Hc as <- <-; rewrite Heta; by apply Hrefused; [lia|..]|].
  destruct (acquireStream _ _ _) as [ok u] eqn:Ha.
  destruct (usage_nonneg sc source Hs) as [Hn1 Hn2].
  destruct (acquireStream_spec _ _ _ _ _ Hne Ha Hn1 Hn2) as (Hne' & Hlt & Hent).
  destruct ok; simpl in Hc.
  2: { injection Hc as <- <-. apply Hrefused; [lia|done|]. intros key. by rewrite Hent, addUsage_0. }
  assert (0 < useStreams (entryFor u source)) as Hpos.
  { rewrite Hent. unfold addUsage, str_eqb. simpl. rewrite bool_decide_true by done. lia. }
  destruct (releaseStream_spec u source Hne' Hpos) as [Hne2 Hent2].
  destruct idle; simpl in Hc; injection Hc as <- <-.
  2: { apply Hrefused; [lia|done|]. intros key. rewrite Hent2, Hent. unfold addUsage. simpl.
       destruct (entryFor _ key), (str_eqb source key); simpl; f_equal; lia. }
  apply (slots_put sc i (Open source claims rem live opened true)); try done; simpl; try lia.
  - intros key. rewrite Hent. simpl. f_equal; case_match; lia.
  - intros key. rewrite Hent. unfold addUsage. simpl.
    destruct Hs as [_ _ _ S4 _ _ S7 _]. rewrite S4. simpl. specialize (S7 key).
    specialize (Hlt eq_refl). rewrite S4 in Hlt. simpl in Hlt.
    unfold str_eqb. case_bool_decide; subst; lia.
Qed.

Lemma slots_stream_end sc i source claims rem live opened acc :
  slots sc → sc_conns sc !! i = Some (Open source claims rem live opened acc) → 0 < live →
  slots (put sc i (Open source claims rem (live - 1) opened acc) (endStream source (sc_shared sc))).
Proof.
  intros Hs Hi Hl. pose proof (sl_max _ Hs) as Hmax.
  pose proof (Forall_lookup_1 _ _ _ _ (sl_phases _ Hs) Hi) as Hp. simpl in Hp.
  destruct (held_bounds sc i _ source Hs Hi) as [_ [_ Hb]]. simpl in Hb.
  unfold str_eqb in Hb. rewrite bool_decide_true in Hb by done.
  destruct (releaseStream_spec (sh_usage (sc_shared sc)) source (sl_noEmpty _ Hs)) as [Hne Hent]; [lia|].
  apply (slots_put sc i (Open source claims rem live opened acc)); try done; simpl; try lia.
  - intros key. rewrite Hent. f_equal; case_match; lia.
  - intros key. rewrite Hent. unfold addUsage. simpl.
    destruct Hs as [_ _ _ S4 _ _ S7 _]. rewrite S4. simpl. specialize (S7 key). case_match; lia.
Qed.

Lemma sstep_slots sc sc' : sstep sc sc' → slots sc → slots sc'.
Proof.
  intros Hstep Hs. destruct Hstep; try (pose proof (sl_max _ Hs) as Hmax).
  - by eapply slots_arrive.
  - eapply slots_guards; [done|done|]. left. eauto 10.
  - eapply slots_guards; [done|done|]. right. eauto 10.
  - by eapply slots_count.
  - by eapply slots_session.
  - by eapply slots_upgrade.
  - by eapply slots_accept.
  - pose proof (Forall_lookup_1 _ _ _ _ (sl_phases _ Hs) H) as Hp. simpl in Hp.
    eapply slots_put_same; try done; simpl; lia.
  - by eapply slots_stream_end.
  - pose proof (Forall_lookup_1 _ _ _ _ (sl_phases _ Hs) H) as Hp. simpl in Hp.
    eapply (slots_finish _ _ _ _ _ Hs H); simpl; try lia.
    + intros key. by case_match.
    + right. by exists source.
Qed.

(** ** Runs as programs *)
Inductive sop :=
| SArrive (globalAllowed sourceAllowed : bool) (rq : request) (gone pick : bool)
| SVerify (i : nat) (now : Z)
| SConsume (i : nat) (inp : rs_input)
| SCount (i : nat)
| SSession (i : nat)
| SUpgrade (i : nat) (ok : bool)
| SAccept (i : nat) (idle : bool).

Definition sexec (o : sop) (sc : sidecar) : option sidecar :=
  let at_ i := sc_conns sc !! i in
  match o with
  | SArrive ga sa rq gone pick =>
      match screen fronts ga sa rq with
      | Ok (front, source, ticket) =>
          let '(r, st) := takePending gone pick (sc_shared sc) front source ticket in
          Some (Sidecar st (sc_conns sc ++ [after None r]))
      | Err _ => None
      end
  | SVerify i now =>
      match at_ i with
      | Some (Pending front source ticket) =>
          let '(r, st) := verifyTicket now front source ticket (sc_shared sc) in
          Some (put sc i (after None r) st)
      | _ => None
      end
  | SConsume i inp =>
      match at_ i with
      | Some (Verified source claims) =>
          let '(r, st) := consumeTicket inp source claims (sc_shared sc) in
          Some (put sc i (after None r) st)
      | _ => None
      end
  | SCount i =>
      match at_ i with
      | Some (Consumed source claims) =>
          let '(r, st) := countSession source claims (sc_shared sc) in
          Some (put sc i (after (Some (claims, 0)) r) st)
      | _ => None
      end
  | SSession i =>
      match at_ i with
      | Some (Counted source claims) =>
          let '(r, st) := takeSession source claims (sc_shared sc) in
          Some (put sc i (after (Some (claims, 0)) r) st)
      | _ => None
      end
  | SUpgrade i ok =>
      match at_ i with
      | Some (Slotted source claims) =>
          let '(r, st) := upgrade ok source claims (sc_shared sc) in
          Some (put sc i (after (Some (claims, 0)) r) st)
      | _ => None
      end
  | SAccept i idle =>
      match at_ i with
      | Some (Open source claims rem live opened true) =>
          let '(p, st) := acceptStream idle source claims rem live opened (sc_shared sc) in
          Some (put sc i p st)
      | _ => None
      end
  end.

Fixpoint sexecs (os : list sop) (sc : sidecar) : option sidecar :=
  match os with [] => Some sc | o :: os' => sexec o sc ≫= sexecs os' end.

Lemma sexec_step o sc sc' : sexec o sc = Some sc' → sstep sc sc'.
Proof using Type.
  unfold sexec. destruct o; intros Hx; repeat (case_match; simplify_eq);
    eauto using s_arrive, s_verify, s_consume, s_count, s_session, s_upgrade, s_accept.
Qed.

Lemma sexecs_rtc os sc sc' : sexecs os sc = Some sc' → rtc sstep sc sc'.
Proof using Type.
  revert sc. induction os as [|o os IH]; intros sc; simpl; [intros [= ->]; constructor|].
  intros (sc1 & H1%sexec_step & H2)%bind_Some. eapply rtc_l; [done|]. by apply IH.
Qed.

(** A sidecar that has just started over the replay store [r]. *)
Definition started (r : R) : sidecar := Sidecar (Shared 0 0 0 ∅ r) [].

Lemma slots_started r :
  0 ≤ MaxPendingHandshakes limits → 0 ≤ MaxSessions limits → 0 ≤ MaxGlobalStreams limits →
  0 ≤ MaxSessionsPerSource limits → 0 ≤ MaxStreamsPerSource limits → slots (started r).
Proof.
  intros. split; simpl; try done.
Qed.

Lemma reachable_slots r sc : rtc sstep (started r) sc → slots sc.
Proof.
  intros Hr.
  assert (slots (started r)) as Hs.
  { destruct (normalizeLimits_positive _ _ Hlimits) as (? & ? & ? & ? & ? & ?). apply slots_started; lia. }
  induction Hr as [|x y z Hxy _ IH]; [done|]. by apply IH, (sstep_slots x).
Qed.

Definition finished (p : phase) : Prop := match p with Finished _ => True | _ => False end.

(** C12: the sidecar accounts for its slots exactly.  In every interleaving of
    requests, streams, refusals and failures, the handshake, session and stream
    slots in use are those of the requests that hold them, and likewise for
    each source address; none exceeds its configured limit; and when every
    request has finished nothing is held and no source is tracked. *)
Theorem sidecar_slots (r : R) (sc : sidecar) :
  rtc sstep (started r) sc →
  sh_pending (sc_shared sc) = total holdsPending (sc_conns sc) ∧
  sh_sessions (sc_shared sc) = total holdsSession (sc_conns sc) ∧
  sh_streams (sc_shared sc) = total holdsStreams (sc_conns sc) ∧
  (∀ key, entryFor (sh_usage (sc_shared sc)) key =
     {| useSessions := total (sourceSessions key) (sc_conns sc);
        useStreams := total (sourceStreams key) (sc_conns sc) |}) ∧
  sh_pending (sc_shared sc) ≤ MaxPendingHandshakes limits ∧
  sh_sessions (sc_shared sc) ≤ MaxSessions limits ∧
  sh_streams (sc_shared sc) ≤ MaxGlobalStreams limits ∧
  (∀ key, total (sourceSessions key) (sc_conns sc) ≤ MaxSessionsPerSource limits ∧
          total (sourceStreams key) (sc_conns sc) ≤ MaxStreamsPerSource limits) ∧
  (Forall finished (sc_conns sc) →
     sh_pending (sc_shared sc) = 0 ∧ sh_sessions (sc_shared sc) = 0 ∧
     sh_streams (sc_shared sc) = 0 ∧ sh_usage (sc_shared sc) = ∅).
Proof.
  intros Hr. destruct (reachable_slots r sc Hr) as [S1 S2 S3 S4 S5 (S6 & S7 & S8) S9 S10].
  split_and!; [done..|]. intros Hf.
  assert (∀ f, (∀ u, f (Finished u) = 0) → total f (sc_conns sc) = 0) as Hz.
  { intros f Hf0. clear -Hf Hf0. induction Hf as [|p l Hp _ IH]; [done|]. simpl. rewrite IH.
    destruct p; try done. by rewrite Hf0. }
  split_and!; [rewrite S1; by apply Hz|rewrite S2; by apply Hz|rewrite S3; by apply Hz|].
  apply map_empty. intros key. destruct (sh_usage (sc_shared sc) !! key) as [e|] eqn:He; [|done].
  specialize (S4 key). unfold entryFor in S4. rewrite He in S4. simpl in S4.
  destruct (S5 key e He). subst e. simpl. split; by apply Hz.
Qed.

(** a ticket's stream budget is spent, never refilled.  However streams
    come and go, one admitted ticket is given at most [max_streams] streams
    over the life of its session (and never more than the operator's
    per-session limit), and at no time more than that are live. *)
Lemma stream_budget (r : R) (sc : sidecar) (i : nat) :
  rtc sstep (started r) sc →
  match sc_conns sc !! i with
  | Some (Open _ c rem live opened _) =>
      0 ≤ live ≤ opened ∧ opened + rem ≤ Z.min (Ticket.MaxStreams c) (MaxStreamsPerSession limits)
  | Some (Finished (Some (c, opened))) =>
      opened ≤ Z.min (Ticket.MaxStreams c) (MaxStreamsPerSession limits)
  | _ => True
  end.
Proof.
  intros Hr. pose proof (sl_phases _ (reachable_slots r sc Hr)) as Hp.
  destruct (sc_conns sc !! i) as [p|] eqn:Hi; [|done].
  pose proof (Forall_lookup_1 _ _ _ _ Hp Hi) as Hok. unfold phase_ok, perSessionMax in Hok.
  destruct p as [| | | | | |[[c n]|]]; simpl in *; try done; lia.
Qed.

(** ** Authorization *)
#[local] Set Default Proof Using "Type".

Definition ticketID (c : Claims) : K * Z := (rs_key (JTI c), unix_nano (replayUntil c)).
Definition ticketIDs (l : list phase) : list (K * Z) := omap (λ p, ticketID <$> consumedTicket p) l.

(** The request was authenticated for a front and carried a ticket. *)
Definition presented (front source ticket : string) : Prop :=
  ∃ ga sa rq, screen fronts ga sa rq = Ok (front, source, ticket).

Definition authorized (source : string) (c : Claims) : Prop :=
  ∃ now ticket, presented (ClaimFrontID c) source ticket ∧ verify now (bytes ticket) = Ok c.

Definition phase_auth (p : phase) : Prop :=
  match p with
  | Pending front source ticket => presented front source ticket
  | Verified s c | Consumed s c | Counted s c | Slotted s c | Open s c _ _ _ _ => authorized s c
  | Finished _ => True
  end.

Lemma ticketIDs_put_same l i p q :
  l !! i = Some p → consumedTicket q = consumedTicket p → ticketIDs (<[i := q]> l) = ticketIDs l.
Proof.
  revert i. induction l as [|x l IH]; intros [|i] Hi Hc; simplify_eq/=; [by rewrite Hc|].
  by rewrite (IH i Hi Hc).
Qed.

Lemma ticketIDs_put_new l i p q c :
  l !! i = Some p → consumedTicket p = None → consumedTicket q = Some c →
  ticketIDs (<[i := q]> l) ≡ₚ ticketID c :: ticketIDs l.
Proof.
  revert i. induction l as [|x l IH]; intros [|i] Hi Hp Hq; simplify_eq/=; [by rewrite Hq, Hp|].
  destruct (consumedTicket x); simpl; [|by apply (IH i)].
  rewrite (IH i Hi Hp Hq). apply Permutation_swap.
Qed.

Definition accounted (granted : list (K * Z)) (sc : sidecar) : Prop :=
  NoDup (rs_granted (sh_replay (sc_shared sc))) ∧
  rs_granted (sh_replay (sc_shared sc)) ≡ₚ ticketIDs (sc_conns sc) ++ granted ∧
  Forall phase_auth (sc_conns sc).

(** A step that consumes nothing. *)
Lemma accounted_put g sc i p q st :
  accounted g sc → sc_conns sc !! i = Some p → consumedTicket q = consumedTicket p →
  phase_auth q → sh_replay st = sh_replay (sc_shared sc) → accounted g (put sc i q st).
Proof.
  intros (Hn & Hp & Ha) Hi Hc Hq Hr. unfold accounted, put. simpl. rewrite Hr.
  split_and!; [done| |by apply Forall_insert]. by rewrite (ticketIDs_put_same _ _ _ _ Hi Hc).
Qed.

Lemma accounted_consume g sc i inp source claims r st :
  accounted g sc → sc_conns sc !! i = Some (Verified source claims) →
  consumeTicket inp source claims (sc_shared sc) = (r, st) →
  accounted g (put sc i (after None r) st).
Proof.
  intros (Hn & Hp & Ha) Hi Hc. pose proof (Forall_lookup_1 _ _ _ _ Ha Hi) as Hauth.
  unfold consumeTicket in Hc. destruct (rs_consume _ _ _ _) as [res r'] eqn:Hr.
  destruct (decide (res = Ok true)) as [->|Hne].
  - injection Hc as <- <-. apply rs_consume_granted in Hr as [Hnew Hg].
    unfold accounted, put. simpl. rewrite Hg. split_and!.
    + by constructor.
    + rewrite (ticketIDs_put_new _ _ _ _ claims Hi) by done. simpl. by rewrite Hp.
    + by apply Forall_insert.
  - assert (∃ rej, r = Err rej) as [rej ->]
      by (destruct res as [[]|]; [done|injection Hc as <- _; eauto..]).
    assert (sh_replay st = r') as Hst by (by destruct res as [[]|]; simplify_eq/=).
    pose proof (rs_consume_refused _ _ _ _ _ _ Hr Hne) as Hg.
    unfold accounted, put. simpl. rewrite Hst, Hg. split_and!; [done| |by apply Forall_insert].
    by rewrite (ticketIDs_put_same _ _ _ _ Hi).
Qed.

Lemma sstep_accounted g sc sc' : sstep sc sc' → accounted g sc → accounted g sc'.
Proof.
  intros Hstep Hacc. pose proof Hacc as (Hn & Hp & Ha).
  assert (∀ i p, sc_conns sc !! i = Some p → phase_auth p) as Hlook
    by (intros i p; by apply Forall_lookup_1).
  destruct Hstep as [sc ga sa rq front source ticket gone pick r st Hs Ht
    |sc i now front source ticket r st Hi Hv|sc i inp source claims r st Hi Hc
    |sc i source claims r st Hi Hc|sc i source claims r st Hi Hc|sc i ok source claims r st Hi Hc
    |sc i idle source claims rem live opened p st Hi Hc|sc i source claims rem live opened Hi
    |sc i source claims rem live opened acc Hi Hl|sc i source claims rem opened Hi];
    try (specialize (Hlook _ _ Hi); simpl in Hlook).
  - unfold takePending in Ht.
    assert (sh_replay st = sh_replay (sc_shared sc) ∧ consumedTicket (after None r) = None ∧
      phase_auth (after None r)) as (Hr & Hc & Hpa).
    { destruct (gone && _); [by simplify_eq|]. destruct (_ <? _); simplify_eq; [|done].
      split_and!; [done..|]. by exists ga, sa, rq. }
    unfold accounted. simpl. rewrite Hr. split_and!; [done| |].
    + unfold ticketIDs in *. rewrite omap_app. simpl. rewrite Hc. simpl. by rewrite app_nil_r.
    + rewrite Forall_app. split; [done|]. by apply Forall_singleton.
  - unfold verifyTicket in Hv. destruct (verify now (bytes ticket)) as [c|] eqn:Hver;
      [destruct (str_eqb (ClaimFrontID c) front) eqn:Hf|]; simplify_eq/=;
      eapply accounted_put; try done.
    apply str_eqb_true in Hf. subst front. by exists now, ticket.
  - by eapply accounted_consume.
  - unfold countSession in Hc. destruct (acquireSession _ _ _) as [[] u]; simplify_eq;
      by eapply accounted_put.
  - unfold takeSession in Hc. destruct (_ <? _); simplify_eq; by eapply accounted_put.
  - unfold upgrade in Hc. destruct ok; simplify_eq; by eapply accounted_put.
  - unfold acceptStream in Hc. repeat (case_match; simplify_eq/=); by eapply accounted_put.
  - by eapply accounted_put.
  - by eapply accounted_put.
  - by eapply accounted_put.
Qed.

(** Every session is authorized, and by its own ticket.  In every
    interleaving, a request past the ticket guards was authenticated for a
    front by its origin token and carried a ticket that verified for that very
    front; and no two requests, live or finished, ever passed the replay guard
    with the same ticket. *)
Lemma sessions_authorized (r : R) (sc : sidecar) :
  NoDup (rs_granted r) → rtc sstep (started r) sc →
  NoDup (ticketIDs (sc_conns sc)) ∧
  ∀ i source c, (∃ rem live opened acc, sc_conns sc !! i = Some (Open source c rem live opened acc)) ∨
                sc_conns sc !! i = Some (Slotted source c) →
    ∃ now ticket ga sa rq, screen fronts ga sa rq = Ok (ClaimFrontID c, source, ticket) ∧
      verify now (bytes ticket) = Ok c.
Proof.
  intros Hn Hr.
  assert (accounted (rs_granted r) (started r)) as Hacc.
  { unfold accounted. simpl. split_and!; [done|done|constructor]. }
  assert (accounted (rs_granted r) sc) as (Hnd & Hperm & Hauth).
  { clear Hn. induction Hr as [|x y z Hxy _ IH]; [done|]. by apply IH, (sstep_accounted _ x). }
  split.
  - rewrite Hperm in Hnd. by apply NoDup_app in Hnd as [? _].
  - intros i source c Hi.
    assert (authorized source c) as (now & ticket & (ga & sa & rq & Hs) & Hv).
    { destruct Hi as [(rem & live & opened & acc & Hi)|Hi];
        exact (Forall_lookup_1 _ _ _ _ Hauth Hi). }
    by exists now, ticket, ga, sa, rq.
Qed.
End sidecar.

(** * A concrete sidecar *)

(** A replay store that only remembers. *)
#[refine] Definition memoryStore : ReplayStore (list (string * Z)) string := {|
  rs_input := unit;
  rs_key := id;
  rs_consume _ jti e r :=
    if bool_decide ((jti, unix_nano e) ∈ r) then (Ok false, r) else (Ok true, (jti, unix_nano e) :: r);
  rs_granted := id |}.
Proof.
  - intros i jti e r r' H. case_bool_decide as Hin; [done|]. by injection H as <-.
  - intros i jti e r res r' H Hne. case_bool_decide as Hin; [by injection H as _ <-|].
    by injection H as <- _.
Defined.

Definition exampleLimits : SidecarLimits :=
  {| MaxSessions := 1; MaxPendingHandshakes := 4; MaxStreamsPerSession := 16;
     MaxGlobalStreams := 8; MaxSessionsPerSource := 2; MaxStreamsPerSource := 4 |}.
Definition exampleToken : string := "origin-token-0123456789abcdefghij".
Definition exampleConfigured : gmap string (list string) := {[ "cdn-a" := [exampleToken] ]}.
Definition exampleFronts : list frontOriginAuth :=
  [{| oa_frontID := "cdn-a"; oa_hashes := [exampleSum (bytes exampleToken)] |}].
Definition exampleParse (v : string) : option (string * string * Z) := Some (v, "", 443).
Definition exampleVerifyTicket (now : Z) (t : list byte) : result TicketError Claims :=
  if bool_decide (t = bytes "ticket") then Ok exampleClaims else ticketInvalid "unknown".
Definition exampleRequest : request :=
  {| rq_get := true; rq_originTokens := [exampleToken]; rq_viewer := ["198.51.100.9"];
     rq_upgrade := true; rq_authorization := ["Bearer ticket"] |}.

(** One request goes all the way to a stream, a second one presents the same
    ticket and is refused. *)
Definition exampleOps : list (sop (ReplayStore0 := memoryStore)) :=
  [SArrive true true exampleRequest false false; SArrive true true exampleRequest false false;
   SVerify 0 (1000 * second); SConsume (ReplayStore0 := memoryStore) 0 tt;
   SVerify 1 (1000 * second); SConsume (ReplayStore0 := memoryStore) 1 tt;
   SCount 0; SSession 0; SUpgrade 0 true; SAccept 0 true].

Definition exampleRun : option sidecar :=
  sexecs (ReplayStore0 := memoryStore) exampleSum exampleParse exampleLimits exampleVerifyTicket
    (30 * second) exampleFronts exampleOps (started []).

Lemma exampleVerifyTicket_streams now t c : exampleVerifyTicket now t = Ok c → 1 ≤ Ticket.MaxStreams c.
Proof. unfold exampleVerifyTicket. case_bool_decide; [|done]. intros [= <-]. done. Qed.

Lemma sidecar_slots_witness :
  ∃ sc, exampleRun = Some sc ∧ sh_sessions (sc_shared sc) = 1 ∧
    sh_streams (sc_shared sc) = total holdsStreams (sc_conns sc).
Proof.
  destruct exampleRun as [sc|] eqn:E; [|vm_compute in E; discriminate].
  destruct (sidecar_slots (ReplayStore0 := memoryStore) exampleSum exampleParse exampleLimits
    exampleVerifyTicket (30 * second) exampleFronts exampleVerifyTicket_streams exampleLimits eq_refl
    [] sc) as (_ & _ & Hs & _); [eapply sexecs_rtc; exact E|].
  exists sc. split; [reflexivity|]. split; [|exact Hs].
  vm_compute in E. injection E as <-. reflexivity.
Defined.

Lemma stream_budget_witness :
  ∃ sc, exampleRun = Some sc ∧
    match sc_conns sc !! 0%nat with
    | Some (Open _ c rem live opened _) => rem = 7 ∧ live = 1 ∧ opened + rem ≤ Z.min (Ticket.MaxStreams c) 16
    | _ => False
    end.
Proof.
  destruct exampleRun as [sc|] eqn:E; [|vm_compute in E; discriminate].
  pose proof (stream_budget (ReplayStore0 := memoryStore) exampleSum exampleParse exampleLimits
    exampleVerifyTicket (30 * second) exampleFronts exampleVerifyTicket_streams exampleLimits eq_refl
    [] sc 0) as Hs. specialize (Hs (sexecs_rtc _ _ _ _ _ _ _ _ _ E)).
  exists sc. split; [reflexivity|]. vm_compute in E. injection E as <-. cbn in Hs |- *.
  split; [reflexivity|]. split; [reflexivity|apply Hs].
Defined.

Lemma authenticateOrigin_exact_witness :
  validateFrontOriginTokens (MapRange0 := map_to_list_range) id exampleSum exampleConfigured = Ok exampleFronts ∧
  authenticateOrigin exampleSum exampleFronts [exampleToken] = ("cdn-a"%string, true).
Proof.
  assert (validateFrontOriginTokens (MapRange0 := map_to_list_range) id exampleSum exampleConfigured
    = Ok exampleFronts) as Hv by (vm_compute; reflexivity).
  split; [exact Hv|].
  apply (authenticateOrigin_exact (MapRange0 := map_to_list_range) id exampleSum exampleConfigured
    exampleFronts [exampleToken] "cdn-a" Hv).
  exists exampleToken, exampleToken, [exampleToken].
  split; [reflexivity|]. split; [reflexivity|]. split; [left|reflexivity].
Defined.
