(* ===== verification/Admission.v ===== *)
(** The sidecar over its durable replay store: [DurableReplayStore] implements
    the [ReplayStore] interface the sidecar is written against (the field
    [replay] of sidecarHandler in
    src/libs/openrung/internal/wssbridge/sidecar.go), so the admission guarantee
    holds for the program as it is assembled: tickets, journal and handler. *)
From stdpp Require Import base list gmap strings.
From Stdlib Require Import ZArith Lia.
From S2P Require Import Prelude Codec Directory Fronts Ticket Replay Sidecar.

Section durable.
Context {H : Type} `{!ExpiryHeap H} `{!MapRange replayKey Z}.
Context (Sum256 : list byte → list byte) (limit : Z).
Context (Sum256_length : ∀ bs, length (Sum256 bs) = keySize).

(** A relay's replay state in good order. *)
Definition replayState : Type := { sy : @system H | sys_ok limit sy ∧ sy_undone sy = false }.

(** What a call reads besides its arguments: I/O outcomes, the context before
    and under the lock, and the clock. *)
Record consumeInput := { ci_io : consumeIO; ci_done : bool; ci_doneLocked : bool; ci_now : Z }.

(** One call on a running store.  A clock that ran backwards is outside the
    model and answered with an error. *)
Definition consumeSystem (inp : consumeInput) (jti : string) (expires : Z) (sy : @system H)
    : result unit bool * @system H :=
  match sy_store sy with
  | None => (Err tt, sy)
  | Some s =>
      if (sy_now sy <=? ci_now inp) && (ci_now inp <=? int64_max) then
        let '(r, s', d) := Consume Sum256 (ci_io inp) (ci_done inp) (ci_doneLocked inp) (ci_now inp)
                             jti expires s (sy_disk sy) in
        (match r with Ok b => Ok b | Err _ => Err tt end, afterConsume Sum256 (ci_now inp) jti expires r s' d sy)
      else (Err tt, sy)
  end.

Lemma consumeSystem_ok inp jti expires sy :
  sys_ok limit sy ∧ sy_undone sy = false →
  sys_ok limit (consumeSystem inp jti expires sy).2 ∧ sy_undone (consumeSystem inp jti expires sy).2 = false.
Proof.
  intros [Hok Hun]. unfold consumeSystem. destruct (sy_store sy) as [s|] eqn:Hs; [|done].
  destruct (_ && _) eqn:Hn; [|done].
  apply andb_true_iff in Hn as [?%Z.leb_le ?%Z.leb_le].
  destruct (Consume _ _ _ _ _ _ _ _ _) as [[r s'] d] eqn:Hc. split; [|done].
  eapply (step_ok Sum256 limit); [done| |exact Hun|exact Hok]. simpl. by eapply step_consume.
Qed.

Definition grantedPairs (sy : @system H) : list (replayKey * Z) :=
  (λ g, (g_key g, g_expires g)) <$> sy_grants sy.

Lemma consumeSystem_grants inp jti expires sy res sy' :
  consumeSystem inp jti expires sy = (res, sy') →
  grantedPairs sy' = (match res with
                      | Ok true => [(newReplayKey Sum256 jti, unix_nano expires)]
                      | _ => []
                      end) ++ grantedPairs sy.
Proof.
  unfold consumeSystem. destruct (sy_store sy) as [s|]; [|by intros [= <- <-]].
  destruct (_ && _); [|by intros [= <- <-]].
  destruct (Consume _ _ _ _ _ _ _ _ _) as [[r s'] d]. intros [= <- <-].
  by destruct r as [[]|].
Qed.

#[refine] Definition durableStore : ReplayStore replayState replayKey := {|
  rs_input := consumeInput;
  rs_key := newReplayKey Sum256;
  rs_consume inp jti e r :=
    ((consumeSystem inp jti e (proj1_sig r)).1,
     exist _ (consumeSystem inp jti e (proj1_sig r)).2 (consumeSystem_ok inp jti e _ (proj2_sig r)));
  rs_granted r := grantedPairs (proj1_sig r) |}.
Proof.
  - intros inp jti e [sy Hok] [sy' Hok'] [= Hres Hsy]. simpl in *.
    destruct (consumeSystem inp jti e sy) as [res sy2] eqn:Hc. simpl in *. subst res sy2.
    apply consumeSystem_grants in Hc. simpl in Hc. split; [|done].
    destruct Hok' as [(_ & _ & _ & _ & Hnd%once_NoDup) _].
    change (NoDup (grantedPairs sy')) in Hnd. rewrite Hc in Hnd. by apply NoDup_cons in Hnd as [? _].
  - intros inp jti e [sy Hok] res [sy' Hok'] [= Hres Hsy] Hne. simpl in *.
    destruct (consumeSystem inp jti e sy) as [res2 sy2] eqn:Hc. simpl in *. subst res2 sy2.
    apply consumeSystem_grants in Hc. destruct res as [[]|]; [done|done|done].
Defined.

(** ** The assembled sidecar *)
Context (ToLower : string → string) (edVerify : list byte → list byte → list byte → bool).
Context (Marshal : Claims → option (list byte)) (Decode : list byte → option Claims).
Context (ParseAddrPort : string → option (string * string * Z)).
Context (limits : SidecarLimits) (v : TicketVerifier) (fronts : list frontOriginAuth).
(** [exp] is decoded into an int64. *)
Context (Decode_exp : ∀ p c, Decode p = Some c → in_int64 (ExpiresAt c)).

Notation verifyWith := (Verify ToLower edVerify Marshal Decode v).
Notation step :=
  (sstep (ReplayStore0 := durableStore) Sum256 ParseAddrPort limits verifyWith
     (ClockSkew (verifierOpts v)) fronts).

Lemma verify_in_int64 now t c : verifyWith now t = Ok c → in_int64 (ExpiresAt c).
Proof.
  unfold Verify. intros Hv. repeat (case_match; try done). simplify_eq. by eapply Decode_exp.
Qed.

(** C2: one ticket, one session.  The assembled sidecar (ticket verifier,
    durable replay journal and handler), whatever its requests, their
    interleaving and the failures of the journal's I/O, never admits two
    requests with the same ticket; and an admitted session's claims name this
    relay, obey the ticket policy and were signed by a configured key. *)
Theorem one_ticket_one_session (r : replayState) (sc : @sidecar replayState) :
  rtc step (started r) sc →
  NoDup (ticketIDs (ReplayStore0 := durableStore) (ClockSkew (verifierOpts v)) (sc_conns sc)) ∧
  ∀ i source c rem live opened acc,
    sc_conns sc !! i = Some (Open source c rem live opened acc) →
    RelayID c = localRelayID v ∧ policy ToLower c (MaxLifetime (verifierOpts v)) ∧
    ∃ keyID key payload signature,
      keys v !! keyID = Some key ∧ Marshal c = Some payload ∧
      edVerify key (ticketStatement payload) signature = true.
Proof.
  intros Hr.
  destruct (sessions_authorized (ReplayStore0 := durableStore) Sum256 ParseAddrPort limits verifyWith
    (ClockSkew (verifierOpts v)) fronts r sc) as [Hn Ha]; [|done|].
  { apply once_NoDup, (proj1 (proj2_sig r)). }
  split; [done|]. intros i source c rem live opened acc Hi.
  destruct (Ha i source c) as (now & ticket & _ & _ & _ & _ & Hv); [left; eauto|].
  destruct (Verify_inv _ _ _ _ _ _ _ _ (verify_in_int64 _ _ _ Hv) Hv)
    as ((keyID & key & payload & sg & ? & ? & ? & _) & ? & ? & _).
  split_and!; [done|done|]. by exists keyID, key, payload, sg.
Qed.
End durable.

(** * A concrete assembly *)
Notation demoSystem := (@system sortedHeap).

Lemma demoSystem_ok ops sy : forallb committed ops = true →
  demoExecs ops = Some sy → sys_ok (ExpiryHeap0 := sortedHeap_heap) 4 sy ∧ sy_undone sy = false.
Proof.
  intros Hc E. assert (Hun : sy_undone sy = false).
  { exact (proj2 (committed_run (ExpiryHeap0 := sortedHeap_heap) (MapRange0 := map_to_list_range) demoSum 4 ops (fresh 0) sy Hc eq_refl E)). }
  split; [|done]. eapply (reachable_ok (MapRange0 := map_to_list_range) demoSum 4 0);
    [exact demoSum_length|lia| |exact Hun]. eapply execs_rtc. exact E.
Qed.

Lemma demoFresh_ok : sys_ok (ExpiryHeap0 := sortedHeap_heap) 4 (fresh 0) ∧ sy_undone (H := sortedHeap) (fresh 0) = false.
Proof. split; [by apply fresh_ok|done]. Qed.

(** A store that has just been opened. *)
Definition demoState : replayState (ExpiryHeap0 := sortedHeap_heap) 4 :=
  match demoExecs [OOpen true CompactOk 1] as o
    return demoExecs [OOpen true CompactOk 1] = o → replayState (ExpiryHeap0 := sortedHeap_heap) 4 with
  | Some sy => λ E, exist _ sy (demoSystem_ok [OOpen true CompactOk 1] sy eq_refl E)
  | None => λ _, exist _ (fresh 0) demoFresh_ok
  end eq_refl.

Definition demoVerifier : TicketVerifier :=
  {| keys := exampleKeys; localRelayID := "relay-1";
     verifierOpts := {| MaxLifetime := 5 * minute; ClockSkew := 30 * second |} |}.
Definition demoToken : list byte :=
  let p := default [] (exampleMarshal exampleClaims) in
  joinDots [ticketPrefix; bytes (TicketKeyID exampleSum (examplePublic exampleKey));
            EncodeToString p; EncodeToString (exampleSign exampleKey (ticketStatement p))].
Definition demoRequest : request :=
  {| rq_get := true; rq_originTokens := [exampleToken]; rq_viewer := ["198.51.100.9"];
     rq_upgrade := true; rq_authorization := [("Bearer " +:+ text demoToken)%string] |}.

Notation demoDurable := (durableStore (ExpiryHeap0 := sortedHeap_heap)
  (MapRange0 := map_to_list_range) demoSum 4 demoSum_length).
Definition demoInput : consumeInput :=
  {| ci_io := goodIO; ci_done := false; ci_doneLocked := false; ci_now := 1000 * second |}.

(** Two requests race with the same ticket; the first to reach the journal gets
    the session. *)
Definition demoOps : list (sop (ReplayStore0 := demoDurable)) :=
  [SArrive true true demoRequest false false; SArrive true true demoRequest false false;
   SVerify 0 (1000 * second); SVerify 1 (1000 * second);
   SConsume (ReplayStore0 := demoDurable) 0 demoInput; SConsume (ReplayStore0 := demoDurable) 1 demoInput;
   SCount 0; SSession 0; SUpgrade 0 true].

Definition demoSidecar : option (@sidecar (replayState (ExpiryHeap0 := sortedHeap_heap) 4)) :=
  sexecs (ReplayStore0 := demoDurable) demoSum exampleParse exampleLimits
    (Verify id exampleVerify exampleMarshal exampleDecode demoVerifier) (30 * second) exampleFronts
    demoOps (started demoState).

Lemma one_ticket_one_session_witness :
  ∃ sc, demoSidecar = Some sc ∧
    sc_conns sc = [Open "198.51.100.9" exampleClaims 8 0 0 true; Finished None] ∧
    RelayID exampleClaims = localRelayID demoVerifier.
Proof.
  assert (sc_conns <$> demoSidecar =
    Some [Open "198.51.100.9" exampleClaims 8 0 0 true; Finished None]) as Hc
    by (vm_compute; reflexivity).
  destruct demoSidecar as [sc|] eqn:E; [|discriminate]. injection Hc as Hc.
  exists sc. split; [reflexivity|]. split; [exact Hc|].
  refine (proj1 (proj2 (one_ticket_one_session (ExpiryHeap0 := sortedHeap_heap)
    (MapRange0 := map_to_list_range) demoSum 4 demoSum_length id exampleVerify exampleMarshal exampleDecode
    exampleParse exampleLimits demoVerifier exampleFronts _ demoState sc _) 0%nat _ exampleClaims _ _ _ _ _)).
  - intros p c. unfold exampleDecode. case_bool_decide; [|discriminate]. intros [= <-].
    vm_compute. split; discriminate.
  - eapply sexecs_rtc. exact E.
  - rewrite Hc. reflexivity.
Defined.
