(* ===== verification/GoTime.v ===== *)
(** The calendar of Go's [time] package, as far as the sources use it:
    [t.UTC().Format(time.RFC3339)] and [time.Parse(time.RFC3339, s)] over the
    proleptic Gregorian calendar, with the round trip between them. *)
From stdpp Require Import base list list_numbers strings.
From Stdlib Require Import ZArith Lia.
From S2P Require Import Prelude Codec.

(** * The calendar

    Years are counted from March inside eras of 400 years (146097 days); day 0
    is 1970-01-01. *)
Definition eraDays : Z := 146097.

Definition isLeap (y : Z) : bool :=
  (y mod 4 =? 0) && (negb (y mod 100 =? 0) || (y mod 400 =? 0)).

Definition daysIn (m y : Z) : Z :=
  if m =? 2 then if isLeap y then 29 else 28
  else if (m =? 4) || (m =? 6) || (m =? 9) || (m =? 11) then 30 else 31.

(** The first day of a year of the era, the year of a day, and the month and
    day of a day of the year. *)
Definition yearStart (yoe : Z) : Z := yoe * 365 + yoe / 4 - yoe / 100.

Definition yearOfDay (doe : Z) : Z := (doe - doe / 1460 + doe / 36524 - doe / 146096) / 365.

Definition dayOfYear (m d : Z) : Z :=
  let mp := if 2 <? m then m - 3 else m + 9 in (153 * mp + 2) / 5 + d - 1.

Definition monthDay (doy : Z) : Z * Z :=
  let mp := (5 * doy + 2) / 153 in
  (if mp <? 10 then mp + 3 else mp - 9, doy - (153 * mp + 2) / 5 + 1).

(** The day of the era of a date given by its year of the era, and back. *)
Definition dayOfEra (yoe m d : Z) : Z := yearStart yoe + dayOfYear m d.

Definition dateOfEra (doe : Z) : Z * Z * Z :=
  let yoe := yearOfDay doe in
  let '(m, d) := monthDay (doe - yearStart yoe) in (yoe, m, d).

Definition daysFromCivil (y m d : Z) : Z :=
  let y' := if m <=? 2 then y - 1 else y in
  y' / 400 * eraDays + dayOfEra (y' mod 400) m d - 719468.

Definition civilFromDays (n : Z) : Z * Z * Z :=
  let z := n + 719468 in
  let '(yoe, m, d) := dateOfEra (z mod eraDays) in
  let y := yoe + z / eraDays * 400 in
  (if m <=? 2 then y + 1 else y, m, d).

(** Every day of an era has one date, which is a date of the calendar.  The
    year formula is monotone, so it is checked at the two ends of each of the
    400 years; the month formula is checked on the 366 days of a year. *)
Definition yearOk (yoe : Z) : bool :=
  (yearOfDay (yearStart yoe) =? yoe) &&
  (yearOfDay (yearStart yoe + 364 + (if isLeap (yoe + 1) then 1 else 0)) =? yoe) &&
  (yearStart (yoe + 1) =?
     yearStart yoe + 365 + (if isLeap (yoe + 1) then 1 else 0) - (if yoe =? 399 then 1 else 0)).

Definition dayOk (doy : Z) : bool :=
  let '(m, d) := monthDay doy in
  (1 <=? m) && (m <=? 12) && (1 <=? d) && (dayOfYear m d =? doy) &&
  (d <=? (if (m =? 2) then if doy =? 365 then 29 else 28 else daysIn m 1)).

Lemma year_ok yoe : 0 ≤ yoe < 400 → yearOk yoe = true.
Proof. intros H. by apply (allBelow_spec 400 0); [vm_compute|]. Qed.

Lemma day_ok doy : 0 ≤ doy < 366 → dayOk doy = true.
Proof. intros H. by apply (allBelow_spec 366 0); [vm_compute|]. Qed.

Lemma yearOfDay_mono a b : 0 ≤ a ≤ b → yearOfDay a ≤ yearOfDay b.
Proof.
  intros H. unfold yearOfDay. apply Z.div_le_mono; [done|].
  assert (∀ n, 0 ≤ n → n - n / 1460 + n / 36524 - n / 146096 ≤
    n + 1 - (n + 1) / 1460 + (n + 1) / 36524 - (n + 1) / 146096) as Hs
    by (intros; Z.to_euclidean_division_equations; lia).
  replace b with (a + Z.of_nat (Z.to_nat (b - a))) by lia.
  induction (Z.to_nat (b - a)) as [|k IH]; [rewrite Z.add_0_r; lia|].
  etrans; [exact IH|]. rewrite Nat2Z.inj_succ. specialize (Hs (a + Z.of_nat k) ltac:(lia)).
  by replace (a + Z.succ (Z.of_nat k)) with (a + Z.of_nat k + 1) by lia.
Qed.

(** A day lies in the year the formula names. *)
Lemma yearOfDay_spec doe :
  0 ≤ doe < eraDays →
  0 ≤ yearOfDay doe < 400 ∧
  0 ≤ doe - yearStart (yearOfDay doe) ≤ 364 + (if isLeap (yearOfDay doe + 1) then 1 else 0).
Proof.
  unfold eraDays. intros Hd. remember (yearOfDay doe) as yoe eqn:Ey.
  assert (0 ≤ yoe < 400) as Hy.
  { pose proof (yearOfDay_mono 0 doe ltac:(lia)) as H1.
    pose proof (yearOfDay_mono doe 146096 ltac:(lia)) as H2.
    change (yearOfDay 0) with 0 in H1. change (yearOfDay 146096) with 399 in H2.
    lia. }
  assert (yearStart yoe ≤ doe) as Hlo.
  { destruct (decide (yoe = 0)) as [E|]; [rewrite E; change (yearStart 0) with 0; lia|]. apply Z.nlt_ge. intros Hlt.
    pose proof (year_ok (yoe - 1) ltac:(lia)) as Hok. unfold yearOk in Hok.
    rewrite !andb_true_iff, !Z.eqb_eq, Z.sub_add, (proj2 (Z.eqb_neq _ _)) in Hok by lia.
    destruct Hok as [[_ H2] H3].
    pose proof (yearOfDay_mono doe (yearStart yoe - 1) ltac:(lia)) as Hm.
    replace (yearStart yoe - 1)
      with (yearStart (yoe - 1) + 364 + (if isLeap yoe then 1 else 0)) in Hm by lia.
    lia. }
  split; [done|]. split; [lia|]. apply Z.nlt_ge. intros Hgt.
  pose proof (year_ok yoe Hy) as Hok. unfold yearOk in Hok.
  rewrite !andb_true_iff, !Z.eqb_eq in Hok. destruct Hok as [_ H3].
  destruct (Z.eqb_spec yoe 399) as [E|].
  { rewrite E in Hgt. change (yearStart 399) with 145731 in Hgt.
    change (isLeap (399 + 1)) with true in Hgt. cbn match in Hgt. lia. }
  pose proof (year_ok (yoe + 1) ltac:(lia)) as Hok. unfold yearOk in Hok.
  rewrite !andb_true_iff, !Z.eqb_eq in Hok. destruct Hok as [[H4 _] _].
  assert (0 ≤ yearStart (yoe + 1)) by (unfold yearStart; Z.to_euclidean_division_equations; lia).
  pose proof (yearOfDay_mono (yearStart (yoe + 1)) doe ltac:(lia)). lia.
Qed.

Lemma era_date doe yoe m d :
  0 ≤ doe < eraDays → dateOfEra doe = (yoe, m, d) →
  0 ≤ yoe < 400 ∧ 1 ≤ m ≤ 12 ∧ 1 ≤ d ≤ daysIn m (if m <=? 2 then yoe + 1 else yoe) ∧
  dayOfEra yoe m d = doe.
Proof.
  intros Hd. destruct (yearOfDay_spec doe Hd) as [Hy Hdoy]. unfold dateOfEra.
  set (doy := doe - _) in *.
  assert (doy < 366) by (destruct (isLeap _) in Hdoy; lia).
  pose proof (day_ok doy ltac:(lia)) as Hok. unfold dayOk in Hok.
  destruct (monthDay doy) as [m' d']. intros [= <- <- <-].
  rewrite !andb_true_iff, !Z.leb_le, Z.eqb_eq in Hok.
  destruct Hok as [[[[H1 H2] H3] H4] H5]. split_and!; try lia.
  - etrans; [exact H5|]. unfold daysIn. destruct (Z.eqb_spec m' 2) as [->|]; [|done].
    change (2 <=? 2) with true. cbn match.
    destruct (Z.eqb_spec doy 365), (isLeap (yearOfDay doe + 1)); lia.
  - unfold dayOfEra. lia.
Qed.

Lemma isLeap_era y k : isLeap (y + k * 400) = isLeap y.
Proof.
  unfold isLeap. rewrite (Z.mod_add y k 400) by done.
  replace (k * 400) with (k * 100 * 4) at 1 by lia. rewrite Z.mod_add by done.
  replace (k * 400) with (k * 4 * 100) by lia. by rewrite Z.mod_add by done.
Qed.

Lemma daysIn_era m y k : daysIn m (y + k * 400) = daysIn m y.
Proof. unfold daysIn. by rewrite isLeap_era. Qed.

Lemma civil_roundtrip n y m d :
  civilFromDays n = (y, m, d) →
  daysFromCivil y m d = n ∧ 1 ≤ m ≤ 12 ∧ 1 ≤ d ≤ daysIn m y.
Proof.
  unfold civilFromDays. set (z := n + 719468).
  destruct (dateOfEra (z mod eraDays)) as [[yoe m'] d'] eqn:E.
  destruct (era_date _ _ _ _ (Z.mod_pos_bound z eraDays eq_refl) E) as (H1 & H3 & H5 & H7).
  set (e := z / eraDays).
  intros [= <- <- <-].
  assert ((if m' <=? 2 then (if m' <=? 2 then yoe + e * 400 + 1 else yoe + e * 400) - 1
           else if m' <=? 2 then yoe + e * 400 + 1 else yoe + e * 400) = yoe + e * 400) as Hy
    by (destruct (m' <=? 2); lia).
  split_and!; [|lia..|].
  - unfold daysFromCivil. rewrite Hy, Z.div_add, Z.div_small, Z.mod_add, Z.mod_small by lia.
    rewrite H7. pose proof (Z.div_mod z eraDays ltac:(done)). unfold e, z in *. lia.
  - replace (if m' <=? 2 then yoe + e * 400 + 1 else yoe + e * 400)
      with ((if m' <=? 2 then yoe + 1 else yoe) + e * 400) by (destruct (m' <=? 2); lia).
    rewrite daysIn_era. lia.
Qed.

(** * RFC 3339 *)
Definition daySeconds : Z := 86400.

Definition pad2 (n : Z) : list byte := [digit (n / 10); digit (n mod 10)].
(** The year in at least four digits, for years of the common era up to 9999. *)
Definition pad4 (n : Z) : list byte :=
  [digit (n / 1000); digit (n / 100 mod 10); digit (n / 10 mod 10); digit (n mod 10)].

(** [t.UTC().Format(time.RFC3339)] *)
Definition FormatRFC3339 (t : Z) : list byte :=
  let s := t / second in
  let '(y, m, d) := civilFromDays (s / daySeconds) in
  let r := s mod daySeconds in
  pad4 y ++ [chr 45] ++ pad2 m ++ [chr 45] ++ pad2 d ++ [chr 84] ++
  pad2 (r / 3600) ++ [chr 58] ++ pad2 (r / 60 mod 60) ++ [chr 58] ++ pad2 (r mod 60) ++ [chr 90].

(** [getnum]: one or two digits, or exactly two when [fixed]. *)
Definition getnum (fixed : bool) (s : list byte) : option (Z * list byte) :=
  match s with
  | [] => None
  | a :: s1 =>
      x ← undigit a;
      match s1 with
      | b :: s2 =>
          match undigit b with
          | Some y => Some (x * 10 + y, s2)
          | None => if fixed then None else Some (x, s1)
          end
      | [] => if fixed then None else Some (x, s1)
      end
  end.

(** A literal byte of the layout. *)
Definition literal (c : Z) (s : list byte) : option (list byte) :=
  match s with
  | a :: s' => if val a =? c then Some s' else None
  | [] => None
  end.

(** A number inside bounds; the error of a number outside them is reported
    after the whole layout was read, which is an error all the same. *)
Definition between (lo hi : Z) (p : option (Z * list byte)) : option (Z * list byte) :=
  '(n, s) ← p;
  if (lo <=? n) && (n <=? hi) then Some (n, s) else None.

Definition getyear (s : list byte) : option (Z * list byte) :=
  match s with
  | a :: b :: c :: d :: s' =>
      w ← undigit a; x ← undigit b; y ← undigit c; z ← undigit d;
      Some (w * 1000 + x * 100 + y * 10 + z, s')
  | _ => None
  end.

(** The longest run of digits. *)
Fixpoint spanDigits (s : list byte) : list byte * list byte :=
  match s with
  | a :: s' =>
      match undigit a with
      | Some _ => let '(ds, r) := spanDigits s' in (a :: ds, r)
      | None => ([], s)
      end
  | [] => ([], [])
  end.

(** A fraction, although the layout has none: a period or comma and digits, of
    which nine are kept. *)
Definition getfraction (s : list byte) : option (Z * list byte) :=
  match s with
  | a :: b :: _ =>
      if ((val a =? 46) || (val a =? 44)) && bool_decide (is_Some (undigit b)) then
        let '(ds, r) := spanDigits (tail s) in
        let kept := take 9 ds in
        n ← parseDigits 0 kept;
        Some (n * 10 ^ (9 - Z.of_nat (length kept)), r)
      else Some (0, s)
  | _ => Some (0, s)
  end.

(** [Z], or a sign, two digits of hours, a colon and two of minutes; the
    library lets the hours reach 24 and the minutes 60. *)
Definition getzone (s : list byte) : option (Z * list byte) :=
  match s with
  | a :: s' =>
      if val a =? 90 then Some (0, s') else
      '(hh, s1) ← between 0 24 (getnum true s');
      s2 ← literal 58 s1;
      '(mm, s3) ← between 0 60 (getnum true s2);
      let off := (hh * 60 + mm) * 60 in
      if val a =? 43 then Some (off, s3)
      else if val a =? 45 then Some (- off, s3) else None
  | [] => None
  end.

(** [time.Parse(time.RFC3339, s)] *)
Definition ParseRFC3339 (s : list byte) : option Z :=
  '(y, s) ← getyear s; s ← literal 45 s;
  '(m, s) ← between 1 12 (getnum true s); s ← literal 45 s;
  '(d, s) ← getnum true s; s ← literal 84 s;
  '(hh, s) ← between 0 23 (getnum false s); s ← literal 58 s;
  '(mm, s) ← between 0 59 (getnum true s); s ← literal 58 s;
  '(ss, s) ← between 0 59 (getnum true s);
  '(ns, s) ← getfraction s;
  '(off, s) ← getzone s;
  if bool_decide (s = []) && (1 <=? d) && (d <=? daysIn m y) then
    Some ((daysFromCivil y m d * daySeconds + hh * 3600 + mm * 60 + ss - off) * second + ns)
  else None.

Example parse_utc : ParseRFC3339 (bytes "2026-07-21T12:00:00Z") = Some (1784635200 * second).
Proof. reflexivity. Qed.
Example parse_offset :
  ParseRFC3339 (bytes "2026-07-21T5:00:00.5-07:00") = Some (1784635200 * second + 500 * millisecond).
Proof. reflexivity. Qed.
Example parse_february : ParseRFC3339 (bytes "2026-02-29T12:00:00Z") = None.
Proof. reflexivity. Qed.

(** * The round trip *)
Definition fourDigitYear (t : Z) : bool :=
  let '(y, _, _) := civilFromDays (t / second / daySeconds) in (0 <=? y) && (y <=? 9999).

Lemma getyear_pad4 n s : 0 ≤ n ≤ 9999 → getyear (pad4 n ++ s) = Some (n, s).
Proof.
  intros Hn. unfold pad4. cbn [app getyear].
  rewrite !undigit_digit by (Z.to_euclidean_division_equations; lia). cbn [mbind option_bind].
  do 2 f_equal. Z.to_euclidean_division_equations; lia.
Qed.

Lemma getnum_pad2 fixed n s : 0 ≤ n ≤ 99 → getnum fixed (pad2 n ++ s) = Some (n, s).
Proof.
  intros Hn. unfold pad2. cbn [app getnum].
  rewrite !undigit_digit by (Z.to_euclidean_division_equations; lia). cbn [mbind option_bind].
  do 2 f_equal. Z.to_euclidean_division_equations; lia.
Qed.

Lemma between_pad2 fixed lo hi n s :
  0 ≤ lo → hi ≤ 99 → lo ≤ n ≤ hi → between lo hi (getnum fixed (pad2 n ++ s)) = Some (n, s).
Proof.
  intros ???. rewrite getnum_pad2 by lia. cbn.
  by rewrite !(proj2 (Z.leb_le _ _)) by lia.
Qed.

Lemma literal_cons c s : 0 ≤ c < 256 → literal c ([chr c] ++ s) = Some s.
Proof. intros. cbn. by rewrite val_chr, Z.mod_small, Z.eqb_refl. Qed.

Lemma daysIn_bound m y : daysIn m y ≤ 31.
Proof. unfold daysIn. repeat case_match; lia. Qed.

Lemma clock_facts r :
  0 ≤ r < daySeconds →
  0 ≤ r / 3600 ≤ 23 ∧ 0 ≤ r / 60 mod 60 ≤ 59 ∧ 0 ≤ r mod 60 ≤ 59 ∧
  r / 3600 * 3600 + r / 60 mod 60 * 60 + r mod 60 = r.
Proof. unfold daySeconds. Z.to_euclidean_division_equations; lia. Qed.

Lemma Parse_Format t :
  fourDigitYear t = true → ParseRFC3339 (FormatRFC3339 t) = Some (t / second * second).
Proof.
  unfold fourDigitYear, FormatRFC3339. set (s := t / second).
  destruct (civilFromDays (s / daySeconds)) as [[y m] d] eqn:E.
  rewrite andb_true_iff, !Z.leb_le. intros Hy.
  destruct (civil_roundtrip _ _ _ _ E) as (Hdays & Hm & Hd).
  pose proof (daysIn_bound m y) as Hd31.
  destruct (clock_facts (s mod daySeconds)) as (Hhh & Hmm & Hss & Hsum); [by apply Z.mod_pos_bound|].
  unfold ParseRFC3339. rewrite getyear_pad4 by done. cbn [mbind option_bind].
  rewrite literal_cons by done. cbn [mbind option_bind].
  rewrite between_pad2 by lia. cbn [mbind option_bind].
  rewrite literal_cons by done. cbn [mbind option_bind].
  rewrite getnum_pad2 by lia. cbn [mbind option_bind].
  rewrite literal_cons by done. cbn [mbind option_bind].
  rewrite between_pad2 by lia. cbn [mbind option_bind].
  rewrite literal_cons by done. cbn [mbind option_bind].
  rewrite between_pad2 by lia. cbn [mbind option_bind].
  rewrite literal_cons by done. cbn [mbind option_bind].
  rewrite <- (app_nil_r [chr 90]).
  rewrite between_pad2 by lia. cbn [mbind option_bind].
  change (getfraction ([chr 90] ++ [])) with (Some (0, [chr 90])). cbn [mbind option_bind].
  change (getzone [chr 90]) with (Some (0, @nil byte)). cbn [mbind option_bind].
  rewrite bool_decide_eq_true_2, !(proj2 (Z.leb_le _ _)) by (done || lia). cbn [andb].
  rewrite Hdays. do 2 f_equal. pose proof (Z.div_mod s daySeconds ltac:(done)). lia.
Qed.

(** * What the parser reads has no line break *)
Definition noBreak (s : list byte) : Prop := lacks 10 s = true.

Lemma noBreak_app a b : noBreak (a ++ b) ↔ noBreak a ∧ noBreak b.
Proof. unfold noBreak. by rewrite lacks_app, andb_true_iff. Qed.

Lemma noBreak_one a : val a ≠ 10 → noBreak [a].
Proof.
  intros H. unfold noBreak, lacks. cbn. rewrite andb_true_r, negb_true_iff, N.eqb_neq.
  unfold val in H. lia.
Qed.

Lemma undigit_noBreak a x : undigit a = Some x → noBreak [a].
Proof. unfold undigit. intros H. apply noBreak_one. cmp_lia. Qed.

(** A reader that consumes a prefix without a line break. *)
Definition reads {A} (p : option (A * list byte)) (s : list byte) : Prop :=
  ∀ x r, p = Some (x, r) → ∃ pre, s = pre ++ r ∧ noBreak pre.

Lemma reads_digit2 a b s x y : undigit a = Some x → undigit b = Some y →
  ∃ pre, a :: b :: s = pre ++ s ∧ noBreak pre.
Proof.
  intros Ha%undigit_noBreak Hb%undigit_noBreak. exists ([a] ++ [b]). split; [done|].
  by rewrite noBreak_app.
Qed.

Lemma getnum_reads fixed s : reads (getnum fixed s) s.
Proof.
  intros n r. destruct s as [|a s]; [done|]. cbn [getnum]. intros (x & Ha & H)%bind_Some.
  assert (∃ pre, a :: s = pre ++ s ∧ noBreak pre) as H1 by (exists [a]; eauto using undigit_noBreak).
  destruct s as [|b s]; [destruct fixed; naive_solver|].
  destruct (undigit b) as [y|] eqn:Hb; [|destruct fixed; naive_solver].
  simplify_eq. eauto using reads_digit2.
Qed.

Lemma between_reads lo hi p s : reads p s → reads (between lo hi p) s.
Proof.
  intros Hp n r. unfold between. intros ([n' r'] & E & H)%bind_Some.
  destruct (_ && _); simplify_eq. exact (Hp _ _ eq_refl).
Qed.

Lemma getyear_reads s : reads (getyear s) s.
Proof.
  intros n r. destruct s as [|a [|b [|c [|d s]]]]; try done. cbn [getyear].
  intros (w & Ha & (x & Hb & (y & Hc & (z & Hd & H)%bind_Some)%bind_Some)%bind_Some)%bind_Some.
  simplify_eq. exists ([a] ++ [b] ++ [c] ++ [d]). split; [done|].
  rewrite !noBreak_app. split_and!; by eapply undigit_noBreak.
Qed.

Lemma literal_reads c s r : c ≠ 10 → literal c s = Some r → ∃ pre, s = pre ++ r ∧ noBreak pre.
Proof.
  intros Hc. destruct s as [|a s]; [done|]. cbn. destruct (Z.eqb_spec (val a) c); [|done].
  intros [= ->]. exists [a]. split; [done|]. apply noBreak_one. congruence.
Qed.

Lemma spanDigits_reads s : ∃ pre, s = pre ++ (spanDigits s).2 ∧ noBreak pre.
Proof.
  induction s as [|a s IH]; [by exists []|]. cbn.
  destruct (undigit a) as [x|] eqn:Ha; [|by exists []].
  destruct (spanDigits s) as [ds r]. destruct IH as (pre & -> & Hp). exists ([a] ++ pre).
  split; [done|]. rewrite noBreak_app. eauto using undigit_noBreak.
Qed.

Lemma getfraction_reads s : reads (getfraction s) s.
Proof.
  intros n r. unfold getfraction. destruct s as [|a [|b s]]; [intros [= <- <-]; by exists []..|].
  destruct (_ && _) eqn:E; [|intros [= <- <-]; by exists []].
  pose proof (spanDigits_reads (b :: s)) as (pre & Hs & Hp). cbn [tail].
  destruct (spanDigits (b :: s)) as [ds r']. intros (k & _ & [= _ <-])%bind_Some.
  exists ([a] ++ pre). rewrite Hs. split; [done|]. rewrite noBreak_app. split; [|done].
  apply noBreak_one. apply andb_true_iff in E as [E _]. cmp_lia.
Qed.

Lemma getzone_reads s : reads (getzone s) s.
Proof.
  intros n r. destruct s as [|a s]; [done|]. cbn [getzone].
  destruct (Z.eqb_spec (val a) 90).
  { intros [= <- <-]. exists [a]. split; [done|]. apply noBreak_one. lia. }
  intros ([hh s1] & H1 & H)%bind_Some. apply bind_Some in H as (s2 & H2 & H).
  apply bind_Some in H as ([mm s3] & H3 & H).
  apply (between_reads _ _ _ _ (getnum_reads _ _)) in H1 as (p1 & -> & Hp1).
  apply literal_reads in H2 as (p2 & -> & Hp2); [|done].
  apply (between_reads _ _ _ _ (getnum_reads _ _)) in H3 as (p3 & -> & Hp3).
  exists ([a] ++ p1 ++ p2 ++ p3). rewrite !noBreak_app. cbn.
  destruct (Z.eqb_spec (val a) 43), (Z.eqb_spec (val a) 45); simplify_eq;
    rewrite <- !(assoc_L (++)); (split; [done|]); split_and!; try done; apply noBreak_one; lia.
Qed.

Ltac read_step H :=
  first
  [ apply bind_Some in H as ([? ?] & ?%getyear_reads & H)
  | apply bind_Some in H as ([? ?] & ?%(between_reads _ _ _ _ (getnum_reads _ _)) & H)
  | apply bind_Some in H as ([? ?] & ?%getnum_reads & H)
  | apply bind_Some in H as ([? ?] & ?%getfraction_reads & H)
  | apply bind_Some in H as ([? ?] & ?%getzone_reads & H)
  | apply bind_Some in H as (? & ?%literal_reads & H); [|done] ].

Lemma ParseRFC3339_noBreak s t : ParseRFC3339 s = Some t → noBreak s.
Proof.
  unfold ParseRFC3339. intros H. repeat read_step H. 
  destruct (bool_decide _) eqn:E in H; [|done]. apply bool_decide_eq_true in E. subst.
  repeat match goal with H : ∃ _, _ |- _ => destruct H as (? & -> & ?) end.
  rewrite !noBreak_app. split_and!; done.
Qed.
