(* ===== verification/RelayIdentity.v ===== *)
(** Relay registration requests and their two proofs
    (src/libs/openrung/internal/relay/types.go, identity.go,
    wss_capability.go): the stable-identity statement
    "openrung-relay-identity-v1", the relay ID derived from the identity key,
    and the separately signed WSS capability.

    SHA-256, Ed25519, [json.Marshal] of the capability payload and the URL
    functions of the front normaliser are parameters.  Decoding ([time.Parse],
    base64, [strconv.Itoa], [strings.Join]) is modelled by Codec and GoTime. *)
From stdpp Require Import base list list_numbers strings.
From Stdlib Require Import ZArith Lia.
From S2P Require Import Prelude Codec GoTime Directory Fronts Ticket.

(** * Data *)
Record RegisterRequest := {
  rq_PublicHost : string;
  rq_PublicPort : Z;
  rq_Protocol : string;
  rq_ClientID : string;
  rq_RealityPublicKey : string;
  rq_ShortID : string;
  rq_ServerName : string;
  rq_Flow : string;
  rq_ExitMode : string;
  rq_MaxSessions : Z;
  rq_MaxMbps : Z;
  rq_RelayVersion : string;
  rq_Label : string;
  rq_NodeClass : string;
  rq_Transport : string;
  rq_PunchCapable : bool;
  rq_PunchEndpoint : string;
  rq_WSSFronts : list Front;
  rq_WSSCapabilityProof : string;
  rq_WSSCapabilityExpiresAt : string;
  rq_ExitHost : string;
  rq_IdentityPublicKey : string;
  rq_IdentityProof : string;
  rq_IdentityExpiresAt : string
}.

(** The integer fields hold Go [int]s. *)
Definition int_fields (r : RegisterRequest) : Prop :=
  in_int64 (rq_PublicPort r) ∧ in_int64 (rq_MaxSessions r) ∧ in_int64 (rq_MaxMbps r).

Inductive ProofError :=
| ErrIdentityIncomplete
| ErrIdentityProofExpired
| ErrIdentityProofInvalid
| ErrWSSCapabilityIncomplete
| ErrWSSCapabilityExpired
| ErrWSSCapabilityInvalid
| ErrWSSFrontInvalid
| ErrWSSSigner.

Definition IdentitySpecV1 : string := "openrung-relay-identity-v1".
Definition WSSCapabilitySpecV1 : string := "openrung-relay-wss-capability-v1".
Definition TransportTunnel : string := "tunnel".
Definition ExitModeDedicated : string := "dedicated".
Definition MaxIdentityProofWindow : Z := 48 * hour.
Definition IdentityProofTTLDirect : Z := 24 * hour.
Definition IdentityProofTTLTunnel : Z := 24 * hour.
Definition MaxWSSCapabilityProofWindow : Z := MaxIdentityProofWindow.
Definition newline : byte := chr 10.

(** * The identity statement *)
Definition statementTransport (req : RegisterRequest) : string :=
  if str_empty (TrimSpace (rq_Transport req)) then TransportDirect else rq_Transport req.

Definition statementNodeClass (req : RegisterRequest) : string :=
  if str_empty (TrimSpace (rq_NodeClass req)) then NodeClassVolunteer else rq_NodeClass req.

Definition statementFields (req : RegisterRequest) (expiresAt : string) : list (list byte) :=
  let transport := statementTransport req in
  let tunnel := str_eqb transport TransportTunnel in
  let host := if tunnel then ""%string else rq_PublicHost req in
  let port := if tunnel then 0 else rq_PublicPort req in
  [ bytes IdentitySpecV1; bytes expiresAt; bytes transport; bytes host; FormatInt port;
    bytes (rq_ClientID req); bytes (rq_RealityPublicKey req); bytes (rq_ShortID req);
    bytes (rq_ServerName req); bytes (rq_Flow req); bytes (rq_ExitMode req);
    FormatInt (rq_MaxSessions req); FormatInt (rq_MaxMbps req); bytes (rq_Label req);
    bytes (statementNodeClass req) ].

Definition IdentityStatement (req : RegisterRequest) (expiresAt : string) : list byte :=
  joinWith newline (statementFields req expiresAt).

(** [strings.ContainsAny(value, "\n\r")] of any bound field. *)
Definition hasLineBreak (s : string) : bool := existsb isCRLF (bytes s).

Definition ValidateIdentityFields (req : RegisterRequest) : bool :=
  forallb (λ v, negb (hasLineBreak v))
    [ rq_PublicHost req; rq_ClientID req; rq_RealityPublicKey req; rq_ShortID req;
      rq_ServerName req; rq_Flow req; rq_ExitMode req; rq_Label req; rq_NodeClass req;
      rq_Transport req ].

(** ["relay_"] and 32 lowercase hexadecimal digits. *)
Definition relayPrefix : string := "relay_".
Definition lowerHex (c : byte) : bool :=
  ((48 <=? val c) && (val c <=? 57)) || ((97 <=? val c) && (val c <=? 102)).

Definition WellFormedRelayID (id : string) : bool :=
  let bs := bytes id in
  let n := length (bytes relayPrefix) in
  (length bs =? n + 32)%nat && bool_decide (take n bs = bytes relayPrefix) &&
  forallb lowerHex (drop n bs).

Section identity.
#[local] Set Default Proof Using "Type".
Context (Sum256 Public : list byte → list byte) (edSign : list byte → list byte → list byte).
Context (edVerify : list byte → list byte → list byte → bool).

Definition SignIdentity (priv : list byte) (req : RegisterRequest) (expiresAt : Z)
    : string * string * string :=
  let expires := text (FormatRFC3339 expiresAt) in
  let signature := edSign priv (IdentityStatement req expires) in
  (text (stdEncode (Public priv)), text (stdEncode signature), expires).

(** [Ok None] is the nil key of a request without identity fields. *)
Definition VerifyIdentity (req : RegisterRequest) (now : Z)
    : result ProofError (option (list byte)) :=
  let noKey := str_empty (rq_IdentityPublicKey req) in
  let noProof := str_empty (rq_IdentityProof req) in
  let noExpiry := str_empty (rq_IdentityExpiresAt req) in
  if noKey && noProof && noExpiry then Ok None else
  if noKey || noProof || noExpiry then Err ErrIdentityIncomplete else
  if negb (ValidateIdentityFields req) then Err ErrIdentityProofInvalid else
  match stdDecode (bytes (rq_IdentityPublicKey req)) with
  | None => Err ErrIdentityProofInvalid
  | Some publicKey =>
      if negb (length publicKey =? PublicKeySize)%nat then Err ErrIdentityProofInvalid else
      match stdDecode (bytes (rq_IdentityProof req)) with
      | None => Err ErrIdentityProofInvalid
      | Some signature =>
          if negb (length signature =? SignatureSize)%nat then Err ErrIdentityProofInvalid else
          match ParseRFC3339 (bytes (rq_IdentityExpiresAt req)) with
          | None => Err ErrIdentityProofInvalid
          | Some expires =>
              if negb (time_after expires now) then Err ErrIdentityProofExpired else
              if time_after expires (time_add now MaxIdentityProofWindow)
              then Err ErrIdentityProofInvalid else
              if negb (edVerify publicKey (IdentityStatement req (rq_IdentityExpiresAt req)) signature)
              then Err ErrIdentityProofInvalid else Ok (Some publicKey)
          end
      end
  end.

Definition DeriveRelayID (publicKey : list byte) : string :=
  let sum := Sum256 (bytes (IdentitySpecV1 ++ ":id:") ++ publicKey) in
  text (bytes relayPrefix ++ hexEncode (take 16 sum)).

(** What an identity proof binds.  The endpoint is bound only for the direct
    transport. *)
Record bound_equal (r q : RegisterRequest) : Prop := {
  be_transport : statementTransport r = statementTransport q;
  be_endpoint : statementTransport r ≠ TransportTunnel →
                rq_PublicHost r = rq_PublicHost q ∧ rq_PublicPort r = rq_PublicPort q;
  be_client : rq_ClientID r = rq_ClientID q;
  be_reality : rq_RealityPublicKey r = rq_RealityPublicKey q;
  be_short : rq_ShortID r = rq_ShortID q;
  be_server : rq_ServerName r = rq_ServerName q;
  be_flow : rq_Flow r = rq_Flow q;
  be_exit : rq_ExitMode r = rq_ExitMode q;
  be_sessions : rq_MaxSessions r = rq_MaxSessions q;
  be_mbps : rq_MaxMbps r = rq_MaxMbps q;
  be_label : rq_Label r = rq_Label q;
  be_class : statementNodeClass r = statementNodeClass q
}.

(** * The statement is unambiguous *)
Lemma hasLineBreak_lacks v : hasLineBreak v = false → lacks 10 (bytes v) = true.
Proof.
  unfold hasLineBreak, lacks. induction (bytes v) as [|c l IH]; [done|]. cbn.
  rewrite orb_false_iff. intros [Hc Hl]. rewrite (IH Hl), andb_true_r, negb_true_iff, N.eqb_neq.
  unfold isCRLF, val in Hc. cmp_lia.
Qed.

Lemma ValidateIdentityFields_lacks req :
  ValidateIdentityFields req = true →
  Forall (λ v, lacks 10 (bytes v) = true)
    [ rq_PublicHost req; rq_ClientID req; rq_RealityPublicKey req; rq_ShortID req;
      rq_ServerName req; rq_Flow req; rq_ExitMode req; rq_Label req; rq_NodeClass req;
      rq_Transport req ].
Proof.
  unfold ValidateIdentityFields. rewrite forallb_forall, Forall_forall.
  intros H v Hv. apply hasLineBreak_lacks. apply negb_true_iff, H. by apply list_elem_of_In.
Qed.

Lemma statementFields_lacks req e :
  ValidateIdentityFields req = true → lacks 10 (bytes e) = true →
  Forall (λ p, lacks (byte_of newline) p = true) (statementFields req e).
Proof.
  intros H%ValidateIdentityFields_lacks He. rewrite !Forall_cons in H. destruct_and! H.
  change (byte_of newline) with 10%N. unfold statementFields, statementTransport, statementNodeClass.
  repeat (apply Forall_cons; split); try apply Forall_nil_2; try done;
    repeat case_match; auto using FormatInt_noBreak.
Qed.

Lemma IdentityStatement_binds r q e f :
  ValidateIdentityFields r = true → lacks 10 (bytes e) = true → int_fields r → int_fields q →
  IdentityStatement r e = IdentityStatement q f → e = f ∧ bound_equal r q.
Proof.
  intros Hv He (P1 & S1 & M1) (P2 & S2 & M2) H.
  apply joinWith_inj in H; [|done|by apply statementFields_lacks].
  unfold statementFields in H. injection H as He' Ht Hh Hp Hc Hk Hs Hn Hf Hx Hse Hm Hl Hcl.
  repeat match goal with E : bytes _ = bytes _ |- _ => apply (inj bytes) in E end.
  apply FormatInt_inj in Hse, Hm; try done. split; [done|]. constructor; try done.
  intros Htun. rewrite <- Ht in Hh, Hp.
  assert (str_eqb (statementTransport r) TransportTunnel = false) as Eb
    by (by apply bool_decide_eq_false).
  rewrite Eb in Hh, Hp. apply FormatInt_inj in Hp; done.
Qed.

(** * What verification establishes *)
Lemma VerifyIdentity_inv req now key :
  VerifyIdentity req now = Ok (Some key) →
  ∃ signature expires,
    stdDecode (bytes (rq_IdentityPublicKey req)) = Some key ∧ length key = PublicKeySize ∧
    stdDecode (bytes (rq_IdentityProof req)) = Some signature ∧ length signature = SignatureSize ∧
    ParseRFC3339 (bytes (rq_IdentityExpiresAt req)) = Some expires ∧
    now < expires ≤ now + MaxIdentityProofWindow ∧
    ValidateIdentityFields req = true ∧
    edVerify key (IdentityStatement req (rq_IdentityExpiresAt req)) signature = true.
Proof.
  unfold VerifyIdentity. intros H. repeat (case_match; try done); simplify_eq.
  repeat match goal with
  | E : negb _ = false |- _ => apply negb_false_iff in E
  | E : (_ =? _)%nat = true |- _ => apply Nat.eqb_eq in E
  end.
  do 2 eexists. split_and!; try done; unfold time_after, time_add in *; cmp_lia.
Qed.

(** * The WSS capability *)
Record wssCapabilityPayload := { IdentityStatementSHA256 : string; PayloadFronts : list Front }.

Context (ToLower : string → string) (EqualFold : string → string → bool).
Context (urlParse : string → option URL) (urlString : URL → string).
Context (Hostname Port : URL → string) (isIPLiteral : string → bool).
(** [json.Marshal] of the payload. *)
Context (Marshal : wssCapabilityPayload → option (list byte)).

Definition NormalizeWSSFronts (fronts : list Front) : result ProofError (list Front) :=
  match NormalizeFronts ToLower EqualFold urlParse urlString Hostname Port isIPLiteral fronts with
  | Ok normalized => Ok normalized
  | Err _ => Err ErrWSSFrontInvalid
  end.

Definition wssEligible (req : RegisterRequest) : bool :=
  let t := ToLower (TrimSpace (rq_Transport req)) in
  let transport := if str_empty t then TransportDirect else t in
  str_eqb transport TransportDirect && str_eqb (rq_NodeClass req) NodeClassFoundation &&
  str_eqb (rq_ExitMode req) ExitModeDirect && (rq_PublicPort req =? 443).

Definition validateWSSCapabilityEligibility (req : RegisterRequest) : result ProofError unit :=
  if wssEligible req then Ok tt else Err ErrWSSCapabilityInvalid.

Definition WSSCapabilityStatement (req : RegisterRequest) (expires : string)
    : result ProofError (list byte) :=
  let? fronts := NormalizeWSSFronts (rq_WSSFronts req) in
  let identityDigest := Sum256 (IdentityStatement req (rq_IdentityExpiresAt req)) in
  match Marshal {| IdentityStatementSHA256 := text (rawStdEncode identityDigest);
                   PayloadFronts := fronts |} with
  | None => Err ErrWSSSigner
  | Some payload =>
      Ok (bytes WSSCapabilitySpecV1 ++ newline :: bytes expires ++ newline :: rawStdEncode payload)
  end.

Definition SignWSSCapability (priv : list byte) (req : RegisterRequest) (expiresAt : Z)
    : result ProofError (string * string) :=
  if negb (length priv =? PrivateKeySize)%nat then Err ErrWSSSigner else
  let? _ := validateWSSCapabilityEligibility req in
  let? normalized := NormalizeWSSFronts (rq_WSSFronts req) in
  if (length normalized =? 0)%nat then Err ErrWSSCapabilityInvalid else
  if negb (bool_decide (normalized = rq_WSSFronts req)) then Err ErrWSSCapabilityInvalid else
  if str_empty (rq_IdentityPublicKey req) || str_empty (rq_IdentityProof req)
     || str_empty (rq_IdentityExpiresAt req) then Err ErrWSSCapabilityInvalid else
  if negb (str_eqb (rq_IdentityPublicKey req) (text (stdEncode (Public priv))))
  then Err ErrWSSCapabilityInvalid else
  let expires := text (FormatRFC3339 expiresAt) in
  if negb (str_eqb expires (rq_IdentityExpiresAt req)) then Err ErrWSSCapabilityInvalid else
  let? statement := WSSCapabilityStatement req expires in
  Ok (text (stdEncode (edSign priv statement)), expires).

Definition VerifyWSSCapability (req : RegisterRequest) (now : Z) : result ProofError unit :=
  let noFronts := (length (rq_WSSFronts req) =? 0)%nat in
  let noCapProof := str_empty (rq_WSSCapabilityProof req) in
  let noCapExpiry := str_empty (rq_WSSCapabilityExpiresAt req) in
  if noFronts && (noCapProof && noCapExpiry) then Ok tt else
  if noFronts || noCapProof || noCapExpiry then Err ErrWSSCapabilityIncomplete else
  if (MaxFronts <? length (rq_WSSFronts req))%nat then Err ErrWSSCapabilityInvalid else
  let? _ := validateWSSCapabilityEligibility req in
  match NormalizeWSSFronts (rq_WSSFronts req) with
  | Err _ => Err ErrWSSCapabilityInvalid
  | Ok normalized =>
      if negb (bool_decide (normalized = rq_WSSFronts req)) then Err ErrWSSCapabilityInvalid else
      match ParseRFC3339 (bytes (rq_WSSCapabilityExpiresAt req)) with
      | None => Err ErrWSSCapabilityInvalid
      | Some expiresAt =>
          if negb (time_after expiresAt now) then Err ErrWSSCapabilityExpired else
          if time_after expiresAt (time_add now MaxWSSCapabilityProofWindow)
          then Err ErrWSSCapabilityInvalid else
          if negb (bool_decide (ParseRFC3339 (bytes (rq_IdentityExpiresAt req)) = Some expiresAt))
          then Err ErrWSSCapabilityInvalid else
          match VerifyIdentity req now with
          | Ok (Some identityKey) =>
              match stdDecode (bytes (rq_WSSCapabilityProof req)) with
              | None => Err ErrWSSCapabilityInvalid
              | Some signature =>
                  if negb (length signature =? SignatureSize)%nat then Err ErrWSSCapabilityInvalid else
                  match WSSCapabilityStatement req (rq_WSSCapabilityExpiresAt req) with
                  | Err _ => Err ErrWSSCapabilityInvalid
                  | Ok statement =>
                      if negb (edVerify identityKey statement signature)
                      then Err ErrWSSCapabilityInvalid else Ok tt
                  end
              end
          | _ => Err ErrWSSCapabilityInvalid
          end
      end
  end.

Lemma VerifyWSSCapability_inv req now :
  VerifyWSSCapability req now = Ok tt → rq_WSSFronts req ≠ [] →
  ∃ key statement signature expiresAt,
    VerifyIdentity req now = Ok (Some key) ∧ wssEligible req = true ∧
    NormalizeWSSFronts (rq_WSSFronts req) = Ok (rq_WSSFronts req) ∧
    ParseRFC3339 (bytes (rq_WSSCapabilityExpiresAt req)) = Some expiresAt ∧
    ParseRFC3339 (bytes (rq_IdentityExpiresAt req)) = Some expiresAt ∧
    now < expiresAt ≤ now + MaxWSSCapabilityProofWindow ∧
    WSSCapabilityStatement req (rq_WSSCapabilityExpiresAt req) = Ok statement ∧
    edVerify key statement signature = true.
Proof.
  unfold VerifyWSSCapability, validateWSSCapabilityEligibility. intros H Hne.
  assert ((length (rq_WSSFronts req) =? 0)%nat = false) as E0
    by (apply Nat.eqb_neq; by destruct (rq_WSSFronts req)).
  rewrite E0 in H. cbn [andb orb] in H. repeat (case_match; try done); simplify_eq.
  repeat match goal with
  | E : negb _ = false |- _ => apply negb_false_iff in E
  | E : bool_decide _ = true |- _ => apply bool_decide_eq_true in E
  end. subst.
  do 4 eexists. split_and!; try done; unfold time_after, time_add in *; cmp_lia.
Qed.

(** The statement of a canonical front set, and what it determines. *)
Lemma WSSCapabilityStatement_inv req e m :
  WSSCapabilityStatement req e = Ok m →
  ∃ fronts payload,
    NormalizeWSSFronts (rq_WSSFronts req) = Ok fronts ∧
    Marshal {| IdentityStatementSHA256 :=
                 text (rawStdEncode (Sum256 (IdentityStatement req (rq_IdentityExpiresAt req))));
               PayloadFronts := fronts |} = Some payload ∧
    m = joinWith newline [bytes WSSCapabilitySpecV1; bytes e; rawStdEncode payload].
Proof.
  unfold WSSCapabilityStatement. intros H. repeat (case_match; try done). simplify_eq. eauto.
Qed.

(** * Binding

    The key's owner signed the identity statements of [registered] and the
    capability statements of [capable], and nothing else verifies under it. *)
Record honest_signer (key : list byte) (registered capable : list (RegisterRequest * string)) : Prop := {
  hs_unforgeable m sg :
    edVerify key m sg = true →
    (∃ r e, (r, e) ∈ registered ∧ m = IdentityStatement r e) ∨
    (∃ r e, (r, e) ∈ capable ∧ WSSCapabilityStatement r e = Ok m);
  hs_ints r e : (r, e) ∈ registered → int_fields r
}.

Lemma statement_domains r e ps :
  IdentityStatement r e ≠ joinWith newline (bytes WSSCapabilitySpecV1 :: ps).
Proof.
  unfold IdentityStatement, statementFields. cbn [joinWith].
  assert (∀ a b, bytes IdentitySpecV1 ++ a ≠ bytes WSSCapabilitySpecV1 ++ b) as H by done.
  destruct ps; [|apply H]. rewrite <- (app_nil_r (bytes WSSCapabilitySpecV1)). apply H.
Qed.

(** C28: A registration accepted under an identity key carries exactly the
    fields that key's owner signed for that very expiry string: transport,
    endpoint (for direct transport), Reality key, limits, label and node class
    cannot be altered, a tunnel proof cannot be replayed as a direct
    registration, a capability proof cannot be replayed as an identity proof,
    and the proof is unexpired and at most 48 hours ahead. *)
Theorem identity_proof_binds (req : RegisterRequest) (now : Z) (key : list byte)
    (registered capable : list (RegisterRequest * string)) :
  honest_signer key registered capable → int_fields req →
  VerifyIdentity req now = Ok (Some key) →
  ∃ r, (r, rq_IdentityExpiresAt req) ∈ registered ∧ bound_equal req r ∧
    ∃ expires, ParseRFC3339 (bytes (rq_IdentityExpiresAt req)) = Some expires ∧
      now < expires ≤ now + MaxIdentityProofWindow.
Proof.
  intros [Hu Hi] Hints H.
  apply VerifyIdentity_inv in H as (sg & ex & _ & _ & _ & _ & Hex & Hwin & Hval & Hsig).
  apply Hu in Hsig as [(r & e & Hr & E)|(r & e & _ & E)].
  - pose proof (ParseRFC3339_noBreak _ _ Hex) as Hnb.
    apply IdentityStatement_binds in E as [<- Hb]; eauto 10.
  - apply WSSCapabilityStatement_inv in E as (? & ? & _ & _ & E). by apply statement_domains in E.
Qed.

(** [json.Marshal] tells canonical payloads apart. *)
Definition marshal_faithful : Prop := ∀ p q x,
  NormalizeWSSFronts (PayloadFronts p) = Ok (PayloadFronts p) → Marshal p = Some x →
  Marshal q = Some x → p = q.

(** A registration that advertises fronts is accepted only if its identity
    proof verifies, it is a direct-transport direct-exit Foundation relay on
    port 443, its front list is already canonical, and the identity key's
    owner signed a capability over that very front list, for that very expiry
    string, and over an identity statement with the same digest. *)
Lemma wss_capability_binds (req : RegisterRequest) (now : Z) (key : list byte)
    (registered capable : list (RegisterRequest * string)) :
  marshal_faithful → honest_signer key registered capable →
  VerifyIdentity req now = Ok (Some key) →
  VerifyWSSCapability req now = Ok tt → rq_WSSFronts req ≠ [] →
  wssEligible req = true ∧
  ∃ r, (r, rq_WSSCapabilityExpiresAt req) ∈ capable ∧
    NormalizeWSSFronts (rq_WSSFronts r) = Ok (rq_WSSFronts req) ∧
    Sum256 (IdentityStatement r (rq_IdentityExpiresAt r)) =
      Sum256 (IdentityStatement req (rq_IdentityExpiresAt req)).
Proof.
  intros Hmf [Hu _] Hid H Hne.
  apply VerifyWSSCapability_inv in H as (k & m & sg & ex & Hk & Hel & Hn & He & _ & _ & Hm & Hsig); [|done].
  rewrite Hid in Hk. simplify_eq. split; [done|].
  apply WSSCapabilityStatement_inv in Hm as (fs & p & Hfs & Hp & ->). rewrite Hn in Hfs. simplify_eq.
  apply Hu in Hsig as [(r & e & _ & E)|(r & e & Hr & E)].
  { symmetry in E. by apply statement_domains in E. }
  apply WSSCapabilityStatement_inv in E as (fs' & p' & Hfs' & Hp' & E).
  apply joinWith_inj in E; [|done|].
  - injection E as E1 E2. apply (inj bytes) in E1. apply (inj rawStdEncode) in E2. subst p' e.
    pose proof (λ h, Hmf _ _ _ h Hp Hp') as E. specialize (E Hn). injection E as E3 E4.
    apply (inj text), (inj rawStdEncode) in E3. exists r. by rewrite Hfs', E3, E4.
  - change (byte_of newline) with 10%N.
    pose proof (ParseRFC3339_noBreak _ _ He). rewrite !Forall_cons.
    split_and!; auto using rawStdEncode_lacks.
Qed.

(** The request with its identity fields filled in. *)
Definition withIdentity (req : RegisterRequest) (id : string * string * string) : RegisterRequest :=
  let '(key, proof, expires) := id in
  {| rq_PublicHost := rq_PublicHost req; rq_PublicPort := rq_PublicPort req;
     rq_Protocol := rq_Protocol req; rq_ClientID := rq_ClientID req;
     rq_RealityPublicKey := rq_RealityPublicKey req; rq_ShortID := rq_ShortID req;
     rq_ServerName := rq_ServerName req; rq_Flow := rq_Flow req; rq_ExitMode := rq_ExitMode req;
     rq_MaxSessions := rq_MaxSessions req; rq_MaxMbps := rq_MaxMbps req;
     rq_RelayVersion := rq_RelayVersion req; rq_Label := rq_Label req;
     rq_NodeClass := rq_NodeClass req; rq_Transport := rq_Transport req;
     rq_PunchCapable := rq_PunchCapable req; rq_PunchEndpoint := rq_PunchEndpoint req;
     rq_WSSFronts := rq_WSSFronts req; rq_WSSCapabilityProof := rq_WSSCapabilityProof req;
     rq_WSSCapabilityExpiresAt := rq_WSSCapabilityExpiresAt req; rq_ExitHost := rq_ExitHost req;
     rq_IdentityPublicKey := key; rq_IdentityProof := proof; rq_IdentityExpiresAt := expires |}.

Lemma text_nonempty bs : bs ≠ [] → str_empty (text bs) = false.
Proof. intros H. apply bool_decide_eq_false. intros E. apply H. by apply (inj text). Qed.

Lemma stdEncode_nonempty bs : bs ≠ [] → stdEncode bs ≠ [].
Proof. intros Hb E. apply (f_equal stdDecode) in E. rewrite stdDecode_stdEncode in E. by injection E. Qed.

(** A request whose identity fields carry a signature of its own statement. *)
Lemma signed_statement_verifies (priv : list byte) (req : RegisterRequest) (t now : Z) :
  (∀ m, edVerify (Public priv) m (edSign priv m) = true) →
  length (Public priv) = PublicKeySize → (∀ m, length (edSign priv m) = SignatureSize) →
  ValidateIdentityFields req = true → fourDigitYear t = true →
  now < t / second * second ≤ now + MaxIdentityProofWindow →
  (rq_IdentityPublicKey req, rq_IdentityProof req, rq_IdentityExpiresAt req) = SignIdentity priv req t →
  VerifyIdentity req now = Ok (Some (Public priv)).
Proof.
  intros Hed Hpub Hsig Hval Hy Hwin. unfold SignIdentity. intros [[Hk Hp]%pair_equal_spec He]%pair_equal_spec.
  unfold VerifyIdentity. rewrite Hk, Hp, He.
  set (m := IdentityStatement req (text (FormatRFC3339 t))).
  assert (FormatRFC3339 t ≠ []) as Hf.
  { intros E. pose proof (Parse_Format t Hy) as H. by rewrite E in H. }
  assert (Public priv ≠ []) as Hp0 by (intros E; by rewrite E in Hpub).
  assert (edSign priv m ≠ []) as Hs0 by (intros E; specialize (Hsig m); by rewrite E in Hsig).
  rewrite !text_nonempty, !bytes_text, !stdDecode_stdEncode, Parse_Format
    by auto using stdEncode_nonempty.
  cbn [andb orb]. rewrite Hval. cbn [negb].
  rewrite Hpub, Hsig, !Nat.eqb_refl. cbn [negb].
  unfold time_after, time_add. rewrite (proj2 (Z.ltb_lt _ _)), (proj2 (Z.ltb_ge _ _)) by lia. cbn [negb].
  by rewrite Hed.
Qed.

(** What a relay signs with [SignIdentity] the broker accepts, under the
    relay's public key, whenever the bound fields are free of line breaks and
    the expiry, truncated to whole seconds, lies in the next 48 hours. *)
Lemma sign_identity_verifies (priv : list byte) (req : RegisterRequest) (t now : Z) :
  (∀ m, edVerify (Public priv) m (edSign priv m) = true) →
  length (Public priv) = PublicKeySize → (∀ m, length (edSign priv m) = SignatureSize) →
  ValidateIdentityFields req = true → fourDigitYear t = true →
  now < t / second * second ≤ now + MaxIdentityProofWindow →
  VerifyIdentity (withIdentity req (SignIdentity priv req t)) now = Ok (Some (Public priv)).
Proof. intros. by apply (signed_statement_verifies priv _ t). Qed.
End identity.

(** * Examples *)
Definition exampleRequest0 : RegisterRequest :=
  {| rq_PublicHost := "203.0.113.7"; rq_PublicPort := 443; rq_Protocol := "vless-reality-vision";
     rq_ClientID := "c"; rq_RealityPublicKey := "k"; rq_ShortID := "s"; rq_ServerName := "n";
     rq_Flow := "xtls-rprx-vision"; rq_ExitMode := "direct"; rq_MaxSessions := 4; rq_MaxMbps := 10;
     rq_RelayVersion := "1"; rq_Label := "l"; rq_NodeClass := "foundation"; rq_Transport := "";
     rq_PunchCapable := false; rq_PunchEndpoint := ""; rq_WSSFronts := [exampleFront "cdn-a"];
     rq_WSSCapabilityProof := text (stdEncode (replicate 64 (chr 2)));
     rq_WSSCapabilityExpiresAt := "2026-07-22T12:00:00Z"; rq_ExitHost := "";
     rq_IdentityPublicKey := text (stdEncode (replicate 32 (chr 1)));
     rq_IdentityProof := text (stdEncode (replicate 64 (chr 2)));
     rq_IdentityExpiresAt := "2026-07-22T12:00:00Z" |}.
Definition exampleNow : Z := 1784635200 * second.
Definition exampleIdentityKey : list byte := replicate 32 (chr 1).
Definition exampleDigest (bs : list byte) : list byte := [chr (Z.of_nat (length bs))].
Definition examplePayload : wssCapabilityPayload :=
  {| IdentityStatementSHA256 := text (rawStdEncode (exampleDigest
       (IdentityStatement exampleRequest0 "2026-07-22T12:00:00Z")));
     PayloadFronts := [exampleFront "cdn-a"] |}.
#[global] Instance wssCapabilityPayload_eq_dec : EqDecision wssCapabilityPayload.
Proof. solve_decision. Defined.
Definition examplePayloadMarshal (p : wssCapabilityPayload) : option (list byte) :=
  if bool_decide (p = examplePayload) then Some [chr 123; chr 125] else None.
Definition exampleCapability : result ProofError (list byte) :=
  WSSCapabilityStatement exampleDigest (λ s, s) str_eqb exampleParse exampleString Host
    (λ _, ""%string) (λ _, false) examplePayloadMarshal exampleRequest0 "2026-07-22T12:00:00Z".
Definition exampleIdentityVerify (key m sg : list byte) : bool :=
  bool_decide (m = IdentityStatement exampleRequest0 "2026-07-22T12:00:00Z") ||
  match exampleCapability with Ok c => bool_decide (m = c) | Err _ => false end.
Definition exampleSigned : list (RegisterRequest * string) := [(exampleRequest0, "2026-07-22T12:00:00Z"%string)].

Lemma example_honest :
  honest_signer exampleDigest exampleIdentityVerify (λ s, s) str_eqb exampleParse exampleString Host
    (λ _, ""%string) (λ _, false) examplePayloadMarshal exampleIdentityKey exampleSigned exampleSigned.
Proof.
  split.
  - intros m sg [->%bool_decide_eq_true|H]%orb_true_iff; [left|right];
      exists exampleRequest0, "2026-07-22T12:00:00Z"%string; (split; [by left|]); [done|].
    destruct exampleCapability as [c|] eqn:E; [|done]. apply bool_decide_eq_true in H as ->. exact E.
  - intros r e [= -> ->]%list_elem_of_singleton.
    split_and!; apply Z.leb_le || (split; apply Z.leb_le); reflexivity.
Qed.

Lemma identity_proof_binds_witness :
  VerifyIdentity exampleIdentityVerify exampleRequest0 exampleNow = Ok (Some exampleIdentityKey) ∧
  ∃ r, (r, rq_IdentityExpiresAt exampleRequest0) ∈ exampleSigned ∧ bound_equal exampleRequest0 r.
Proof.
  assert (VerifyIdentity exampleIdentityVerify exampleRequest0 exampleNow =
          Ok (Some exampleIdentityKey)) as H by (vm_compute; reflexivity).
  split; [exact H|].
  destruct (identity_proof_binds _ _ _ _ _ _ _ _ _ _ exampleRequest0 exampleNow exampleIdentityKey
    exampleSigned exampleSigned example_honest) as (r & Hr & Hb & _); [|exact H|by exists r].
  split_and!; apply Z.leb_le || (split; apply Z.leb_le); reflexivity.
Defined.

Lemma wss_capability_binds_witness :
  VerifyWSSCapability exampleDigest exampleIdentityVerify (λ s, s) str_eqb exampleParse exampleString
    Host (λ _, ""%string) (λ _, false) examplePayloadMarshal exampleRequest0 exampleNow = Ok tt ∧
  ∃ r, (r, rq_WSSCapabilityExpiresAt exampleRequest0) ∈ exampleSigned.
Proof.
  assert (VerifyWSSCapability exampleDigest exampleIdentityVerify (λ s, s) str_eqb exampleParse
    exampleString Host (λ _, ""%string) (λ _, false) examplePayloadMarshal exampleRequest0 exampleNow
    = Ok tt) as H by (vm_compute; reflexivity).
  split; [exact H|].
  destruct (wss_capability_binds exampleDigest exampleIdentityVerify (λ s, s) str_eqb exampleParse
    exampleString Host (λ _, ""%string) (λ _, false) examplePayloadMarshal exampleRequest0 exampleNow
    exampleIdentityKey exampleSigned exampleSigned) as (_ & r & Hr & _);
    [|exact example_honest|vm_compute; reflexivity|exact H|done|by exists r].
  intros p q x _. unfold examplePayloadMarshal. do 2 case_bool_decide; congruence.
Defined.

Lemma sign_identity_verifies_witness :
  let pub := λ k : list byte, take 32 k in
  let sign := λ k m : list byte, replicate 64 (chr (Z.of_nat (length m))) in
  let verify := λ k m sg : list byte, bool_decide (sg = replicate 64 (chr (Z.of_nat (length m)))) in
  let priv := replicate 64 (chr 7) in
  VerifyIdentity verify
    (withIdentity exampleRequest0 (SignIdentity pub sign priv exampleRequest0 (exampleNow + 3600 * second + 5)))
    exampleNow = Ok (Some (replicate 32 (chr 7))).
Proof.
  intros pub sign verify priv. change (replicate 32 (chr 7)) with (pub priv).
  apply (sign_identity_verifies pub sign verify priv exampleRequest0 (exampleNow + 3600 * second + 5) exampleNow).
  - intros m. apply bool_decide_eq_true. reflexivity.
  - reflexivity.
  - intros m. apply length_replicate.
  - vm_compute. reflexivity.
  - vm_compute. reflexivity.
  - split; [apply Z.ltb_lt|apply Z.leb_le]; vm_compute; reflexivity.
Defined.
