(* ===== verification/Ranking.v ===== *)
(** The broker's relay descriptors and their ranking
    (src/libs/openrung/internal/relay/types.go,
    src/libs/openrung/internal/broker/ranking.go).

    The score is computed in float64.  [Float64] is the arithmetic the code
    uses, so that what does not depend on rounding holds for every instance;
    [exact] instantiates it with rational numbers, where the claims of the
    weights' comments are decided.  [GoSort] is what the sort package
    promises. *)
From stdpp Require Import base list gmap strings sorting.
From Stdlib Require Import ZArith QArith Lqa Lia.
From S2P Require Import Prelude Codec GoTime Directory Fronts Ticket RelayIdentity.
#[local] Open Scope Z_scope.

Record Descriptor := {
  dd_ID : string;
  dd_Label : string;
  dd_PublicHost : string;
  dd_PublicPort : Z;
  dd_Geo : RelayGeoLocation;
  dd_ExitHost : string;
  dd_IdentityPublicKey : string;
  dd_LeaseToken : string;
  dd_NodeClass : string;
  dd_Protocol : string;
  dd_ClientID : string;
  dd_RealityPublicKey : string;
  dd_ShortID : string;
  dd_ServerName : string;
  dd_Flow : string;
  dd_ExitMode : string;
  dd_MaxSessions : Z;
  dd_MaxMbps : Z;
  dd_RelayVersion : string;
  dd_Transport : string;
  dd_PunchCapable : bool;
  dd_PunchEndpoint : string;
  dd_WSSFronts : list Front;
  dd_RegisteredAt : Z;
  dd_LastHeartbeatAt : Z;
  dd_ExpiresAt : Z
}.

#[global] Instance Descriptor_eq_dec : EqDecision Descriptor.
Proof. solve_decision. Defined.

(** * Sorting as the sort package documents it *)
Definition strict_weak {A} (less : A → A → bool) : Prop :=
  (∀ x y, less x y = true → less y x = false) ∧
  (∀ x y z, less x z = true → less x y = true ∨ less y z = true).

Class GoSort := {
  sliceStable : ∀ {A}, (A → A → bool) → list A → list A;
  slice : ∀ {A}, (A → A → bool) → list A → list A;
  sliceStable_perm {A} (less : A → A → bool) l : sliceStable less l ≡ₚ l;
  sliceStable_stable {A} (less : A → A → bool) l :
    strict_weak less → sliceStable less l = stable_sort less l;
  slice_perm {A} (less : A → A → bool) l : slice less l ≡ₚ l;
  slice_sorted {A} (less : A → A → bool) l :
    strict_weak less → StronglySorted (λ a b, less b a = false) (slice less l)
}.

Definition insertionGoSort : GoSort :=
  {| sliceStable A less l := stable_sort less l; slice A less l := stable_sort less l;
     sliceStable_perm A less l := stable_sort_perm less l;
     sliceStable_stable A less l _ := eq_refl;
     slice_perm A less l := stable_sort_perm less l;
     slice_sorted A less l H := stable_sort_sorted less (proj1 H) (proj2 H) l |}.

(** * The arithmetic of scores *)
Class Float64 (F : Type) := {
  of_int : Z → F;
  fconst : Z → Z → F;
  fadd : F → F → F;
  fsub : F → F → F;
  fmul : F → F → F;
  fdiv : F → F → F;
  flt : F → F → bool
}.

Inductive RankingMode := RankingModeGlobal | RankingModeLegacy.

Definition rankingWindow : Z := 30 * minute.

Section ranking.
Context {F : Type} {float : Float64 F}.

Record metricValue := { total : F; count : Z }.

Record RelayMetricsSnapshot := {
  ActiveSessions : Z;
  Successes : Z;
  Failures : Z;
  TCPMS : metricValue;
  TunnelStartMS : metricValue;
  InternetProbeMS : metricValue;
  TTFBMS : metricValue;
  SpeedTests : Z;
  DownloadMbpsTotal : F
}.

Definition noMetric : metricValue := {| total := of_int 0; count := 0 |}.
Definition noSnapshot : RelayMetricsSnapshot :=
  {| ActiveSessions := 0; Successes := 0; Failures := 0; TCPMS := noMetric;
     TunnelStartMS := noMetric; InternetProbeMS := noMetric; TTFBMS := noMetric;
     SpeedTests := 0; DownloadMbpsTotal := of_int 0 |}.

Definition rankingReliabilityWeight : F := fconst 50 100.
Definition rankingHeadroomWeight : F := fconst 20 100.
Definition rankingLatencyWeight : F := fconst 20 100.
Definition rankingSpeedWeight : F := fconst 10 100.
Definition rankingMaxOverCapacityPenalty : F := fconst 4 100.

Definition clamp01 (value : F) : F :=
  if flt value (of_int 0) then of_int 0 else if flt (of_int 1) value then of_int 1 else value.

Definition average (v : metricValue) : F :=
  if count v =? 0 then of_int 0 else fdiv (total v) (of_int (count v)).

Definition addMetricValue (value : metricValue) (measured : Z) : metricValue :=
  if measured <=? 0 then value
  else {| total := fadd (total value) (of_int measured); count := wrap64 (count value + 1) |}.

Definition observedLatencyScore (s : RelayMetricsSnapshot) : F :=
  let '(sum, n) :=
    foldl (λ '(sum, n) v, if flt (of_int 0) v then (fadd sum v, n + 1) else (sum, n))
      (of_int 0, 0) [average (TCPMS s); average (InternetProbeMS s); average (TTFBMS s)] in
  if n =? 0 then fconst 5 10
  else fsub (of_int 1) (clamp01 (fdiv (fsub (fdiv sum (of_int n)) (of_int 100)) (of_int 1900))).

Definition observedSpeedScore (desc : Descriptor) (s : RelayMetricsSnapshot) : F :=
  if (SpeedTests s =? 0) || (dd_MaxMbps desc <=? 0) then fconst 5 10
  else clamp01 (fdiv (fdiv (DownloadMbpsTotal s) (of_int (SpeedTests s))) (of_int (dd_MaxMbps desc))).

Definition overCapacityPenalty (desc : Descriptor) (s : RelayMetricsSnapshot) : F :=
  if (dd_MaxSessions desc <=? 0) || (ActiveSessions s <=? dd_MaxSessions desc) then of_int 0
  else fmul rankingMaxOverCapacityPenalty
         (clamp01 (fdiv (of_int (wrap64 (ActiveSessions s - dd_MaxSessions desc)))
                        (of_int (dd_MaxSessions desc)))).

Definition relayScore (desc : Descriptor) (s : RelayMetricsSnapshot) : F :=
  let headroom :=
    if 0 <? dd_MaxSessions desc
    then clamp01 (fdiv (of_int (wrap64 (dd_MaxSessions desc - ActiveSessions s)))
                       (of_int (dd_MaxSessions desc)))
    else fconst 5 10 in
  let successRate := fdiv (of_int (wrap64 (Successes s + 1)))
                          (of_int (wrap64 (Successes s + Failures s + 2))) in
  let score :=
    fadd (fadd (fadd (fmul rankingReliabilityWeight successRate)
                     (fmul rankingHeadroomWeight headroom))
               (fmul rankingLatencyWeight (observedLatencyScore s)))
         (fmul rankingSpeedWeight (observedSpeedScore desc s)) in
  clamp01 (fsub score (overCapacityPenalty desc s)).

(** * Order *)
Context `{!GoSort} (IsIPv6Host : string → bool).

(** [math.Abs(l-r) > 0.000001] *)
Definition farApart (l r : F) : bool :=
  let d := fsub l r in
  flt (fconst 1 1000000) (if flt d (of_int 0) then fsub (of_int 0) d else d).

Definition candidateLess (score : string → F) (left right : Descriptor) : bool :=
  let ls := score (dd_ID left) in
  let rs := score (dd_ID right) in
  if farApart ls rs then flt rs ls
  else if negb (dd_LastHeartbeatAt left =? dd_LastHeartbeatAt right)
  then time_after (dd_LastHeartbeatAt left) (dd_LastHeartbeatAt right)
  else
    let l6 := IsIPv6Host (dd_PublicHost left) in
    let r6 := IsIPv6Host (dd_PublicHost right) in
    if xorb l6 r6 then l6 else String.ltb (dd_ID left) (dd_ID right).

Definition legacyLess (a b : Descriptor) : bool :=
  let a6 := IsIPv6Host (dd_PublicHost a) in
  let b6 := IsIPv6Host (dd_PublicHost b) in
  if xorb a6 b6 then a6 else time_after (dd_LastHeartbeatAt a) (dd_LastHeartbeatAt b).

Definition sortLegacyRelays (relays : list Descriptor) : list Descriptor := slice legacyLess relays.

Definition sortRelayCandidates (relays : list Descriptor)
    (snapshots : gmap string RelayMetricsSnapshot) (mode : RankingMode) : list Descriptor :=
  match mode with
  | RankingModeLegacy => sortLegacyRelays relays
  | RankingModeGlobal =>
      let scores : gmap string F :=
        foldl (λ m d, <[dd_ID d := relayScore d (default noSnapshot (snapshots !! dd_ID d))]> m)
          ∅ relays in
      sliceStable (candidateLess (λ id, default (of_int 0) (scores !! id))) relays
  end.

Lemma sortRelayCandidates_perm relays snapshots mode :
  sortRelayCandidates relays snapshots mode ≡ₚ relays.
Proof. destruct mode; [apply sliceStable_perm|apply slice_perm]. Qed.

Lemma legacyLess_strict_weak : strict_weak legacyLess.
Proof.
  unfold strict_weak, legacyLess, time_after. split; intros *.
  - destruct (IsIPv6Host (dd_PublicHost x)), (IsIPv6Host (dd_PublicHost y)); cbn; try done;
      rewrite !Z.ltb_lt, Z.ltb_ge; lia.
  - destruct (IsIPv6Host (dd_PublicHost x)), (IsIPv6Host (dd_PublicHost y)),
      (IsIPv6Host (dd_PublicHost z)); cbn; try tauto; try done; rewrite !Z.ltb_lt; lia.
Qed.
End ranking.
Arguments metricValue : clear implicits.
Arguments RelayMetricsSnapshot : clear implicits.

(** * Exact scores *)
#[local] Open Scope Q_scope.

Definition qlt (a b : Q) : bool := match (a ?= b)%Q with Lt => true | _ => false end.

Definition exact : Float64 Q :=
  {| of_int z := inject_Z z; fconst n d := Qmake n (Z.to_pos d);
     fadd := Qplus; fsub := Qminus; fmul := Qmult; fdiv := Qdiv; flt := qlt |}.

Lemma qlt_spec a b : qlt a b = true ↔ a < b.
Proof. unfold qlt. rewrite Qlt_alt. destruct (a ?= b); naive_solver. Qed.

Lemma qlt_false a b : qlt a b = false ↔ b <= a.
Proof.
  rewrite <- not_true_iff_false, qlt_spec. split; [apply Qnot_lt_le|apply Qle_not_lt].
Qed.

Section exact.
#[local] Existing Instance exact.

Lemma clamp01_cases (v : Q) :
  0 <= clamp01 v <= 1 ∧ (0 <= v <= 1 → clamp01 v == v).
Proof.
  unfold clamp01. cbn [flt of_int exact].
  destruct (qlt v (inject_Z 0)) eqn:E1; [apply qlt_spec in E1|apply qlt_false in E1].
  { unfold inject_Z in *. split; [lra|]. intros. lra. }
  destruct (qlt (inject_Z 1) v) eqn:E2; [apply qlt_spec in E2|apply qlt_false in E2];
    unfold inject_Z in *; (split; [lra|intros; lra]).
Qed.

Lemma latency_unit s : 0 <= observedLatencyScore s <= 1.
Proof.
  unfold observedLatencyScore. destruct (foldl _ _ _) as [sum n].
  destruct (n =? 0)%Z; cbn [fconst exact fsub of_int]; [split; by vm_compute|].
  match goal with |- context [clamp01 ?v] =>
    pose proof (proj1 (clamp01_cases v)); set (c := clamp01 v) in * end.
  unfold inject_Z. lra.
Qed.

Lemma speed_unit d s : 0 <= observedSpeedScore d s <= 1.
Proof.
  unfold observedSpeedScore. destruct (_ || _); cbn [fconst exact]; [split; by vm_compute|].
  apply clamp01_cases.
Qed.

Lemma penalty_unit d s : 0 <= overCapacityPenalty d s <= 4 # 100.
Proof.
  unfold overCapacityPenalty. destruct (_ || _); cbn [of_int exact]; [split; by vm_compute|].
  match goal with |- context [clamp01 ?v] =>
    pose proof (proj1 (clamp01_cases v)); set (c := clamp01 v) in * end.
  unfold rankingMaxOverCapacityPenalty. cbn [fconst exact fmul]. change (Z.to_pos 100) with 100%positive. lra.
Qed.

(** The share of successes, with the prior of one success in two. *)
Definition successShare (s : RelayMetricsSnapshot Q) : Q :=
  inject_Z (wrap64 (Successes s + 1)) / inject_Z (wrap64 (Successes s + Failures s + 2)).

(** The score is the weighted sum, up to the load of the relay: at least the
    sum without headroom less the largest penalty, at most the sum with full
    headroom. *)
Lemma relayScore_between d s :
  (0 < dd_MaxSessions d)%Z → 0 <= successShare s <= 1 →
  let base := (50 # 100) * successShare s + (20 # 100) * observedLatencyScore s
              + (10 # 100) * observedSpeedScore d s in
  base - (4 # 100) <= relayScore d s <= base + (20 # 100).
Proof.
  intros Hmax Hs base. pose proof (latency_unit s). pose proof (speed_unit d s).
  pose proof (penalty_unit d s).
  unfold relayScore. rewrite (proj2 (Z.ltb_lt _ _) Hmax).
  fold (successShare s). unfold rankingReliabilityWeight, rankingHeadroomWeight, rankingLatencyWeight,
    rankingSpeedWeight. cbn [fadd fsub fmul fdiv of_int fconst exact].
  fold (successShare s). change (Z.to_pos 100) with 100%positive.
  match goal with |- context [(20 # 100) * clamp01 ?v] =>
    pose proof (proj1 (clamp01_cases v)); set (h := clamp01 v) in * end.
  set (x := successShare s) in *. set (l := observedLatencyScore s) in *.
  set (sp := observedSpeedScore d s) in *. set (p := overCapacityPenalty d s) in *.
  match goal with |- context [clamp01 ?v] =>
    destruct (clamp01_cases v) as [Hc He]; set (c := clamp01 v) in * end.
  unfold base.
  destruct (Qlt_le_dec ((50 # 100) * x + (20 # 100) * h + (20 # 100) * l + (10 # 100) * sp - p) 0) as [Hn|Hn].
  - assert (c == 0). { unfold c, clamp01. cbn [flt of_int exact]. rewrite (proj2 (qlt_spec _ _)); [done|]. exact Hn. }
    lra.
  - assert ((50 # 100) * x + (20 # 100) * h + (20 # 100) * l + (10 # 100) * sp - p <= 1) as Hu by lra.
    specialize (He (conj Hn Hu)). lra.
Qed.

Lemma successShare_bounds s (a b : positive) :
  (0 <= Successes s < 2 ^ 61)%Z → (0 <= Failures s < 2 ^ 61)%Z →
  0 <= successShare s <= 1 ∧
  ((Zpos a * (Successes s + Failures s + 2) <= Zpos b * (Successes s + 1))%Z → Zpos a # b <= successShare s) ∧
  ((Zpos b * (Successes s + 1) <= Zpos a * (Successes s + Failures s + 2))%Z → successShare s <= Zpos a # b).
Proof.
  intros H1 H2. unfold successShare.
  rewrite !wrap64_id by (unfold in_int64, int64_min, int64_max; lia).
  set (n := (Successes s + 1)%Z). set (m := (Successes s + Failures s + 2)%Z).
  assert (0 < inject_Z m) as Hm by (unfold inject_Z, Qlt; cbn; lia).
  assert (0 <= inject_Z n) as Hn by (unfold inject_Z, Qle; cbn; lia).
  assert (inject_Z n <= inject_Z m) as Hnm by (rewrite <- Zle_Qle; lia).
  split_and!.
  - apply Qle_shift_div_l; [done|]. lra.
  - apply Qle_shift_div_r; [done|]. lra.
  - intros H. apply Qle_shift_div_l; [done|]. unfold Qle, Qmult, inject_Z. cbn. lia.
  - intros H. apply Qle_shift_div_r; [done|]. unfold Qle, Qmult, inject_Z. cbn. lia.
Qed.

(** Reliability outweighs load: with equal latency and speed signals a
    relay with at least three successes in four ranks before one with at most
    one in four, even when the first is at or beyond its capacity and the
    second is idle. *)
Theorem reliability_outranks_load (IsIPv6Host : string → bool) (score : string → Q)
    (good bad : Descriptor) (sg sb : RelayMetricsSnapshot Q) :
  score (dd_ID good) = relayScore good sg → score (dd_ID bad) = relayScore bad sb →
  (0 < dd_MaxSessions good)%Z → (0 < dd_MaxSessions bad)%Z →
  (0 <= Successes sg < 2 ^ 61 ∧ 0 <= Failures sg < 2 ^ 61)%Z →
  (0 <= Successes sb < 2 ^ 61 ∧ 0 <= Failures sb < 2 ^ 61)%Z →
  (3 * (Successes sg + Failures sg + 2) <= 4 * (Successes sg + 1))%Z →
  (4 * (Successes sb + 1) <= 1 * (Successes sb + Failures sb + 2))%Z →
  observedLatencyScore sg = observedLatencyScore sb →
  observedSpeedScore good sg = observedSpeedScore bad sb →
  candidateLess IsIPv6Host score good bad = true ∧ candidateLess IsIPv6Host score bad good = false.
Proof.
  intros Eg Eb Mg Mb [Sg Fg] [Sb Fb] Rg Rb El Es.
  destruct (successShare_bounds sg 3 4 Sg Fg) as (Ug & Lg & _). specialize (Lg Rg).
  destruct (successShare_bounds sb 1 4 Sb Fb) as (Ub & _ & Lb). specialize (Lb Rb).
  pose proof (relayScore_between good sg Mg Ug) as Bg. pose proof (relayScore_between bad sb Mb Ub) as Bb.
  cbn zeta in Bg, Bb. rewrite El, Es in Bg.
  unfold candidateLess, farApart. rewrite Eg, Eb.
  set (x := relayScore good sg) in *. set (y := relayScore bad sb) in *. cbn [flt fsub fconst of_int exact].
  assert (y + (1 # 100) <= x) as Hxy by lra. clear -Hxy.
  change (Z.to_pos 1000000) with 1000000%positive.
  rewrite (proj2 (qlt_false (x - y) (inject_Z 0))), (proj2 (qlt_spec (y - x) (inject_Z 0)))
    by (unfold inject_Z; lra).
  rewrite (proj2 (qlt_spec _ (x - y))), (proj2 (qlt_spec _ (inject_Z 0 - (y - x))))
    by (unfold inject_Z; lra).
  split; [apply qlt_spec|apply qlt_false]; lra.
Qed.
End exact.

#[local] Close Scope Q_scope.

Definition exampleDescriptor (id host class : string) : Descriptor :=
  {| dd_ID := id; dd_Label := ""; dd_PublicHost := host; dd_PublicPort := 443;
     dd_Geo := {| City := ""; Country := ""; CountryCode := ""; Latitude := 0; Longitude := 0 |};
     dd_ExitHost := ""; dd_IdentityPublicKey := "key"; dd_LeaseToken := "lease_1";
     dd_NodeClass := class; dd_Protocol := ProtocolVLESSRealityVision; dd_ClientID := "c";
     dd_RealityPublicKey := "k"; dd_ShortID := "s"; dd_ServerName := "n"; dd_Flow := FlowVision;
     dd_ExitMode := ExitModeDirect; dd_MaxSessions := 4; dd_MaxMbps := 10; dd_RelayVersion := "1";
     dd_Transport := TransportDirect; dd_PunchCapable := false; dd_PunchEndpoint := "";
     dd_WSSFronts := [exampleFront "cdn-a"]; dd_RegisteredAt := 0; dd_LastHeartbeatAt := 0;
     dd_ExpiresAt := 180 * second |}.

Definition exampleSnapshot (active ok failed : Z) : RelayMetricsSnapshot Q :=
  let none := {| total := inject_Z 0; count := 0 |} in
  {| ActiveSessions := active; Successes := ok; Failures := failed; TCPMS := none;
     TunnelStartMS := none; InternetProbeMS := none; TTFBMS := none; SpeedTests := 0;
     DownloadMbpsTotal := inject_Z 0 |}.

Lemma reliability_outranks_load_witness :
  let good := exampleDescriptor "a" "203.0.113.1" "volunteer" in
  let bad := exampleDescriptor "b" "203.0.113.2" "volunteer" in
  let score := λ id, if str_eqb id "a" then relayScore (float := exact) good (exampleSnapshot 9 5 0)
                     else relayScore (float := exact) bad (exampleSnapshot 0 0 2) in
  candidateLess (float := exact) (λ _, false) score good bad = true.
Proof.
  intros good bad score.
  apply (reliability_outranks_load (λ _, false) score good bad (exampleSnapshot 9 5 0) (exampleSnapshot 0 0 2));
    try reflexivity; repeat split; (apply Z.leb_le || apply Z.ltb_lt); reflexivity.
Defined.
