(* ===== verification/BrokerStore.v ===== *)
(** The broker's in-memory relay store
    (src/libs/openrung/internal/broker/store.go): registration, leases,
    geography, listing, expiry, and the telemetry the ranking reads.

    The mutex makes every method one step.  The iteration order of the relay
    map is any enumeration ([MapRange]).  Random bytes are inputs; proof
    verification is RelayIdentity's, behind the [ProofVerifier] interface. *)
From stdpp Require Import base list gmap strings.
From Stdlib Require Import ZArith Lia.
From S2P Require Import Prelude Codec GoTime Directory Fronts Ticket RelayIdentity Ranking.

Inductive StoreError :=
| ErrRelayNotFound
| ErrNodeClassForbidden
| ErrProof (e : ProofError)
| ErrRandom.

(** What the store asks of package relay. *)
Class ProofVerifier := {
  verifyIdentity : RegisterRequest → Z → result ProofError (option (list byte));
  verifyWSSCapability : RegisterRequest → Z → result ProofError unit;
  deriveRelayID : list byte → string;
  verifyIdentity_key req now key :
    verifyIdentity req now = Ok key → key = None ↔ rq_IdentityPublicKey req = ""%string
}.

Record relaySessionState := {
  ss_ClientID : string;
  ss_RelayID : string;
  ss_LastHeartbeatAt : Z;
  ss_TerminalAt : Z;
  ss_LastMetricEventAt : Z
}.

Definition noSession : relaySessionState :=
  {| ss_ClientID := ""; ss_RelayID := ""; ss_LastHeartbeatAt := zero_time;
     ss_TerminalAt := zero_time; ss_LastMetricEventAt := zero_time |}.

Record relayMetricObservation := {
  ob_ObservedAt : Z;
  ob_RelayID : string;
  ob_Success : bool;
  ob_Failure : bool;
  ob_TCPMs : Z;
  ob_TunnelStartMs : Z;
  ob_InternetProbeMs : Z;
  ob_TTFBMs : Z;
  ob_DownloadMbpsMilli : Z;
  ob_IncludesSpeedTest : bool
}.

Record TelemetryEvent := {
  ev_SchemaVersion : Z;
  ev_EventID : string;
  ev_Event : string;
  ev_OccurredAt : Z;
  ev_ClientID : string;
  ev_SessionID : string;
  ev_RelayID : string;
  ev_Application : string;
  ev_ApplicationID : Z;
  ev_DestinationIP : string;
  ev_DestinationPort : Z;
  ev_Protocol : string;
  ev_Attributes : gmap string string;
  ev_Measurements : gmap string Z
}.

Record TelemetryRecord := {
  tr_ReceivedAt : Z;
  tr_SourceIP : string;
  tr_RelayNodeClass : string;
  tr_Event : TelemetryEvent
}.

Record Store := {
  relays : gmap string Descriptor;
  sessions : gmap string relaySessionState;
  observations : list relayMetricObservation;
  rankingMode : RankingMode
}.

Record StoreStats := { ActiveRelays : Z; AdvertisedSessionCapacity : Z }.

Definition NewStoreWithRanking (mode : RankingMode) : Store :=
  {| relays := ∅; sessions := ∅; observations := []; rankingMode := mode |}.

Definition NewStore : Store := NewStoreWithRanking RankingModeGlobal.

Definition withRelays (s : Store) (r : gmap string Descriptor) : Store :=
  {| relays := r; sessions := sessions s; observations := observations s;
     rankingMode := rankingMode s |}.

Definition noGeo : RelayGeoLocation :=
  {| City := ""; Country := ""; CountryCode := ""; Latitude := 0; Longitude := 0 |}.

Definition normalizeTransport (transport : string) : string :=
  if str_empty transport then TransportDirect else transport.

Definition normalizeNodeClass (class : string) : string :=
  if str_empty class then NodeClassVolunteer else class.

(** [rnd] is what [rand.Read] delivers. *)
Definition newRelayID (rnd : option (list byte)) : option string :=
  b ← rnd; Some (text (bytes "relay_" ++ hexEncode (take 16 b))).

Definition newRelayLeaseToken (rnd : option (list byte)) : option string :=
  b ← rnd; Some (text (bytes "lease_" ++ hexEncode (take 32 b))).

(** Slices of fronts are copied so that callers cannot alias the stored row; a
    value of this model never aliases. *)
Definition cloneRelayDescriptor (desc : Descriptor) : Descriptor := desc.

Definition setGeo (d : Descriptor) (g : RelayGeoLocation) : Descriptor :=
  {| dd_ID := dd_ID d; dd_Label := dd_Label d; dd_PublicHost := dd_PublicHost d;
     dd_PublicPort := dd_PublicPort d; dd_Geo := g; dd_ExitHost := dd_ExitHost d;
     dd_IdentityPublicKey := dd_IdentityPublicKey d; dd_LeaseToken := dd_LeaseToken d;
     dd_NodeClass := dd_NodeClass d; dd_Protocol := dd_Protocol d; dd_ClientID := dd_ClientID d;
     dd_RealityPublicKey := dd_RealityPublicKey d; dd_ShortID := dd_ShortID d;
     dd_ServerName := dd_ServerName d; dd_Flow := dd_Flow d; dd_ExitMode := dd_ExitMode d;
     dd_MaxSessions := dd_MaxSessions d; dd_MaxMbps := dd_MaxMbps d;
     dd_RelayVersion := dd_RelayVersion d; dd_Transport := dd_Transport d;
     dd_PunchCapable := dd_PunchCapable d; dd_PunchEndpoint := dd_PunchEndpoint d;
     dd_WSSFronts := dd_WSSFronts d; dd_RegisteredAt := dd_RegisteredAt d;
     dd_LastHeartbeatAt := dd_LastHeartbeatAt d; dd_ExpiresAt := dd_ExpiresAt d |}.

Definition renewed (d : Descriptor) (now ttl : Z) : Descriptor :=
  {| dd_ID := dd_ID d; dd_Label := dd_Label d; dd_PublicHost := dd_PublicHost d;
     dd_PublicPort := dd_PublicPort d; dd_Geo := dd_Geo d; dd_ExitHost := dd_ExitHost d;
     dd_IdentityPublicKey := dd_IdentityPublicKey d; dd_LeaseToken := dd_LeaseToken d;
     dd_NodeClass := dd_NodeClass d; dd_Protocol := dd_Protocol d; dd_ClientID := dd_ClientID d;
     dd_RealityPublicKey := dd_RealityPublicKey d; dd_ShortID := dd_ShortID d;
     dd_ServerName := dd_ServerName d; dd_Flow := dd_Flow d; dd_ExitMode := dd_ExitMode d;
     dd_MaxSessions := dd_MaxSessions d; dd_MaxMbps := dd_MaxMbps d;
     dd_RelayVersion := dd_RelayVersion d; dd_Transport := dd_Transport d;
     dd_PunchCapable := dd_PunchCapable d; dd_PunchEndpoint := dd_PunchEndpoint d;
     dd_WSSFronts := dd_WSSFronts d; dd_RegisteredAt := dd_RegisteredAt d;
     dd_LastHeartbeatAt := now; dd_ExpiresAt := time_add now ttl |}.

(** The descriptor a registration asks for. *)
Definition newDescriptor (req : RegisterRequest) (id leaseToken : string) (now ttl : Z) : Descriptor :=
  {| dd_ID := id; dd_Label := rq_Label req; dd_PublicHost := rq_PublicHost req;
     dd_PublicPort := rq_PublicPort req; dd_Geo := noGeo; dd_ExitHost := rq_ExitHost req;
     dd_IdentityPublicKey := rq_IdentityPublicKey req; dd_LeaseToken := leaseToken;
     dd_NodeClass := normalizeNodeClass (rq_NodeClass req); dd_Protocol := rq_Protocol req;
     dd_ClientID := rq_ClientID req; dd_RealityPublicKey := rq_RealityPublicKey req;
     dd_ShortID := rq_ShortID req; dd_ServerName := rq_ServerName req; dd_Flow := rq_Flow req;
     dd_ExitMode := rq_ExitMode req; dd_MaxSessions := rq_MaxSessions req;
     dd_MaxMbps := rq_MaxMbps req; dd_RelayVersion := rq_RelayVersion req;
     dd_Transport := normalizeTransport (rq_Transport req); dd_PunchCapable := rq_PunchCapable req;
     dd_PunchEndpoint := rq_PunchEndpoint req; dd_WSSFronts := rq_WSSFronts req;
     dd_RegisteredAt := now; dd_LastHeartbeatAt := now; dd_ExpiresAt := time_add now ttl |}.

Definition sameEndpoint (a b : Descriptor) : bool :=
  str_eqb (dd_PublicHost a) (dd_PublicHost b) && (dd_PublicPort a =? dd_PublicPort b).

(** A live foundation row that a registration of a lower class would take
    over. *)
Definition protectedFrom (existing desc : Descriptor) (now : Z) : bool :=
  negb (str_eqb (dd_NodeClass desc) NodeClassFoundation) &&
  str_eqb (dd_NodeClass existing) NodeClassFoundation && time_after (dd_ExpiresAt existing) now.

(** The scan over the existing rows: the IDs to replace, and the location of
    the latest registration with the same exit; [None] is the early return. *)
Fixpoint replaceScan (desc : Descriptor) (now : Z) (rows : list (string * Descriptor))
    (ids : list string) (geo : option (RelayGeoLocation * Z))
    : option (list string * option (RelayGeoLocation * Z)) :=
  match rows with
  | [] => Some (ids, geo)
  | (existingID, existing) :: rest =>
      if negb (sameEndpoint existing desc) then replaceScan desc now rest ids geo
      else if protectedFrom existing desc now then None
      else
        let newer := match geo with None => true | Some (_, at_) => time_after (dd_RegisteredAt existing) at_ end in
        replaceScan desc now rest (ids ++ [existingID])
          (if str_eqb (dd_ExitHost existing) (dd_ExitHost desc) && newer
           then Some (dd_Geo existing, dd_RegisteredAt existing) else geo)
  end.

(** The token check of a stable identity's lease. *)
Definition leaseMismatch (desc : Descriptor) (leaseToken : string) : bool :=
  negb (str_empty (dd_IdentityPublicKey desc)) &&
  (str_empty (dd_LeaseToken desc) || negb (str_eqb (dd_LeaseToken desc) leaseToken)).

Definition firstNonEmpty (a b : string) : string :=
  if negb (str_empty (TrimSpace a)) then a else if negb (str_empty (TrimSpace b)) then b else "".

Definition activeSessionTimeout : Z := 150 * second.

(** Deleting a list of keys. *)
Lemma deleteAll_lookup {V} (m : gmap string V) ids k :
  foldl (λ m id, delete id m) m ids !! k = if decide (k ∈ ids) then None else m !! k.
Proof.
  revert m. induction ids as [|i ids IH]; intros m; cbn [foldl].
  { rewrite decide_False; [done|apply not_elem_of_nil]. }
  rewrite IH. destruct (decide (k = i)) as [->|Hk].
  - rewrite lookup_delete_eq. destruct (decide (i ∈ i :: ids)) as [_|[]]; [|left]. by case_decide.
  - rewrite lookup_delete_ne by done.
    destruct (decide (k ∈ ids)), (decide (k ∈ i :: ids)); set_solver.
Qed.

Section store.
#[local] Set Default Proof Using "Type".
Context {F : Type} {float : Float64 F} {sorts : GoSort} (IsIPv6Host : string → bool).
Context {verifier : ProofVerifier} {relayRows : MapRange string Descriptor}.
Context {sessionRows : MapRange string relaySessionState}.

Definition Register (s : Store) (req : RegisterRequest) (rndID rndToken : option (list byte))
    (now ttl : Z) : result StoreError Descriptor * Store :=
  match verifyIdentity req now with
  | Err e => (Err (ErrProof e), s)
  | Ok identityKey =>
      match verifyWSSCapability req now with
      | Err e => (Err (ErrProof e), s)
      | Ok _ =>
          match (match identityKey with Some key => Some (deriveRelayID key) | None => newRelayID rndID end) with
          | None => (Err ErrRandom, s)
          | Some id =>
              match (match identityKey with Some _ => newRelayLeaseToken rndToken | None => Some ""%string end) with
              | None => (Err ErrRandom, s)
              | Some leaseToken =>
                  let desc := newDescriptor req id leaseToken now ttl in
                  match replaceScan desc now (map_range (relays s)) [] None with
                  | None => (Err ErrNodeClassForbidden, s)
                  | Some (replacedIDs, geo) =>
                      let desc := match geo with Some (g, _) => setGeo desc g | None => desc end in
                      let kept := foldl (λ m id, delete id m) (relays s) replacedIDs in
                      (Ok (cloneRelayDescriptor desc), withRelays s (<[id := desc]> kept))
                  end
              end
          end
      end
  end.

Definition Heartbeat (s : Store) (id leaseToken maxClass : string) (now ttl : Z)
    : result StoreError Descriptor * Store :=
  match relays s !! id with
  | None => (Err ErrRelayNotFound, s)
  | Some desc =>
      if str_eqb (dd_NodeClass desc) NodeClassFoundation && negb (str_eqb maxClass NodeClassFoundation)
      then (Err ErrNodeClassForbidden, s)
      else if leaseMismatch desc leaseToken then (Err ErrRelayNotFound, s)
      else
        let desc := renewed desc now ttl in
        (Ok (cloneRelayDescriptor desc), withRelays s (<[id := desc]> (relays s)))
  end.

Definition UpdateGeo (s : Store) (id leaseToken : string) (geo : RelayGeoLocation)
    : result StoreError unit * Store :=
  match relays s !! id with
  | None => (Err ErrRelayNotFound, s)
  | Some desc =>
      if leaseMismatch desc leaseToken then (Err ErrRelayNotFound, s)
      else (Ok tt, withRelays s (<[id := setGeo desc geo]> (relays s)))
  end.

Definition live (now : Z) (desc : Descriptor) : bool := time_after (dd_ExpiresAt desc) now.

(** * Metrics *)
Definition activeSession (now : Z) (st : relaySessionState) : bool :=
  negb (str_empty (ss_RelayID st)) && time_is_zero (ss_TerminalAt st) &&
  time_after (ss_LastHeartbeatAt st) (time_add now (- activeSessionTimeout)).

Definition countActive (s : RelayMetricsSnapshot F) : RelayMetricsSnapshot F :=
  {| ActiveSessions := wrap64 (ActiveSessions s + 1); Successes := Successes s;
     Failures := Failures s; TCPMS := TCPMS s; TunnelStartMS := TunnelStartMS s;
     InternetProbeMS := InternetProbeMS s; TTFBMS := TTFBMS s; SpeedTests := SpeedTests s;
     DownloadMbpsTotal := DownloadMbpsTotal s |}.

Definition countObservation (s : RelayMetricsSnapshot F) (o : relayMetricObservation)
    : RelayMetricsSnapshot F :=
  let speed := ob_IncludesSpeedTest o && (0 <? ob_DownloadMbpsMilli o) in
  {| ActiveSessions := ActiveSessions s;
     Successes := if ob_Success o then wrap64 (Successes s + 1) else Successes s;
     Failures := if ob_Failure o then wrap64 (Failures s + 1) else Failures s;
     TCPMS := addMetricValue (TCPMS s) (ob_TCPMs o);
     TunnelStartMS := addMetricValue (TunnelStartMS s) (ob_TunnelStartMs o);
     InternetProbeMS := addMetricValue (InternetProbeMS s) (ob_InternetProbeMs o);
     TTFBMS := addMetricValue (TTFBMS s) (ob_TTFBMs o);
     SpeedTests := if speed then wrap64 (SpeedTests s + 1) else SpeedTests s;
     DownloadMbpsTotal :=
       if speed then fadd (DownloadMbpsTotal s) (fdiv (of_int (ob_DownloadMbpsMilli o)) (of_int 1000))
       else DownloadMbpsTotal s |}.

Definition metricSnapshotsLocked (s : Store) (now : Z) : gmap string (RelayMetricsSnapshot F) :=
  let fromSessions :=
    foldl (λ m '(_, st),
        if activeSession now st
        then <[ss_RelayID st := countActive (default noSnapshot (m !! ss_RelayID st))]> m else m)
      ∅ (map_range (sessions s)) in
  let windowStart := time_add now (- rankingWindow) in
  foldl (λ m o,
      if time_before (ob_ObservedAt o) windowStart || time_after (ob_ObservedAt o) now then m
      else <[ob_RelayID o := countObservation (default noSnapshot (m !! ob_RelayID o)) o]> m)
    fromSessions (observations s).

(** * Reads *)
Definition liveRows (s : Store) (now : Z) : list Descriptor :=
  List.filter (live now) (map_range (relays s)).*2.

Definition ListRelays (s : Store) (now limit : Z) : list Descriptor :=
  let rows := cloneRelayDescriptor <$> liveRows s now in
  let ranked := sortRelayCandidates IsIPv6Host rows (metricSnapshotsLocked s now) (rankingMode s) in
  if (0 <? limit) && (limit <? Z.of_nat (length ranked)) then take (Z.to_nat limit) ranked else ranked.

Definition RelayByID (s : Store) (id : string) (now : Z) : result StoreError Descriptor :=
  match relays s !! id with
  | Some desc => if live now desc then Ok (cloneRelayDescriptor desc) else Err ErrRelayNotFound
  | None => Err ErrRelayNotFound
  end.

Definition RelayNodeClasses (s : Store) (ids : list string) (now : Z) : gmap string string :=
  foldl (λ classes id,
      match relays s !! id with
      | Some desc => if live now desc then <[id := dd_NodeClass desc]> classes else classes
      | None => classes
      end) ∅ ids.

Definition Stats (s : Store) (now : Z) : StoreStats :=
  foldl (λ st '(_, desc),
      if live now desc
      then {| ActiveRelays := wrap64 (ActiveRelays st + 1);
              AdvertisedSessionCapacity := wrap64 (AdvertisedSessionCapacity st + dd_MaxSessions desc) |}
      else st)
    {| ActiveRelays := 0; AdvertisedSessionCapacity := 0 |} (map_range (relays s)).

(** * Expiry and telemetry *)
Definition pruneMetricsLocked (s : Store) (cutoff : Z) : Store :=
  {| relays := relays s;
     sessions := filter (λ '(_, st), negb (time_is_zero (ss_TerminalAt st)) &&
                                     time_before (ss_TerminalAt st) cutoff = false) (sessions s);
     observations := List.filter (λ o, negb (time_before (ob_ObservedAt o) cutoff)) (observations s);
     rankingMode := rankingMode s |}.

Definition Prune (s : Store) (now : Z) : list Descriptor * Store :=
  let '(expired, kept) :=
    foldl (λ '(expired, kept) '(id, desc),
        if live now desc then (expired, kept) else (expired ++ [desc], delete id kept))
      ([], relays s) (map_range (relays s)) in
  (expired, pruneMetricsLocked (withRelays s kept) (time_add now (- rankingWindow))).

Definition withSession (s : Store) (id : string) (st : relaySessionState) : Store :=
  {| relays := relays s; sessions := <[id := st]> (sessions s); observations := observations s;
     rankingMode := rankingMode s |}.

Definition withObservation (s : Store) (o : relayMetricObservation) : Store :=
  {| relays := relays s; sessions := sessions s; observations := observations s ++ [o];
     rankingMode := rankingMode s |}.

Definition measurement (event : TelemetryEvent) (name : string) : Z :=
  default 0 (ev_Measurements event !! name).

Definition recordRelayTelemetryLocked (s : Store) (record : TelemetryRecord) (now : Z) : Store :=
  let event := tr_Event record in
  let observedAt := tr_ReceivedAt record in
  let observedAt := if time_is_zero observedAt then ev_OccurredAt event else observedAt in
  let observedAt := if time_is_zero observedAt then now else observedAt in
  let kind := ev_Event event in
  let observation success failure tcp tunnel probe ttfb mbps speed :=
    {| ob_ObservedAt := observedAt; ob_RelayID := ev_RelayID event; ob_Success := success;
       ob_Failure := failure; ob_TCPMs := tcp; ob_TunnelStartMs := tunnel;
       ob_InternetProbeMs := probe; ob_TTFBMs := ttfb; ob_DownloadMbpsMilli := mbps;
       ob_IncludesSpeedTest := speed |} in
  if str_eqb kind "session_heartbeat" then
    if str_empty (ev_SessionID event) || str_empty (ev_RelayID event) then s else
    let existing := default noSession (sessions s !! ev_SessionID event) in
    let terminalAt :=
      if negb (time_is_zero (ss_TerminalAt existing)) && negb (time_before (ss_TerminalAt existing) observedAt)
      then ss_TerminalAt existing else zero_time in
    withSession s (ev_SessionID event)
      {| ss_ClientID := ev_ClientID event; ss_RelayID := ev_RelayID event;
         ss_LastHeartbeatAt := observedAt; ss_TerminalAt := terminalAt;
         ss_LastMetricEventAt := observedAt |}
  else if str_eqb kind "connection_succeeded" || str_eqb kind "relay_failover" then
    if str_empty (ev_RelayID event) then s else
    withObservation s (observation true false (measurement event "relay_tcp_ms")
      (measurement event "tunnel_start_ms") (measurement event "internet_probe_ms") 0 0 false)
  else if str_eqb kind "relay_attempt_failed" then
    if str_empty (ev_RelayID event) then s else
    withObservation s (observation false true 0 0 0 0 0 false)
  else if str_eqb kind "speed_test_completed" then
    if str_empty (ev_RelayID event) then s else
    withObservation s (observation false false 0 0 0 (measurement event "time_to_first_byte_ms")
      (measurement event "download_mbps_milli") true)
  else if str_eqb kind "connection_ended" || str_eqb kind "tunnel_stopped"
          || str_eqb kind "connection_failed" then
    if str_empty (ev_SessionID event) then s else
    let session := default noSession (sessions s !! ev_SessionID event) in
    withSession s (ev_SessionID event)
      {| ss_ClientID := firstNonEmpty (ss_ClientID session) (ev_ClientID event);
         ss_RelayID := if str_empty (ss_RelayID session) && negb (str_empty (ev_RelayID event))
                       then ev_RelayID event else ss_RelayID session;
         ss_LastHeartbeatAt := ss_LastHeartbeatAt session; ss_TerminalAt := observedAt;
         ss_LastMetricEventAt := observedAt |}
  else s.

Definition RecordRelayTelemetry (s : Store) (records : list TelemetryRecord) (now : Z) : Store :=
  pruneMetricsLocked (foldl (λ s r, recordRelayTelemetryLocked s r now) s records)
    (time_add now (- rankingWindow)).

(** * Registration *)
Lemma replaceScan_spec desc now rows ids geo :
  match replaceScan desc now rows ids geo with
  | None => ∃ id e, (id, e) ∈ rows ∧ sameEndpoint e desc = true ∧ protectedFrom e desc now = true
  | Some (ids', _) =>
      ids' = ids ++ (List.filter (λ r, sameEndpoint r.2 desc) rows).*1 ∧
      ∀ id e, (id, e) ∈ rows → sameEndpoint e desc = true → protectedFrom e desc now = false
  end.
Proof.
  revert ids geo. induction rows as [|[i x] rows IH]; intros ids geo; cbn [replaceScan].
  { cbn. rewrite app_nil_r. split; [done|]. by intros ?? ?%not_elem_of_nil. }
  cbn [List.filter snd]. destruct (sameEndpoint x desc) eqn:Es; cbn [negb].
  - destruct (protectedFrom x desc now) eqn:Ep; [exists i, x; split; [by left|done]|].
    match goal with |- context [replaceScan _ _ rows ?a ?b] => specialize (IH a b) end.
    destruct (replaceScan desc now rows _ _) as [[ids' g]|].
    + destruct IH as [-> H]. rewrite <- (assoc_L (++)). split; [done|].
      intros id e [[= -> ->]|Hin]%elem_of_cons He; eauto.
    + destruct IH as (id & e & Hin & H). exists id, e. split; [by right|done].
  - specialize (IH ids geo). destruct (replaceScan desc now rows ids geo) as [[ids' g]|].
    + destruct IH as [-> H]. split; [done|].
      intros id e [[= -> ->]|Hin]%elem_of_cons He; [congruence|eauto].
    + destruct IH as (id & e & Hin & H). exists id, e. split; [by right|done].
Qed.

Lemma replaceScan_geo desc now rows ids geo ids' geo' :
  replaceScan desc now rows ids geo = Some (ids', geo') →
  (geo' = geo ∧ ∀ id e, (id, e) ∈ rows → sameEndpoint e desc = true →
     dd_ExitHost e = dd_ExitHost desc → geo ≠ None) ∨
  ∃ id e, (id, e) ∈ rows ∧ sameEndpoint e desc = true ∧ dd_ExitHost e = dd_ExitHost desc ∧
    geo' = Some (dd_Geo e, dd_RegisteredAt e).
Proof.
  revert ids geo. induction rows as [|[i x] rows IH]; intros ids geo; cbn [replaceScan].
  { intros [= <- <-]. left. split; [done|]. by intros ?? ?%not_elem_of_nil. }
  destruct (sameEndpoint x desc) eqn:Es; cbn [negb].
  - destruct (protectedFrom x desc now); [done|]. intros Hr%IH.
    destruct Hr as [[-> Hr]|(id & e & Hin & Hr)]; [|right; exists id, e; split; [by right|done]].
    destruct (str_eqb (dd_ExitHost x) (dd_ExitHost desc)) eqn:Ex; cbn [andb] in *.
    + apply str_eqb_true in Ex. destruct geo as [[g t]|]; [destruct (time_after _ _)|].
      * right. exists i, x. split; [by left|done].
      * left. split; [done|]. done.
      * right. exists i, x. split; [by left|done].
    + left. split; [done|]. intros id e [[= -> ->]|Hin]%elem_of_cons He Hx; [|eauto].
      apply str_eqb_true in Hx. congruence.
  - intros Hr%IH. destruct Hr as [[-> Hr]|(id & e & Hin & Hr)]; [|right; exists id, e; split; [by right|done]].
    left. split; [done|]. intros id e [[= -> ->]|Hin]%elem_of_cons He Hx; [congruence|eauto].
Qed.

(** Deleting the rows that satisfy a test. *)
Lemma deleteWhere_lookup (m : gmap string Descriptor) (f : Descriptor → bool) k :
  foldl (λ m id, delete id m) m (List.filter (λ r, f r.2) (map_range m)).*1 !! k =
  match m !! k with
  | Some e => if f e then None else Some e
  | None => None
  end.
Proof.
  rewrite deleteAll_lookup. destruct (m !! k) as [e|] eqn:E; [|by case_decide].
  destruct (f e) eqn:Es.
  - rewrite decide_True; [done|]. apply list_elem_of_fmap. exists (k, e). split; [done|].
    apply elem_of_filter_bool. split; [by apply elem_of_map_range|done].
  - rewrite decide_False; [done|]. intros ([k' e'] & -> & [Hin Hs]%elem_of_filter_bool)%list_elem_of_fmap.
    apply elem_of_map_range in Hin. cbn in *. congruence.
Qed.

Record store_wf (s : Store) : Prop := {
  wf_key id d : relays s !! id = Some d → dd_ID d = id;
  wf_endpoint i j d e :
    relays s !! i = Some d → relays s !! j = Some e → sameEndpoint d e = true → i = j;
  wf_class id d : relays s !! id = Some d → dd_NodeClass d ≠ ""%string ∧ dd_Transport d ≠ ""%string
}.

Lemma sameEndpoint_sym a b : sameEndpoint a b = sameEndpoint b a.
Proof.
  unfold sameEndpoint, str_eqb. rewrite Z.eqb_sym. f_equal. by apply bool_decide_ext.
Qed.

Lemma sameEndpoint_trans a b c :
  sameEndpoint a b = true → sameEndpoint b c = true → sameEndpoint a c = true.
Proof.
  unfold sameEndpoint. rewrite !andb_true_iff, !str_eqb_true, !Z.eqb_eq. intros [-> ->] [-> ->]. done.
Qed.

(** How a registration can end. *)
Lemma Register_cases s req r1 r2 now ttl :
  let '(r, s') := Register s req r1 r2 now ttl in
  match r with
  | Err e =>
      s' = s ∧ (e = ErrNodeClassForbidden → ∃ desc id x,
        dd_PublicHost desc = rq_PublicHost req ∧ dd_PublicPort desc = rq_PublicPort req ∧
        dd_NodeClass desc = normalizeNodeClass (rq_NodeClass req) ∧
        relays s !! id = Some x ∧ sameEndpoint x desc = true ∧ protectedFrom x desc now = true)
  | Ok d =>
      ∃ key g,
        verifyIdentity req now = Ok key ∧ is_ok (verifyWSSCapability req now) = true ∧
        d = setGeo (newDescriptor req (dd_ID d) (dd_LeaseToken d) now ttl) g ∧
        match key with
        | Some k => dd_ID d = deriveRelayID k ∧ newRelayLeaseToken r2 = Some (dd_LeaseToken d)
        | None => newRelayID r1 = Some (dd_ID d) ∧ dd_LeaseToken d = ""%string
        end ∧
        (g = noGeo ∧ (∀ id x, relays s !! id = Some x → sameEndpoint x d = true →
                              dd_ExitHost x ≠ rq_ExitHost req) ∨
         ∃ id x, relays s !! id = Some x ∧ sameEndpoint x d = true ∧
                 dd_ExitHost x = rq_ExitHost req ∧ g = dd_Geo x) ∧
        (∀ id x, relays s !! id = Some x → sameEndpoint x d = true → protectedFrom x d now = false) ∧
        ∃ m, s' = withRelays s (<[dd_ID d := d]> m) ∧
          ∀ k, m !! k = match relays s !! k with
                        | Some e => if sameEndpoint e d then None else Some e
                        | None => None
                        end
  end.
Proof.
  unfold Register. destruct (verifyIdentity req now) as [key|e] eqn:Ek; [|done].
  destruct (verifyWSSCapability req now) as [u|e]; [|done].
  destruct (match key with Some k => Some (deriveRelayID k) | None => newRelayID r1 end)
    as [id|] eqn:Eid; [|done].
  destruct (match key with Some _ => newRelayLeaseToken r2 | None => Some ""%string end)
    as [tok|] eqn:Etok; [|done].
  set (desc := newDescriptor req id tok now ttl).
  pose proof (replaceScan_spec desc now (map_range (relays s)) [] None) as Hscan.
  destruct (replaceScan desc now (map_range (relays s)) [] None) as [[ids geo]|] eqn:Escan.
  2: { split; [done|]. intros _. destruct Hscan as (i & x & Hin%elem_of_map_range & Hs & Hp).
       by exists desc, i, x. }
  destruct Hscan as [-> Hprot]. rewrite app_nil_l. apply replaceScan_geo in Escan.
  set (g := match geo with Some (g, _) => g | None => noGeo end).
  assert ((match geo with Some (g, _) => setGeo desc g | None => desc end) = setGeo desc g) as ->
    by (by destruct geo as [[]|]).
  exists key, g. unfold cloneRelayDescriptor. cbn [setGeo dd_ID dd_LeaseToken].
  assert (∀ x, sameEndpoint x (setGeo desc g) = sameEndpoint x desc) as Hse by done.
  split_and!; try done.
  - destruct key; simplify_eq; done.
  - destruct Escan as [[-> Hno]|(i & x & Hin%elem_of_map_range & Hs & Hx & ->)]; [left|right].
    + split; [done|]. intros i x Hin Hs Hx. eapply Hno; [by apply elem_of_map_range|exact Hs|done|done].
    + by exists i, x.
  - intros i x Hin Hs. apply (Hprot i); [by apply elem_of_map_range|done].
  - eexists. split; [done|]. intros k. rewrite (deleteWhere_lookup _ (λ e, sameEndpoint e desc)).
    by destruct (relays s !! k).
Qed.

(** A registered row is well formed by itself. *)
Lemma newDescriptor_class req id tok now ttl g :
  dd_NodeClass (setGeo (newDescriptor req id tok now ttl) g) ≠ ""%string ∧
  dd_Transport (setGeo (newDescriptor req id tok now ttl) g) ≠ ""%string.
Proof.
  cbn. unfold normalizeNodeClass, normalizeTransport, str_empty.
  split; by case_bool_decide.
Qed.

(** Replacing a row by one with the same ID and endpoint. *)
Lemma store_wf_update s id d d' :
  store_wf s → relays s !! id = Some d → dd_ID d' = dd_ID d → sameEndpoint d' d = true →
  dd_NodeClass d' = dd_NodeClass d → dd_Transport d' = dd_Transport d →
  store_wf (withRelays s (<[id := d']> (relays s))).
Proof.
  intros [Hk He Hc] Hd Hid Hsame Hcl Htr.
  assert (∀ j e, <[id := d']> (relays s) !! j = Some e →
    ∃ e0, relays s !! j = Some e0 ∧ sameEndpoint e e0 = true ∧ dd_ID e = dd_ID e0 ∧
          dd_NodeClass e = dd_NodeClass e0 ∧ dd_Transport e = dd_Transport e0) as Hold.
  { intros j e. rewrite lookup_insert_Some. intros [[<- <-]|[_ Hj]]; [by exists d|].
    exists e. split_and!; try done. unfold sameEndpoint. by rewrite Z.eqb_refl, (proj2 (str_eqb_true _ _)). }
  split; cbn [relays withRelays].
  - intros j e (e0 & Hj & _ & -> & _)%Hold. eauto.
  - intros i j x y (x0 & Hi & Hx & _)%Hold (y0 & Hj & Hy & _)%Hold Hxy.
    apply (He i j x0 y0 Hi Hj). rewrite sameEndpoint_sym in Hx.
    eauto using sameEndpoint_trans.
  - intros j e (e0 & Hj & _ & _ & -> & ->)%Hold. eauto.
Qed.

Lemma store_wf_sub s s' :
  store_wf s → (∀ id d, relays s' !! id = Some d → relays s !! id = Some d) → store_wf s'.
Proof. intros [Hk He Hc] Hsub. split; eauto. Qed.

Lemma Register_wf s req r1 r2 now ttl :
  store_wf s → store_wf (Register s req r1 r2 now ttl).2.
Proof.
  intros Hwf. pose proof (Register_cases s req r1 r2 now ttl) as Hc.
  destruct (Register s req r1 r2 now ttl) as [[d|e] s']; [|by destruct Hc as [-> _]].
  destruct Hc as (key & g & _ & _ & Hd & _ & _ & _ & m & -> & Hm). cbn [snd].
  assert (dd_NodeClass d ≠ ""%string ∧ dd_Transport d ≠ ""%string) as Hcl
    by (rewrite Hd; apply newDescriptor_class). clear Hd.
  assert (∀ k e, m !! k = Some e → relays s !! k = Some e ∧ sameEndpoint e d = false) as Hm'.
  { intros k e. rewrite Hm. destruct (relays s !! k) as [x|]; [|done].
    destruct (sameEndpoint x d) eqn:E; [done|]. by intros [= ->]. }
  destruct Hwf as [Hk He Hcs]. split; cbn [relays withRelays].
  - intros id e. rewrite lookup_insert_Some. intros [[<- <-]|[_ [Hi _]%Hm']]; eauto.
  - intros i j x y. rewrite !lookup_insert_Some.
    intros [[<- <-]|[_ [Hi Hni]%Hm']] [[<- <-]|[_ [Hj Hnj]%Hm']] Hs; [done| |congruence|eauto].
    rewrite sameEndpoint_sym in Hs. congruence.
  - intros id e. rewrite lookup_insert_Some. intros [[<- <-]|[_ [Hi _]%Hm']]; eauto.
Qed.

(** * Pruning *)
Lemma Prune_fold now acc m l :
  foldl (λ '(expired, kept) '(id, desc),
      if live now desc then (expired, kept) else (expired ++ [desc], delete id kept)) (acc, m) l =
  (acc ++ (List.filter (λ r, negb (live now r.2)) l).*2,
   foldl (λ (m : gmap string Descriptor) id, delete id m) m
     (List.filter (λ r, negb (live now r.2)) l).*1).
Proof.
  revert acc m. induction l as [|[i d] l IH]; intros acc m; cbn; [by rewrite app_nil_r|].
  destruct (live now d); cbn; rewrite IH; [done|]. by rewrite <- (assoc_L (++)).
Qed.

Lemma Prune_rows s now :
  (Prune s now).1 = (List.filter (λ r, negb (live now r.2)) (map_range (relays s))).*2 ∧
  ∀ k, relays (Prune s now).2 !! k =
    match relays s !! k with
    | Some d => if live now d then Some d else None
    | None => None
    end.
Proof.
  unfold Prune. rewrite Prune_fold. cbn [fst snd relays pruneMetricsLocked withRelays]. split; [done|].
  intros k. rewrite (deleteWhere_lookup _ (λ d, negb (live now d))).
  destruct (relays s !! k) as [d|]; [|done]. by destruct (live now d).
Qed.

Lemma telemetry_relays s records now : relays (RecordRelayTelemetry s records now) = relays s.
Proof.
  unfold RecordRelayTelemetry. cbn [pruneMetricsLocked relays]. revert s.
  induction records as [|r records IH]; intros s; [done|]. cbn [foldl]. rewrite IH.
  unfold recordRelayTelemetryLocked. by repeat case_match.
Qed.

(** * Every sequence of operations *)
Inductive storeOp :=
| OpRegister (req : RegisterRequest) (rndID rndToken : option (list byte)) (now ttl : Z)
| OpHeartbeat (id leaseToken maxClass : string) (now ttl : Z)
| OpUpdateGeo (id leaseToken : string) (geo : RelayGeoLocation)
| OpPrune (now : Z)
| OpTelemetry (records : list TelemetryRecord) (now : Z).

Definition applyOp (s : Store) (op : storeOp) : Store :=
  match op with
  | OpRegister req r1 r2 now ttl => (Register s req r1 r2 now ttl).2
  | OpHeartbeat id tok cls now ttl => (Heartbeat s id tok cls now ttl).2
  | OpUpdateGeo id tok geo => (UpdateGeo s id tok geo).2
  | OpPrune now => (Prune s now).2
  | OpTelemetry records now => RecordRelayTelemetry s records now
  end.

Lemma sameEndpoint_refl d : sameEndpoint d d = true.
Proof. unfold sameEndpoint. by rewrite Z.eqb_refl, (proj2 (str_eqb_true _ _)). Qed.

Lemma Heartbeat_cases s id tok cls now ttl :
  (∃ e, Heartbeat s id tok cls now ttl = (Err e, s)) ∨
  ∃ d, relays s !! id = Some d ∧ leaseMismatch d tok = false ∧
       (dd_NodeClass d = NodeClassFoundation → cls = NodeClassFoundation) ∧
       Heartbeat s id tok cls now ttl =
         (Ok (renewed d now ttl), withRelays s (<[id := renewed d now ttl]> (relays s))).
Proof.
  unfold Heartbeat. destruct (relays s !! id) as [d|]; [|eauto].
  destruct (str_eqb (dd_NodeClass d) NodeClassFoundation) eqn:E1;
    destruct (str_eqb cls NodeClassFoundation) eqn:E2; cbn [andb negb]; [| eauto | |];
    (destruct (leaseMismatch d tok) eqn:El; [eauto|]); right; exists d; split_and!; try done;
    intros Hc%str_eqb_true; rewrite ?Hc in E1; try done; by apply str_eqb_true.
Qed.

Lemma UpdateGeo_cases s id tok geo :
  (∃ e, UpdateGeo s id tok geo = (Err e, s)) ∨
  ∃ d, relays s !! id = Some d ∧ leaseMismatch d tok = false ∧
       UpdateGeo s id tok geo = (Ok tt, withRelays s (<[id := setGeo d geo]> (relays s))).
Proof.
  unfold UpdateGeo. destruct (relays s !! id) as [d|]; [|eauto].
  destruct (leaseMismatch d tok) eqn:El; [eauto|]. right. by exists d.
Qed.

Lemma Prune_wf s now : store_wf s → store_wf (Prune s now).2.
Proof.
  intros Hwf. apply (store_wf_sub s); [done|]. intros id d. rewrite (proj2 (Prune_rows s now)).
  destruct (relays s !! id) as [x|]; [|done]. by destruct (live now x).
Qed.

Lemma applyOp_wf s op : store_wf s → store_wf (applyOp s op).
Proof.
  intros Hwf. destruct op as [req r1 r2 now ttl|id tok cls now ttl|id tok geo|now|records now]; cbn [applyOp].
  - by apply Register_wf.
  - destruct (Heartbeat_cases s id tok cls now ttl) as [[e ->]|(d & Hd & _ & _ & ->)]; [done|].
    apply (store_wf_update s id d); auto. apply (sameEndpoint_refl d).
  - destruct (UpdateGeo_cases s id tok geo) as [[e ->]|(d & Hd & _ & ->)]; [done|].
    apply (store_wf_update s id d); auto. apply (sameEndpoint_refl d).
  - by apply Prune_wf.
  - apply (store_wf_sub s); [done|]. by rewrite telemetry_relays.
Qed.

(** After any sequence of registrations, heartbeats, location updates,
    prunes and telemetry, every stored descriptor is stored under its own ID,
    has a concrete class and transport, and no public host and port has two
    descriptors. *)
Lemma store_invariant (mode : RankingMode) (ops : list storeOp) :
  store_wf (foldl applyOp (NewStoreWithRanking mode) ops).
Proof.
  assert (store_wf (NewStoreWithRanking mode)) as Hinit by (by split).
  revert Hinit. generalize (NewStoreWithRanking mode) as s.
  induction ops as [|op ops IH]; intros s Hs; cbn [foldl]; [done|]. by apply IH, applyOp_wf.
Qed.

(** A successful registration stores exactly its descriptor, removes the
    other rows of its endpoint and nothing else, never displaces a live
    foundation relay unless it is itself of the foundation class, and inherits
    the endpoint's location exactly when the exit host is unchanged; a refused
    one changes nothing, and the class refusal means that a live foundation
    relay holds the endpoint. *)
Lemma Register_effect (s : Store) (req : RegisterRequest) (r1 r2 : option (list byte)) (now ttl : Z) :
  store_wf s →
  match Register s req r1 r2 now ttl with
  | (Ok d, s') =>
      relays s' !! dd_ID d = Some d ∧
      (∀ id, id ≠ dd_ID d → relays s' !! id =
         match relays s !! id with
         | Some e => if sameEndpoint e d then None else Some e
         | None => None
         end) ∧
      (∀ id e, relays s !! id = Some e → sameEndpoint e d = true →
         (dd_NodeClass e = NodeClassFoundation → now < dd_ExpiresAt e →
            dd_NodeClass d = NodeClassFoundation) ∧
         dd_Geo d = if str_eqb (dd_ExitHost e) (dd_ExitHost d) then dd_Geo e else noGeo)
  | (Err e, s') =>
      s' = s ∧ (e = ErrNodeClassForbidden → ∃ id x,
        relays s !! id = Some x ∧ dd_PublicHost x = rq_PublicHost req ∧
        dd_PublicPort x = rq_PublicPort req ∧ dd_NodeClass x = NodeClassFoundation ∧
        now < dd_ExpiresAt x ∧ normalizeNodeClass (rq_NodeClass req) ≠ NodeClassFoundation)
  end.
Proof.
  intros Hwf. pose proof (Register_cases s req r1 r2 now ttl) as Hc.
  destruct (Register s req r1 r2 now ttl) as [[d|e] s'].
  - destruct Hc as (key & g & _ & _ & Hd & _ & Hgeo & Hprot & m & -> & Hm). cbn [relays withRelays].
    split; [apply lookup_insert_eq|]. split; [intros id Hid; by rewrite lookup_insert_ne|].
    intros id e He Hs. split.
    + intros Hf Hlive. specialize (Hprot id e He Hs). unfold protectedFrom, time_after in Hprot.
      rewrite (proj2 (str_eqb_true _ _) Hf), (proj2 (Z.ltb_lt _ _) Hlive), !andb_true_r in Hprot.
      apply negb_false_iff in Hprot. by apply str_eqb_true.
    + assert (dd_Geo d = g ∧ dd_ExitHost d = rq_ExitHost req) as [-> ->] by (by rewrite Hd).
      destruct Hgeo as [[-> Hno]|(i & x & Hi & Hsx & Hex & ->)].
      * case_match eqn:Ex; [|done]. apply str_eqb_true in Ex. by destruct (Hno id e He Hs).
      * assert (id = i) as <-.
        { apply (wf_endpoint s Hwf id i e x He Hi). rewrite sameEndpoint_sym in Hsx.
          eauto using sameEndpoint_trans. }
        simplify_eq. by rewrite (proj2 (str_eqb_true _ _) Hex).
  - destruct Hc as [-> Hf]. split; [done|]. intros (desc & id & x & Hh & Hp & Hcl & Hx & Hs & Hpr)%Hf.
    exists id, x. unfold sameEndpoint in Hs. apply andb_true_iff in Hs as [Hs1%str_eqb_true Hs2%Z.eqb_eq].
    unfold protectedFrom, time_after in Hpr.
    rewrite !andb_true_iff, negb_true_iff, Z.ltb_lt, (str_eqb_true (dd_NodeClass x)) in Hpr.
    destruct Hpr as [[Hn Hcx] Hl]. split_and!; try congruence.
    rewrite <- Hcl. intros E. rewrite E in Hn. done.
Qed.

(** * Leases *)
Definition registers (id : string) (s : Store) (op : storeOp) : bool :=
  match op with
  | OpRegister req r1 r2 now ttl =>
      match (Register s req r1 r2 now ttl).1 with
      | Ok d => str_eqb (dd_ID d) id
      | Err _ => false
      end
  | _ => false
  end.

(** No operation of the sequence registers [id]. *)
Fixpoint quiet (id : string) (s : Store) (ops : list storeOp) : bool :=
  match ops with
  | [] => true
  | op :: rest => negb (registers id s op) && quiet id (applyOp s op) rest
  end.

(** The row of [id], if it is still there, is the registration of [token]. *)
Definition holds (s : Store) (id key token : string) : Prop :=
  ∀ d, relays s !! id = Some d → dd_IdentityPublicKey d = key ∧ dd_LeaseToken d = token.

Lemma holds_update s id i d d' key token :
  holds s id key token → relays s !! i = Some d →
  dd_IdentityPublicKey d' = dd_IdentityPublicKey d → dd_LeaseToken d' = dd_LeaseToken d →
  holds (withRelays s (<[i := d']> (relays s))) id key token.
Proof.
  intros Hh Hd Hk Ht x. cbn [relays withRelays]. rewrite lookup_insert_Some.
  intros [[-> <-]|[_ Hx]]; [|by apply Hh]. rewrite Hk, Ht. by apply Hh.
Qed.

Lemma applyOp_holds s op id key token :
  registers id s op = false → holds s id key token → holds (applyOp s op) id key token.
Proof.
  intros Hr Hh. destruct op as [req r1 r2 now ttl|i tok cls now ttl|i tok geo|now|records now]; cbn [applyOp registers] in *.
  - pose proof (Register_cases s req r1 r2 now ttl) as Hc.
    destruct (Register s req r1 r2 now ttl) as [[d|e] s']; [|by destruct Hc as [-> _]].
    destruct Hc as (_ & _ & _ & _ & _ & _ & _ & _ & m & -> & Hm). cbn [fst snd] in *.
    intros x. cbn [relays withRelays]. rewrite lookup_insert_Some.
    intros [[<- _]|[_ Hx]]; [by rewrite (proj2 (str_eqb_true _ _)) in Hr|].
    rewrite Hm in Hx. destruct (relays s !! id) as [y|] eqn:Ey; [|done].
    destruct (sameEndpoint y d); [done|]. simplify_eq. by apply Hh.
  - destruct (Heartbeat_cases s i tok cls now ttl) as [[e ->]|(d & Hd & _ & _ & ->)]; [done|].
    by apply (holds_update s id i d).
  - destruct (UpdateGeo_cases s i tok geo) as [[e ->]|(d & Hd & _ & ->)]; [done|].
    by apply (holds_update s id i d).
  - intros x. rewrite (proj2 (Prune_rows s now)). destruct (relays s !! id) as [y|] eqn:Ey; [|done].
    destruct (live now y); [|done]. intros [= <-]. by apply Hh.
  - intros x. rewrite telemetry_relays. apply Hh.
Qed.

Lemma quiet_holds ops s id key token :
  quiet id s ops = true → holds s id key token → holds (foldl applyOp s ops) id key token.
Proof.
  revert s. induction ops as [|op ops IH]; intros s; cbn [foldl quiet]; [done|].
  rewrite andb_true_iff, negb_true_iff. intros [Hr Hq] Hh. apply IH; [done|]. by apply applyOp_holds.
Qed.

Lemma newRelayLeaseToken_nonempty rnd t : newRelayLeaseToken rnd = Some t → t ≠ ""%string.
Proof. unfold newRelayLeaseToken. destruct rnd; [|done]. intros [= <-]. done. Qed.

(** The token handed out by the latest registration of a stable identity is
    the only one that works: until that ID registers again, whatever else
    happens, a heartbeat or location update with any other token is refused and
    changes nothing, while the registrant's own token renews the lease. *)
Lemma stale_lease_refused (s s1 : Store) (req : RegisterRequest) (r1 r2 : option (list byte))
    (now ttl : Z) (d : Descriptor) (ops : list storeOp) (token cls : string) (geo : RelayGeoLocation)
    (now' ttl' : Z) :
  Register s req r1 r2 now ttl = (Ok d, s1) → rq_IdentityPublicKey req ≠ ""%string →
  quiet (dd_ID d) s1 ops = true → token ≠ dd_LeaseToken d →
  let s2 := foldl applyOp s1 ops in
  (∃ e, Heartbeat s2 (dd_ID d) token cls now' ttl' = (Err e, s2)) ∧
  (∃ e, UpdateGeo s2 (dd_ID d) token geo = (Err e, s2)) ∧
  ((dd_NodeClass d = NodeClassFoundation → cls = NodeClassFoundation) →
   (Heartbeat s1 (dd_ID d) (dd_LeaseToken d) cls now' ttl').1 = Ok (renewed d now' ttl')).
Proof.
  intros HR Hkey Hq Htok s2. pose proof (Register_cases s req r1 r2 now ttl) as Hc. rewrite HR in Hc.
  destruct Hc as (key & g & Hv & _ & Hd & Hmint & _ & _ & m & -> & _).
  assert (dd_IdentityPublicKey d = rq_IdentityPublicKey req) as Hk by (by rewrite Hd).
  destruct key as [k|]; [|by destruct Hkey; apply (verifyIdentity_key _ _ _ Hv)].
  destruct Hmint as [_ Hne%newRelayLeaseToken_nonempty].
  assert (holds s2 (dd_ID d) (rq_IdentityPublicKey req) (dd_LeaseToken d)) as Hh.
  { apply quiet_holds; [done|]. intros x. cbn [relays withRelays]. rewrite lookup_insert_eq. by intros [= <-]. }
  assert (∀ x, relays s2 !! dd_ID d = Some x → leaseMismatch x token = true) as Hmis.
  { intros x [Hx1 Hx2]%Hh. unfold leaseMismatch, str_empty, str_eqb. rewrite Hx1, Hx2.
    rewrite !bool_decide_eq_false_2 by congruence. done. }
  split_and!.
  - destruct (Heartbeat_cases s2 (dd_ID d) token cls now' ttl') as [He|(x & Hx%Hmis & Hm & _)]; [done|congruence].
  - destruct (UpdateGeo_cases s2 (dd_ID d) token geo) as [He|(x & Hx%Hmis & Hm & _)]; [done|congruence].
  - intros Hcls. unfold Heartbeat. cbn [relays withRelays]. rewrite lookup_insert_eq.
    assert (leaseMismatch d (dd_LeaseToken d) = false) as ->.
    { unfold leaseMismatch, str_empty, str_eqb. rewrite (bool_decide_eq_false_2 (dd_LeaseToken d = ""%string)) by done.
      rewrite (bool_decide_eq_true_2 (dd_LeaseToken d = _)) by done. cbn. apply andb_false_r. }
    destruct (str_eqb (dd_NodeClass d) NodeClassFoundation) eqn:E; [|done].
    rewrite Hcls by (by apply str_eqb_true). done.
Qed.

(** * Reads agree *)
Lemma ListRelays_perm s now : ListRelays s now 0 ≡ₚ liveRows s now.
Proof.
  unfold ListRelays. cbn [Z.ltb Z.compare andb]. rewrite sortRelayCandidates_perm.
  unfold cloneRelayDescriptor. by rewrite list_fmap_id.
Qed.

Lemma elem_of_liveRows s now d :
  store_wf s → d ∈ liveRows s now ↔ relays s !! dd_ID d = Some d ∧ now < dd_ExpiresAt d.
Proof.
  intros Hwf. unfold liveRows. rewrite elem_of_filter_bool. unfold live, time_after. rewrite Z.ltb_lt.
  rewrite list_elem_of_fmap. split.
  - intros [([id x] & -> & Hx%elem_of_map_range) Hl]. cbn in *. by rewrite (wf_key s Hwf id x Hx).
  - intros [Hd Hl]. split; [|done]. exists (dd_ID d, d). split; [done|]. by apply elem_of_map_range.
Qed.

Lemma NoDup_liveRows s now : store_wf s → NoDup (dd_ID <$> liveRows s now).
Proof.
  intros Hwf. unfold liveRows.
  apply (sublist_NoDup _ (dd_ID <$> (map_range (relays s)).*2)).
  2: { apply fmap_sublist, filter_bool_sublist. }
  assert (dd_ID <$> (map_range (relays s)).*2 = (map_range (relays s)).*1) as ->.
  2: { apply NoDup_map_range_fst. }
  rewrite <- list_fmap_compose. apply list_fmap_ext. intros i [id x] Hx%list_elem_of_lookup_2. cbn.
  apply elem_of_map_range in Hx. by apply (wf_key s Hwf).
Qed.

Definition classStep (s : Store) (now : Z) (classes : gmap string string) (id : string)
    : gmap string string :=
  match relays s !! id with
  | Some desc => if live now desc then <[id := dd_NodeClass desc]> classes else classes
  | None => classes
  end.

(** What one step leaves at a key: its own is decided by the row alone. *)
Lemma classStep_ne s now m i id : i ≠ id → classStep s now m i !! id = m !! id.
Proof.
  intros Hi. unfold classStep.
  destruct (relays s !! i) as [d|]; [|done]. destruct (live now d); [|done]. by rewrite lookup_insert_ne.
Qed.

Lemma classStep_own s now m m' id :
  m !! id = m' !! id → classStep s now m id !! id = classStep s now m' id !! id.
Proof.
  intros Hm. unfold classStep. destruct (relays s !! id) as [d|]; [|done].
  destruct (live now d); [by rewrite !lookup_insert_eq|done].
Qed.

Lemma classStep_twice s now m id :
  classStep s now (classStep s now m id) id !! id = classStep s now m id !! id.
Proof.
  unfold classStep. destruct (relays s !! id) as [d|]; [|done].
  destruct (live now d); [by rewrite !lookup_insert_eq|done].
Qed.

Lemma classSteps_lookup s now ids m id :
  foldl (classStep s now) m ids !! id =
    if decide (id ∈ ids) then classStep s now m id !! id else m !! id.
Proof.
  revert m. induction ids as [|i ids IH]; intros m; cbn [foldl].
  { destruct (decide _) as [[]%not_elem_of_nil|]; done. }
  rewrite IH. destruct (decide (i = id)) as [->|Hi].
  - destruct (decide (id ∈ id :: ids)) as [_|[]]; [|left]. rewrite classStep_twice. by case_decide.
  - rewrite (classStep_own s now (classStep s now m i) m) by (by apply classStep_ne).
    rewrite (classStep_ne s now m i id) by done.
    destruct (decide (id ∈ ids)) as [H1|H1], (decide (id ∈ i :: ids)) as [H2|H2];
      rewrite elem_of_cons in H2; try done; exfalso; destruct H2; auto; congruence.
Qed.

Lemma RelayNodeClasses_spec s ids now id c :
  RelayNodeClasses s ids now !! id = Some c ↔
  id ∈ ids ∧ ∃ d, relays s !! id = Some d ∧ live now d = true ∧ dd_NodeClass d = c.
Proof.
  change (RelayNodeClasses s ids now) with (foldl (classStep s now) ∅ ids).
  rewrite classSteps_lookup. case_decide as Hin; [|rewrite lookup_empty; tauto || by split; [|intros []]].
  unfold classStep. destruct (relays s !! id) as [d|]; [destruct (live now d) eqn:El|].
  - rewrite lookup_insert_eq. split; [intros [= <-]; eauto|]. intros (_ & x & [= <-] & _ & <-). done.
  - rewrite lookup_empty. split; [done|]. intros (_ & x & [= <-] & Hl & _). congruence.
  - rewrite lookup_empty. split; [done|]. by intros (_ & x & ? & _).
Qed.

Lemma Stats_active s now :
  ActiveRelays (Stats s now) = wrap64 (Z.of_nat (length (liveRows s now))).
Proof.
  unfold Stats, liveRows.
  match goal with |- context [foldl ?f ?st _] =>
    assert (∀ l acc, in_int64 (ActiveRelays acc) → ActiveRelays (foldl f acc l) =
      wrap64 (ActiveRelays acc + Z.of_nat (length (List.filter (live now) l.*2)))) as Hgen end.
  2: { rewrite Hgen; [done|]. split; done. }
  induction l as [|[i d] l IH]; intros acc Hacc; cbn [foldl].
  { cbn. rewrite Z.add_0_r. by rewrite wrap64_id. }
  cbn [fmap list_fmap snd List.filter]. rewrite IH; [|case_match; [apply wrap64_range|done]].
  destruct (live now d); [|done]. cbn [ActiveRelays length]. rewrite wrap64_add_l. f_equal. lia.
Qed.

Lemma elem_of_ListRelays s now d :
  store_wf s → d ∈ ListRelays s now 0 ↔ relays s !! dd_ID d = Some d ∧ now < dd_ExpiresAt d.
Proof. intros Hwf. rewrite ListRelays_perm. by apply elem_of_liveRows. Qed.

(** All reads agree on which relays are live.  The listing holds each live
    row exactly once and nothing else, a limit only cuts its tail, the lookups
    by ID and by class answer from the same rows, the active count is its
    length, and pruning removes exactly the rows it does not hold. *)
Lemma reads_agree (s : Store) (now limit : Z) (ids : list string) :
  store_wf s →
  let all := ListRelays s now 0 in
  NoDup (dd_ID <$> all) ∧
  (∀ d, d ∈ all ↔ relays s !! dd_ID d = Some d ∧ now < dd_ExpiresAt d) ∧
  (0 < limit → ListRelays s now limit = take (Z.to_nat limit) all) ∧
  (∀ id d, RelayByID s id now = Ok d ↔ dd_ID d = id ∧ d ∈ all) ∧
  (∀ id c, RelayNodeClasses s ids now !! id = Some c ↔
           id ∈ ids ∧ ∃ d, d ∈ all ∧ dd_ID d = id ∧ dd_NodeClass d = c) ∧
  ActiveRelays (Stats s now) = wrap64 (Z.of_nat (length all)) ∧
  ListRelays (Prune s now).2 now 0 ≡ₚ all ∧
  (∀ id d, relays (Prune s now).2 !! id = Some d ↔ dd_ID d = id ∧ d ∈ all) ∧
  (Prune s now).1 ++ all ≡ₚ (map_range (relays s)).*2.
Proof.
  intros Hwf all.
  assert (all ≡ₚ liveRows s now) as Hall by apply ListRelays_perm.
  assert (∀ d, d ∈ all ↔ relays s !! dd_ID d = Some d ∧ now < dd_ExpiresAt d) as Hin.
  { intros d. rewrite Hall. by apply elem_of_liveRows. }
  assert (∀ id d, relays s !! id = Some d ∧ live now d = true ↔ dd_ID d = id ∧ d ∈ all) as Hrow.
  { intros id d. rewrite Hin. unfold live, time_after. rewrite Z.ltb_lt. split.
    - intros [Hd Hl]. pose proof (wf_key s Hwf id d Hd) as <-. done.
    - intros [<- Hd]. exact Hd. }
  assert (∀ id d, relays (Prune s now).2 !! id = Some d ↔ dd_ID d = id ∧ d ∈ all) as Hprune.
  { intros id d. rewrite (proj2 (Prune_rows s now)), <- Hrow.
    destruct (relays s !! id) as [x|]; [|split; [done|by intros []]].
    destruct (live now x) eqn:El; [split; [by intros [= <-]|by intros []]|].
    split; [done|]. intros [[= ->] Hl]. congruence. }
  split_and!; try done.
  - rewrite Hall. by apply NoDup_liveRows.
  - intros Hl. unfold all, ListRelays. rewrite (proj2 (Z.ltb_lt 0 limit) Hl). cbn [andb Z.ltb Z.compare].
    destruct (Z.ltb_spec limit (Z.of_nat (length
      (sortRelayCandidates IsIPv6Host (cloneRelayDescriptor <$> liveRows s now)
         (metricSnapshotsLocked s now) (rankingMode s))))); [done|].
    symmetry. apply take_ge. lia.
  - intros id d. rewrite <- Hrow. unfold RelayByID. destruct (relays s !! id) as [x|]; [|split; [done|by intros []]].
    destruct (live now x) eqn:El; [split; [by intros [= <-]|by intros [[= ->] _]]|].
    split; [done|]. intros [[= ->] Hl]. congruence.
  - intros id c. rewrite RelayNodeClasses_spec. apply and_iff_compat_l. split.
    + intros (d & Hd & Hl & Hc). exists d. destruct (proj1 (Hrow id d) (conj Hd Hl)). done.
    + intros (d & Hd & Hi & Hc). exists d. destruct (proj2 (Hrow id d) (conj Hi Hd)). done.
  - rewrite Stats_active. by rewrite Hall.
  - assert (store_wf (Prune s now).2) as Hwf' by (by apply Prune_wf).
    apply NoDup_Permutation.
    + apply (NoDup_fmap_1 dd_ID). rewrite ListRelays_perm. by apply NoDup_liveRows.
    + apply (NoDup_fmap_1 dd_ID). rewrite Hall. by apply NoDup_liveRows.
    + intros d. rewrite ListRelays_perm, elem_of_liveRows, Hprune by done. rewrite Hin. tauto.
  - rewrite (proj1 (Prune_rows s now)), Hall. unfold liveRows.
    rewrite Permutation_app_comm. etrans; [|apply (filter_bool_split (live now))].
    apply Permutation_app_head. clear. induction (map_range (relays s)) as [|[i d] l IH]; [done|].
    cbn. destruct (live now d); cbn; by rewrite IH.
Qed.
End store.

(** * The verifier of package relay behind the interface *)
Lemma VerifyIdentity_key edVerify req now key :
  VerifyIdentity edVerify req now = Ok key → key = None ↔ rq_IdentityPublicKey req = ""%string.
Proof.
  destruct key as [k|].
  - unfold VerifyIdentity, str_empty. case_bool_decide as Hk; [|done].
    rewrite Hk. cbn [andb orb]. by repeat case_match.
  - unfold VerifyIdentity, str_empty. intros H. split; [intros _|done].
    case_bool_decide as Hk; [done|]. by repeat case_match.
Qed.

Definition relayProofs (Sum256 : list byte → list byte) (edVerify : list byte → list byte → list byte → bool)
    (ToLower : string → string) (EqualFold : string → string → bool) (urlParse : string → option URL)
    (urlString Hostname Port : URL → string) (isIPLiteral : string → bool)
    (Marshal : wssCapabilityPayload → option (list byte)) : ProofVerifier :=
  {| verifyIdentity := VerifyIdentity edVerify;
     verifyWSSCapability := VerifyWSSCapability Sum256 edVerify ToLower EqualFold urlParse urlString
                              Hostname Port isIPLiteral Marshal;
     deriveRelayID := DeriveRelayID Sum256;
     verifyIdentity_key := VerifyIdentity_key edVerify |}.

Definition exampleProofs : ProofVerifier :=
  relayProofs exampleDigest exampleIdentityVerify (λ s, s) str_eqb exampleParse exampleString Host
    (λ _, ""%string) (λ _, false) examplePayloadMarshal.

(** An anonymous volunteer at the example relay's endpoint. *)
Definition anonymousRequest : RegisterRequest :=
  {| rq_PublicHost := "203.0.113.7"; rq_PublicPort := 443; rq_Protocol := "vless-reality-vision";
     rq_ClientID := "c"; rq_RealityPublicKey := "k"; rq_ShortID := "s"; rq_ServerName := "n";
     rq_Flow := "xtls-rprx-vision"; rq_ExitMode := "direct"; rq_MaxSessions := 4; rq_MaxMbps := 10;
     rq_RelayVersion := "1"; rq_Label := ""; rq_NodeClass := ""; rq_Transport := "";
     rq_PunchCapable := false; rq_PunchEndpoint := ""; rq_WSSFronts := [];
     rq_WSSCapabilityProof := ""; rq_WSSCapabilityExpiresAt := ""; rq_ExitHost := "";
     rq_IdentityPublicKey := ""; rq_IdentityProof := ""; rq_IdentityExpiresAt := "" |}.

#[local] Existing Instance exampleProofs.
#[local] Instance exampleRows : MapRange string Descriptor := map_to_list_range.
#[local] Instance exampleSessions : MapRange string relaySessionState := map_to_list_range.
#[local] Existing Instance insertionGoSort.
#[local] Existing Instance exact.

Definition exampleRegistration : result StoreError Descriptor * Store :=
  Register NewStore exampleRequest0 None (Some (replicate 32 (chr 3))) exampleNow (180 * second).
Definition exampleStore : Store := exampleRegistration.2.
Definition exampleRow : Descriptor :=
  match exampleRegistration.1 with Ok d => d | Err _ => exampleDescriptor "" "" "" end.

Lemma exampleStore_wf : store_wf exampleStore.
Proof. apply Register_wf. by split. Qed.

Lemma Register_effect_witness :
  is_ok exampleRegistration.1 = true ∧
  let refused := Register exampleStore anonymousRequest (Some (replicate 16 (chr 9))) None exampleNow (180 * second) in
  is_ok refused.1 = false ∧ refused.2 = exampleStore.
Proof.
  split; [vm_compute; reflexivity|]. intros refused.
  assert (is_ok refused.1 = false) as Hr by (vm_compute; reflexivity). split; [exact Hr|].
  pose proof (Register_effect exampleStore anonymousRequest (Some (replicate 16 (chr 9))) None exampleNow
    (180 * second) exampleStore_wf) as H. fold refused in H.
  destruct refused as [[d|e] s']; [discriminate Hr|]. exact (proj1 H).
Defined.

Lemma reads_agree_witness :
  length (ListRelays (float := exact) (λ _, false) exampleStore exampleNow 0) = 1%nat ∧
  ActiveRelays (Stats exampleStore exampleNow) = 1.
Proof.
  split; [vm_compute; reflexivity|].
  destruct (reads_agree (float := exact) (λ _, false) exampleStore exampleNow 5 [] exampleStore_wf)
    as (_ & _ & _ & _ & _ & H & _).
  etransitivity; [exact H|]. vm_compute. reflexivity.
Defined.

Lemma stale_lease_refused_witness :
  let s2 := applyOp exampleStore (OpHeartbeat (dd_ID exampleRow) (dd_LeaseToken exampleRow) "foundation"
              exampleNow (180 * second)) in
  ∃ e, Heartbeat s2 (dd_ID exampleRow) "lease_old" "foundation" exampleNow (180 * second) = (Err e, s2).
Proof.
  intros s2.
  apply (stale_lease_refused NewStore exampleStore exampleRequest0 None (Some (replicate 32 (chr 3)))
    exampleNow (180 * second) exampleRow
    [OpHeartbeat (dd_ID exampleRow) (dd_LeaseToken exampleRow) "foundation" exampleNow (180 * second)]
    "lease_old" "foundation" noGeo exampleNow (180 * second)).
  - unfold exampleStore, exampleRow. fold exampleRegistration.
    assert (is_ok exampleRegistration.1 = true) as H by (vm_compute; reflexivity).
    destruct exampleRegistration as [[d|e] s']; [reflexivity|discriminate H].
  - intros H. vm_compute in H. discriminate H.
  - vm_compute. reflexivity.
  - intros H. vm_compute in H. discriminate H.
Defined.
