(* ===== verification/Netip.v ===== *)
(** IP addresses as Go's [net/netip] and [net.SplitHostPort] read and print
    them: the part of the standard library behind the broker's source
    accounting (src/libs/openrung/internal/broker/clientip.go,
    registration_cap.go). *)
From stdpp Require Import base list list_numbers strings.
From Stdlib Require Import ZArith Lia.
From S2P Require Import Prelude Codec.

(** An address is its bits, an IPv6 address also its zone; an IPv4 address
    mapped into IPv6 is an [V6]. *)
Inductive Addr :=
| V4 (bits : Z)
| V6 (bits : Z) (zone : string).

Record Prefix := { prefixAddr : Addr; prefixBits : Z }.

#[global] Instance Addr_eq_dec : EqDecision Addr.
Proof. solve_decision. Defined.

(** * Parsing *)
(** A decimal octet without leading zeros. *)
Definition octet (s : list byte) : option Z :=
  match s with
  | [] => None
  | c :: rest =>
      if (val c =? 48) && negb (bool_decide (rest = [])) then None
      else if (3 <? length s)%nat then None
      else n ← parseDigits 0 s; if n <=? 255 then Some n else None
  end.

Definition parseIPv4 (s : list byte) : option Z :=
  match splitOn 46 s with
  | [a; b; c; d] =>
      w ← octet a; x ← octet b; y ← octet c; z ← octet d;
      Some (w * 2 ^ 24 + x * 2 ^ 16 + y * 2 ^ 8 + z)
  | _ => None
  end.

Definition hexValue (c : byte) : option Z :=
  let v := val c in
  if (48 <=? v) && (v <=? 57) then Some (v - 48)
  else if (97 <=? v) && (v <=? 102) then Some (v - 87)
  else if (65 <=? v) && (v <=? 70) then Some (v - 55)
  else None.

(** The hexadecimal digits at the front: their value, number and the rest. *)
Fixpoint hexRun (acc : Z) (n : nat) (s : list byte) : Z * nat * list byte :=
  match s with
  | c :: s' => match hexValue c with Some d => hexRun (acc * 16 + d) (S n) s' | None => (acc, n, s) end
  | [] => (acc, n, [])
  end.

Definition startsWith (c : Z) (s : list byte) : bool :=
  match s with a :: _ => val a =? c | [] => false end.

(** The fields before and after the ellipsis, as 16-bit groups; [gap] holds
    the groups before it once it was seen.  Eight rounds read every address. *)
Fixpoint parseGroups (fuel : nat) (groups : list Z) (gap : option (list Z)) (s : list byte)
    : option (list Z * option (list Z)) :=
  match fuel with
  | O => if bool_decide (s = []) then Some (groups, gap) else None
  | S fuel' =>
      let '(acc, n, rest) := hexRun 0 0 s in
      let done_ := (length groups + match gap with Some g => length g | None => 0 end)%nat in
      if (n =? 0)%nat || (4 <? n)%nat then None
      else if startsWith 46 rest then
        if (match gap with None => negb (done_ =? 6)%nat | Some _ => (6 <? done_)%nat end) then None
        else v ← parseIPv4 s; Some (groups ++ [v / 2 ^ 16; v mod 2 ^ 16], gap)
      else
        let groups := groups ++ [acc] in
        match rest with
        | [] => Some (groups, gap)
        | c :: rest =>
            if negb (val c =? 58) then None else
            match rest with
            | [] => None
            | d :: rest' =>
                if val d =? 58 then
                  match gap with
                  | Some _ => None
                  | None =>
                      if bool_decide (rest' = []) then Some ([], Some groups)
                      else parseGroups fuel' [] (Some groups) rest'
                  end
                else parseGroups fuel' groups gap rest
            end
        end
  end.

Definition groupsValue (gs : list Z) : Z := foldl (λ acc g, acc * 2 ^ 16 + g) 0 gs.

Definition parseIPv6 (s : list byte) : option Z :=
  p ← (if bool_decide (take 2 s = bytes "::") then
         if bool_decide (drop 2 s = []) then Some ([], Some []) else parseGroups 8 [] (Some []) (drop 2 s)
       else parseGroups 8 [] None s);
  match p with
  | (groups, None) => if (length groups =? 8)%nat then Some (groupsValue groups) else None
  | (after, Some before) =>
      let n := (length before + length after)%nat in
      if (n <? 8)%nat then Some (groupsValue (before ++ replicate (8 - n) 0 ++ after)) else None
  end.

(** The first occurrence of a byte splits a list. *)
Fixpoint cutAt (c : Z) (s : list byte) : option (list byte * list byte) :=
  match s with
  | [] => None
  | a :: s' => if val a =? c then Some ([], s') else '(l, r) ← cutAt c s'; Some (a :: l, r)
  end.

Definition parseZoned (s : list byte) : option Addr :=
  match cutAt 37 s with
  | None => v ← parseIPv6 s; Some (V6 v "")
  | Some (a, zone) => if bool_decide (zone = []) then None else v ← parseIPv6 a; Some (V6 v (text zone))
  end.

(** [netip.ParseAddr]: the first dot, colon or percent sign decides. *)
Fixpoint addrKind (s : list byte) : Z :=
  match s with
  | [] => 0
  | c :: s' => if (val c =? 46) || (val c =? 58) || (val c =? 37) then val c else addrKind s'
  end.

Definition ParseAddr (s : string) : option Addr :=
  let bs := bytes s in
  let k := addrKind bs in
  if k =? 46 then v ← parseIPv4 bs; Some (V4 v)
  else if k =? 58 then parseZoned bs
  else None.

(** The last occurrence of a byte splits a list. *)
Definition cutLast (c : Z) (s : list byte) : option (list byte * list byte) :=
  '(r, l) ← cutAt c (rev s); Some (rev l, rev r).

(** [netip.ParsePrefix] *)
Definition ParsePrefix (s : string) : option Prefix :=
  '(a, b) ← cutLast 47 (bytes s);
  addr ← ParseAddr (text a);
  let maxBits := match addr with V4 _ => 32 | V6 _ _ => 128 end in
  let zoned := match addr with V6 _ z => negb (str_empty z) | V4 _ => false end in
  let badStart := match b with
                  | c :: _ :: _ => (val c <? 49) || (57 <? val c)
                  | _ => false
                  end in
  if zoned || badStart || bool_decide (b = []) then None else
  n ← parseDigits 0 b;
  if n <=? maxBits then Some {| prefixAddr := addr; prefixBits := n |} else None.

(** * Operations *)
(** [addr.Unmap()] *)
Definition Unmap (a : Addr) : Addr :=
  match a with
  | V6 v _ => if v / 2 ^ 32 =? 65535 then V4 (v mod 2 ^ 32) else a
  | V4 _ => a
  end.

Definition Is6 (a : Addr) : bool := match a with V6 _ _ => true | V4 _ => false end.

Definition maskBits (width v n : Z) : Z := v / 2 ^ (width - n) * 2 ^ (width - n).

(** [p.Masked()] *)
Definition Masked (p : Prefix) : Prefix :=
  {| prefixAddr := match prefixAddr p with
                   | V4 v => V4 (maskBits 32 v (prefixBits p))
                   | V6 v _ => V6 (maskBits 128 v (prefixBits p)) ""
                   end;
     prefixBits := prefixBits p |}.

(** [p.Contains(ip)]: a zoned address is in no prefix. *)
Definition Contains (p : Prefix) (ip : Addr) : bool :=
  match prefixAddr p, ip with
  | V4 a, V4 b => a / 2 ^ (32 - prefixBits p) =? b / 2 ^ (32 - prefixBits p)
  | V6 a _, V6 b zone => str_empty zone && (a / 2 ^ (128 - prefixBits p) =? b / 2 ^ (128 - prefixBits p))
  | _, _ => false
  end.

(** [addr.Prefix(64)] of an IPv6 address. *)
Definition prefix64 (a : Addr) : option Prefix :=
  match a with
  | V6 v _ => Some {| prefixAddr := V6 (maskBits 128 v 64) ""; prefixBits := 64 |}
  | V4 _ => None
  end.

(** * Printing *)
Definition v4Bytes (v : Z) : list byte :=
  joinWith (chr 46) [FormatInt (v / 2 ^ 24); FormatInt (v / 2 ^ 16 mod 256);
                     FormatInt (v / 2 ^ 8 mod 256); FormatInt (v mod 256)].

Definition hexChar (d : Z) : byte := if d <? 10 then chr (48 + d) else chr (87 + d).
Definition groupBytes (g : Z) : list byte :=
  let ds := [g / 4096; g / 256 mod 16; g / 16 mod 16; g mod 16] in
  let fix strip n l := match n, l with S n', d :: l' => if d =? 0 then strip n' l' else l | _, _ => l end in
  hexChar <$> strip 3%nat ds.

Definition groupsOf (v : Z) : list Z := (λ i, v / 2 ^ (16 * (7 - i)) mod 2 ^ 16) <$> seqZ 0 8.

(** The length of the run of zero groups at the front. *)
Fixpoint zeroRun (gs : list Z) : nat :=
  match gs with g :: gs' => if g =? 0 then S (zeroRun gs') else 0 | [] => 0 end.

(** The first longest run of at least two zero groups: its start and length. *)
Fixpoint longestRun (i : nat) (gs : list Z) (best : nat * nat) : nat * nat :=
  match gs with
  | [] => best
  | _ :: gs' =>
      let n := zeroRun gs in
      longestRun (S i) gs' (if (2 <=? n)%nat && (best.2 <? n)%nat then (i, n) else best)
  end.

Definition v6Bytes (v : Z) : list byte :=
  let gs := groupsOf v in
  let '(start, n) := longestRun 0 gs (0%nat, 0%nat) in
  let colon := joinWith (chr 58) in
  if (n =? 0)%nat then colon (groupBytes <$> gs)
  else colon (groupBytes <$> take start gs) ++ bytes "::" ++ colon (groupBytes <$> drop (start + n) gs).

Definition zoneBytes (z : string) : list byte := if str_empty z then [] else chr 37 :: bytes z.

(** [addr.String()] *)
Definition AddrString (a : Addr) : string :=
  match a with
  | V4 v => text (v4Bytes v)
  | V6 v z =>
      if v / 2 ^ 32 =? 65535 then text (bytes "::ffff:" ++ v4Bytes (v mod 2 ^ 32) ++ zoneBytes z)
      else text (v6Bytes v ++ zoneBytes z)
  end.

(** [prefix.String()] *)
Definition PrefixString (p : Prefix) : string :=
  text (bytes (AddrString (prefixAddr p)) ++ chr 47 :: FormatInt (prefixBits p)).

(** [net.SplitHostPort]: the port follows the last colon; a host in brackets
    ends where the port begins, and only such a host holds colons. *)
Definition SplitHostPort (hostport : list byte) : option (list byte * list byte) :=
  '(before, port) ← cutLast 58 hostport;
  if startsWith 91 hostport then
    '(inside, rest) ← cutAt 93 (tail before);
    if bool_decide (rest = []) && lacks 91 inside && lacks 91 port && lacks 93 port
    then Some (inside, port) else None
  else if lacks 58 before && lacks 91 before && lacks 93 before && lacks 91 port && lacks 93 port
  then Some (before, port) else None.

Definition SplitHost (hostport : list byte) : option (list byte) := fst <$> SplitHostPort hostport.

(** [net.JoinHostPort] *)
Definition JoinHostPort (host port : list byte) : list byte :=
  if lacks 58 host then host ++ chr 58 :: port else chr 91 :: host ++ [chr 93; chr 58] ++ port.

Example addr_v4 : AddrString <$> ParseAddr "203.0.113.7" = Some "203.0.113.7"%string.
Proof. reflexivity. Qed.
Example addr_v4_zero : ParseAddr "203.0.113.07" = None.
Proof. reflexivity. Qed.
Example addr_v6 : AddrString <$> ParseAddr "2001:DB8:0:0:1:0:0:1" = Some "2001:db8::1:0:0:1"%string.
Proof. vm_compute. reflexivity. Qed.
Example addr_mapped :
  (λ a, AddrString (Unmap a)) <$> ParseAddr "::ffff:10.0.0.1" = Some "10.0.0.1"%string.
Proof. vm_compute. reflexivity. Qed.
Example addr_zone : AddrString <$> ParseAddr "fe80::1%eth0" = Some "fe80::1%eth0"%string.
Proof. vm_compute. reflexivity. Qed.
Example addr_prefix :
  (p ← ParsePrefix "2400:cb00::/32"; a ← ParseAddr "2400:cb00:ff::1"; Some (Contains p a)) = Some true.
Proof. vm_compute. reflexivity. Qed.
Example host_v6 : text <$> SplitHost (bytes "[2001:db8::1]:443") = Some "2001:db8::1"%string.
Proof. vm_compute. reflexivity. Qed.
