(* ===== verification/Registration.v ===== *)
(** Admission of relays to the broker
    (src/libs/openrung/internal/broker/clientip.go, registration_cap.go,
    relayledger.go, server.go): which source a
    request is accounted to, the budget of new identities per source, the
    ledger of known identities, credentials, field validation, and the
    register and heartbeat handlers composed of them and the store. *)
From stdpp Require Import base list gmap strings.
From Stdlib Require Import ZArith Lia.
From S2P Require Import Prelude Codec GoTime Directory Fronts Ticket RelayIdentity Ranking BrokerStore Netip.

(** * The source of a request *)
Definition cloudflareIPRanges : list string :=
  [ "173.245.48.0/20"; "103.21.244.0/22"; "103.22.200.0/22"; "103.31.4.0/22";
    "141.101.64.0/18"; "108.162.192.0/18"; "190.93.240.0/20"; "188.114.96.0/20";
    "197.234.240.0/22"; "198.41.128.0/17"; "162.158.0.0/15"; "104.16.0.0/13";
    "104.24.0.0/14"; "172.64.0.0/13"; "131.0.72.0/22";
    "2400:cb00::/32"; "2606:4700::/32"; "2803:f800::/32"; "2405:b500::/32";
    "2405:8100::/32"; "2a06:98c0::/29"; "2c0f:f248::/32" ].

Definition newClientIPResolver (extraCIDRs : list string) : list Prefix :=
  omap (λ raw, Masked <$> ParsePrefix (TrimSpace raw)) (cloudflareIPRanges ++ extraCIDRs).

(** The parts of a request the resolver and the handlers read; a header is its
    first value or empty. *)
Record httpRequest := {
  hr_RemoteAddr : string;
  hr_CFConnectingIP : string;
  hr_XForwardedFor : string;
  hr_Authorization : string;
  hr_Path : string
}.

Definition trusts (trusted : list Prefix) (ip : string) : bool :=
  match ParseAddr ip with
  | None => false
  | Some addr => existsb (λ p, Contains p (Unmap addr)) trusted
  end.

Definition normalizedIP (s : string) : string :=
  match ParseAddr (TrimSpace s) with
  | None => ""
  | Some addr => AddrString (Unmap addr)
  end.

Definition peerIP (remoteAddr : string) : string :=
  let remoteAddr := TrimSpace remoteAddr in
  if str_empty remoteAddr then "" else
  normalizedIP (match SplitHost (bytes remoteAddr) with Some host => text host | None => remoteAddr end).

Fixpoint firstValidIP (parts : list (list byte)) : string :=
  match parts with
  | [] => ""
  | p :: rest => let ip := normalizedIP (text p) in if str_empty ip then firstValidIP rest else ip
  end.

Definition leftmostForwarded (header : string) : string := firstValidIP (splitOn 44 (bytes header)).

Definition clientIP (trusted : list Prefix) (r : httpRequest) : string :=
  let peer := peerIP (hr_RemoteAddr r) in
  if str_empty peer then TrimSpace (hr_RemoteAddr r) else
  if trusts trusted peer then
    let cf := normalizedIP (hr_CFConnectingIP r) in
    if negb (str_empty cf) then cf else
    let fwd := leftmostForwarded (hr_XForwardedFor r) in
    if negb (str_empty fwd) then fwd else peer
  else peer.

(** * The budget of new identities *)
Definition defaultMaxNewRelayIDsPerDay : Z := 64.
Definition newRelayCapWindow : Z := 24 * hour.
Definition newRelayCapRetryAfterSeconds : Z := 3600.
Definition rateLimiterMaxTrackedIPs : Z := 100000.

Record newRelayCap := {
  cap_limit : Z;
  cap_window : Z;
  cap_exempt : list Prefix;
  cap_maxKeys : Z;
  cap_sources : gmap string (list Z)
}.

Definition newNewRelayCap (limit window : Z) (exemptCIDRs : list string) : newRelayCap :=
  {| cap_limit := if limit =? 0 then defaultMaxNewRelayIDsPerDay else limit;
     cap_window := window;
     cap_exempt := omap (λ raw, ParsePrefix (TrimSpace raw)) exemptCIDRs;
     cap_maxKeys := rateLimiterMaxTrackedIPs; cap_sources := ∅ |}.

Definition withSources (c : newRelayCap) (m : gmap string (list Z)) : newRelayCap :=
  {| cap_limit := cap_limit c; cap_window := cap_window c; cap_exempt := cap_exempt c;
     cap_maxKeys := cap_maxKeys c; cap_sources := m |}.

(** The accounting key, or [None] for an exempt source. *)
Definition capKey (c : newRelayCap) (source : string) : option string :=
  match ParseAddr (TrimSpace source) with
  | None => Some source
  | Some addr =>
      let addr := Unmap addr in
      if existsb (λ p, Contains p addr) (cap_exempt c) then None
      else match prefix64 addr with
           | Some grouped => Some (PrefixString grouped)
           | None => Some (AddrString addr)
           end
  end.

Definition fresh (cutoff : Z) (stamps : list Z) : list Z := List.filter (λ at_, cutoff <? at_) stamps.

(** [sweepLocked] *)
Definition capSweep (m : gmap string (list Z)) (cutoff : Z) : gmap string (list Z) :=
  filter (λ '(_, entries), existsb (λ at_, cutoff <? at_) entries = true) m.

(** A charged unit, as the release closure holds it; [None] is the no-op. *)
Definition unit_ : Type := string * Z.

Definition reserve (c : newRelayCap) (source : string) (now : Z) : option unit_ * bool * newRelayCap :=
  if cap_limit c <? 0 then (None, true, c) else
  match capKey c source with
  | None => (None, true, c)
  | Some key =>
      let stamp := unix_milli now in
      let cutoff := wrap64 (stamp - milliseconds (cap_window c)) in
      let entries := cap_sources c !! key in
      let kept := fresh cutoff (default [] entries) in
      if cap_limit c <=? Z.of_nat (length kept)
      then (None, false, withSources c (<[key := kept]> (cap_sources c)))
      else
        let full m := cap_maxKeys c <=? Z.of_nat (size (m : gmap string (list Z))) in
        let tracked := bool_decide (is_Some entries) in
        let swept := if negb tracked && full (cap_sources c)
                     then capSweep (cap_sources c) cutoff else cap_sources c in
        if negb tracked && full (cap_sources c) && full swept
        then (None, true, withSources c swept)
        else (Some (key, stamp), true, withSources c (<[key := kept ++ [stamp]]> swept))
  end.

(** Removes the last occurrence. *)
Fixpoint dropFirst (x : Z) (l : list Z) : list Z :=
  match l with
  | [] => []
  | y :: l' => if y =? x then l' else y :: dropFirst x l'
  end.
Definition dropLast (x : Z) (l : list Z) : list Z := rev (dropFirst x (rev l)).

(** The body of the release closure, on its first call. *)
Definition release (c : newRelayCap) (u : unit_) : newRelayCap :=
  let '(key, stamp) := u in
  let remaining := default [] (cap_sources c !! key) in
  if existsb (Z.eqb stamp) remaining
  then withSources c (<[key := dropLast stamp remaining]> (cap_sources c))
  else c.

(** * The ledger of known identities *)
Definition telemetryRetention : Z := 7 * 24 * hour.
Definition relayLedgerTTL : Z := telemetryRetention.
Definition relayLedgerMaxEntries : Z := 16384.

Record relayLedgerEntry := { seenAt : Z; nodeClass : string }.

Record relayIDLedger := {
  lg_ttl : Z;
  lg_maxEntries : Z;
  lg_seen : gmap string relayLedgerEntry
}.

Definition newRelayIDLedger (ttl maxEntries : Z) : relayIDLedger :=
  {| lg_ttl := ttl; lg_maxEntries := maxEntries; lg_seen := ∅ |}.

Definition withSeen (l : relayIDLedger) (m : gmap string relayLedgerEntry) : relayIDLedger :=
  {| lg_ttl := lg_ttl l; lg_maxEntries := lg_maxEntries l; lg_seen := m |}.

Definition expiredEntry (l : relayIDLedger) (now : Z) (e : relayLedgerEntry) : bool :=
  lg_ttl l <? time_sub now (seenAt e).

Definition ledgerSweep (l : relayIDLedger) (now : Z) : relayIDLedger :=
  withSeen l (filter (λ '(_, e), expiredEntry l now e = false) (lg_seen l)).

Definition rememberIfNew (l : relayIDLedger) (id class : string) (now : Z) : bool * relayIDLedger :=
  if str_empty id then (false, l) else
  let entry := lg_seen l !! id in
  let covered := match entry with Some e => negb (expiredEntry l now e) | None => false end in
  let full l := lg_maxEntries l <=? Z.of_nat (size (lg_seen l)) in
  let absent := match entry with None => true | Some _ => false end in
  let swept := if absent && full l then ledgerSweep l now else l in
  if absent && full l && full swept then (true, swept)
  else (negb covered, withSeen swept (<[id := {| seenAt := now; nodeClass := class |}]> (lg_seen swept))).

Definition remember (l : relayIDLedger) (id class : string) (now : Z) : relayIDLedger :=
  (rememberIfNew l id class now).2.

Definition lookupLedger (l : relayIDLedger) (id : string) (now : Z) : option string * relayIDLedger :=
  match lg_seen l !! id with
  | None => (None, l)
  | Some e =>
      if expiredEntry l now e then (None, withSeen l (delete id (lg_seen l)))
      else (Some (nodeClass e), l)
  end.

(** * Credentials and fields *)
Definition bearerMatches (r : httpRequest) (token : string) : bool :=
  if str_empty token then false else str_eqb (hr_Authorization r) ("Bearer " +:+ token).

Definition authorized (r : httpRequest) (token : string) : bool :=
  if str_empty token then true else bearerMatches r token.

Record Config := {
  cfg_RegistrationToken : string;
  cfg_FoundationToken : string;
  cfg_RelayLeaseTTL : Z;
  cfg_WSSTicketSigningSeed : list byte;
  cfg_WSSTicketTTL : Z;
  cfg_WSSTicketMaxStreams : Z
}.

Definition credentialNodeClass (r : httpRequest) (cfg : Config) : option string :=
  if bearerMatches r (cfg_FoundationToken cfg) then Some NodeClassFoundation
  else if authorized r (cfg_RegistrationToken cfg) then Some NodeClassVolunteer
  else None.

Definition heartbeatRelayID (path : string) : option string :=
  let prefix := bytes "/api/v1/relays/" in
  let suffix := bytes "/heartbeat" in
  let bs := bytes path in
  if negb (bool_decide (take (length prefix) bs = prefix)) then None else
  let remainder := drop (length prefix) bs in
  let n := (length remainder - length suffix)%nat in
  let id := take n remainder in
  if negb (bool_decide (drop n remainder = suffix)) || bool_decide (id = []) || negb (lacks 47 id)
  then None else Some (text id).

Definition MaxLabelLength : nat := 63.

Definition labelByte (c : byte) : bool :=
  isLower c || in_range c 65 90 || isDigit c || (val c =? 45) || (val c =? 95) || (val c =? 46).

(** A label with a rune outside the charset is refused whatever its length;
    otherwise its runes are its bytes. *)
Definition NormalizeLabel (label : string) : option string :=
  let label := TrimSpace label in
  if str_empty label then Some "" else
  if forallb labelByte (bytes label) && (String.length label <=? MaxLabelLength)%nat
  then Some label else None.

(** [utf8.ValidString] *)
Definition contByte (lo hi : Z) (c : byte) : bool := (lo <=? val c) && (val c <=? hi).

Fixpoint validUTF8 (s : list byte) : bool :=
  match s with
  | [] => true
  | a :: s1 =>
      if val a <? 128 then validUTF8 s1 else
      match s1 with
      | [] => false
      | b :: s2 =>
          if contByte 194 223 a then contByte 128 191 b && validUTF8 s2 else
          match s2 with
          | [] => false
          | c :: s3 =>
              if contByte 224 239 a then
                contByte (if val a =? 224 then 160 else 128) (if val a =? 237 then 159 else 191) b &&
                contByte 128 191 c && validUTF8 s3
              else match s3 with
                   | [] => false
                   | d :: s4 =>
                       contByte 240 244 a &&
                       contByte (if val a =? 240 then 144 else 128) (if val a =? 244 then 143 else 191) b &&
                       contByte 128 191 c && contByte 128 191 d && validUTF8 s4
                   end
          end
      end
  end.

Definition storableText (s : string) : bool := validUTF8 (bytes s) && lacks 0 (bytes s).

(** A control character of valid UTF-8: C0, DEL, or C1. *)
Fixpoint hasControl (s : list byte) : bool :=
  match s with
  | [] => false
  | a :: s' =>
      (val a <? 32) || (val a =? 127) ||
      ((val a =? 194) && match s' with b :: _ => contByte 128 159 b | [] => false end) || hasControl s'
  end.

Definition registerTextValid (req : RegisterRequest) : bool :=
  forallb (λ v, storableText v && negb (hasControl (bytes v)))
    [rq_ClientID req; rq_RealityPublicKey req; rq_ShortID req; rq_RelayVersion req; rq_PunchEndpoint req].

Definition maxRegisterHostBytes : nat := 253.
Definition maxRegisterFieldBytes : nat := 128.

Definition hostLabel (l : list byte) : bool :=
  match l, last l with
  | first :: _, Some final =>
      (length l <=? 63)%nat && negb (val first =? 45) && negb (val final =? 45) &&
      forallb (λ c, isLower c || in_range c 65 90 || isDigit c || (val c =? 45)) l
  | _, _ => false
  end.

Definition validEndpointHost (host : string) : bool :=
  if (maxRegisterHostBytes <? String.length host)%nat then false
  else match ParseAddr host with
       | Some _ => true
       | None => forallb hostLabel (splitOn 46 (bytes host))
       end.

Definition boundedField (s : string) : bool :=
  negb (str_empty s) && (String.length s <=? maxRegisterFieldBytes)%nat.

(** The cases of [validateRegisterRequest]; [None] is no error. *)
Definition validateRegisterRequest (req : RegisterRequest) : option string :=
  if str_empty (rq_PublicHost req) then Some "public_host is required" else
  if negb (validEndpointHost (rq_PublicHost req)) then Some "public_host must be a DNS hostname or IP address" else
  if (rq_PublicPort req <? 1) || (65535 <? rq_PublicPort req) then Some "public_port must be between 1 and 65535" else
  if negb (str_eqb (rq_Protocol req) ProtocolVLESSRealityVision) then Some "protocol must be vless-reality-vision" else
  if negb (boundedField (rq_ClientID req)) then Some "client_id is required and must be at most 128 characters" else
  if negb (boundedField (rq_RealityPublicKey req))
  then Some "reality_public_key is required and must be at most 128 characters" else
  if negb (boundedField (rq_ShortID req)) then Some "short_id is required and must be at most 128 characters" else
  if str_empty (rq_ServerName req) || negb (validEndpointHost (rq_ServerName req))
  then Some "server_name must be a DNS hostname or IP address" else
  if negb (str_eqb (rq_Flow req) FlowVision) then Some "flow must be xtls-rprx-vision" else
  if negb (str_eqb (rq_ExitMode req) ExitModeDirect) && negb (str_eqb (rq_ExitMode req) ExitModeDedicated)
  then Some "exit_mode must be direct or dedicated" else
  if negb (str_empty (rq_Transport req)) && negb (str_eqb (rq_Transport req) TransportDirect)
     && negb (str_eqb (rq_Transport req) TransportTunnel) then Some "transport must be direct or tunnel" else
  if negb (str_empty (rq_ExitHost req)) && negb (str_eqb (rq_Transport req) TransportTunnel)
  then Some "exit_host is only allowed for tunnel transport" else
  if negb (str_empty (rq_ExitHost req)) && negb (validEndpointHost (rq_ExitHost req))
  then Some "exit_host must be a DNS hostname or IP address" else
  if rq_MaxSessions req <? 1 then Some "max_sessions must be at least 1" else
  if rq_MaxMbps req <? 1 then Some "max_mbps must be at least 1" else
  if (maxRegisterFieldBytes <? String.length (rq_RelayVersion req))%nat
  then Some "relay_version must be at most 128 characters" else
  if (2 * maxRegisterFieldBytes <? String.length (rq_PunchEndpoint req))%nat
  then Some "punch_endpoint must be at most 256 characters" else
  if negb (registerTextValid req)
  then Some "registration fields must be valid UTF-8 without control characters" else None.

(** * The budget holds over every trailing window

    Calls interleave arbitrarily; [outstanding] are the units that were charged
    and not handed back, and [clock] is the time of the latest reservation.  A
    closure hands its unit back once. *)
Inductive capOp :=
| CapReserve (source : string) (now : Z)
| CapRelease (u : unit_).

Record capRun := { cr_cap : newRelayCap; cr_outstanding : list unit_; cr_clock : Z }.

Fixpoint dropUnit (u : unit_) (l : list unit_) : list unit_ :=
  match l with
  | [] => []
  | v :: l' => if bool_decide (u = v) then l' else v :: dropUnit u l'
  end.

Definition capStep (r : capRun) (op : capOp) : capRun :=
  match op with
  | CapReserve source now =>
      let '(u, _, c) := reserve (cr_cap r) source now in
      {| cr_cap := c; cr_outstanding := match u with Some u => u :: cr_outstanding r | None => cr_outstanding r end;
         cr_clock := now |}
  | CapRelease u =>
      if bool_decide (u ∈ cr_outstanding r)
      then {| cr_cap := release (cr_cap r) u; cr_outstanding := dropUnit u (cr_outstanding r);
              cr_clock := cr_clock r |}
      else r
  end.

(** The reservations of a run happen in time order. *)
Fixpoint timely (clock : Z) (ops : list capOp) : bool :=
  match ops with
  | [] => true
  | CapReserve _ now :: rest => (clock <=? now) && (now <? 2 ^ 63) && timely now rest
  | CapRelease _ :: rest => timely clock rest
  end.

Definition cutoffAt (c : newRelayCap) (now : Z) : Z :=
  wrap64 (unix_milli now - milliseconds (cap_window c)).

(** The stamps of [key] after a cutoff. *)
Definition unitsOf (key : string) (cutoff : Z) (l : list unit_) : list Z :=
  (List.filter (λ u, str_eqb u.1 key && (cutoff <? u.2)) l).*2.

Definition stampsOf (c : newRelayCap) (key : string) : list Z := default [] (cap_sources c !! key).

Record cap_ok (r : capRun) : Prop := {
  ok_match key : fresh (cutoffAt (cr_cap r) (cr_clock r)) (stampsOf (cr_cap r) key) ≡ₚ
                 unitsOf key (cutoffAt (cr_cap r) (cr_clock r)) (cr_outstanding r);
  ok_limit key : 0 ≤ cap_limit (cr_cap r) →
    Z.of_nat (length (unitsOf key (cutoffAt (cr_cap r) (cr_clock r)) (cr_outstanding r))) ≤ cap_limit (cr_cap r)
}.

Lemma fresh_fresh a b l : a ≤ b → fresh b (fresh a l) = fresh b l.
Proof.
  intros Hab. unfold fresh. induction l as [|x l IH]; [done|]. cbn.
  destruct (Z.ltb_spec a x); cbn; rewrite IH; [done|]. destruct (Z.ltb_spec b x); [lia|done].
Qed.

Lemma fresh_perm a l k : l ≡ₚ k → fresh a l ≡ₚ fresh a k.
Proof.
  unfold fresh. induction 1 as [|x l k _ IH|x y l|l k m _ IH1 _ IH2]; cbn.
  - done.
  - case_match; by rewrite IH.
  - repeat case_match; try done. apply Permutation_swap.
  - by rewrite IH1.
Qed.

Lemma unitsOf_fresh a b key l : a ≤ b → fresh b (unitsOf key a l) = unitsOf key b l.
Proof.
  intros Hab. unfold fresh, unitsOf. induction l as [|[k x] l IH]; [done|]. cbn.
  destruct (str_eqb k key); cbn; [|done]. destruct (Z.ltb_spec a x), (Z.ltb_spec b x); cbn; try lia; try done.
  - destruct (Z.ltb_spec b x); [|lia]. by rewrite IH.
  - destruct (Z.ltb_spec b x); [lia|]. by rewrite IH.
Qed.

Lemma dropFirst_perm x l : x ∈ l → x :: dropFirst x l ≡ₚ l.
Proof.
  induction l as [|y l IH]; [by intros ?%not_elem_of_nil|]. cbn.
  destruct (Z.eqb_spec y x) as [->|]; [done|]. intros [->|Hx]%elem_of_cons; [done|].
  rewrite Permutation_swap. by rewrite (IH Hx).
Qed.

Lemma dropLast_perm x l : x ∈ l → x :: dropLast x l ≡ₚ l.
Proof.
  intros Hx. unfold dropLast. etrans; [apply Permutation_cons; [done|]; symmetry; apply Permutation_rev|].
  rewrite dropFirst_perm; [symmetry; apply Permutation_rev|].
  by rewrite list_elem_of_In, <- in_rev, <- list_elem_of_In.
Qed.

Lemma dropUnit_perm u l : u ∈ l → u :: dropUnit u l ≡ₚ l.
Proof.
  induction l as [|y l IH]; [by intros ?%not_elem_of_nil|]. cbn.
  case_bool_decide as Hu; [by subst|]. intros [->|Hx]%elem_of_cons; [done|].
  rewrite Permutation_swap. by rewrite (IH Hx).
Qed.

Lemma unitsOf_perm key a l k : l ≡ₚ k → unitsOf key a l ≡ₚ unitsOf key a k.
Proof.
  intros H. unfold unitsOf. apply fmap_Permutation.
  induction H as [|x l k _ IH|x y l|l k m _ IH1 _ IH2]; cbn;
    [done|case_match; by rewrite IH|repeat case_match; try done; apply Permutation_swap|by rewrite IH1].
Qed.

Lemma unitsOf_cons key a k x l :
  unitsOf key a ((k, x) :: l) = if str_eqb k key && (a <? x) then x :: unitsOf key a l else unitsOf key a l.
Proof. unfold unitsOf. cbn. by destruct (str_eqb k key && (a <? x)). Qed.

Lemma capSweep_fresh m cutoff key :
  fresh cutoff (default [] (capSweep m cutoff !! key)) = fresh cutoff (default [] (m !! key)).
Proof.
  unfold capSweep. destruct (m !! key) as [l|] eqn:E; cbn.
  - destruct (existsb (λ a, cutoff <? a) l) eqn:Ex.
    + rewrite map_lookup_filter, E. cbn. by rewrite option_guard_True.
    + rewrite map_lookup_filter, E. cbn. rewrite option_guard_False by congruence. cbn.
      symmetry. apply filter_bool_none. intros x Hx.
      destruct (cutoff <? x) eqn:El; [|done].
      assert (existsb (λ a, cutoff <? a) l = true); [|congruence].
      apply existsb_exists. exists x. by rewrite <- list_elem_of_In.
  - by rewrite map_lookup_filter, E.
Qed.

Lemma unix_milli_eq now : 0 ≤ now < 2 ^ 63 → unix_milli now = now / millisecond ∧ 0 ≤ now / millisecond < 2 ^ 62.
Proof.
  intros Hn. assert (0 ≤ now / millisecond < 2 ^ 62) as Hd
    by (unfold millisecond; Z.to_euclidean_division_equations; lia).
  split; [|done]. unfold unix_milli. apply wrap64_id. unfold in_int64, int64_min, int64_max. lia.
Qed.

Lemma cutoffAt_eq c now :
  0 ≤ milliseconds (cap_window c) < 2 ^ 62 → 0 ≤ now < 2 ^ 63 →
  cutoffAt c now = now / millisecond - milliseconds (cap_window c).
Proof.
  intros Hw Hn. destruct (unix_milli_eq now Hn) as [E Hb]. unfold cutoffAt. rewrite E.
  apply wrap64_id. unfold in_int64, int64_min, int64_max. lia.
Qed.

(** Reservations at a later time leave the recent stamps of other keys alone. *)
Lemma cutoffAt_mono c now now' :
  0 ≤ milliseconds (cap_window c) < 2 ^ 62 → 0 ≤ now ≤ now' → now' < 2 ^ 63 →
  cutoffAt c now ≤ cutoffAt c now'.
Proof.
  intros Hw Hn Hn'. rewrite !cutoffAt_eq by lia.
  pose proof (Z.div_le_mono now now' millisecond eq_refl ltac:(lia)). lia.
Qed.

Lemma stamp_after_cutoff c now :
  0 < milliseconds (cap_window c) < 2 ^ 62 → 0 ≤ now < 2 ^ 63 → cutoffAt c now < unix_milli now.
Proof. intros Hw Hn. rewrite cutoffAt_eq by lia. rewrite (proj1 (unix_milli_eq now Hn)). lia. Qed.

Lemma reserve_config c source now :
  let c' := (reserve c source now).2 in
  cap_limit c' = cap_limit c ∧ cap_window c' = cap_window c.
Proof. unfold reserve. by repeat case_match. Qed.

(** What a reservation does to the recent stamps of every key. *)
Lemma reserve_stamps c source now key :
  let '(u, _, c') := reserve c source now in
  let cutoff := cutoffAt c now in
  0 < milliseconds (cap_window c) < 2 ^ 62 → 0 ≤ now < 2 ^ 63 →
  match u with
  | Some (k, stamp) =>
      stamp = unix_milli now ∧
      Z.of_nat (length (fresh cutoff (stampsOf c k))) < cap_limit c ∧
      fresh cutoff (stampsOf c' key) =
        if str_eqb k key then fresh cutoff (stampsOf c key) ++ [stamp] else fresh cutoff (stampsOf c key)
  | None => fresh cutoff (stampsOf c' key) = fresh cutoff (stampsOf c key)
  end.
Proof.
  unfold reserve. destruct (cap_limit c <? 0); [done|].
  destruct (capKey c source) as [k|]; [|done].
  fold (cutoffAt c now) (stampsOf c k). set (cutoff := cutoffAt c now). set (kept := fresh cutoff (stampsOf c k)).
  assert (fresh cutoff kept = kept) as Hidem by (apply fresh_fresh; lia).
  destruct (Z.leb_spec (cap_limit c) (Z.of_nat (length kept))) as [Hl|Hl].
  { intros _ _. unfold stampsOf. cbn [cap_sources withSources]. destruct (decide (k = key)) as [->|Hk].
    - by rewrite lookup_insert_eq.
    - by rewrite lookup_insert_ne. }
  set (swept := if negb _ && _ then _ else _).
  assert (fresh cutoff (default [] (swept !! key)) = fresh cutoff (stampsOf c key)) as Hsw.
  { unfold swept. case_match; [apply capSweep_fresh|done]. }
  destruct (_ && _ && _); [done|]. intros Hw Hn. split_and!; [done|done|].
  unfold stampsOf at 1. cbn [cap_sources withSources]. destruct (str_eqb k key) eqn:Ek.
  - apply str_eqb_true in Ek as ->. rewrite lookup_insert_eq. cbn [from_option id].
    unfold fresh at 1. rewrite List.filter_app. fold (fresh cutoff kept). rewrite Hidem. f_equal.
    cbn [List.filter]. by rewrite (proj2 (Z.ltb_lt cutoff _) (stamp_after_cutoff c now Hw Hn)).
  - rewrite lookup_insert_ne; [done|]. intros E. by rewrite (proj2 (str_eqb_true _ _) E) in Ek.
Qed.

Lemma release_config c u : cap_limit (release c u) = cap_limit c ∧ cap_window (release c u) = cap_window c.
Proof. unfold release. destruct u. by case_match. Qed.

Lemma release_fresh c key stamp k cutoff :
  (cutoff < stamp → stamp ∈ stampsOf c key) →
  fresh cutoff (stampsOf c k) ≡ₚ
    (if str_eqb key k && (cutoff <? stamp) then [stamp] else []) ++
    fresh cutoff (stampsOf (release c (key, stamp)) k).
Proof.
  intros Hin. unfold release. fold (stampsOf c key).
  destruct (str_eqb key k) eqn:Ek; cbn [andb].
  - apply str_eqb_true in Ek as <-.
    destruct (existsb (Z.eqb stamp) (stampsOf c key)) eqn:E.
    + apply existsb_exists in E as (x & Hx%list_elem_of_In & <-%Z.eqb_eq).
      rewrite <- (fresh_perm cutoff _ _ (dropLast_perm stamp (stampsOf c key) Hx)).
      unfold stampsOf at 2. cbn [cap_sources withSources]. rewrite lookup_insert_eq. cbn [from_option id].
      unfold fresh at 1. cbn [List.filter]. by destruct (cutoff <? stamp).
    + destruct (Z.ltb_spec cutoff stamp) as [Hl|]; [|done].
      assert (existsb (Z.eqb stamp) (stampsOf c key) = true); [|congruence].
      apply existsb_exists. exists stamp. rewrite Z.eqb_refl, <- list_elem_of_In. auto.
  - destruct (existsb _ _); [|done]. unfold stampsOf at 2. cbn [cap_sources withSources].
    rewrite lookup_insert_ne; [done|]. intros E. by rewrite (proj2 (str_eqb_true _ _) E) in Ek.
Qed.

Lemma elem_of_fresh a l x : x ∈ fresh a l ↔ x ∈ l ∧ a < x.
Proof. unfold fresh. by rewrite elem_of_filter_bool, Z.ltb_lt. Qed.

Lemma capStep_release r u : cap_ok r → cap_ok (capStep r (CapRelease u)).
Proof.
  intros [Hm Hl]. cbn [capStep]. case_bool_decide as Hu; [|done]. destruct u as [key stamp].
  set (K := cutoffAt (cr_cap r) (cr_clock r)) in *.
  pose proof (dropUnit_perm _ _ Hu) as Hd.
  assert (cutoffAt (release (cr_cap r) (key, stamp)) (cr_clock r) = K) as EK.
  { unfold cutoffAt, K. by rewrite (proj2 (release_config _ _)). }
  assert (∀ k, unitsOf k K (cr_outstanding r) ≡ₚ
    (if str_eqb key k && (K <? stamp) then [stamp] else []) ++ unitsOf k K (dropUnit (key, stamp) (cr_outstanding r))) as Hun.
  { intros k. rewrite <- (unitsOf_perm k K _ _ Hd), unitsOf_cons. by destruct (_ && _). }
  split; cbn [cr_cap cr_outstanding cr_clock]; intros k; rewrite EK, ?(proj1 (release_config _ _)).
  - assert (K < stamp → stamp ∈ stampsOf (cr_cap r) key) as Hin.
    { intros Hs. specialize (Hm key). rewrite Hun, (proj2 (str_eqb_true _ _) eq_refl),
        (proj2 (Z.ltb_lt _ _) Hs) in Hm. cbn [andb app] in Hm.
      assert (stamp ∈ fresh K (stampsOf (cr_cap r) key)) as H by (rewrite Hm; left).
      by apply elem_of_fresh in H as [H _]. }
    specialize (Hm k). rewrite (release_fresh _ key stamp k K Hin), Hun in Hm.
    by apply Permutation_app_inv_l in Hm.
  - intros H0. specialize (Hl k H0). rewrite Hun, length_app in Hl. lia.
Qed.

(** The match between stamps and units survives the passing of time. *)
Lemma cap_ok_later r now k :
  0 < milliseconds (cap_window (cr_cap r)) < 2 ^ 62 → 0 ≤ cr_clock r ≤ now → now < 2 ^ 63 →
  cap_ok r →
  fresh (cutoffAt (cr_cap r) now) (stampsOf (cr_cap r) k) ≡ₚ
  unitsOf k (cutoffAt (cr_cap r) now) (cr_outstanding r).
Proof.
  intros Hw Hc Hn [Hm _].
  assert (cutoffAt (cr_cap r) (cr_clock r) ≤ cutoffAt (cr_cap r) now) as HK by (apply cutoffAt_mono; lia).
  rewrite <- (fresh_fresh _ _ _ HK), <- (unitsOf_fresh _ _ _ _ HK). by apply fresh_perm.
Qed.

Lemma capStep_reserve r source now :
  0 < milliseconds (cap_window (cr_cap r)) < 2 ^ 62 → 0 ≤ cr_clock r ≤ now → now < 2 ^ 63 →
  cap_ok r → cap_ok (capStep r (CapReserve source now)).
Proof.
  intros Hw Hc Hn Hok. pose proof (λ k, cap_ok_later r now k Hw Hc Hn Hok) as HmK.
  destruct Hok as [Hm Hl]. cbn [capStep].
  pose proof (λ k, reserve_stamps (cr_cap r) source now k) as Hs.
  pose proof (reserve_config (cr_cap r) source now) as [El Ew].
  destruct (reserve (cr_cap r) source now) as [[u ok] c']. cbn [snd] in *.
  assert (cutoffAt c' now = cutoffAt (cr_cap r) now) as EK by (unfold cutoffAt; by rewrite Ew).
  set (K := cutoffAt (cr_cap r) now) in *. set (K0 := cutoffAt (cr_cap r) (cr_clock r)) in *.
  assert (K0 ≤ K) as HK by (apply cutoffAt_mono; lia).
  assert (∀ k, 0 ≤ cap_limit (cr_cap r) → Z.of_nat (length (unitsOf k K (cr_outstanding r))) ≤ cap_limit (cr_cap r)) as HlK.
  { intros k H0. specialize (Hl k H0). rewrite <- (unitsOf_fresh K0 K) by done. unfold fresh.
    pose proof (filter_length_le (λ a, K <? a) (unitsOf k K0 (cr_outstanding r))). lia. }
  split; cbn [cr_cap cr_outstanding cr_clock]; intros k; rewrite EK; specialize (Hs k Hw ltac:(lia));
    destruct u as [[k' stamp]|]; rewrite ?unitsOf_cons.
  - destruct Hs as (-> & _ & ->).
    rewrite (proj2 (Z.ltb_lt K _) (stamp_after_cutoff (cr_cap r) now Hw ltac:(lia))), andb_true_r.
    destruct (str_eqb k' k); [|done]. rewrite HmK. by rewrite Permutation_app_comm.
  - by rewrite Hs, HmK.
  - rewrite El. intros H0. destruct Hs as (_ & Hlt & _). destruct (_ && _) eqn:E; [|by apply HlK].
    apply andb_true_iff in E as [<-%str_eqb_true _]. rewrite HmK in Hlt. cbn [length]. lia.
  - rewrite El. by apply HlK.
Qed.

Definition capStart (limit window : Z) (exempt : list string) : capRun :=
  {| cr_cap := newNewRelayCap limit window exempt; cr_outstanding := []; cr_clock := 0 |}.

Lemma capStep_config r op :
  cap_limit (cr_cap (capStep r op)) = cap_limit (cr_cap r) ∧
  cap_window (cr_cap (capStep r op)) = cap_window (cr_cap r).
Proof.
  destruct op as [source now|u]; cbn [capStep].
  - pose proof (reserve_config (cr_cap r) source now) as H. by destruct (reserve _ _ _) as [[u ok] c'].
  - case_bool_decide; [|done]. apply release_config.
Qed.

Lemma capRun_ok ops r :
  0 < milliseconds (cap_window (cr_cap r)) < 2 ^ 62 → 0 ≤ cr_clock r → timely (cr_clock r) ops = true →
  cap_ok r →
  let r' := foldl capStep r ops in
  cap_ok r' ∧ 0 ≤ cr_clock r' ∧
  cap_limit (cr_cap r') = cap_limit (cr_cap r) ∧ cap_window (cr_cap r') = cap_window (cr_cap r).
Proof.
  revert r. induction ops as [|op ops IH]; intros r Hw Hc Ht Hok; cbn [foldl]; [done|].
  destruct (capStep_config r op) as [E1 E2]. rewrite <- E1, <- E2.
  apply IH; [by rewrite E2|..].
  - destruct op; cbn [capStep timely] in *; [|by case_bool_decide].
    rewrite !andb_true_iff, Z.leb_le in Ht. destruct (reserve _ _ _) as [[u ok] c']. cbn. lia.
  - destruct op; cbn [capStep timely] in *; [|by case_bool_decide].
    rewrite !andb_true_iff in Ht. destruct (reserve _ _ _) as [[u ok] c']. apply Ht.
  - destruct op as [source now|u]; [|by apply capStep_release].
    cbn [timely] in Ht. rewrite !andb_true_iff, Z.leb_le, Z.ltb_lt in Ht. apply capStep_reserve; try done; lia.
Qed.

Lemma reserve_refusal c source now :
  (reserve c source now).1.2 = false →
  ∃ key, capKey c source = Some key ∧ cap_limit c ≤ Z.of_nat (length (fresh (cutoffAt c now) (stampsOf c key))).
Proof.
  unfold reserve. destruct (cap_limit c <? 0); [done|]. destruct (capKey c source) as [key|]; [|done].
  fold (cutoffAt c now) (stampsOf c key). destruct (Z.leb_spec (cap_limit c)
    (Z.of_nat (length (fresh (cutoffAt c now) (stampsOf c key))))); [by exists key|]. by repeat case_match.
Qed.

(** However registrations interleave with roll-backs, no accounting key
    ever holds more charged new identities inside the trailing window than its
    limit, and a source is refused only when it has used up that limit: rolled
    back reservations and reservations older than the window are never held
    against it. *)
Lemma new_identity_budget (limit window : Z) (exempt : list string) (ops : list capOp)
    (source : string) (now : Z) :
  0 ≤ limit → 0 < milliseconds window < 2 ^ 62 → timely 0 (ops ++ [CapReserve source now]) = true →
  let max := if limit =? 0 then defaultMaxNewRelayIDsPerDay else limit in
  let r := foldl capStep (capStart limit window exempt) ops in
  let charged key := Z.of_nat (length (unitsOf key (cutoffAt (cr_cap r) now) (cr_outstanding r))) in
  (∀ key, charged key ≤ max) ∧
  ((reserve (cr_cap r) source now).1.2 = false →
   ∃ key, capKey (cr_cap r) source = Some key ∧ charged key = max).
Proof.
  intros Hlim Hw Ht max r charged.
  assert (cap_ok (capStart limit window exempt)) as H0.
  { split; intros key; [done|]. cbn. case_match; unfold defaultMaxNewRelayIDsPerDay; lia. }
  assert (timely 0 ops = true ∧ cr_clock r ≤ now < 2 ^ 63) as [Hts Hnow].
  { unfold r. change 0 with (cr_clock (capStart limit window exempt)) in Ht |- *. clear H0 charged r.
    revert Ht. generalize (capStart limit window exempt) as r.
    induction ops as [|op ops IH]; intros r; cbn [app foldl].
    - cbn [timely]. rewrite !andb_true_iff, Z.leb_le, Z.ltb_lt. intros [[? ?] _]. done.
    - destruct op as [src t|u].
      + cbn [timely]. rewrite !andb_true_iff. intros [[Ha Hb] Hrest].
        specialize (IH (capStep r (CapReserve src t))). cbn [capStep] in *.
        destruct (reserve _ _ _) as [[u ok] c']. cbn [cr_clock] in *. destruct (IH Hrest). auto.
      + cbn [timely]. intros Hrest. specialize (IH (capStep r (CapRelease u))). cbn [capStep] in *.
        case_bool_decide; cbn [cr_clock] in *; by apply IH. }
  destruct (capRun_ok ops (capStart limit window exempt) Hw ltac:(cbn; lia) Hts H0) as (Hok & Hclk & El & Ew).
  fold r in Hok, Hclk, El, Ew.
  pose proof (λ k, cap_ok_later r now k ltac:(by rewrite Ew) ltac:(lia) ltac:(lia) Hok) as Hlater.
  assert (∀ key, charged key ≤ max) as Hall.
  { intros key. unfold charged.
    assert (cutoffAt (cr_cap r) (cr_clock r) ≤ cutoffAt (cr_cap r) now) as HK
      by (apply cutoffAt_mono; rewrite ?Ew; cbn; lia).
    pose proof (ok_limit r Hok key) as Hk. rewrite El in Hk. cbn in Hk. fold max in Hk.
    rewrite <- (unitsOf_fresh _ _ _ _ HK). unfold fresh.
    pose proof (filter_length_le (λ a, cutoffAt (cr_cap r) now <? a)
      (unitsOf key (cutoffAt (cr_cap r) (cr_clock r)) (cr_outstanding r))).
    unfold max in *. destruct (limit =? 0); unfold defaultMaxNewRelayIDsPerDay in *; lia. }
  split; [done|]. intros (key & Hk & Hle)%reserve_refusal. exists key. split; [done|].
  rewrite Hlater, El in Hle. cbn in Hle. fold max in Hle. specialize (Hall key). unfold charged in *. lia.
Qed.

Lemma new_identity_budget_witness :
  let ops := [CapReserve "203.0.113.7" 1000000; CapReserve "203.0.113.7" 2000000;
              CapRelease ("203.0.113.7"%string, 1); CapReserve "203.0.113.7" 3000000] in
  let r := foldl capStep (capStart 2 newRelayCapWindow []) ops in
  (reserve (cr_cap r) "203.0.113.7" 4000000).1.2 = false ∧
  ∃ key, capKey (cr_cap r) "203.0.113.7" = Some key ∧
    Z.of_nat (length (unitsOf key (cutoffAt (cr_cap r) 4000000) (cr_outstanding r))) = 2.
Proof.
  intros ops r. assert ((reserve (cr_cap r) "203.0.113.7" 4000000).1.2 = false) as H
    by (vm_compute; reflexivity). split; [exact H|].
  apply (new_identity_budget 2 newRelayCapWindow [] ops "203.0.113.7" 4000000).
  - lia.
  - split; reflexivity.
  - vm_compute. reflexivity.
  - exact H.
Defined.

(** * The ledger *)
Lemma lookup_sweep l now id :
  lg_seen (ledgerSweep l now) !! id =
    match lg_seen l !! id with
    | Some e => if expiredEntry l now e then None else Some e
    | None => None
    end.
Proof.
  unfold ledgerSweep. cbn [lg_seen withSeen]. rewrite map_lookup_filter.
  destruct (lg_seen l !! id) as [e|]; [|done]. cbn.
  destruct (expiredEntry l now e) eqn:E; [by rewrite option_guard_False|by rewrite option_guard_True].
Qed.

Lemma ledger_known l id now :
  (lookupLedger l id now).1 =
    match lg_seen l !! id with
    | Some e => if expiredEntry l now e then None else Some (nodeClass e)
    | None => None
    end.
Proof. unfold lookupLedger. destruct (lg_seen l !! id) as [e|]; [|done]. by case_match. Qed.

(** A lookup may forget an expired entry, never a known one. *)
Lemma lookupLedger_keeps l id id' now :
  (lookupLedger (lookupLedger l id now).2 id' now).1 = (lookupLedger l id' now).1.
Proof.
  unfold lookupLedger at 2. destruct (lg_seen l !! id) as [e|] eqn:E; [|done].
  destruct (expiredEntry l now e) eqn:Ex; [|done]. cbn [snd]. rewrite !ledger_known. cbn [lg_seen withSeen].
  destruct (decide (id' = id)) as [->|Hne]; [by rewrite lookup_delete_eq, E, Ex|].
  by rewrite lookup_delete_ne.
Qed.

Lemma ledger_known_sweep l id now :
  (lookupLedger (ledgerSweep l now) id now).1 = (lookupLedger l id now).1.
Proof.
  rewrite !ledger_known, lookup_sweep. destruct (lg_seen l !! id) as [e|]; [|done].
  destruct (expiredEntry l now e) eqn:E; [done|].
  change (expiredEntry (ledgerSweep l now) now e) with (expiredEntry l now e). by rewrite E.
Qed.

Lemma size_sweep l now : (size (lg_seen (ledgerSweep l now)) ≤ size (lg_seen l))%nat.
Proof. unfold ledgerSweep. cbn [lg_seen withSeen]. apply map_size_filter. Qed.

(** The ledger charges an identity once.  A sighting is reported as new
    exactly when the ID was not covered before it, the ledger never outgrows
    its limit, other covered IDs stay covered with their class, and a sighting
    that was covered or found room keeps the ID covered, with the class just
    attested, for the whole retention. *)
Lemma ledger_charges_once (l : relayIDLedger) (id class : string) (now : Z) :
  id ≠ ""%string → 0 ≤ lg_ttl l → Z.of_nat (size (lg_seen l)) ≤ lg_maxEntries l →
  let '(isNew, l') := rememberIfNew l id class now in
  Z.of_nat (size (lg_seen l')) ≤ lg_maxEntries l' ∧
  (isNew = false ↔ is_Some (lookupLedger l id now).1) ∧
  (∀ other c, other ≠ id → (lookupLedger l other now).1 = Some c → (lookupLedger l' other now).1 = Some c) ∧
  (isNew = false ∨ Z.of_nat (size (lg_seen (ledgerSweep l now))) < lg_maxEntries l →
   ∀ later, now ≤ later ≤ now + lg_ttl l → (lookupLedger l' id later).1 = Some class).
Proof.
  intros Hid Httl Hsize. unfold rememberIfNew. cbv zeta.
  rewrite (proj2 (bool_decide_eq_false (id = ""%string)) Hid : str_empty id = false).
  rewrite ledger_known. destruct (lg_seen l !! id) as [e|] eqn:E.
  - cbn [andb]. split_and!.
    + cbn [lg_seen lg_maxEntries withSeen]. by rewrite map_size_insert_Some.
    + rewrite negb_involutive. destruct (expiredEntry l now e); [split; [done|by intros [? ?]]|split; [eauto|done]].
    + intros other c Ho. rewrite !ledger_known. cbn [lg_seen withSeen]. by rewrite lookup_insert_ne.
    + intros _ later Hl. rewrite ledger_known. cbn [lg_seen withSeen]. rewrite lookup_insert_eq.
      unfold expiredEntry, time_sub. cbn [lg_ttl withSeen seenAt nodeClass].
      rewrite (proj2 (Z.ltb_ge _ _)); [done|]. unfold int64_min, int64_max. lia.
  - cbn [andb]. set (full x := lg_maxEntries x <=? Z.of_nat (size (lg_seen x))).
    set (swept := if full l then ledgerSweep l now else l).
    assert (∀ other c, (lookupLedger l other now).1 = Some c → (lookupLedger swept other now).1 = Some c) as Hkeep.
    { intros other c. unfold swept. destruct (full l); [|done]. by rewrite ledger_known_sweep. }
    assert (lg_maxEntries swept = lg_maxEntries l ∧ lg_ttl swept = lg_ttl l) as [Em Et]
      by (unfold swept; by destruct (full l)).
    assert (lg_seen swept !! id = None) as Hnone.
    { unfold swept. destruct (full l); [|done]. by rewrite lookup_sweep, E. }
    change (lg_maxEntries l <=? Z.of_nat (size (lg_seen l))) with (full l). fold swept.
    change (lg_maxEntries swept <=? Z.of_nat (size (lg_seen swept))) with (full swept). destruct (full l && full swept) eqn:Ef.
    + apply andb_true_iff in Ef as [Ef1 Ef2]. split; [|split; [split; [done|by intros [? ?]]|split; [auto|]]].
      * unfold swept. rewrite Ef1. pose proof (size_sweep l now). change (lg_maxEntries (ledgerSweep l now)) with (lg_maxEntries l). lia.
      * intros [?|Hroom]; [done|]. unfold full, swept in Ef2. rewrite Ef1 in Ef2.
        change (lg_maxEntries (ledgerSweep l now)) with (lg_maxEntries l) in Ef2. cmp_lia.
    + split; [|split; [|split]].
      * cbn [lg_seen lg_maxEntries withSeen]. rewrite map_size_insert_None by done. rewrite Em.
        apply andb_false_iff in Ef. unfold full in Ef. rewrite Em in Ef. unfold swept in *.
        unfold full in *. destruct (Z.leb_spec (lg_maxEntries l) (Z.of_nat (size (lg_seen l)))); cmp_cases; try lia; destruct Ef; try done; lia.
      * split; [done|by intros [? ?]].
      * intros other c Ho Hc%Hkeep. rewrite ledger_known in Hc |- *. cbn [lg_seen withSeen].
        by rewrite lookup_insert_ne.
      * intros _ later Hl. rewrite ledger_known. cbn [lg_seen withSeen]. rewrite lookup_insert_eq.
        unfold expiredEntry, time_sub. cbn [lg_ttl withSeen seenAt nodeClass]. rewrite Et.
        rewrite (proj2 (Z.ltb_ge _ _)); [done|]. unfold int64_min, int64_max. lia.
Qed.

Lemma ledger_charges_once_witness :
  let l := remember (newRelayIDLedger relayLedgerTTL relayLedgerMaxEntries) "relay_a" "volunteer" 5 in
  (rememberIfNew l "relay_a" "foundation" 9).1 = false ∧
  (lookupLedger (rememberIfNew l "relay_a" "foundation" 9).2 "relay_a" 10).1 = Some "foundation"%string.
Proof.
  intros l. split; [vm_compute; reflexivity|].
  pose proof (ledger_charges_once l "relay_a" "foundation" 9) as H.
  destruct (rememberIfNew l "relay_a" "foundation" 9) as [isNew l'] eqn:E.
  apply H; [discriminate|vm_compute; discriminate|vm_compute; discriminate| |].
  - left. assert ((rememberIfNew l "relay_a" "foundation" 9).1 = false) as H1 by (vm_compute; reflexivity).
    rewrite E in H1. exact H1.
  - split; vm_compute; discriminate.
Defined.
