(* ===== verification/BrokerServer.v ===== *)
(** The broker's handlers (src/libs/openrung/internal/broker/server.go,
    wss_ticket.go): registration and heartbeat composed of credentials, field
    validation, the new-identity budget, the ledger and the store; the relay
    list page; and the issue of WSS tickets.

    A request is handled as one sequence of calls; the calls of concurrent
    requests interleave, which the theorems about the budget, the ledger and
    the store already cover.  A response is its HTTP status and payload. *)
From stdpp Require Import base list gmap strings.
From Stdlib Require Import ZArith Lia.
From S2P Require Import Prelude Codec GoTime Directory Fronts Ticket RelayIdentity Ranking BrokerStore Netip Registration.

Record broker := {
  bk_store : Store;
  bk_ledger : relayIDLedger;
  bk_cap : newRelayCap
}.

Definition withStore (b : broker) (s : Store) : broker :=
  {| bk_store := s; bk_ledger := bk_ledger b; bk_cap := bk_cap b |}.
Definition withLedger (b : broker) (l : relayIDLedger) : broker :=
  {| bk_store := bk_store b; bk_ledger := l; bk_cap := bk_cap b |}.
Definition withCap (b : broker) (c : newRelayCap) : broker :=
  {| bk_store := bk_store b; bk_ledger := bk_ledger b; bk_cap := c |}.

Definition StatusOK : Z := 200.
Definition StatusCreated : Z := 201.
Definition StatusBadRequest : Z := 400.
Definition StatusUnauthorized : Z := 401.
Definition StatusForbidden : Z := 403.
Definition StatusNotFound : Z := 404.
Definition StatusConflict : Z := 409.
Definition StatusTooManyRequests : Z := 429.
Definition StatusInternalServerError : Z := 500.
Definition StatusServiceUnavailable : Z := 503.

(** The request with its normalised label and class. *)
Definition normalizedRequest (req : RegisterRequest) (label class : string) : RegisterRequest :=
  {| rq_PublicHost := rq_PublicHost req; rq_PublicPort := rq_PublicPort req;
     rq_Protocol := rq_Protocol req; rq_ClientID := rq_ClientID req;
     rq_RealityPublicKey := rq_RealityPublicKey req; rq_ShortID := rq_ShortID req;
     rq_ServerName := rq_ServerName req; rq_Flow := rq_Flow req; rq_ExitMode := rq_ExitMode req;
     rq_MaxSessions := rq_MaxSessions req; rq_MaxMbps := rq_MaxMbps req;
     rq_RelayVersion := rq_RelayVersion req; rq_Label := label; rq_NodeClass := class;
     rq_Transport := rq_Transport req; rq_PunchCapable := rq_PunchCapable req;
     rq_PunchEndpoint := rq_PunchEndpoint req; rq_WSSFronts := rq_WSSFronts req;
     rq_WSSCapabilityProof := rq_WSSCapabilityProof req;
     rq_WSSCapabilityExpiresAt := rq_WSSCapabilityExpiresAt req; rq_ExitHost := rq_ExitHost req;
     rq_IdentityPublicKey := rq_IdentityPublicKey req; rq_IdentityProof := rq_IdentityProof req;
     rq_IdentityExpiresAt := rq_IdentityExpiresAt req |}.

Definition geoLookupHost (desc : Descriptor) : string :=
  if negb (str_empty (dd_ExitHost desc)) then dd_ExitHost desc else dd_PublicHost desc.

(** The status of a failed [store.Register]. *)
Definition registerStatus (e : StoreError) : Z :=
  match e with
  | ErrProof ErrWSSFrontInvalid | ErrProof ErrWSSSigner => StatusServiceUnavailable
  | ErrProof _ => StatusUnauthorized
  | ErrNodeClassForbidden => StatusForbidden
  | ErrRelayNotFound | ErrRandom => StatusServiceUnavailable
  end.

Definition heartbeatStatus (e : StoreError) : Z :=
  match e with
  | ErrRelayNotFound => StatusNotFound
  | ErrNodeClassForbidden => StatusForbidden
  | ErrProof _ | ErrRandom => StatusServiceUnavailable
  end.

Section server.
#[local] Set Default Proof Using "Type".
Context {verifier : ProofVerifier} {relayRows : MapRange string Descriptor}.
Context (ToLower : string → string).
(** The configured GeoIP resolver, if any, and what a lookup answers. *)
Context (geoIP : option (string → option RelayGeoLocation)).

Definition NormalizeNodeClass (class : string) : option string :=
  let c := ToLower (TrimSpace class) in
  if str_empty c || str_eqb c NodeClassVolunteer then Some NodeClassVolunteer
  else if str_eqb c NodeClassFoundation then Some NodeClassFoundation
  else None.

Definition resolveRelayGeo (s : Store) (desc : Descriptor) : Descriptor * Store :=
  match geoIP with
  | None => (desc, s)
  | Some lookup =>
      if negb (bool_decide (dd_Geo desc = noGeo)) then (desc, s) else
      match lookup (geoLookupHost desc) with
      | None => (desc, s)
      | Some geo =>
          match UpdateGeo s (dd_ID desc) (dd_LeaseToken desc) geo with
          | (Ok _, s') => (setGeo desc geo, s')
          | (Err _, s') => (desc, s')
          end
      end
  end.

(** The guards before the clock is read. *)
Definition screenRegister (cfg : Config) (r : httpRequest) (body : option RegisterRequest)
    : Z + RegisterRequest * string :=
  match credentialNodeClass r cfg with
  | None => inl StatusUnauthorized
  | Some maxClass =>
      match body with
      | None => inl StatusBadRequest
      | Some req =>
          match NormalizeLabel (rq_Label req) with
          | None => inl StatusBadRequest
          | Some label =>
              match NormalizeNodeClass (rq_NodeClass req) with
              | None => inl StatusBadRequest
              | Some class =>
                  let req := normalizedRequest req label class in
                  if str_eqb class NodeClassFoundation && negb (str_eqb maxClass NodeClassFoundation)
                  then inl StatusForbidden else
                  if negb (length (rq_WSSFronts req) =? 0)%nat
                     && (length (cfg_WSSTicketSigningSeed cfg) =? 0)%nat
                  then inl StatusServiceUnavailable else
                  match validateRegisterRequest req with
                  | Some _ => inl StatusBadRequest
                  | None => inr (req, maxClass)
                  end
              end
          end
      end
  end.

(** Whether the request re-proves an identity the ledger knows. *)
Definition isNewIdentity (l : relayIDLedger) (req : RegisterRequest) (now : Z) : bool * relayIDLedger :=
  match verifyIdentity req now with
  | Ok (Some key) =>
      let '(known, l') := lookupLedger l (deriveRelayID key) now in
      (match known with Some _ => false | None => true end, l')
  | _ => (true, l)
  end.

Definition releaseMaybe (c : newRelayCap) (u : option unit_) : newRelayCap :=
  match u with Some u => release c u | None => c end.

Definition registerHandler (cfg : Config) (trusted : list Prefix) (b : broker) (r : httpRequest)
    (body : option RegisterRequest) (rndID rndToken : option (list byte)) (now : Z)
    : Z * option Descriptor * broker :=
  match screenRegister cfg r body with
  | inl status => (status, None, b)
  | inr (req, maxClass) =>
      let '(newIdentity, l) := isNewIdentity (bk_ledger b) req now in
      let b := withLedger b l in
      let '(u, allowed, c) :=
        if newIdentity && negb (str_eqb maxClass NodeClassFoundation)
        then reserve (bk_cap b) (clientIP trusted r) now
        else (None, true, bk_cap b) in
      let b := withCap b c in
      if negb allowed then (StatusTooManyRequests, None, b) else
      match Register (bk_store b) req rndID rndToken now (cfg_RelayLeaseTTL cfg) with
      | (Err e, s) => (registerStatus e, None, withCap (withStore b s) (releaseMaybe (bk_cap b) u))
      | (Ok desc, s) =>
          let '(keepReservation, l) := rememberIfNew (bk_ledger b) (dd_ID desc) (dd_NodeClass desc) now in
          let '(desc, s) := resolveRelayGeo s desc in
          let c := if keepReservation then bk_cap b else releaseMaybe (bk_cap b) u in
          (StatusCreated, Some desc, {| bk_store := s; bk_ledger := l; bk_cap := c |})
      end
  end.

(** [body] is the lease token of the decoded body, empty for an empty body. *)
Definition heartbeatHandler (cfg : Config) (b : broker) (r : httpRequest) (body : option string) (now : Z)
    : Z * option Z * broker :=
  match credentialNodeClass r cfg with
  | None => (StatusUnauthorized, None, b)
  | Some maxClass =>
      match heartbeatRelayID (hr_Path r) with
      | None => (StatusNotFound, None, b)
      | Some id =>
          if negb (WellFormedRelayID id) then (StatusNotFound, None, b) else
          match body with
          | None => (StatusBadRequest, None, b)
          | Some leaseToken =>
              match Heartbeat (bk_store b) id leaseToken maxClass now (cfg_RelayLeaseTTL cfg) with
              | (Err e, s) => (heartbeatStatus e, None, withStore b s)
              | (Ok desc, s) =>
                  let l := remember (bk_ledger b) id (dd_NodeClass desc) now in
                  let '(desc, s) := resolveRelayGeo s desc in
                  (StatusOK, Some (dd_ExpiresAt desc), {| bk_store := s; bk_ledger := l; bk_cap := bk_cap b |})
              end
          end
      end
  end.

(** * What registration guarantees *)
Lemma reserve_release c source now key :
  0 < milliseconds (cap_window c) < 2 ^ 62 → 0 ≤ now < 2 ^ 63 →
  let '(u, _, c') := reserve c source now in
  fresh (cutoffAt c now) (stampsOf (releaseMaybe c' u) key) ≡ₚ fresh (cutoffAt c now) (stampsOf c key).
Proof.
  intros Hw Hn. pose proof (λ k, reserve_stamps c source now k) as Hs.
  destruct (reserve c source now) as [[u ok] c']. cbn zeta in Hs.
  pose proof (λ k, Hs k Hw Hn) as Hk. clear Hs. destruct u as [[k stamp]|]; cbn [releaseMaybe]; [|by rewrite Hk].
  set (K := cutoffAt c now) in *.
  assert (stamp ∈ stampsOf c' k) as Hin.
  { destruct (Hk k) as (_ & _ & E). rewrite (proj2 (str_eqb_true _ _) eq_refl) in E.
    assert (stamp ∈ fresh K (stampsOf c' k)) as H by (rewrite E, elem_of_app; right; left).
    by apply elem_of_fresh in H as [H _]. }
  pose proof (release_fresh c' k stamp key K (λ _, Hin)) as Hr. destruct (Hk key) as (Est & _ & E).
  rewrite E in Hr.
  assert (K < stamp) as Hlt by (rewrite Est; by apply stamp_after_cutoff).
  rewrite (proj2 (Z.ltb_lt _ _) Hlt), andb_true_r in Hr. destruct (str_eqb k key).
  - rewrite (Permutation_app_comm _ [stamp]) in Hr. by apply Permutation_app_inv_l in Hr.
  - by rewrite Hr.
Qed.

Lemma screenRegister_ok cfg r body req maxClass :
  screenRegister cfg r body = inr (req, maxClass) →
  credentialNodeClass r cfg = Some maxClass ∧ validateRegisterRequest req = None ∧
  rq_NodeClass req ≠ ""%string ∧
  (rq_NodeClass req = NodeClassFoundation → maxClass = NodeClassFoundation).
Proof.
  unfold screenRegister. intros H. repeat (case_match; try done). simplify_eq.
  match goal with E : NormalizeNodeClass _ = Some _ |- _ => unfold NormalizeNodeClass in E end.
  split_and!; try done; cbn [rq_NodeClass normalizedRequest].
  - repeat case_match; by simplify_eq.
  - intros Hc. match goal with E : _ && _ = false |- _ => rewrite (proj2 (str_eqb_true _ _) Hc) in E end.
    cbn [andb] in *. by apply str_eqb_true, negb_false_iff.
Qed.

Lemma screenRegister_status cfg r body status :
  screenRegister cfg r body = inl status → status ≠ StatusCreated.
Proof. unfold screenRegister. intros H. repeat (case_match; try done); by simplify_eq. Qed.

Lemma registerStatus_error e : registerStatus e ≠ StatusCreated.
Proof. by destruct e as [| |[]|]. Qed.

Lemma isNewIdentity_known l req now id :
  (lookupLedger (isNewIdentity l req now).2 id now).1 = (lookupLedger l id now).1.
Proof.
  unfold isNewIdentity. destruct (verifyIdentity req now) as [[key|]|]; try done.
  pose proof (lookupLedger_keeps l (deriveRelayID key) id now) as H.
  by destruct (lookupLedger l (deriveRelayID key) now) as [[class|] l'].
Qed.

Lemma resolveRelayGeo_row s desc :
  relays s !! dd_ID desc = Some desc →
  let '(desc', s') := resolveRelayGeo s desc in
  relays s' !! dd_ID desc' = Some desc' ∧ dd_ID desc' = dd_ID desc ∧
  dd_NodeClass desc' = dd_NodeClass desc ∧ dd_PublicPort desc' = dd_PublicPort desc ∧
  dd_MaxSessions desc' = dd_MaxSessions desc.
Proof.
  intros Hd. unfold resolveRelayGeo. destruct geoIP as [lookup|]; [|done].
  destruct (bool_decide (dd_Geo desc = noGeo)); [|done]. cbn [negb].
  destruct (lookup (geoLookupHost desc)) as [geo|]; [|done].
  destruct (UpdateGeo_cases s (dd_ID desc) (dd_LeaseToken desc) geo) as [[e ->]|(x & Hx & _ & ->)]; [done|].
  cbn [relays withRelays setGeo dd_ID]. rewrite lookup_insert_eq. by simplify_eq.
Qed.

Lemma validateRegister_bounds req :
  validateRegisterRequest req = None → 1 ≤ rq_PublicPort req ≤ 65535 ∧ 1 ≤ rq_MaxSessions req.
Proof.
  unfold validateRegisterRequest. intros H. repeat (case_match; try done); cmp_lia.
Qed.

(** The state a refused registration leaves: the same relays, the same budget
    of every key, the same known identities. *)
Definition untouched (b b' : broker) (now : Z) : Prop :=
  bk_store b' = bk_store b ∧
  (∀ key, fresh (cutoffAt (bk_cap b) now) (stampsOf (bk_cap b') key) ≡ₚ
          fresh (cutoffAt (bk_cap b) now) (stampsOf (bk_cap b) key)) ∧
  (∀ id, (lookupLedger (bk_ledger b') id now).1 = (lookupLedger (bk_ledger b) id now).1).

Definition registered_ok (cfg : Config) (r : httpRequest) (b b' : broker) (d : option Descriptor) : Prop :=
  ∃ desc, d = Some desc ∧ relays (bk_store b') !! dd_ID desc = Some desc ∧
    (dd_NodeClass desc = NodeClassFoundation → bearerMatches r (cfg_FoundationToken cfg) = true) ∧
    (cfg_RegistrationToken cfg ≠ ""%string →
       bearerMatches r (cfg_RegistrationToken cfg) = true ∨ bearerMatches r (cfg_FoundationToken cfg) = true) ∧
    (bearerMatches r (cfg_FoundationToken cfg) = true → bk_cap b' = bk_cap b) ∧
    1 ≤ dd_PublicPort desc ≤ 65535 ∧ 1 ≤ dd_MaxSessions desc.

Lemma credential_facts r cfg maxClass :
  credentialNodeClass r cfg = Some maxClass →
  (maxClass = NodeClassFoundation ↔ bearerMatches r (cfg_FoundationToken cfg) = true) ∧
  (cfg_RegistrationToken cfg ≠ ""%string →
     bearerMatches r (cfg_RegistrationToken cfg) = true ∨ bearerMatches r (cfg_FoundationToken cfg) = true).
Proof.
  unfold credentialNodeClass, authorized. intros H.
  destruct (bearerMatches r (cfg_FoundationToken cfg)) eqn:Ef; [injection H as <-; split; [done|by right]|].
  destruct (str_empty (cfg_RegistrationToken cfg)) eqn:Ee.
  - injection H as <-. split; [done|]. intros Hne. by apply bool_decide_eq_true in Ee.
  - destruct (bearerMatches r (cfg_RegistrationToken cfg)) eqn:Er; [|done]. injection H as <-.
    split; [done|by left].
Qed.

(** The conditional reservation can be rolled back, and is free when it does
    not happen. *)
Lemma charge_cases (charge : bool) c source now :
  0 < milliseconds (cap_window c) < 2 ^ 62 → 0 ≤ now < 2 ^ 63 →
  ∃ u allowed c',
    (if charge then reserve c source now else (None, true, c)) = (u, allowed, c') ∧
    (∀ key, fresh (cutoffAt c now) (stampsOf (releaseMaybe c' u) key) ≡ₚ
            fresh (cutoffAt c now) (stampsOf c key)) ∧
    (allowed = false → u = None) ∧ (charge = false → u = None ∧ c' = c).
Proof.
  intros Hw Hn. pose proof (λ key, reserve_release c source now key Hw Hn) as Hres.
  destruct charge.
  - destruct (reserve c source now) as [[u allowed] c'] eqn:E.
    exists u, allowed, c'. split_and!; [done|exact Hres| |done].
    intros ->. unfold reserve in E. repeat (case_match; simplify_eq; try done).
  - exists None, true, c. by split_and!.
Qed.

(** C8: A registration that is not answered with 201 changes neither the
    directory nor any source's budget nor the known identities.  One that is
    answered with 201 returns exactly the stored descriptor; it has a valid
    port and capacity, was presented with a configured credential, is of the
    foundation class only under the foundation token, and costs the holder of
    that token nothing. *)
Theorem registration_outcome (cfg : Config) (trusted : list Prefix) (b : broker) (r : httpRequest)
    (body : option RegisterRequest) (r1 r2 : option (list byte)) (now : Z) :
  0 < milliseconds (cap_window (bk_cap b)) < 2 ^ 62 → 0 ≤ now < 2 ^ 63 →
  let '(status, d, b') := registerHandler cfg trusted b r body r1 r2 now in
  if status =? StatusCreated then registered_ok cfg r b b' d else d = None ∧ untouched b b' now.
Proof.
  intros Hw Hn. unfold registerHandler.
  destruct (screenRegister cfg r body) as [status|[req maxClass]] eqn:Hs.
  { apply screenRegister_status in Hs. rewrite (proj2 (Z.eqb_neq _ _) Hs). by repeat split. }
  apply screenRegister_ok in Hs as (Hcred & Hval & Hne & Hf).
  apply credential_facts in Hcred as [Hmax Htok]. apply validateRegister_bounds in Hval.
  pose proof (isNewIdentity_known (bk_ledger b) req now) as Hl.
  destruct (isNewIdentity (bk_ledger b) req now) as [newIdentity l]. cbn [snd bk_ledger bk_cap bk_store withLedger] in *.
  set (charge := newIdentity && negb (str_eqb maxClass NodeClassFoundation)).
  destruct (charge_cases charge (bk_cap b) (clientIP trusted r) now Hw Hn)
    as (u & allowed & c & Er & Hback & Hno & Hfree).
  rewrite Er. cbn [bk_store bk_cap bk_ledger withCap withLedger]. destruct allowed; cbn [negb].
  2: { cbn. split; [done|]. split; [done|]. split; [|exact Hl]. intros key. specialize (Hback key).
       by rewrite (Hno eq_refl) in Hback. }
  pose proof (Register_cases (bk_store b) req r1 r2 now (cfg_RelayLeaseTTL cfg)) as Hreg.
  destruct (Register (bk_store b) req r1 r2 now (cfg_RelayLeaseTTL cfg)) as [[desc|e] s].
  2: { rewrite (proj2 (Z.eqb_neq _ _) (registerStatus_error e)). split; [done|].
       destruct Hreg as [-> _]. split; [done|]. split; [exact Hback|exact Hl]. }
  destruct Hreg as (key & g & _ & _ & Hd & _ & _ & _ & m & -> & _).
  destruct (rememberIfNew l (dd_ID desc) (dd_NodeClass desc) now) as [keep l'].
  pose proof (resolveRelayGeo_row (withRelays (bk_store b) (<[dd_ID desc:=desc]> m)) desc (lookup_insert_eq _ _ _)) as Hg.
  destruct (resolveRelayGeo _ desc) as [desc' s']. cbn.
  destruct Hg as (Hrow & _ & Hcl & Hport & Hses). exists desc'.
  assert (dd_NodeClass desc = rq_NodeClass req ∧ dd_PublicPort desc = rq_PublicPort req ∧
          dd_MaxSessions desc = rq_MaxSessions req) as (E1 & E2 & E3).
  { rewrite Hd. cbn. unfold normalizeNodeClass. by rewrite (bool_decide_eq_false_2 _ Hne : str_empty _ = false). }
  rewrite Hcl, Hport, Hses, E1, E2, E3. cbn [bk_store bk_cap]. split_and!; try done; try lia.
  - intros Hc. by apply Hmax, Hf.
  - intros Hb. apply Hmax in Hb. assert (charge = false) as Hch.
    { unfold charge. rewrite (proj2 (str_eqb_true _ _) Hb). apply andb_false_r. }
    destruct (Hfree Hch) as [-> ->]. by destruct keep.
Qed.
End server.

(** * The relay list page *)
Definition wssRelayEligible (desc : Descriptor) : bool :=
  str_eqb (dd_NodeClass desc) NodeClassFoundation && str_eqb (dd_Transport desc) TransportDirect &&
  str_eqb (dd_ExitMode desc) ExitModeDirect && (dd_PublicPort desc =? 443) &&
  negb (str_empty (dd_IdentityPublicKey desc)) && negb (length (dd_WSSFronts desc) =? 0)%nat.

Definition findWSSFront (fronts : list Front) (id : string) : option Front :=
  List.find (λ f, str_eqb (FrontID f) id && (ProtocolVersion f =? FrontProtocolVersion)) fronts.

(** Replaces the last entry. *)
Definition replaceLast (l : list Descriptor) (d : Descriptor) : list Descriptor := removelast l ++ [d].

Definition reserveWSSCandidate (relays : list Descriptor) (limit : Z) : list Descriptor :=
  if (length relays =? 0)%nat then [] else
  if (limit <=? 0) || (Z.of_nat (length relays) <=? limit) then relays else
  let page := take (Z.to_nat limit) relays in
  if existsb wssRelayEligible page then page else
  match List.find wssRelayEligible (drop (Z.to_nat limit) relays) with
  | Some desc => replaceLast page desc
  | None => page
  end.

(** The effective limit of a list request; [raw] is the query parameter.
    [None] is the 400 answer. *)
Definition listLimit (raw : string) : option Z :=
  if str_empty raw then Some 5 else
  match ParseInt (bytes raw) with
  | Some n => if (n <? 1) || (20 <? n) then None else Some n
  | None => None
  end.

Lemma find_split {A} (f : A → bool) l d :
  List.find f l = Some d →
  ∃ before after, l = before ++ d :: after ∧ existsb f before = false ∧ f d = true.
Proof.
  induction l as [|x l IH]; cbn; [done|]. destruct (f x) eqn:E.
  - intros [= <-]. by exists [], l.
  - intros (before & after & -> & Hb & Hd)%IH. exists (x :: before), after. cbn. by rewrite E.
Qed.

Lemma find_none {A} (f : A → bool) l : List.find f l = None → existsb f l = false.
Proof. induction l as [|x l IH]; cbn; [done|]. by destruct (f x). Qed.

Lemma removelast_elem {A} (l : list A) x : x ∈ removelast l → x ∈ l.
Proof.
  induction l as [|y [|z l] IH]; cbn [removelast]; [done|by intros ?%not_elem_of_nil|].
  intros [->|H%IH]%elem_of_cons; [left|by right].
Qed.

Lemma length_removelast {A} (l : list A) x : length (removelast l ++ [x]) = S (length l - 1)%nat.
Proof.
  rewrite length_app. cbn. induction l as [|y [|z l] IH]; cbn [removelast length] in *; lia.
Qed.

Lemma reserve_sub l limit d : d ∈ reserveWSSCandidate l limit → d ∈ l.
Proof.
  assert (∀ n, take n l `sublist_of` l ∧ drop n l `sublist_of` l) as Hs
    by (intros n; split; [apply sublist_take|apply sublist_drop]).
  unfold reserveWSSCandidate. destruct (length l =? 0)%nat; [by intros ?%elem_of_nil|].
  destruct (_ || _); [done|]. cbv zeta. set (cut := take (Z.to_nat limit) l).
  destruct (existsb wssRelayEligible cut); [intros H; by apply (elem_of_sublist cut), Hs|].
  destruct (List.find _ _) as [x|] eqn:E; [|intros H; by apply (elem_of_sublist cut), Hs].
  intros [H%removelast_elem| ->%list_elem_of_singleton]%elem_of_app; [by apply (elem_of_sublist cut), Hs|].
  apply find_some in E as [E%list_elem_of_In _]. by apply (elem_of_sublist (drop (Z.to_nat limit) l)), Hs.
Qed.

(** The page of a list request is the ranked list cut at the limit, except
    that when no relay of the cut can be reached over WSS and a later one can,
    the best such relay takes the last place: a page never exceeds its limit,
    is filled whenever enough relays exist, and offers a WSS-capable relay
    whenever the directory has one. *)
Lemma list_page (relays : list Descriptor) (limit : Z) :
  1 ≤ limit →
  let page := reserveWSSCandidate relays limit in
  let cut := take (Z.to_nat limit) relays in
  Z.of_nat (length page) = Z.min limit (Z.of_nat (length relays)) ∧
  (∀ d, d ∈ page → d ∈ relays) ∧
  (existsb wssRelayEligible relays = true → existsb wssRelayEligible page = true) ∧
  (page = cut ∨
   existsb wssRelayEligible cut = false ∧
   ∃ d before after, drop (Z.to_nat limit) relays = before ++ d :: after ∧
     existsb wssRelayEligible before = false ∧ wssRelayEligible d = true ∧ page = removelast cut ++ [d]).
Proof.
  intros Hlim page cut. unfold page, reserveWSSCandidate.
  destruct (Nat.eqb_spec (length relays) 0) as [H0|H0].
  { apply length_zero_iff_nil in H0. unfold cut. rewrite H0. rewrite take_nil. cbn. split_and!; auto; lia. }
  rewrite (proj2 (Z.leb_gt limit 0)) by lia. cbn [orb].
  destruct (Z.leb_spec (Z.of_nat (length relays)) limit) as [Hle|Hgt].
  { split_and!; auto; [lia|]. left. unfold cut. by rewrite take_ge by lia. }
  fold cut. assert (length cut = Z.to_nat limit) as Hcut by (unfold cut; rewrite length_take; lia).
  assert (∀ d, d ∈ cut → d ∈ relays) as Hsub 
    by (intros d Hd; apply (elem_of_sublist cut); [done|apply sublist_take]).
  assert (existsb wssRelayEligible relays =
    existsb wssRelayEligible cut || existsb wssRelayEligible (drop (Z.to_nat limit) relays)) as Hsplit.
  { rewrite <- existsb_app. unfold cut. by rewrite take_drop. }
  destruct (existsb wssRelayEligible cut) eqn:Ecut.
  { split_and!; auto; lia. }
  destruct (List.find wssRelayEligible (drop (Z.to_nat limit) relays)) as [d|] eqn:Ef.
  - apply find_split in Ef as (before & after & Hd & Hb & He). unfold replaceLast. split_and!.
    + rewrite length_removelast. lia.
    + intros x [Hx%removelast_elem|<-%list_elem_of_singleton]%elem_of_app; [by apply Hsub|].
      apply (elem_of_sublist (drop (Z.to_nat limit) relays)); [|apply sublist_drop].
      rewrite Hd, elem_of_app. right. left.
    + intros _. rewrite existsb_app. cbn. rewrite He. apply orb_true_r.
    + right. split; [done|]. by exists d, before, after.
  - apply find_none in Ef. split_and!; auto; [lia|]. rewrite Hsplit, Ef. done.
Qed.

(** * Issuing WSS tickets *)
Definition defaultWSSTicketTTL : Z := 2 * minute.
Definition defaultWSSTicketStreams : Z := 64.
Definition SeedSize : nat := 32.

(** [t.Truncate(time.Second)] and [t.Unix()] of a UTC instant. *)
Definition truncateSecond (t : Z) : Z := t / second * second.
Definition unixSeconds (t : Z) : Z := t / second.

Record wssTicketIssuer := {
  is_signer : TicketSigner;
  is_ttl : Z;
  is_maxStreams : Z
}.

Record WSSSessionTicketResponse := {
  tr_Ticket : list byte;
  tr_ExpiresAt : Z;
  tr_URL : string
}.

(** Of a random 18-byte value; [None] is a failed read. *)
Definition newWSSTicketID (rnd : option (list byte)) : option string :=
  (λ raw, text (EncodeToString raw)) <$> rnd.

Section wssTickets.
#[local] Set Default Proof Using "Type".
Context (ToLower : string → string).
(** [sha256.Sum256], [key.Public()], [ed25519.NewKeyFromSeed], [ed25519.Sign]
    and [ed25519.Verify]; [json.Marshal] and the strict decoder on claims. *)
Context (Sum256 Public NewKeyFromSeed : list byte → list byte).
Context (edSign : list byte → list byte → list byte) (edVerify : list byte → list byte → list byte → bool).
Context (Marshal : Claims → option (list byte)) (Decode : list byte → option Claims).
Context {keyRows : MapRange string (list byte)}.

(** [Err] is a panic at startup, [Ok None] a broker without WSS tickets. *)
Definition newWSSTicketIssuer (cfg : Config) : result unit (option wssTicketIssuer) :=
  let seed := cfg_WSSTicketSigningSeed cfg in
  if (length seed =? 0)%nat then Ok None else
  if negb (length seed =? SeedSize)%nat then Err tt else
  let ttl := if cfg_WSSTicketTTL cfg =? 0 then defaultWSSTicketTTL else cfg_WSSTicketTTL cfg in
  if (ttl <? 2 * second) || (MaxTicketLifetime <? ttl) then Err tt else
  let maxStreams := if cfg_WSSTicketMaxStreams cfg =? 0 then defaultWSSTicketStreams
                    else cfg_WSSTicketMaxStreams cfg in
  if (maxStreams <? 1) || (MaxTicketStreams <? maxStreams) then Err tt else
  match NewTicketSigner Sum256 Public (NewKeyFromSeed seed) {| MaxLifetime := ttl; ClockSkew := 0 |} with
  | Ok signer => Ok (Some {| is_signer := signer; is_ttl := ttl; is_maxStreams := maxStreams |})
  | Err _ => Err tt
  end.

Definition ticketClaims (issuer : wssTicketIssuer) (jti : string) (desc : Descriptor) (front : Front)
    (now expiresAt : Z) : Claims :=
  {| Version := TicketVersion; Audience := TicketAudience; JTI := jti; RelayID := dd_ID desc;
     ClaimFrontID := FrontID front; IssuedAt := unixSeconds now; NotBefore := unixSeconds now;
     ExpiresAt := unixSeconds expiresAt; MaxStreams := is_maxStreams issuer |}.

(** [body] is the decoded request (relay ID, front ID), [None] when the body is
    not exactly one well-formed object; [clock] and [signClock] are the two
    readings of the issuer's clock, the second inside [Sign]. *)
Definition wssTicketHandler (s : Store) (issuer : wssTicketIssuer) (body : option (string * string))
    (rnd : option (list byte)) (clock signClock : Z) : Z * option WSSSessionTicketResponse :=
  match body with
  | None => (StatusBadRequest, None)
  | Some (relayID, frontID) =>
      let relayID := TrimSpace relayID in
      let frontID := TrimSpace frontID in
      if str_empty relayID || str_empty frontID then (StatusBadRequest, None) else
      if negb (WellFormedRelayID relayID) then (StatusNotFound, None) else
      let now := truncateSecond clock in
      match RelayByID s relayID now with
      | Err ErrRelayNotFound => (StatusNotFound, None)
      | Err _ => (StatusServiceUnavailable, None)
      | Ok desc =>
          if negb (wssRelayEligible desc) then (StatusNotFound, None) else
          match findWSSFront (dd_WSSFronts desc) frontID with
          | None => (StatusNotFound, None)
          | Some front =>
              let expiresAt := time_add now (is_ttl issuer) in
              let expiresAt := if time_after expiresAt (dd_ExpiresAt desc)
                               then truncateSecond (dd_ExpiresAt desc) else expiresAt in
              if negb (time_after expiresAt (time_add now second)) then (StatusConflict, None) else
              match newWSSTicketID rnd with
              | None => (StatusInternalServerError, None)
              | Some jti =>
                  match Sign ToLower edSign Marshal (is_signer issuer) signClock
                          (ticketClaims issuer jti desc front now expiresAt) with
                  | Err _ => (StatusInternalServerError, None)
                  | Ok ticket =>
                      (StatusCreated, Some {| tr_Ticket := ticket; tr_ExpiresAt := expiresAt;
                                              tr_URL := FrontURL front |})
                  end
              end
          end
      end
  end.

Lemma newWSSTicketIssuer_ok cfg issuer :
  newWSSTicketIssuer cfg = Ok (Some issuer) →
  2 * second ≤ is_ttl issuer ≤ MaxTicketLifetime ∧ 1 ≤ is_maxStreams issuer ≤ MaxTicketStreams ∧
  NewTicketSigner Sum256 Public (NewKeyFromSeed (cfg_WSSTicketSigningSeed cfg))
    {| MaxLifetime := is_ttl issuer; ClockSkew := 0 |} = Ok (is_signer issuer).
Proof.
  unfold newWSSTicketIssuer. set (ttl := if cfg_WSSTicketTTL cfg =? 0 then _ else _).
  set (n := if cfg_WSSTicketMaxStreams cfg =? 0 then _ else _). cbv zeta.
  destruct (length _ =? 0)%nat; [done|]. destruct (negb _); [done|].
  destruct (_ || _) eqn:E1; [done|]. destruct ((n <? 1) || _) eqn:E2; [done|].
  apply orb_false_iff in E1 as [?%Z.ltb_ge ?%Z.ltb_ge], E2 as [?%Z.ltb_ge ?%Z.ltb_ge].
  destruct (NewTicketSigner _ _ _ _) eqn:E; [|done]. intros [= <-]. by split_and!.
Qed.

(** What the broker promises with a ticket for [desc] through [front]. *)
Record ticket_grant (s : Store) (issuer : wssTicketIssuer) (body : option (string * string)) (clock : Z)
    (resp : WSSSessionTicketResponse) (desc : Descriptor) (front : Front) (c : Claims) : Prop := {
  tg_request : ∃ relayID frontID, body = Some (relayID, frontID) ∧
    RelayID c = TrimSpace relayID ∧ ClaimFrontID c = TrimSpace frontID;
  tg_relay : relays s !! RelayID c = Some desc;
  tg_live : truncateSecond clock < dd_ExpiresAt desc;
  tg_eligible : wssRelayEligible desc = true;
  tg_front : front ∈ dd_WSSFronts desc ∧ FrontID front = ClaimFrontID c ∧ ProtocolVersion front = FrontProtocolVersion;
  tg_url : tr_URL resp = FrontURL front;
  tg_issued : unixTime (IssuedAt c) = truncateSecond clock ∧ NotBefore c = IssuedAt c;
  tg_lease : tr_ExpiresAt resp - second < unixTime (ExpiresAt c) ≤ tr_ExpiresAt resp ∧
    tr_ExpiresAt resp ≤ dd_ExpiresAt desc;
  tg_ttl : unixTime (IssuedAt c) + second < tr_ExpiresAt resp ≤ unixTime (IssuedAt c) + is_ttl issuer;
  tg_streams : MaxStreams c = is_maxStreams issuer
}.

Lemma truncate_bounds t : truncateSecond t ≤ t < truncateSecond t + second.
Proof. unfold truncateSecond, second, millisecond. Z.to_euclidean_division_equations; lia. Qed.

Lemma unix_truncate t : unixTime (unixSeconds t) = truncateSecond t.
Proof. done. Qed.

Lemma truncate_idem t : truncateSecond (truncateSecond t) = truncateSecond t.
Proof. unfold truncateSecond. by rewrite Z.div_mul. Qed.

Lemma findWSSFront_spec fronts id f :
  findWSSFront fronts id = Some f →
  f ∈ fronts ∧ FrontID f = id ∧ ProtocolVersion f = FrontProtocolVersion.
Proof.
  unfold findWSSFront. intros [Hin H]%find_some. apply list_elem_of_In in Hin.
  apply andb_true_iff in H as [?%str_eqb_true ?%Z.eqb_eq]. done.
Qed.

Lemma wssTicketHandler_created s issuer body rnd clock signClock resp :
  store_wf s → 2 * second ≤ is_ttl issuer →
  wssTicketHandler s issuer body rnd clock signClock = (StatusCreated, Some resp) →
  ∃ desc front c, ticket_grant s issuer body clock resp desc front c ∧
    Sign ToLower edSign Marshal (is_signer issuer) signClock c = Ok (tr_Ticket resp).
Proof.
  intros Hwf Httl. unfold wssTicketHandler. cbv zeta. destruct body as [[rid fid]|]; [|done].
  destruct (_ || _); [done|]. destruct (negb (WellFormedRelayID _)); [done|].
  set (now := truncateSecond clock). unfold RelayByID, cloneRelayDescriptor.
  destruct (relays s !! TrimSpace rid) as [desc|] eqn:Hrow; [|done].
  destruct (live now desc) eqn:Hlive; [|done]. apply Z.ltb_lt in Hlive.
  destruct (wssRelayEligible desc) eqn:Hel; [|done]. cbn [negb].
  destruct (findWSSFront _ _) as [front|] eqn:Hf; [|done]. apply findWSSFront_spec in Hf as (Hin & Hid & Hpv).
  set (e := if time_after (time_add now (is_ttl issuer)) (dd_ExpiresAt desc) then _ else _).
  assert (e ≤ dd_ExpiresAt desc ∧ e ≤ now + is_ttl issuer) as [He1 He2].
  { unfold e, time_after, time_add. pose proof (truncate_bounds (dd_ExpiresAt desc)).
    destruct (Z.ltb_spec (dd_ExpiresAt desc) (now + is_ttl issuer)); lia. }
  destruct (time_after e (time_add now second)) eqn:Hcl; [|done]. apply Z.ltb_lt in Hcl. unfold time_add in Hcl.
  cbn [negb]. destruct (newWSSTicketID rnd) as [jti|]; [|done].
  destruct (Sign _ _ _ _ _ _) as [ticket|] eqn:Hs; [|done]. intros [= <-].
  exists desc, front, (ticketClaims issuer jti desc front now e). split; [|done].
  pose proof (truncate_bounds e) as He. assert (truncateSecond now = now) as Hi by apply truncate_idem.
  split; cbn [RelayID ClaimFrontID IssuedAt NotBefore ExpiresAt MaxStreams ticketClaims tr_URL tr_ExpiresAt];
    rewrite ?unix_truncate, ?Hi; try done.
  - exists rid, fid. by rewrite (wf_key s Hwf _ _ Hrow).
  - by rewrite (wf_key s Hwf _ _ Hrow).
  - lia.
Qed.

(** C7: A ticket answered with 201 is for a live, WSS-capable foundation relay
    of the directory and one of its own advertised fronts, whose URL it
    returns; it outlives neither the relay's lease nor the configured lifetime,
    and every sidecar of that relay that holds the broker's public key and
    allows that lifetime accepts it, with exactly those claims, throughout its
    window. *)
Theorem ticket_issued (cfg : Config) (s : Store) (issuer : wssTicketIssuer)
    (body : option (string * string)) (rnd : option (list byte)) (clock signClock : Z)
    (resp : WSSSessionTicketResponse) :
  let key := NewKeyFromSeed (cfg_WSSTicketSigningSeed cfg) in
  (∀ msg, edVerify (Public key) msg (edSign key msg) = true ∧ length (edSign key msg) = SignatureSize) →
  (∀ c m p, in_int64 (ExpiresAt c) → policy ToLower c m → Marshal c = Some p → Decode p = Some c ∧ p ≠ []) →
  store_wf s → newWSSTicketIssuer cfg = Ok (Some issuer) → 0 ≤ clock < 2 ^ 63 →
  wssTicketHandler s issuer body rnd clock signClock = (StatusCreated, Some resp) →
  ∃ desc front c, ticket_grant s issuer body clock resp desc front c ∧
    ∀ (ks : gmap string (list byte)) vo v t,
      NewTicketVerifier Sum256 ks (dd_ID desc) vo = Ok v →
      ks !! TicketKeyID Sum256 (Public key) = Some (Public key) →
      is_ttl issuer ≤ MaxLifetime (verifierOpts v) →
      truncateSecond clock ≤ t < unixTime (ExpiresAt c) →
      0 ≤ ClockSkew (verifierOpts v) →
      Verify ToLower edVerify Marshal Decode v t (tr_Ticket resp) = Ok c.
Proof.
  intros key Hed Hjson Hwf (Httl & _ & Hsigner)%newWSSTicketIssuer_ok Hclock Hh.
  apply wssTicketHandler_created in Hh as (desc & front & c & Hg & Hs); [|done|lia].
  exists desc, front, c. split; [done|]. intros ks vo v t Hv Hk Hlife Ht Hskew.
  destruct Hg as [_ Hrow _ _ _ _ [Hiss Hnb] Hlease Hgt _].
  rewrite (wf_key s Hwf _ _ Hrow) in Hv. pose proof (truncate_bounds clock) as Hc.
  assert (in_int64 (ExpiresAt c)) as Hin.
  { unfold MaxTicketLifetime, minute, unixTime, second, millisecond, in_int64, int64_min, int64_max in *. lia. }
  refine (Sign_Verify ToLower Sum256 Public edSign edVerify Marshal Decode key _ vo (is_signer issuer) ks v
    signClock t c (tr_Ticket resp) Hed (λ m p, Hjson c m p Hin) Hsigner Hv Hk Hin Hs _ _ _).
  - unfold unixTime in *. assert (0 < second) by done. apply Z.quot_le_lower_bound; [done|]. lia.
  - rewrite Hnb. lia.
  - lia.
Qed.
End wssTickets.

(** * Concrete instances *)
Definition exampleConfig : Config :=
  {| cfg_RegistrationToken := ""; cfg_FoundationToken := "secret"; cfg_RelayLeaseTTL := 180 * second;
     cfg_WSSTicketSigningSeed := replicate 32 (chr 7); cfg_WSSTicketTTL := 0; cfg_WSSTicketMaxStreams := 0 |}.
Definition exampleHTTP : httpRequest :=
  {| hr_RemoteAddr := "203.0.113.7:4000"; hr_CFConnectingIP := ""; hr_XForwardedFor := "";
     hr_Authorization := ""; hr_Path := "" |}.
Definition exampleBroker : broker :=
  {| bk_store := NewStore; bk_ledger := newRelayIDLedger (24 * 60 * minute) 100;
     bk_cap := newNewRelayCap 2 newRelayCapWindow [] |}.

#[local] Existing Instance exampleProofs.
#[local] Instance serverRows : MapRange string Descriptor := map_to_list_range.
#[local] Instance serverKeys : MapRange string (list byte) := map_to_list_range.

Lemma registration_outcome_witness :
  ∃ d b', registerHandler id None exampleConfig [] exampleBroker exampleHTTP (Some anonymousRequest)
      (Some (replicate 16 (chr 2))) (Some (replicate 32 (chr 3))) exampleNow = (StatusCreated, d, b') ∧
    registered_ok exampleConfig exampleHTTP exampleBroker b' d.
Proof.
  destruct (registerHandler id None exampleConfig [] exampleBroker exampleHTTP (Some anonymousRequest)
    (Some (replicate 16 (chr 2))) (Some (replicate 32 (chr 3))) exampleNow) as [[status d] b'] eqn:E.
  assert (status = StatusCreated) as ->.
  { transitivity ((status, d, b').1.1); [done|]. rewrite <- E. vm_compute. reflexivity. }
  exists d, b'. split; [reflexivity|].
  pose proof (registration_outcome id None exampleConfig [] exampleBroker exampleHTTP (Some anonymousRequest)
    (Some (replicate 16 (chr 2))) (Some (replicate 32 (chr 3))) exampleNow ltac:(split; reflexivity)
    ltac:(split; [by apply Z.leb_le|reflexivity])) as H.
  rewrite E in H. exact H.
Defined.

Lemma list_page_witness :
  let volunteer := exampleDescriptor "relay_1" "203.0.113.9" NodeClassVolunteer in
  existsb wssRelayEligible (reserveWSSCandidate [volunteer; exampleRow] 1) = true.
Proof.
  intros volunteer.
  destruct (list_page [volunteer; exampleRow] 1 ltac:(lia)) as (_ & _ & H & _).
  apply H. vm_compute. reflexivity.
Defined.

(** Claims as lines: a codec that decodes what it encodes. *)
Definition lineFields (c : Claims) : list (list byte) :=
  [EncodeToString (bytes (JTI c)); EncodeToString (bytes (RelayID c));
   EncodeToString (bytes (ClaimFrontID c)); FormatInt (IssuedAt c); FormatInt (NotBefore c);
   FormatInt (ExpiresAt c); FormatInt (MaxStreams c)].
Definition lineMarshal (c : Claims) : option (list byte) :=
  Some (joinWith (chr 10) (lineFields c)).

Definition lineDecode (p : list byte) : option Claims :=
  match splitOn 10 p with
  | [j; r; f; i; n; e; m] =>
      j ← DecodeString j; r ← DecodeString r; f ← DecodeString f;
      i ← ParseInt i; n ← ParseInt n; e ← ParseInt e; m ← ParseInt m;
      Some {| Version := TicketVersion; Audience := TicketAudience; JTI := text j; RelayID := text r;
              ClaimFrontID := text f; IssuedAt := i; NotBefore := n; ExpiresAt := e; MaxStreams := m |}
  | _ => None
  end.

Lemma lineCodec c m p :
  in_int64 (ExpiresAt c) → policy id c m → lineMarshal c = Some p → lineDecode p = Some c ∧ p ≠ [].
Proof.
  intros Hin [Hv Ha _ _ _ Hs Ho _] Hm. assert (p = joinWith (chr 10) (lineFields c)) as ->
    by (unfold lineMarshal in Hm; congruence).
  unfold in_int64, int64_min, int64_max, MaxTicketStreams in *.
  assert (splitOn 10 (joinWith (chr 10) (lineFields c)) = lineFields c) as Hsp.
  { apply (splitOn_joinWith (chr 10)); [done|]. assert (10 ∈ [10; 13; 32; 46])%N by set_solver.
    repeat constructor; by apply EncodeToString_lacks || by apply FormatInt_noBreak. }
  split; [|by intros E; rewrite E in Hsp].
  unfold lineDecode. rewrite Hsp. unfold lineFields.
  rewrite !DecodeString_EncodeToString. cbn [mbind option_bind]. rewrite !text_bytes.
  rewrite !ParseInt_FormatInt_int64 by (unfold in_int64, int64_min, int64_max; lia).
  cbn [mbind option_bind]. destruct c. cbn in *. by subst.
Qed.

Definition exampleKeyFromSeed (seed : list byte) : list byte := seed ++ seed.
Definition sidecarKeys : gmap string (list byte) :=
  {[ TicketKeyID exampleSum (replicate 32 (chr 7)) := replicate 32 (chr 7) ]}.
Definition sidecarOptions : TicketOptions := {| MaxLifetime := 0; ClockSkew := 30 * second |}.

Definition ticketRelayID : string := "relay_0123456789abcdef0123456789abcdef".
Definition ticketRow : Descriptor :=
  {| dd_ID := ticketRelayID; dd_Label := ""; dd_PublicHost := "203.0.113.7"; dd_PublicPort := 443;
     dd_Geo := noGeo; dd_ExitHost := ""; dd_IdentityPublicKey := "key"; dd_LeaseToken := "lease_1";
     dd_NodeClass := NodeClassFoundation; dd_Protocol := ProtocolVLESSRealityVision; dd_ClientID := "c";
     dd_RealityPublicKey := "k"; dd_ShortID := "s"; dd_ServerName := "n"; dd_Flow := FlowVision;
     dd_ExitMode := ExitModeDirect; dd_MaxSessions := 4; dd_MaxMbps := 10; dd_RelayVersion := "1";
     dd_Transport := TransportDirect; dd_PunchCapable := false; dd_PunchEndpoint := "";
     dd_WSSFronts := [{| FrontID := "cdn-a"; FrontURL := "wss://a.example.com/api/v1/wss-bridge";
                         ProtocolVersion := 1 |}];
     dd_RegisteredAt := exampleNow; dd_LastHeartbeatAt := exampleNow;
     dd_ExpiresAt := exampleNow + 180 * second |}.
Definition ticketStore : Store := withRelays NewStore {[ticketRelayID := ticketRow]}.

Lemma ticketStore_wf : store_wf ticketStore.
Proof.
  split; cbn [ticketStore relays withRelays].
  - by intros id d [<- <-]%lookup_singleton_Some.
  - by intros i j d e [<- <-]%lookup_singleton_Some [<- <-]%lookup_singleton_Some.
  - by intros id d [<- <-]%lookup_singleton_Some.
Qed.

Lemma ticket_issued_witness :
  ∃ issuer resp v c,
    newWSSTicketIssuer exampleSum examplePublic exampleKeyFromSeed exampleConfig = Ok (Some issuer) ∧
    wssTicketHandler id exampleSign lineMarshal ticketStore issuer (Some (ticketRelayID, "cdn-a"%string))
      (Some (replicate 18 (chr 9))) exampleNow exampleNow = (StatusCreated, Some resp) ∧
    NewTicketVerifier exampleSum sidecarKeys ticketRelayID sidecarOptions = Ok v ∧
    Verify id exampleVerify lineMarshal lineDecode v exampleNow (tr_Ticket resp) = Ok c.
Proof.
  destruct (newWSSTicketIssuer exampleSum examplePublic exampleKeyFromSeed exampleConfig)
    as [[issuer|]|] eqn:Hi; [|vm_compute in Hi; discriminate..].
  destruct (wssTicketHandler id exampleSign lineMarshal ticketStore issuer (Some (ticketRelayID, "cdn-a"%string))
    (Some (replicate 18 (chr 9))) exampleNow exampleNow) as [status [resp|]] eqn:Hh.
  2: { vm_compute in Hi. injection Hi as <-. vm_compute in Hh. discriminate. }
  assert (status = StatusCreated) as ->.
  { transitivity ((status, Some resp).1); [done|]. rewrite <- Hh. clear -Hi.
    vm_compute in Hi. injection Hi as <-. vm_compute. reflexivity. }
  destruct (NewTicketVerifier exampleSum sidecarKeys ticketRelayID sidecarOptions) as [v|] eqn:Hv;
    [|vm_compute in Hv; discriminate].
  destruct (ticket_issued id exampleSum examplePublic exampleKeyFromSeed exampleSign exampleVerify
    lineMarshal lineDecode exampleConfig ticketStore issuer (Some (ticketRelayID, "cdn-a"%string))
    (Some (replicate 18 (chr 9))) exampleNow exampleNow resp) as (desc & front & c & Hg & Hok).
  - intros msg. split; [by apply bool_decide_eq_true|done].
  - exact lineCodec.
  - exact ticketStore_wf.
  - exact Hi.
  - split; [by apply Z.leb_le|reflexivity].
  - exact Hh.
  - exists issuer, resp, v, c. split; [reflexivity|]. split; [exact Hh|]. split; [reflexivity|].
    destruct Hg as [(rid & fid & Hb & Hr & _) Hrow _ _ _ _ [Hiss _] Hlease Hgt _].
    injection Hb as <- <-. rewrite Hr in Hrow. vm_compute in Hrow. injection Hrow as <-.
    refine (Hok sidecarKeys sidecarOptions v exampleNow Hv _ _ _ _); clear Hok.
    + vm_compute. reflexivity.
    + vm_compute in Hi, Hv. injection Hi as <-. injection Hv as <-. vm_compute. discriminate.
    + unfold exampleNow in *. change (truncateSecond (1784635200 * second)) with (1784635200 * second) in *. lia.
    + vm_compute in Hv. injection Hv as <-. vm_compute. discriminate.
Defined.
