(* ===== verification/SignedList.v ===== *)
(** The signed relay directory: the broker's list, mirror and inventory
    responses (src/libs/openrung/internal/broker/server.go, signing.go,
    inventory.go) and the client's verification of them
    (src/libs/brokerapi/signing.go, relay_schema.go, url.go).

    [encoding/json] on the two modules' types is the interface [ListJSON]; the
    broker writes through it and the client reads through it.  Ed25519 and
    SHA-256 are parameters. *)
From stdpp Require Import base list gmap strings.
From Stdlib Require Import ZArith Lia Sorted.
From S2P Require Import Prelude Codec GoTime Directory Fronts Ticket RelayIdentity Ranking BrokerStore Netip Registration BrokerServer.

(** * The broker's response *)
Definition ChannelAPI : string := "api".
Definition ChannelInventory : string := "inventory".

(** [lr_Relays] is [None] for a nil slice. *)
Record ListResponse := {
  lr_Count : Z;
  lr_ServerTime : Z;
  lr_NotAfter : Z;
  lr_KeyID : string;
  lr_Channel : string;
  lr_Limit : Z;
  lr_Relays : option (list Descriptor)
}.

#[global] Instance ListResponse_eq_dec : EqDecision ListResponse.
Proof. solve_decision. Defined.

Definition truncateDescriptor (d : Descriptor) : Descriptor :=
  {| dd_ID := dd_ID d; dd_Label := dd_Label d; dd_PublicHost := dd_PublicHost d;
     dd_PublicPort := dd_PublicPort d; dd_Geo := dd_Geo d; dd_ExitHost := dd_ExitHost d;
     dd_IdentityPublicKey := dd_IdentityPublicKey d; dd_LeaseToken := dd_LeaseToken d;
     dd_NodeClass := dd_NodeClass d; dd_Protocol := dd_Protocol d; dd_ClientID := dd_ClientID d;
     dd_RealityPublicKey := dd_RealityPublicKey d; dd_ShortID := dd_ShortID d;
     dd_ServerName := dd_ServerName d; dd_Flow := dd_Flow d; dd_ExitMode := dd_ExitMode d;
     dd_MaxSessions := dd_MaxSessions d; dd_MaxMbps := dd_MaxMbps d;
     dd_RelayVersion := dd_RelayVersion d; dd_Transport := dd_Transport d;
     dd_PunchCapable := dd_PunchCapable d; dd_PunchEndpoint := dd_PunchEndpoint d;
     dd_WSSFronts := dd_WSSFronts d;
     dd_RegisteredAt := truncateSecond (dd_RegisteredAt d);
     dd_LastHeartbeatAt := truncateSecond (dd_LastHeartbeatAt d);
     dd_ExpiresAt := truncateSecond (dd_ExpiresAt d) |}.

Definition normalizeSignedRelayListTimes (resp : ListResponse) : ListResponse :=
  {| lr_Count := lr_Count resp; lr_ServerTime := truncateSecond (lr_ServerTime resp);
     lr_NotAfter := truncateSecond (lr_NotAfter resp); lr_KeyID := lr_KeyID resp;
     lr_Channel := lr_Channel resp; lr_Limit := lr_Limit resp;
     lr_Relays := option_map (map truncateDescriptor) (lr_Relays resp) |}.

(** * The client's reading of it

    A pointer field of the wire types is an option: [None] when the key is
    absent or null.  The other fields of these types are decoded but never
    read. *)
Record relayWireDescriptor := {
  wd_ID : option string;
  wd_PublicHost : option string;
  wd_PublicPort : option Z;
  wd_Protocol : option string;
  wd_ClientID : option string;
  wd_RealityPublicKey : option string;
  wd_ShortID : option string;
  wd_ServerName : option string;
  wd_Flow : option string;
  wd_ExitMode : option string;
  wd_MaxSessions : option Z;
  wd_MaxMbps : option Z;
  wd_VolunteerVersion : option string;
  wd_RegisteredAt : option Z;
  wd_LastHeartbeatAt : option Z;
  wd_ExpiresAt : option Z
}.

Record relayWireList := {
  wl_Count : option Z;
  wl_ServerTime : option Z;
  wl_Relays : option (list relayWireDescriptor)
}.

Record relayListEnvelope := { ev_Channel : string; ev_Limit : Z; ev_NotAfter : Z }.

(** What the struct tags of the two modules make of a response: every pointer
    field of the client's descriptor is a key the broker always writes
    ([volunteer_version] repeats the relay version). *)
Definition wireDescriptor (d : Descriptor) : relayWireDescriptor :=
  {| wd_ID := Some (dd_ID d); wd_PublicHost := Some (dd_PublicHost d);
     wd_PublicPort := Some (dd_PublicPort d); wd_Protocol := Some (dd_Protocol d);
     wd_ClientID := Some (dd_ClientID d); wd_RealityPublicKey := Some (dd_RealityPublicKey d);
     wd_ShortID := Some (dd_ShortID d); wd_ServerName := Some (dd_ServerName d);
     wd_Flow := Some (dd_Flow d); wd_ExitMode := Some (dd_ExitMode d);
     wd_MaxSessions := Some (dd_MaxSessions d); wd_MaxMbps := Some (dd_MaxMbps d);
     wd_VolunteerVersion := Some (dd_RelayVersion d); wd_RegisteredAt := Some (dd_RegisteredAt d);
     wd_LastHeartbeatAt := Some (dd_LastHeartbeatAt d); wd_ExpiresAt := Some (dd_ExpiresAt d) |}.

Definition wireList (r : ListResponse) : relayWireList :=
  {| wl_Count := Some (lr_Count r); wl_ServerTime := Some (lr_ServerTime r);
     wl_Relays := option_map (map wireDescriptor) (lr_Relays r) |}.

Definition envelopeOf (r : ListResponse) : relayListEnvelope :=
  {| ev_Channel := lr_Channel r; ev_Limit := lr_Limit r; ev_NotAfter := lr_NotAfter r |}.

(** [json.Marshal] of a response and [json.Unmarshal] into the client's two
    types; a body the broker marshals decodes to the values it was made of. *)
Class ListJSON := {
  marshalList : ListResponse → option (list byte);
  decodeEnvelope : list byte → option relayListEnvelope;
  decodeWire : list byte → option relayWireList;
  json_envelope r b : marshalList r = Some b → decodeEnvelope b = Some (envelopeOf r);
  json_wire r b : marshalList r = Some b → decodeWire b = Some (wireList r)
}.

(** * Signing *)
Definition apiNotAfterWindow : Z := 30 * minute.
Definition mirrorNotAfterWindow : Z := 24 * hour.
Definition inventoryNotAfterWindow : Z := 5 * minute.
Definition mirrorRelayLimit : Z := 20.
Definition StatusMethodNotAllowed : Z := 405.

Record signer := { sg_key : list byte; sg_keyID : string }.

(** A response: the status, the signature header if set, and the body if it is
    not an error message. *)
Record signedHTTP := { sh_Status : Z; sh_Signature : string; sh_Body : option (list byte) }.

Definition httpError (status : Z) : signedHTTP := {| sh_Status := status; sh_Signature := ""; sh_Body := None |}.

Definition semicolon : byte := chr 59.

Section broker_side.
#[local] Set Default Proof Using "Type".
Context (Sum256 Public NewKeyFromSeed : list byte → list byte).
Context (edSign : list byte → list byte → list byte).
Context {json : ListJSON}.
Context {F : Type} {float : Float64 F} {sorts : GoSort} (IsIPv6Host : string → bool).
Context {relayRows : MapRange string Descriptor} {sessionRows : MapRange string relaySessionState}.
(** [brokerapi.ChannelMirror] of the broker's own copy of that module, which
    the repository does not contain. *)
Context (ChannelMirror : string).

Definition signingKeyID (pub : list byte) : string := text (hexEncode (take 8 (Sum256 pub))).

(** [None] is the startup panic. *)
Definition newSigner (seed : list byte) : option signer :=
  if negb (length seed =? SeedSize)%nat then None else
  let key := NewKeyFromSeed seed in
  Some {| sg_key := key; sg_keyID := signingKeyID (Public key) |}.

Definition ParseSigningSeed (value : string) : option (list byte) :=
  if str_empty value then None else
  seed ← stdDecode (bytes value);
  if negb (length seed =? SeedSize)%nat then None else Some seed.

Definition signatureHeaderOf (keyID : string) (sig : list byte) : string :=
  text (bytes "ed25519;" ++ bytes keyID ++ semicolon :: stdEncode sig).

Definition writeSigned (s : signer) (resp : ListResponse) : signedHTTP :=
  let resp := normalizeSignedRelayListTimes resp in
  match marshalList resp with
  | None => httpError StatusInternalServerError
  | Some body =>
      let sig := edSign (sg_key s) body in
      {| sh_Status := StatusOK; sh_Signature := signatureHeaderOf (sg_keyID s) sig; sh_Body := Some body |}
  end.

Definition apiResponse (st : Store) (s : signer) (limit now : Z) : ListResponse :=
  let relays := reserveWSSCandidate (ListRelays IsIPv6Host st now 0) limit in
  {| lr_Count := Z.of_nat (length relays); lr_ServerTime := now;
     lr_NotAfter := time_add now apiNotAfterWindow; lr_KeyID := sg_keyID s; lr_Channel := ChannelAPI;
     lr_Limit := limit; lr_Relays := Some relays |}.

(** [rawLimit] is the query parameter.  The discovery event the handler
    also records ([Telemetry.recordClientSeen]) does not influence the response. *)
Definition listRelaysHandler (st : Store) (s : signer) (rawLimit : string) (now : Z) : signedHTTP :=
  match listLimit rawLimit with
  | None => httpError StatusBadRequest
  | Some limit => writeSigned s (apiResponse st s limit now)
  end.

Definition mirrorResponse (st : Store) (s : signer) (now : Z) : ListResponse :=
  let relays := reserveWSSCandidate (ListRelays IsIPv6Host st now 0) mirrorRelayLimit in
  {| lr_Count := Z.of_nat (length relays); lr_ServerTime := now;
     lr_NotAfter := time_add now mirrorNotAfterWindow; lr_KeyID := sg_keyID s;
     lr_Channel := ChannelMirror; lr_Limit := 0; lr_Relays := Some relays |}.

Definition listRelaysMirrorHandler (st : Store) (s : signer) (now : Z) : signedHTTP :=
  writeSigned s (mirrorResponse st s now).

Definition idLess (a b : Descriptor) : bool := String.ltb (dd_ID a) (dd_ID b).
Definition sortInventoryByRelayID (relays : list Descriptor) : list Descriptor := slice idLess relays.

Definition inventoryResponse (st : Store) (s : signer) (now : Z) : ListResponse :=
  let inventory := sortInventoryByRelayID (ListRelays IsIPv6Host st now 0) in
  {| lr_Count := Z.of_nat (length inventory); lr_ServerTime := now;
     lr_NotAfter := time_add now inventoryNotAfterWindow; lr_KeyID := sg_keyID s;
     lr_Channel := ChannelInventory; lr_Limit := 0; lr_Relays := Some inventory |}.

Definition relayInventoryHandler (st : Store) (apiToken : string) (s : signer) (r : httpRequest)
    (method : string) (now : Z) : signedHTTP :=
  if negb (bearerMatches r apiToken) then httpError StatusUnauthorized else
  if negb (str_eqb method "GET") && negb (str_eqb method "HEAD") then httpError StatusMethodNotAllowed else
  writeSigned s (inventoryResponse st s now).

(** [seedRelayLedger] at startup. *)
Definition seedRelayLedger (l : relayIDLedger) (st : Store) (now : Z) : relayIDLedger :=
  foldl (λ l desc, remember l (dd_ID desc) (dd_NodeClass desc) now) l (ListRelays IsIPv6Host st now 0).
End broker_side.

(** * Verification *)
Definition notAfterSkewAllowance : Z := 5 * minute.
Definition DefaultRelayLimit : Z := 5.

Record pinnedKey := { pk_id : string; pk_key : list byte }.
Record RelayList := { rl_rawJSON : list byte; rl_KeyID : string; rl_SignatureVerified : bool }.

Inductive ListError := VerificationFailure | WireError.

Definition effectiveRelayLimit (limit : Z) : Z := if limit <? 1 then DefaultRelayLimit else limit.

Definition present {A} (o : option A) : bool := match o with Some _ => true | None => false end.

Definition wireDescriptorComplete (d : relayWireDescriptor) : bool :=
  present (wd_ID d) && present (wd_PublicHost d) && present (wd_PublicPort d) &&
  present (wd_Protocol d) && present (wd_ClientID d) && present (wd_RealityPublicKey d) &&
  present (wd_ShortID d) && present (wd_ServerName d) && present (wd_Flow d) &&
  present (wd_ExitMode d) && present (wd_MaxSessions d) && present (wd_MaxMbps d) &&
  present (wd_VolunteerVersion d) && present (wd_RegisteredAt d) &&
  present (wd_LastHeartbeatAt d) && present (wd_ExpiresAt d).

(** [net.ParseIP(host).IsLoopback()] *)
Definition isLoopbackIP (host : string) : bool :=
  match ParseAddr host with
  | Some (V6 v zone) =>
      str_empty zone && match Unmap (V6 v zone) with
                        | V4 b => b / 2 ^ 24 =? 127
                        | V6 b _ => b =? 1
                        end
  | Some (V4 b) => b / 2 ^ 24 =? 127
  | None => false
  end.

Definition orderKeysByAdvisoryID (keys : list pinnedKey) (headerKeyID : string) : list pinnedKey :=
  List.filter (λ k, str_eqb (pk_id k) headerKeyID) keys ++
  List.filter (λ k, negb (str_eqb (pk_id k) headerKeyID)) keys.

Definition parseRelaySignatureHeader (header : string) : option (string * list byte) :=
  if str_empty header then None else
  match splitOn 59 (bytes header) with
  | [alg; keyID; sig] =>
      if negb (bool_decide (alg = bytes "ed25519")) then None else
      signature ← stdDecode sig;
      if negb (length signature =? SignatureSize)%nat then None else Some (text keyID, signature)
  | _ => None
  end.

Section client_side.
#[local] Set Default Proof Using "Type".
Context (edVerify : list byte → list byte → list byte → bool) {json : ListJSON}.
Context (EqualFold : string → string → bool) (urlParse : string → option URL) (Hostname : URL → string).

Definition hostIsLoopback (host : string) : bool := EqualFold host "localhost" || isLoopbackIP host.

Definition endpointIsLoopback (endpoint : string) : bool :=
  match urlParse endpoint with Some u => hostIsLoopback (Hostname u) | None => false end.

Definition validateRelayListWire (body : list byte) : bool :=
  match decodeWire body with
  | None => false
  | Some l =>
      present (wl_Count l) && present (wl_ServerTime l) &&
      match wl_Relays l with
      | Some rs => forallb wireDescriptorComplete rs
      | None => false
      end
  end.

Definition verifyRelayList (keys : list pinnedKey) (endpoint : string) (requestedLimit : Z)
    (signatureHeader : string) (body : list byte) (now : Z) : result ListError RelayList :=
  if endpointIsLoopback endpoint then
    if validateRelayListWire body
    then Ok {| rl_rawJSON := body; rl_KeyID := ""; rl_SignatureVerified := false |}
    else Err WireError
  else
  match parseRelaySignatureHeader signatureHeader with
  | None => Err VerificationFailure
  | Some (headerKeyID, signature) =>
      match List.find (λ k, edVerify (pk_key k) body signature) (orderKeysByAdvisoryID keys headerKeyID) with
      | None => Err VerificationFailure
      | Some candidate =>
          (** the loop leaves [verifiedKeyID] empty when the key's own ID is *)
          if str_empty (pk_id candidate) then Err VerificationFailure else
          match decodeEnvelope body with
          | None => Err VerificationFailure
          | Some envelope =>
              if negb (str_eqb (ev_Channel envelope) ChannelAPI) then Err VerificationFailure else
              if negb (ev_Limit envelope =? effectiveRelayLimit requestedLimit) then Err VerificationFailure else
              if time_is_zero (ev_NotAfter envelope) then Err VerificationFailure else
              if time_before (ev_NotAfter envelope) (time_add now (- notAfterSkewAllowance))
              then Err VerificationFailure else
              if negb (validateRelayListWire body) then Err VerificationFailure else
              Ok {| rl_rawJSON := body; rl_KeyID := pk_id candidate; rl_SignatureVerified := true |}
          end
      end
  end.
End client_side.

(** * The signature header *)
Lemma lacks_stdEncode bs : lacks 59 (stdEncode bs) = true.
Proof.
  unfold stdEncode. rewrite lacks_app. apply andb_true_iff. split.
  - unfold rawStdEncode, lacks. induction (sextetsOf_bound bs) as [|n l Hn _ IH]; [done|].
    cbn. rewrite IH, andb_true_r.
    apply (allBelow_spec 64 0 (λ n, negb (byte_of (stdSextet n) =? 59)%N)); [by vm_compute|done].
  - unfold padding. by repeat case_match.
Qed.

Lemma lacks_hexEncode_semicolon l : lacks 59 (hexEncode l) = true.
Proof.
  unfold hexEncode, lacks. induction l as [|b l IH]; [done|]. cbn. rewrite IH, andb_true_r.
  assert (∀ n, 0 ≤ n < 16 → negb (byte_of (hexDigit n) =? 59)%N = true) as Hd.
  { intros n. apply (allBelow_spec 16 0 (λ n, negb (byte_of (hexDigit n) =? 59)%N)). by vm_compute. }
  pose proof (val_bound b). rewrite andb_true_iff.
  split; apply Hd; Z.to_euclidean_division_equations; lia.
Qed.

Lemma parse_signatureHeaderOf keyID sig :
  lacks 59 (bytes keyID) = true → length sig = SignatureSize →
  parseRelaySignatureHeader (signatureHeaderOf keyID sig) = Some (keyID, sig).
Proof.
  intros Hk Hl. unfold parseRelaySignatureHeader, signatureHeaderOf. rewrite bytes_text.
  change (bytes "ed25519;" ++ bytes keyID ++ semicolon :: stdEncode sig)
    with (bytes "ed25519" ++ semicolon :: bytes keyID ++ semicolon :: stdEncode sig).
  rewrite !splitOn_app by done. rewrite splitOn_lacks by apply lacks_stdEncode.
  rewrite bool_decide_true by done. cbn [negb]. rewrite stdDecode_stdEncode. cbn [mbind option_bind].
  rewrite Hl, Nat.eqb_refl. cbn [negb]. by rewrite text_bytes.
Qed.

Lemma complete_wireDescriptor d : wireDescriptorComplete (wireDescriptor d) = true.
Proof. done. Qed.

Lemma listLimit_range raw n : listLimit raw = Some n → 1 ≤ n ≤ 20.
Proof. unfold listLimit. intros H. repeat (case_match; simplify_eq); cmp_lia. Qed.

Section directory.
#[local] Set Default Proof Using "Type".
Context (Sum256 Public NewKeyFromSeed : list byte → list byte).
Context (edSign : list byte → list byte → list byte) (edVerify : list byte → list byte → list byte → bool).
Context {json : ListJSON}.
Context {F : Type} {float : Float64 F} {sorts : GoSort} (IsIPv6Host : string → bool).
Context {relayRows : MapRange string Descriptor} {sessionRows : MapRange string relaySessionState}.
Context (ChannelMirror : string).
Context (EqualFold : string → string → bool) (urlParse : string → option URL) (Hostname : URL → string).

Notation verifyList := (verifyRelayList edVerify EqualFold urlParse Hostname).
Notation loopback := (endpointIsLoopback EqualFold urlParse Hostname).

(** What acceptance off the loopback means. *)
Lemma verifyRelayList_inv keys endpoint limit header body now l :
  loopback endpoint = false → verifyList keys endpoint limit header body now = Ok l →
  rl_rawJSON l = body ∧ rl_SignatureVerified l = true ∧
  (∃ k headerID sig, k ∈ keys ∧ pk_id k = rl_KeyID l ∧
     parseRelaySignatureHeader header = Some (headerID, sig) ∧ edVerify (pk_key k) body sig = true) ∧
  (∃ e, decodeEnvelope body = Some e ∧ ev_Channel e = ChannelAPI ∧
     ev_Limit e = effectiveRelayLimit limit ∧ now - notAfterSkewAllowance ≤ ev_NotAfter e) ∧
  validateRelayListWire body = true.
Proof.
  intros Hl. unfold verifyRelayList. rewrite Hl.
  destruct (parseRelaySignatureHeader header) as [[hid sig]|]; [|done].
  destruct (List.find _ _) as [k|] eqn:Hk; [|done]. apply find_some in Hk as [Hin Hver].
  destruct (str_empty (pk_id k)); [done|]. destruct (decodeEnvelope body) as [e|]; [|done].
  destruct (str_eqb (ev_Channel e) ChannelAPI) eqn:Hc; [|done].
  destruct (ev_Limit e =? effectiveRelayLimit limit) eqn:He; [|done]. cbn [negb].
  destruct (time_is_zero (ev_NotAfter e)); [done|].
  destruct (time_before _ _) eqn:Hb; [done|]. destruct (validateRelayListWire body) eqn:Hw; [|done].
  intros [= <-]. split_and!; [done|done| |  |done].
  - exists k, hid, sig. split_and!; [|done..]. unfold orderKeysByAdvisoryID in Hin.
    apply in_app_or in Hin as [[Hin _]%filter_In|[Hin _]%filter_In]; by apply list_elem_of_In.
  - exists e. split_and!; [done|by apply str_eqb_true|by apply Z.eqb_eq|].
    unfold time_before, time_add in Hb. apply Z.ltb_ge in Hb. lia.
Qed.

Lemma find_first {A} (f : A → bool) (l1 l2 : list A) x :
  x ∈ l1 → f x = true → ∃ y, List.find f (l1 ++ l2) = Some y ∧ y ∈ l1 ∧ f y = true.
Proof.
  intros Hx Hf. induction l1 as [|z l1 IH]; [by inversion Hx|]. cbn.
  destruct (f z) eqn:Hz; [exists z; split_and!; [done|left|done]|].
  apply elem_of_cons in Hx as [->|Hx]; [congruence|]. destruct (IH Hx) as (y & Hy & Hin & Hfy).
  exists y. split_and!; [done|by right|done].
Qed.

(** The key the broker names is tried first. *)
Lemma find_advisory keys key id body sig :
  key ∈ keys → pk_id key = id → edVerify (pk_key key) body sig = true →
  ∃ k, List.find (λ k, edVerify (pk_key k) body sig) (orderKeysByAdvisoryID keys id) = Some k ∧ pk_id k = id.
Proof.
  intros Hin Hid Hv. unfold orderKeysByAdvisoryID.
  destruct (find_first (λ k, edVerify (pk_key k) body sig)
    (List.filter (λ k, str_eqb (pk_id k) id) keys)
    (List.filter (λ k, negb (str_eqb (pk_id k) id)) keys) key) as (k & Hf & Hk & _); [|done|].
  - apply list_elem_of_In, filter_In. split; [by apply list_elem_of_In|by apply str_eqb_true].
  - exists k. split; [exact Hf|]. apply list_elem_of_In, filter_In in Hk as [_ Hk]. by apply str_eqb_true.
Qed.

Lemma wire_of_response r b :
  marshalList r = Some b → lr_Relays r ≠ None → validateRelayListWire b = true.
Proof.
  intros Hm Hr. unfold validateRelayListWire. rewrite (json_wire r b Hm). unfold wireList. cbn.
  destruct (lr_Relays r) as [l|]; [|done]. cbn. clear. induction l as [|d l IH]; [done|exact IH].
Qed.

(** A list the broker serves is accepted by the client that asked for it.
    For every store, valid limit and instant, the response of the list endpoint
    verifies at every client that pins the broker's key, off the loopback, with
    the same effective limit, until 35 minutes after the response (30 of
    validity and 5 of clock skew): the client keeps the exact bytes that were
    signed and names the broker's key. *)
Lemma served_list_accepted (seed : list byte) (s : signer) (st : Store) (rawLimit : string) (limit now : Z)
    (body : list byte) (keys : list pinnedKey) (endpoint : string) (requested clock : Z) :
  newSigner Sum256 Public NewKeyFromSeed seed = Some s →
  (∀ msg, edVerify (Public (sg_key s)) msg (edSign (sg_key s) msg) = true ∧
          length (edSign (sg_key s) msg) = SignatureSize) →
  Sum256 (Public (sg_key s)) ≠ [] →
  {| pk_id := signingKeyID Sum256 (Public (sg_key s)); pk_key := Public (sg_key s) |} ∈ keys →
  listLimit rawLimit = Some limit → limit = effectiveRelayLimit requested → 0 ≤ now →
  sh_Body (listRelaysHandler edSign IsIPv6Host st s rawLimit now) = Some body →
  loopback endpoint = false →
  clock ≤ truncateSecond (now + apiNotAfterWindow) + notAfterSkewAllowance →
  verifyList keys endpoint requested (sh_Signature (listRelaysHandler edSign IsIPv6Host st s rawLimit now)) body clock =
    Ok {| rl_rawJSON := body; rl_KeyID := sg_keyID s; rl_SignatureVerified := true |}.
Proof.
  unfold newSigner. destruct (negb _); [done|]. intros [= <-]. cbn [sg_key sg_keyID].
  set (key := NewKeyFromSeed seed). set (s := {| sg_key := key; sg_keyID := _ |}).
  intros Hed Hsum Hpin Hlim Hreq Hnow Hbody Hloop Hclock.
  unfold listRelaysHandler in *. rewrite Hlim in *. unfold writeSigned in *. cbv zeta in *.
  set (resp := normalizeSignedRelayListTimes _) in *.
  destruct (marshalList resp) as [b|] eqn:Hm; [|done]. injection Hbody as <-. cbn [sh_Signature].
  destruct (Hed b) as [Hv Hlen]. unfold verifyRelayList. rewrite Hloop.
  rewrite parse_signatureHeaderOf; [|unfold s, signingKeyID; cbn; rewrite bytes_text; apply lacks_hexEncode_semicolon|done].
  destruct (find_advisory keys _ (sg_keyID s) b (edSign (sg_key s) b) Hpin eq_refl Hv) as (k & -> & Hk).
  rewrite Hk. assert (str_empty (sg_keyID s) = false) as ->.
  { apply bool_decide_eq_false. intros E. apply (f_equal bytes) in E. unfold s, signingKeyID in E. cbn in E.
    rewrite bytes_text in E. by destruct (Sum256 (Public key)). }
  rewrite (json_envelope resp b Hm). cbn [ev_Channel ev_Limit ev_NotAfter envelopeOf lr_Channel lr_Limit
    lr_NotAfter resp normalizeSignedRelayListTimes apiResponse].
  rewrite (proj2 (str_eqb_true _ _) eq_refl). cbn [negb]. rewrite Hreq, Z.eqb_refl. cbn [negb].
  rewrite (wire_of_response resp b Hm) by done. unfold time_add in *.
  pose proof (truncate_bounds (now + apiNotAfterWindow)) as Ht.
  unfold time_is_zero, time_before. rewrite (proj2 (Z.eqb_neq _ _)), (proj2 (Z.ltb_ge _ _)); [done|lia|].
  unfold zero_time, apiNotAfterWindow, minute, second, millisecond in *. lia.
Qed.

(** Every body the broker signs: a page, the mirror or the inventory. *)
Inductive brokerSigned : list byte → Prop :=
| signed_page st s rawLimit now body :
    sh_Body (listRelaysHandler edSign IsIPv6Host st s rawLimit now) = Some body → brokerSigned body
| signed_mirror st s now body :
    sh_Body (listRelaysMirrorHandler edSign IsIPv6Host ChannelMirror st s now) = Some body → brokerSigned body
| signed_inventory st token s r method now body :
    sh_Body (relayInventoryHandler edSign IsIPv6Host st token s r method now) = Some body → brokerSigned body.

Lemma writeSigned_body s resp body :
  sh_Body (writeSigned edSign s resp) = Some body →
  marshalList (normalizeSignedRelayListTimes resp) = Some body.
Proof. unfold writeSigned. cbv zeta. by destruct (marshalList _) as [b|]. Qed.

(** C5: Replay of the directory is bounded.  Suppose the pinned keys verify only
    bodies the broker signed on one of its three channels.  Then a list a
    client accepts off the loopback is a page of the API channel (never a
    mirror artifact or an operator's inventory), of exactly the limit it asked
    for, that the broker produced at most 35 minutes earlier; its relays were
    live members of the directory when it was produced. *)
Theorem directory_replay_bound (keys : list pinnedKey) (endpoint : string) (requested : Z)
    (header : string) (body : list byte) (clock : Z) (l : RelayList) :
  (∀ k sig, k ∈ keys → edVerify (pk_key k) body sig = true → brokerSigned body) →
  ChannelMirror ≠ ChannelAPI → loopback endpoint = false →
  verifyList keys endpoint requested header body clock = Ok l →
  rl_rawJSON l = body ∧
  ∃ st s now,
    marshalList (normalizeSignedRelayListTimes
      (apiResponse IsIPv6Host st s (effectiveRelayLimit requested) now)) = Some body ∧
    clock ≤ now + apiNotAfterWindow + notAfterSkewAllowance ∧
    1 ≤ effectiveRelayLimit requested ≤ 20 ∧
    (store_wf st → ∀ d, d ∈ reserveWSSCandidate (ListRelays IsIPv6Host st now 0) (effectiveRelayLimit requested) →
       relays st !! dd_ID d = Some d ∧ now < dd_ExpiresAt d).
Proof.
  intros Hsig Hmir Hloop Hok.
  apply verifyRelayList_inv in Hok as (Hraw & _ & (k & hid & sig & Hk & _ & _ & Hv) & (e & He & Hc & Hl & Hn) & _);
    [|done].
  split; [done|]. destruct (Hsig k sig Hk Hv) as [st s raw now b Hb|st s now b Hb|st tok s r method now b Hb].
  - unfold listRelaysHandler in Hb. destruct (listLimit raw) as [limit|] eqn:Hraw'; [|done].
    apply writeSigned_body in Hb. rewrite (json_envelope _ _ Hb) in He. injection He as <-.
    cbn in Hl, Hn. subst limit. exists st, s, now. split; [done|].
    pose proof (truncate_bounds (now + apiNotAfterWindow)) as Ht. unfold time_add in *. split; [lia|].
    split; [by apply (listLimit_range raw)|]. intros Hwf d Hd. apply reserve_sub in Hd.
    by apply (elem_of_ListRelays IsIPv6Host st now d Hwf).
  - apply writeSigned_body in Hb. rewrite (json_envelope _ _ Hb) in He. injection He as <-. done.
  - unfold relayInventoryHandler in Hb. destruct (negb (bearerMatches _ _)); [done|].
    destruct (_ && _); [done|]. apply writeSigned_body in Hb. rewrite (json_envelope _ _ Hb) in He.
    by injection He as <-.
Qed.
End directory.

(** * A concrete directory *)
#[local] Instance listRows : MapRange string Descriptor := map_to_list_range.
#[local] Instance listSessions : MapRange string relaySessionState := map_to_list_range.
#[local] Existing Instance insertionGoSort.
#[local] Existing Instance exact.

Definition listSeed : list byte := replicate 32 (chr 7).
Definition listSigner : signer :=
  {| sg_key := exampleKeyFromSeed listSeed;
     sg_keyID := signingKeyID exampleSum (examplePublic (exampleKeyFromSeed listSeed)) |}.
Definition listPins : list pinnedKey :=
  [{| pk_id := "0000000000000000"; pk_key := replicate 32 (chr 1) |};
   {| pk_id := sg_keyID listSigner; pk_key := examplePublic (sg_key listSigner) |}].
Definition listResponse : ListResponse :=
  normalizeSignedRelayListTimes (apiResponse (λ _, false) ticketStore listSigner 5 exampleNow).

(** The codec of one response. *)
Definition oneResponseJSON : ListJSON.
Proof.
  refine {| marshalList r := if bool_decide (r = listResponse) then Some (bytes "{}") else None;
            decodeEnvelope _ := Some (envelopeOf listResponse);
            decodeWire _ := Some (wireList listResponse) |};
  intros r b; case_bool_decide; by subst.
Defined.
#[local] Existing Instance oneResponseJSON.

Lemma served_list_accepted_witness :
  let h := listRelaysHandler exampleSign (λ _, false) ticketStore listSigner "" exampleNow in
  sh_Body h = Some (bytes "{}") ∧
  verifyRelayList exampleVerify str_eqb exampleParse Host listPins "https://broker.example" 0
    (sh_Signature h) (bytes "{}") (exampleNow + 34 * minute) =
    Ok {| rl_rawJSON := bytes "{}"; rl_KeyID := sg_keyID listSigner; rl_SignatureVerified := true |}.
Proof.
  assert (sh_Body (listRelaysHandler exampleSign (λ _, false) ticketStore listSigner "" exampleNow) =
          Some (bytes "{}")) as Hb by (vm_compute; reflexivity).
  split; [exact Hb|].
  apply (served_list_accepted exampleSum examplePublic exampleKeyFromSeed exampleSign exampleVerify
    (λ _, false) str_eqb exampleParse Host listSeed listSigner ticketStore "" 5 exampleNow (bytes "{}") listPins
    "https://broker.example" 0 (exampleNow + 34 * minute)).
  - reflexivity.
  - intros msg. split; [by apply bool_decide_eq_true|done].
  - vm_compute. discriminate.
  - right. left.
  - reflexivity.
  - reflexivity.
  - by apply Z.leb_le.
  - exact Hb.
  - vm_compute. reflexivity.
  - by apply Z.leb_le.
Defined.

Lemma directory_replay_bound_witness :
  ∃ l, verifyRelayList exampleVerify str_eqb exampleParse Host listPins "https://broker.example" 0
      (signatureHeaderOf (sg_keyID listSigner) (exampleSign [] (bytes "{}"))) (bytes "{}")
      (exampleNow + 34 * minute) = Ok l ∧
    rl_rawJSON l = bytes "{}" ∧
    ∃ st s now, marshalList (normalizeSignedRelayListTimes (apiResponse (λ _, false) st s 5 now)) = Some (bytes "{}").
Proof.
  destruct (verifyRelayList exampleVerify str_eqb exampleParse Host listPins "https://broker.example" 0
    (signatureHeaderOf (sg_keyID listSigner) (exampleSign [] (bytes "{}"))) (bytes "{}")
    (exampleNow + 34 * minute)) as [l|] eqn:Hl; [|vm_compute in Hl; discriminate].
  exists l. split; [reflexivity|].
  destruct (directory_replay_bound exampleSign exampleVerify (λ _, false) "mirror" str_eqb exampleParse Host
    listPins "https://broker.example" 0 (signatureHeaderOf (sg_keyID listSigner) (exampleSign [] (bytes "{}")))
    (bytes "{}") (exampleNow + 34 * minute) l) as (Hraw & st & s & now & Hm & _).
  - intros k sig _ _. apply (signed_page _ _ _ ticketStore listSigner "" exampleNow). vm_compute. reflexivity.
  - discriminate.
  - vm_compute. reflexivity.
  - exact Hl.
  - split; [exact Hraw|]. exists st, s, now. exact Hm.
Defined.
