(* ===== verification/Discovery.v ===== *)
(** The client's discovery of the relay directory (src/libs/brokerapi/types.go,
    url.go, errors.go, azure_tls.go, relay.go): the candidate brokers, the URL
    policy, one fetch, and the staggered race over the candidates.

    [racePhase] runs goroutines against a ticker; it is a machine whose events
    (a tick, an attempt's result, a cancelled context) the scheduler orders.
    Theorems hold for every admissible order. *)
From stdpp Require Import base list gmap strings.
From Stdlib Require Import ZArith Lia.
From S2P Require Import Prelude Codec Directory Fronts Ticket RelayIdentity Netip Registration SignedList.

(** * Candidates *)
Definition cloudflareBrokerHost : string := "broker.openrung.org".
Definition cloudFrontBrokerHost : string := "d2r7mdpyevvs1m.cloudfront.net".
Definition azureBrokerHost : string := "cdn-edge-cxdnhsg2aadmaubj.z02.azurefd.net".
Definition DefaultBrokerURL : string := "https://" +:+ cloudflareBrokerHost +:+ "/".
Definition CloudFrontBrokerURL : string := "https://" +:+ cloudFrontBrokerHost +:+ "/".
Definition AzureBrokerURL : string := "https://" +:+ azureBrokerHost +:+ "/".
Definition DefaultBrokerURLs : list string := [CloudFrontBrokerURL; AzureBrokerURL; DefaultBrokerURL].

Record Candidates := { AzureSNIFirst : bool; URLs : list string; OverrideFirst : bool }.

(** The [add] closure: the URLs so far and the set of those seen. *)
Definition addURL (acc : list string * gset string) (value : string) : list string * gset string :=
  let '(ordered, seen) := acc in
  let value := TrimSpace value in
  if str_empty value then acc else
  if bool_decide (value ∈ seen) then acc else (ordered ++ [value], {[value]} ∪ seen).

Definition BrokerCandidates (primary : string) : Candidates :=
  let primary := TrimSpace primary in
  let override := negb (str_empty primary) &&
                  negb (existsb (λ fallback, str_eqb primary (TrimSpace fallback)) DefaultBrokerURLs) in
  let start := if override then addURL ([], ∅) primary else ([], ∅) in
  {| URLs := (foldl addURL start DefaultBrokerURLs).1; OverrideFirst := override; AzureSNIFirst := true |}.

(** * Requests *)
Inductive Platform := PlatformNone | PlatformDesktop | PlatformReactNative | PlatformAndroid | PlatformIOS.
Record ClientOptions := { AppVersion : string; clientPlatform : Platform; PlatformVersion : string }.
Record Identity := { ClientID : string; SessionID : string }.

Definition header : Type := string * string.

Definition platformHeaderValue (GOOS : string) (platform : Platform) (configured : string) : string :=
  let configured := TrimSpace configured in
  if negb (str_empty configured) then configured else
  if str_eqb GOOS "darwin" then match platform with PlatformDesktop => "macos" | _ => "ios" end else GOOS.

Definition platformHeaders (GOOS : string) (o : ClientOptions) : list header :=
  let version := TrimSpace (PlatformVersion o) in
  match clientPlatform o with
  | PlatformNone => []
  | PlatformDesktop =>
      [("X-OpenRung-Desktop"%string, platformHeaderValue GOOS (clientPlatform o) (PlatformVersion o))]
  | PlatformReactNative =>
      [("X-OpenRung-RN"%string, platformHeaderValue GOOS (clientPlatform o) (PlatformVersion o))]
  | PlatformAndroid => if negb (str_empty version) then [("X-OpenRung-Android-API"%string, version)] else []
  | PlatformIOS => if negb (str_empty version) then [("X-OpenRung-iOS-Version"%string, version)] else []
  end.

Definition addCommonHeaders (GOOS : string) (o : ClientOptions) (identity : Identity) : list header :=
  [("Cache-Control", "no-cache, no-store"); ("Pragma", "no-cache")]%string ++
  (let value := TrimSpace (AppVersion o) in
   if negb (str_empty value) then [("X-OpenRung-App-Version"%string, value)] else []) ++
  platformHeaders GOOS o ++
  (if negb (str_empty (TrimSpace (ClientID identity))) && negb (str_empty (TrimSpace (SessionID identity)))
   then [("X-OpenRung-Client-ID"%string, ClientID identity); ("X-OpenRung-Session-ID"%string, SessionID identity)]
   else []).

(** * Errors *)
Inductive ClientError :=
| ErrNoEndpoints
| ErrBadURL
| ErrTransport
| RateLimitedError (brokerURL : string) (retryAfter : Z)
| BrokerStatusError (brokerURL : string) (statusCode : Z)
| ErrReadBody
| ErrTooLarge
| ErrList (e : ListError)
| ErrContext.

(** [http.ParseTime] is [parseTime]; an HTTP date has whole seconds. *)
Definition parseRetryAfter (parseTime : string → option Z) (value : string) (now : Z) : Z :=
  let value := TrimSpace value in
  if str_empty value then 0 else
  match ParseInt (bytes value) with
  | Some seconds => if (seconds <? 0) || (Z.quot (24 * hour) second <? seconds) then 0 else seconds * second
  | None =>
      match parseTime value with
      | None => 0
      | Some when =>
          if negb (time_after when now) then 0 else
          let delay := time_sub when now in
          if 24 * hour <? delay then 0 else delay
      end
  end.

(** * Azure fronts *)
Definition isAzureFrontDoorZone (label : list byte) : bool :=
  match label with
  | [a; b; c] => isLower a && isDigit b && isDigit c
  | _ => false
  end.

(** [strings.TrimSuffix(host, ".")] *)
Definition trimDot (host : string) : string :=
  let bs := bytes host in
  match last bs with
  | Some c => if val c =? 46 then text (take (length bs - 1) bs) else host
  | None => host
  end.

(** One attempt's outcome on the network: [Response] is what was read, the
    headers the client looks at and the body. *)
Inductive httpOutcome :=
| NoResponse
| Response (status : Z) (retryAfter signature : string) (body : option (list byte)).

Definition maxRelayListBytes : Z := 4 * 2 ^ 20.

(** The identity only adds headers and the stagger only times the ticks. *)
Record ListOptions := { AzureSNI : bool; Limit : Z }.
Record Fetch := { ft_AzureSNI : bool; ft_BrokerURL : string; ft_RelayList : RelayList }.
Definition emptyFetch : Fetch :=
  {| ft_AzureSNI := false; ft_BrokerURL := "";
     ft_RelayList := {| rl_rawJSON := []; rl_KeyID := ""; rl_SignatureVerified := false |} |}.

Definition withAzureSNI (o : ListOptions) (b : bool) : ListOptions := {| AzureSNI := b; Limit := Limit o |}.

(** * The race as a machine *)
Record raceState := {
  rs_started : nat;
  rs_ticking : bool;
  rs_failed : nat;
  rs_errs : list (option ClientError)
}.

(** A tick, the result of the attempt on the [i]th URL, or [ctx.Done()]. *)
Inductive raceEvent := EvTick | EvResult (index : nat) | EvDone.

Definition raceStart (n : nat) : raceState :=
  {| rs_started := 1; rs_ticking := (1 <? n)%nat; rs_failed := 0; rs_errs := replicate n None |}.

(** [inr] is a return.  [errs[0]] is returned when every attempt failed; a nil
    error there would be a success with an empty fetch. *)
Definition raceStep (n : nat) (outcome : nat → result ClientError Fetch) (s : raceState) (e : raceEvent)
    : raceState + result ClientError Fetch :=
  match e with
  | EvTick =>
      inl {| rs_started := S (rs_started s); rs_ticking := negb (S (rs_started s) =? n)%nat;
             rs_failed := rs_failed s; rs_errs := rs_errs s |}
  | EvResult i =>
      match outcome i with
      | Ok fetch => inr (Ok fetch)
      | Err err =>
          let errs := <[i := Some err]> (rs_errs s) in
          let failed := S (rs_failed s) in
          if (failed =? n)%nat
          then inr (match errs !! 0%nat with Some (Some e0) => Err e0 | _ => Ok emptyFetch end)
          else inl {| rs_started := rs_started s; rs_ticking := rs_ticking s;
                      rs_failed := failed; rs_errs := errs |}
      end
  | EvDone => inr (Err ErrContext)
  end.

(** [None]: the events end before the loop returns. *)
Fixpoint raceLoop (n : nat) (outcome : nat → result ClientError Fetch) (s : raceState) (es : list raceEvent)
    : option (result ClientError Fetch) :=
  match es with
  | [] => None
  | e :: es' =>
      match raceStep n outcome s e with
      | inl s' => raceLoop n outcome s' es'
      | inr r => Some r
      end
  end.

Section client.
#[local] Set Default Proof Using "Type".
Context (ToLower : string → string) (EqualFold : string → string → bool).
Context (urlParse : string → option URL) (urlString : URL → string) (Hostname Port : URL → string).
(** [query.Set(key, value)] on the raw query, re-encoded. *)
Context (setQuery : string → string → string → string).
(** [http.ParseTime]. *)
Context (parseTime : string → option Z).
Context (edVerify : list byte → list byte → list byte → bool) {json : ListJSON}.
Context (productionRelayKeys : list pinnedKey).

Definition EnforceSecureBrokerURL (baseURL : string) : option URL :=
  let trimmed := TrimSpace baseURL in
  if str_empty trimmed then None else
  parsed ← urlParse trimmed;
  if str_empty (Scheme parsed) || str_empty (Host parsed) then None else
  if HasUser parsed then None else
  let scheme := ToLower (Scheme parsed) in
  if str_eqb scheme "https" then Some parsed
  else if str_eqb scheme "http" then
    if hostIsLoopback EqualFold (Hostname parsed) then Some parsed else None
  else None.

(** [strings.Trim(s, "/")] *)
Definition trimSlashes (s : string) : string :=
  let fix left l := match l with c :: l' => if val c =? 47 then left l' else l | [] => [] end in
  text (rev (left (rev (left (bytes s))))).

Definition endpointURL (baseURL endpointPath : string) : option string :=
  parsed ← EnforceSecureBrokerURL baseURL;
  let basePath := trimSlashes (Path parsed) in
  let endpointPath := trimSlashes endpointPath in
  let path := if str_empty basePath then ("/" +:+ endpointPath)%string
              else ("/" +:+ basePath +:+ "/" +:+ endpointPath)%string in
  Some (urlString {| Scheme := Scheme parsed; Opaque := Opaque parsed; HasUser := HasUser parsed;
                     Host := Host parsed; Path := path; RawPath := ""; RawQuery := "";
                     ForceQuery := false; Fragment := "" |}).

Definition withQuery (u : URL) (raw : string) : URL :=
  {| Scheme := Scheme u; Opaque := Opaque u; HasUser := HasUser u; Host := Host u; Path := Path u;
     RawPath := RawPath u; RawQuery := raw; ForceQuery := ForceQuery u; Fragment := Fragment u |}.

Definition RelayListURL (baseURL : string) (limit : Z) : option string :=
  endpoint ← endpointURL baseURL "api/v1/relays";
  parsed ← urlParse endpoint;
  Some (urlString (withQuery parsed
    (setQuery (RawQuery parsed) "limit" (text (FormatInt (effectiveRelayLimit limit)))))).

Definition TelemetryURL (baseURL : string) : option string := endpointURL baseURL "api/v1/telemetry/events".
Definition WSSTicketURL (baseURL : string) : option string := endpointURL baseURL "api/v1/wss/tickets".
Definition HealthURL (baseURL : string) : option string := endpointURL baseURL "healthz".

Definition azureFrontDoorAddress (address : list byte) : bool :=
  match SplitHostPort address with
  | None => false
  | Some (host, port) =>
      bool_decide (port = bytes "443") &&
      match splitOn 46 (bytes (ToLower (trimDot (text host)))) with
      | [l0; l1; l2] =>
          negb (bool_decide (l0 = [])) && bool_decide (l1 = bytes "azurefd") && bool_decide (l2 = bytes "net")
      | [l0; l1; l2; l3] =>
          negb (bool_decide (l0 = [])) && isAzureFrontDoorZone l1 &&
          bool_decide (l2 = bytes "azurefd") && bool_decide (l3 = bytes "net")
      | _ => false
      end
  end.

Definition EndpointUnboundBrokerFront (brokerURL : string) : bool :=
  match EnforceSecureBrokerURL brokerURL with
  | None => false
  | Some parsed =>
      EqualFold (Scheme parsed) "https" &&
      let port := if str_empty (Port parsed) then "443"%string else Port parsed in
      azureFrontDoorAddress (JoinHostPort (bytes (Hostname parsed)) (bytes port))
  end.

(** One fetch, given what the network answers. *)
Definition fetchRelays (brokerURL : string) (o : ListOptions) (response : httpOutcome) (now : Z)
    : result ClientError RelayList :=
  match RelayListURL brokerURL (Limit o) with
  | None => Err ErrBadURL
  | Some endpoint =>
      match response with
      | NoResponse => Err ErrTransport
      | Response status retryAfter signature body =>
          if status =? 429 then Err (RateLimitedError brokerURL (parseRetryAfter parseTime retryAfter now)) else
          if (status <? 200) || (300 <=? status) then Err (BrokerStatusError brokerURL status) else
          match body with
          | None => Err ErrReadBody
          | Some body =>
              if maxRelayListBytes <? Z.of_nat (length body) then Err ErrTooLarge else
              match verifyRelayList edVerify EqualFold urlParse Hostname productionRelayKeys endpoint
                      (Limit o) signature body now with
              | Ok l => Ok l
              | Err e => Err (ErrList e)
              end
          end
      end
  end.

Definition attempt (serve : string → httpOutcome * Z) (o : ListOptions) (brokerURL : string)
    : result ClientError Fetch :=
  let '(response, now) := serve brokerURL in
  match fetchRelays brokerURL o response now with
  | Ok l => Ok {| ft_BrokerURL := brokerURL; ft_RelayList := l;
                  ft_AzureSNI := AzureSNI o && EndpointUnboundBrokerFront brokerURL |}
  | Err e => Err e
  end.

(** The environment of a phase: whether the context is already done, and the
    scheduler's events; [serve] is what the network answers each attempt. *)
Record phaseEnv := { pe_done : bool; pe_events : list raceEvent; pe_serve : string → httpOutcome * Z }.

Definition phaseOutcome (urls : list string) (o : ListOptions) (env : phaseEnv) (i : nat)
    : result ClientError Fetch :=
  match urls !! i with
  | Some u => attempt (pe_serve env) o u
  | None => Err ErrNoEndpoints
  end.

Definition racePhase (urls : list string) (o : ListOptions) (env : phaseEnv)
    : option (result ClientError Fetch) :=
  if pe_done env then Some (Err ErrContext) else
  raceLoop (length urls) (phaseOutcome urls o env) (raceStart (length urls)) (pe_events env).

Definition endpointUnbound (urls : list string) : list string := List.filter EndpointUnboundBrokerFront urls.
Definition endpointBound (azureSNIFirst : bool) (urls : list string) : list string :=
  List.filter (λ u, negb (EndpointUnboundBrokerFront u) || azureSNIFirst) urls.

(** The two phases with the readings of [ctx.Err()] after each. *)
Record raceEnv := { re_first : phaseEnv; re_done1 : bool; re_second : phaseEnv; re_done2 : bool }.

Definition race (urls : list string) (o : ListOptions) (azureSNIFirst : bool) (env : raceEnv)
    : option (result ClientError Fetch) :=
  match urls with
  | [] => Some (Err ErrNoEndpoints)
  | u0 :: _ =>
      let bound := endpointBound azureSNIFirst urls in
      let unbound := endpointUnbound urls in
      let boundOptions := withAzureSNI o azureSNIFirst in
      let o := withAzureSNI o false in
      if (length bound =? 0)%nat then racePhase unbound o (re_first env) else
      if (length unbound =? 0)%nat then racePhase bound boundOptions (re_first env) else
      match racePhase bound boundOptions (re_first env) with
      | None => None
      | Some (Ok fetch) => Some (Ok fetch)
      | Some (Err boundErr) =>
          if re_done1 env then Some (Err ErrContext) else
          match racePhase unbound o (re_second env) with
          | None => None
          | Some (Ok fetch) => Some (Ok fetch)
          | Some (Err unboundErr) =>
              if re_done2 env then Some (Err ErrContext) else
              if negb azureSNIFirst && EndpointUnboundBrokerFront u0
              then Some (Err unboundErr) else Some (Err boundErr)
          end
      end
  end.

(** The attempt on a genuine override, the context after it, and the race. *)
Record discoveryEnv := {
  de_override : string → httpOutcome * Z;
  de_done1 : bool;
  de_race : raceEnv;
  de_done2 : bool
}.

Definition FirstReachable (c : Candidates) (o : ListOptions) (env : discoveryEnv)
    : option (result ClientError Fetch) :=
  match URLs c with
  | [] => Some (Err ErrNoEndpoints)
  | u0 :: rest =>
      if OverrideFirst c then
        match attempt (de_override env) o u0 with
        | Ok fetch => Some (Ok fetch)
        | Err overrideErr =>
            if de_done1 env then Some (Err ErrContext) else
            match rest with
            | [] => Some (Err overrideErr)
            | _ :: _ =>
                match race rest o (AzureSNIFirst c) (de_race env) with
                | None => None
                | Some (Ok fetch) => Some (Ok fetch)
                | Some (Err raceErr) =>
                    if de_done2 env then Some (Err raceErr) else Some (Err overrideErr)
                end
            end
        end
      else race (URLs c) o (AzureSNIFirst c) (de_race env)
  end.
End client.

(** * Every schedule of a race

    A tick fires only while the ticker runs; an attempt reports once, after it
    was started. *)
Section schedules.
#[local] Set Default Proof Using "Type".
Context (n : nat) (outcome : nat → result ClientError Fetch).

Definition admissible (s : raceState) (reported : gset nat) (e : raceEvent) : Prop :=
  match e with
  | EvTick => rs_ticking s = true
  | EvResult i => (i < rs_started s)%nat ∧ i ∉ reported
  | EvDone => True
  end.

Definition report (reported : gset nat) (e : raceEvent) : gset nat :=
  match e with EvResult i => {[i]} ∪ reported | _ => reported end.

Fixpoint scheduled (s : raceState) (reported : gset nat) (es : list raceEvent) : Prop :=
  match es with
  | [] => True
  | e :: es' =>
      admissible s reported e ∧
      match raceStep n outcome s e with
      | inl s' => scheduled s' (report reported e) es'
      | inr _ => True
      end
  end.

#[export] Instance admissible_dec s reported e : Decision (admissible s reported e).
Proof. destruct e; cbn [admissible]; apply _. Defined.

#[export] Instance scheduled_dec s reported es : Decision (scheduled s reported es).
Proof.
  revert s reported. induction es as [|e es IH]; intros s reported; cbn [scheduled]; [apply _|].
  apply and_dec; [apply _|]. destruct (raceStep n outcome s e); [apply IH|apply _].
Defined.

Record race_inv (s : raceState) (reported : gset nat) : Prop := {
  ri_started : (1 ≤ rs_started s ≤ n)%nat;
  ri_ticking : rs_ticking s = (rs_started s <? n)%nat;
  ri_errs : length (rs_errs s) = n;
  ri_failed : rs_failed s = size reported;
  ri_running : (rs_failed s < n)%nat;
  ri_reported i : i ∈ reported →
    (i < rs_started s)%nat ∧ ∃ e, rs_errs s !! i = Some (Some e) ∧ outcome i = Err e
}.

Lemma raceStart_inv : (1 ≤ n)%nat → race_inv (raceStart n) ∅.
Proof.
  intros Hn. split; cbn [raceStart rs_started rs_ticking rs_failed rs_errs]; [lia|done|apply length_replicate|by rewrite size_empty|lia|].
  by intros i ?%elem_of_empty.
Qed.

(** A full set of reports below [n] is everything below [n]. *)
Lemma reported_all (reported : gset nat) :
  (∀ i, i ∈ reported → (i < n)%nat) → size reported = n → ∀ i, (i < n)%nat → i ∈ reported.
Proof.
  intros Hsub Hsize i Hi.
  assert (reported = set_seq 0 n) as ->; [|by apply elem_of_set_seq; lia].
  apply set_subseteq_size_eq; [intros j Hj; apply elem_of_set_seq; specialize (Hsub j Hj); lia|].
  rewrite size_set_seq. lia.
Qed.

(** What one admissible event does. *)
Lemma raceStep_inv s reported e :
  race_inv s reported → admissible s reported e →
  match raceStep n outcome s e with
  | inl s' =>
      race_inv s' (report reported e) ∧
      ((n - rs_started s') + (n - rs_failed s') + 1 = (n - rs_started s) + (n - rs_failed s))%nat
  | inr (Ok f) => ∃ i, (i < n)%nat ∧ outcome i = Ok f
  | inr (Err x) =>
      e = EvDone ∧ x = ErrContext ∨ (∀ i, (i < n)%nat → ∃ y, outcome i = Err y) ∧ outcome 0%nat = Err x
  end.
Proof.
  intros [Hst Htk Hle Hf Hrun Hrep] Hadm. destruct e as [|i|]; cbn [raceStep]; [| |by left].
  - cbn in Hadm. rewrite Htk, Nat.ltb_lt in Hadm. split; [|cbn; lia].
    split; cbn [rs_started rs_ticking rs_failed rs_errs report]; [lia| |done|done|done|].
    + destruct (Nat.eqb_spec (S (rs_started s)) n), (Nat.ltb_spec (S (rs_started s)) n); done || lia.
    + intros j Hj. destruct (Hrep j Hj). split; [lia|done].
  - cbn [admissible report] in *. destruct Hadm as [Hi Hnew].
    destruct (outcome i) as [f|err] eqn:Ho; [exists i; split; [lia|done]|].
    assert (race_inv' : ∀ j, j ∈ ({[i]} ∪ reported : gset nat) →
      (j < rs_started s)%nat ∧ ∃ e, <[i:=Some err]> (rs_errs s) !! j = Some (Some e) ∧ outcome j = Err e).
    { intros j Hj. destruct (decide (j = i)) as [->|Hne].
      - split; [done|]. exists err. rewrite list_lookup_insert_eq by lia. done.
      - assert (j ∈ reported) as [Hj1 Hj2]%Hrep by set_solver. by rewrite list_lookup_insert_ne. }
    assert (size ({[i]} ∪ reported) = S (rs_failed s)) as Hsz.
    { rewrite size_union by set_solver. rewrite size_singleton. lia. }
    destruct (Nat.eqb_spec (S (rs_failed s)) n) as [Hall|Hmore].
    + assert (∀ j, (j < n)%nat → j ∈ ({[i]} ∪ reported : gset nat)) as Hfull.
      { apply reported_all; [|congruence]. intros j [Hj _]%race_inv'. lia. }
      destruct (race_inv' 0%nat) as (_ & x & -> & H0); [apply Hfull; lia|]. right. split; [|done].
      intros j Hj. destruct (race_inv' j (Hfull j Hj)) as (_ & y & _ & Hy). by exists y.
    + split; [|cbn; lia].
      split; cbn [rs_started rs_ticking rs_failed rs_errs]; [done|done|by rewrite length_insert|done|lia|exact race_inv'].
Qed.

(** How the loop ends under every schedule. *)
Lemma raceLoop_spec (es : list raceEvent) :
  (1 ≤ n)%nat → scheduled (raceStart n) ∅ es →
  match raceLoop n outcome (raceStart n) es with
  | None =>
      (length es < 2 * n - 1)%nat ∧ ∃ e, e ≠ EvDone ∧ scheduled (raceStart n) ∅ (es ++ [e])
  | Some (Ok f) => ∃ i, (i < n)%nat ∧ outcome i = Ok f
  | Some (Err x) =>
      EvDone ∈ es ∧ x = ErrContext ∨ (∀ i, (i < n)%nat → ∃ y, outcome i = Err y) ∧ outcome 0%nat = Err x
  end.
Proof.
  intros Hn Hs. pose proof (raceStart_inv Hn) as Hinv. 
  assert (2 * n - 1 = (n - rs_started (raceStart n)) + (n - rs_failed (raceStart n)))%nat as Hm
    by (cbn [raceStart rs_started rs_failed]; lia).
  rewrite Hm. clear Hm. revert Hinv Hs. generalize (∅ : gset nat), (raceStart n). revert es.
  induction es as [|e es IH]; intros reported s Hinv Hs; cbn [raceLoop].
  - split; [destruct Hinv; cbn; lia|]. destruct Hinv as [Hst Htk _ Hf Hrun Hrep].
    destruct (Nat.ltb_spec (rs_started s) n) as [Hlt|Hge]; [exists EvTick; cbn; done|].
    destruct (set_choose_L (set_seq 0 n ∖ reported)) as [i Hi].
    { intros E. assert (n ≤ size reported)%nat; [|lia]. rewrite <- (size_set_seq (C := gset nat) 0 n).
      apply subseteq_size. set_solver. }
    apply elem_of_difference in Hi as [Hi%elem_of_set_seq Hi']. exists (EvResult i).
    split; [done|]. cbn. split; [split; [lia|done]|]. by repeat case_match.
  - cbn in Hs. destruct Hs as [Hadm Hs]. pose proof (raceStep_inv s reported e Hinv Hadm) as Hstep.
    cbn [scheduled app]. destruct (raceStep n outcome s e) as [s'|[f|x]]; [|done|].
    + destruct Hstep as [Hinv' Hdec]. specialize (IH _ _ Hinv' Hs).
      destruct (raceLoop n outcome s' es) as [[f|x]|]; [done| |].
      * destruct IH as [[Hd ->]|IH]; [left; split; [by right|done]|by right].
      * destruct IH as (Hl & e' & Hne & Hsch). split; [cbn [length]; lia|]. by exists e'.
    + destruct Hstep as [[-> ->]|Hstep]; [left; split; [left|done]|by right].
Qed.

(** Staggered racing settles.  Whatever order ticks and results arrive in:
    after at most 2n-1 of them (n candidates) the race has returned, and before
    that it never waits for nothing.  A success is the result of one of the
    candidates; a failure is either the cancellation or means that every
    candidate was tried and failed, and it is then the error of the first. *)
Lemma race_settles (es : list raceEvent) :
  (1 ≤ n)%nat → scheduled (raceStart n) ∅ es →
  match raceLoop n outcome (raceStart n) es with
  | None =>
      (length es < 2 * n - 1)%nat ∧ ∃ e, e ≠ EvDone ∧ scheduled (raceStart n) ∅ (es ++ [e])
  | Some (Ok f) => ∃ i, (i < n)%nat ∧ outcome i = Ok f
  | Some (Err x) =>
      EvDone ∈ es ∧ x = ErrContext ∨ (∀ i, (i < n)%nat → ∃ y, outcome i = Err y) ∧ outcome 0%nat = Err x
  end.
Proof. apply raceLoop_spec. Qed.
End schedules.

Section trust.
#[local] Set Default Proof Using "Type".
Context (ToLower : string → string) (EqualFold : string → string → bool).
Context (urlParse : string → option URL) (urlString : URL → string) (Hostname Port : URL → string).
Context (setQuery : string → string → string → string) (parseTime : string → option Z).
Context (edVerify : list byte → list byte → list byte → bool) {json : ListJSON}.
Context (keys : list pinnedKey).

Notation attemptOn := (attempt ToLower EqualFold urlParse urlString Hostname Port setQuery parseTime edVerify keys).
Notation phase := (racePhase ToLower EqualFold urlParse urlString Hostname Port setQuery parseTime edVerify keys).
Notation outcomes := (phaseOutcome ToLower EqualFold urlParse urlString Hostname Port setQuery parseTime edVerify keys).
Notation raceOn := (race ToLower EqualFold urlParse urlString Hostname Port setQuery parseTime edVerify keys).
Notation unbound := (EndpointUnboundBrokerFront ToLower EqualFold urlParse Hostname Port).
Notation listURL := (RelayListURL ToLower EqualFold urlParse urlString Hostname setQuery).
Notation discover := (FirstReachable ToLower EqualFold urlParse urlString Hostname Port setQuery parseTime edVerify keys).

(** The runtime's promises: an attempt reports once, and a context whose
    [Done] was observed stays done. *)
Definition phaseOrdered (urls : list string) (o : ListOptions) (env : phaseEnv) : Prop :=
  scheduled (length urls) (outcomes urls o env) (raceStart (length urls)) ∅ (pe_events env).

Definition raceOrdered (urls : list string) (o : ListOptions) (azureSNIFirst : bool) (env : raceEnv) : Prop :=
  let bound := endpointBound ToLower EqualFold urlParse Hostname Port azureSNIFirst urls in
  let un := endpointUnbound ToLower EqualFold urlParse Hostname Port urls in
  phaseOrdered bound (withAzureSNI o azureSNIFirst) (re_first env) ∧
  (length bound = 0%nat → phaseOrdered un (withAzureSNI o false) (re_first env)) ∧
  phaseOrdered un (withAzureSNI o false) (re_second env) ∧
  (pe_done (re_first env) = true ∨ EvDone ∈ pe_events (re_first env) → re_done1 env = true).

Definition raced (c : Candidates) : list string := if OverrideFirst c then tail (URLs c) else URLs c.

(** A fetch is trusted when its list came from its URL through [fetchRelays]. *)
Definition trusted (o : ListOptions) (f : Fetch) : Prop :=
  ∃ endpoint, listURL (ft_BrokerURL f) (Limit o) = Some endpoint ∧
    (endpointIsLoopback EqualFold urlParse Hostname endpoint = false →
     rl_SignatureVerified (ft_RelayList f) = true ∧
     ∃ k sig, k ∈ keys ∧ pk_id k = rl_KeyID (ft_RelayList f) ∧
              edVerify (pk_key k) (rl_rawJSON (ft_RelayList f)) sig = true).

Lemma attempt_ok serve o u f :
  attemptOn serve o u = Ok f → ft_BrokerURL f = u ∧ ft_AzureSNI f = AzureSNI o && unbound u ∧ trusted o f.
Proof.
  unfold attempt. destruct (serve u) as [response now].
  destruct (fetchRelays _ _ _ _ _ _ _ _ _ u o response now) as [l|e] eqn:E; [|done]. intros [= <-].
  split_and!; [done|done|]. unfold trusted. cbn [ft_BrokerURL ft_RelayList]. unfold fetchRelays in E.
  destruct (listURL u (Limit o)) as [endpoint|]; [|done]. exists endpoint. split; [done|]. intros Hl.
  destruct response as [|status ra sg body]; [done|]. destruct (status =? 429); [done|].
  destruct (_ || _); [done|]. destruct body as [body|]; [|done]. destruct (_ <? _); [done|].
  destruct (verifyRelayList _ _ _ _ _ _ _ _ _ _) as [l'|] eqn:Hv; [|done]. injection E as ->.
  apply verifyRelayList_inv in Hv as (<- & Hs & (k & _ & sig & Hk & Hid & _ & Hver) & _); [|done].
  split; [done|]. by exists k, sig.
Qed.

Lemma phase_ok urls o env f :
  urls ≠ [] → phaseOrdered urls o env → phase urls o env = Some (Ok f) →
  ft_BrokerURL f ∈ urls ∧ ft_AzureSNI f = AzureSNI o && unbound (ft_BrokerURL f) ∧ trusted o f.
Proof.
  intros Hne Hs. unfold racePhase. destruct (pe_done env); [done|]. intros Hr.
  assert (1 ≤ length urls)%nat as Hlen by (destruct urls; cbn; [done|lia]).
  pose proof (raceLoop_spec _ _ _ Hlen Hs) as H. rewrite Hr in H. destruct H as (i & Hi & Ho).
  unfold phaseOutcome in Ho. destruct (urls !! i) as [u|] eqn:Hu; [|done].
  apply attempt_ok in Ho as (<- & Hz & Ht). split_and!; [by apply list_elem_of_lookup_2 in Hu|done|done].
Qed.

Lemma phase_err urls o env e :
  urls ≠ [] → phaseOrdered urls o env → phase urls o env = Some (Err e) →
  pe_done env = true ∨ EvDone ∈ pe_events env ∨
  ∀ u, u ∈ urls → ∃ x, attemptOn (pe_serve env) o u = Err x.
Proof.
  intros Hne Hs. unfold racePhase. destruct (pe_done env); [by left|]. intros Hr. right.
  assert (1 ≤ length urls)%nat as Hlen by (destruct urls; cbn; [done|lia]).
  pose proof (raceLoop_spec _ _ _ Hlen Hs) as H. rewrite Hr in H. destruct H as [[H _]|[H _]]; [by left|].
  right. intros u [i Hi]%list_elem_of_lookup. pose proof (lookup_lt_Some _ _ _ Hi) as Hlt.
  destruct (H i Hlt) as [x Hx]. unfold phaseOutcome in Hx. rewrite Hi in Hx. by exists x.
Qed.

Lemma filter_elem {A} (f : A → bool) l x : x ∈ List.filter f l ↔ x ∈ l ∧ f x = true.
Proof. by rewrite !list_elem_of_In, filter_In. Qed.

Lemma race_ok urls o azureSNIFirst env f :
  raceOrdered urls o azureSNIFirst env → raceOn urls o azureSNIFirst env = Some (Ok f) →
  ft_BrokerURL f ∈ urls ∧ trusted o f ∧
  (unbound (ft_BrokerURL f) = true → ft_AzureSNI f = false →
   ∀ u, u ∈ urls → unbound u = false ∨ azureSNIFirst = true →
   ∃ x, attemptOn (pe_serve (re_first env)) (withAzureSNI o azureSNIFirst) u = Err x).
Proof.
  intros (H1 & H1' & H2 & Hd). unfold race. destruct urls as [|u0 urls]; [done|].
  set (all := u0 :: urls) in *. cbv zeta.
  set (bound := endpointBound _ _ _ _ _ azureSNIFirst all) in *.
  set (un := endpointUnbound _ _ _ _ _ all) in *.
  assert (∀ u, u ∈ bound → u ∈ all) as Hb by (intros u [? _]%filter_elem; done).
  assert (∀ u, u ∈ un → u ∈ all) as Hu by (intros u [? _]%filter_elem; done).
  assert (∀ u, u ∈ all → unbound u = false ∨ azureSNIFirst = true → u ∈ bound) as Hall.
  { intros u Hin [E| ->]; apply filter_elem; (split; [done|]); [by rewrite E|apply orb_true_r]. }
  assert (∀ l : list string, (length l =? 0)%nat = false → l ≠ []) as Hlen by (by intros []).
  destruct (length bound =? 0)%nat eqn:E1.
  { apply Nat.eqb_eq in E1. intros Hr. assert (bound = []) as Hnil by (by destruct bound).
    assert (azureSNIFirst = false) as ->.
    { destruct azureSNIFirst; [|done]. assert (u0 ∈ bound) as H; [apply Hall; [left|by right]|].
      rewrite Hnil in H. by inversion H. }
    apply phase_ok in Hr as (Hin & _ & Ht); [|intros Hn|by apply H1'].
    - split_and!; [by apply Hu|done|]. intros _ _ u Hin' Hc. apply (Hall u Hin') in Hc. rewrite Hnil in Hc. by inversion Hc.
    - assert (u0 ∈ un ∨ u0 ∈ bound) as [H|H]; [|rewrite Hn in H; by inversion H|rewrite Hnil in H; by inversion H].
      unfold un, bound, endpointUnbound, endpointBound. rewrite !filter_elem, orb_false_r.
      destruct (unbound u0); [left|right]; (split; [left|done]). }
  destruct (length un =? 0)%nat eqn:E2.
  { intros Hr. apply phase_ok in Hr as (Hin & _ & Ht); [|by apply Hlen|done].
    split_and!; [by apply Hb|done|]. intros Hub. exfalso. apply Nat.eqb_eq in E2.
    assert (ft_BrokerURL f ∈ un) as H by (apply filter_elem; split; [by apply Hb|done]).
    destruct un; [by inversion H|done]. }
  destruct (phase bound _ (re_first env)) as [[f'|e]|] eqn:Hp1; [| |done].
  { intros [= ->]. apply phase_ok in Hp1 as (Hin & Hz & Ht); [|by apply Hlen|done].
    split_and!; [by apply Hb|done|]. intros Hub Hs u _ _. exfalso. cbn in Hz. rewrite Hub, Hs, andb_true_r in Hz.
    unfold bound, endpointBound in Hin. rewrite filter_elem, Hub, <- Hz in Hin. by destruct Hin as [_ ?]. }
  destruct (re_done1 env) eqn:Hdone; [done|].
  destruct (phase un _ (re_second env)) as [[f'|e2]|] eqn:Hp2; [| |done].
  - intros [= ->]. apply phase_ok in Hp2 as (Hin & Hz & Ht); [|by apply Hlen|done].
    split_and!; [by apply Hu|done|]. intros _ _ u Hin' Hc.
    apply phase_err in Hp1 as [H|[H|H]]; [| | |by apply Hlen|done].
    + discriminate Hd. by left.
    + discriminate Hd. by right.
    + by apply H, Hall.
  - destruct (re_done2 env); [done|]. by destruct (_ && _).
Qed.

(** C4: What discovery returns can be trusted, and the unauthenticated front is
    the last resort.  Under every schedule: the winner is one of the
    candidates, and unless its endpoint is on the loopback its directory was
    verified under a pinned key.  If it was fetched over an Azure front without
    the endpoint's own certificate (no SNI), then either it is the user's own
    override, which is attempted alone before the race whatever its class, or
    the override, if there is one, had failed, and so had every raced candidate
    with a certificate of its own and, where Azure fronts are first raced with
    SNI as in the built-in list, every raced candidate there is. *)
Theorem discovery_trust (c : Candidates) (o : ListOptions) (env : discoveryEnv) (f : Fetch) :
  raceOrdered (raced c) o (AzureSNIFirst c) (de_race env) → discover c o env = Some (Ok f) →
  ft_BrokerURL f ∈ URLs c ∧ trusted o f ∧
  (unbound (ft_BrokerURL f) = true → ft_AzureSNI f = false →
   (OverrideFirst c = true ∧ head (URLs c) = Some (ft_BrokerURL f) ∧ attemptOn (de_override env) o (ft_BrokerURL f) = Ok f) ∨
   ((OverrideFirst c = true → ∃ x, attemptOn (de_override env) o (hd ""%string (URLs c)) = Err x) ∧
    ∀ u, u ∈ raced c → unbound u = false ∨ AzureSNIFirst c = true →
    ∃ x, attemptOn (pe_serve (re_first (de_race env))) (withAzureSNI o (AzureSNIFirst c)) u = Err x)).
Proof.
  intros Ho. unfold FirstReachable. unfold raced in *. destruct (URLs c) as [|u0 rest]; [done|].
  destruct (OverrideFirst c).
  - cbn [tail hd head] in *. destruct (attemptOn (de_override env) o u0) as [f'|e0] eqn:Ha.
    { intros [= ->]. pose proof (attempt_ok _ _ _ _ Ha) as (<- & _ & Ht). split_and!; [left|done|by left]. }
    destruct (de_done1 env); [done|]. destruct rest as [|u1 rest]; [done|].
    destruct (raceOn _ _ _ _) as [[f'|e]|] eqn:Hr; [|by destruct (de_done2 env)|done].
    intros [= ->]. apply race_ok in Hr as (Hin & Ht & Hlast); [|done].
    split_and!; [by right|done|]. intros Hu Hz. right. split; [by exists e0|by apply Hlast].
  - intros Hr. apply race_ok in Hr as (Hin & Ht & Hlast); [|done]. split_and!; [done|done|].
    intros Hu Hz. right. split; [done|by apply Hlast].
Qed.
End trust.

(** The built-in fronts are distinct candidates in their fixed order, and a
    genuine override is tried first. *)
Example candidates_default : URLs (BrokerCandidates " https://broker.openrung.org/ ") = DefaultBrokerURLs.
Proof. vm_compute. reflexivity. Qed.
Example candidates_override :
  BrokerCandidates "https://my.example" =
  {| AzureSNIFirst := true; URLs := "https://my.example"%string :: DefaultBrokerURLs; OverrideFirst := true |}.
Proof. vm_compute. reflexivity. Qed.

(** * A concrete discovery *)
Definition twoOutcomes (i : nat) : result ClientError Fetch :=
  match i with O => Err ErrTransport | _ => Ok emptyFetch end.

Lemma race_settles_witness :
  let es := [EvResult 0; EvTick; EvResult 1] in
  raceLoop 2 twoOutcomes (raceStart 2) es = Some (Ok emptyFetch) ∧
  ∃ i, (i < 2)%nat ∧ twoOutcomes i = Ok emptyFetch.
Proof.
  intros es. split; [reflexivity|].
  refine (race_settles 2 twoOutcomes es _ _).
  - lia.
  - apply (bool_decide_unpack _). vm_compute. exact I.
Defined.

(** Every string is an https URL of that host. *)
Definition plainParse (s : string) : option URL :=
  Some {| Scheme := "https"; Opaque := ""; HasUser := false; Host := s; Path := ""; RawPath := "";
          RawQuery := ""; ForceQuery := false; Fragment := "" |}.
Definition plainCandidates : Candidates :=
  {| AzureSNIFirst := true; URLs := ["broker.example"; "e.azurefd.net"]%string; OverrideFirst := false |}.
Definition plainServe (u : string) : httpOutcome * Z :=
  if str_eqb u "e.azurefd.net"
  then (Response 200 "" (signatureHeaderOf (sg_keyID listSigner) (exampleSign [] (bytes "{}"))) (Some (bytes "{}")),
        exampleNow)
  else (NoResponse, exampleNow).
Definition deadPhase : phaseEnv :=
  {| pe_done := false; pe_events := [EvResult 0; EvTick; EvResult 1]; pe_serve := λ _, (NoResponse, exampleNow) |}.
Definition lastPhase : phaseEnv := {| pe_done := false; pe_events := [EvResult 0]; pe_serve := plainServe |}.
Definition plainEnv : discoveryEnv :=
  {| de_override := λ _, (NoResponse, exampleNow); de_done1 := false; de_done2 := false;
     de_race := {| re_first := deadPhase; re_done1 := false; re_second := lastPhase; re_done2 := false |} |}.
#[local] Existing Instance oneResponseJSON.

Lemma discovery_trust_witness :
  let discover := FirstReachable id str_eqb plainParse Host Host (λ _, ""%string) (λ _ _ v, v) (λ _, None)
    exampleVerify listPins in
  ∃ f, discover plainCandidates {| AzureSNI := false; Limit := 0 |} plainEnv = Some (Ok f) ∧
    ft_BrokerURL f = "e.azurefd.net"%string ∧ ft_AzureSNI f = false ∧
    ft_BrokerURL f ∈ URLs plainCandidates.
Proof.
  intros discover.
  destruct (discover plainCandidates {| AzureSNI := false; Limit := 0 |} plainEnv) as [[f|]|] eqn:Hd;
    [|vm_compute in Hd; discriminate..].
  exists f. split; [reflexivity|].
  assert (ft_BrokerURL f = "e.azurefd.net"%string ∧ ft_AzureSNI f = false) as [H1 H2].
  { clear -Hd. vm_compute in Hd. injection Hd as <-. split; reflexivity. }
  split; [exact H1|]. split; [exact H2|].
  refine (proj1 (discovery_trust id str_eqb plainParse Host Host (λ _, ""%string) (λ _ _ v, v) (λ _, None)
    exampleVerify listPins plainCandidates {| AzureSNI := false; Limit := 0 |} plainEnv f _ Hd)).
  split; [|split; [|split]].
  - apply (bool_decide_unpack _). vm_compute. exact I.
  - vm_compute. discriminate.
  - apply (bool_decide_unpack _). vm_compute. exact I.
  - intros [H|H]; [discriminate|]. 
    repeat (apply elem_of_cons in H as [H|H]; [discriminate|]). by inversion H.
Defined.
