(* ===== verification/Telemetry.v ===== *)
(** Telemetry at the broker (src/libs/openrung/internal/broker/telemetry.go):
    the hourly application rollup, the bounded in-memory set, the JSONL sink,
    the validation and gating of a batch and the ingestion handler.

    Byte sizes and counts are far below 2^63 and are plain integers.  The sink's
    mutex makes each method one step; file operations succeed or fail as their
    inputs say. *)
From stdpp Require Import base list gmap strings.
From Stdlib Require Import ZArith Lia.
From S2P Require Import Prelude Codec Directory RelayIdentity Ranking BrokerStore Netip Registration BrokerServer.

Definition maxTelemetryEvents : nat := 200.
Definition maxTelemetryFutureSkew : Z := hour.
Definition maxTelemetryKeyBytes : nat := 64.
Definition maxTelemetryValueBytes : nat := 256.
Definition telemetryAppConnectionEvent : string := "application_connection".
Definition telemetryAppConnectionCountMeasurement : string := "connection_count".
Definition maxTelemetryAppConnectionCount : Z := 100000.
Definition maxTelemetryAppRollupEntries : Z := 10000.

(** [t.Truncate(time.Hour)] of a UTC instant. *)
Definition truncateHour (t : Z) : Z := t / hour * hour.

Definition retentionTime (r : TelemetryRecord) : Z :=
  if negb (time_is_zero (tr_ReceivedAt r)) then tr_ReceivedAt r else ev_OccurredAt (tr_Event r).

Definition isAppConnection (r : TelemetryRecord) : bool :=
  str_eqb (ev_Event (tr_Event r)) telemetryAppConnectionEvent.

(** * The application rollup *)
Definition telemetryAppRollupHour (record : TelemetryRecord) (now : Z) : Z :=
  let at_ := retentionTime record in
  if negb (time_is_zero at_) then truncateHour at_ else truncateHour now.

Definition telemetryAppConnectionCount (event : TelemetryEvent) : Z :=
  match ev_Measurements event !! telemetryAppConnectionCountMeasurement with
  | Some count => if (count <=? 0) || (maxTelemetryAppConnectionCount <? count) then 1 else count
  | None => 1
  end.

(** [telemetryAppConnectionBatchCounter.take]: a missing key reads as zero. *)
Abbreviation batchCounter := (gmap string Z).
Definition take_ (c : batchCounter) (event : TelemetryEvent) : Z * batchCounter :=
  let used := default 0 (c !! ev_Application event) in
  let remaining := maxTelemetryAppConnectionCount - used in
  if remaining <=? 0 then (0, c) else
  let count := Z.min (telemetryAppConnectionCount event) remaining in
  (count, <[ev_Application event := used + count]> c).

Record telemetryAppRollup := {
  hours : gmap Z (gmap string Z);
  entries : Z;
  evictedEntries : Z
}.

Definition emptyRollup : telemetryAppRollup := {| hours := ∅; entries := 0; evictedEntries := 0 |}.

Definition olderThan (hr : Z) (oldest : option Z) (candidate : Z) : bool :=
  (candidate <? hr) && match oldest with Some o => candidate <? o | None => true end.

Definition bucketsOf (r : telemetryAppRollup) (hr : Z) : gmap string Z := default ∅ (hours r !! hr).

Section rollup.
#[local] Set Default Proof Using "Type".
Context {hourRows : MapRange Z (gmap string Z)}.

(** The scan of [evictOldestHourBefore]. *)
Definition oldestBefore (hr : Z) (r : telemetryAppRollup) : option Z :=
  foldl (λ oldest candidate, if olderThan hr oldest candidate then Some candidate else oldest)
    None (map_range (hours r)).*1.

Definition evictOldestHourBefore (hr : Z) (r : telemetryAppRollup) : option telemetryAppRollup :=
  match oldestBefore hr r with
  | None => None
  | Some oldest =>
      let evicted := Z.of_nat (size (bucketsOf r oldest)) in
      Some {| hours := delete oldest (hours r); entries := entries r - evicted;
              evictedEntries := evictedEntries r + evicted |}
  end.

(** The loop of [add]: every round removes an hour, so one round per hour and
    one to stop are enough. *)
Fixpoint makeRoom (fuel : nat) (hr : Z) (r : telemetryAppRollup) : bool * telemetryAppRollup :=
  match fuel with
  | O => (false, r)
  | S fuel' =>
      if maxTelemetryAppRollupEntries <=? entries r then
        match evictOldestHourBefore hr r with
        | None => (false, r)
        | Some r' => makeRoom fuel' hr r'
        end
      else (true, r)
  end.

Definition setCount (r : telemetryAppRollup) (hr : Z) (app : string) (count fresh : Z) : telemetryAppRollup :=
  {| hours := <[hr := <[app := count]> (bucketsOf r hr)]> (hours r);
     entries := entries r + fresh; evictedEntries := evictedEntries r |}.

Definition addCount (r : telemetryAppRollup) (hr : Z) (app : string) (count : Z) : bool * telemetryAppRollup :=
  if str_empty app || (count <=? 0) then (true, r) else
  match bucketsOf r hr !! app with
  | Some n => (true, setCount r hr app (n + count) 0)
  | None =>
      match makeRoom (S (size (hours r))) hr r with
      | (false, r') => (false, r')
      | (true, r') => (true, setCount r' hr app (default 0 (bucketsOf r' hr !! app) + count) 1)
      end
  end.

Definition pruneHour (cutoffHour : Z) (r : telemetryAppRollup) (row : Z * gmap string Z) : telemetryAppRollup :=
  if row.1 <? cutoffHour
  then {| hours := delete row.1 (hours r); entries := entries r - Z.of_nat (size row.2);
          evictedEntries := evictedEntries r |}
  else r.

Definition pruneRollup (r : telemetryAppRollup) (cutoff : Z) : telemetryAppRollup :=
  foldl (pruneHour (truncateHour cutoff)) r (map_range (hours r)).

Definition inWindow (now window hr : Z) : bool :=
  negb (hr <? truncateHour (now - window)) && negb (now <? hr).

Context {appRows : MapRange string Z}.

Definition addAll (counts apps : gmap string Z) : gmap string Z :=
  foldl (λ counts kv, <[kv.1 := default 0 (counts !! kv.1) + kv.2]> counts) counts (map_range apps).

Definition countsIn (r : telemetryAppRollup) (now window : Z) : gmap string Z :=
  foldl (λ counts row, if inWindow now window row.1 then addAll counts row.2 else counts)
    ∅ (map_range (hours r)).
End rollup.

(** * The retained records *)
Record storedTelemetryRecord := { st_record : TelemetryRecord; st_bytes : Z }.

Record telemetryRetained := {
  rt_records : list storedTelemetryRecord;
  rt_memoryBytes : Z;
  rt_memoryLimit : Z;
  rt_compactionShifts : Z
}.

Definition appendRetained (r : telemetryRetained) (record : TelemetryRecord) (size : Z) : telemetryRetained :=
  {| rt_records := rt_records r ++ [{| st_record := record; st_bytes := size |}];
     rt_memoryBytes := rt_memoryBytes r + size; rt_memoryLimit := rt_memoryLimit r;
     rt_compactionShifts := rt_compactionShifts r |}.

(** The loop: the kept records and the bytes of the dropped ones. *)
Fixpoint pruneStored (cutoff : Z) (l : list storedTelemetryRecord) (bytes : Z)
    : list storedTelemetryRecord * Z :=
  match l with
  | [] => ([], bytes)
  | s :: l' =>
      if time_before (retentionTime (st_record s)) cutoff then pruneStored cutoff l' (bytes - st_bytes s)
      else let '(kept, b) := pruneStored cutoff l' bytes in (s :: kept, b)
  end.

Definition pruneRetained (r : telemetryRetained) (cutoff : Z) : telemetryRetained :=
  let '(kept, bytes) := pruneStored cutoff (rt_records r) (rt_memoryBytes r) in
  {| rt_records := kept; rt_memoryBytes := bytes; rt_memoryLimit := rt_memoryLimit r;
     rt_compactionShifts := rt_compactionShifts r |}.

(** The drop loop: what remains of the slice and of the bytes. *)
Fixpoint dropOver (limit : Z) (l : list storedTelemetryRecord) (bytes : Z)
    : list storedTelemetryRecord * Z :=
  match l with
  | [] => ([], bytes)
  | s :: l' => if limit <? bytes then dropOver limit l' (bytes - st_bytes s) else (l, bytes)
  end.

Definition dropOldestOverBudget (r : telemetryRetained) : telemetryRetained :=
  let '(kept, bytes) := dropOver (rt_memoryLimit r) (rt_records r) (rt_memoryBytes r) in
  if (length kept =? length (rt_records r))%nat then r else
  {| rt_records := kept; rt_memoryBytes := bytes; rt_memoryLimit := rt_memoryLimit r;
     rt_compactionShifts := rt_compactionShifts r + Z.of_nat (length kept) |}.

Definition recordsSince (r : telemetryRetained) (since : Z) : list TelemetryRecord :=
  List.filter (λ rec, negb (time_before (ev_OccurredAt (tr_Event rec)) since)) (st_record <$> rt_records r).

(** * The JSONL sink *)
Inductive sinkError := ErrSinkClosed | ErrEncode | ErrWriteFile | ErrCompactFile | ErrDecodeLine | ErrReadFile.

(** [sk_file] is the content at the sink's path as lines, the buffered writer's
    bytes included. *)
Record sink := {
  sk_retained : telemetryRetained;
  sk_rollup : telemetryAppRollup;
  sk_file : list (list byte);
  sk_fileBytes : Z;
  sk_fileLimit : Z;
  sk_writeErr : option sinkError;
  sk_closed : bool
}.

(** How the steps of a compaction end, and of a flush. *)
Record compactIO := { cio_flush : bool; cio_create : bool; cio_write : bool; cio_rename : bool; cio_seek : bool }.
Record writeIO := { wio_write : nat → bool; wio_compact : compactIO }.

Definition withRetained (s : sink) (r : telemetryRetained) : sink :=
  {| sk_retained := r; sk_rollup := sk_rollup s; sk_file := sk_file s; sk_fileBytes := sk_fileBytes s;
     sk_fileLimit := sk_fileLimit s; sk_writeErr := sk_writeErr s; sk_closed := sk_closed s |}.
Definition withRollup (s : sink) (r : telemetryAppRollup) : sink :=
  {| sk_retained := sk_retained s; sk_rollup := r; sk_file := sk_file s; sk_fileBytes := sk_fileBytes s;
     sk_fileLimit := sk_fileLimit s; sk_writeErr := sk_writeErr s; sk_closed := sk_closed s |}.
Definition withFile (s : sink) (lines : list (list byte)) (bytes : Z) : sink :=
  {| sk_retained := sk_retained s; sk_rollup := sk_rollup s; sk_file := lines; sk_fileBytes := bytes;
     sk_fileLimit := sk_fileLimit s; sk_writeErr := sk_writeErr s; sk_closed := sk_closed s |}.
Definition failed (s : sink) (e : sinkError) : sink :=
  {| sk_retained := sk_retained s; sk_rollup := sk_rollup s; sk_file := sk_file s;
     sk_fileBytes := sk_fileBytes s; sk_fileLimit := sk_fileLimit s; sk_writeErr := Some e;
     sk_closed := sk_closed s |}.
Definition closedSink (s : sink) : sink :=
  {| sk_retained := sk_retained s; sk_rollup := sk_rollup s; sk_file := sk_file s;
     sk_fileBytes := sk_fileBytes s; sk_fileLimit := sk_fileLimit s; sk_writeErr := sk_writeErr s;
     sk_closed := true |}.

Section jsonl.
#[local] Set Default Proof Using "Type".
Context {hourRows : MapRange Z (gmap string Z)}.
(** [json.Marshal] and [json.Unmarshal] of a record. *)
Context (marshalRecord : TelemetryRecord → option (list byte)) (decodeRecord : list byte → option TelemetryRecord).

Definition lineSize (line : list byte) : Z := Z.of_nat (length line) + 1.

Definition flushLocked (ok : bool) (s : sink) : bool * sink :=
  match sk_writeErr s with
  | Some _ => (false, s)
  | None => if ok then (true, s) else (false, failed s ErrWriteFile)
  end.

(** A failure after the rename leaves the new content at the path. *)
Definition compactLocked (io : compactIO) (s : sink) : bool * sink :=
  let '(ok, s) := flushLocked (cio_flush io) s in
  if negb ok then (false, s) else
  if negb (cio_create io) then (false, s) else
  match mapM (λ st, marshalRecord (st_record st)) (rt_records (sk_retained s)) with
  | None => (false, s)
  | Some lines =>
      if negb (cio_write io) || negb (cio_rename io) then (false, s) else
      if negb (cio_seek io) then (false, withFile s lines (sk_fileBytes s)) else
      (true, withFile s lines (foldr Z.add 0 (lineSize <$> lines)))
  end.

Definition maybeCompactLocked (io : compactIO) (s : sink) : bool * sink :=
  if (sk_fileBytes s <=? sk_fileLimit s) || (Z.quot (sk_fileBytes s) 2 <=? rt_memoryBytes (sk_retained s))
  then (true, s) else compactLocked io s.

(** The loop of [WriteTelemetry]; [i] counts the writes. *)
Fixpoint writeRecords (io : writeIO) (now : Z) (i : nat) (records : list TelemetryRecord) (c : batchCounter)
    (s : sink) : result sinkError unit * sink :=
  match records with
  | [] => (Ok tt, s)
  | record :: rest =>
      if isAppConnection record then
        let '(count, c) := take_ c (tr_Event record) in
        let '(_, r) := addCount (sk_rollup s) (telemetryAppRollupHour record now)
                         (ev_Application (tr_Event record)) count in
        writeRecords io now i rest c (withRollup s r)
      else
        match marshalRecord record with
        | None => (Err ErrEncode, s)
        | Some line =>
            if negb (wio_write io i) then (Err ErrWriteFile, failed s ErrWriteFile) else
            let s := withRetained s (appendRetained (sk_retained s) record (lineSize line)) in
            writeRecords io now (S i) rest c
              (withFile s (sk_file s ++ [line]) (sk_fileBytes s + lineSize line))
        end
  end.

(** The pruning after the loop. *)
Definition trimSink (cutoff : Z) (s : sink) : sink :=
  let s := withRetained s (pruneRetained (sk_retained s) cutoff) in
  let s := withRollup s (pruneRollup (sk_rollup s) cutoff) in
  withRetained s (dropOldestOverBudget (sk_retained s)).

Definition WriteTelemetry (io : writeIO) (now : Z) (records : list TelemetryRecord) (s : sink)
    : result sinkError unit * sink :=
  if sk_closed s then (Err ErrSinkClosed, s) else
  match sk_writeErr s with
  | Some e => (Err e, s)
  | None =>
      let cutoff := time_add now (- telemetryRetention) in
      let s := withRollup s (pruneRollup (sk_rollup s) cutoff) in
      match writeRecords io now 0 records ∅ s with
      | (Err e, s) => (Err e, s)
      | (Ok _, s) =>
          match maybeCompactLocked (wio_compact io) (trimSink cutoff s) with
          | (true, s) => (Ok tt, s)
          | (false, s) => (Err ErrCompactFile, failed s ErrCompactFile)
          end
      end
  end.

(** The scan of [loadRecent]; [None] is a line that does not decode. *)
Fixpoint loadLines (cutoff : Z) (lines : list (list byte)) (needsCompaction : bool) (r : telemetryRetained)
    : option (bool * telemetryRetained) :=
  match lines with
  | [] => Some (needsCompaction, r)
  | line :: rest =>
      match decodeRecord line with
      | None => None
      | Some record =>
          if isAppConnection record then loadLines cutoff rest true r
          else if time_before (retentionTime record) cutoff then loadLines cutoff rest needsCompaction r
          else
            let r := appendRetained r record (lineSize line) in
            let r := if 2 * rt_memoryLimit r <? rt_memoryBytes r then dropOldestOverBudget r else r in
            loadLines cutoff rest needsCompaction r
      end
  end.

(** [newJSONLTelemetrySinkWithLimits] on an existing file of [fileSize] bytes. *)
Definition openSink (lines : list (list byte)) (fileSize : Z) (scanOK : bool) (io : compactIO) (now memoryLimit fileLimit : Z)
    : result sinkError sink :=
  let r := {| rt_records := []; rt_memoryBytes := 0; rt_memoryLimit := memoryLimit; rt_compactionShifts := 0 |} in
  match loadLines (time_add now (- telemetryRetention)) lines false r with
  | None => Err ErrDecodeLine
  | Some (needsPrivacyCompaction, r) =>
      if negb scanOK then Err ErrReadFile else
      let s := {| sk_retained := dropOldestOverBudget r; sk_rollup := emptyRollup; sk_file := lines;
                  sk_fileBytes := fileSize; sk_fileLimit := fileLimit;
                  sk_writeErr := None; sk_closed := false |} in
      match (if needsPrivacyCompaction then compactLocked io s else maybeCompactLocked io s) with
      | (true, s) => Ok s
      | (false, _) => Err ErrCompactFile
      end
  end.

Definition closeSink (ok : bool) (s : sink) : sink :=
  if sk_closed s then s else (flushLocked ok (closedSink s)).2.

(** The operations on an open sink. *)
Inductive sinkOp := OpWrite (io : writeIO) (now : Z) (records : list TelemetryRecord) | OpFlush (ok : bool) | OpClose (ok : bool).

Definition sinkStep (s : sink) (op : sinkOp) : sink :=
  match op with
  | OpWrite io now records => (WriteTelemetry io now records s).2
  | OpFlush ok => (flushLocked ok s).2
  | OpClose ok => closeSink ok s
  end.
End jsonl.

(** * The rollup's books *)
Definition pairs (m : gmap Z (gmap string Z)) : Z :=
  map_fold (λ _ apps n, Z.of_nat (size apps) + n) 0 m.

Lemma pairs_insert_None m h apps :
  m !! h = None → pairs (<[h := apps]> m) = Z.of_nat (size apps) + pairs m.
Proof. intros H. unfold pairs. rewrite map_fold_insert_L; [done| |done]. intros. lia. Qed.

Lemma pairs_delete m h : pairs m = Z.of_nat (size (default ∅ (m !! h))) + pairs (delete h m).
Proof.
  destruct (m !! h) as [apps|] eqn:E; cbn [default from_option id].
  - rewrite <- (insert_delete_id m h apps E) at 1. apply pairs_insert_None. apply lookup_delete_eq.
  - rewrite delete_id by done. by rewrite map_size_empty.
Qed.

Lemma pairs_insert m h apps : pairs (<[h := apps]> m) = Z.of_nat (size apps) + pairs (delete h m).
Proof. rewrite <- insert_delete_eq. apply pairs_insert_None, lookup_delete_eq. Qed.

Record rollup_ok (r : telemetryAppRollup) : Prop := {
  ro_entries : entries r = pairs (hours r);
  ro_cap : entries r ≤ maxTelemetryAppRollupEntries
}.

Lemma emptyRollup_ok : rollup_ok emptyRollup.
Proof. split; [done|]. by apply Z.leb_le. Qed.

Section rollup_proofs.
#[local] Set Default Proof Using "Type".
Context {hourRows : MapRange Z (gmap string Z)}.

Lemma oldestBefore_spec hr r :
  match oldestBefore hr r with
  | Some o => is_Some (hours r !! o) ∧ o < hr ∧ ∀ h, is_Some (hours r !! h) → h < hr → o ≤ h
  | None => ∀ h, is_Some (hours r !! h) → hr ≤ h
  end.
Proof.
  unfold oldestBefore.
  assert (∀ l acc, match foldl (λ oldest candidate, if olderThan hr oldest candidate then Some candidate
      else oldest) acc l with
    | Some o => (acc = Some o ∨ o ∈ l ∧ o < hr) ∧ (∀ h, h ∈ l → h < hr → o ≤ h) ∧ (∀ a, acc = Some a → o ≤ a)
    | None => acc = None ∧ ∀ h, h ∈ l → hr ≤ h
    end) as Hgen.
  { induction l as [|x l IH]; intros acc; cbn [foldl].
    - destruct acc; [split_and!; [by left|by intros h ?%elem_of_nil|by intros a [= <-]]|].
      split; [done|]. by intros h ?%elem_of_nil.
    - specialize (IH (if olderThan hr acc x then Some x else acc)). revert IH.
      destruct (foldl _ _ l) as [o|].
      + unfold olderThan. intros (Hin & Hmin & Hacc).
        destruct (Z.ltb_spec x hr) as [Hx|Hx]; cbn [andb] in *.
        * destruct acc as [a|].
          -- destruct (Z.ltb_spec x a) as [Hxa|Hxa].
             ++ pose proof (Hacc x eq_refl). split_and!.
                ** destruct Hin as [[= ->]|[? ?]]; right; split; [left|done|by right|done].
                ** intros h [->|Hh]%elem_of_cons Hlt; [done|by apply Hmin].
                ** intros a' [= <-]. lia.
             ++ pose proof (Hacc a eq_refl). split_and!; [|  |done].
                ** destruct Hin as [?|[? ?]]; [by left|right; split; [by right|done]].
                ** intros h [->|Hh]%elem_of_cons Hlt; [lia|by apply Hmin].
          -- pose proof (Hacc x eq_refl). split_and!; [| |done].
             ++ destruct Hin as [[= ->]|[? ?]]; right; split; [left|done|by right|done].
             ++ intros h [->|Hh]%elem_of_cons Hlt; [done|by apply Hmin].
        * split_and!; [|  |done].
          -- destruct Hin as [?|[? ?]]; [by left|right; split; [by right|done]].
          -- intros h [->|Hh]%elem_of_cons Hlt; [lia|by apply Hmin].
      + unfold olderThan. intros [Hnone Hall]. destruct (Z.ltb_spec x hr) as [Hx|Hx]; cbn [andb] in *.
        * destruct acc as [a|]; [|done]. by destruct (x <? a).
        * split; [done|]. intros h [->|Hh]%elem_of_cons; [done|by apply Hall]. }
  assert (∀ h, h ∈ (map_range (hours r)).*1 ↔ is_Some (hours r !! h)) as Hk.
  { intros h. rewrite list_elem_of_fmap. split.
    - intros ([k a] & -> & Ha). apply elem_of_map_range in Ha. by exists a.
    - intros [a Ha]. exists (h, a). split; [done|by apply elem_of_map_range]. }
  specialize (Hgen (map_range (hours r)).*1 None). destruct (foldl _ _ _) as [o|].
  - destruct Hgen as ([?|[Ho Hlt]] & Hmin & _); [done|]. split_and!; [by apply Hk|done|].
    intros h Hh. by apply Hmin, Hk.
  - destruct Hgen as [_ Hall]. intros h Hh. by apply Hall, Hk.
Qed.

(** [newer r r' h]: from hour [h] on the two rollups agree; older hours are
    untouched or gone, the oldest first. *)
Record evicts (r r' : telemetryAppRollup) (h : Z) : Prop := {
  ev_keeps k : h ≤ k → hours r' !! k = hours r !! k;
  ev_sub k a : hours r' !! k = Some a → hours r !! k = Some a;
  ev_oldest k k' : is_Some (hours r' !! k) → is_Some (hours r !! k') → hours r' !! k' = None → k' < k
}.

Lemma evict_ok hr r r' :
  rollup_ok r → evictOldestHourBefore hr r = Some r' →
  rollup_ok r' ∧ evicts r r' hr ∧ (size (hours r') < size (hours r))%nat.
Proof.
  intros [He Hc]. unfold evictOldestHourBefore. pose proof (oldestBefore_spec hr r) as Ho.
  destruct (oldestBefore hr r) as [o|]; [|done]. intros [= <-]. destruct Ho as ([a Ha] & Hlt & Hmin).
  pose proof (pairs_delete (hours r) o) as Hp. unfold bucketsOf. rewrite Ha in *. cbn [default from_option id] in *.
  split_and!.
  - split; cbn; lia.
  - split; cbn.
    + intros k Hk. rewrite lookup_delete_ne by lia. done.
    + intros k x. rewrite lookup_delete_Some. by intros [].
    + intros k k' [Hne Hk]%lookup_delete_is_Some [y Hy] Hgone.
      apply lookup_delete_None in Hgone as [<-|Hgone]; [|congruence].
      destruct (Z.lt_ge_cases k hr) as [Hkh|Hkh]; [|lia]. specialize (Hmin k Hk Hkh). lia.
  - cbn. rewrite map_size_delete, Ha. assert (size (hours r) ≠ 0%nat); [|lia].
    intros E. apply map_size_empty_inv in E. by rewrite E in Ha.
Qed.

Lemma evicts_refl r h : evicts r r h.
Proof. split; [done|done|]. intros k k' _ [a Ha] Hn. congruence. Qed.

Lemma evicts_trans r1 r2 r3 h : evicts r1 r2 h → evicts r2 r3 h → evicts r1 r3 h.
Proof.
  intros [K1 S1 O1] [K2 S2 O2]. split.
  - intros k Hk. by rewrite K2, K1.
  - intros k a Ha. by apply S1, S2.
  - intros k k' [a Ha] Hk' Hgone. destruct (hours r2 !! k') as [b|] eqn:E.
    + apply (O2 k k'); [by exists a|by exists b|done].
    + apply (O1 k k'); [exists a; by apply S2|done|done].
Qed.

(** The loop frees room unless every bucket is of the incoming hour or newer,
    and then nothing of those was touched. *)
Lemma makeRoom_spec fuel hr r :
  rollup_ok r → (size (hours r) < fuel)%nat →
  let '(ok, r') := makeRoom fuel hr r in
  rollup_ok r' ∧ evicts r r' hr ∧
  (if ok then entries r' < maxTelemetryAppRollupEntries
   else entries r' = maxTelemetryAppRollupEntries ∧ ∀ h, is_Some (hours r' !! h) → hr ≤ h).
Proof.
  revert r. induction fuel as [|fuel IH]; intros r Hok Hf; [lia|]. cbn [makeRoom].
  destruct (Z.leb_spec maxTelemetryAppRollupEntries (entries r)) as [Hfull|Hroom];
    [|split_and!; [done|apply evicts_refl|done]].
  destruct (evictOldestHourBefore hr r) as [r1|] eqn:E.
  - destruct (evict_ok hr r r1 Hok E) as (Hok1 & Hev & Hsz). specialize (IH r1 Hok1 ltac:(lia)).
    destruct (makeRoom fuel hr r1) as [ok r'] eqn:Er. destruct IH as (? & ? & ?).
    split_and!; [done|by eapply evicts_trans|done].
  - unfold evictOldestHourBefore in E. pose proof (oldestBefore_spec hr r) as Ho.
    destruct (oldestBefore hr r); [done|]. split_and!; [done|apply evicts_refl| |done].
    destruct Hok. lia.
Qed.

Lemma setCount_ok r hr app n fresh_ :
  rollup_ok r → fresh_ = (if bucketsOf r hr !! app then 0 else 1) →
  entries r + fresh_ ≤ maxTelemetryAppRollupEntries → rollup_ok (setCount r hr app n fresh_).
Proof.
  intros [He Hc] Hf Hcap. split; [|done]. cbn [hours entries setCount]. rewrite pairs_insert.
  pose proof (pairs_delete (hours r) hr) as Hp. fold (bucketsOf r hr) in Hp.
  destruct (bucketsOf r hr !! app) as [x|] eqn:E.
  - rewrite map_size_insert_Some by (by rewrite E). lia.
  - rewrite map_size_insert_None by done. lia.
Qed.

Definition countOf (r : telemetryAppRollup) (hr : Z) (app : string) : Z := default 0 (bucketsOf r hr !! app).

Lemma evicts_buckets r r' h k : evicts r r' h → h ≤ k → bucketsOf r' k = bucketsOf r k.
Proof. intros He Hk. unfold bucketsOf. by rewrite (ev_keeps _ _ _ He). Qed.

Lemma countOf_setCount r hr app n f k a :
  countOf (setCount r hr app n f) k a = if decide (k = hr ∧ a = app) then n else countOf r k a.
Proof.
  unfold countOf, bucketsOf, setCount. cbn [hours]. destruct (decide (k = hr)) as [->|Hk].
  - rewrite lookup_insert_eq. cbn [default from_option id]. destruct (decide (a = app)) as [->|Ha].
    + rewrite lookup_insert_eq. by rewrite decide_True.
    + rewrite lookup_insert_ne by congruence. rewrite decide_False by naive_solver. done.
  - rewrite lookup_insert_ne by congruence. by rewrite decide_False by naive_solver.
Qed.

Lemma addCount_spec r hr app count :
  rollup_ok r → 0 < count → app ≠ ""%string →
  let '(ok, r') := addCount r hr app count in
  rollup_ok r' ∧
  (∀ k a, hr ≤ k → countOf r' k a = countOf r k a + (if decide (ok = true ∧ k = hr ∧ a = app) then count else 0)) ∧
  (ok = false → countOf r hr app = 0 ∧ entries r' = maxTelemetryAppRollupEntries ∧
                ∀ h, is_Some (hours r' !! h) → hr ≤ h) ∧
  (∃ r0, evicts r r0 hr ∧ ∀ k, k ≠ hr → hours r' !! k = hours r0 !! k).
Proof.
  intros Hok Hc Ha. unfold addCount.
  rewrite (bool_decide_eq_false_2 _ Ha : str_empty app = false), (proj2 (Z.leb_gt count 0) Hc). cbn [orb].
  assert (∀ n f r0, evicts r r0 hr → ∃ r1, evicts r r1 hr ∧
    ∀ k, k ≠ hr → hours (setCount r0 hr app n f) !! k = hours r1 !! k) as Hex.
  { intros n f r0 He. exists r0. split; [done|]. intros k Hk. cbn. by rewrite lookup_insert_ne. }
  destruct (bucketsOf r hr !! app) as [n|] eqn:E.
  - split_and!; [apply setCount_ok; [done|by rewrite E|destruct Hok; lia]| |done|by apply Hex, evicts_refl].
    intros k a Hk. rewrite countOf_setCount. unfold countOf.
    destruct (decide (k = hr ∧ a = app)) as [[-> ->]|Hn]; [rewrite decide_True by done; rewrite E; cbn; lia|].
    rewrite decide_False by naive_solver. lia.
  - pose proof (makeRoom_spec (S (size (hours r))) hr r Hok ltac:(lia)) as Hroom.
    destruct (makeRoom (S (size (hours r))) hr r) as [ok r0]. destruct Hroom as (Hok0 & He & Hres).
    assert (∀ k a, hr ≤ k → countOf r0 k a = countOf r k a) as Hsame.
    { intros k a Hk. unfold countOf. by rewrite (evicts_buckets r r0 hr k He Hk). }
    assert (countOf r hr app = 0) as H0 by (unfold countOf; by rewrite E). destruct ok.
    + split_and!; [|  |done|by apply Hex].
      * apply setCount_ok; [done| |lia]. rewrite (evicts_buckets r r0 hr hr He), E by lia. done.
      * intros k a Hk. rewrite countOf_setCount, Hsame by done. fold (countOf r0 hr app).
        rewrite (Hsame hr app) by lia.
        destruct (decide (k = hr ∧ a = app)) as [[-> ->]|Hn]; [by rewrite decide_True|].
        rewrite decide_False by naive_solver. lia.
    + destruct Hres as [Hcap Hall]. split_and!; [done| |done|by exists r0].
      intros k a Hk. rewrite Hsame by done. rewrite decide_False by naive_solver. lia.
Qed.

Lemma pruneHours_spec cutoffHour rows r :
  NoDup rows.*1 → (∀ k a, (k, a) ∈ rows → hours r !! k = Some a) → entries r = pairs (hours r) →
  let r' := foldl (pruneHour cutoffHour) r rows in
  entries r' = pairs (hours r') ∧ entries r' ≤ entries r ∧
  ∀ k, hours r' !! k = (if bool_decide (k ∈ rows.*1 ∧ k < cutoffHour) then None else hours r !! k).
Proof.
  revert r. induction rows as [|[h apps] rows IH]; intros r Hnd Hrows He; cbn [foldl].
  { split_and!; [done|lia|]. intros k. rewrite bool_decide_false; [done|]. by intros [?%elem_of_nil _]. }
  cbn [fmap list_fmap fst] in Hnd. apply NoDup_cons in Hnd as [Hh Hnd].
  assert (hours r !! h = Some apps) as Hr by (apply Hrows; left).
  set (r1 := pruneHour cutoffHour r (h, apps)).
  assert (entries r1 = pairs (hours r1) ∧ entries r1 ≤ entries r) as [He1 Hle].
  { unfold r1, pruneHour. cbn [fst snd]. destruct (h <? cutoffHour); [cbn|split; [done|lia]].
    pose proof (pairs_delete (hours r) h) as Hp. rewrite Hr in Hp. cbn [default from_option id] in Hp. lia. }
  assert (∀ k, hours r1 !! k = if bool_decide (k = h ∧ h < cutoffHour) then None else hours r !! k) as H1.
  { intros k. unfold r1, pruneHour. cbn [fst snd]. destruct (Z.ltb_spec h cutoffHour) as [Hlt|Hge]; cbn [hours].
    - destruct (decide (k = h)) as [->|Hne]; [by rewrite lookup_delete_eq, bool_decide_true|].
      rewrite lookup_delete_ne, bool_decide_false by naive_solver. done.
    - rewrite bool_decide_false; [done|]. intros []. lia. }
  destruct (IH r1 Hnd) as (Ha & Hb & Hc); [|done|].
  { intros k a Hk. rewrite H1, bool_decide_false; [apply Hrows; by right|]. intros [-> _].
    apply Hh, list_elem_of_fmap. by exists (h, a). }
  split_and!; [done|lia|]. intros k. rewrite Hc, H1. cbn [fmap list_fmap fst].
  repeat case_bool_decide; try done; exfalso; set_solver.
Qed.

Lemma pruneRollup_spec r cutoff :
  rollup_ok r →
  rollup_ok (pruneRollup r cutoff) ∧
  ∀ k, hours (pruneRollup r cutoff) !! k = (if k <? truncateHour cutoff then None else hours r !! k).
Proof.
  intros [He Hc]. unfold pruneRollup.
  destruct (pruneHours_spec (truncateHour cutoff) (map_range (hours r)) r) as (Ha & Hb & Hk);
    [apply NoDup_map_range_fst|intros k a; by rewrite elem_of_map_range|done|].
  split; [split; [done|lia]|]. intros k. rewrite Hk.
  destruct (Z.ltb_spec k (truncateHour cutoff)) as [Hlt|Hge].
  - case_bool_decide as Hin; [done|]. destruct (hours r !! k) as [a|] eqn:E; [|done]. exfalso.
    apply Hin. split; [|done]. apply list_elem_of_fmap. exists (k, a). split; [done|]. by apply elem_of_map_range.
  - rewrite bool_decide_false; [done|]. intros []. lia.
Qed.
Lemma addCount_ok r hr app count : rollup_ok r → rollup_ok (addCount r hr app count).2.
Proof.
  intros Hok. destruct (decide (app = ""%string ∨ count ≤ 0)) as [Hz|Hz].
  - unfold addCount. assert (str_empty app || (count <=? 0) = true) as ->; [|done].
    apply orb_true_iff. destruct Hz as [->|Hz]; [by left|right; by apply Z.leb_le].
  - pose proof (addCount_spec r hr app count Hok ltac:(lia) ltac:(naive_solver)) as H.
    destruct (addCount r hr app count). apply H.
Qed.
End rollup_proofs.

(** * What the sink keeps *)
Definition sumBytes (l : list storedTelemetryRecord) : Z := foldr (λ s n, st_bytes s + n) 0 l.

Record retained_ok (r : telemetryRetained) : Prop := {
  rk_bytes : rt_memoryBytes r = sumBytes (rt_records r);
  rk_sizes s : s ∈ rt_records r → 0 < st_bytes s;
  rk_private s : s ∈ rt_records r → isAppConnection (st_record s) = false
}.

Lemma sumBytes_nil : sumBytes [] = 0.
Proof. done. Qed.

Lemma sumBytes_cons s l : sumBytes (s :: l) = st_bytes s + sumBytes l.
Proof. done. Qed.

Lemma sumBytes_app l1 l2 : sumBytes (l1 ++ l2) = sumBytes l1 + sumBytes l2.
Proof. unfold sumBytes in *. induction l1 as [|s l1 IH]; cbn [app foldr]; lia. Qed.

Lemma appendRetained_ok r record size :
  retained_ok r → 0 < size → isAppConnection record = false → retained_ok (appendRetained r record size).
Proof.
  intros [Hb Hs Hp] H0 Ha. split; cbn.
  - rewrite sumBytes_app, sumBytes_cons, sumBytes_nil, Hb. cbn [st_bytes]. lia.
  - by intros s [?| ->%list_elem_of_singleton]%elem_of_app; [apply Hs|].
  - by intros s [?| ->%list_elem_of_singleton]%elem_of_app; [apply Hp|].
Qed.

Lemma pruneStored_spec cutoff l bytes :
  let '(kept, b) := pruneStored cutoff l bytes in
  b = bytes - sumBytes l + sumBytes kept ∧ kept `sublist_of` l ∧
  ∀ s, s ∈ kept → cutoff ≤ retentionTime (st_record s).
Proof.
  revert bytes. induction l as [|s l IH]; intros bytes; cbn [pruneStored].
  { split_and!; [lia|done|]. by intros s ?%elem_of_nil. }
  unfold time_before. destruct (Z.ltb_spec (retentionTime (st_record s)) cutoff) as [Hlt|Hge].
  - specialize (IH (bytes - st_bytes s)). destruct (pruneStored cutoff l _) as [kept b].
    destruct IH as (-> & Hsub & Hk). split_and!; [rewrite ?sumBytes_cons; lia|by apply sublist_cons|done].
  - specialize (IH bytes). destruct (pruneStored cutoff l bytes) as [kept b].
    destruct IH as (-> & Hsub & Hk). split_and!; [rewrite ?sumBytes_cons; lia|by apply sublist_skip|].
    intros x [->|Hx]%elem_of_cons; [done|by apply Hk].
Qed.

Lemma retained_sublist r kept bytes shifts :
  retained_ok r → kept `sublist_of` rt_records r → bytes = sumBytes kept →
  retained_ok {| rt_records := kept; rt_memoryBytes := bytes; rt_memoryLimit := rt_memoryLimit r;
                 rt_compactionShifts := shifts |}.
Proof.
  intros [_ Hs Hp] Hsub ->. split; [done|..]; intros s Hin; [apply Hs|apply Hp];
    by apply (elem_of_sublist kept).
Qed.

Lemma pruneRetained_ok r cutoff : retained_ok r → retained_ok (pruneRetained r cutoff).
Proof.
  intros Hok. unfold pruneRetained.
  pose proof (pruneStored_spec cutoff (rt_records r) (rt_memoryBytes r)) as H.
  destruct (pruneStored _ _ _) as [kept b]. destruct H as (-> & Hsub & _).
  apply retained_sublist; [done|done|]. rewrite (rk_bytes r Hok). lia.
Qed.

Lemma dropOver_spec limit l bytes :
  0 ≤ limit → bytes = sumBytes l →
  let '(kept, b) := dropOver limit l bytes in
  kept `suffix_of` l ∧ b = sumBytes kept ∧ b ≤ limit ∧
  (kept = l ∨ ∃ s, s :: kept `suffix_of` l ∧ limit < sumBytes (s :: kept)).
Proof.
  intros Hl. revert bytes. induction l as [|s l IH]; intros bytes Hb; cbn [dropOver].
  { split_and!; [done|done|rewrite Hb, sumBytes_nil; lia|by left]. }
  destruct (Z.ltb_spec limit bytes) as [Hov|Hfit]; [|split_and!; [done|done|done|by left]].
  assert (bytes - st_bytes s = sumBytes l) as Hb' by (rewrite sumBytes_cons in Hb; lia).
  specialize (IH _ Hb'). destruct (dropOver limit l _) as [kept b]. destruct IH as (Hsuf & -> & Hle & Hmax).
  split_and!; [by apply suffix_cons_r|done|done|]. right.
  destruct Hmax as [->|(x & Hx & Hlt)]; [exists s; split; [done|rewrite sumBytes_cons; lia]|].
  exists x. split; [by apply suffix_cons_r|done].
Qed.

Lemma dropOldestOverBudget_ok r :
  retained_ok r → 0 ≤ rt_memoryLimit r →
  retained_ok (dropOldestOverBudget r) ∧
  rt_memoryBytes (dropOldestOverBudget r) ≤ rt_memoryLimit r ∧
  rt_memoryLimit (dropOldestOverBudget r) = rt_memoryLimit r.
Proof.
  intros Hok Hl. unfold dropOldestOverBudget.
  pose proof (dropOver_spec (rt_memoryLimit r) (rt_records r) (rt_memoryBytes r) Hl (rk_bytes r Hok)) as H.
  destruct (dropOver _ _ _) as [kept b]. destruct H as (Hsuf & -> & Hle & _).
  destruct (Nat.eqb_spec (length kept) (length (rt_records r))) as [Heq|Hne].
  - split_and!; [done| |done]. rewrite (rk_bytes r Hok). apply suffix_length_eq in Hsuf as <-; [done|lia].
  - split_and!; [|done|done]. apply retained_sublist; [done| |done].
    destruct Hsuf as [l ->]. apply sublist_inserts_l. done.
Qed.

(** * The budget of a batch *)
Definition usedBy (c : batchCounter) (app : string) : Z := default 0 (c !! app).
Definition counter_ok (c : batchCounter) : Prop := ∀ app, 0 ≤ usedBy c app ≤ maxTelemetryAppConnectionCount.
Definition counts_ok (r : telemetryAppRollup) : Prop := ∀ h a, 0 ≤ countOf r h a.

Lemma usedBy_insert c k v app : usedBy (<[k := v]> c) app = if decide (app = k) then v else usedBy c app.
Proof.
  unfold usedBy. case_decide as Ha; [subst; by rewrite lookup_insert_eq|]. by rewrite lookup_insert_ne.
Qed.

Lemma take_spec c e :
  counter_ok c →
  let '(count, c') := take_ c e in
  counter_ok c' ∧ 0 ≤ count ∧
  ∀ app, usedBy c' app = usedBy c app + (if decide (app = ev_Application e) then count else 0).
Proof.
  intros Hc. unfold take_. fold (usedBy c (ev_Application e)).
  assert (1 ≤ telemetryAppConnectionCount e) as Hcount.
  { unfold telemetryAppConnectionCount. repeat case_match; cmp_lia. }
  pose proof (Hc (ev_Application e)) as Hu.
  destruct (Z.leb_spec (maxTelemetryAppConnectionCount - usedBy c (ev_Application e)) 0) as [Hle|Hgt].
  - split_and!; [done|lia|]. intros app. case_decide; lia.
  - set (n := Z.min _ _). assert (0 ≤ n ≤ maxTelemetryAppConnectionCount - usedBy c (ev_Application e)) as Hn by lia.
    assert (∀ app, usedBy (<[ev_Application e := usedBy c (ev_Application e) + n]> c) app =
      usedBy c app + (if decide (app = ev_Application e) then n else 0)) as Heq.
    { intros app. rewrite usedBy_insert. case_decide; subst; lia. }
    split_and!; [|lia|done]. intros app. rewrite Heq. specialize (Hc app). case_decide; subst; lia.
Qed.

Section batches.
#[local] Set Default Proof Using "Type".
Context {hourRows : MapRange Z (gmap string Z)}.

Lemma addCount_le r hr app count :
  rollup_ok r → counts_ok r → 0 ≤ count →
  let r' := (addCount r hr app count).2 in
  counts_ok r' ∧ ∀ k a, countOf r' k a ≤ countOf r k a + (if decide (a = app) then count else 0).
Proof.
  intros Hok Hp Hc. cbv zeta. destruct (decide (app = ""%string ∨ count = 0)) as [Hz|Hz].
  { unfold addCount. assert (str_empty app || (count <=? 0) = true) as ->.
    { apply orb_true_iff. destruct Hz as [->| ->]; [by left|by right]. }
    split; [done|]. intros k a. cbn. case_decide; lia. }
  pose proof (addCount_spec r hr app count Hok ltac:(lia) ltac:(naive_solver)) as H.
  destruct (addCount r hr app count) as [ok r']. destruct H as (_ & Hnew & _ & r0 & He & Hold). cbn [snd].
  assert (∀ k a, k < hr → countOf r' k a = countOf r k a ∨ countOf r' k a = 0) as Holder.
  { intros k a Hk. unfold countOf, bucketsOf. rewrite Hold by lia.
    destruct (hours r0 !! k) as [m|] eqn:E; [left|by right]. by rewrite (ev_sub _ _ _ He k m E). }
  split; intros k a; specialize (Hp k a); destruct (Z.lt_ge_cases k hr) as [Hk|Hk].
  - destruct (Holder k a Hk) as [Hw|Hw]; rewrite Hw; lia.
  - rewrite Hnew by lia. destruct (decide _); lia.
  - destruct (Holder k a Hk) as [Hw|Hw]; rewrite Hw; destruct (decide (a = app)); lia.
  - rewrite Hnew by lia. destruct (decide (ok = true ∧ _)) as [(_ & _ & ->)|]; destruct (decide _); done || lia.
Qed.

Lemma pruneRollup_counts r cutoff :
  rollup_ok r → counts_ok r →
  counts_ok (pruneRollup r cutoff) ∧ ∀ h a, countOf (pruneRollup r cutoff) h a ≤ countOf r h a.
Proof.
  intros Hok Hp. destruct (pruneRollup_spec r cutoff Hok) as [_ Hk].
  assert (∀ h a, countOf (pruneRollup r cutoff) h a = 0 ∨ countOf (pruneRollup r cutoff) h a = countOf r h a) as Hc.
  { intros h a. unfold countOf, bucketsOf. rewrite Hk. destruct (h <? _); [by left|by right]. }
  split; intros h a; specialize (Hp h a); destruct (Hc h a) as [Hw|Hw]; rewrite Hw; lia.
Qed.

Context (marshalRecord : TelemetryRecord → option (list byte)).

Lemma writeRecords_counts io now i records c s :
  counter_ok c → rollup_ok (sk_rollup s) → counts_ok (sk_rollup s) →
  let s' := (writeRecords marshalRecord io now i records c s).2 in
  rollup_ok (sk_rollup s') ∧ counts_ok (sk_rollup s') ∧
  ∀ h a, countOf (sk_rollup s') h a ≤ countOf (sk_rollup s) h a + (maxTelemetryAppConnectionCount - usedBy c a).
Proof.
  revert i c s. induction records as [|record rest IH]; intros i c s Hc Hr Hp; cbn [writeRecords].
  { split_and!; [done|done|]. intros h a. specialize (Hc a). cbn [snd]. lia. }
  destruct (isAppConnection record).
  - pose proof (take_spec c (tr_Event record) Hc) as Ht. destruct (take_ c (tr_Event record)) as [count c'].
    destruct Ht as (Hc' & Hn & Hu).
    pose proof (addCount_ok (sk_rollup s) (telemetryAppRollupHour record now) (ev_Application (tr_Event record)) count Hr) as Hr1.
    pose proof (addCount_le (sk_rollup s) (telemetryAppRollupHour record now) (ev_Application (tr_Event record)) count Hr Hp Hn) as [Hp1 Hle].
    destruct (addCount _ _ _ _) as [b r]. cbn [snd] in *.
    destruct (IH i c' (withRollup s r) Hc' Hr1 Hp1) as (H1 & H2 & H3). split_and!; [done|done|].
    intros h a. specialize (H3 h a). specialize (Hle h a). specialize (Hu a). cbn [sk_rollup withRollup] in *.
    case_decide; lia.
  - assert (∀ a, 0 ≤ maxTelemetryAppConnectionCount - usedBy c a) as Hpos by (intros a; specialize (Hc a); lia).
    destruct (marshalRecord record) as [line|]; [|split_and!; [done|done|intros h a; specialize (Hpos a); cbn; lia]].
    destruct (wio_write io i); cbn [negb]; [|split_and!; [done|done|intros h a; specialize (Hpos a); cbn; lia]].
    match goal with |- context [writeRecords _ _ _ _ rest c ?x] => exact (IH (S i) c x Hc Hr Hp) end.
Qed.
End batches.

Section sink_proofs.
#[local] Set Default Proof Using "Type".
Context {hourRows : MapRange Z (gmap string Z)}.
Context (marshalRecord : TelemetryRecord → option (list byte)) (decodeRecord : list byte → option TelemetryRecord).

(** A line that does not hold an application connection. *)
Definition privateLine (line : list byte) : Prop :=
  ∀ r, decodeRecord line = Some r → isAppConnection r = false.

Record sink_ok (s : sink) : Prop := {
  so_retained : retained_ok (sk_retained s);
  so_limit : 0 ≤ rt_memoryLimit (sk_retained s);
  so_rollup : rollup_ok (sk_rollup s);
  so_file : Forall privateLine (sk_file s)
}.

(** What a record is marshalled to decodes to a record of the same event. *)
Definition keepsEvent : Prop :=
  ∀ r line, marshalRecord r = Some line →
  ∃ r', decodeRecord line = Some r' ∧ ev_Event (tr_Event r') = ev_Event (tr_Event r).

Lemma marshal_private r line :
  keepsEvent → marshalRecord r = Some line → isAppConnection r = false → privateLine line.
Proof.
  intros Hk Hm Ha x Hx. destruct (Hk r line Hm) as (r' & Hr & He). rewrite Hr in Hx. injection Hx as <-.
  unfold isAppConnection in *. by rewrite He.
Qed.

Lemma lineSize_pos line : 0 < lineSize line.
Proof. unfold lineSize. lia. Qed.

Lemma failed_ok s e : sink_ok s → sink_ok (failed s e).
Proof. by intros []. Qed.

Lemma flushLocked_ok ok s : sink_ok s → sink_ok (flushLocked ok s).2.
Proof. intros H. unfold flushLocked. destruct (sk_writeErr s), ok; try done. by apply failed_ok. Qed.

Lemma flushLocked_fields ok s :
  let s' := (flushLocked ok s).2 in
  sk_retained s' = sk_retained s ∧ sk_rollup s' = sk_rollup s ∧ sk_fileLimit s' = sk_fileLimit s ∧
  sk_file s' = sk_file s.
Proof. unfold flushLocked. by destruct (sk_writeErr s), ok. Qed.

(** Compaction rewrites the file from the retained records or leaves it. *)
Lemma compactLocked_spec io s :
  keepsEvent → retained_ok (sk_retained s) →
  let '(ok, s') := compactLocked marshalRecord io s in
  sk_retained s' = sk_retained s ∧ sk_rollup s' = sk_rollup s ∧ sk_fileLimit s' = sk_fileLimit s ∧
  (Forall privateLine (sk_file s') ∨ ok = false ∧ sk_file s' = sk_file s).
Proof.
  intros Hk Hr. unfold compactLocked. pose proof (flushLocked_fields (cio_flush io) s) as Hf.
  destruct (flushLocked (cio_flush io) s) as [ok s0]. cbn [snd] in Hf. destruct Hf as (H1 & H2 & H3 & H4).
  destruct ok; [|split_and!; [done..|by right]]. cbn [negb]. destruct (cio_create io); [|split_and!; [done..|by right]]. cbn [negb].
  destruct (mapM _ _) as [lines|] eqn:Em; [|split_and!; [done..|by right]]. destruct (_ || _); [split_and!; [done..|by right]|].
  assert (Forall privateLine lines) as Hl.
  { apply mapM_Some in Em. apply Forall_forall. intros line [i Hi]%list_elem_of_lookup.
    destruct (Forall2_lookup_r _ _ _ _ _ Em Hi) as (st & Hst & Hm).
    apply (marshal_private (st_record st) line Hk Hm). rewrite H1 in Hst.
    apply (rk_private _ Hr). by apply list_elem_of_lookup_2 in Hst. }
  destruct (cio_seek io); split_and!; (done || by left).
Qed.

Lemma compactLocked_ok io s :
  keepsEvent → sink_ok s →
  let s' := (compactLocked marshalRecord io s).2 in
  sink_ok s' ∧ sk_retained s' = sk_retained s ∧ sk_fileLimit s' = sk_fileLimit s.
Proof.
  intros Hk [H1 H2 H3 H4]. pose proof (compactLocked_spec io s Hk H1) as Hc.
  destruct (compactLocked marshalRecord io s) as [ok s']. cbn [snd]. destruct Hc as (E1 & E2 & E3 & Hf).
  split_and!; [|done|done]. split; [by rewrite E1|by rewrite E1|by rewrite E2|].
  destruct Hf as [?|[_ ->]]; done.
Qed.

Lemma maybeCompactLocked_ok io s :
  keepsEvent → sink_ok s → sink_ok (maybeCompactLocked marshalRecord io s).2 ∧
  sk_retained (maybeCompactLocked marshalRecord io s).2 = sk_retained s ∧
  sk_fileLimit (maybeCompactLocked marshalRecord io s).2 = sk_fileLimit s.
Proof.
  intros Hk Hok. unfold maybeCompactLocked. destruct (_ || _); [done|]. by apply compactLocked_ok.
Qed.

Lemma writeRecords_ok io now i records c s :
  keepsEvent → sink_ok s → let s' := (writeRecords marshalRecord io now i records c s).2 in
  sink_ok s' ∧ rt_memoryLimit (sk_retained s') = rt_memoryLimit (sk_retained s) ∧ sk_fileLimit s' = sk_fileLimit s.
Proof.
  intros Hk. revert i c s. induction records as [|record rest IH]; intros i c s Hok; cbn [writeRecords]; [done|].
  destruct (isAppConnection record) eqn:Ha.
  - destruct (take_ c (tr_Event record)) as [count c'].
    pose proof (addCount_ok (sk_rollup s) (telemetryAppRollupHour record now) (ev_Application (tr_Event record)) count
      (so_rollup s Hok)) as Hr.
    destruct (addCount _ _ _ _) as [b r]. cbn [snd] in Hr.
    refine (IH i c' (withRollup s r) _). destruct Hok. by split.
  - destruct (marshalRecord record) as [line|] eqn:Hm; [|done]. destruct (wio_write io i); cbn [negb].
    2: { split_and!; [by apply failed_ok|done|done]. }
    match goal with |- context [writeRecords _ _ _ _ rest c ?x] => refine (IH (S i) c x _) end.
    destruct Hok as [H1 H2 H3 H4]. split; cbn; [|done|done|].
    + apply appendRetained_ok; [done|apply lineSize_pos|done].
    + apply Forall_app. split; [done|]. apply Forall_singleton. by apply (marshal_private record).
Qed.

Lemma trimSink_ok cutoff s :
  sink_ok s → let s' := trimSink cutoff s in
  sink_ok s' ∧ rt_memoryLimit (sk_retained s') = rt_memoryLimit (sk_retained s) ∧
  rt_memoryBytes (sk_retained s') ≤ rt_memoryLimit (sk_retained s').
Proof.
  intros [H1 H2 H3 H4]. cbv zeta. cbn [trimSink sk_retained withRetained withRollup].
  assert (rt_memoryLimit (pruneRetained (sk_retained s) cutoff) = rt_memoryLimit (sk_retained s)) as Hpl.
  { unfold pruneRetained. by destruct (pruneStored _ _ _). }
  destruct (dropOldestOverBudget_ok (pruneRetained (sk_retained s) cutoff)) as (Hd1 & Hd2 & Hd3);
    [by apply pruneRetained_ok|by rewrite Hpl|].
  split_and!; [|congruence|by rewrite Hd3]. split; [done|cbn; by rewrite Hd3, Hpl| |done]. by apply pruneRollup_spec.
Qed.

Lemma WriteTelemetry_ok io now records s :
  keepsEvent → sink_ok s → let s' := (WriteTelemetry marshalRecord io now records s).2 in
  sink_ok s' ∧ rt_memoryLimit (sk_retained s') = rt_memoryLimit (sk_retained s) ∧
  sk_fileLimit s' = sk_fileLimit s ∧
  ((WriteTelemetry marshalRecord io now records s).1 = Ok tt →
   rt_memoryBytes (sk_retained s') ≤ rt_memoryLimit (sk_retained s')).
Proof.
  intros Hk Hok. unfold WriteTelemetry. destruct (sk_closed s); [done|]. destruct (sk_writeErr s) as [e|]; [done|].
  set (cutoff := time_add now (- telemetryRetention)). cbv zeta.
  set (s1 := withRollup s (pruneRollup (sk_rollup s) cutoff)).
  assert (sink_ok s1) as Hok1.
  { destruct Hok as [H1 H2 H3 H4]. split; [done|done| |done]. by apply pruneRollup_spec. }
  pose proof (writeRecords_ok io now 0 records ∅ s1 Hk Hok1) as Hw. cbv zeta in Hw.
  destruct (writeRecords marshalRecord io now 0 records ∅ s1) as [[[]|e] s2]; cbn [snd] in Hw;
    destruct Hw as (Hok2 & Hl2 & Hf2); [|done].
  set (s3 := trimSink cutoff s2). destruct (trimSink_ok cutoff s2 Hok2) as (Hok3 & Hl3 & Hb3). fold s3 in Hok3, Hl3, Hb3.
  assert (sk_fileLimit s3 = sk_fileLimit s2) as Hf3 by done. clearbody s3.
  destruct (maybeCompactLocked_ok (wio_compact io) s3 Hk Hok3) as (Hc1 & Hc2 & Hc3).
  change (rt_memoryLimit (sk_retained s1)) with (rt_memoryLimit (sk_retained s)) in Hl2.
  change (sk_fileLimit s1) with (sk_fileLimit s) in Hf2.
  destruct (maybeCompactLocked marshalRecord (wio_compact io) s3) as [[] s4]; cbn [fst snd] in *.
  - split_and!; [done|congruence|congruence|]. intros _. by rewrite Hc2.
  - split_and!; [by apply failed_ok|cbn; congruence|cbn; congruence|done].
Qed.

Lemma loadLines_spec cutoff lines nc r nc' r' :
  loadLines decodeRecord cutoff lines nc r = Some (nc', r') →
  retained_ok r → 0 ≤ rt_memoryLimit r →
  retained_ok r' ∧ rt_memoryLimit r' = rt_memoryLimit r ∧ (nc' = false → Forall privateLine lines).
Proof.
  revert nc r. induction lines as [|line rest IH]; intros nc r; cbn [loadLines].
  { by intros [= <- <-]. }
  destruct (decodeRecord line) as [record|] eqn:Hd; [|done].
  assert (∀ nc0 r0, loadLines decodeRecord cutoff rest nc0 r0 = Some (nc', r') → nc' = false → nc0 = false) as Hstick.
  { clear. induction rest as [|l rest IH]; intros nc0 r0; cbn [loadLines]; [by intros [= <- <-]|].
    destruct (decodeRecord l) as [rec|]; [|done]. destruct (isAppConnection rec).
    - intros H Hn. specialize (IH _ _ H Hn). done.
    - destruct (time_before _ _); apply IH. }
  destruct (isAppConnection record) eqn:Ha.
  { intros H Hok Hl. destruct (IH _ _ H Hok Hl) as (? & ? & _). split_and!; [done|done|].
    intros Hn. by specialize (Hstick _ _ H Hn). }
  assert (privateLine line) as Hpl by (intros x Hx; rewrite Hd in Hx; by injection Hx as <-).
  destruct (time_before _ _).
  { intros H Hok Hl. destruct (IH _ _ H Hok Hl) as (? & ? & Hf). split_and!; [done|done|].
    intros Hn. constructor; [done|by apply Hf]. }
  set (r1 := appendRetained r record (lineSize line)). intros H Hok Hl.
  assert (retained_ok r1) as Hok1 by (apply appendRetained_ok; [done|apply lineSize_pos|done]).
  assert (rt_memoryLimit r1 = rt_memoryLimit r) as Hl1 by done.
  destruct (dropOldestOverBudget_ok r1 Hok1 ltac:(lia)) as (Hdo & _ & Hdl).
  apply IH in H as (? & ? & Hf); [| by destruct (_ <? _)|destruct (_ <? _); lia].
  split_and!; [done| |intros Hn; constructor; [done|by apply Hf]]. destruct (_ <? _); congruence.
Qed.

Lemma openSink_ok lines fileSize scanOK io now memoryLimit fileLimit s :
  keepsEvent → 0 ≤ memoryLimit →
  openSink marshalRecord decodeRecord lines fileSize scanOK io now memoryLimit fileLimit = Ok s →
  sink_ok s ∧ rt_memoryLimit (sk_retained s) = memoryLimit ∧ sk_fileLimit s = fileLimit ∧
  rt_memoryBytes (sk_retained s) ≤ memoryLimit.
Proof.
  intros Hk Hl. unfold openSink. destruct (loadLines _ _ _ _ _) as [[nc r]|] eqn:Hload; [|done].
  apply loadLines_spec in Hload as (Hr & Hrl & Hpriv); [| |done].
  2: { split; [done|..]; by intros s' ?%elem_of_nil. }
  destruct scanOK; [|done]. cbn [negb]. set (s0 := {| sk_retained := _ |}).
  destruct (dropOldestOverBudget_ok r Hr ltac:(rewrite Hrl; done)) as (Hd1 & Hd2 & Hd3).
  assert (∀ s1, retained_ok (sk_retained s1) → sk_retained s1 = sk_retained s0 → sk_fileLimit s1 = fileLimit →
    rt_memoryLimit (sk_retained s1) = memoryLimit ∧ sk_fileLimit s1 = fileLimit ∧
    rt_memoryBytes (sk_retained s1) ≤ memoryLimit) as Hfin.
  { intros s1 _ -> Hf. cbn in *. split_and!; [congruence|done|by rewrite <- Hrl]. }
  destruct nc.
  - destruct (compactLocked marshalRecord io s0) as [[] s1] eqn:Hc; [|done]. intros [= <-].
    pose proof (compactLocked_spec io s0 Hk Hd1) as Hspec. rewrite Hc in Hspec.
    destruct Hspec as (E1 & E2 & E3 & [Hf|[? _]]); [|done].
    split; [|apply Hfin; [by rewrite E1|done|done]].
    split; [by rewrite E1|rewrite E1; cbn; by rewrite Hd3, Hrl|rewrite E2; apply emptyRollup_ok|done].
  - assert (sink_ok s0) as Hok0.
    { split; [done|cbn; rewrite Hd3, Hrl; done|apply emptyRollup_ok|by apply Hpriv]. }
    destruct (maybeCompactLocked_ok io s0 Hk Hok0) as (H1 & H2 & H3).
    destruct (maybeCompactLocked marshalRecord io s0) as [[] s1]; [|done]. intros [= <-].
    split; [done|]. apply Hfin; [apply H1|done|done].
Qed.

Lemma sinkStep_ok s op :
  keepsEvent → sink_ok s → sink_ok (sinkStep marshalRecord s op) ∧
  rt_memoryLimit (sk_retained (sinkStep marshalRecord s op)) = rt_memoryLimit (sk_retained s).
Proof.
  intros Hk Hok. destruct op as [io now records|ok|ok]; cbn [sinkStep].
  - destruct (WriteTelemetry_ok io now records s Hk Hok) as (? & ? & _). done.
  - split; [by apply flushLocked_ok|]. by destruct (flushLocked_fields ok s) as (-> & _).
  - unfold closeSink. destruct (sk_closed s); [done|]. assert (sink_ok (closedSink s)) as Hc by (destruct Hok; by split).
    split; [by apply flushLocked_ok|]. by destruct (flushLocked_fields ok (closedSink s)) as (-> & _).
Qed.

Lemma sinkSteps_ok s ops :
  keepsEvent → sink_ok s → sink_ok (foldl (sinkStep marshalRecord) s ops) ∧
  rt_memoryLimit (sk_retained (foldl (sinkStep marshalRecord) s ops)) = rt_memoryLimit (sk_retained s).
Proof.
  intros Hk. revert s. induction ops as [|op ops IH]; intros s Hok; cbn [foldl]; [done|].
  destruct (sinkStep_ok s op Hk Hok) as [H1 H2]. destruct (IH _ H1) as [H3 H4]. split; [done|congruence].
Qed.

(** Browsing metadata never rests at the broker.  Whatever the telemetry
    file held before (legacy rows included), once the sink has opened it, no
    line of the file and no retained record is an application connection
    (client address, application and destination), after any sequence of
    batches, flushes and closes and whatever file operations fail: such events
    survive only as hourly counts. *)
Lemma telemetry_privacy (lines : list (list byte)) (fileSize : Z) (scanOK : bool) (io : compactIO)
    (now memoryLimit fileLimit : Z) (s : sink) (ops : list sinkOp) :
  keepsEvent → 0 ≤ memoryLimit →
  openSink marshalRecord decodeRecord lines fileSize scanOK io now memoryLimit fileLimit = Ok s →
  let s' := foldl (sinkStep marshalRecord) s ops in
  (∀ line r, line ∈ sk_file s' → decodeRecord line = Some r → ev_Event (tr_Event r) ≠ telemetryAppConnectionEvent) ∧
  (∀ since r, r ∈ recordsSince (sk_retained s') since → ev_Event (tr_Event r) ≠ telemetryAppConnectionEvent).
Proof.
  intros Hk Hl Ho s'. apply openSink_ok in Ho as (Hok & _); [|done|done].
  destruct (sinkSteps_ok s ops Hk Hok) as [[Hr _ _ Hf] _]. fold s' in Hr, Hf. split.
  - intros line r Hin Hd. pose proof (proj1 (Forall_forall _ _) Hf line Hin r Hd) as H.
    by apply bool_decide_eq_false in H.
  - intros since r Hin. apply list_elem_of_In, filter_In in Hin as [Hin _].
    apply list_elem_of_In, list_elem_of_fmap in Hin as (st & -> & Hst).
    pose proof (rk_private _ Hr st Hst) as H. by apply bool_decide_eq_false in H.
Qed.

Lemma maybeCompactLocked_rollup io s :
  keepsEvent → sink_ok s → sk_rollup (maybeCompactLocked marshalRecord io s).2 = sk_rollup s.
Proof.
  intros Hk Hok. unfold maybeCompactLocked. destruct (_ || _); [done|].
  pose proof (compactLocked_spec io s Hk (so_retained s Hok)) as H.
  by destruct (compactLocked marshalRecord io s) as [ok s'], H as (_ & ? & _).
Qed.

Lemma WriteTelemetry_counts io now records s :
  keepsEvent → sink_ok s → counts_ok (sk_rollup s) →
  let s' := (WriteTelemetry marshalRecord io now records s).2 in
  counts_ok (sk_rollup s') ∧
  ∀ h a, countOf (sk_rollup s') h a ≤ countOf (sk_rollup s) h a + maxTelemetryAppConnectionCount.
Proof.
  intros Hk Hok Hp. cbv zeta.
  assert (∀ h a, countOf (sk_rollup s) h a ≤ countOf (sk_rollup s) h a + maxTelemetryAppConnectionCount) as Hid
    by (intros; unfold maxTelemetryAppConnectionCount; lia).
  unfold WriteTelemetry. destruct (sk_closed s); [done|]. destruct (sk_writeErr s) as [e|]; [done|].
  set (cutoff := time_add now (- telemetryRetention)). cbv zeta.
  set (s1 := withRollup s (pruneRollup (sk_rollup s) cutoff)).
  destruct (pruneRollup_counts (sk_rollup s) cutoff (so_rollup s Hok) Hp) as [Hp1 Hle1].
  pose proof (proj1 (pruneRollup_spec (sk_rollup s) cutoff (so_rollup s Hok))) as Hr1.
  assert (sink_ok s1) as Hok1 by (destruct Hok; by split).
  destruct (writeRecords_counts marshalRecord io now 0 records ∅ s1) as (Hr2 & Hp2 & Hle2); [done|done|done|].
  destruct (writeRecords_ok io now 0 records ∅ s1 Hk Hok1) as (Hok2 & _).
  assert (∀ a, usedBy ∅ a = 0) as Hused by done.
  destruct (writeRecords marshalRecord io now 0 records ∅ s1) as [[[]|e] s2]; cbn [snd] in *.
  2: { split; [done|]. intros h a. specialize (Hle1 h a). specialize (Hle2 h a). rewrite Hused in Hle2. cbn in *. lia. }
  set (s3 := trimSink cutoff s2). destruct (trimSink_ok cutoff s2 Hok2) as (Hok3 & _).
  destruct (pruneRollup_counts (sk_rollup s2) cutoff Hr2 Hp2) as [Hp3 Hle3].
  pose proof (maybeCompactLocked_rollup (wio_compact io) s3 Hk Hok3) as Hroll.
  change (sk_rollup s3) with (pruneRollup (sk_rollup s2) cutoff) in Hroll.
  assert (counts_ok (pruneRollup (sk_rollup s2) cutoff) ∧ ∀ h a,
    countOf (pruneRollup (sk_rollup s2) cutoff) h a ≤ countOf (sk_rollup s) h a + maxTelemetryAppConnectionCount) as Hend.
  { split; [done|]. intros h a. specialize (Hle1 h a). specialize (Hle2 h a). specialize (Hle3 h a).
    rewrite Hused in Hle2. cbn [sk_rollup withRollup s1] in *. lia. }
  destruct (maybeCompactLocked marshalRecord (wio_compact io) s3) as [[] s4]; cbn [snd] in *.
  - by rewrite Hroll.
  - change (sk_rollup (failed s4 ErrCompactFile)) with (sk_rollup s4). by rewrite Hroll.
Qed.

Lemma sinkSteps_counts s ops :
  keepsEvent → sink_ok s → counts_ok (sk_rollup s) → counts_ok (sk_rollup (foldl (sinkStep marshalRecord) s ops)).
Proof.
  intros Hk. revert s. induction ops as [|op ops IH]; intros s Hok Hp; cbn [foldl]; [done|].
  apply IH; [by apply sinkStep_ok|]. destruct op as [io now records|ok|ok]; cbn [sinkStep].
  - by apply (WriteTelemetry_counts io now records s).
  - by destruct (flushLocked_fields ok s) as (_ & -> & _).
  - unfold closeSink. destruct (sk_closed s); [done|]. by destruct (flushLocked_fields ok (closedSink s)) as (_ & -> & _).
Qed.

Lemma openSink_counts lines fileSize scanOK io now memoryLimit fileLimit s :
  keepsEvent → 0 ≤ memoryLimit →
  openSink marshalRecord decodeRecord lines fileSize scanOK io now memoryLimit fileLimit = Ok s →
  sk_rollup s = emptyRollup.
Proof.
  intros Hk Hl. unfold openSink. destruct (loadLines _ _ _ _ _) as [[nc r]|]; [|done].
  destruct scanOK; [|done]. cbn [negb]. set (s0 := {| sk_retained := _ |}).
  assert (∀ ok s1, compactLocked marshalRecord io s0 = (ok, s1) → sk_rollup s1 = emptyRollup) as Hc.
  { intros ok s1. unfold compactLocked, flushLocked. cbn. intros H.
    repeat (case_match; simplify_eq; try done). }
  destruct nc; [|unfold maybeCompactLocked; destruct (_ || _); [by intros [= <-]|]];
    destruct (compactLocked marshalRecord io s0) as [[] s1] eqn:E; try done; intros [= <-]; by eapply Hc.
Qed.

(** Telemetry cannot exhaust the broker.  At any point of any history the
    rollup's entry count is the number of (hour, application) pairs it holds
    and at most 10000, and the byte count is the size of the retained records;
    after a successful write they fit the memory budget, and one batch has
    raised no application's hourly count by more than 100000, whatever counts
    its events claimed. *)
Lemma telemetry_bounds (lines : list (list byte)) (fileSize : Z) (scanOK : bool) (io : compactIO)
    (now memoryLimit fileLimit : Z) (s : sink) (ops : list sinkOp) :
  keepsEvent → 0 ≤ memoryLimit →
  openSink marshalRecord decodeRecord lines fileSize scanOK io now memoryLimit fileLimit = Ok s →
  let s' := foldl (sinkStep marshalRecord) s ops in
  (entries (sk_rollup s') = pairs (hours (sk_rollup s')) ∧ entries (sk_rollup s') ≤ 10000) ∧
  rt_memoryBytes (sk_retained s') = sumBytes (rt_records (sk_retained s')) ∧
  ∀ wio now' records s'',
    WriteTelemetry marshalRecord wio now' records s' = (Ok tt, s'') →
    rt_memoryBytes (sk_retained s'') ≤ memoryLimit ∧
    ∀ h a, countOf (sk_rollup s'') h a ≤ countOf (sk_rollup s') h a + 100000.
Proof.
  intros Hk Hl Ho s'. pose proof (openSink_counts _ _ _ _ _ _ _ _ Hk Hl Ho) as Hempty.
  apply openSink_ok in Ho as (Hok & Hlim & _); [|done|done].
  destruct (sinkSteps_ok s ops Hk Hok) as [Hok' Hlim']. fold s' in Hok', Hlim'.
  assert (counts_ok (sk_rollup s')) as Hp by (apply sinkSteps_counts; [done|done|by rewrite Hempty]).
  split; [split; [apply (so_rollup s' Hok')|apply (so_rollup s' Hok')]|]. split; [apply (so_retained s' Hok')|].
  intros wio now' records s'' Hw.
  destruct (WriteTelemetry_ok wio now' records s' Hk Hok') as (_ & Hl2 & _ & Hmem).
  destruct (WriteTelemetry_counts wio now' records s' Hk Hok' Hp) as [_ Hc].
  rewrite Hw in Hl2, Hmem, Hc. cbn [fst snd] in *. split; [|exact Hc]. rewrite <- Hlim, <- Hlim', <- Hl2. by apply Hmem.
Qed.
End sink_proofs.

(** * Validation of an event *)
Section validate.
#[local] Set Default Proof Using "Type".
Context {attrRows : MapRange string string} {measureRows : MapRange string Z}.

Definition requiredField (s : string) (max : nat) : bool :=
  negb (str_empty (TrimSpace s)) && (String.length s <=? max)%nat.

Definition validateTelemetryEvent (event : TelemetryEvent) (now : Z) : bool :=
  (ev_SchemaVersion event =? 1) &&
  requiredField (ev_EventID event) 128 && requiredField (ev_Event event) 64 &&
  requiredField (ev_ClientID event) 128 && requiredField (ev_SessionID event) 128 &&
  negb (time_is_zero (ev_OccurredAt event)) &&
  negb (time_after (ev_OccurredAt event) (time_add now maxTelemetryFutureSkew)) &&
  (String.length (ev_RelayID event) <=? 128)%nat &&
  (String.length (ev_Application event) <=? maxTelemetryValueBytes)%nat &&
  (String.length (ev_DestinationIP event) <=? maxTelemetryKeyBytes)%nat &&
  (String.length (ev_Protocol event) <=? maxTelemetryKeyBytes)%nat &&
  (size (ev_Attributes event) <=? 32)%nat && (size (ev_Measurements event) <=? 32)%nat &&
  forallb storableText [ev_EventID event; ev_Event event; ev_ClientID event; ev_SessionID event;
                        ev_RelayID event; ev_Application event; ev_DestinationIP event; ev_Protocol event] &&
  forallb (λ kv, (String.length kv.1 <=? maxTelemetryKeyBytes)%nat &&
                 (String.length kv.2 <=? maxTelemetryValueBytes)%nat &&
                 storableText kv.1 && storableText kv.2) (map_range (ev_Attributes event)) &&
  forallb (λ kv, (String.length kv.1 <=? maxTelemetryKeyBytes)%nat && storableText kv.1)
    (map_range (ev_Measurements event)).
End validate.

(** * Attestation and the gate *)
Definition withClass (r : TelemetryRecord) (class : string) : TelemetryRecord :=
  {| tr_ReceivedAt := tr_ReceivedAt r; tr_SourceIP := tr_SourceIP r; tr_RelayNodeClass := class;
     tr_Event := tr_Event r |}.

(** The distinct relay IDs of a batch, in order. *)
Fixpoint relayIDs (records : list TelemetryRecord) (seen : gset string) : list string :=
  match records with
  | [] => []
  | r :: rest =>
      let id := ev_RelayID (tr_Event r) in
      if str_empty id || bool_decide (id ∈ seen) then relayIDs rest seen
      else id :: relayIDs rest ({[id]} ∪ seen)
  end.

Definition attestTelemetryRelayNodeClasses (st : Store) (records : list TelemetryRecord) (now : Z)
    : list TelemetryRecord :=
  let ids := relayIDs records ∅ in
  if (length ids =? 0)%nat then records else
  let classes := RelayNodeClasses st ids now in
  (λ r, withClass r (default ""%string (classes !! ev_RelayID (tr_Event r)))) <$> records.

(** The ledger forgets an expired entry when it is looked up. *)
Fixpoint gateUnknownRelayTelemetry (records : list TelemetryRecord) (l : relayIDLedger) (now : Z)
    : list TelemetryRecord * relayIDLedger :=
  match records with
  | [] => ([], l)
  | r :: rest =>
      let id := ev_RelayID (tr_Event r) in
      if negb (str_empty id) && str_empty (tr_RelayNodeClass r) then
        if negb (WellFormedRelayID id) then gateUnknownRelayTelemetry rest l now else
        match lookupLedger l id now with
        | (None, l) => gateUnknownRelayTelemetry rest l now
        | (Some class, l) =>
            let '(kept, l) := gateUnknownRelayTelemetry rest l now in (withClass r class :: kept, l)
        end
      else let '(kept, l) := gateUnknownRelayTelemetry rest l now in (r :: kept, l)
  end.

(** * What ingestion vouches for

    The reference: an event is kept with the class the broker itself knows for
    its relay. *)
Definition voucher (st : Store) (l : relayIDLedger) (now : Z) (id : string) : option string :=
  if str_empty id then Some ""%string else
  match relays st !! id with
  | Some d => if live now d then Some (dd_NodeClass d)
              else if WellFormedRelayID id then (lookupLedger l id now).1 else None
  | None => if WellFormedRelayID id then (lookupLedger l id now).1 else None
  end.

Definition vouchedRecords (st : Store) (l : relayIDLedger) (now : Z) (sourceIP : string)
    (events : list TelemetryEvent) : list TelemetryRecord :=
  omap (λ e, (λ class, {| tr_ReceivedAt := now; tr_SourceIP := sourceIP; tr_RelayNodeClass := class;
                          tr_Event := e |}) <$> voucher st l now (ev_RelayID e)) events.

Definition attestedClass (st : Store) (now : Z) (id : string) : string :=
  if str_empty id then ""%string else
  match relays st !! id with
  | Some d => if live now d then dd_NodeClass d else ""%string
  | None => ""%string
  end.

Lemma elem_of_relayIDs records seen id :
  id ∈ relayIDs records seen ↔
  id ≠ ""%string ∧ id ∉ seen ∧ ∃ r, r ∈ records ∧ ev_RelayID (tr_Event r) = id.
Proof.
  revert seen. induction records as [|r rest IH]; intros seen; cbn [relayIDs].
  { split; [by intros ?%elem_of_nil|]. by intros (_ & _ & r & ?%elem_of_nil & _). }
  destruct (str_empty (ev_RelayID (tr_Event r))) eqn:Ee; cbn [orb].
  { apply bool_decide_eq_true in Ee. rewrite IH. set_solver. }
  apply bool_decide_eq_false in Ee. case_bool_decide as Hs; rewrite ?elem_of_cons, IH; [set_solver|].
  split.
  - intros [->|(H1 & H2 & r' & H3 & H4)]; [|set_solver]. split_and!; [done|done|]. exists r. set_solver.
  - intros (H1 & H2 & r' & [->|H3]%elem_of_cons & H4); [by left|].
    destruct (decide (id = ev_RelayID (tr_Event r))) as [->|Hne]; [by left|right].
    split_and!; [done|set_solver|by exists r'].
Qed.

Lemma attest_spec st records now :
  (∀ r, r ∈ records → tr_RelayNodeClass r = ""%string) →
  attestTelemetryRelayNodeClasses st records now =
  (λ r, withClass r (attestedClass st now (ev_RelayID (tr_Event r)))) <$> records.
Proof.
  intros Hc. unfold attestTelemetryRelayNodeClasses. cbv zeta.
  destruct (Nat.eqb_spec (length (relayIDs records ∅)) 0) as [H0|H0].
  - symmetry. rewrite <- (list_fmap_id records) at 2. apply list_fmap_ext. intros i r Hr.
    apply list_elem_of_lookup_2 in Hr. unfold attestedClass.
    assert (ev_RelayID (tr_Event r) = ""%string) as ->.
    { destruct (decide (ev_RelayID (tr_Event r) = ""%string)) as [|Hne]; [done|]. exfalso.
      apply length_zero_iff_nil in H0. assert (ev_RelayID (tr_Event r) ∈ relayIDs records ∅) as Hin.
      { apply elem_of_relayIDs. split_and!; [done|set_solver|by exists r]. }
      rewrite H0 in Hin. by inversion Hin. }
    specialize (Hc r Hr). destruct r. cbn in *. by rewrite Hc.
  - apply list_fmap_ext. intros i r Hr. apply list_elem_of_lookup_2 in Hr. f_equal. unfold attestedClass.
    set (id := ev_RelayID (tr_Event r)). set (ids := relayIDs records ∅).
    pose proof (RelayNodeClasses_spec st ids now id) as Hs. unfold str_empty.
    case_bool_decide as He.
    + destruct (RelayNodeClasses st ids now !! id) as [c|]; [|done]. exfalso.
      destruct (proj1 (Hs c) eq_refl) as [Hin _]. by apply elem_of_relayIDs in Hin as [? _].
    + assert (id ∈ ids) as Hin by (apply elem_of_relayIDs; split_and!; [done|set_solver|by exists r]).
      destruct (relays st !! id) as [d|] eqn:Hd.
      * destruct (live now d) eqn:Hl.
        -- rewrite (proj2 (Hs (dd_NodeClass d))); [done|]. split; [done|]. by exists d.
        -- destruct (RelayNodeClasses st ids now !! id) as [c|]; [|done]. exfalso.
           destruct (proj1 (Hs c) eq_refl) as (_ & d' & Hd' & Hl' & _). congruence.
      * destruct (RelayNodeClasses st ids now !! id) as [c|]; [|done]. exfalso.
        destruct (proj1 (Hs c) eq_refl) as (_ & d' & Hd' & _). congruence.
Qed.

Definition gateRecord (l : relayIDLedger) (now : Z) (r : TelemetryRecord) : option TelemetryRecord :=
  let id := ev_RelayID (tr_Event r) in
  if negb (str_empty id) && str_empty (tr_RelayNodeClass r)
  then if WellFormedRelayID id then withClass r <$> (lookupLedger l id now).1 else None
  else Some r.

Lemma gateRecord_ext l l' now r :
  (∀ id, (lookupLedger l' id now).1 = (lookupLedger l id now).1) → gateRecord l' now r = gateRecord l now r.
Proof. intros H. unfold gateRecord. by rewrite H. Qed.

Lemma omap_ext {A B} (f g : A → option B) (l : list A) : (∀ x, f x = g x) → omap f l = omap g l.
Proof. intros H. induction l as [|x l IH]; [done|]. cbn. rewrite H, IH. done. Qed.

Lemma omap_fmap_comp {A B C} (f : B → option C) (g : A → B) (l : list A) :
  omap f (g <$> l) = omap (λ x, f (g x)) l.
Proof. induction l as [|x l IH]; [done|]. cbn. destruct (f (g x)); [f_equal|]; apply IH. Qed.

Lemma gate_spec records l now :
  let '(kept, l') := gateUnknownRelayTelemetry records l now in
  kept = omap (gateRecord l now) records ∧
  ∀ id, (lookupLedger l' id now).1 = (lookupLedger l id now).1.
Proof.
  revert l. induction records as [|r rest IH]; intros l; cbn [gateUnknownRelayTelemetry]; [done|].
  cbn [omap list_omap]. unfold gateRecord at 1.
  destruct (negb (str_empty (ev_RelayID (tr_Event r))) && str_empty (tr_RelayNodeClass r)).
  2: { specialize (IH l). destruct (gateUnknownRelayTelemetry rest l now) as [kept l'].
       by destruct IH as [-> ?]. }
  destruct (WellFormedRelayID (ev_RelayID (tr_Event r))); cbn [negb]; [|apply IH].
  pose proof (λ id, lookupLedger_keeps l (ev_RelayID (tr_Event r)) id now) as Hkeep.
  destruct (lookupLedger l (ev_RelayID (tr_Event r)) now) as [[class|] l1]; cbn [fst snd fmap option_fmap option_map] in *;
    specialize (IH l1); destruct (gateUnknownRelayTelemetry rest l1 now) as [kept l'];
    destruct IH as [-> Hl]; rewrite (omap_ext (gateRecord l1 now) (gateRecord l now))
      by (intros x; by apply gateRecord_ext); (split; [done|]); intros id; by rewrite Hl.
Qed.

(** Attesting and gating a fresh batch keeps exactly the vouched events. *)
Lemma ingest_spec st l now sourceIP events :
  store_wf st →
  let records := (λ e, {| tr_ReceivedAt := now; tr_SourceIP := sourceIP; tr_RelayNodeClass := ""%string;
                          tr_Event := e |}) <$> events in
  let '(kept, l') := gateUnknownRelayTelemetry (attestTelemetryRelayNodeClasses st records now) l now in
  kept = vouchedRecords st l now sourceIP events ∧
  ∀ id, (lookupLedger l' id now).1 = (lookupLedger l id now).1.
Proof.
  intros Hwf records. rewrite attest_spec by (unfold records; intros r (e & -> & _)%list_elem_of_fmap; done).
  pose proof (gate_spec ((λ r, withClass r (attestedClass st now (ev_RelayID (tr_Event r)))) <$> records) l now) as H.
  destruct (gateUnknownRelayTelemetry _ l now) as [kept l']. destruct H as [-> Hl]. split; [|done]. clear Hl l'.
  unfold vouchedRecords, records. rewrite !omap_fmap_comp. apply omap_ext. intros e. cbn.
  unfold gateRecord. cbn. unfold voucher, attestedClass.
  destruct (str_empty (ev_RelayID e)) eqn:Ee; cbn [negb andb]; [done|].
  destruct (relays st !! ev_RelayID e) as [d|] eqn:Hd.
  - destruct (live now d); [|cbn; by destruct (WellFormedRelayID (ev_RelayID e)), (lookupLedger l (ev_RelayID e) now).1].
    destruct (wf_class st Hwf _ _ Hd) as [Hne _]. by rewrite (bool_decide_eq_false_2 _ Hne : str_empty _ = false).
  - cbn. by destruct (WellFormedRelayID (ev_RelayID e)), (lookupLedger l (ev_RelayID e) now).1.
Qed.

Definition StatusAccepted : Z := 202.

Section ingestion.
#[local] Set Default Proof Using "Type".
Context {attrRows : MapRange string string} {measureRows : MapRange string Z}.
Context {relayRows : MapRange string Descriptor} {sessionRows : MapRange string relaySessionState}.
(** The configured sink and its [WriteTelemetry]; a broker has a store and a
    ledger. *)
Context {S : Type} (writeTelemetry : list TelemetryRecord → S → bool * S).

(** [body] holds the events of a decoded batch; the answer is the status and
    the number accepted. *)
Definition telemetryHandler (configured : bool) (trusted : list Prefix) (r : httpRequest)
    (body : option (list TelemetryEvent)) (now : Z) (st : Store) (l : relayIDLedger) (sink : S)
    : Z * Z * (Store * relayIDLedger * S) :=
  if negb configured then (503, 0, (st, l, sink)) else
  match body with
  | None => (400, 0, (st, l, sink))
  | Some events =>
      if (length events =? 0)%nat || (maxTelemetryEvents <? length events)%nat then (400, 0, (st, l, sink)) else
      if negb (forallb (λ e, validateTelemetryEvent e now) events) then (400, 0, (st, l, sink)) else
      let sourceIP := clientIP trusted r in
      let records := (λ e, {| tr_ReceivedAt := now; tr_SourceIP := sourceIP; tr_RelayNodeClass := "";
                              tr_Event := e |}) <$> events in
      let records := attestTelemetryRelayNodeClasses st records now in
      let '(records, l) := gateUnknownRelayTelemetry records l now in
      if (length records =? 0)%nat then (StatusAccepted, 0, (st, l, sink)) else
      match writeTelemetry records sink with
      | (false, sink) => (500, 0, (st, l, sink))
      | (true, sink) =>
          (StatusAccepted, Z.of_nat (length records), (RecordRelayTelemetry st records now, l, sink))
      end
  end.

(** Telemetry is attributed only to relays the broker vouches for.  A batch
    within the limits and valid throughout is stored as exactly its vouched
    events, in order, stamped with the broker's own clock, the sender's
    resolved address and the class the broker knows for the relay: the live
    lease's, or the ledger's for a relay that lately had one; an event naming
    any other relay is dropped.  Any other batch changes nothing, and no batch
    touches the directory or what the ledger knows. *)
Lemma ingestion_vouched (trusted : list Prefix) (r : httpRequest) (events : list TelemetryEvent) (now : Z)
    (st : Store) (l : relayIDLedger) (sink : S) :
  store_wf st →
  let rs := vouchedRecords st l now (clientIP trusted r) events in
  let '(status, n, (st', l', sink')) := telemetryHandler true trusted r (Some events) now st l sink in
  relays st' = relays st ∧ (∀ id, (lookupLedger l' id now).1 = (lookupLedger l id now).1) ∧
  (if (1 <=? length events)%nat && (length events <=? 200)%nat
      && forallb (λ e, validateTelemetryEvent e now) events
   then
     match rs with
     | [] => status = 202 ∧ n = 0 ∧ st' = st ∧ sink' = sink
     | _ :: _ =>
         sink' = (writeTelemetry rs sink).2 ∧
         if (writeTelemetry rs sink).1
         then status = 202 ∧ n = Z.of_nat (length rs) ∧ st' = RecordRelayTelemetry st rs now
         else status = 500 ∧ n = 0 ∧ st' = st
     end
   else status = 400 ∧ n = 0 ∧ (st', l', sink') = (st, l, sink)).
Proof.
  intros Hwf rs. unfold telemetryHandler. cbn [negb].
  assert ((length events =? 0)%nat || (maxTelemetryEvents <? length events)%nat =
          negb ((1 <=? length events)%nat && (length events <=? 200)%nat)) as ->.
  { unfold maxTelemetryEvents. destruct (Nat.eqb_spec (length events) 0), (Nat.ltb_spec 200 (length events)),
      (Nat.leb_spec 1 (length events)), (Nat.leb_spec (length events) 200); done || lia. }
  destruct (_ && _); cbn [negb andb]; [|by split_and!].
  destruct (forallb _ events); cbn [negb]; [|by split_and!].
  pose proof (ingest_spec st l now (clientIP trusted r) events Hwf) as H. cbv zeta in H. cbv zeta.
  destruct (gateUnknownRelayTelemetry _ l now) as [kept l']. destruct H as [-> Hl]. fold rs.
  destruct rs as [|x rs']; [by split_and!|]. cbn [length Nat.eqb].
  destruct (writeTelemetry (x :: rs') sink) as [[] sink']; split_and!; try done. apply telemetry_relays.
Qed.
End ingestion.

(** * Deduplicating discovery events *)
Definition clientSeenDedupWindow : Z := 4 * minute.
Definition clientSeenDedupMaxEntries : Z := 10000.

Record clientSeenDeduper := { cs_window : Z; cs_maxEntries : Z; cs_seen : gmap string Z }.

Definition newClientSeenDeduper (window maxEntries : Z) : clientSeenDeduper :=
  {| cs_window := window; cs_maxEntries := maxEntries; cs_seen := ∅ |}.

Definition clientSeenKey (clientID sessionID : string) : string :=
  text (bytes clientID ++ chr 0 :: bytes sessionID).

Definition shouldRecord (d : clientSeenDeduper) (clientID sessionID : string) (now : Z)
    : bool * clientSeenDeduper :=
  let key := clientSeenKey clientID sessionID in
  if match cs_seen d !! key with Some last => time_sub now last <? cs_window d | None => false end
  then (false, d) else
  let seen := if cs_maxEntries d <=? Z.of_nat (size (cs_seen d))
              then filter (λ kv, time_sub now kv.2 < cs_window d) (cs_seen d) else cs_seen d in
  let seen := if Z.of_nat (size seen) <? cs_maxEntries d then <[key := now]> seen else seen in
  (true, {| cs_window := cs_window d; cs_maxEntries := cs_maxEntries d; cs_seen := seen |}).

Definition storableHeaderValue (s : string) : string := if storableText s then s else "".

(** The event of a discovery request, [None] when nothing is recorded.  The
    arguments are the four request headers. *)
Definition recordClientSeen (d : clientSeenDeduper) (trusted : list Prefix) (r : httpRequest)
    (clientID sessionID appVersion androidAPI : string) (now : Z) : option TelemetryRecord * clientSeenDeduper :=
  let clientID := TrimSpace clientID in
  let sessionID := TrimSpace sessionID in
  if str_empty clientID || str_empty sessionID || (128 <? String.length clientID)%nat
     || (128 <? String.length sessionID)%nat then (None, d) else
  if negb (storableText clientID) || negb (storableText sessionID) then (None, d) else
  match shouldRecord d clientID sessionID now with
  | (false, d) => (None, d)
  | (true, d) =>
      (Some {| tr_ReceivedAt := now; tr_SourceIP := clientIP trusted r; tr_RelayNodeClass := "";
               tr_Event :=
                 {| ev_SchemaVersion := 1; ev_EventID := "client-seen-" +:+ sessionID; ev_Event := "client_seen";
                    ev_OccurredAt := now; ev_ClientID := clientID; ev_SessionID := sessionID; ev_RelayID := "";
                    ev_Application := ""; ev_ApplicationID := 0; ev_DestinationIP := ""; ev_DestinationPort := 0;
                    ev_Protocol := "";
                    ev_Attributes := <["app_version"%string := storableHeaderValue appVersion]>
                                       {["android_api"%string := storableHeaderValue androidAPI]};
                    ev_Measurements := ∅ |} |}, d)
  end.

(** The table stays bounded, and a request is suppressed exactly when the same
    client session was recorded within the window. *)
Lemma shouldRecord_spec d c s now :
  0 ≤ cs_maxEntries d → Z.of_nat (size (cs_seen d)) ≤ cs_maxEntries d →
  let '(ok, d') := shouldRecord d c s now in
  Z.of_nat (size (cs_seen d')) ≤ cs_maxEntries d' ∧
  (ok = false ↔ ∃ last, cs_seen d !! clientSeenKey c s = Some last ∧ time_sub now last < cs_window d) ∧
  (∀ key last, cs_seen d' !! key = Some last → last = now ∨ cs_seen d !! key = Some last).
Proof.
  intros Hm Hs. unfold shouldRecord. set (key := clientSeenKey c s). cbv zeta.
  set (recent := match cs_seen d !! key with Some last => _ | None => false end).
  assert (recent = true ↔ ∃ last, cs_seen d !! key = Some last ∧ time_sub now last < cs_window d) as Hr.
  { unfold recent. destruct (cs_seen d !! key) as [last|]; [|split; [done|by intros (? & ? & _)]].
    rewrite Z.ltb_lt. split; [by exists last|by intros (x & [= ->] & ?)]. }
  destruct recent.
  { split_and!; [done| |by right]. split; [intros _; by apply Hr|done]. }
  set (seen := if _ <=? _ then _ else _).
  assert (∀ k v, seen !! k = Some v → cs_seen d !! k = Some v) as Hsub.
  { unfold seen. intros k v. destruct (_ <=? _); [|done]. by intros [H _]%map_lookup_filter_Some. }
  assert (size seen ≤ size (cs_seen d))%nat as Hsz.
  { apply map_subseteq_size, map_subseteq_spec, Hsub. }
  split_and!; cbn [cs_seen cs_maxEntries].
  - destruct (Z.ltb_spec (Z.of_nat (size seen)) (cs_maxEntries d)) as [Hlt|]; [|lia].
    rewrite map_size_insert. destruct (seen !! key); cbn; lia.
  - split; [done|]. intros H. apply Hr in H. done.
  - intros k v. destruct (_ <? _); [|by right; apply Hsub].
    intros [[_ <-]|[_ H]]%lookup_insert_Some; [by left|right; by apply Hsub].
Qed.

(** * A concrete history *)
#[local] Instance hourRows : MapRange Z (gmap string Z) := map_to_list_range.
#[local] Instance attrRows : MapRange string string := map_to_list_range.
#[local] Instance measureRows : MapRange string Z := map_to_list_range.

Definition eventNamed (name relayID app : string) (count : Z) : TelemetryEvent :=
  {| ev_SchemaVersion := 1; ev_EventID := "e"; ev_Event := name; ev_OccurredAt := exampleNow; ev_ClientID := "c";
     ev_SessionID := "s"; ev_RelayID := relayID; ev_Application := app; ev_ApplicationID := 0;
     ev_DestinationIP := ""; ev_DestinationPort := 0; ev_Protocol := ""; ev_Attributes := ∅;
     ev_Measurements := {["connection_count"%string := count]} |}.
Definition recordNamed (name app : string) (count : Z) : TelemetryRecord :=
  {| tr_ReceivedAt := exampleNow; tr_SourceIP := "203.0.113.7"; tr_RelayNodeClass := "";
     tr_Event := eventNamed name "" app count |}.

(** A codec of event names. *)
Definition nameMarshal (r : TelemetryRecord) : option (list byte) := Some (bytes (ev_Event (tr_Event r))).
Definition nameDecode (line : list byte) : option TelemetryRecord := Some (recordNamed (text line) "app" 1).

Lemma nameCodec : keepsEvent nameMarshal nameDecode.
Proof. intros r line [= <-]. eexists. split; [done|]. cbn. apply text_bytes. Qed.

Definition goodIO : compactIO :=
  {| cio_flush := true; cio_create := true; cio_write := true; cio_rename := true; cio_seek := true |}.
Definition sinkHistory : list sinkOp :=
  [OpWrite {| wio_write := λ _, true; wio_compact := goodIO |} exampleNow
     [recordNamed "application_connection" "org.example" 500000; recordNamed "session_heartbeat" "" 1];
   OpFlush true].
Definition openedSink : result sinkError sink :=
  openSink nameMarshal nameDecode [bytes "application_connection"; bytes "client_seen"] 36 true goodIO
    exampleNow 1000 4000.

Lemma telemetry_privacy_witness :
  ∃ s, openedSink = Ok s ∧
    let s' := foldl (sinkStep nameMarshal) s sinkHistory in
    sk_file s' = [bytes "client_seen"; bytes "session_heartbeat"] ∧
    ∀ line r, line ∈ sk_file s' → nameDecode line = Some r → ev_Event (tr_Event r) ≠ telemetryAppConnectionEvent.
Proof.
  destruct openedSink as [s|] eqn:Ho; [|vm_compute in Ho; discriminate].
  exists s. split; [reflexivity|]. split; [vm_compute in Ho; injection Ho as <-; vm_compute; reflexivity|].
  refine (proj1 (telemetry_privacy nameMarshal nameDecode _ 36 true goodIO exampleNow 1000 4000 s sinkHistory
    nameCodec _ Ho)). lia.
Defined.

Lemma telemetry_bounds_witness :
  ∃ s s'', openedSink = Ok s ∧
    WriteTelemetry nameMarshal {| wio_write := λ _, true; wio_compact := goodIO |} exampleNow
      [recordNamed "application_connection" "org.example" 60000;
       recordNamed "application_connection" "org.example" 60000] s = (Ok tt, s'') ∧
    ∀ h a, countOf (sk_rollup s'') h a ≤ countOf (sk_rollup s) h a + 100000.
Proof.
  destruct openedSink as [s|] eqn:Ho; [|vm_compute in Ho; discriminate].
  destruct (WriteTelemetry nameMarshal {| wio_write := λ _, true; wio_compact := goodIO |} exampleNow
    [recordNamed "application_connection" "org.example" 60000;
     recordNamed "application_connection" "org.example" 60000] s) as [[[]|] s''] eqn:Hw.
  2: { clear -Ho Hw. vm_compute in Ho. injection Ho as <-. vm_compute in Hw. discriminate. }
  exists s, s''. split; [reflexivity|]. split; [exact Hw|].
  destruct (telemetry_bounds nameMarshal nameDecode _ 36 true goodIO exampleNow 1000 4000 s [] nameCodec
    ltac:(lia) Ho) as (_ & _ & H).
  exact (proj2 (H _ _ _ _ Hw)).
Defined.

Lemma ingestion_vouched_witness :
  let events := [eventNamed "session_heartbeat" ticketRelayID "" 1;
                 eventNamed "session_heartbeat" "relay_00000000000000000000000000000000" "" 1] in
  let '(status, n, _) :=
    telemetryHandler (λ rs (kept : list TelemetryRecord), (true, kept ++ rs)) true [] exampleHTTP
      (Some events) exampleNow ticketStore (newRelayIDLedger hour 100) [] in
  (status = 202 ∧ n = 1) ∧
  vouchedRecords ticketStore (newRelayIDLedger hour 100) exampleNow "203.0.113.7" events =
    [{| tr_ReceivedAt := exampleNow; tr_SourceIP := "203.0.113.7"; tr_RelayNodeClass := NodeClassFoundation;
        tr_Event := eventNamed "session_heartbeat" ticketRelayID "" 1 |}].
Proof.
  intros events.
  pose proof (ingestion_vouched (λ rs (kept : list TelemetryRecord), (true, kept ++ rs)) [] exampleHTTP events
    exampleNow ticketStore (newRelayIDLedger hour 100) [] ticketStore_wf) as H. cbv zeta in H.
  destruct (telemetryHandler _ true [] exampleHTTP (Some events) exampleNow ticketStore
    (newRelayIDLedger hour 100) []) as [[status n] [[st' l'] sink']].
  destruct H as (_ & _ & H). vm_compute in H. destruct H as (_ & -> & -> & _).
  split; [split; reflexivity|vm_compute; reflexivity].
Defined.
