(* ===== verification/Outbox.v ===== *)
(** The client's on-disk telemetry outbox
    (src/libs/connectcore/clienttelemetry/outbox.go): the queue cap, the choice
    of one upload batch, the NDJSON file with its append, rewrite and load, and
    the operations over them.

    Each method body between taking and releasing the mutex is one step; the
    uploads in between are two steps with whatever other calls did meanwhile.
    The file is its bytes; what the operating system answers is an input
    ([IO]), a short write included.  The JSON codec is the interface
    [EventJSON]. *)
From stdpp Require Import base list gmap strings.
From Stdlib Require Import ZArith Lia.
From S2P Require Import Prelude Codec Discovery.

(** brokerapi.TelemetryEvent; a nil map and an empty one are both left out of
    the JSON and are the empty map. *)
Record Event := {
  e_SchemaVersion : Z;
  e_EventID : string;
  e_Event : string;
  e_OccurredAt : Z;
  e_ClientID : string;
  e_SessionID : string;
  e_RelayID : string;
  e_Application : string;
  e_ApplicationID : Z;
  e_Attributes : gmap string string;
  e_Measurements : gmap string Z
}.
#[global] Instance Event_eq_dec : EqDecision Event.
Proof. solve_decision. Defined.

Definition withAttributes (a : gmap string string) (e : Event) : Event :=
  {| e_SchemaVersion := e_SchemaVersion e; e_EventID := e_EventID e; e_Event := e_Event e;
     e_OccurredAt := e_OccurredAt e; e_ClientID := e_ClientID e; e_SessionID := e_SessionID e;
     e_RelayID := e_RelayID e; e_Application := e_Application e; e_ApplicationID := e_ApplicationID e;
     e_Attributes := a; e_Measurements := e_Measurements e |}.

Definition OutboxMaxQueued : nat := 500.
Definition outboxBatchSize : Z := 200.
Definition outboxCompactThreshold : Z := 2 * Z.of_nat OutboxMaxQueued.
Definition applicationConnectionEvent : string := "application_connection".
Definition applicationCountKey : string := "connection_count".
Definition maxReportedFlows : Z := 100000.
Definition MaxTelemetryBodyBytes : Z := Z.shiftl 512 10.
Definition outboxBatchByteBudget : Z := MaxTelemetryBodyBytes - 1024.

Inductive OutboxError :=
| ErrOutboxUnavailable
| ErrInvalidTelemetryEvent
| ErrOutboxClosed
| ErrBatchRejected   (* the transport's error, wrapping ErrBatchRejected *)
| ErrBrokerURL       (* brokerapi.TelemetryURL refused the broker URL *)
| ErrSend            (* any other transport error *)
| ErrCanceled.       (* the context ended *)
#[global] Instance OutboxError_eq_dec : EqDecision OutboxError.
Proof. solve_decision. Defined.

(** * Events *)
Definition isApplicationConnection (e : Event) : bool := str_eqb (e_Event e) applicationConnectionEvent.

Definition sanitizeOutboxEvent (e : Event) : Event :=
  if isApplicationConnection e && bool_decide (e_Attributes e ≠ ∅) then withAttributes ∅ e else e.

Definition validateOutboxEvent (e : Event) : option Event :=
  if str_empty (e_EventID e) || str_empty (e_Event e) || str_empty (e_ClientID e) || str_empty (e_SessionID e)
  then None else Some (sanitizeOutboxEvent e).

Definition applicationConnectionCount (e : Event) : Z :=
  match e_Measurements e !! applicationCountKey with
  | None => 1
  | Some count => if (count <? 1) || (maxReportedFlows <? count) then 1 else count
  end.

Definition sameIdentity (first e : Event) : bool :=
  str_eqb (e_ClientID e) (e_ClientID first) && str_eqb (e_SessionID e) (e_SessionID first).

(** What the geo back-patch leaves of an event's attributes: a missing key
    reads as the empty string and a value already there is not written. *)
Definition patchAttributes (old attributes : gmap string string) : gmap string string :=
  merge (λ new cur, match new with
                    | Some v => if str_eqb (default ""%string cur) v then cur else Some v
                    | None => cur
                    end) attributes old.

(** * The codec *)

(** The fields [outboxLineNeedsScrub] probes of a stored line: how many
    attributes, and whether the removed keys are there. *)
Record scrubProbe := {
  pb_Attributes : nat;
  pb_DestinationIP : bool;
  pb_DestinationPort : bool;
  pb_Protocol : bool
}.

Definition brace : byte := chr 123.
Definition bracket : byte := chr 91.
Definition newline : byte := chr 10.

(** encoding/json on one event.  [marshalEvent] fails on an event that has no
    JSON form (a year past 9999).  [coerced] is what the encoding keeps of an
    event: invalid UTF-8 becomes U+FFFD, which neither empties a string nor
    makes one the ASCII name of an event kind.  [arrayMessages] is the streaming
    decoder over a document that starts with a bracket: the raw elements it
    yields before the first error. *)
Class EventJSON := {
  marshalEvent : Event → option (list byte);
  decodeEvent : list byte → option Event;
  decodeProbe : list byte → option scrubProbe;
  arrayMessages : list byte → list (list byte);
  coerced : Event → Event;
  event_roundtrip e b : marshalEvent e = Some b → decodeEvent b = Some (coerced e);
  event_probe e b : marshalEvent e = Some b →
    decodeProbe b = Some {| pb_Attributes := size (e_Attributes (coerced e));
                            pb_DestinationIP := false; pb_DestinationPort := false; pb_Protocol := false |};
  event_object e b : marshalEvent e = Some b → head b = Some brace;
  event_one_line e b : marshalEvent e = Some b → lacks 10 b = true;
  coerced_valid e : validateOutboxEvent (coerced e) = coerced <$> validateOutboxEvent e
}.

(** * One upload batch *)
Record selection := {
  batch : list Event;
  oversized : list Event;
  representedByApplication : gmap string Z;
  deferredApplications : gset string;
  totalBytes : Z
}.

Definition emptySelection : selection :=
  {| batch := []; oversized := []; representedByApplication := ∅; deferredApplications := ∅; totalBytes := 0 |}.

Section batches.
Context `{EventJSON}.

(** [len(line) + 1], or nothing when the event does not marshal. *)
Definition eventSize (e : Event) : option Z :=
  (λ line, Z.of_nat (length line) + 1) <$> marshalEvent e.

Definition addOversized (e : Event) (s : selection) : selection :=
  {| batch := batch s; oversized := oversized s ++ [e];
     representedByApplication := representedByApplication s;
     deferredApplications := deferredApplications s; totalBytes := totalBytes s |}.

Definition addEvent (e : Event) (size : Z) (s : selection) : selection :=
  {| batch := batch s ++ [e]; oversized := oversized s;
     representedByApplication := representedByApplication s;
     deferredApplications := deferredApplications s; totalBytes := totalBytes s + size |}.

(** One application row that fits in bytes: deferred, or counted and added. *)
Definition addApplication (e : Event) (size : Z) (s : selection) : selection :=
  let application := e_Application e in
  if bool_decide (application ∈ deferredApplications s) then s else
  let count := applicationConnectionCount e in
  let used := default 0 (representedByApplication s !! application) in
  if maxReportedFlows - used <? count then
    {| batch := batch s; oversized := oversized s;
       representedByApplication := representedByApplication s;
       deferredApplications := {[application]} ∪ deferredApplications s; totalBytes := totalBytes s |}
  else
    {| batch := batch s ++ [e]; oversized := oversized s;
       representedByApplication := <[application := used + count]> (representedByApplication s);
       deferredApplications := deferredApplications s; totalBytes := totalBytes s + size |}.

Fixpoint selectLoop (first : Event) (limit byteBudget : Z) (events : list Event) (s : selection) : selection :=
  match events with
  | [] => s
  | e :: events' =>
      if negb (sameIdentity first e) then s else
      if limit <=? Z.of_nat (length (batch s)) then s else
      match eventSize e with
      | None => selectLoop first limit byteBudget events' (addOversized e s)
      | Some size =>
          if byteBudget <? size then selectLoop first limit byteBudget events' (addOversized e s) else
          if byteBudget <? totalBytes s + size then s else
          if negb (isApplicationConnection e)
          then selectLoop first limit byteBudget events' (addEvent e size s)
          else selectLoop first limit byteBudget events' (addApplication e size s)
      end
  end.

(** The batch and the unsendable events; the copies the code makes of the
    maps of a batch entry are the values themselves. *)
Definition outboxUploadBatch (events : list Event) (limit byteBudget : Z) : list Event * list Event :=
  match events with
  | [] => ([], [])
  | first :: _ =>
      if limit <=? 0 then ([], []) else
      let s := selectLoop first limit byteBudget events emptySelection in (batch s, oversized s)
  end.
End batches.

(** * The file and the operations *)

(** What opening the file for appending and writing to it did. *)
Inductive appendOutcome :=
| AppendOK
| AppendOpenFailed
| AppendWrote (k : nat).  (* an error after [k] bytes reached the file *)

(** The operating system's answers during one method: the lock on its first
    load, the read, the rewrite a load ends in, the append, the fallback
    rewrite, and whether directory and file syncs succeed. *)
Record IO := {
  io_Lock : bool;
  io_Read : bool;
  io_LoadRewrite : bool;
  io_Append : appendOutcome;
  io_Rewrite : bool;
  io_DirSync : bool;
  io_Sync : bool
}.

(** The file at the outbox path, if any, and whether all of it is on stable
    storage. *)
Record disk := { d_File : option (list byte); d_Stable : bool }.

Record Outbox := {
  o_lockFile : bool;
  o_loaded : bool;
  o_events : list Event;
  o_fileLines : Z;
  o_closed : bool
}.

Record world := { w_outbox : Outbox; w_disk : disk }.

Definition newOutbox : Outbox :=
  {| o_lockFile := false; o_loaded := false; o_events := []; o_fileLines := 0; o_closed := false |}.

Definition setEvents (l : list Event) (o : Outbox) : Outbox :=
  {| o_lockFile := o_lockFile o; o_loaded := o_loaded o; o_events := l; o_fileLines := o_fileLines o;
     o_closed := o_closed o |}.

Definition setCache (loaded : bool) (l : list Event) (lines : Z) (o : Outbox) : Outbox :=
  {| o_lockFile := o_lockFile o; o_loaded := loaded; o_events := l; o_fileLines := lines; o_closed := o_closed o |}.

Definition setLines (lines : Z) (o : Outbox) : Outbox :=
  {| o_lockFile := o_lockFile o; o_loaded := o_loaded o; o_events := o_events o; o_fileLines := lines;
     o_closed := o_closed o |}.

Definition takeLock (o : Outbox) : Outbox :=
  {| o_lockFile := true; o_loaded := o_loaded o; o_events := o_events o; o_fileLines := o_fileLines o;
     o_closed := o_closed o |}.

Definition onOutbox (f : Outbox → Outbox) (w : world) : world :=
  {| w_outbox := f (w_outbox w); w_disk := w_disk w |}.

(** The newest [OutboxMaxQueued] of a queue. *)
Definition capQueue (l : list Event) : list Event := drop (length l - OutboxMaxQueued) l.

Section operations.
Context `{EventJSON}.

(** A line of the file and its newline. *)
Definition eventLine (e : Event) : option (list byte) := (λ b, b ++ [newline]) <$> marshalEvent e.

(** [rewriteLocked]'s content: events that do not marshal are left out. *)
Definition fileOf (l : list Event) : list byte := concat (omap eventLine l).

Definition rewriteLocked (ok dirSync : bool) (w : world) : world * bool :=
  if ok
  then ({| w_outbox := setLines (Z.of_nat (length (o_events (w_outbox w)))) (w_outbox w);
           w_disk := {| d_File := Some (fileOf (o_events (w_outbox w))); d_Stable := dirSync |} |}, true)
  else (w, false).

Definition appendOutboxFile (lines : list byte) (out : appendOutcome) (d : disk) : disk * bool :=
  let old := default [] (d_File d) in
  match out with
  | AppendOK => ({| d_File := Some (old ++ lines); d_Stable := false |}, true)
  | AppendOpenFailed => (d, false)
  | AppendWrote k => ({| d_File := Some (old ++ take k lines); d_Stable := false |}, false)
  end.

(** [appendLocked] once loaded: the cache, then the file, then the rewrite a
    failed append or too many lines fall back to. *)
Definition appendLocked (events : list Event) (io : IO) (w : world) : world * bool :=
  let w := onOutbox (λ o, setEvents (capQueue (o_events o ++ events)) o) w in
  let '(w, appendable) :=
    match mapM eventLine events with
    | None => (w, false)
    | Some lines =>
        let '(d, ok) := appendOutboxFile (concat lines) (io_Append io) (w_disk w) in
        ({| w_outbox := setLines (o_fileLines (w_outbox w) + Z.of_nat (length events)) (w_outbox w);
            w_disk := d |}, ok)
    end in
  if negb appendable || (outboxCompactThreshold <? o_fileLines (w_outbox w))
  then rewriteLocked (io_Rewrite io) (io_DirSync io) w
  else (w, true).

Definition outboxLineNeedsScrub (line : list byte) (e : Event) : bool :=
  match decodeProbe line with
  | None => false
  | Some p =>
      if pb_DestinationIP p || pb_DestinationPort p || pb_Protocol p then true
      else isApplicationConnection e && (0 <? pb_Attributes p)%nat
  end.

Definition decodeOutboxEvent (line : list byte) : option Event := decodeEvent line ≫= validateOutboxEvent.

(** The lines of a stored file that are not blank. *)
Definition sourceLines (raw : list byte) : list (list byte) :=
  List.filter (λ line, negb (str_empty (TrimSpace (text line)))) (splitOn 10 raw).

(** The parsed events, whether the file must be rewritten, and the number of
    lines counted against them. *)
Definition parseOutbox (raw : list byte) : list Event * bool * nat :=
  if bool_decide (head raw = Some bracket)
  then (omap decodeOutboxEvent (arrayMessages raw), true, 0%nat)
  else
    let lines := sourceLines raw in
    let scrubbed line := match decodeOutboxEvent line with
                         | Some e => outboxLineNeedsScrub line e
                         | None => false
                         end in
    (omap decodeOutboxEvent lines,
     bool_decide (last raw ≠ Some newline) || existsb scrubbed lines,
     length lines).

Definition loadLocked (io : IO) (w : world) : world * bool :=
  let o := w_outbox w in
  if o_loaded o then (w, true) else
  if negb (o_lockFile o) && negb (io_Lock io) then (w, false) else
  let w := onOutbox takeLock w in
  if negb (io_Read io) then (w, false) else
  match d_File (w_disk w) with
  | None | Some [] => (onOutbox (setCache true [] 0) w, true)
  | Some raw =>
      let '(parsed, dirty, sources) := parseOutbox raw in
      let events := capQueue (sanitizeOutboxEvent <$> parsed) in
      let w := onOutbox (setCache true events (Z.of_nat (length events))) w in
      if dirty || negb (sources =? length events)%nat then
        let '(w, ok) := rewriteLocked (io_LoadRewrite io) (io_DirSync io) w in
        if ok then (w, true) else (onOutbox (setCache false [] 0) w, false)
      else (w, true)
  end.

(** [o.closed || !o.loadLocked()], the guard of every operation. *)
Definition ready (io : IO) (w : world) : world * bool :=
  if o_closed (w_outbox w) then (w, false) else loadLocked io w.

Definition Enqueue (e : Event) (io : IO) (w : world) : world * bool :=
  match validateOutboxEvent e with
  | None => (w, false)
  | Some e =>
      let '(w, ok) := ready io w in
      if negb ok then (w, false) else ((appendLocked [e] io w).1, true)
  end.

Definition syncOutboxFile (ok : bool) (w : world) : world * bool :=
  if ok then ({| w_outbox := w_outbox w;
                 w_disk := {| d_File := d_File (w_disk w); d_Stable := true |} |}, true)
  else (w, false).

Definition EnqueueBatch (events : list Event) (io : IO) (w : world) : world * Z :=
  match omap validateOutboxEvent events with
  | [] => (w, 0)
  | valid =>
      let '(w, ok) := ready io w in
      if negb ok then (w, -1) else
      let '(w, ok) := appendLocked valid io w in
      if negb ok then (w, -1) else
      let '(w, ok) := syncOutboxFile (io_Sync io) w in
      if negb ok then (w, -1) else (w, Z.of_nat (length valid))
  end.

Definition patchEvent (sessionID : string) (attributes : gmap string string) (e : Event) : Event :=
  if negb (str_eqb (e_SessionID e) sessionID) || isApplicationConnection e then e
  else withAttributes (patchAttributes (e_Attributes e) attributes) e.

Definition ApplySessionAttributes (sessionID : string) (attributes : gmap string string)
    (io : IO) (w : world) : world * bool :=
  if str_empty sessionID || bool_decide (attributes = ∅) then (w, false) else
  let '(w, ok) := ready io w in
  if negb ok then (w, false) else
  let patched := patchEvent sessionID attributes <$> o_events (w_outbox w) in
  let changed := bool_decide (patched ≠ o_events (w_outbox w)) in
  let w := onOutbox (setEvents patched) w in
  if changed then ((rewriteLocked (io_Rewrite io) (io_DirSync io) w).1, true) else (w, false).

Definition PendingCount (io : IO) (w : world) : world * nat :=
  let '(w, ok) := ready io w in
  if negb ok then (w, 0%nat) else (w, length (o_events (w_outbox w))).

Definition sentIn (sent : list Event) (e : Event) : bool := existsb (λ s, str_eqb (e_EventID s) (e_EventID e)) sent.

Definition removeSent (sent : list Event) (io : IO) (w : world) : world * nat :=
  let o := w_outbox w in
  if o_closed o then (w, length (o_events o)) else
  let kept := List.filter (λ e, negb (sentIn sent e)) (o_events o) in
  let removed := existsb (sentIn sent) (o_events o) in
  let w := onOutbox (setEvents kept) w in
  let w := if removed then (rewriteLocked (io_Rewrite io) (io_DirSync io) w).1 else w in
  (w, length (o_events (w_outbox w))).

Definition Close (w : world) : world :=
  onOutbox (λ o, {| o_lockFile := false; o_loaded := o_loaded o; o_events := o_events o;
                    o_fileLines := o_fileLines o; o_closed := true |}) w.

(** The URL check before the host's send function. *)
Definition post (telemetryURL : option string) (send : list Event → option OutboxError) (events : list Event)
    : option OutboxError :=
  match telemetryURL with
  | None => Some ErrBrokerURL
  | Some _ => send events
  end.

(** The first critical section of [FlushNextBatch]. *)
Definition flushSelect (io : IO) (w : world) : world * result OutboxError (list Event * list Event * nat) :=
  if o_closed (w_outbox w) then (w, Err ErrOutboxClosed) else
  let '(w, ok) := loadLocked io w in
  if negb ok then (w, Err ErrOutboxUnavailable) else
  let events := o_events (w_outbox w) in
  let '(b, over) := outboxUploadBatch events outboxBatchSize outboxBatchByteBudget in
  (w, Ok (b, over, length events)).

Definition discardOversized (over : list Event) (pending : nat) (io : IO) (w : world) : world * nat :=
  match over with
  | [] => (w, pending)
  | _ => removeSent over io w
  end.

Record flushResult := { fr_Sent : nat; fr_Pending : nat; fr_Err : option OutboxError }.

(** [FlushNextBatch]: [before] and [during] are what other calls did between
    its critical sections, before and during the upload. *)
Definition FlushNextBatch (telemetryURL : option string) (send : list Event → option OutboxError)
    (before during : world → world) (io ioOver ioSent : IO) (w : world) : world * flushResult :=
  let '(w, r) := flushSelect io w in
  match r with
  | Err err => (w, {| fr_Sent := 0; fr_Pending := 0; fr_Err := Some err |})
  | Ok (b, over, pending) =>
      let '(w, pending) := discardOversized over pending ioOver (before w) in
      match b with
      | [] => (w, {| fr_Sent := 0; fr_Pending := pending; fr_Err := None |})
      | _ =>
          let w := during w in
          match post telemetryURL send b with
          | Some ErrBatchRejected =>
              let '(w, remaining) := removeSent b ioSent w in
              (w, {| fr_Sent := 0; fr_Pending := remaining; fr_Err := Some ErrBatchRejected |})
          | Some err => (w, {| fr_Sent := 0; fr_Pending := pending; fr_Err := Some err |})
          | None =>
              let '(w, remaining) := removeSent b ioSent w in
              (w, {| fr_Sent := length b; fr_Pending := remaining; fr_Err := None |})
          end
      end
  end.

Definition heartbeatBudget (heartbeat : Event) : Z :=
  outboxBatchByteBudget - default 0 (eventSize heartbeat).

(** The first critical section of [SendHeartbeat]. *)
Definition heartbeatSelect (heartbeat : Event) (io : IO) (w : world)
    : world * result OutboxError (list Event * list Event * nat) :=
  if o_closed (w_outbox w) then (w, Err ErrOutboxClosed) else
  let w := (loadLocked io w).1 in
  let events := o_events (w_outbox w) in
  let '(b, over) :=
    match events with
    | first :: _ =>
        if sameIdentity heartbeat first
        then outboxUploadBatch events (outboxBatchSize - 1) (heartbeatBudget heartbeat) else ([], [])
    | [] => ([], [])
    end in
  (w, Ok (b, over, length events)).

Definition SendHeartbeat (telemetryURL : option string) (send : list Event → option OutboxError)
    (before during : world → world) (heartbeat : Event) (io ioOver ioSent : IO) (w : world)
    : world * flushResult :=
  match validateOutboxEvent heartbeat with
  | None =>
      let '(w, pending) := PendingCount io w in
      (w, {| fr_Sent := 0; fr_Pending := pending; fr_Err := Some ErrInvalidTelemetryEvent |})
  | Some heartbeat =>
      let '(w, r) := heartbeatSelect heartbeat io w in
      match r with
      | Err err => (w, {| fr_Sent := 0; fr_Pending := 0; fr_Err := Some err |})
      | Ok (b, over, pending) =>
          let '(w, pending) := discardOversized over pending ioOver (before w) in
          let w := during w in
          match post telemetryURL send (b ++ [heartbeat]) with
          | Some err => (w, {| fr_Sent := 0; fr_Pending := pending; fr_Err := Some err |})
          | None =>
              let '(w, pending) := match b with [] => (w, pending) | _ => removeSent b ioSent w end in
              (w, {| fr_Sent := S (length b); fr_Pending := pending; fr_Err := None |})
          end
      end
  end.
End operations.

(** * What a selection promises *)

(** The represented flows of one application in a list of events. *)
Definition flowsOf (application : string) (l : list Event) : Z :=
  foldr (λ e acc, (if isApplicationConnection e && str_eqb (e_Application e) application
                   then applicationConnectionCount e else 0) + acc) 0 l.

Lemma flowsOf_app a l k : flowsOf a (l ++ k) = flowsOf a l + flowsOf a k.
Proof. induction l as [|e l IH]; simpl; [done|]. rewrite IH. lia. Qed.

Lemma applicationConnectionCount_range e : 1 ≤ applicationConnectionCount e ≤ maxReportedFlows.
Proof.
  unfold applicationConnectionCount, maxReportedFlows.
  destruct (e_Measurements e !! applicationCountKey) as [c|]; [|lia].
  destruct (Z.ltb_spec c 1), (Z.ltb_spec 100000 c); simpl; lia.
Qed.

Section batch_facts.
Context `{EventJSON}.
#[local] Set Default Proof Using "Type".

(** The bytes a list of events takes of a request. *)
Definition requestBytes (l : list Event) : Z :=
  foldr (λ e acc, default 0 (eventSize e) + acc) 0 l.

Lemma requestBytes_app l k : requestBytes (l ++ k) = requestBytes l + requestBytes k.
Proof. induction l as [|e l IH]; simpl; [done|]. rewrite IH. lia. Qed.

Lemma eventSize_pos e n : eventSize e = Some n → 0 < n.
Proof. unfold eventSize. destruct (marshalEvent e); simpl; intros; simplify_eq; lia. Qed.

Lemma requestBytes_nonneg l : 0 ≤ requestBytes l.
Proof.
  induction l as [|e l IH]; simpl; [done|].
  destruct (eventSize e) as [n|] eqn:E; simpl; [pose proof (eventSize_pos _ _ E); lia|lia].
Qed.

(** An event no request of [budget] bytes can carry. *)
Definition unsendable (budget : Z) (e : Event) : bool :=
  match eventSize e with Some n => budget <? n | None => true end.

Record selected (first : Event) (limit budget : Z) (seen : list Event) (s : selection) : Prop := {
  sel_batch : batch s `sublist_of` seen;
  sel_identity : Forall (λ e, sameIdentity first e = true ∧ unsendable budget e = false) (batch s);
  sel_oversized : oversized s `sublist_of` seen;
  sel_unsendable : Forall (λ e, unsendable budget e = true) (oversized s);
  sel_length : Z.of_nat (length (batch s)) ≤ limit;
  sel_bytes : totalBytes s = requestBytes (batch s);
  sel_budget : requestBytes (batch s) ≤ Z.max 0 budget;
  sel_used a : default 0 (representedByApplication s !! a) = flowsOf a (batch s);
  sel_flows a : flowsOf a (batch s) ≤ maxReportedFlows
}.

Lemma sublist_snoc (l k : list Event) x : l `sublist_of` k → l `sublist_of` k ++ [x].
Proof. intros Hs. by apply sublist_inserts_r. Qed.

Lemma selected_skip first limit budget seen s e :
  selected first limit budget seen s → selected first limit budget (seen ++ [e]) s.
Proof. intros []. split; try done; by apply sublist_snoc. Qed.

Lemma selected_oversized first limit budget seen s e :
  unsendable budget e = true →
  selected first limit budget seen s → selected first limit budget (seen ++ [e]) (addOversized e s).
Proof.
  intros He []. split; simpl; try done; [by apply sublist_snoc|by apply sublist_app|].
  apply Forall_app. split; [done|by constructor].
Qed.

Lemma selected_add first limit budget seen s e size :
  eventSize e = Some size → sameIdentity first e = true →
  Z.of_nat (length (batch s)) < limit → totalBytes s + size ≤ budget →
  flowsOf (e_Application e) (batch s ++ [e]) ≤ maxReportedFlows →
  selected first limit budget seen s → ∀ s',
  batch s' = batch s ++ [e] → oversized s' = oversized s → totalBytes s' = totalBytes s + size →
  (∀ a, default 0 (representedByApplication s' !! a) = flowsOf a (batch s ++ [e])) →
  selected first limit budget (seen ++ [e]) s'.
Proof.
  intros Hsz Hid Hlen Hb Hfl [] s' Hb' Ho' Ht' Hr'. rewrite <- Hb' in Hr'.
  assert (Hreq : requestBytes (batch s') = requestBytes (batch s) + size)
    by (rewrite Hb', requestBytes_app; simpl; rewrite Hsz; simpl; lia).
  pose proof (requestBytes_nonneg (batch s)). pose proof (eventSize_pos _ _ Hsz).
  split; try done.
  - rewrite Hb'. by apply sublist_app.
  - rewrite Hb'. apply Forall_app. split; [done|]. repeat constructor; [done|].
    unfold unsendable. rewrite Hsz. lia.
  - rewrite Ho'. by apply sublist_snoc.
  - by rewrite Ho'.
  - rewrite Hb', length_app. simpl. lia.
  - lia.
  - lia.
  - intros a. rewrite Hb', flowsOf_app. simpl.
    destruct (isApplicationConnection e && str_eqb (e_Application e) a) eqn:Ha.
    + apply andb_true_iff in Ha as [Hc Heq%str_eqb_true]. subst a.
      rewrite flowsOf_app in Hfl. cbn [flowsOf foldr] in Hfl.
      rewrite Hc, (proj2 (str_eqb_true _ _) eq_refl) in Hfl. simpl in Hfl. lia.
    + specialize (sel_flows0 a). lia.
Qed.

Lemma addApplication_selected first limit budget seen s e size :
  isApplicationConnection e = true →
  eventSize e = Some size → sameIdentity first e = true →
  Z.of_nat (length (batch s)) < limit → totalBytes s + size ≤ budget →
  selected first limit budget seen s →
  selected first limit budget (seen ++ [e]) (addApplication e size s).
Proof.
  intros Happ Hsz Hid Hlen Hb Hs. unfold addApplication.
  destruct (bool_decide _); [by apply selected_skip|].
  pose proof (sel_used _ _ _ _ _ Hs (e_Application e)) as Hu.
  destruct (Z.ltb_spec (maxReportedFlows - default 0 (representedByApplication s !! e_Application e))
              (applicationConnectionCount e)) as [|Hfit].
  { destruct (selected_skip _ _ _ _ _ e Hs). by split. }
  assert (Hrow : ∀ a, flowsOf a [e] = if str_eqb (e_Application e) a then applicationConnectionCount e else 0)
    by (intros a; cbn [flowsOf foldr]; rewrite Happ; simpl; lia).
  eapply (selected_add _ _ _ _ s _ size); try done.
  - rewrite flowsOf_app, Hrow, (proj2 (str_eqb_true _ _) eq_refl). lia.
  - intros a. simpl. rewrite flowsOf_app, Hrow, <- (sel_used _ _ _ _ _ Hs a).
    destruct (decide (e_Application e = a)) as [->|Ha].
    + rewrite lookup_insert_eq, (proj2 (str_eqb_true _ _) eq_refl). done.
    + rewrite lookup_insert_ne by done.
      destruct (str_eqb (e_Application e) a) eqn:E; [by apply str_eqb_true in E|lia].
Qed.

Lemma addEvent_selected first limit budget seen s e size :
  isApplicationConnection e = false →
  eventSize e = Some size → sameIdentity first e = true →
  Z.of_nat (length (batch s)) < limit → totalBytes s + size ≤ budget →
  selected first limit budget seen s →
  selected first limit budget (seen ++ [e]) (addEvent e size s).
Proof.
  intros Happ Hsz Hid Hlen Hb Hs.
  assert (Hrow : ∀ a, flowsOf a (batch s ++ [e]) = flowsOf a (batch s))
    by (intros a; rewrite flowsOf_app; cbn [flowsOf foldr]; rewrite Happ; simpl; lia).
  eapply (selected_add _ _ _ _ s _ size); try done.
  - rewrite Hrow. apply Hs.
  - intros a. rewrite Hrow. apply Hs.
Qed.

(** The whole scan, from any selection of the events already passed. *)
Lemma selectLoop_selected first limit budget events seen s :
  selected first limit budget seen s →
  selected first limit budget (seen ++ events) (selectLoop first limit budget events s).
Proof.
  revert seen s. induction events as [|e events IH]; intros seen s Hs; simpl; [by rewrite app_nil_r|].
  assert (Hstop : selected first limit budget (seen ++ e :: events) s).
  { destruct Hs. split; try done; by apply sublist_inserts_r. }
  destruct (sameIdentity first e) eqn:Hid; simpl; [|done].
  destruct (Z.leb_spec limit (Z.of_nat (length (batch s)))); [done|].
  change (e :: events) with ([e] ++ events). rewrite app_assoc.
  destruct (eventSize e) as [size|] eqn:Hsz;
    [|apply IH, selected_oversized; [unfold unsendable; by rewrite Hsz|done]].
  destruct (Z.ltb_spec budget size);
    [apply IH, selected_oversized; [unfold unsendable; rewrite Hsz; lia|done]|].
  destruct (Z.ltb_spec budget (totalBytes s + size)); [by rewrite <- app_assoc|].
  destruct (isApplicationConnection e) eqn:Happ; simpl; apply IH;
    [by apply addApplication_selected|by apply addEvent_selected].
Qed.

Lemma selected_empty first limit budget : 0 ≤ limit → selected first limit budget [] emptySelection.
Proof.
  intros Hl. split; simpl; try done; lia.
Qed.

(** The scan only ever adds. *)
Lemma selectLoop_grows first limit budget events s :
  batch s `prefix_of` batch (selectLoop first limit budget events s) ∧
  oversized s `prefix_of` oversized (selectLoop first limit budget events s).
Proof.
  revert s. induction events as [|e events IH]; intros s; simpl; [done|].
  destruct (negb _); [done|]. destruct (_ <=? _); [done|].
  assert (Hgo : ∀ s', batch s `prefix_of` batch s' → oversized s `prefix_of` oversized s' →
    batch s `prefix_of` batch (selectLoop first limit budget events s') ∧
    oversized s `prefix_of` oversized (selectLoop first limit budget events s')).
  { intros s' Hb Ho. destruct (IH s') as [IHb IHo]. split; by etrans. }
  destruct (eventSize e) as [size|]; [|apply Hgo; simpl; [done|by apply prefix_app_r]].
  destruct (_ <? size); [apply Hgo; simpl; [done|by apply prefix_app_r]|].
  destruct (_ <? _); [done|].
  destruct (negb _); [apply Hgo; simpl; [by apply prefix_app_r|done]|].
  unfold addApplication. destruct (bool_decide _); [by apply Hgo|].
  destruct (_ <? applicationConnectionCount e); apply Hgo; simpl; try done. by apply prefix_app_r.
Qed.

Lemma sameIdentity_refl e : sameIdentity e e = true.
Proof. unfold sameIdentity. by rewrite !(proj2 (str_eqb_true _ _) eq_refl). Qed.

(** A non-empty queue always yields something to send or to discard. *)
Lemma outboxUploadBatch_progress first events limit budget :
  0 < limit →
  first ∈ (outboxUploadBatch (first :: events) limit budget).1 ∨
  first ∈ (outboxUploadBatch (first :: events) limit budget).2.
Proof.
  intros Hl. unfold outboxUploadBatch. rewrite (proj2 (Z.leb_gt _ _) Hl).
  cbn [selectLoop]. rewrite sameIdentity_refl. simpl.
  change (Z.of_nat 0) with 0. rewrite (proj2 (Z.leb_gt _ _) Hl).
  assert (Hov : first ∈ oversized (selectLoop first limit budget events (addOversized first emptySelection))).
  { destruct (selectLoop_grows first limit budget events (addOversized first emptySelection)) as [_ Ho].
    eapply elem_of_prefix; [|exact Ho]. simpl. by left. }
  destruct (eventSize first) as [size|]; [|by right].
  destruct (Z.ltb_spec budget size); [by right|].
  destruct (Z.ltb_spec budget (0 + size)); [lia|]. left.
  destruct (negb _).
  - destruct (selectLoop_grows first limit budget events (addEvent first size emptySelection)) as [Hb _].
    eapply elem_of_prefix; [|exact Hb]. simpl. by left.
  - destruct (selectLoop_grows first limit budget events (addApplication first size emptySelection)) as [Hb _].
    eapply elem_of_prefix; [|exact Hb]. unfold addApplication. simpl.
    rewrite bool_decide_eq_false_2 by set_solver. rewrite lookup_empty.
    pose proof (applicationConnectionCount_range first).
    simpl. destruct (Z.ltb_spec (maxReportedFlows - 0) (applicationConnectionCount first)); [lia|]. simpl. by left.
Qed.

(** What every call of [outboxUploadBatch] returns. *)
Lemma outboxUploadBatch_selected first events limit budget :
  0 < limit →
  ∃ s, outboxUploadBatch (first :: events) limit budget = (batch s, oversized s) ∧
       selected first limit budget (first :: events) s.
Proof.
  intros Hl. unfold outboxUploadBatch. rewrite (proj2 (Z.leb_gt _ _) Hl).
  eexists. split; [done|]. apply (selectLoop_selected first limit budget (first :: events) []).
  apply selected_empty. lia.
Qed.
End batch_facts.

(** * Stored lines *)
Lemma trimLeft_brace l : trimLeft (brace :: l) = brace :: l.
Proof. destruct l as [|b [|c l]]; done. Qed.

Lemma trimLeftRev_brace l : trimLeftRev (l ++ [brace]) ≠ [].
Proof.
  induction l as [l IH] using (induction_ltof1 _ length); unfold ltof in IH.
  destruct l as [|a [|b [|c l]]]; simpl; [done| | |].
  - destruct (space1 a); [done|]. by replace (space2 brace a) with false by done.
  - destruct (space1 a); [apply (IH [b]); simpl; lia|]. destruct (space2 b a); [apply (IH []); simpl; lia|].
    by replace (space3 brace b a) with false by done.
  - destruct (space1 a); [apply (IH (b :: c :: l)); simpl; lia|].
    destruct (space2 b a); [apply (IH (c :: l)); simpl; lia|].
    destruct (space3 c b a); [apply (IH l); simpl; lia|done].
Qed.

Lemma brace_not_blank line : head line = Some brace → str_empty (TrimSpace (text line)) = false.
Proof.
  destruct line as [|b l]; simpl; [done|]. intros [= ->].
  unfold str_empty. apply bool_decide_eq_false_2. unfold TrimSpace.
  change (String brace (text l)) with (text (brace :: l)).
  change (String.list_ascii_of_string ?x) with (bytes x). rewrite bytes_text, trimLeft_brace. simpl.
  destruct (trimLeftRev (rev l ++ [brace])) as [|x xs] eqn:E; [by apply trimLeftRev_brace in E|].
  intros Hs. apply (f_equal bytes) in Hs. change (String.string_of_list_ascii ?x) with (text x) in Hs.
  rewrite bytes_text in Hs. simpl in Hs. by destruct (rev xs).
Qed.

Lemma splitOn_sep sep a c b : byte_of c = sep → splitOn sep (a ++ c :: b) = splitOn sep a ++ splitOn sep b.
Proof.
  intros Hc. induction a as [|x a IH]; simpl; [by rewrite Hc, N.eqb_refl|].
  rewrite IH. destruct (byte_of x =? sep)%N; [done|].
  destruct (splitOn sep a) as [|l ls] eqn:E; [by apply splitOn_nonempty in E|done].
Qed.

(** The file is empty or ends in a newline. *)
Definition newlineEnded (raw : list byte) : Prop := raw = [] ∨ last raw = Some newline.

Lemma sourceLines_app raw more : newlineEnded raw → sourceLines (raw ++ more) = sourceLines raw ++ sourceLines more.
Proof.
  unfold sourceLines. intros [->|Hl]; [done|].
  apply last_Some in Hl as [a ->]. rewrite <- app_assoc. cbn [app].
  rewrite !splitOn_sep, !List.filter_app by done. simpl. by rewrite app_nil_r.
Qed.

Lemma last_app_r {A} (l k : list A) : k ≠ [] → last (l ++ k) = last k.
Proof. intros Hk. rewrite last_app. destruct (last k) eqn:E; [done|]. by apply last_None in E. Qed.

Lemma newlineEnded_app a b : newlineEnded a → newlineEnded b → newlineEnded (a ++ b).
Proof.
  intros Ha [->|Hb]; [by rewrite app_nil_r|]. right. rewrite last_app_r; [done|]. by intros ->.
Qed.

Section stored.
Context `{EventJSON}.
#[local] Set Default Proof Using "Type".

Definition validEvent (e : Event) : Prop := validateOutboxEvent e = Some e.

Lemma sanitize_idemp e : sanitizeOutboxEvent (sanitizeOutboxEvent e) = sanitizeOutboxEvent e.
Proof.
  unfold sanitizeOutboxEvent at 2 3. destruct (isApplicationConnection e && _) eqn:Hc.
  - unfold sanitizeOutboxEvent. simpl. by rewrite andb_false_r.
  - unfold sanitizeOutboxEvent. by rewrite Hc.
Qed.

Lemma sanitize_fields e :
  e_EventID (sanitizeOutboxEvent e) = e_EventID e ∧ e_Event (sanitizeOutboxEvent e) = e_Event e ∧
  e_ClientID (sanitizeOutboxEvent e) = e_ClientID e ∧ e_SessionID (sanitizeOutboxEvent e) = e_SessionID e.
Proof. unfold sanitizeOutboxEvent. by destruct (_ && _). Qed.

Lemma validate_valid e e' : validateOutboxEvent e = Some e' → validEvent e'.
Proof.
  unfold validEvent, validateOutboxEvent. destruct (sanitize_fields e) as (H1 & H2 & H3 & H4).
  destruct (_ || _) eqn:Hc; [done|]. intros [= <-]. rewrite H1, H2, H3, H4, Hc. by rewrite sanitize_idemp.
Qed.

Lemma valid_sanitized e : validEvent e → sanitizeOutboxEvent e = e.
Proof. unfold validEvent, validateOutboxEvent. destruct (_ || _); [done|]. by intros [= ->]. Qed.

Lemma valid_no_attributes e : validEvent e → isApplicationConnection e = true → e_Attributes e = ∅.
Proof.
  intros Hv%valid_sanitized Ha. revert Hv. unfold sanitizeOutboxEvent. rewrite Ha. simpl.
  destruct (decide (e_Attributes e = ∅)) as [|Hn]; [done|].
  rewrite bool_decide_eq_true_2 by done. intros Hv. by rewrite <- Hv.
Qed.

Lemma validate_id e e' : validateOutboxEvent e = Some e' → e_EventID e' = e_EventID e.
Proof.
  unfold validateOutboxEvent. destruct (_ || _); [done|]. intros [= <-].
  by destruct (sanitize_fields e).
Qed.

Lemma coerced_validEvent e : validEvent e → validEvent (coerced e).
Proof. unfold validEvent. rewrite coerced_valid. intros ->. done. Qed.

Lemma eventLine_shape e line :
  eventLine e = Some line → ∃ b, marshalEvent e = Some b ∧ line = b ++ [newline].
Proof. unfold eventLine. destruct (marshalEvent e) as [b|]; simpl; [|done]. intros [= <-]. eauto. Qed.

Lemma sourceLines_line e b : marshalEvent e = Some b → sourceLines (b ++ [newline]) = [b].
Proof.
  intros Hb. unfold sourceLines. rewrite splitOn_app by (try apply (event_one_line e); done).
  cbn [List.filter splitOn]. by rewrite (brace_not_blank b) by (by apply (event_object e)).
Qed.

Lemma fileOf_cons e l : fileOf (e :: l) = default [] (eventLine e) ++ fileOf l.
Proof. unfold fileOf. simpl. by destruct (eventLine e). Qed.

Lemma fileOf_newlineEnded l : newlineEnded (fileOf l).
Proof.
  induction l as [|e l IH]; [by left|]. rewrite fileOf_cons.
  destruct (eventLine e) as [line|] eqn:E; simpl; [|done].
  apply eventLine_shape in E as (b & _ & ->).
  apply newlineEnded_app; [right; by rewrite last_snoc|done].
Qed.

Lemma sourceLines_fileOf l : sourceLines (fileOf l) = omap marshalEvent l.
Proof.
  induction l as [|e l IH]; [done|]. rewrite fileOf_cons. unfold eventLine. simpl.
  destruct (marshalEvent e) as [b|] eqn:E; simpl; [|done].
  rewrite sourceLines_app by (right; by rewrite last_snoc).
  by rewrite (sourceLines_line e b E), IH.
Qed.

Lemma fileOf_app l k : fileOf (l ++ k) = fileOf l ++ fileOf k.
Proof. unfold fileOf. by rewrite omap_app, concat_app. Qed.

Lemma mapM_eventLine l lines : mapM eventLine l = Some lines → concat lines = fileOf l.
Proof.
  intros Hm%mapM_Some. induction Hm as [|e line l lines Hl _ IH]; [done|].
  rewrite fileOf_cons, Hl. simpl. by rewrite IH.
Qed.

(** A stored file nothing in which needs repair: newline-ended lines, not the
    legacy array, each decoding to a valid event that carries nothing the
    load would scrub. *)
Record cleanFile (raw : list byte) : Prop := {
  clean_ended : newlineEnded raw;
  clean_lines : head raw ≠ Some bracket;
  clean_events : Forall (λ line, ∃ e, decodeOutboxEvent line = Some e ∧ outboxLineNeedsScrub line e = false)
                   (sourceLines raw)
}.

Lemma marshalled_line e b :
  validEvent e → marshalEvent e = Some b →
  decodeOutboxEvent b = Some (coerced e) ∧ outboxLineNeedsScrub b (coerced e) = false.
Proof.
  intros Hv Hb. pose proof (coerced_validEvent e Hv) as Hc. split.
  - unfold decodeOutboxEvent. by rewrite (event_roundtrip e b Hb).
  - unfold outboxLineNeedsScrub. rewrite (event_probe e b Hb). simpl.
    destruct (isApplicationConnection (coerced e)) eqn:Ha; [|done].
    by rewrite (valid_no_attributes _ Hc Ha), map_size_empty.
Qed.

Lemma head_fileOf l : fileOf l = [] ∨ head (fileOf l) = Some brace.
Proof.
  induction l as [|e l IH]; [by left|]. rewrite fileOf_cons.
  destruct (eventLine e) as [line|] eqn:E; simpl; [|done]. right.
  apply eventLine_shape in E as (b & Hb & ->). apply event_object in Hb. by destruct b.
Qed.

Lemma cleanFile_append raw l : Forall validEvent l → cleanFile raw → cleanFile (raw ++ fileOf l).
Proof.
  intros Hl [He Hh Hf]. split.
  - apply newlineEnded_app; [done|apply fileOf_newlineEnded].
  - destruct raw; [|done]. simpl. by destruct (head_fileOf l) as [->| ->].
  - rewrite sourceLines_app, sourceLines_fileOf by done. apply Forall_app. split; [done|].
    apply Forall_forall. intros line (e & He' & Hb)%list_elem_of_omap.
    exists (coerced e). apply marshalled_line; [|done]. by apply (proj1 (Forall_forall _ _) Hl).
Qed.

Lemma cleanFile_empty : cleanFile [].
Proof. split; [by left|done|]. by constructor. Qed.

Lemma cleanFile_fileOf l : Forall validEvent l → cleanFile (fileOf l).
Proof. intros Hl. apply (cleanFile_append []); [done|apply cleanFile_empty]. Qed.

(** The events a fresh load finds in a file. *)
Definition storedEvents (raw : list byte) : list Event := omap decodeOutboxEvent (sourceLines raw).

Lemma storedEvents_append raw l :
  newlineEnded raw → Forall validEvent l →
  storedEvents (raw ++ fileOf l) =
  storedEvents raw ++ (coerced <$> List.filter (λ e, bool_decide (is_Some (marshalEvent e))) l).
Proof.
  intros Hr Hl. unfold storedEvents. rewrite sourceLines_app, omap_app, sourceLines_fileOf by done. f_equal.
  induction Hl as [|e l He _ IH]; csimpl; [done|].
  destruct (marshalEvent e) as [b|] eqn:E; csimpl; [|done].
  destruct (marshalled_line e b He E) as [-> _]. csimpl. by rewrite IH.
Qed.
End stored.

(** * Invariants *)
Lemma capQueue_short l : (length l ≤ OutboxMaxQueued)%nat → capQueue l = l.
Proof. unfold capQueue. intros Hl. by replace (length l - OutboxMaxQueued)%nat with 0%nat by lia. Qed.

Lemma length_capQueue l : length (capQueue l) = Nat.min (length l) OutboxMaxQueued.
Proof. unfold capQueue. rewrite length_drop. lia. Qed.

Lemma capQueue_suffix l : capQueue l `suffix_of` l.
Proof. exists (take (length l - OutboxMaxQueued) l). unfold capQueue. by rewrite take_drop. Qed.

(** Capping twice is capping once, whatever came before. *)
Lemma capQueue_app_cap l k : capQueue (capQueue l ++ k) = capQueue (l ++ k).
Proof.
  unfold capQueue. rewrite !length_app, length_drop.
  set (n := length l). set (m := length k). rewrite !drop_app, length_drop. fold n m.
  rewrite drop_drop. f_equal; [|f_equal; lia]. f_equal. lia.
Qed.

Section invariants.
Context `{EventJSON}.
#[local] Set Default Proof Using "Type".

(** The typing invariant of the queue. *)
Record goodQueue (o : Outbox) : Prop := {
  good_valid : Forall validEvent (o_events o);
  good_length : (length (o_events o) ≤ OutboxMaxQueued)%nat;
  good_unloaded : o_loaded o = false → o_events o = []
}.

(** What a loaded outbox knows of its file. *)
Definition intact (w : world) : Prop :=
  o_loaded (w_outbox w) = true → cleanFile (default [] (d_File (w_disk w))).

(** A rewrite is not needed to fail and an append tear the file at once. *)
Definition healthy (io : IO) : Prop := io_Append io = AppendOK ∨ io_Rewrite io = true.

Lemma goodQueue_new : goodQueue newOutbox.
Proof. split; [constructor|simpl; lia|done]. Qed.

Lemma rewriteLocked_outbox ok dirSync w :
  let w' := (rewriteLocked ok dirSync w).1 in
  o_events (w_outbox w') = o_events (w_outbox w) ∧ o_loaded (w_outbox w') = o_loaded (w_outbox w) ∧
  o_closed (w_outbox w') = o_closed (w_outbox w).
Proof. by destruct ok. Qed.

Lemma goodQueue_rewrite ok dirSync w :
  goodQueue (w_outbox w) → goodQueue (w_outbox (rewriteLocked ok dirSync w).1).
Proof.
  destruct (rewriteLocked_outbox ok dirSync w) as (He & Hl & _). intros [].
  split; by rewrite ?He, ?Hl.
Qed.

Lemma intact_rewrite ok dirSync w :
  Forall validEvent (o_events (w_outbox w)) → intact w → intact (rewriteLocked ok dirSync w).1.
Proof. destruct ok; [|done]. intros Hv _ _. simpl. by apply cleanFile_fileOf. Qed.

Lemma decoded_valid lines : Forall validEvent (omap decodeOutboxEvent lines).
Proof.
  apply Forall_forall. intros e (line & _ & Hd)%list_elem_of_omap. unfold decodeOutboxEvent in Hd.
  destruct (decodeEvent line) as [e0|]; [|done]. by eapply validate_valid.
Qed.

Lemma parseOutbox_valid raw : Forall validEvent (parseOutbox raw).1.1.
Proof. unfold parseOutbox. destruct (bool_decide _); apply decoded_valid. Qed.

Lemma valid_map_sanitize l : Forall validEvent l → sanitizeOutboxEvent <$> l = l.
Proof. intros Hl. induction Hl as [|e l He _ IH]; csimpl; [done|]. by rewrite IH, (valid_sanitized e He). Qed.

Lemma capQueue_Forall (P : Event → Prop) l : Forall P l → Forall P (capQueue l).
Proof. intros Hl. by apply Forall_drop. Qed.

(** A file the load accepts without a rewrite is clean. *)
Lemma parse_not_dirty raw parsed sources :
  raw ≠ [] → parseOutbox raw = (parsed, false, sources) → length parsed = sources → cleanFile raw.
Proof.
  unfold parseOutbox. intros Hraw. destruct (bool_decide _) eqn:Hh; [done|].
  apply bool_decide_eq_false in Hh. intros [= <- [Hd Hs]%orb_false_iff <-] Hlen.
  apply bool_decide_eq_false, dec_stable in Hd.
  split; [by right|done|].
  assert (Hall : ∀ ls, (length (omap decodeOutboxEvent ls) ≤ length ls)%nat ∧
            (length (omap decodeOutboxEvent ls) = length ls →
             Forall (λ line, is_Some (decodeOutboxEvent line)) ls)).
  { induction ls as [|x ls [IH1 IH2]]; [done|]. csimpl. destruct (decodeOutboxEvent x) eqn:E; csimpl.
    - split; [lia|]. intros Hl. constructor; [by rewrite E|apply IH2; lia].
    - split; [lia|]. intros Hl. lia. }
  apply Forall_forall. intros line Hline.
  destruct (Hall (sourceLines raw)) as [_ HF]. specialize (HF Hlen).
  destruct (proj1 (Forall_forall _ _) HF line Hline) as [e He]. exists e. split; [done|].
  destruct (outboxLineNeedsScrub line e) eqn:Hsc; [|done]. exfalso.
  apply not_true_iff_false in Hs. apply Hs, existsb_exists. exists line.
  split; [by apply list_elem_of_In|]. by rewrite He.
Qed.

Lemma length_parseOutbox raw parsed dirty sources :
  parseOutbox raw = (parsed, dirty, sources) → dirty = false → (length parsed ≤ sources)%nat.
Proof.
  unfold parseOutbox. destruct (bool_decide _); intros [= <- <- <-]; [done|]. intros _.
  generalize (sourceLines raw). intros l. induction l as [|x l IH]; csimpl; [done|].
  destruct (decodeOutboxEvent x); csimpl; lia.
Qed.

(** Loading keeps the queue well formed, answers whether the outbox is
    loaded, and leaves a clean file when it succeeds. *)
Lemma loadLocked_good io w :
  goodQueue (w_outbox w) → intact w →
  let '(w', ok) := loadLocked io w in
  goodQueue (w_outbox w') ∧ intact w' ∧ o_loaded (w_outbox w') = ok ∧
  o_closed (w_outbox w') = o_closed (w_outbox w).
Proof.
  intros Hg Hi. unfold loadLocked. destruct (o_loaded (w_outbox w)) eqn:Hl; [done|].
  assert (Hlock : goodQueue (takeLock (w_outbox w))) by (destruct Hg; by split).
  destruct (negb (o_lockFile (w_outbox w)) && negb (io_Lock io)); [done|].
  destruct (negb (io_Read io)); [split_and!; try done; intros Hx; simpl in Hx; by rewrite Hl in Hx|].
  cbn [onOutbox w_disk].
  destruct (d_File (w_disk w)) as [[|c raw]|] eqn:Hf.
  1,3: split_and!; [split; simpl; [constructor|lia|done]| |done..];
       intros _; simpl; rewrite Hf; apply cleanFile_empty.
  remember (c :: raw) as file eqn:Hfile.
  pose proof (parseOutbox_valid file) as Hv. pose proof (length_parseOutbox file) as Hlen.
  pose proof (parse_not_dirty file) as Hclean.
  destruct (parseOutbox file) as [[parsed dirty] sources]. simpl in Hv.
  rewrite (valid_map_sanitize parsed Hv).
  set (w1 := onOutbox _ _).
  assert (Hw1 : goodQueue (w_outbox w1)).
  { split; simpl; [by apply capQueue_Forall|rewrite length_capQueue; lia|done]. }
  destruct (dirty || negb (sources =? length (capQueue parsed))%nat) eqn:Hd.
  - pose proof (goodQueue_rewrite (io_LoadRewrite io) (io_DirSync io) w1 Hw1) as Hrw.
    unfold rewriteLocked in *. destruct (io_LoadRewrite io); simpl in *.
    + split_and!; [done| |done..]. intros _. simpl. apply cleanFile_fileOf, Hw1.
    + split_and!; [split; simpl; [constructor|lia|done]| |done..]. intros Hx; done.
  - apply orb_false_iff in Hd as [-> Hn%negb_false_iff%Nat.eqb_eq].
    split_and!; [done| |done..]. intros _. simpl. rewrite Hf. simpl.
    apply (Hclean parsed sources); [by subst|done|].
    specialize (Hlen parsed false sources eq_refl eq_refl). rewrite length_capQueue in Hn. lia.
Qed.

Lemma load_good io w :
  goodQueue (w_outbox w) →
  let '(w', ok) := loadLocked io w in
  goodQueue (w_outbox w') ∧ (intact w → intact w') ∧ o_loaded (w_outbox w') = ok ∧
  o_closed (w_outbox w') = o_closed (w_outbox w).
Proof.
  intros Hg. destruct (o_loaded (w_outbox w)) eqn:Hl; [unfold loadLocked; by rewrite Hl|].
  assert (Hi : intact w) by (intros Hx; by rewrite Hl in Hx).
  pose proof (loadLocked_good io w Hg Hi) as Hload. destruct (loadLocked io w) as [w' ok].
  by destruct Hload as (? & ? & ? & ?).
Qed.

Lemma ready_good io w :
  goodQueue (w_outbox w) →
  let '(w', ok) := ready io w in
  goodQueue (w_outbox w') ∧ (intact w → intact w') ∧ (ok = true → o_loaded (w_outbox w') = true) ∧
  o_closed (w_outbox w') = o_closed (w_outbox w).
Proof.
  intros Hg. unfold ready. destruct (o_closed (w_outbox w)) eqn:Hc; [done|].
  pose proof (load_good io w Hg) as Hl. destruct (loadLocked io w) as [w' ok].
  destruct Hl as (? & ? & -> & Hcl). split_and!; try done. by rewrite Hcl.
Qed.

Lemma capped_good events o :
  Forall validEvent events → goodQueue o → o_loaded o = true →
  goodQueue (setEvents (capQueue (o_events o ++ events)) o).
Proof.
  intros He [] Hl. split; simpl; [|rewrite length_capQueue; lia|by rewrite Hl].
  apply capQueue_Forall, Forall_app. done.
Qed.

(** Appending keeps the queue well formed, and the file clean unless the
    append tore it and the fallback rewrite failed too. *)
Lemma appendLocked_good events io w :
  Forall validEvent events → o_loaded (w_outbox w) = true →
  goodQueue (w_outbox w) →
  let '(w', ok) := appendLocked events io w in
  o_events (w_outbox w') = capQueue (o_events (w_outbox w) ++ events) ∧
  o_closed (w_outbox w') = o_closed (w_outbox w) ∧ o_loaded (w_outbox w') = true ∧
  goodQueue (w_outbox w') ∧ (healthy io → intact w → intact w').
Proof.
  intros Hv Hl Hg. unfold appendLocked.
  pose proof (capped_good events (w_outbox w) Hv Hg Hl) as Hg1.
  set (o1 := setEvents _ (w_outbox w)) in *. set (w1 := onOutbox _ w).
  assert (Hfall : ∀ w2, o_events (w_outbox w2) = o_events o1 → o_closed (w_outbox w2) = o_closed o1 →
    o_loaded (w_outbox w2) = true →
    let '(w', ok) := rewriteLocked (io_Rewrite io) (io_DirSync io) w2 in
    o_events (w_outbox w') = o_events o1 ∧ o_closed (w_outbox w') = o_closed o1 ∧
    o_loaded (w_outbox w') = true ∧ goodQueue (w_outbox w') ∧ (io_Rewrite io = true ∨ intact w2 → intact w')).
  { intros w2 He Hc Hl2. unfold rewriteLocked.
    assert (Hg2 : goodQueue (w_outbox w2)) by (destruct Hg1; split; rewrite ?He, ?Hl2; done).
    destruct (io_Rewrite io); simpl; split_and!; try done.
    - by destruct Hg2; split.
    - intros _ _. simpl. apply cleanFile_fileOf. rewrite He. apply Hg1.
    - by intros [|]. }
  destruct (mapM eventLine events) as [lines|] eqn:Hm; simpl.
  2: { specialize (Hfall w1 eq_refl eq_refl Hl). destruct (rewriteLocked _ _ w1) as [w' ok].
       destruct Hfall as (? & ? & ? & ? & Hint). split_and!; try done.
       intros _ Hi. apply Hint. right. exact Hi. }
  apply mapM_eventLine in Hm.
  destruct (appendOutboxFile (concat lines) (io_Append io) (w_disk w)) as [d ok] eqn:Ha.
  match goal with |- context [{| w_outbox := ?x; w_disk := d |}] => set (w2 := {| w_outbox := x; w_disk := d |}) end.
  assert (Hw2 : io_Append io = AppendOK → intact w → intact w2).
  { intros Hok Hi. rewrite Hok in Ha. simpl in Ha. simplify_eq. intros _. simpl. rewrite Hm.
    apply cleanFile_append; [done|]. by apply Hi. }
  assert (Hok : ok = true → io_Append io = AppendOK) by (by destruct (io_Append io); simpl in Ha; simplify_eq).
  destruct (negb ok || _) eqn:Hcond.
  - specialize (Hfall w2 eq_refl eq_refl Hl). destruct (rewriteLocked _ _ w2) as [w' ok'].
    destruct Hfall as (? & ? & ? & ? & Hint). split_and!; try done.
    intros [HA|HR] Hi; apply Hint; [right; by apply Hw2|by left].
  - apply orb_false_iff in Hcond as [->%negb_false_iff _]. split_and!; try done.
    + by destruct Hg1; split.
    + intros _ Hi. apply Hw2; [by apply Hok|done].
Qed.

Lemma patchEvent_valid sid attrs e : validEvent e → validEvent (patchEvent sid attrs e).
Proof.
  intros Hv. unfold patchEvent. destruct (negb _ || isApplicationConnection e) eqn:Hc; [done|].
  apply orb_false_iff in Hc as [_ Ha]. revert Hv. unfold validEvent, validateOutboxEvent. simpl.
  destruct (_ || _); [done|]. intros _. f_equal. unfold sanitizeOutboxEvent.
  by replace (isApplicationConnection (withAttributes _ e)) with (isApplicationConnection e) by done; rewrite Ha.
Qed.

Lemma setEvents_good l o :
  Forall validEvent l → (length l ≤ length (o_events o))%nat → o_loaded o = true ∨ l = [] →
  goodQueue o → goodQueue (setEvents l o).
Proof.
  intros Hv Hlen Hl []. split; simpl; [done|lia|]. intros Hf. destruct Hl as [Hl|]; [by rewrite Hl in Hf|done].
Qed.

Lemma Enqueue_good e io w :
  goodQueue (w_outbox w) →
  let w' := (Enqueue e io w).1 in
  goodQueue (w_outbox w') ∧ (healthy io → intact w → intact w').
Proof.
  intros Hg. unfold Enqueue. destruct (validateOutboxEvent e) as [e'|] eqn:Hv; [|done].
  pose proof (ready_good io w Hg) as Hr. destruct (ready io w) as [w1 ok]. destruct Hr as (Hg1 & Hi1 & Hl1 & _).
  destruct ok; simpl; [|split; [done|by intros _]].
  pose proof (appendLocked_good [e'] io w1) as Ha. destruct (appendLocked [e'] io w1) as [w2 ok2].
  destruct Ha as (_ & _ & _ & Hg2 & Hi2); [by repeat constructor; eapply validate_valid|by apply Hl1|done|].
  split; [done|]. intros Hh Hi. by apply Hi2, Hi1.
Qed.

Lemma omap_valid es : Forall validEvent (omap validateOutboxEvent es).
Proof. apply Forall_forall. intros e (e0 & _ & Hv)%list_elem_of_omap. by eapply validate_valid. Qed.

Lemma EnqueueBatch_good es io w :
  goodQueue (w_outbox w) →
  let w' := (EnqueueBatch es io w).1 in
  goodQueue (w_outbox w') ∧ (healthy io → intact w → intact w').
Proof.
  intros Hg. unfold EnqueueBatch. pose proof (omap_valid es) as Hv.
  destruct (omap validateOutboxEvent es) as [|e0 valid]; [done|].
  pose proof (ready_good io w Hg) as Hr. destruct (ready io w) as [w1 ok]. destruct Hr as (Hg1 & Hi1 & Hl1 & _).
  destruct ok; simpl; [|split; [done|by intros _]].
  pose proof (appendLocked_good (e0 :: valid) io w1) as Ha.
  destruct (appendLocked (e0 :: valid) io w1) as [w2 ok2].
  destruct Ha as (_ & _ & _ & Hg2 & Hi2); [done|by apply Hl1|done|].
  assert (Hi : healthy io → intact w → intact w2) by auto.
  destruct ok2; simpl; [|done]. by destruct (io_Sync io).
Qed.

Lemma Apply_good sid attrs io w :
  goodQueue (w_outbox w) →
  let w' := (ApplySessionAttributes sid attrs io w).1 in
  goodQueue (w_outbox w') ∧ (intact w → intact w').
Proof.
  intros Hg. unfold ApplySessionAttributes. destruct (_ || _); [done|].
  pose proof (ready_good io w Hg) as Hr. destruct (ready io w) as [w1 ok]. destruct Hr as (Hg1 & Hi1 & Hl1 & _).
  destruct ok; simpl; [|done]. set (patched := patchEvent sid attrs <$> _).
  assert (Hp : Forall validEvent patched).
  { apply Forall_fmap. eapply Forall_impl; [apply Hg1|]. intros e. apply patchEvent_valid. }
  set (w2 := onOutbox _ w1).
  assert (Hg2 : goodQueue (w_outbox w2)).
  { apply setEvents_good; [done|unfold patched; by rewrite length_fmap|left; by apply Hl1|done]. }
  destruct (bool_decide _); simpl; [|done]. split; [by apply goodQueue_rewrite|].
  intros Hi. apply intact_rewrite; [done|]. exact (Hi1 Hi).
Qed.

Lemma removeSent_good sent io w :
  goodQueue (w_outbox w) →
  let w' := (removeSent sent io w).1 in
  goodQueue (w_outbox w') ∧ (intact w → intact w').
Proof.
  intros Hg. unfold removeSent. destruct (o_closed (w_outbox w)); [done|].
  set (kept := List.filter _ _). set (w1 := onOutbox _ w).
  assert (Hsub : kept `sublist_of` o_events (w_outbox w)) by apply filter_bool_sublist.
  assert (Hk : Forall validEvent kept).
  { apply Forall_forall. intros e He. destruct Hg as [Hv _ _]. rewrite Forall_forall in Hv. apply Hv.
    by eapply elem_of_sublist. }
  assert (Hg1 : goodQueue (w_outbox w1)).
  { apply setEvents_good; [done|by apply sublist_length| |done].
    destruct (o_loaded (w_outbox w)) eqn:Hl; [by left|right].
    unfold kept. by rewrite (good_unloaded _ Hg Hl). }
  destruct (existsb _ _); simpl; [|done]. split; [by apply goodQueue_rewrite|].
  intros Hi. by apply intact_rewrite.
Qed.
End invariants.

(** * Histories

    The critical sections of concurrent calls, in the order the mutex serves
    them; [OpReopen] is a new process over the file, after a crash of the old
    one or a power loss ([Some] of what is left of a file that was not yet on
    stable storage). *)
Inductive op :=
| OpEnqueue (e : Event)
| OpEnqueueBatch (events : list Event)
| OpApply (sessionID : string) (attributes : gmap string string)
| OpPending
| OpFlushSelect
| OpHeartbeatSelect (heartbeat : Event)
| OpRemoveSent (sent : list Event)
| OpClose
| OpReopen (lost : option (option (list byte))).

Definition powerLoss (remains : option (list byte)) (d : disk) : disk :=
  {| d_File := if d_Stable d then d_File d else remains; d_Stable := true |}.

Definition reopen (lost : option (option (list byte))) (w : world) : world :=
  {| w_outbox := newOutbox;
     w_disk := match lost with None => w_disk w | Some remains => powerLoss remains (w_disk w) end |}.

Section histories.
Context `{EventJSON}.
#[local] Set Default Proof Using "Type".

Definition step (w : world) (s : op * IO) : world :=
  let '(o, io) := s in
  match o with
  | OpEnqueue e => (Enqueue e io w).1
  | OpEnqueueBatch events => (EnqueueBatch events io w).1
  | OpApply sessionID attributes => (ApplySessionAttributes sessionID attributes io w).1
  | OpPending => (PendingCount io w).1
  | OpFlushSelect => (flushSelect io w).1
  | OpHeartbeatSelect heartbeat => (heartbeatSelect heartbeat io w).1
  | OpRemoveSent sent => (removeSent sent io w).1
  | OpClose => Close w
  | OpReopen lost => reopen lost w
  end.

Definition run (history : list (op * IO)) (w : world) : world := foldl step w history.

Definition start (d : disk) : world := {| w_outbox := newOutbox; w_disk := d |}.

Lemma step_good w s :
  goodQueue (w_outbox w) →
  goodQueue (w_outbox (step w s)) ∧ (healthy s.2 → intact w → intact (step w s)).
Proof.
  intros Hg. destruct s as [[e|es|sid attrs| | |hb|sent| |lost] io]; simpl.
  - by apply Enqueue_good.
  - by apply EnqueueBatch_good.
  - destruct (Apply_good sid attrs io w Hg). by split.
  - unfold PendingCount. pose proof (ready_good io w Hg) as Hr.
    destruct (ready io w) as [w1 []]; simpl; destruct Hr as (? & ? & _); by split.
  - unfold flushSelect. destruct (o_closed (w_outbox w)); [done|].
    pose proof (load_good io w Hg) as Hr. destruct (loadLocked io w) as [w1 []]; simpl;
      destruct Hr as (? & ? & _); [|by split].
    destruct (outboxUploadBatch _ _ _). by split.
  - unfold heartbeatSelect. destruct (o_closed (w_outbox w)); [done|].
    pose proof (load_good io w Hg) as Hr. destruct (loadLocked io w) as [w1 ok]; simpl in *.
    destruct (match o_events (w_outbox w1) with [] => _ | _ => _ end). simpl. destruct Hr as (? & ? & _). by split.
  - destruct (removeSent_good sent io w Hg). by split.
  - split; [|done]. by destruct Hg; split.
  - split; [apply goodQueue_new|]. intros _ _ Hx. done.
Qed.

Lemma run_good history d :
  goodQueue (w_outbox (run history (start d))) ∧
  (Forall (λ s, healthy s.2) history → intact (run history (start d))).
Proof.
  induction history as [|s history [IHg IHi]] using rev_ind;
    [split; [apply goodQueue_new|intros _ Hx; done]|].
  unfold run in *. rewrite foldl_app. simpl.
  destruct (step_good _ s IHg) as [Hg Hi]. split; [done|].
  intros [Hh Hs]%Forall_app. inversion Hs; subst. by apply Hi, IHi.
Qed.
End histories.

(** * Durability of an import *)
Section durability.
Context `{EventJSON}.
#[local] Set Default Proof Using "Type".

Definition marshals (e : Event) : bool := bool_decide (is_Some (marshalEvent e)).

(** A load after a restart whose I/O works. *)
Definition loads (io : IO) : Prop := io_Lock io = true ∧ io_Read io = true ∧ io_LoadRewrite io = true.

Lemma load_clean io w raw :
  default [] (d_File (w_disk w)) = raw → cleanFile raw → o_loaded (w_outbox w) = false → loads io →
  (loadLocked io w).2 = true ∧
  o_events (w_outbox (loadLocked io w).1) = capQueue (storedEvents raw).
Proof.
  intros Hf Hc Hl (Hk & Hr & Hw). unfold loadLocked. rewrite Hl, Hk, andb_false_r, Hr. cbn [negb onOutbox w_disk].
  destruct (d_File (w_disk w)) as [[|c file]|] eqn:Hd; simpl in Hf; subst raw; [done| |done].
  remember (c :: file) as raw eqn:Hraw. unfold parseOutbox. rewrite bool_decide_eq_false_2 by apply Hc.
  rewrite valid_map_sanitize by apply decoded_valid. fold (storedEvents raw).
  destruct (_ || _); [|done]. unfold rewriteLocked. rewrite Hw. done.
Qed.

Lemma filter_marshals_all l : Forall (λ e, is_Some (marshalEvent e)) l → List.filter marshals l = l.
Proof.
  intros Hl. apply filter_bool_all. intros e He. apply bool_decide_eq_true_2.
  by apply (proj1 (Forall_forall _ _) Hl).
Qed.

(** A rewritten cache ends in the newest events. *)
Lemma capQueue_stored q valid :
  Forall (λ e, is_Some (marshalEvent e)) valid →
  ∃ older, capQueue (coerced <$> List.filter marshals (capQueue (q ++ valid))) =
           capQueue (older ++ (coerced <$> valid)).
Proof.
  intros Hm.
  assert (Hcap : capQueue (q ++ valid) = drop (length q + length valid - OutboxMaxQueued) q ++ capQueue valid).
  { unfold capQueue. rewrite drop_app, length_app. f_equal. f_equal. lia. }
  rewrite Hcap, List.filter_app.
  rewrite (filter_marshals_all (capQueue valid)) by (by apply Forall_drop).
  rewrite fmap_app. set (pre := coerced <$> List.filter marshals _).
  assert (Hcv : coerced <$> capQueue valid = capQueue (coerced <$> valid))
    by (unfold capQueue; by rewrite fmap_drop, length_fmap).
  destruct (decide (length valid ≤ OutboxMaxQueued)%nat) as [Hle|Hgt].
  - exists pre. by rewrite (capQueue_short valid).
  - exists []. rewrite Hcv. unfold pre. rewrite drop_ge by lia. simpl.
    rewrite (capQueue_short (capQueue _)); [done|]. rewrite length_capQueue. lia.
Qed.

(** What an append that answered true left in the file. *)
Lemma appendLocked_stored events io w :
  Forall validEvent events → Forall (λ e, is_Some (marshalEvent e)) events →
  o_loaded (w_outbox w) = true → goodQueue (w_outbox w) → intact w →
  (appendLocked events io w).2 = true →
  let raw := default [] (d_File (w_disk (appendLocked events io w).1)) in
  cleanFile raw ∧ ∃ older, capQueue (storedEvents raw) = capQueue (older ++ (coerced <$> events)).
Proof.
  intros Hv Hm Hl Hg Hi. specialize (Hi Hl).
  pose proof (capped_good events (w_outbox w) Hv Hg Hl) as Hg1. unfold appendLocked.
  set (o1 := setEvents _ (w_outbox w)) in *. set (w1 := onOutbox _ w).
  assert (Hfall : ∀ w2, o_events (w_outbox w2) = o_events o1 →
    (rewriteLocked (io_Rewrite io) (io_DirSync io) w2).2 = true →
    let raw := default [] (d_File (w_disk (rewriteLocked (io_Rewrite io) (io_DirSync io) w2).1)) in
    cleanFile raw ∧ ∃ older, capQueue (storedEvents raw) = capQueue (older ++ (coerced <$> events))).
  { intros w2 He. unfold rewriteLocked. destruct (io_Rewrite io); simpl; [|done]. intros _. rewrite He. simpl.
    split; [by apply cleanFile_fileOf, Hg1|].
    assert (Hs : storedEvents (fileOf (capQueue (o_events (w_outbox w) ++ events))) =
            coerced <$> List.filter marshals (capQueue (o_events (w_outbox w) ++ events))).
    { apply (storedEvents_append []); [by left|apply Hg1]. }
    rewrite Hs. by apply capQueue_stored. }
  destruct (mapM eventLine events) as [lines|] eqn:Hmm; simpl; [|by apply Hfall].
  apply mapM_eventLine in Hmm.
  destruct (appendOutboxFile (concat lines) (io_Append io) (w_disk w)) as [d ok] eqn:Ha.
  match goal with |- context [{| w_outbox := ?x; w_disk := d |}] => set (w2 := {| w_outbox := x; w_disk := d |}) end.
  destruct (negb ok || _) eqn:Hcond; [by apply Hfall|].
  apply orb_false_iff in Hcond as [->%negb_false_iff _]. intros _. simpl.
  destruct (io_Append io); simpl in Ha; simplify_eq. simpl. rewrite Hmm.
  split; [by apply cleanFile_append|]. exists (storedEvents (default [] (d_File (w_disk w)))).
  rewrite storedEvents_append by (done || apply Hi). do 3 f_equal. by apply filter_marshals_all.
Qed.

(** The durable answer of an import.  However the outbox was used before,
    through restarts and power losses, as long as no failed append left the
    file torn by also failing its fallback rewrite: [EnqueueBatch] answers 0
    exactly when no event of the batch is valid, and a positive answer is the
    number of valid events, all of which a fresh process finds at the end of
    the queue (the newest 500 if there are more), whether the old process
    ended or the power failed, in the spelling JSON keeps of them. *)
Lemma batch_durable history d es io :
  Forall (λ s, healthy s.2) history →
  Forall (λ e, is_Some (marshalEvent e)) (omap validateOutboxEvent es) →
  let '(w, n) := EnqueueBatch es io (run history (start d)) in
  let valid := omap validateOutboxEvent es in
  (n = 0 ↔ valid = []) ∧ (0 < n ∨ n = 0 ∨ n = -1) ∧
  (0 < n → n = Z.of_nat (length valid) ∧
     ∀ lost io', loads io' →
       let '(w', ok) := loadLocked io' (reopen lost w) in
       ok = true ∧ ∃ older, o_events (w_outbox w') = capQueue (older ++ (coerced <$> valid))).
Proof.
  intros Hh Hm. destruct (run_good history d) as [Hg Hi]. specialize (Hi Hh).
  set (w0 := run history (start d)) in *. unfold EnqueueBatch.
  pose proof (omap_valid es) as Hv.
  destruct (omap validateOutboxEvent es) as [|e0 valid] eqn:Hes; [split_and!; [done|by right; left|lia]|].
  pose proof (ready_good io w0 Hg) as Hr. destruct (ready io w0) as [w1 ok].
  destruct Hr as (Hg1 & Hi1 & Hl1 & _).
  destruct ok; cbn [negb]; [|split_and!; [done|by right; right|lia]].
  pose proof (appendLocked_stored (e0 :: valid) io w1 Hv Hm (Hl1 eq_refl) Hg1 (Hi1 Hi)) as Ha.
  destruct (appendLocked (e0 :: valid) io w1) as [w2 ok2]. simpl in Ha.
  destruct ok2; cbn [negb]; [|split_and!; [done|by right; right|lia]].
  destruct (Ha eq_refl) as [Hc [older Hold]]. unfold syncOutboxFile.
  destruct (io_Sync io); cbn [negb]; [|split_and!; [done|by right; right|lia]].
  split_and!; [split; [cbn [length]; lia|done]|left; cbn [length]; lia|].
  intros _. split; [done|]. intros lost io' Hio.
  assert (Hfile : default [] (d_File (w_disk (reopen lost
    {| w_outbox := w_outbox w2; w_disk := {| d_File := d_File (w_disk w2); d_Stable := true |} |})))
    = default [] (d_File (w_disk w2))) by (by destruct lost).
  pose proof (load_clean io' _ _ Hfile Hc eq_refl Hio) as [Hok Hev].
  destruct (loadLocked io' _) as [w' ok']. simpl in *. split; [done|]. exists older. by rewrite Hev.
Qed.
End durability.

(** * The invariant of every history *)
Section typed.
Context `{EventJSON}.
#[local] Set Default Proof Using "Type".

(** The queue is well formed in every history of calls, failures, restarts
    and power losses: it never exceeds 500 events, each has its four identity
    fields, and an application-connection row carries no attributes.  As long
    as no append was torn without repair, the file of a loaded outbox holds
    complete lines only, each decoding to such an event and none carrying a
    destination, a protocol or an application row's attributes. *)
Lemma outbox_typed history d :
  let w := run history (start d) in
  (length (o_events (w_outbox w)) ≤ 500)%nat ∧
  Forall (λ e, e_EventID e ≠ "" ∧ e_Event e ≠ "" ∧ e_ClientID e ≠ "" ∧ e_SessionID e ≠ "" ∧
               (e_Event e = "application_connection" → e_Attributes e = ∅))%string (o_events (w_outbox w)) ∧
  (Forall (λ s, healthy s.2) history → o_loaded (w_outbox w) = true →
   let raw := default [] (d_File (w_disk w)) in
   (raw = [] ∨ last raw = Some newline) ∧
   ∀ line, line ∈ sourceLines raw →
     ∃ e, decodeOutboxEvent line = Some e ∧ validEvent e ∧
          (∀ p, decodeProbe line = Some p →
             pb_DestinationIP p = false ∧ pb_DestinationPort p = false ∧ pb_Protocol p = false ∧
             (isApplicationConnection e = true → pb_Attributes p = 0%nat))).
Proof.
  destruct (run_good history d) as [[Hv Hlen _] Hi]. cbv zeta. split_and!; [done| |].
  - eapply Forall_impl; [exact Hv|]. intros e He.
    pose proof (valid_no_attributes e He) as Hna. unfold validEvent, validateOutboxEvent in He.
    destruct (_ || _) eqn:Hc; [done|]. rewrite !orb_false_iff in Hc. unfold str_empty in Hc.
    rewrite !bool_decide_eq_false in Hc. destruct Hc as [[[? ?] ?] ?]. split_and!; try done.
    intros Hk. by apply Hna, str_eqb_true.
  - intros Hh Hl. destruct (Hi Hh Hl) as [He _ Hf]. split; [done|]. intros line Hline.
    destruct (proj1 (Forall_forall _ _) Hf line Hline) as (e & Hd & Hs). exists e. split_and!; [done| |].
    + unfold decodeOutboxEvent in Hd. destruct (decodeEvent line); [|done]. by eapply validate_valid.
    + intros p Hp. unfold outboxLineNeedsScrub in Hs. rewrite Hp in Hs.
      destruct (_ || _) eqn:Ho; [done|]. rewrite !orb_false_iff in Ho. destruct Ho as [[? ?] ?].
      split_and!; try done. intros Ha. rewrite Ha in Hs. simpl in Hs. destruct (pb_Attributes p); done.
Qed.

(** A heartbeat can destroy an event that a flush delivers.  An event that
    fits a request of its own, but not one that also carries the heartbeat,
    is selected for upload by [FlushNextBatch] and discarded as unsendable by
    [SendHeartbeat], which empties the queue although nothing was sent. *)
Lemma heartbeat_discards_sendable e hb n k telemetryURL io ioOver ioSent w :
  o_loaded (w_outbox w) = true → o_closed (w_outbox w) = false → o_events (w_outbox w) = [e] →
  validEvent hb → sameIdentity hb e = true →
  eventSize e = Some n → eventSize hb = Some k →
  outboxBatchByteBudget - k < n ≤ outboxBatchByteBudget →
  (flushSelect io w).2 = Ok ([e], [], 1%nat) ∧
  let '(w', r) := SendHeartbeat telemetryURL (λ _, Some ErrSend) id id hb io ioOver ioSent w in
  o_events (w_outbox w') = [] ∧ fr_Sent r = 0%nat ∧ fr_Err r ≠ None.
Proof.
  intros Hl Hc He Hhb Hid Hn Hk [Hlo Hhi].
  assert (Hload : loadLocked io w = (w, true)) by (unfold loadLocked; by rewrite Hl).
  assert (Hsel : outboxUploadBatch [e] outboxBatchSize outboxBatchByteBudget = ([e], [])).
  { unfold outboxUploadBatch, outboxBatchSize. cbn [selectLoop]. rewrite sameIdentity_refl, Hn. simpl.
    rewrite (proj2 (Z.ltb_ge _ _)) by done. rewrite (proj2 (Z.ltb_ge _ _)) by lia.
    destruct (isApplicationConnection e); [|done]. unfold addApplication. simpl. rewrite lookup_empty.
    pose proof (applicationConnectionCount_range e).
    rewrite (proj2 (Z.ltb_ge (maxReportedFlows - default 0 None) _)) by (simpl; lia). done. }
  assert (Hover : outboxUploadBatch [e] (outboxBatchSize - 1) (heartbeatBudget hb) = ([], [e])).
  { unfold outboxUploadBatch, outboxBatchSize, heartbeatBudget. cbn [selectLoop].
    rewrite sameIdentity_refl, Hn, Hk. simpl. rewrite (proj2 (Z.ltb_lt _ _)) by lia. done. }
  split; [unfold flushSelect; by rewrite Hc, Hload, He, Hsel|].
  unfold SendHeartbeat. rewrite Hhb. unfold heartbeatSelect. rewrite Hc, Hload. cbn [fst]. rewrite He, Hid, Hover.
  unfold discardOversized, removeSent. cbn [id]. rewrite Hc, He.
  cbn [List.filter existsb sentIn]. rewrite (proj2 (str_eqb_true _ _) eq_refl). cbn [orb negb].
  unfold rewriteLocked. destruct (io_Rewrite ioOver), telemetryURL; simpl; done.
Qed.
End typed.

(** * A codec to compute with

    Binary digits of the encoded event, padded with one byte per unit of the
    application's id so that an event can have any size. *)
#[global] Instance Event_countable : Countable Event.
Proof.
  refine (inj_countable
    (λ e, [encode (e_SchemaVersion e); encode (e_EventID e); encode (e_Event e); encode (e_OccurredAt e);
           encode (e_ClientID e); encode (e_SessionID e); encode (e_RelayID e); encode (e_Application e);
           encode (e_ApplicationID e); encode (e_Attributes e); encode (e_Measurements e)])
    (λ l, match l with
          | [a; b; c; d; e; f; g; h; i; j; k] =>
              a ← decode a; b ← decode b; c ← decode c; d ← decode d; e ← decode e; f ← decode f;
              g ← decode g; h ← decode h; i ← decode i; j ← decode j; k ← decode k;
              Some {| e_SchemaVersion := a; e_EventID := b; e_Event := c; e_OccurredAt := d; e_ClientID := e;
                      e_SessionID := f; e_RelayID := g; e_Application := h; e_ApplicationID := i;
                      e_Attributes := j; e_Measurements := k |}
          | _ => None
          end) _).
  intros []. cbn. repeat (rewrite decode_encode; cbn). done.
Defined.

Module TestJSON.
Fixpoint digits (p : positive) : list byte :=
  match p with
  | xH => [chr 46]
  | xO p => chr 48 :: digits p
  | xI p => chr 49 :: digits p
  end.

Fixpoint undigits (bs : list byte) : option positive :=
  match bs with
  | [] => None
  | c :: bs =>
      if val c =? 46 then Some xH else
      if val c =? 48 then xO <$> undigits bs else
      if val c =? 49 then xI <$> undigits bs else None
  end.

Definition marshal (e : Event) : option (list byte) :=
  Some (brace :: digits (encode e) ++ replicate (Z.to_nat (e_ApplicationID e)) (chr 46)).

Definition unmarshal (b : list byte) : option Event :=
  match b with [] => None | _ :: b => undigits b ≫= decode end.

Lemma undigits_digits p rest : undigits (digits p ++ rest) = Some p.
Proof. induction p as [p IH|p IH|]; simpl; [..|done]; by rewrite IH. Qed.

Lemma unmarshal_marshal e b : marshal e = Some b → unmarshal b = Some e.
Proof.
  unfold marshal, unmarshal. intros [= <-]. rewrite undigits_digits. simpl. by rewrite decode_encode.
Qed.

Lemma lacks_digits p : lacks 10 (digits p) = true.
Proof. by induction p. Qed.

Lemma lacks_replicate n : lacks 10 (replicate n (chr 46)) = true.
Proof. by induction n. Qed.

#[refine] Definition json : EventJSON := {|
  marshalEvent := marshal;
  decodeEvent := unmarshal;
  decodeProbe b := (λ e, {| pb_Attributes := size (e_Attributes e); pb_DestinationIP := false;
                            pb_DestinationPort := false; pb_Protocol := false |}) <$> unmarshal b;
  arrayMessages _ := [];
  coerced e := e |}.
Proof.
  - apply unmarshal_marshal.
  - intros e b Hb. by rewrite (unmarshal_marshal e b Hb).
  - by intros e b [= <-].
  - intros e b [= <-]. simpl. rewrite lacks_app, lacks_digits. apply lacks_replicate.
  - intros e. by destruct (validateOutboxEvent e).
Defined.
End TestJSON.

(** * Examples *)
Definition exampleEvent (id : string) (size : Z) : Event :=
  {| e_SchemaVersion := 1; e_EventID := id; e_Event := "relay_selected"; e_OccurredAt := 0; e_ClientID := "c";
     e_SessionID := "s"; e_RelayID := "r"; e_Application := ""; e_ApplicationID := size;
     e_Attributes := ∅; e_Measurements := ∅ |}.

Definition goodIO : IO :=
  {| io_Lock := true; io_Read := true; io_LoadRewrite := true; io_Append := AppendOK; io_Rewrite := true;
     io_DirSync := true; io_Sync := true |}.

(** A full disk: three bytes of the append land, and the fallback rewrite
    fails too. *)
Definition fullDisk : IO :=
  {| io_Lock := true; io_Read := true; io_LoadRewrite := true; io_Append := AppendWrote 3; io_Rewrite := false;
     io_DirSync := true; io_Sync := true |}.

Definition emptyDisk : disk := {| d_File := None; d_Stable := true |}.

(** An import can be answered as durable and be lost.  After an append that
    reached the file only in part and whose fallback rewrite failed as well,
    the queue goes on appending after the torn line: [EnqueueBatch] answers 1,
    and a fresh process reads none of it back, since the imported event shares
    a line with the fragment. *)
Lemma torn_import_lost :
  ∃ (J : EventJSON) (before imported : Event),
    let w := run [(OpEnqueue before, fullDisk)] (start emptyDisk) in
    (EnqueueBatch [imported] goodIO w).2 = 1 ∧
    let '(w', ok) := loadLocked goodIO (reopen None (EnqueueBatch [imported] goodIO w).1) in
    ok = true ∧ o_events (w_outbox w') = [].
Proof.
  exists TestJSON.json, (exampleEvent "a" 0), (exampleEvent "b" 0). by vm_compute.
Qed.

Lemma batch_durable_witness :
  let J := TestJSON.json in
  let history := [(OpEnqueue (exampleEvent "a" 0), goodIO); (OpReopen None, goodIO)] in
  let '(w, n) := EnqueueBatch [exampleEvent "b" 0; exampleEvent "" 0] goodIO (run history (start emptyDisk)) in
  n = 1 ∧
  let '(w', ok) := loadLocked goodIO (reopen (Some None) w) in
  ok = true ∧ ∃ older, o_events (w_outbox w') = capQueue (older ++ [exampleEvent "b" 0]).
Proof.
  cbv zeta.
  pose proof (@batch_durable TestJSON.json
    [(OpEnqueue (exampleEvent "a" 0), goodIO); (OpReopen None, goodIO)] emptyDisk
    [exampleEvent "b" 0; exampleEvent "" 0] goodIO) as Hd.
  assert (Hn : (@EnqueueBatch TestJSON.json [exampleEvent "b" 0; exampleEvent "" 0] goodIO
    (@run TestJSON.json [(OpEnqueue (exampleEvent "a" 0), goodIO); (OpReopen None, goodIO)] (start emptyDisk))).2
    = 1) by (by vm_compute).
  destruct (@EnqueueBatch TestJSON.json _ goodIO _) as [w n]. simpl in Hn. subst n.
  destruct Hd as (_ & _ & Hpos).
  - by repeat constructor.
  - apply Forall_forall. intros e _. by eexists.
  - split; [done|]. destruct Hpos as [_ Hload]; [done|].
    specialize (Hload (Some None) goodIO (conj eq_refl (conj eq_refl eq_refl))).
    destruct (@loadLocked TestJSON.json goodIO _) as [w' ok]. exact Hload.
Defined.

(** The sizes: an event of about 523000 bytes and a heartbeat of some 300. *)
Lemma size_example id n : 0 ≤ n →
  @eventSize TestJSON.json (exampleEvent id n) =
  Some (Z.of_nat (length (TestJSON.digits (encode (exampleEvent id n)))) + n + 2).
Proof.
  intros Hn. unfold eventSize. simpl. f_equal. rewrite length_app, length_replicate. simpl. lia.
Qed.

Lemma heartbeat_discards_sendable_witness :
  let J := TestJSON.json in
  let e := exampleEvent "a" 522800 in let hb := exampleEvent "hb" 0 in
  let w := {| w_outbox := {| o_lockFile := true; o_loaded := true; o_events := [e]; o_fileLines := 1;
                             o_closed := false |};
              w_disk := emptyDisk |} in
  (flushSelect goodIO w).2 = Ok ([e], [], 1%nat) ∧
  o_events (w_outbox (SendHeartbeat None (λ _, Some ErrSend) id id hb goodIO goodIO goodIO w).1) = [].
Proof.
  cbv zeta. set (e := exampleEvent "a" 522800). set (hb := exampleEvent "hb" 0).
  assert (Hlen : 300 ≤ Z.of_nat (length (TestJSON.digits (encode e))) ≤ 400)
    by (split; apply Z.leb_le; by vm_compute).
  assert (Hhb : 200 ≤ Z.of_nat (length (TestJSON.digits (encode hb)))) by (apply Z.leb_le; by vm_compute).
  pose proof (@heartbeat_discards_sendable TestJSON.json e hb
    (Z.of_nat (length (TestJSON.digits (encode e))) + 522800 + 2)
    (Z.of_nat (length (TestJSON.digits (encode hb))) + 0 + 2) None goodIO goodIO goodIO
    {| w_outbox := {| o_lockFile := true; o_loaded := true; o_events := [e]; o_fileLines := 1; o_closed := false |};
       w_disk := emptyDisk |} eq_refl eq_refl eq_refl) as Hd.
  destruct Hd as [Hf Hs].
  - by vm_compute.
  - by vm_compute.
  - by apply size_example.
  - by apply size_example.
  - change outboxBatchByteBudget with 523264. lia.
  - split; [exact Hf|].
    destruct (@SendHeartbeat TestJSON.json _ _ _ _ _ _ _ _ _) as [w' r]. by destruct Hs.
Defined.

Lemma outbox_typed_witness :
  let J := TestJSON.json in
  let w := run [(OpEnqueue (exampleEvent "a" 0), goodIO); (OpEnqueue (exampleEvent "b" 0), goodIO)]
             (start emptyDisk) in
  last (default [] (d_File (w_disk w))) = Some newline.
Proof.
  cbv zeta.
  destruct (@outbox_typed TestJSON.json
    [(OpEnqueue (exampleEvent "a" 0), goodIO); (OpEnqueue (exampleEvent "b" 0), goodIO)] emptyDisk)
    as (_ & _ & Hfile).
  destruct Hfile as [[He|Hl] _]; [by repeat constructor|by vm_compute|by vm_compute in He|exact Hl].
Defined.
