(* ===== verification/ClientTelemetry.v ===== *)
(** The client's telemetry (src/libs/brokerapi/telemetry.go and
    src/libs/connectcore/clienttelemetry/manager.go, host.go, client.go, with the
    engine's send function of connectcore/helpers.go): what a batch must be to
    reach the wire, the manager's session, its two queues and the drains.

    A [Manager] is its fields, a method one function of them; where a method
    takes the mutex twice around an upload, nothing else runs in between here
    ([Outbox] covers such interleavings).  Clocks, random identifiers, device and host
    attributes are arguments, the file system answers come from a stream. *)
From stdpp Require Import base list gmap strings.
From Stdlib Require Import ZArith Lia.
From S2P Require Import Prelude Codec BrokerStore Telemetry Discovery Outbox.

(** * One request *)
Definition MaxTelemetryEvents : nat := 200.
Definition SchemaVersion : Z := 1.

Inductive TelemetryError :=
| ErrTooManyEvents
| ErrMixedIdentities
| ErrEncodeBatch
| ErrDecodeBatch
| ErrBodyTooLarge
| ErrTelemetryURL
| ErrExchange
| TelemetryStatusError (statusCode : Z).

Section request.
Context `{EventJSON}.
#[local] Set Default Proof Using "Type".

(** [telemetryIdentity]; the caller has checked the batch is not empty. *)
Definition telemetryIdentity (events : list Event) : option Identity :=
  match events with
  | [] => None
  | first :: rest =>
      if forallb (sameIdentity first) rest
      then Some {| ClientID := e_ClientID first; SessionID := e_SessionID first |} else None
  end.

Definition quote : byte := chr 34.
Definition comma : byte := chr 44.

(** [json.Marshal(telemetryBatch{Events: events})]: an object with the one
    key "events" and the array of the events. *)
Definition telemetryBody (events : list Event) : option (list byte) :=
  (λ lines, (brace :: quote :: bytes "events" ++ [quote; chr 58; bracket])
            ++ joinWith comma lines ++ [chr 93; chr 125]) <$> mapM marshalEvent events.

(** [exchange] is the HTTP round trip: the status, or nothing for an error. *)
Definition sendTelemetryJSON (telemetryURL : option string)
    (exchange : string → Identity → list byte → option Z) (body : list byte) (identity : Identity)
    : option TelemetryError :=
  if MaxTelemetryBodyBytes <? Z.of_nat (length body) then Some ErrBodyTooLarge else
  match telemetryURL with
  | None => Some ErrTelemetryURL
  | Some endpoint =>
      match exchange endpoint identity body with
      | None => Some ErrExchange
      | Some status => if (status <? 200) || (300 <=? status) then Some (TelemetryStatusError status) else None
      end
  end.

Definition SendTelemetry (telemetryURL : option string)
    (exchange : string → Identity → list byte → option Z) (events : list Event) : option TelemetryError :=
  if (length events =? 0)%nat then None else
  if (MaxTelemetryEvents <? length events)%nat then Some ErrTooManyEvents else
  match telemetryIdentity events with
  | None => Some ErrMixedIdentities
  | Some identity =>
      match telemetryBody events with
      | None => Some ErrEncodeBatch
      | Some body => sendTelemetryJSON telemetryURL exchange body identity
      end
  end.

(** [decodeBatch] is the JSON decoder over the whole body, nothing if it
    fails or leaves a second value. *)
Definition SendTelemetryBatchJSON (decodeBatch : list byte → option (list Event))
    (telemetryURL : option string) (exchange : string → Identity → list byte → option Z) (body : list byte)
    : option TelemetryError :=
  if MaxTelemetryBodyBytes <? Z.of_nat (length body) then Some ErrBodyTooLarge else
  match decodeBatch body with
  | None => Some ErrDecodeBatch
  | Some events => SendTelemetry telemetryURL exchange events
  end.

(** The engine's send function: a definitive refusal marks the batch. *)
Definition telemetryOutboxSend (telemetryURL : option string)
    (exchange : string → Identity → list byte → option Z) (events : list Event) : option OutboxError :=
  match SendTelemetry telemetryURL exchange events with
  | None => None
  | Some (TelemetryStatusError code) =>
      if (400 <=? code) && (code <? 500) && negb (code =? 408) && negb (code =? 429)
      then Some ErrBatchRejected else Some ErrSend
  | Some _ => Some ErrSend
  end.

(** The request body is its lines, one separator each, and 12 bytes more. *)
Lemma length_joinWith (lines : list (list byte)) :
  lines ≠ [] →
  Z.of_nat (length (joinWith comma lines)) = foldr (λ l acc, Z.of_nat (length l) + 1 + acc) 0 lines - 1.
Proof.
  induction lines as [|l [|l' lines] IH]; [done|intros _; simpl; lia|]. intros _.
  change (joinWith comma (l :: l' :: lines)) with (l ++ comma :: joinWith comma (l' :: lines)).
  rewrite length_app. cbn [length]. rewrite Nat2Z.inj_add, Nat2Z.inj_succ, IH by done. cbn [foldr]. lia.
Qed.

Lemma requestBytes_lines events lines :
  mapM marshalEvent events = Some lines →
  requestBytes events = foldr (λ l acc, Z.of_nat (length l) + 1 + acc) 0 lines.
Proof.
  intros Hm%mapM_Some. induction Hm as [|e line l lines He _ IH]; [done|].
  cbn [requestBytes foldr]. unfold eventSize at 1. rewrite He. simpl. fold (requestBytes l). lia.
Qed.

Lemma length_telemetryBody events body :
  events ≠ [] → telemetryBody events = Some body → Z.of_nat (length body) = requestBytes events + 12.
Proof.
  unfold telemetryBody. intros Hne. destruct (mapM marshalEvent events) as [lines|] eqn:Hm; [|done].
  simpl. intros [= <-]. rewrite (requestBytes_lines events lines Hm).
  assert (Hl : lines ≠ []) by (apply mapM_Some in Hm; intros ->; inversion Hm; by subst).
  cbn [length]. rewrite length_app. cbn [length]. rewrite !Nat2Z.inj_succ, Nat2Z.inj_add, length_joinWith by done.
  cbn [length]. lia.
Qed.
End request.

(** What the broker decodes of an event: its own struct has three more keys,
    which the client no longer sends. *)
Definition wireEvent (e : Event) : TelemetryEvent :=
  {| ev_SchemaVersion := e_SchemaVersion e; ev_EventID := e_EventID e; ev_Event := e_Event e;
     ev_OccurredAt := e_OccurredAt e; ev_ClientID := e_ClientID e; ev_SessionID := e_SessionID e;
     ev_RelayID := e_RelayID e; ev_Application := e_Application e; ev_ApplicationID := e_ApplicationID e;
     ev_DestinationIP := ""; ev_DestinationPort := 0; ev_Protocol := "";
     ev_Attributes := e_Attributes e; ev_Measurements := e_Measurements e |}.

(** The counts the broker grants the application rows of one batch, in order. *)
Fixpoint grantedCounts (c : batchCounter) (rows : list TelemetryEvent) : list Z :=
  match rows with
  | [] => []
  | row :: rows => let '(count, c) := take_ c row in count :: grantedCounts c rows
  end.

Definition applicationRows (events : list Event) : list Event := List.filter isApplicationConnection events.

Lemma flowsOf_cons a e l :
  flowsOf a (e :: l) = (if isApplicationConnection e && str_eqb (e_Application e) a
                        then applicationConnectionCount e else 0) + flowsOf a l.
Proof. done. Qed.

Lemma flowsOf_rows a l : flowsOf a (applicationRows l) = flowsOf a l.
Proof.
  unfold applicationRows. induction l as [|e l IH]; [done|]. cbn [List.filter]. rewrite (flowsOf_cons a e l).
  destruct (isApplicationConnection e) eqn:Ha; [by rewrite flowsOf_cons, Ha, IH|by rewrite IH].
Qed.

Lemma flowsOf_nonneg a l : 0 ≤ flowsOf a l.
Proof.
  induction l as [|e l IH]; [done|]. rewrite flowsOf_cons. pose proof (applicationConnectionCount_range e).
  destruct (_ && _); lia.
Qed.

Lemma wire_count e : telemetryAppConnectionCount (wireEvent e) = applicationConnectionCount e.
Proof.
  unfold telemetryAppConnectionCount, applicationConnectionCount, applicationCountKey,
    telemetryAppConnectionCountMeasurement, maxReportedFlows, maxTelemetryAppConnectionCount. simpl.
  destruct (e_Measurements e !! "connection_count"%string) as [c|]; [|done].
  destruct (Z.leb_spec c 0), (Z.ltb_spec c 1), (Z.ltb_spec 100000 c); simpl; done || lia.
Qed.

(** Rows within the flow budget are granted in full. *)
Lemma grantedCounts_full rows c :
  Forall (λ e, isApplicationConnection e = true) rows →
  (∀ a, 0 ≤ usedBy c a ∧ usedBy c a + flowsOf a rows ≤ maxReportedFlows) →
  grantedCounts c (wireEvent <$> rows) = applicationConnectionCount <$> rows.
Proof.
  intros Hr. revert c. induction Hr as [|e rows He _ IH]; intros c Hc; [done|].
  assert (Hcons : ∀ a, flowsOf a (e :: rows) =
            (if str_eqb (e_Application e) a then applicationConnectionCount e else 0) + flowsOf a rows)
    by (intros a; by rewrite flowsOf_cons, He).
  pose proof (applicationConnectionCount_range e) as Hn.
  destruct (Hc (e_Application e)) as [Hu Hsum]. rewrite Hcons, (proj2 (str_eqb_true _ _) eq_refl) in Hsum.
  pose proof (flowsOf_nonneg (e_Application e) rows).
  csimpl. unfold take_. rewrite wire_count. cbn [ev_Application wireEvent]. fold (usedBy c (e_Application e)).
  unfold maxReportedFlows, maxTelemetryAppConnectionCount in *.
  rewrite (proj2 (Z.leb_gt _ _)) by lia. rewrite Z.min_l by lia. f_equal. apply IH.
  intros a. specialize (Hc a). rewrite Hcons in Hc. rewrite usedBy_insert.
  destruct (decide (a = e_Application e)) as [->|Ha].
  - lia.
  - destruct (str_eqb (e_Application e) a) eqn:E; [apply str_eqb_true in E; congruence|]. lia.
Qed.

Section uploads.
Context `{EventJSON}.
#[local] Set Default Proof Using "Type".

(** A batch whose upload depends on the network and the broker alone. *)
Definition reachesWire (events : list Event) : Prop :=
  ∃ identity body,
    Forall (λ e, e_ClientID e = ClientID identity ∧ e_SessionID e = SessionID identity) events ∧
    telemetryBody events = Some body ∧ Z.of_nat (length body) ≤ MaxTelemetryBodyBytes ∧
    ∀ endpoint exchange,
      SendTelemetry (Some endpoint) exchange events =
      match exchange endpoint identity body with
      | None => Some ErrExchange
      | Some status => if (status <? 200) || (300 <=? status) then Some (TelemetryStatusError status) else None
      end.

Lemma reachesWire_intro first events :
  events ≠ [] → (length events ≤ 200)%nat →
  Forall (λ e, sameIdentity first e = true) events →
  Forall (λ e, is_Some (marshalEvent e)) events →
  requestBytes events ≤ outboxBatchByteBudget →
  reachesWire events.
Proof.
  intros Hne Hlen Hid Hm Hb.
  destruct (mapM marshalEvent events) as [lines|] eqn:Hl.
  2: { apply mapM_is_Some_2 in Hm. rewrite Hl in Hm. by destruct Hm. }
  destruct (telemetryBody events) as [body|] eqn:Hbody; [|unfold telemetryBody in Hbody; by rewrite Hl in Hbody].
  pose proof (length_telemetryBody events body Hne Hbody) as Hlb.
  assert (Hmax : Z.of_nat (length body) ≤ MaxTelemetryBodyBytes) by (unfold outboxBatchByteBudget in Hb; lia).
  assert (Hsame : ∀ e, sameIdentity first e = true →
            e_ClientID e = e_ClientID first ∧ e_SessionID e = e_SessionID first).
  { intros e [?%str_eqb_true ?%str_eqb_true]%andb_true_iff. done. }
  exists {| ClientID := e_ClientID first; SessionID := e_SessionID first |}, body.
  split_and!; [eapply Forall_impl; [exact Hid|exact Hsame]|done|done|].
  intros endpoint exchange. unfold SendTelemetry, sendTelemetryJSON.
  assert (Hident : telemetryIdentity events =
            Some {| ClientID := e_ClientID first; SessionID := e_SessionID first |}).
  { destruct events as [|e rest]; [done|]. inversion Hid as [|? ? He Hrest]; subst.
    destruct (Hsame e He) as [Hc Hs]. simpl.
    assert (forallb (sameIdentity e) rest = true) as ->; [|by rewrite Hc, Hs].
    apply forallb_forall. intros x Hx%list_elem_of_In.
    pose proof (proj1 (Forall_forall _ _) Hrest x Hx) as Hx'. destruct (Hsame x Hx') as [Hxc Hxs].
    unfold sameIdentity. by rewrite Hc, Hs, Hxc, Hxs, !(proj2 (str_eqb_true _ _) eq_refl). }
  rewrite Hident, Hbody.
  destruct (Nat.eqb_spec (length events) 0) as [Hz|_]; [by destruct events|].
  unfold MaxTelemetryEvents. destruct (Nat.ltb_spec 200 (length events)); [lia|].
  by rewrite (proj2 (Z.ltb_ge _ _) Hmax).
Qed.

Lemma sendable_marshals budget e : unsendable budget e = false → is_Some (marshalEvent e).
Proof. unfold unsendable, eventSize. by destruct (marshalEvent e) as [b|]; [eexists|]. Qed.

Lemma selected_granted first limit budget seen s :
  selected first limit budget seen s →
  grantedCounts ∅ (wireEvent <$> applicationRows (batch s)) = applicationConnectionCount <$> applicationRows (batch s).
Proof.
  intros Hs. apply grantedCounts_full.
  - apply Forall_forall. intros e He. by apply elem_of_filter_bool in He as [_ ?].
  - intros a. rewrite flowsOf_rows. unfold usedBy. rewrite lookup_empty. simpl.
    pose proof (sel_flows _ _ _ _ _ Hs a). lia.
Qed.

Lemma applicationRows_snoc l e : isApplicationConnection e = false → applicationRows (l ++ [e]) = applicationRows l.
Proof. intros He. unfold applicationRows. rewrite List.filter_app. simpl. rewrite He. apply app_nil_r. Qed.

Lemma uploads_facts io w :
  (∀ w' b over n, flushSelect io w = (w', Ok (b, over, n)) → b ≠ [] →
     reachesWire b ∧
     grantedCounts ∅ (wireEvent <$> applicationRows b) = applicationConnectionCount <$> applicationRows b) ∧
  (∀ hb w' b over n, heartbeatSelect hb io w = (w', Ok (b, over, n)) →
     unsendable outboxBatchByteBudget hb = false → isApplicationConnection hb = false →
     reachesWire (b ++ [hb]) ∧
     grantedCounts ∅ (wireEvent <$> applicationRows (b ++ [hb])) =
     applicationConnectionCount <$> applicationRows (b ++ [hb])).
Proof.
  split.
  - intros w' b over n Hsel Hne. unfold flushSelect in Hsel.
    destruct (o_closed _); [done|]. destruct (loadLocked io w) as [w1 []]; cbn [negb] in Hsel; [|done].
    destruct (o_events (w_outbox w1)) as [|first rest].
    { simpl in Hsel. by simplify_eq. }
    destruct (outboxUploadBatch_selected first rest outboxBatchSize outboxBatchByteBudget eq_refl) as (s & Heq & Hs).
    rewrite Heq in Hsel. simplify_eq. split; [|by eapply selected_granted].
    destruct Hs as [_ Hid _ _ Hlen _ Hbud _ _].
    apply (reachesWire_intro first); [done|unfold outboxBatchSize in Hlen; lia|..].
    + eapply Forall_impl; [exact Hid|]. by intros e [? _].
    + eapply Forall_impl; [exact Hid|]. intros e [_ ?]. by eapply sendable_marshals.
    + assert (0 ≤ outboxBatchByteBudget) by done. lia.
  - intros hb w' b over n Hsel Hhb Hkind. unfold heartbeatSelect in Hsel.
    destruct (o_closed _); [done|].
    assert (Halone : reachesWire [hb]).
    { apply (reachesWire_intro hb); [done|simpl; lia|..]; try (repeat constructor; apply sameIdentity_refl).
      - repeat constructor. by eapply sendable_marshals.
      - unfold unsendable in Hhb. unfold requestBytes. simpl. destruct (eventSize hb); [simpl; lia|done]. }
    rewrite applicationRows_snoc by done.
    destruct (o_events (w_outbox (loadLocked io w).1)) as [|first rest]; [by simplify_eq|].
    destruct (sameIdentity hb first) eqn:Hfirst; [|by simplify_eq].
    destruct (outboxUploadBatch_selected first rest (outboxBatchSize - 1) (heartbeatBudget hb) eq_refl)
      as (s & Heq & Hs).
    rewrite Heq in Hsel. simplify_eq. split; [|by eapply selected_granted].
    destruct Hs as [_ Hid _ _ Hlen _ Hbud _ _].
    destruct (eventSize hb) as [size|] eqn:Hsize; [|unfold unsendable in Hhb; by rewrite Hsize in Hhb].
    unfold heartbeatBudget in Hbud. rewrite Hsize in Hbud. simpl in Hbud.
    unfold unsendable in Hhb. rewrite Hsize in Hhb.
    apply (reachesWire_intro first); [by destruct (batch s)| |..].
    + rewrite length_app. cbn [length]. unfold outboxBatchSize in Hlen. lia.
    + apply Forall_app. split; [eapply Forall_impl; [exact Hid|]; by intros e [? _]|].
      repeat constructor. unfold sameIdentity in *.
      apply andb_true_iff in Hfirst as [->%str_eqb_true ->%str_eqb_true].
      by rewrite !(proj2 (str_eqb_true _ _) eq_refl).
    + apply Forall_app. split; [eapply Forall_impl; [exact Hid|]; intros e [_ ?]; by eapply sendable_marshals|].
      repeat constructor. unfold eventSize in Hsize. by destruct (marshalEvent hb).
    + rewrite requestBytes_app. unfold requestBytes at 2. simpl. rewrite Hsize. simpl. lia.
Qed.

(** What the outbox uploads is never refused on the way.  The batch a flush
    selects, and the batch a heartbeat takes along with the heartbeat itself,
    pass every check of the client (at most 200 events, one identity, the
    body cap), so that only the network and the broker decide; and of their
    application rows the broker's own budget grants every count in full. *)
Lemma uploads_accepted io w :
  (∀ w' b over n, flushSelect io w = (w', Ok (b, over, n)) → b ≠ [] →
     reachesWire b ∧
     grantedCounts ∅ (wireEvent <$> applicationRows b) = applicationConnectionCount <$> applicationRows b) ∧
  (∀ hb w' b over n, heartbeatSelect hb io w = (w', Ok (b, over, n)) →
     unsendable outboxBatchByteBudget hb = false → isApplicationConnection hb = false →
     reachesWire (b ++ [hb]) ∧
     grantedCounts ∅ (wireEvent <$> applicationRows (b ++ [hb])) =
     applicationConnectionCount <$> applicationRows (b ++ [hb])).
Proof. apply uploads_facts. Qed.
End uploads.

(** * Draining the store *)
Section drain.
Context `{EventJSON}.
#[local] Set Default Proof Using "Type".

(** The batch a flush puts on the wire. *)
Definition uploaded (io : IO) (w : world) : list Event :=
  match (flushSelect io w).2 with Ok (b, _, _) => b | Err _ => [] end.

(** The [storeDrain] loop of [Manager.Flush], with the uploads it makes; [live]
    is the context's state at each round and [ios] the file system's answers,
    three per round.  An unavailable store ends it without an error. *)
Fixpoint storeDrain (fuel : nat) (telemetryURL : option string) (send : list Event → option OutboxError)
    (live : nat → bool) (ios : nat → IO) (i : nat) (w : world)
    : option (world * option OutboxError * list (list Event)) :=
  match fuel with
  | O => None
  | S fuel =>
      if negb (live i) then Some (w, Some ErrCanceled, []) else
      let b := uploaded (ios (3 * i)%nat) w in
      let '(w', r) := FlushNextBatch telemetryURL send id id
                        (ios (3 * i)%nat) (ios (3 * i + 1)%nat) (ios (3 * i + 2)%nat) w in
      match fr_Err r with
      | Some ErrOutboxUnavailable => Some (w', None, [])
      | Some err => Some (w', Some err, [b])
      | None =>
          if (fr_Pending r =? 0)%nat then Some (w', None, [b]) else
          match storeDrain fuel telemetryURL send live ios (S i) w' with
          | Some (w'', err, bs) => Some (w'', err, b :: bs)
          | None => None
          end
      end
  end.

Definition ids (l : list Event) : list string := e_EventID <$> l.

Lemma sentIn_elem q sent e :
  NoDup (ids q) → sent `sublist_of` q → e ∈ q → sentIn sent e = true ↔ e ∈ sent.
Proof.
  intros Hnd Hsub He. unfold sentIn. rewrite existsb_exists. split.
  - intros (x & Hx%list_elem_of_In & Hid%str_eqb_true).
    assert (x = e) as ->; [|done].
    apply list_elem_of_lookup in He as [i Hi].
    eapply elem_of_sublist in Hx; [|exact Hsub]. apply list_elem_of_lookup in Hx as [j Hj].
    assert (j = i) as ->; [|congruence].
    eapply (NoDup_lookup (ids q)); [done| |]; unfold ids; rewrite list_lookup_fmap.
    + rewrite Hj. done.
    + rewrite Hi. simpl. by rewrite Hid.
  - intros Hs. exists e. split; [by apply list_elem_of_In|by apply str_eqb_true].
Qed.

(** What is left after removing some of the queue, and that the parts make up
    the whole. *)
Lemma removed_permutation q sent :
  NoDup (ids q) → sent `sublist_of` q →
  q ≡ₚ sent ++ List.filter (λ e, negb (sentIn sent e)) q.
Proof.
  intros Hnd Hsub.
  assert (Hq : NoDup q) by by eapply NoDup_fmap_1.
  apply NoDup_Permutation; [done| |].
  - apply NoDup_app. split_and!.
    + by eapply sublist_NoDup.
    + intros x Hx [Hq' Hn]%elem_of_filter_bool.
      rewrite (proj2 (sentIn_elem q sent x Hnd Hsub Hq') Hx) in Hn. done.
    + eapply sublist_NoDup; [exact Hq|apply filter_bool_sublist].
  - intros x. rewrite elem_of_app, elem_of_filter_bool. split.
    + intros Hx. destruct (sentIn sent x) eqn:E; [left|by right].
      by apply (sentIn_elem q).
    + intros [Hx|[Hx _]]; [by eapply elem_of_sublist|done].
Qed.

Lemma removeSent_events sent io w :
  o_closed (w_outbox w) = false →
  let '(w', n) := removeSent sent io w in
  o_events (w_outbox w') = List.filter (λ e, negb (sentIn sent e)) (o_events (w_outbox w)) ∧
  n = length (o_events (w_outbox w')) ∧
  o_loaded (w_outbox w') = o_loaded (w_outbox w) ∧ o_closed (w_outbox w') = false.
Proof.
  intros Hc. unfold removeSent. rewrite Hc. destruct (existsb _ _); [|done].
  unfold rewriteLocked. by destruct (io_Rewrite io).
Qed.

Lemma filter_filter_bool {A} (f g : A → bool) l :
  List.filter f (List.filter g l) = List.filter (λ x, g x && f x) l.
Proof. induction l as [|x l IH]; [done|]. simpl. destruct (g x); simpl; by rewrite ?IH. Qed.

(** One round on an available store whose uploads succeed. *)
Lemma FlushNextBatch_round url send io io1 io2 w q :
  (∀ b, send b = None) →
  o_loaded (w_outbox w) = true → o_closed (w_outbox w) = false → o_events (w_outbox w) = q →
  NoDup (ids q) →
  let '(w', r) := FlushNextBatch (Some url) send id id io io1 io2 w in
  ∃ over, q ≡ₚ uploaded io w ++ over ++ o_events (w_outbox w') ∧
    o_events (w_outbox w') `sublist_of` q ∧
    Forall (λ e, unsendable outboxBatchByteBudget e = true) over ∧
    Forall (λ e, unsendable outboxBatchByteBudget e = false) (uploaded io w) ∧
    (q ≠ [] → uploaded io w ++ over ≠ []) ∧
    fr_Err r = None ∧ fr_Pending r = length (o_events (w_outbox w')) ∧ fr_Sent r = length (uploaded io w) ∧
    o_loaded (w_outbox w') = true ∧ o_closed (w_outbox w') = false.
Proof.
  intros Hsend Hl Hc Hq Hnd.
  assert (Hload : loadLocked io w = (w, true)) by (unfold loadLocked; by rewrite Hl).
  unfold FlushNextBatch, uploaded, flushSelect. rewrite Hc, Hload. cbn [negb]. rewrite Hq.
  destruct q as [|first rest].
  { simpl. exists []. rewrite Hq. split_and!; done || (by constructor) || by rewrite Hl. }
  destruct (outboxUploadBatch_selected first rest outboxBatchSize outboxBatchByteBudget eq_refl) as (s & Heq & Hs).
  pose proof (outboxUploadBatch_progress first rest outboxBatchSize outboxBatchByteBudget eq_refl) as Hprog.
  rewrite Heq in Hprog |- *. simpl in Hprog. cbn [snd].
  set (q := first :: rest) in *. destruct Hs as [Hb Hid Ho Hu _ _ _ _ _].
  (* the discard of what no request can carry *)
  assert (Hdisc : let '(w1, p) := discardOversized (oversized s) (length q) io1 (id w) in
    o_events (w_outbox w1) = List.filter (λ e, negb (sentIn (oversized s) e)) q ∧
    p = length (o_events (w_outbox w1)) ∧
    o_loaded (w_outbox w1) = true ∧ o_closed (w_outbox w1) = false).
  { unfold discardOversized, id. destruct (oversized s) as [|o over] eqn:Eo.
    - rewrite Hq. split_and!; [|done..]. symmetry. by apply filter_bool_all.
    - pose proof (removeSent_events (o :: over) io1 w Hc) as Hr. rewrite Hq, Hl in Hr.
      by destruct (removeSent (o :: over) io1 w). }
  destruct (discardOversized (oversized s) (length q) io1 (id w)) as [w1 p].
  destruct Hdisc as (He1 & -> & Hl1 & Hc1).
  pose proof (removed_permutation q (oversized s) Hnd Ho) as Hp1.
  set (q1 := List.filter _ q) in *.
  assert (Hb1 : batch s `sublist_of` q1).
  { assert (Hself : List.filter (λ e, negb (sentIn (oversized s) e)) (batch s) = batch s).
    { apply filter_bool_all. intros e He. destruct (sentIn (oversized s) e) eqn:E; [|done]. exfalso.
      assert (e ∈ q) as Heq' by by eapply elem_of_sublist.
      apply (sentIn_elem q) in E; [|done..].
      destruct (proj1 (Forall_forall _ _) Hid e He) as [_ Hs1].
      pose proof (proj1 (Forall_forall _ _) Hu e E) as Hs2. simpl in Hs2. congruence. }
    rewrite <- Hself. unfold q1. clear -Hb.
    induction Hb as [|x l k _ IH|x l k _ IH]; simpl; [done|..];
      destruct (negb (sentIn (oversized s) x)); try done; by constructor. }
  assert (Hnd1 : NoDup (ids q1)).
  { eapply sublist_NoDup; [exact Hnd|]. apply fmap_sublist, filter_bool_sublist. }
  assert (Hne : batch s ++ oversized s ≠ []).
  { intros [Hx Hy]%app_eq_nil. destruct Hprog as [Hin|Hin]; rewrite ?Hx, ?Hy in Hin; by apply elem_of_nil in Hin. }
  assert (Hsendable : Forall (λ e, unsendable outboxBatchByteBudget e = false) (batch s)).
  { eapply Forall_impl; [exact Hid|]. by intros e [_ ?]. }
  destruct (batch s) as [|b0 bs] eqn:Eb.
  - exists (oversized s). rewrite He1. cbn [id app]. split_and!; try done. apply filter_bool_sublist.
  - unfold post. rewrite Hsend. unfold id. rewrite <- Eb in *.
    pose proof (removeSent_events (batch s) io2 w1 Hc1) as Hr. rewrite He1 in Hr.
    pose proof (removed_permutation q1 (batch s) Hnd1 Hb1) as Hp2.
    destruct (removeSent (batch s) io2 w1) as [w2 n]. destruct Hr as (He2 & -> & Hl2 & Hc2).
    exists (oversized s). rewrite He2. cbn [fr_Err fr_Pending fr_Sent]. split_and!; try done.
    + rewrite Hp1 at 1. rewrite Hp2 at 1. rewrite !app_assoc, (Permutation_app_comm (oversized s)). done.
    + etrans; [apply filter_bool_sublist|apply filter_bool_sublist].
    + by rewrite Hl2.
Qed.

Lemma filter_perm (f : Event → bool) l k : l ≡ₚ k → List.filter f l ≡ₚ List.filter f k.
Proof.
  induction 1 as [|x l k _ IH|x y l|l k m _ IH1 _ IH2]; simpl; [done|..].
  - destruct (f x); by rewrite IH.
  - destruct (f x), (f y); done || apply Permutation_swap.
  - by etrans.
Qed.

Lemma storeDrain_spec url send ios :
  (∀ b, send b = None) →
  ∀ n fuel i w, (length (o_events (w_outbox w)) ≤ n)%nat → (n < fuel)%nat →
  o_loaded (w_outbox w) = true → o_closed (w_outbox w) = false → NoDup (ids (o_events (w_outbox w))) →
  ∃ w' bs, storeDrain fuel (Some url) send (λ _, true) ios i w = Some (w', None, bs) ∧
    o_events (w_outbox w') = [] ∧
    concat bs ≡ₚ List.filter (λ e, negb (unsendable outboxBatchByteBudget e)) (o_events (w_outbox w)) ∧
    Forall (λ b, b = [] ∨ reachesWire b) bs ∧ (length bs ≤ S n)%nat.
Proof.
  intros Hsend n. induction n as [|n IH]; intros [|fuel] i w Hlen Hfuel Hl Hc Hnd; [lia| |lia|].
  all: cbn [storeDrain negb].
  all: pose proof (FlushNextBatch_round url send (ios (3 * i)%nat) (ios (3 * i + 1)%nat) (ios (3 * i + 2)%nat) w _
                     Hsend Hl Hc eq_refl Hnd) as Hr.
  all: assert (Hreach : uploaded (ios (3 * i)%nat) w = [] ∨ reachesWire (uploaded (ios (3 * i)%nat) w)).
  1,3: unfold uploaded; destruct (flushSelect (ios (3 * i)%nat) w) as [ws [[[b o] p]|err]] eqn:Esel; [|by left];
    destruct b as [|b0 b]; [by left|right];
    destruct (uploads_facts (ios (3 * i)%nat) w) as [Hf _]; by destruct (Hf ws _ o p Esel).
  all: destruct (FlushNextBatch _ _ _ _ _ _ _ w) as [w1 r];
    destruct Hr as (over & Hperm & Hsub & Hov & Hsb & Hne & -> & -> & _ & Hl1 & Hc1).
  all: set (q := o_events (w_outbox w)) in *; set (b := uploaded _ w) in *.
  all: assert (Hfilter : List.filter (λ e, negb (unsendable outboxBatchByteBudget e)) q ≡ₚ
         b ++ List.filter (λ e, negb (unsendable outboxBatchByteBudget e)) (o_events (w_outbox w1))).
  1,3: rewrite (filter_perm _ _ _ Hperm), !List.filter_app;
    rewrite (filter_bool_all _ b) by (intros e He; by rewrite (proj1 (Forall_forall _ _) Hsb e He));
    rewrite (filter_bool_none _ over) by (intros e He; by rewrite (proj1 (Forall_forall _ _) Hov e He));
    done.
  - apply Permutation_length in Hperm. rewrite !length_app in Hperm.
    assert (length (o_events (w_outbox w1)) = 0%nat) as Hz by lia. rewrite Hz. cbn [Nat.eqb].
    apply nil_length_inv in Hz. exists w1, [b]. rewrite Hz in Hfilter. simpl in Hfilter.
    split_and!; [done|done| |constructor; [exact Hreach|constructor]|simpl; lia]. simpl. by rewrite Hfilter.
  - destruct (Nat.eqb_spec (length (o_events (w_outbox w1))) 0) as [Hz|Hz].
    + apply nil_length_inv in Hz. exists w1, [b]. rewrite Hz in Hfilter. simpl in Hfilter.
      split_and!; [done|done| |constructor; [exact Hreach|constructor]|simpl; lia]. simpl. by rewrite Hfilter.
    + assert (Hlt : (length (o_events (w_outbox w1)) ≤ n)%nat).
      { apply Permutation_length in Hperm. rewrite !length_app in Hperm.
        assert (q ≠ []) as Hq by (intros Hq; rewrite Hq in Hsub; apply sublist_nil_r in Hsub; by rewrite Hsub in Hz).
        specialize (Hne Hq). rewrite <- length_zero_iff_nil, length_app in Hne. lia. }
      destruct (IH fuel (S i) w1) as (w' & bs & -> & Hw' & Hcat & Hall & Hn); [done|lia|done|done| |].
      { eapply sublist_NoDup; [exact Hnd|]. by apply fmap_sublist. }
      exists w', (b :: bs). split_and!; [done|done| |by constructor|simpl; lia].
      simpl. by rewrite Hcat, Hfilter.
Qed.

(** A drain ends, and delivers everything exactly once.  If no upload fails,
    draining a loaded store of n events with distinct identifiers takes at
    most n+1 rounds, leaves it empty whatever the file system does, and the
    batches it posts contain exactly the events a request can carry, each
    once; every batch passes the client's own checks. *)
Lemma drain_delivers url send ios w fuel :
  (∀ b, send b = None) →
  o_loaded (w_outbox w) = true → o_closed (w_outbox w) = false → NoDup (ids (o_events (w_outbox w))) →
  (length (o_events (w_outbox w)) < fuel)%nat →
  ∃ w' bs, storeDrain fuel (Some url) send (λ _, true) ios 0 w = Some (w', None, bs) ∧
    o_events (w_outbox w') = [] ∧
    concat bs ≡ₚ List.filter (λ e, negb (unsendable outboxBatchByteBudget e)) (o_events (w_outbox w)) ∧
    Forall (λ b, b = [] ∨ reachesWire b) bs ∧ (length bs ≤ S (length (o_events (w_outbox w))))%nat.
Proof. intros Hs Hl Hc Hnd Hf. by apply (storeDrain_spec url send ios Hs (length (o_events (w_outbox w)))). Qed.
End drain.

Lemma drain_delivers_witness :
  let J := TestJSON.json in
  let other := {| e_SchemaVersion := 1; e_EventID := "b"; e_Event := "application_connection"; e_OccurredAt := 0;
                  e_ClientID := "c"; e_SessionID := "t"; e_RelayID := ""; e_Application := "app";
                  e_ApplicationID := 1; e_Attributes := ∅; e_Measurements := {["connection_count"%string := 7]} |} in
  let w := {| w_outbox := {| o_lockFile := true; o_loaded := true;
                             o_events := [exampleEvent "a" 0; other]; o_fileLines := 2; o_closed := false |};
              w_disk := emptyDisk |} in
  ∃ w' bs, storeDrain 3 (Some "https://broker"%string) (λ _, None) (λ _, true) (λ _, fullDisk) 0 w
             = Some (w', None, bs) ∧
    o_events (w_outbox w') = [] ∧ concat bs ≡ₚ [exampleEvent "a" 0; other].
Proof.
  cbv zeta.
  match goal with |- context [storeDrain _ _ _ _ _ _ ?w] => set (w0 := w) end.
  destruct (@drain_delivers TestJSON.json "https://broker"%string (λ _, None) (λ _, fullDisk) w0 3)
    as (w' & bs & Hd & He & Hp & _).
  - done.
  - done.
  - done.
  - change (NoDup ["a"; "b"]%string). apply NoDup_cons. split; [set_solver|apply NoDup_singleton].
  - simpl. lia.
  - exists w', bs. split_and!; [exact Hd|exact He|]. rewrite Hp.
    match goal with |- List.filter ?f ?l ≡ₚ ?k => assert (List.filter f l = k) as -> by (by vm_compute) end. done.
Defined.

Lemma uploads_accepted_witness :
  let J := TestJSON.json in
  let w := {| w_outbox := {| o_lockFile := true; o_loaded := true; o_events := [exampleEvent "a" 0];
                             o_fileLines := 1; o_closed := false |};
              w_disk := emptyDisk |} in
  reachesWire [exampleEvent "a" 0] ∧ reachesWire [exampleEvent "a" 0; exampleEvent "hb" 0].
Proof.
  cbv zeta.
  destruct (@uploads_accepted TestJSON.json goodIO
    {| w_outbox := {| o_lockFile := true; o_loaded := true; o_events := [exampleEvent "a" 0];
                      o_fileLines := 1; o_closed := false |}; w_disk := emptyDisk |}) as [Hf Hh].
  split.
  - eapply Hf; [by vm_compute|done].
  - eapply (Hh (exampleEvent "hb" 0) _ [exampleEvent "a" 0]); by vm_compute.
Defined.

(** * The manager *)
Record Session := {
  ss_ID : string;
  ss_ClientID : string;
  ss_BrokerURL : string;
  ss_RelayID : string;
  ss_StartedAt : Z;
  ss_ConnectedAt : Z
}.

Record Manager := {
  m_hostIdentity : bool;
  m_sent : Z;
  m_received : Z;
  m_session : option Session;
  m_outbox : list Event;
  m_store : option world;
  m_BaseURL : string;
  m_AzureSNI : bool;
  m_clientID : string;
  m_platformLabel : string;
  m_geo : gmap string string
}.

(** What the host and the operating system answer to one [Record] or heartbeat:
    [DeviceAttributes] of the app version, the host's attribute supplier, a
    random identifier (nothing if the source of randomness failed), the clock
    and the registered traffic counters. *)
Record ambient := {
  am_device : gmap string string;
  am_host : gmap string string;
  am_uuid : option string;
  am_now : Z;
  am_traffic : option (Z * Z)
}.

Definition withSession (s : option Session) (m : Manager) : Manager :=
  {| m_hostIdentity := m_hostIdentity m; m_sent := m_sent m; m_received := m_received m; m_session := s;
     m_outbox := m_outbox m; m_store := m_store m; m_BaseURL := m_BaseURL m; m_AzureSNI := m_AzureSNI m;
     m_clientID := m_clientID m; m_platformLabel := m_platformLabel m; m_geo := m_geo m |}.

Definition withQueues (l : list Event) (st : option world) (m : Manager) : Manager :=
  {| m_hostIdentity := m_hostIdentity m; m_sent := m_sent m; m_received := m_received m; m_session := m_session m;
     m_outbox := l; m_store := st; m_BaseURL := m_BaseURL m; m_AzureSNI := m_AzureSNI m;
     m_clientID := m_clientID m; m_platformLabel := m_platformLabel m; m_geo := m_geo m |}.

Definition withStats (sent received : Z) (m : Manager) : Manager :=
  {| m_hostIdentity := m_hostIdentity m; m_sent := sent; m_received := received; m_session := m_session m;
     m_outbox := m_outbox m; m_store := m_store m; m_BaseURL := m_BaseURL m; m_AzureSNI := m_AzureSNI m;
     m_clientID := m_clientID m; m_platformLabel := m_platformLabel m; m_geo := m_geo m |}.

Definition withGeo (geo : gmap string string) (m : Manager) : Manager :=
  {| m_hostIdentity := m_hostIdentity m; m_sent := m_sent m; m_received := m_received m; m_session := m_session m;
     m_outbox := m_outbox m; m_store := m_store m; m_BaseURL := m_BaseURL m; m_AzureSNI := m_AzureSNI m;
     m_clientID := m_clientID m; m_platformLabel := m_platformLabel m; m_geo := geo |}.

Definition withFront (url : string) (sni : bool) (m : Manager) : Manager :=
  {| m_hostIdentity := m_hostIdentity m; m_sent := m_sent m; m_received := m_received m; m_session := m_session m;
     m_outbox := m_outbox m; m_store := m_store m; m_BaseURL := url; m_AzureSNI := sni;
     m_clientID := m_clientID m; m_platformLabel := m_platformLabel m; m_geo := m_geo m |}.

Definition newManager (brokerURL clientID : string) (hostIdentity : bool) : Manager :=
  {| m_hostIdentity := hostIdentity; m_sent := 0; m_received := 0; m_session := None; m_outbox := [];
     m_store := None; m_BaseURL := brokerURL; m_AzureSNI := false; m_clientID := clientID;
     m_platformLabel := ""; m_geo := ∅ |}.

Definition durationMs (from to_ : Z) : Z :=
  let ms := milliseconds (time_sub to_ from) in if ms <? 0 then 0 else ms.

Definition addTrafficMeasurements (meas : gmap string Z) (traffic : option (Z * Z)) : gmap string Z :=
  match traffic with
  | None => meas
  | Some (sent, received) =>
      let meas := if 0 <? sent then <["bytes_sent"%string := sent]> meas else meas in
      if 0 <? received then <["bytes_received"%string := received]> meas else meas
  end.

(** The attributes common to [Record] and the heartbeat: device, then the
    platform label, the geo attributes and the host's, each overriding. *)
Definition baseAttributes (am : ambient) (m : Manager) : gmap string string :=
  let attrs := am_device am in
  let attrs := if str_empty (m_platformLabel m) then attrs else <["platform"%string := m_platformLabel m]> attrs in
  am_host am ∪ (m_geo m ∪ attrs).

(** The keys by which a host identifies its release, from the host if it has
    them, whatever the caller says. *)
Definition releaseKeys : list string := ["app_version"; "platform"; "engine"; "engine_version"]%string.

Definition recordAttributes (am : ambient) (m : Manager) (attrs : gmap string string) : gmap string string :=
  foldl (λ merged key, match am_host am !! key with Some v => <[key := v]> merged | None => merged end)
    (attrs ∪ baseAttributes am m) releaseKeys.

Definition BeginSession (uuid : option string) (now : Z) (m : Manager) : Manager * option Session :=
  match uuid with
  | None => (m, None)
  | Some id =>
      let session := {| ss_ID := id; ss_ClientID := m_clientID m; ss_BrokerURL := m_BaseURL m; ss_RelayID := "";
                        ss_StartedAt := now; ss_ConnectedAt := zero_time |} in
      (withStats 0 0 (withSession (Some session) m), Some session)
  end.

Definition MarkConnected (relayID : string) (now : Z) (m : Manager) : Manager :=
  match m_session m with
  | None => m
  | Some s =>
      withSession (Some {| ss_ID := ss_ID s; ss_ClientID := ss_ClientID s; ss_BrokerURL := ss_BrokerURL s;
                           ss_RelayID := relayID; ss_StartedAt := ss_StartedAt s;
                           ss_ConnectedAt := if time_is_zero (ss_ConnectedAt s) then now else ss_ConnectedAt s |}) m
  end.

Definition UpdateTraffic (sent received : Z) (m : Manager) : Manager :=
  withStats (Z.max (m_sent m) sent) (Z.max (m_received m) received) m.

(** The counters a host manager registers. *)
Definition reportedTraffic (m : Manager) : option (Z * Z) := Some (m_sent m, m_received m).

Definition SetBrokerFront (secure : bool) (url : string) (azureSNI : bool) (m : Manager) : Manager * bool :=
  if negb secure then (m, false) else
  let m := withFront url azureSNI m in
  (match m_session m with
   | None => m
   | Some s => withSession (Some {| ss_ID := ss_ID s; ss_ClientID := ss_ClientID s; ss_BrokerURL := url;
                                    ss_RelayID := ss_RelayID s; ss_StartedAt := ss_StartedAt s;
                                    ss_ConnectedAt := ss_ConnectedAt s |}) m
   end, true).

Definition enqueueLocked (e : Event) (m : Manager) : Manager :=
  withQueues (capQueue (m_outbox m ++ [e])) (m_store m) m.

Section manager.
Context `{EventJSON}.
#[local] Set Default Proof Using "Type".

(** The loop of [migrateFallbackLocked]: what is left of the fallback, the
    store, and the answers used up. *)
Fixpoint migrateFallback (ios : nat → IO) (i : nat) (queue : list Event) (w : world) : list Event * world * nat :=
  match queue with
  | [] => ([], w, i)
  | head :: rest =>
      match validateOutboxEvent head with
      | None => migrateFallback ios i rest w
      | Some _ =>
          let '(w, ok) := Enqueue head (ios i) w in
          if ok then migrateFallback ios (S i) rest w else (queue, w, S i)
      end
  end.

Definition migrateFallbackLocked (ios : nat → IO) (w : world) (m : Manager) : Manager * world * nat * bool :=
  let '(rest, w, i) := migrateFallback ios 0 (m_outbox m) w in
  (withQueues rest (Some w) m, w, i, (length rest =? 0)%nat).

(** The store first, once it holds everything older; the fallback otherwise. *)
Definition storeEventLocked (e : Event) (ios : nat → IO) (m : Manager) : Manager :=
  match m_store m with
  | None => enqueueLocked e m
  | Some w =>
      let '(m, w, i, migrated) := migrateFallbackLocked ios w m in
      if negb migrated then enqueueLocked e m else
      let '(w, ok) := Enqueue e (ios i) w in
      let m := withQueues (m_outbox m) (Some w) m in
      if ok then m else enqueueLocked e m
  end.

Definition builtEvent (event relayID : string) (attrs : gmap string string) (meas : gmap string Z)
    (id : string) (now : Z) (s : Session) : Event :=
  {| e_SchemaVersion := SchemaVersion; e_EventID := id; e_Event := event; e_OccurredAt := now;
     e_ClientID := ss_ClientID s; e_SessionID := ss_ID s;
     e_RelayID := if str_empty relayID then ss_RelayID s else relayID;
     e_Application := ""; e_ApplicationID := 0; e_Attributes := attrs; e_Measurements := meas |}.

(** [Manager.Record]. *)
Definition RecordEvent (event relayID : string) (attrs : gmap string string) (meas : gmap string Z)
    (am : ambient) (ios : nat → IO) (m : Manager) : Manager :=
  match m_session m with
  | None => m
  | Some s =>
      match am_uuid am with
      | None => m
      | Some id =>
          storeEventLocked (builtEvent event relayID (recordAttributes am m attrs) meas id (am_now am) s) ios m
      end
  end.

(** The chunks of a host's application count; [chunks] is the fuel. *)
Fixpoint recordChunks (chunks : nat) (relayID packageName : string) (uid count : Z) (ams : nat → ambient)
    (ios : nat → nat → IO) (k : nat) (sessionID : string) (m : Manager) : Manager :=
  match chunks with
  | O => m
  | S chunks =>
      if count <=? 0 then m else
      let chunk := Z.min count 100000 in
      match am_uuid (ams k) with
      | None => m
      | Some id =>
          let e := {| e_SchemaVersion := SchemaVersion; e_EventID := id; e_Event := "application_connection";
                      e_OccurredAt := am_now (ams k); e_ClientID := m_clientID m; e_SessionID := sessionID;
                      e_RelayID := relayID; e_Application := packageName; e_ApplicationID := uid;
                      e_Attributes := ∅; e_Measurements := {["connection_count"%string := chunk]} |} in
          recordChunks chunks relayID packageName uid (count - chunk) ams ios (S k) sessionID
            (storeEventLocked e (ios k) m)
      end
  end.

(** One round takes 100000, so [count / 100000 + 1] rounds are enough. *)
Definition RecordApplicationConnections (relayID packageName : string) (uid count : Z) (ams : nat → ambient)
    (ios : nat → nat → IO) (m : Manager) : Manager :=
  if str_empty packageName || (count <=? 0) then m else
  match m_session m with
  | None => m
  | Some s => recordChunks (Z.to_nat (count / 100000 + 1)) relayID packageName uid count ams ios 0 (ss_ID s) m
  end.

Definition SetGeoAttributes (geo : gmap string string) (io : IO) (m : Manager) : Manager :=
  if bool_decide (geo = ∅) then m else
  let m := withGeo geo m in
  match m_store m, m_session m with
  | Some w, Some s =>
      if str_empty (ss_ID s) then m
      else withQueues (m_outbox m) (Some (ApplySessionAttributes (ss_ID s) geo io w).1) m
  | _, _ => m
  end.

Definition EndSession (reason : string) (am : ambient) (ios : nat → IO) (m : Manager) : Manager :=
  match m_session m with
  | None => m
  | Some s =>
      let meas : gmap string Z := {["session_duration_ms"%string := durationMs (ss_StartedAt s) (am_now am)]} in
      let meas := if time_is_zero (ss_ConnectedAt s) then meas
                  else <["connection_duration_ms"%string := durationMs (ss_ConnectedAt s) (am_now am)]> meas in
      let meas := addTrafficMeasurements meas (am_traffic am) in
      withSession None
        (RecordEvent "connection_ended" (ss_RelayID s) {["reason"%string := reason]} meas am ios m)
  end.

Definition buildHeartbeatLocked (am : ambient) (m : Manager) : option Event :=
  match m_session m, am_uuid am with
  | Some s, Some id =>
      if str_empty (ss_RelayID s) || time_is_zero (ss_ConnectedAt s) then None else
      let meas : gmap string Z := <["connected_duration_ms"%string := durationMs (ss_ConnectedAt s) (am_now am)]>
                    {["session_duration_ms"%string := durationMs (ss_StartedAt s) (am_now am)]} in
      Some (builtEvent "session_heartbeat" (ss_RelayID s)
              (<["connection_state"%string := "connected"%string]> (baseAttributes am m))
              (addTrafficMeasurements meas (am_traffic am)) id (am_now am) s)
  | _, _ => None
  end.

(** [snapshotLocked]: the next batch of the fallback queue, and the queue
    without what could never be sent. *)
Definition snapshotLocked (limit : nat) (m : Manager) : list Event * Manager :=
  if m_hostIdentity m then
    let '(b, over) := outboxUploadBatch (m_outbox m) (Z.of_nat limit) outboxBatchByteBudget in
    (b, withQueues (List.filter (λ e, negb (sentIn over e)) (m_outbox m)) (m_store m) m)
  else (take limit (m_outbox m), m).

Definition removeSentLocked (sent : list Event) (m : Manager) : Manager :=
  withQueues (List.filter (λ e, negb (sentIn sent e)) (m_outbox m)) (m_store m) m.

(** The second loop of [Flush]. *)
Fixpoint memoryDrain (fuel : nat) (send : list Event → option TelemetryError) (m : Manager)
    : option (Manager * option TelemetryError) :=
  match fuel with
  | O => None
  | S fuel =>
      let '(b, m) := snapshotLocked (Z.to_nat outboxBatchSize) m in
      match b with
      | [] => Some (m, None)
      | _ =>
          match send b with
          | Some err => Some (m, Some err)
          | None => memoryDrain fuel send (removeSentLocked b m)
          end
      end
  end.

Inductive FlushError := FlushOutbox (e : OutboxError) | FlushRequest (e : TelemetryError).

(** [Manager.Flush] with fuel for both loops. *)
Definition Flush (fuel : nat) (telemetryURL : option string) (storeSend : list Event → option OutboxError)
    (send : list Event → option TelemetryError) (live : nat → bool) (ios : nat → IO) (m : Manager)
    : option (Manager * option FlushError) :=
  match m_store m with
  | None =>
      match memoryDrain fuel send m with
      | None => None
      | Some (m, err) => Some (m, FlushRequest <$> err)
      end
  | Some w =>
      match storeDrain fuel telemetryURL storeSend live ios 0 w with
      | None => None
      | Some (w, Some err, _) => Some (withQueues (m_outbox m) (Some w) m, Some (FlushOutbox err))
      | Some (w, None, _) =>
          match memoryDrain fuel send (withQueues (m_outbox m) (Some w) m) with
          | None => None
          | Some (m, err) => Some (m, FlushRequest <$> err)
          end
      end
  end.

(** The heartbeat through the fallback queue. *)
Definition heartbeatFromMemory (fuel : nat) (telemetryURL : option string)
    (storeSend : list Event → option OutboxError) (send : list Event → option TelemetryError)
    (live : nat → bool) (ios : nat → IO) (heartbeat : Event) (m : Manager) : option (Manager * option FlushError) :=
  let '(queued, m) := snapshotLocked (Z.to_nat outboxBatchSize - 1) m in
  match send (queued ++ [heartbeat]) with
  | Some err => Some (m, Some (FlushRequest err))
  | None =>
      match queued with
      | [] => Some (m, None)
      | _ => Flush fuel telemetryURL storeSend send live ios (removeSentLocked queued m)
      end
  end.

(** [Manager.Heartbeat]. *)
Definition Heartbeat (fuel : nat) (telemetryURL : option string) (storeSend : list Event → option OutboxError)
    (send : list Event → option TelemetryError) (live : nat → bool) (am : ambient) (ios : nat → nat → IO)
    (m : Manager) : option (Manager * option FlushError) :=
  match buildHeartbeatLocked am m with
  | None => Some (m, None)
  | Some heartbeat =>
      let memory := heartbeatFromMemory fuel telemetryURL storeSend send live (ios 1%nat) heartbeat in
      match m_store m with
      | None => memory m
      | Some w =>
          let '(m, w, i, migrated) := migrateFallbackLocked (ios 0%nat) w m in
          if negb migrated then memory m else
          let '(w, r) := SendHeartbeat telemetryURL storeSend id id heartbeat
                           (ios 2%nat 0%nat) (ios 2%nat 1%nat) (ios 2%nat 2%nat) w in
          let m := withQueues (m_outbox m) (Some w) m in
          match fr_Err r with
          | Some err => Some (m, Some (FlushOutbox err))
          | None => Flush fuel telemetryURL storeSend send live (ios 1%nat) m
          end
      end
  end.
End manager.

(** * Flush ends *)
Section flush_ends.
Context `{EventJSON}.
#[local] Set Default Proof Using "Type".

Lemma filter_shorter (f : Event → bool) l x : x ∈ l → f x = false → (length (List.filter f l) < length l)%nat.
Proof.
  intros Hx Hf. induction l as [|y l IH]; [by apply elem_of_nil in Hx|].
  pose proof (List.filter_length_le f l) as Hle. simpl.
  apply elem_of_cons in Hx as [->|Hx]; [rewrite Hf; lia|]. specialize (IH Hx). destruct (f y); simpl; lia.
Qed.

Lemma sentIn_self sent e : e ∈ sent → sentIn sent e = true.
Proof.
  intros He. unfold sentIn. apply existsb_exists. exists e. split; [by apply list_elem_of_In|by apply str_eqb_true].
Qed.

Lemma removeSent_events_le sent io w :
  let '(w', n) := removeSent sent io w in
  n = length (o_events (w_outbox w')) ∧ (length (o_events (w_outbox w')) ≤ length (o_events (w_outbox w)))%nat ∧
  o_loaded (w_outbox w') = o_loaded (w_outbox w) ∧ o_closed (w_outbox w') = o_closed (w_outbox w) ∧
  (o_closed (w_outbox w) = false → ∀ e, e ∈ sent → e ∈ o_events (w_outbox w) →
     (length (o_events (w_outbox w')) < length (o_events (w_outbox w)))%nat).
Proof.
  pose proof (removeSent_events sent io w) as Hr.
  destruct (o_closed (w_outbox w)) eqn:Hc; [unfold removeSent; rewrite Hc; by split_and!|].
  specialize (Hr eq_refl). destruct (removeSent sent io w) as [w' n]. destruct Hr as (He & -> & Hl & Hcl).
  rewrite He. split_and!; [done|apply List.filter_length_le|done|done|].
  intros _ e Hs Hq. eapply filter_shorter; [exact Hq|]. by rewrite sentIn_self.
Qed.

(** A round that ends without an error leaves fewer events pending than the
    loaded queue had, or none. *)
Lemma FlushNextBatch_shrinks url send io io1 io2 w :
  goodQueue (w_outbox w) →
  let '(w', r) := FlushNextBatch url send id id io io1 io2 w in
  fr_Err r = None →
  let w1 := (loadLocked io w).1 in
  goodQueue (w_outbox w') ∧ o_loaded (w_outbox w') = true ∧ (loadLocked io w).2 = true ∧
  fr_Pending r = length (o_events (w_outbox w')) ∧
  (fr_Pending r ≠ 0%nat → (length (o_events (w_outbox w')) < length (o_events (w_outbox w1)))%nat).
Proof.
  intros Hg. unfold FlushNextBatch, flushSelect.
  destruct (o_closed (w_outbox w)) eqn:Hc; [done|].
  pose proof (load_good io w Hg) as Hload. destruct (loadLocked io w) as [w1 ok].
  destruct Hload as (Hg1 & _ & Hl1 & Hc1). destruct ok; cbn [negb fst snd]; [|done]. rewrite Hc in Hc1.
  destruct (outboxUploadBatch _ _ _) as [b over] eqn:Esel.
  assert (Hprog : o_events (w_outbox w1) ≠ [] → ∃ e, e ∈ o_events (w_outbox w1) ∧ (e ∈ over ∨ e ∈ b)).
  { destruct (o_events (w_outbox w1)) as [|first rest] eqn:Eq; [done|]. intros _. exists first.
    pose proof (outboxUploadBatch_progress first rest outboxBatchSize outboxBatchByteBudget eq_refl) as Hp.
    rewrite Esel in Hp. simpl in Hp. split; [by left|]. destruct Hp; auto. }
  assert (Hdisc : let '(w2, p) := discardOversized over (length (o_events (w_outbox w1))) io1 (id w1) in
    goodQueue (w_outbox w2) ∧ p = length (o_events (w_outbox w2)) ∧ o_loaded (w_outbox w2) = true ∧
    o_closed (w_outbox w2) = false ∧ (length (o_events (w_outbox w2)) ≤ length (o_events (w_outbox w1)))%nat ∧
    (∀ e, e ∈ over → e ∈ o_events (w_outbox w1) →
       (length (o_events (w_outbox w2)) < length (o_events (w_outbox w1)))%nat) ∧
    (∀ e, e ∈ o_events (w_outbox w1) → e ∈ o_events (w_outbox w2) ∨
       (length (o_events (w_outbox w2)) < length (o_events (w_outbox w1)))%nat)).
  { unfold discardOversized, id. destruct over as [|o over].
    - split_and!; try done; [intros e He; by apply elem_of_nil in He|by left].
    - pose proof (removeSent_events_le (o :: over) io1 w1) as Hr.
      pose proof (removeSent_events (o :: over) io1 w1 Hc1) as Hre.
      destruct (removeSent_good (o :: over) io1 w1 Hg1) as [Hg2 _].
      destruct (removeSent (o :: over) io1 w1) as [w2 p]. destruct Hr as (-> & Hle & -> & -> & Hlt).
      destruct Hre as (Hev & _). split_and!; try done; [by intros e; apply Hlt|].
      intros e He. destruct (sentIn (o :: over) e) eqn:E.
      + right. rewrite Hev. eapply filter_shorter; [exact He|]. by rewrite E.
      + left. rewrite Hev. apply elem_of_filter_bool. by rewrite E. }
  destruct (discardOversized over _ io1 (id w1)) as [w2 p].
  destruct Hdisc as (Hg2 & -> & Hl2 & Hc2 & Hle & Hlt & Hkeep).
  destruct b as [|b0 b].
  - cbn [fr_Err fr_Pending]. intros _. split_and!; try done. intros Hne.
    assert (o_events (w_outbox w1) ≠ []) as Hq by (intros Hq; rewrite Hq in Hle; simpl in Hle; lia).
    destruct (Hprog Hq) as (e & He & [Ho|Hb]); [by apply (Hlt e)|by apply elem_of_nil in Hb].
  - unfold id. destruct (post url send (b0 :: b)) as [[]|]; try done.
    + by destruct (removeSent (b0 :: b) io2 w2).
    + pose proof (removeSent_events_le (b0 :: b) io2 w2) as Hr.
      destruct (removeSent_good (b0 :: b) io2 w2 Hg2) as [Hg3 _].
      destruct (removeSent (b0 :: b) io2 w2) as [w3 n]. destruct Hr as (-> & Hle3 & -> & _ & Hlt3).
      cbn [fr_Err fr_Pending]. intros _. split_and!; try done. intros _.
      assert (o_events (w_outbox w1) ≠ []) as Hq.
      { intros Hq. rewrite Hq in Esel. simpl in Esel. by simplify_eq. }
      destruct (Hprog Hq) as (e & He & [Ho|Hb]); [specialize (Hlt e Ho He); lia|].
      destruct (Hkeep e He) as [He2|Hl]; [|lia]. specialize (Hlt3 Hc2 e Hb He2). lia.
Qed.

Lemma discardOversized_good over p io w :
  goodQueue (w_outbox w) → goodQueue (w_outbox (discardOversized over p io w).1).
Proof. intros Hg. destruct over as [|o over]; [done|]. by apply removeSent_good. Qed.

Lemma FlushNextBatch_good url send io io1 io2 w :
  goodQueue (w_outbox w) → goodQueue (w_outbox (FlushNextBatch url send id id io io1 io2 w).1).
Proof.
  intros Hg. unfold FlushNextBatch, flushSelect. destruct (o_closed _); [done|].
  pose proof (load_good io w Hg) as Hload. destruct (loadLocked io w) as [w1 []]; cbn [negb];
    destruct Hload as (Hg1 & _); [|done].
  destruct (outboxUploadBatch _ _ _) as [b over].
  pose proof (discardOversized_good over (length (o_events (w_outbox w1))) io1 w1 Hg1) as Hg2.
  unfold id. destruct (discardOversized over _ io1 w1) as [w2 p]. simpl in Hg2.
  destruct b as [|b0 b]; [done|].
  destruct (removeSent_good (b0 :: b) io2 w2 Hg2) as [Hg3 _].
  destruct (post url send (b0 :: b)) as [[]|]; try done; by destruct (removeSent (b0 :: b) io2 w2).
Qed.

Lemma storeDrain_total url send live ios n : ∀ fuel i w,
  goodQueue (w_outbox w) → (o_loaded (w_outbox w) = true → (length (o_events (w_outbox w)) ≤ n)%nat) →
  (o_loaded (w_outbox w) = false → n = 501%nat) → (n < fuel)%nat →
  ∃ w' err bs, storeDrain fuel url send live ios i w = Some (w', err, bs) ∧ goodQueue (w_outbox w').
Proof.
  induction n as [n IH] using lt_wf_ind. intros [|fuel] i w Hg Hl Hu Hf; [lia|]. cbn [storeDrain].
  destruct (live i); cbn [negb]; [|by exists w, (Some ErrCanceled), []].
  set (io := ios (3 * i)%nat). set (io1 := ios (3 * i + 1)%nat). set (io2 := ios (3 * i + 2)%nat).
  pose proof (FlushNextBatch_shrinks url send io io1 io2 w Hg) as Hs.
  pose proof (FlushNextBatch_good url send io io1 io2 w Hg) as Hgood.
  destruct (FlushNextBatch url send id id io io1 io2 w) as [w1 r].
  destruct (fr_Err r) as [err|].
  { destruct err; by eauto. }
  destruct (Hs eq_refl) as (Hg1 & Hl1 & Hok & Hp & Hlt).
  destruct (Nat.eqb_spec (fr_Pending r) 0) as [|Hne]; [by eauto|]. specialize (Hlt Hne).
  assert (Hn : (length (o_events (w_outbox w1)) < n)%nat).
  { destruct (o_loaded (w_outbox w)) eqn:Elo.
    - unfold loadLocked in Hlt. rewrite Elo in Hlt. simpl in Hlt. specialize (Hl eq_refl). lia.
    - rewrite (Hu eq_refl). pose proof (load_good io w Hg) as Hload.
      destruct (loadLocked io w) as [w0 ok]. destruct Hload as ([_ Hlen _] & _). simpl in Hlt.
      unfold OutboxMaxQueued in Hlen. lia. }
  destruct (IH (length (o_events (w_outbox w1))) Hn fuel (S i) w1 Hg1) as (w' & err & bs & -> & Hg');
    [done|by rewrite Hl1|lia|]. by eauto.
Qed.

Lemma memoryDrain_total send n : ∀ fuel m,
  (length (m_outbox m) ≤ n)%nat → (n < fuel)%nat → ∃ m' err, memoryDrain fuel send m = Some (m', err).
Proof.
  induction n as [n IH] using lt_wf_ind. intros [|fuel] m Hl Hf; [lia|]. cbn [memoryDrain].
  destruct (snapshotLocked (Z.to_nat outboxBatchSize) m) as [b m1] eqn:Esn.
  destruct b as [|b0 b]; [by eauto|]. destruct (send (b0 :: b)) as [err|]; [by eauto|].
  assert (Hlt : (length (m_outbox (removeSentLocked (b0 :: b) m1)) < n)%nat).
  { assert (Hin : b0 ∈ m_outbox m ∧ (length (m_outbox m1) ≤ length (m_outbox m))%nat).
    { unfold snapshotLocked in Esn. destruct (m_hostIdentity m).
      - destruct (m_outbox m) as [|first rest] eqn:Eq; [done|].
        destruct (outboxUploadBatch_selected first rest (Z.of_nat (Z.to_nat outboxBatchSize)) outboxBatchByteBudget
                    eq_refl) as (s & Heq & Hs).
        rewrite Heq in Esn. injection Esn as Hb <-. cbn [withQueues m_outbox]. split.
        + eapply elem_of_sublist; [|apply Hs]. rewrite Hb. by left.
        + apply (List.filter_length_le (λ e, negb (sentIn (oversized s) e)) (first :: rest)).
      - injection Esn as Hb <-. split; [|done].
        rewrite <- (take_drop (Z.to_nat outboxBatchSize) (m_outbox m)). rewrite Hb. by left. }
    destruct Hin as (Hin & Hle). unfold removeSentLocked, withQueues. cbn [m_outbox].
    destruct (decide (b0 ∈ m_outbox m1)) as [Hb|Hb].
    - pose proof (filter_shorter (λ e, negb (sentIn (b0 :: b) e)) (m_outbox m1) b0 Hb) as Hsh.
      cbv beta in Hsh. rewrite sentIn_self in Hsh by (by left). specialize (Hsh eq_refl). lia.
    - pose proof (List.filter_length_le (λ e, negb (sentIn (b0 :: b) e)) (m_outbox m1)) as Hfl.
      assert (length (m_outbox m1) ≠ length (m_outbox m)); [|lia].
      intros Hsame. apply Hb. unfold snapshotLocked in Esn. destruct (m_hostIdentity m).
      + destruct (outboxUploadBatch _ _ _) as [b' over']. simplify_eq. cbn [withQueues m_outbox] in *.
        destruct (sentIn over' b0) eqn:Eo.
        * pose proof (filter_shorter (λ e, negb (sentIn over' e)) (m_outbox m) b0 Hin) as Hsh.
          cbv beta in Hsh. rewrite Eo in Hsh. specialize (Hsh eq_refl). lia.
        * apply elem_of_filter_bool. by rewrite Eo.
      + by simplify_eq. }
  destruct (IH _ Hlt fuel (removeSentLocked (b0 :: b) m1)) as (m' & err & ->); [done|lia|]. by eauto.
Qed.
End flush_ends.

(** Flushing always ends.  Whatever the network answers, whether or not the
    outbox is available and whatever the file system does, [Flush] over a well
    formed store and a fallback within its cap returns within 502 rounds of
    each loop. *)
Lemma flush_ends `{EventJSON} fuel telemetryURL storeSend send live ios m :
  (∀ w, m_store m = Some w → goodQueue (w_outbox w)) → (length (m_outbox m) ≤ 500)%nat → (501 < fuel)%nat →
  ∃ m' err, Flush fuel telemetryURL storeSend send live ios m = Some (m', err).
Proof.
  intros Hg Hl Hf. unfold Flush.
  assert (Hmem : ∀ st, ∃ m' err, memoryDrain fuel send (withQueues (m_outbox m) st m) = Some (m', err)).
  { intros st. apply (memoryDrain_total send 500); [done|lia]. }
  destruct (m_store m) as [w|] eqn:Ew.
  - destruct (Hg w eq_refl) as [Hv Hlen Hu].
    destruct (storeDrain_total telemetryURL storeSend live ios 501 fuel 0 w) as (w' & err & bs & -> & _);
      [by split|unfold OutboxMaxQueued in Hlen; lia|done|lia|].
    destruct err as [err|]; [by eauto|]. destruct (Hmem (Some w')) as (m' & err & ->). by eauto.
  - destruct (memoryDrain_total send 500 fuel m) as (m' & err & ->); [done|lia|]. by eauto.
Qed.

Lemma flush_ends_witness :
  ∃ m' err, @Flush TestJSON.json 502 None (λ _, Some ErrSend) (λ _, None) (λ _, true) (λ _, fullDisk)
    (withQueues [exampleEvent "a" 0] (Some (start emptyDisk)) (newManager "https://broker" "c" false)) = Some (m', err).
Proof.
  apply (@flush_ends TestJSON.json).
  - intros w [= <-]. apply goodQueue_new.
  - simpl. lia.
  - lia.
Defined.

(** * The order of the stream *)
Section stream.
Context `{EventJSON}.
#[local] Set Default Proof Using "Type".

(** The identifiers a load would find in the file. *)
Definition backlog (d : disk) : list string :=
  match d_File d with
  | None | Some [] => []
  | Some raw => ids (parseOutbox raw).1.1
  end.

(** The events a store stands for: its queue, or its file before the load. *)
Definition stored (w : world) : list string :=
  if o_loaded (w_outbox w) then ids (o_events (w_outbox w)) else backlog (w_disk w).

Definition storedOf (st : option world) : list string := match st with Some w => stored w | None => [] end.

(** Everything a manager still has to send, oldest first. *)
Definition stream (m : Manager) : list string := storedOf (m_store m) ++ ids (m_outbox m).

Lemma ids_app l k : ids (l ++ k) = ids l ++ ids k.
Proof. apply fmap_app. Qed.

Lemma ids_capQueue l : ids (capQueue l) `sublist_of` ids l.
Proof. apply fmap_sublist. unfold capQueue. apply sublist_drop. Qed.

Lemma ids_filter f l : ids (List.filter f l) `sublist_of` ids l.
Proof. apply fmap_sublist, filter_bool_sublist. Qed.

Lemma stored_load io w : stored (loadLocked io w).1 `sublist_of` stored w.
Proof.
  unfold loadLocked. destruct (o_loaded (w_outbox w)) eqn:Hl; [done|].
  destruct (_ && _); [done|]. destruct (negb (io_Read io)); [unfold stored; simpl; by rewrite Hl|].
  cbn [onOutbox w_disk]. unfold stored at 2. rewrite Hl. unfold backlog.
  destruct (d_File (w_disk w)) as [[|c raw]|] eqn:Hf; [unfold stored; simpl; by constructor| |unfold stored; simpl; by constructor].
  remember (c :: raw) as file eqn:Hfile. pose proof (parseOutbox_valid file) as Hv.
  destruct (parseOutbox file) as [[parsed dirty] sources] eqn:Hp. simpl in Hv. rewrite (valid_map_sanitize parsed Hv).
  destruct (dirty || _); [unfold rewriteLocked; destruct (io_LoadRewrite io)|]; cbn [fst].
  - unfold stored. simpl. apply ids_capQueue.
  - unfold stored, backlog. simpl. rewrite Hf, Hfile. rewrite <- Hfile, Hp. done.
  - unfold stored. simpl. apply ids_capQueue.
Qed.

Lemma stored_ready io w : stored (ready io w).1 `sublist_of` stored w.
Proof. unfold ready. destruct (o_closed _); [done|]. apply stored_load. Qed.

Lemma stored_Enqueue e io w :
  goodQueue (w_outbox w) →
  let '(w', ok) := Enqueue e io w in
  goodQueue (w_outbox w') ∧
  stored w' `sublist_of` stored w ++ (if ok then [e_EventID e] else []).
Proof.
  intros Hg. pose proof (Enqueue_good e io w Hg) as [Hg' _]. unfold Enqueue in *.
  destruct (validateOutboxEvent e) as [e'|] eqn:Hv; [|split; [done|by rewrite app_nil_r]].
  pose proof (stored_ready io w) as Hs. pose proof (ready_good io w Hg) as Hr.
  destruct (ready io w) as [w1 ok]. destruct Hr as (Hg1 & _ & Hl1 & _). simpl in Hs.
  destruct ok; cbn [negb] in *; [|split; [done|by rewrite app_nil_r]]. specialize (Hl1 eq_refl).
  pose proof (appendLocked_good [e'] io w1) as Ha. destruct (appendLocked [e'] io w1) as [w2 ok2].
  destruct Ha as (He & _ & Hl2 & _); [by repeat constructor; eapply validate_valid|done|done|].
  simpl in *. split; [done|]. unfold stored at 1. rewrite Hl2, He.
  etrans; [apply ids_capQueue|]. rewrite ids_app. simpl. rewrite (validate_id e e' Hv).
  apply sublist_app; [|done]. unfold stored in Hs at 1. by rewrite Hl1 in Hs.
Qed.

Lemma stored_Apply sid attrs io w :
  stored (ApplySessionAttributes sid attrs io w).1 `sublist_of` stored w.
Proof.
  unfold ApplySessionAttributes. destruct (_ || _); [done|].
  pose proof (stored_ready io w) as Hs. destruct (ready io w) as [w1 ok] eqn:Er. simpl in Hs.
  destruct ok; cbn [negb]; [|done]. etrans; [|exact Hs].
  assert (Hids : ids (patchEvent sid attrs <$> o_events (w_outbox w1)) = ids (o_events (w_outbox w1))).
  { unfold ids. rewrite <- list_fmap_compose. apply list_fmap_ext. intros i e _. unfold patchEvent. simpl.
    by destruct (_ || _). }
  assert (Hset : ∀ w2, o_events (w_outbox w2) = patchEvent sid attrs <$> o_events (w_outbox w1) →
     o_loaded (w_outbox w2) = o_loaded (w_outbox w1) → o_loaded (w_outbox w1) = true →
     stored w2 `sublist_of` stored w1).
  { intros w2 He Hl2 Hl1. unfold stored. by rewrite Hl2, Hl1, He, Hids. }
  assert (Hl1 : o_loaded (w_outbox w1) = true).
  { unfold ready in Er. destruct (o_closed (w_outbox w)); [done|]. revert Er. clear.
    unfold loadLocked. destruct (o_loaded (w_outbox w)) eqn:Hl; [by intros [= <-]|].
    destruct (_ && _); [done|]. destruct (negb (io_Read io)); [done|]. cbn [onOutbox w_disk].
    destruct (d_File (w_disk w)) as [[|c raw]|]; [by intros [= <-]| |by intros [= <-]].
    destruct (parseOutbox _) as [[parsed dirty] sources].
    destruct (dirty || _); [unfold rewriteLocked; destruct (io_LoadRewrite io)|]; by intros [= <-]. }
  destruct (bool_decide _); cbn [fst]; [unfold rewriteLocked; destruct (io_Rewrite io)|]; by apply Hset.
Qed.

Lemma stored_removeSent sent io w :
  goodQueue (w_outbox w) → stored (removeSent sent io w).1 `sublist_of` stored w.
Proof.
  intros Hg. unfold removeSent. destruct (o_closed (w_outbox w)); [done|]. cbn [fst].
  destruct (o_loaded (w_outbox w)) eqn:Hl.
  - destruct (existsb _ _); [unfold rewriteLocked; destruct (io_Rewrite io)|];
      unfold stored; simpl; rewrite Hl; apply ids_filter.
  - rewrite (good_unloaded _ Hg Hl). simpl. unfold stored. simpl. by rewrite Hl.
Qed.

Lemma stored_discard over p io w :
  goodQueue (w_outbox w) → stored (discardOversized over p io w).1 `sublist_of` stored w.
Proof. intros Hg. destruct over as [|o over]; [done|]. by apply stored_removeSent. Qed.

Lemma stored_flush url send io io1 io2 w :
  goodQueue (w_outbox w) → stored (FlushNextBatch url send id id io io1 io2 w).1 `sublist_of` stored w.
Proof.
  intros Hg. unfold FlushNextBatch, flushSelect. destruct (o_closed _); [done|].
  pose proof (stored_load io w) as Hs. pose proof (load_good io w Hg) as Hload.
  destruct (loadLocked io w) as [w1 []]; cbn [negb]; destruct Hload as (Hg1 & _); [|done]. simpl in Hs.
  destruct (outboxUploadBatch _ _ _) as [b over]. unfold id.
  pose proof (discardOversized_good over (length (o_events (w_outbox w1))) io1 w1 Hg1) as Hg2.
  pose proof (stored_discard over (length (o_events (w_outbox w1))) io1 w1 Hg1) as Hs2.
  destruct (discardOversized over _ io1 w1) as [w2 p]. simpl in Hg2, Hs2.
  assert (Hs12 : stored w2 `sublist_of` stored w) by by etrans.
  destruct b as [|b0 b]; [done|]. pose proof (stored_removeSent (b0 :: b) io2 w2 Hg2) as Hs3.
  assert (Hs13 : stored (removeSent (b0 :: b) io2 w2).1 `sublist_of` stored w) by by etrans.
  destruct (post url send (b0 :: b)) as [[]|]; try done; by destruct (removeSent (b0 :: b) io2 w2).
Qed.

Lemma stored_drain url send live ios fuel : ∀ i w w' err bs,
  goodQueue (w_outbox w) → storeDrain fuel url send live ios i w = Some (w', err, bs) →
  goodQueue (w_outbox w') ∧ stored w' `sublist_of` stored w.
Proof.
  induction fuel as [|fuel IH]; intros i w w' err bs Hg; [done|]. cbn [storeDrain].
  destruct (negb (live i)); [by intros [= <- _ _]|].
  set (io := ios (3 * i)%nat). set (io1 := ios (3 * i + 1)%nat). set (io2 := ios (3 * i + 2)%nat).
  pose proof (FlushNextBatch_good url send io io1 io2 w Hg) as Hg1.
  pose proof (stored_flush url send io io1 io2 w Hg) as Hs1.
  destruct (FlushNextBatch url send id id io io1 io2 w) as [w1 r]. simpl in Hg1, Hs1.
  destruct (fr_Err r) as [[]|]; try by intros [= <- _ _].
  destruct (_ =? _)%nat; [by intros [= <- _ _]|].
  destruct (storeDrain fuel url send live ios (S i) w1) as [[[w2 err2] bs2]|] eqn:Ed; [|done].
  intros [= <- _ _]. destruct (IH (S i) w1 w2 err2 bs2 Hg1 Ed) as [Hg2 Hs2]. split; [done|by etrans].
Qed.

Lemma stored_heartbeat url send hb io io1 io2 w :
  goodQueue (w_outbox w) →
  goodQueue (w_outbox (SendHeartbeat url send id id hb io io1 io2 w).1) ∧
  stored (SendHeartbeat url send id id hb io io1 io2 w).1 `sublist_of` stored w.
Proof.
  intros Hg. unfold SendHeartbeat. destruct (validateOutboxEvent hb) as [hb'|].
  2: { unfold PendingCount. pose proof (stored_ready io w) as Hs. pose proof (ready_good io w Hg) as Hr.
       destruct (ready io w) as [w1 []]; simpl in *; by destruct Hr. }
  unfold heartbeatSelect. destruct (o_closed _); [done|].
  pose proof (stored_load io w) as Hs. pose proof (load_good io w Hg) as Hload.
  destruct (loadLocked io w) as [w1 ok]; destruct Hload as (Hg1 & _). cbn [fst] in Hs |- *.
  destruct (match o_events (w_outbox w1) with [] => _ | _ => _ end) as [b over]. unfold id.
  pose proof (discardOversized_good over (length (o_events (w_outbox w1))) io1 w1 Hg1) as Hg2.
  pose proof (stored_discard over (length (o_events (w_outbox w1))) io1 w1 Hg1) as Hs2.
  destruct (discardOversized over _ io1 w1) as [w2 p]. simpl in Hg2, Hs2.
  assert (Hs12 : stored w2 `sublist_of` stored w) by by etrans.
  destruct (post url send (b ++ [hb'])) as [err|]; [done|].
  destruct b as [|b0 b]; [done|].
  pose proof (stored_removeSent (b0 :: b) io2 w2 Hg2) as Hs3. pose proof (removeSent_good (b0 :: b) io2 w2 Hg2) as [Hg3 _].
  destruct (removeSent (b0 :: b) io2 w2) as [w3 n]. simpl in *. split; [done|by etrans].
Qed.

(** A manager whose store, if any, is well formed. *)
Definition goodStore (m : Manager) : Prop := ∀ w, m_store m = Some w → goodQueue (w_outbox w).

Lemma migrate_stream ios queue : ∀ i w,
  goodQueue (w_outbox w) →
  let '(rest, w', _) := migrateFallback ios i queue w in
  goodQueue (w_outbox w') ∧ stored w' ++ ids rest `sublist_of` stored w ++ ids queue.
Proof.
  induction queue as [|e queue IH]; intros i w Hg; simpl; [done|].
  destruct (validateOutboxEvent e) as [e'|].
  - pose proof (stored_Enqueue e (ios i) w Hg) as He. destruct (Enqueue e (ios i) w) as [w1 ok].
    destruct He as [Hg1 Hs1]. destruct ok.
    + specialize (IH (S i) w1 Hg1). destruct (migrateFallback ios (S i) queue w1) as [[rest w2] j].
      destruct IH as [Hg2 Hs2]. split; [done|]. etrans; [exact Hs2|].
      change (e_EventID e :: ids queue) with ([e_EventID e] ++ ids queue). rewrite app_assoc.
      by apply sublist_app.
    + rewrite app_nil_r in Hs1. split; [done|]. by apply sublist_app.
  - specialize (IH i w Hg). destruct (migrateFallback ios i queue w) as [[rest w2] j].
    destruct IH as [Hg2 Hs2]. split; [done|]. etrans; [exact Hs2|]. apply sublist_app; [done|]. by constructor.
Qed.

Lemma migrateLocked_stream ios w m :
  goodQueue (w_outbox w) → m_store m = Some w →
  let '(m', w', _, ok) := migrateFallbackLocked ios w m in
  goodQueue (w_outbox w') ∧ m_store m' = Some w' ∧ stream m' `sublist_of` stream m ∧
  (ok = true → m_outbox m' = []) ∧ m_session m' = m_session m.
Proof.
  intros Hg Hst. unfold migrateFallbackLocked. pose proof (migrate_stream ios (m_outbox m) 0 w Hg) as Hm.
  destruct (migrateFallback ios 0 (m_outbox m) w) as [[rest w'] i]. destruct Hm as [Hg' Hs].
  split_and!; [done|done| | |done].
  - unfold stream. simpl. by rewrite Hst.
  - intros Hr%Nat.eqb_eq. by apply nil_length_inv in Hr.
Qed.

Lemma enqueueLocked_stream e m : stream (enqueueLocked e m) `sublist_of` stream m ++ [e_EventID e].
Proof.
  unfold stream, enqueueLocked. simpl. rewrite <- app_assoc. apply sublist_app; [done|].
  etrans; [apply ids_capQueue|]. by rewrite ids_app.
Qed.

Lemma storeEvent_stream e ios m :
  goodStore m →
  goodStore (storeEventLocked e ios m) ∧
  stream (storeEventLocked e ios m) `sublist_of` stream m ++ [e_EventID e] ∧
  m_session (storeEventLocked e ios m) = m_session m.
Proof.
  intros Hg. unfold storeEventLocked. destruct (m_store m) as [w|] eqn:Ew.
  2: { split_and!; [intros w' Hw'; simpl in Hw'; congruence|apply enqueueLocked_stream|done]. }
  pose proof (migrateLocked_stream ios w m (Hg w Ew) Ew) as Hm.
  destruct (migrateFallbackLocked ios w m) as [[[m1 w1] i] ok]. destruct Hm as (Hg1 & Hst1 & Hs1 & Hempty & Hse).
  destruct ok; cbn [negb].
  2: { split_and!; [intros w' Hw'; simpl in Hw'; rewrite Hst1 in Hw'; by simplify_eq| |done].
       etrans; [apply enqueueLocked_stream|]. by apply sublist_app. }
  specialize (Hempty eq_refl). pose proof (stored_Enqueue e (ios i) w1 Hg1) as He.
  destruct (Enqueue e (ios i) w1) as [w2 ok2]. destruct He as [Hg2 Hs2].
  unfold stream in Hs1 at 1. rewrite Hst1, Hempty in Hs1. simpl in Hs1. rewrite app_nil_r in Hs1.
  destruct ok2.
  - split_and!; [intros w' Hw'; simpl in Hw'; by simplify_eq| |done].
    unfold stream at 1. simpl. rewrite Hempty. simpl. rewrite app_nil_r.
    etrans; [exact Hs2|]. by apply sublist_app.
  - rewrite app_nil_r in Hs2. split_and!; [intros w' Hw'; simpl in Hw'; by simplify_eq| |done].
    etrans; [apply enqueueLocked_stream|]. apply sublist_app; [|done].
    unfold stream at 1. simpl. rewrite Hempty. simpl. rewrite app_nil_r. by etrans.
Qed.

Lemma snapshot_stream limit m :
  goodStore m →
  goodStore (snapshotLocked limit m).2 ∧ stream (snapshotLocked limit m).2 `sublist_of` stream m.
Proof.
  intros Hg. unfold snapshotLocked. destruct (m_hostIdentity m); [|done].
  destruct (outboxUploadBatch _ _ _) as [b over]. split; [exact Hg|].
  unfold stream. simpl. apply sublist_app; [done|apply ids_filter].
Qed.

Lemma removeMemory_stream sent m :
  goodStore m → goodStore (removeSentLocked sent m) ∧ stream (removeSentLocked sent m) `sublist_of` stream m.
Proof.
  intros Hg. split; [exact Hg|]. unfold stream. simpl. apply sublist_app; [done|apply ids_filter].
Qed.

Lemma memoryDrain_stream send fuel : ∀ m m' err,
  goodStore m → memoryDrain fuel send m = Some (m', err) → goodStore m' ∧ stream m' `sublist_of` stream m.
Proof.
  induction fuel as [|fuel IH]; intros m m' err Hg; [done|]. cbn [memoryDrain].
  pose proof (snapshot_stream (Z.to_nat outboxBatchSize) m Hg) as Hsn.
  destruct (snapshotLocked (Z.to_nat outboxBatchSize) m) as [b m1]. destruct Hsn as [Hg1 Hs1]. simpl in Hs1.
  destruct b as [|b0 b]; [by intros [= <- _]|]. destruct (send (b0 :: b)); [by intros [= <- _]|]. intros Hd.
  destruct (removeMemory_stream (b0 :: b) m1 Hg1) as [Hg2 Hs2].
  destruct (IH _ _ _ Hg2 Hd) as [Hg3 Hs3]. split; [done|]. etrans; [exact Hs3|]. by etrans.
Qed.

Lemma Flush_stream fuel url ssend send live ios m m' err :
  goodStore m → Flush fuel url ssend send live ios m = Some (m', err) →
  goodStore m' ∧ stream m' `sublist_of` stream m.
Proof.
  intros Hg. unfold Flush. destruct (m_store m) as [w|] eqn:Ew.
  - destruct (storeDrain fuel url ssend live ios 0 w) as [[[w1 e1] bs]|] eqn:Ed; [|done].
    destruct (stored_drain _ _ _ _ _ _ _ _ _ _ (Hg w Ew) Ed) as [Hg1 Hs1].
    assert (Hm1 : goodStore (withQueues (m_outbox m) (Some w1) m) ∧
              stream (withQueues (m_outbox m) (Some w1) m) `sublist_of` stream m).
    { split; [intros w' Hw'; simpl in Hw'; by simplify_eq|]. unfold stream. simpl. rewrite Ew.
      by apply sublist_app. }
    destruct Hm1 as [Hgm Hsm]. destruct e1 as [e1|]; [by intros [= <- _]|].
    destruct (memoryDrain fuel send _) as [[m2 e2]|] eqn:Em; [|done]. intros [= <- _].
    destruct (memoryDrain_stream _ _ _ _ _ Hgm Em) as [Hg2 Hs2]. split; [done|by etrans].
  - destruct (memoryDrain fuel send m) as [[m2 e2]|] eqn:Em; [|done]. intros [= <- _].
    by eapply memoryDrain_stream.
Qed.

Lemma Heartbeat_stream fuel url ssend send live am ios m m' err :
  goodStore m → Heartbeat fuel url ssend send live am ios m = Some (m', err) →
  goodStore m' ∧ stream m' `sublist_of` stream m.
Proof.
  intros Hg. unfold Heartbeat. destruct (buildHeartbeatLocked am m) as [hb|]; [|by intros [= <- _]].
  assert (Hmem : ∀ m0 m1 e1, goodStore m0 →
    heartbeatFromMemory fuel url ssend send live (ios 1%nat) hb m0 = Some (m1, e1) →
    goodStore m1 ∧ stream m1 `sublist_of` stream m0).
  { intros m0 m1 e1 Hg0. unfold heartbeatFromMemory.
    pose proof (snapshot_stream (Z.to_nat outboxBatchSize - 1) m0 Hg0) as Hsn.
    destruct (snapshotLocked (Z.to_nat outboxBatchSize - 1) m0) as [queued m2]. destruct Hsn as [Hg2 Hs2].
    simpl in Hs2. destruct (send (queued ++ [hb])); [by intros [= <- _]|].
    destruct queued as [|q0 queued]; [by intros [= <- _]|]. intros Hf.
    destruct (removeMemory_stream (q0 :: queued) m2 Hg2) as [Hg3 Hs3].
    destruct (Flush_stream _ _ _ _ _ _ _ _ _ Hg3 Hf) as [Hg4 Hs4]. split; [done|].
    etrans; [exact Hs4|]. by etrans. }
  destruct (m_store m) as [w|] eqn:Ew; [|by apply Hmem].
  pose proof (migrateLocked_stream (ios 0%nat) w m (Hg w Ew) Ew) as Hm.
  destruct (migrateFallbackLocked (ios 0%nat) w m) as [[[m1 w1] i] ok]. destruct Hm as (Hg1 & Hst1 & Hs1 & _ & _).
  assert (Hgm1 : goodStore m1) by (intros w' Hw'; rewrite Hst1 in Hw'; by simplify_eq).
  destruct ok; cbn [negb].
  2: { intros Hf. destruct (Hmem _ _ _ Hgm1 Hf) as [? Hs']. split; [done|by etrans]. }
  destruct (stored_heartbeat url ssend hb (ios 2%nat 0%nat) (ios 2%nat 1%nat) (ios 2%nat 2%nat) w1 Hg1) as [Hg2 Hs2].
  destruct (SendHeartbeat url ssend id id hb _ _ _ w1) as [w2 r]. simpl in Hg2, Hs2.
  assert (Hm2 : goodStore (withQueues (m_outbox m1) (Some w2) m1) ∧
            stream (withQueues (m_outbox m1) (Some w2) m1) `sublist_of` stream m).
  { split; [intros w' Hw'; simpl in Hw'; by simplify_eq|]. etrans; [|exact Hs1].
    unfold stream. simpl. rewrite Hst1. by apply sublist_app. }
  destruct Hm2 as [Hgm2 Hsm2]. destruct (fr_Err r); [by intros [= <- _]|]. intros Hf.
  destruct (Flush_stream _ _ _ _ _ _ _ _ _ Hgm2 Hf) as [? Hs']. split; [done|by etrans].
Qed.
End stream.

(** * Histories of a manager *)
Inductive managerOp :=
| MBegin (uuid : option string) (now : Z)
| MConnected (relayID : string) (now : Z)
| MRecord (event relayID : string) (attrs : gmap string string) (meas : gmap string Z) (am : ambient)
    (ios : nat → IO)
| MApps (relayID packageName : string) (uid count : Z) (ams : nat → ambient) (ios : nat → nat → IO)
| MGeo (geo : gmap string string) (io : IO)
| MEnd (reason : string) (am : ambient) (ios : nat → IO)
| MFlush (telemetryURL : option string) (storeSend : list Event → option OutboxError)
    (send : list Event → option TelemetryError) (live : nat → bool) (ios : nat → IO)
| MHeartbeat (telemetryURL : option string) (storeSend : list Event → option OutboxError)
    (send : list Event → option TelemetryError) (live : nat → bool) (am : ambient) (ios : nat → nat → IO).

(** Rounds enough for every flush ([flush_ends]). *)
Definition flushFuel : nat := 502.

(** The identifiers the chunks of an application count are recorded under. *)
Fixpoint chunkIDs (chunks : nat) (count : Z) (ams : nat → ambient) (k : nat) : list string :=
  match chunks with
  | O => []
  | S chunks =>
      if count <=? 0 then [] else
      match am_uuid (ams k) with
      | None => []
      | Some id => id :: chunkIDs chunks (count - Z.min count 100000) ams (S k)
      end
  end.

Section manager_history.
Context `{EventJSON}.
#[local] Set Default Proof Using "Type".

(** The manager after an operation, and the events it recorded. *)
Definition managerStep (m : Manager) (o : managerOp) : Manager * list string :=
  let recorded am := match m_session m, am_uuid am with Some _, Some id => [id] | _, _ => [] end in
  match o with
  | MBegin uuid now => ((BeginSession uuid now m).1, [])
  | MConnected relayID now => (MarkConnected relayID now m, [])
  | MRecord event relayID attrs meas am ios => (RecordEvent event relayID attrs meas am ios m, recorded am)
  | MApps relayID packageName uid count ams ios =>
      (RecordApplicationConnections relayID packageName uid count ams ios m,
       match m_session m with
       | Some _ => if str_empty packageName || (count <=? 0) then []
                   else chunkIDs (Z.to_nat (count / 100000 + 1)) count ams 0
       | None => []
       end)
  | MGeo geo io => (SetGeoAttributes geo io m, [])
  | MEnd reason am ios => (EndSession reason am ios m, recorded am)
  | MFlush url storeSend send live ios =>
      (match Flush flushFuel url storeSend send live ios m with Some (m', _) => m' | None => m end, [])
  | MHeartbeat url storeSend send live am ios =>
      (match Heartbeat flushFuel url storeSend send live am ios m with Some (m', _) => m' | None => m end, [])
  end.

Fixpoint managerRun (history : list managerOp) (m : Manager) : Manager * list string :=
  match history with
  | [] => (m, [])
  | o :: history =>
      let '(m, now) := managerStep m o in
      let '(m, later) := managerRun history m in (m, now ++ later)
  end.

Lemma RecordEvent_stream event relayID attrs meas am ios m :
  goodStore m →
  goodStore (RecordEvent event relayID attrs meas am ios m) ∧
  stream (RecordEvent event relayID attrs meas am ios m) `sublist_of`
    stream m ++ match m_session m, am_uuid am with Some _, Some id => [id] | _, _ => [] end.
Proof.
  intros Hg. unfold RecordEvent. destruct (m_session m) as [s|]; [|by rewrite app_nil_r].
  destruct (am_uuid am) as [id|]; [|by rewrite app_nil_r].
  destruct (storeEvent_stream (builtEvent event relayID (recordAttributes am m attrs) meas id (am_now am) s) ios m Hg)
    as (? & ? & _). done.
Qed.

Lemma recordChunks_stream relayID packageName uid ams ios sid chunks : ∀ count k m,
  goodStore m →
  goodStore (recordChunks chunks relayID packageName uid count ams ios k sid m) ∧
  stream (recordChunks chunks relayID packageName uid count ams ios k sid m) `sublist_of`
    stream m ++ chunkIDs chunks count ams k.
Proof.
  induction chunks as [|chunks IH]; intros count k m Hg; simpl; [by rewrite app_nil_r|].
  destruct (count <=? 0); [by rewrite app_nil_r|].
  destruct (am_uuid (ams k)) as [id|]; [|by rewrite app_nil_r].
  match goal with |- context [storeEventLocked ?e _ _] => set (ev := e) end.
  destruct (storeEvent_stream ev (ios k) m Hg) as (Hg1 & Hs1 & _).
  destruct (IH (count - Z.min count 100000) (S k) _ Hg1) as [Hg2 Hs2]. split; [done|].
  etrans; [exact Hs2|]. change (id :: chunkIDs chunks (count - Z.min count 100000) ams (S k))
    with ([id] ++ chunkIDs chunks (count - Z.min count 100000) ams (S k)).
  rewrite app_assoc. by apply sublist_app.
Qed.

Lemma managerStep_stream m o :
  goodStore m →
  goodStore (managerStep m o).1 ∧ stream (managerStep m o).1 `sublist_of` stream m ++ (managerStep m o).2.
Proof.
  intros Hg. destruct o; cbn [managerStep fst snd]; rewrite ?app_nil_r.
  - unfold BeginSession. by destruct uuid.
  - unfold MarkConnected. by destruct (m_session m).
  - by apply RecordEvent_stream.
  - unfold RecordApplicationConnections. destruct (_ || _); [destruct (m_session m); by rewrite app_nil_r|].
    destruct (m_session m); [by apply recordChunks_stream|by rewrite app_nil_r].
  - unfold SetGeoAttributes. destruct (bool_decide _); [done|]. cbn [withGeo m_store m_session].
    destruct (m_store m) as [w|] eqn:Ew; [|split; [intros w' Hw'; simpl in Hw'; congruence|unfold stream; done]].
    assert (Hsame : goodStore (withGeo geo m) ∧ stream (withGeo geo m) `sublist_of` stream m) by (by split).
    destruct (m_session m) as [s|]; [|done]. destruct (str_empty (ss_ID s)); [done|].
    split.
    + intros w' Hw'. simpl in Hw'. simplify_eq. by apply Apply_good, Hg.
    + unfold stream. simpl. rewrite Ew. apply sublist_app; [apply stored_Apply|done].
  - unfold EndSession. destruct (m_session m) as [s|] eqn:Es; [|by rewrite app_nil_r].
    pose proof (RecordEvent_stream "connection_ended" (ss_RelayID s) {["reason"%string := reason]}
      (addTrafficMeasurements
         (if time_is_zero (ss_ConnectedAt s) then {["session_duration_ms"%string := durationMs (ss_StartedAt s) (am_now am)]}
          else <["connection_duration_ms"%string := durationMs (ss_ConnectedAt s) (am_now am)]>
                 {["session_duration_ms"%string := durationMs (ss_StartedAt s) (am_now am)]})
         (am_traffic am)) am ios m Hg) as Hr.
    rewrite Es in Hr. exact Hr.
  - destruct (Flush _ _ _ _ _ _ m) as [[m' err]|] eqn:Ef; [|done]. by eapply Flush_stream.
  - destruct (Heartbeat _ _ _ _ _ _ _ m) as [[m' err]|] eqn:Eh; [|done]. by eapply Heartbeat_stream.
Qed.

Lemma managerRun_stream history : ∀ m,
  goodStore m →
  let '(m', recorded) := managerRun history m in
  goodStore m' ∧ stream m' `sublist_of` stream m ++ recorded.
Proof.
  induction history as [|o history IH]; intros m Hg; cbn [managerRun]; [by rewrite app_nil_r|].
  destruct (managerStep_stream m o Hg) as [Hg1 Hs1].
  destruct (managerStep m o) as [m1 now]. specialize (IH m1 Hg1).
  destruct (managerRun history m1) as [m2 later]. destruct IH as [Hg2 Hs2]. split; [done|].
  etrans; [exact Hs2|]. simpl in Hs1. rewrite app_assoc. by apply sublist_app.
Qed.

(** Telemetry keeps its order.  Through any history of sessions, events,
    application counts, geo updates, flushes and heartbeats, with the outbox
    available or not and whatever uploads and files do, what a manager still
    has to send (its store, then its fallback) is what the outbox file held,
    then what was recorded, in that order: events may be missing (sent,
    discarded or evicted), none is duplicated, and none recorded later is
    queued before an earlier one. *)
Lemma stream_in_order (brokerURL clientID : string) (hostIdentity : bool) (store : option disk)
    (history : list managerOp) :
  let m := withQueues [] (start <$> store) (newManager brokerURL clientID hostIdentity) in
  let '(m', recorded) := managerRun history m in
  storedOf (m_store m') ++ ids (m_outbox m') `sublist_of` (match store with Some d => backlog d | None => [] end) ++ recorded.
Proof.
  set (m := withQueues _ _ _).
  assert (Hg : goodStore m).
  { intros w Hw. unfold m in Hw. simpl in Hw. destruct store; simpl in Hw; simplify_eq. apply goodQueue_new. }
  pose proof (managerRun_stream history m Hg) as Hr. cbv zeta. destruct (managerRun history m) as [m' recorded].
  destruct Hr as [_ Hs]. unfold stream in Hs at 2. unfold m in Hs. simpl in Hs. rewrite app_nil_r in Hs.
  by destruct store.
Qed.
End manager_history.
