(* ===== verification/RateLimit.v ===== *)
(** The token-bucket limiters: the broker's, per source
    (src/libs/openrung/internal/broker/ratelimit.go), the punch reflector's
    (src/libs/punchcore/reflector.go) and the hub's for punch requests
    (src/libs/openrung/internal/tunnel/punch.go).

    Tokens are float64; the limiters are written over [Float64], and the bound
    on what they let through is proved for exact arithmetic. *)
From Stdlib Require Import QArith Lqa.
From stdpp Require Import base list gmap strings.
From Stdlib Require Import ZArith Lia.
From S2P Require Import Prelude Codec Ranking.
#[local] Open Scope Z_scope.

Record tokenBucket (F : Type) := { tokens : F; lastSeen : Z }.
Arguments tokens {F}.
Arguments lastSeen {F}.

Abbreviation buckets F := (gmap string (tokenBucket F)).

Section limiters.
Context {F : Type} {float : Float64 F}.
#[local] Set Default Proof Using "Type".

(** [Duration.Seconds]. *)
Definition seconds (d : Z) : F :=
  fadd (of_int (Z.quot d second)) (fdiv (of_int (Z.rem d second)) (of_int 1000000000)).

(** * The broker's limiter *)
Record ipRateLimiter := { ratePerSecond : F; burst : F; maxKeys : nat }.

(** [min] of two floats. *)
Definition fmin (a b : F) : F := if flt b a then b else a.

Definition idleFull (l : ipRateLimiter) (now : Z) (b : tokenBucket F) : bool :=
  negb (flt (fmul (seconds (time_sub now (lastSeen b))) (ratePerSecond l)) (fsub (burst l) (tokens b))).

Definition sweepLocked (l : ipRateLimiter) (now : Z) (m : buckets F) : buckets F :=
  filter (λ kb, idleFull l now kb.2 = false) m.

(** The refill and the decision for a tracked key. *)
Definition spend (l : ipRateLimiter) (now : Z) (b : tokenBucket F) : bool * tokenBucket F :=
  let elapsed := seconds (time_sub now (lastSeen b)) in
  let b := if flt (of_int 0) elapsed
           then {| tokens := fmin (burst l) (fadd (tokens b) (fmul elapsed (ratePerSecond l))); lastSeen := now |}
           else b in
  if flt (tokens b) (of_int 1) then (false, b)
  else (true, {| tokens := fsub (tokens b) (of_int 1); lastSeen := lastSeen b |}).

Definition allow (l : ipRateLimiter) (key : string) (now : Z) (m : buckets F) : bool * buckets F :=
  match m !! key with
  | Some b => let '(ok, b) := spend l now b in (ok, <[key := b]> m)
  | None =>
      let m := if (maxKeys l <=? size m)%nat then sweepLocked l now m else m in
      if (maxKeys l <=? size m)%nat then (true, m) else
      let '(ok, b) := spend l now {| tokens := burst l; lastSeen := now |} in (ok, <[key := b]> m)
  end.

Definition rateLimiterMaxTrackedIPs : nat := Z.to_nat 100000.
Definition newIPRateLimiter (rate burst : F) : ipRateLimiter :=
  {| ratePerSecond := rate; burst := burst; maxKeys := rateLimiterMaxTrackedIPs |}.

Definition relayListLimiter : ipRateLimiter := newIPRateLimiter (fconst 2 1) (of_int 30).
Definition wssTicketLimiter : ipRateLimiter := newIPRateLimiter (fconst 2 1) (of_int 30).
Definition telemetryLimiter : ipRateLimiter := newIPRateLimiter (fconst 1 1) (of_int 20).
Definition relayRegistrationLimiter : ipRateLimiter := newIPRateLimiter (fconst 20 1) (of_int 256).
Definition speedTestLimiter : ipRateLimiter := newIPRateLimiter (fconst 1 30) (of_int 3).

(** [wssTicketRateKey] of a request's source and its X-OpenRung-Client-ID
    headers; [digest] is the hexadecimal of half a SHA-256. *)
Definition wssTicketRateKey (digest : string → string) (source : string) (clientIDs : list string) : string :=
  match clientIDs with
  | [clientID] =>
      let n := length (bytes clientID) in
      if (n <? 1)%nat || (128 <? n)%nat || negb (str_eqb (TrimSpace clientID) clientID) then source else
      if existsb (λ b, (val b <? 33) || (126 <? val b)) (bytes clientID) then source
      else text (bytes source ++ chr 0 :: bytes (digest clientID))
  | _ => source
  end.

(** [rateLimited]: 429 with the limiter's answer, or the handler's. *)
Definition rateLimited {A} (l : ipRateLimiter) (key : string) (now : Z) (m : buckets F)
    (tooMany : A) (next : A) : A * buckets F :=
  let '(ok, m) := allow l key now m in (if ok then next else tooMany, m).

(** * The reflector's and the hub's limiters *)
Definition punchSpend (rate burst : F) (now : Z) (b : tokenBucket F) : bool * tokenBucket F :=
  let t := fadd (tokens b) (fmul (seconds (time_sub now (lastSeen b))) rate) in
  let t := if flt burst t then burst else t in
  if flt t (of_int 1) then (false, {| tokens := t; lastSeen := now |})
  else (true, {| tokens := fsub t (of_int 1); lastSeen := now |}).

(** [ipRateLimiter.allow] of the reflector. *)
Definition reflectAllow (rate burst : F) (ip : string) (now : Z) (m : buckets F) : bool * buckets F :=
  match m !! ip with
  | None => (true, <[ip := {| tokens := fsub burst (of_int 1); lastSeen := now |}]> m)
  | Some b => let '(ok, b) := punchSpend rate burst now b in (ok, <[ip := b]> m)
  end.

(** [ipRateLimiter.prune]. *)
Definition prune (cutoff : Z) (m : buckets F) : buckets F :=
  filter (λ kb, time_before (lastSeen kb.2) cutoff = false) m.

Record punchLimiter := { pl_buckets : buckets F; pl_lastPrune : Z }.

Definition limiterPruneInterval : Z := minute.
Definition limiterIdleTTL : Z := 10 * minute.

Definition pruneLocked (now : Z) (l : punchLimiter) : punchLimiter :=
  if time_sub now (pl_lastPrune l) <? limiterPruneInterval then l else
  {| pl_buckets := prune (time_add now (- limiterIdleTTL)) (pl_buckets l); pl_lastPrune := now |}.

(** [punchLimiter.allow]. *)
Definition punchAllow (rate burst : F) (key : string) (now : Z) (l : punchLimiter) : bool * punchLimiter :=
  let l := pruneLocked now l in
  let '(ok, m) := reflectAllow rate burst key now (pl_buckets l) in
  (ok, {| pl_buckets := m; pl_lastPrune := pl_lastPrune l |}).
End limiters.
Arguments ipRateLimiter : clear implicits.
Arguments punchLimiter : clear implicits.

(** * Exact arithmetic *)
#[local] Open Scope Q_scope.

(** A duration in seconds. *)
Definition secs (d : Z) : Q := inject_Z d * (1 # 1000000000).

Lemma secs_add a b : secs (a + b) == secs a + secs b.
Proof. unfold secs. rewrite inject_Z_plus. ring. Qed.

Lemma secs_nonneg d : (0 <= d)%Z → 0 <= secs d.
Proof.
  intros Hd. unfold secs. apply Qmult_le_0_compat; [|by vm_compute].
  change 0 with (inject_Z 0). by rewrite <- Zle_Qle.
Qed.

Lemma secs_pos d : (0 < d)%Z ↔ 0 < secs d.
Proof.
  unfold secs, Qlt, Qmult, inject_Z. simpl. lia.
Qed.

Section exact_limiters.
#[local] Existing Instance exact.
#[local] Set Default Proof Using "Type".

Lemma seconds_exact d : @seconds Q exact d == secs d.
Proof.
  unfold seconds, secs. cbn [fadd fdiv of_int exact].
  rewrite (Z.quot_rem' d second) at 3. rewrite inject_Z_plus, inject_Z_mult.
  change (inject_Z second) with (inject_Z 1000000000). field.
Qed.

(** The clock stays below 2^62 nanoseconds, so that [now.Sub] is exact. *)
Definition horizon : Z := 2 ^ 62.

Lemma time_sub_exact a b : (0 <= b <= a)%Z → (a <= horizon)%Z → time_sub a b = (a - b)%Z.
Proof. unfold time_sub, horizon, int64_max, int64_min. lia. Qed.

(** What a key may spend at once at [now]. *)
Definition available (rate burst : Q) (now : Z) (b : option (tokenBucket Q)) : Q :=
  match b with
  | None => burst
  | Some b => let t := tokens b + secs (now - lastSeen b) * rate in if qlt burst t then burst else t
  end.

Definition goodBucket (burst : Q) (t : Z) (b : tokenBucket Q) : Prop :=
  0 <= tokens b <= burst ∧ (0 <= lastSeen b <= t)%Z.

Lemma available_cases rate burst now b :
  let t := tokens b + secs (now - lastSeen b) * rate in
  (available rate burst now (Some b) == burst ∧ burst <= t) ∨
  (available rate burst now (Some b) == t ∧ t <= burst).
Proof.
  unfold available. cbv zeta. destruct (qlt burst _) eqn:E.
  - apply qlt_spec in E. left. split; [done|]. lra.
  - apply qlt_false in E. by right.
Qed.

Lemma available_range rate burst t now b :
  0 <= rate → 0 <= burst → (t <= now)%Z →
  match b with Some b => goodBucket burst t b | None => True end →
  0 <= available rate burst now b <= burst.
Proof.
  intros Hr Hb Ht Hg. destruct b as [b|]; [|simpl; lra]. destruct Hg as [Htok Hl].
  assert (0 <= secs (now - lastSeen b) * rate) as Hx by (apply Qmult_le_0_compat; [apply secs_nonneg; lia|done]).
  destruct (available_cases rate burst now b) as [[H1 H2]|[H1 H2]]; lra.
Qed.

Lemma available_refill rate burst t now b :
  0 <= rate → (t <= now)%Z → available rate burst now b <= available rate burst t b + rate * secs (now - t).
Proof.
  intros Hr Ht. assert (0 <= rate * secs (now - t)) as Hx by (apply Qmult_le_0_compat; [done|apply secs_nonneg; lia]).
  destruct b as [b|]; [|simpl; lra].
  assert (secs (now - lastSeen b) == secs (t - lastSeen b) + secs (now - t)) as Hs.
  { rewrite <- secs_add. f_equiv. lia. }
  assert (secs (now - lastSeen b) * rate == secs (t - lastSeen b) * rate + rate * secs (now - t)) as Hm
    by (rewrite Hs; ring).
  destruct (available_cases rate burst now b) as [[H1 H2]|[H1 H2]],
    (available_cases rate burst t b) as [[H3 H4]|[H3 H4]]; lra.
Qed.

(** * What a limiter promises *)
(** A step is a request for a key or, without a key, housekeeping. *)
Record limiterLaws {S : Type} (step : option string → Z → S → bool * S) (bucketOf : S → string → option (tokenBucket Q))
    (good : Z → S → Prop) (admissible : option string → Prop) (rate burst : Q) : Prop := {
  law_rate : 0 <= rate;
  law_burst : 0 <= burst;
  law_bucket t s k : good t s → match bucketOf s k with Some b => goodBucket burst t b | None => True end;
  law_step t s key now :
    good t s → (0 <= t <= now)%Z → (now <= horizon)%Z → admissible key →
    let '(ok, s') := step key now s in
    good now s' ∧
    ∀ k, available rate burst now (bucketOf s' k) + (if decide (Some k = key) then if ok : bool then 1 else 0 else 0)
         <= available rate burst now (bucketOf s k)
}.

(** The requests of [key] a history lets through. *)
Fixpoint granted {S} (step : option string → Z → S → bool * S) (key : string)
    (history : list (option string * Z)) (s : S) : nat :=
  match history with
  | [] => 0
  | (k, now) :: history =>
      let '(ok, s) := step k now s in
      ((if decide (k = Some key) then if ok : bool then 1 else 0 else 0) + granted step key history s)%nat
  end.

(** The clock never goes back and stays in range. *)
Fixpoint clockOK (t : Z) (history : list (option string * Z)) : Prop :=
  match history with
  | [] => (t <= horizon)%Z
  | (_, now) :: history => (t <= now)%Z ∧ clockOK now history
  end.

Fixpoint lastTime (t : Z) (history : list (option string * Z)) : Z :=
  match history with [] => t | (_, now) :: history => lastTime now history end.

Lemma clockOK_horizon t history : clockOK t history → (t <= horizon)%Z.
Proof. revert t. induction history as [|[k n] history IH]; intros t; simpl; [done|]. intros [? ?%IH]. lia. Qed.

Lemma granted_bound {S} step bucketOf good admissible rate burst :
  @limiterLaws S step bucketOf good admissible rate burst →
  ∀ key history t s, good t s → (0 <= t)%Z → clockOK t history → Forall admissible history.*1 →
  inject_Z (Z.of_nat (granted step key history s))
    <= available rate burst t (bucketOf s key) + rate * secs (lastTime t history - t).
Proof.
  intros L key history. induction history as [|[k now] history IH]; intros t s Hg Ht Hc Ha.
  - cbn [granted lastTime]. rewrite Z.sub_diag. change (inject_Z (Z.of_nat 0)) with 0.
    pose proof (available_range rate burst t t (bucketOf s key) (law_rate _ _ _ _ _ _ L) (law_burst _ _ _ _ _ _ L)
      ltac:(lia) (law_bucket _ _ _ _ _ _ L t s key Hg)) as Hr.
    assert (rate * secs 0 == 0) as Hz by (unfold secs; ring). lra.
  - destruct Hc as [Htn Hc]. pose proof (clockOK_horizon _ _ Hc) as Hh. cbn [lastTime].
    inversion Ha as [|? ? Hk Ha']; subst. cbn [granted].
    pose proof (law_step _ _ _ _ _ _ L t s k now Hg ltac:(lia) Hh Hk) as Hstep.
    destruct (step k now s) as [ok s']. destruct Hstep as [Hg' Hav]. specialize (Hav key).
    specialize (IH now s' Hg' ltac:(lia) Hc Ha').
    pose proof (available_refill rate burst t now (bucketOf s key) (law_rate _ _ _ _ _ _ L) Htn) as Hre.
    assert (rate * secs (lastTime now history - t) ==
            rate * secs (lastTime now history - now) + rate * secs (now - t)) as Hsum.
    { assert (secs (lastTime now history - t) == secs (lastTime now history - now) + secs (now - t)) as ->; [|ring].
      rewrite <- secs_add. f_equiv. lia. }
    rewrite Nat2Z.inj_add, inject_Z_plus.
    assert (inject_Z (Z.of_nat (if decide (k = Some key) then if ok : bool then 1 else 0 else 0)) ==
            if decide (Some key = k) then if ok : bool then 1 else 0 else 0) as Hone.
    { destruct (decide (k = Some key)), (decide (Some key = k)); try congruence; by destruct ok. }
    rewrite Hone. lra.
Qed.

(** * The three limiters keep the laws *)
Lemma elapsed_exact t now b burst :
  goodBucket burst t b → (t <= now)%Z → (now <= horizon)%Z →
  @seconds Q exact (time_sub now (lastSeen b)) == secs (now - lastSeen b).
Proof. intros [_ Hl] Ht Hh. rewrite seconds_exact, time_sub_exact by lia. done. Qed.

Lemma available_now rate burst b :
  tokens b <= burst → available rate burst (lastSeen b) (Some b) == tokens b.
Proof.
  intros Hb. pose proof (available_cases rate burst (lastSeen b) b) as Hc. cbv zeta in Hc.
  rewrite Z.sub_diag in Hc. assert (secs 0 * rate == 0) as Hz by (unfold secs; ring). destruct Hc as [[? ?]|[? ?]]; lra.
Qed.

Lemma spend_law l t now b :
  0 <= ratePerSecond l → goodBucket (burst l) t b → (t <= now)%Z → (now <= horizon)%Z →
  let '(ok, b') := spend l now b in
  goodBucket (burst l) now b' ∧
  available (ratePerSecond l) (burst l) now (Some b') + (if ok then 1 else 0)
    <= available (ratePerSecond l) (burst l) now (Some b).
Proof.
  intros Hr Hg Ht Hh. pose proof (elapsed_exact t now b (burst l) Hg Ht Hh) as He. destruct Hg as [Htok Hl].
  unfold spend. set (e := seconds _) in *. cbn [flt of_int exact fmul fadd fsub].
  assert (e * ratePerSecond l == secs (now - lastSeen b) * ratePerSecond l) as Hm by (by rewrite He).
  pose proof (available_cases (ratePerSecond l) (burst l) now b) as Hav. cbv zeta in Hav.
  set (b1 := if qlt (inject_Z 0) e then _ else b).
  assert (Hb1 : goodBucket (burst l) now b1 ∧ lastSeen b1 = now ∧
            tokens b1 <= available (ratePerSecond l) (burst l) now (Some b)).
  { unfold b1. destruct (qlt (inject_Z 0) e) eqn:E.
    - apply qlt_spec in E. change (inject_Z 0) with 0 in E.
      assert (0 <= e * ratePerSecond l) as Hx by (apply Qmult_le_0_compat; lra).
      unfold fmin. cbn [flt exact]. destruct (qlt _ (burst l)) eqn:E2; [apply qlt_spec in E2|apply qlt_false in E2];
        (split; [split; cbn [tokens lastSeen]; [lra|lia]|split; [done|cbn [tokens]]]);
        destruct Hav as [[H1 H2]|[H1 H2]]; lra.
    - apply qlt_false in E. change (inject_Z 0) with 0 in E.
      assert (Hz : ¬ (0 < now - lastSeen b)%Z) by (intros Hp; apply secs_pos in Hp; lra).
      assert (lastSeen b = now) as Hlast by lia.
      split; [split; [done|lia]|]. split; [done|]. rewrite Hlast, Z.sub_diag in Hav.
      assert (secs 0 * ratePerSecond l == 0) as Hz0 by (unfold secs; ring).
      destruct Hav as [[H1 H2]|[H1 H2]]; lra. }
  destruct Hb1 as ([Htok1 Hl1] & Hlast1 & Hle).
  destruct (qlt (tokens b1) (inject_Z 1)) eqn:E1.
  - split; [by split|]. rewrite <- Hlast1 at 1. rewrite available_now by lra. lra.
  - apply qlt_false in E1. change (inject_Z 1) with 1 in *. split; [split; cbn [tokens lastSeen]; [lra|lia]|].
    set (b2 := {| tokens := _; lastSeen := _ |}).
    assert (lastSeen b2 = now) as Hl2 by done. rewrite <- Hl2 at 1. rewrite available_now by (cbn [b2 tokens]; lra). cbn [b2 tokens]. lra.
Qed.

Definition goodBuckets (burst : Q) (t : Z) (m : buckets Q) : Prop := ∀ k b, m !! k = Some b → goodBucket burst t b.

Lemma goodBucket_later burst t now b : goodBucket burst t b → (t <= now)%Z → goodBucket burst now b.
Proof. intros [? ?] ?. split; [done|lia]. Qed.

Lemma goodBuckets_insert burst t now m k b :
  goodBuckets burst t m → (t <= now)%Z → goodBucket burst now b → goodBuckets burst now (<[k := b]> m).
Proof.
  intros Hm Ht Hb k' b' [[<- <-]|[Hk Hb']]%lookup_insert_Some; [done|]. by eapply goodBucket_later; [eapply Hm|].
Qed.

(** Forgetting buckets that are full changes nothing a key may spend. *)
Lemma filter_law rate burst t now (P : string * tokenBucket Q → Prop) `{∀ x, Decision (P x)} m :
  0 <= rate → goodBuckets burst t m → (t <= now)%Z →
  (∀ k b, m !! k = Some b → ¬ P (k, b) → burst <= tokens b + secs (now - lastSeen b) * rate) →
  goodBuckets burst t (filter P m) ∧
  ∀ k, available rate burst now (filter P m !! k) <= available rate burst now (m !! k).
Proof.
  intros Hr Hm Ht Hfull. split.
  - intros k b [Hk _]%map_lookup_filter_Some. by eapply Hm.
  - intros k. destruct (m !! k) as [b|] eqn:Hk.
    + destruct (decide (P (k, b))) as [HP|HP].
      * rewrite (proj2 (map_lookup_filter_Some P m k b)) by done. lra.
      * assert (filter P m !! k = None) as ->.
        { apply map_lookup_filter_None. right. intros b' Hb'. rewrite Hk in Hb'. by simplify_eq. }
        specialize (Hfull k b Hk HP). simpl available at 1.
        destruct (available_cases rate burst now b) as [[? ?]|[? ?]]; lra.
    + assert (filter P m !! k = None) as ->; [|lra]. apply map_lookup_filter_None. by left.
Qed.

Definition brokerStep (l : ipRateLimiter Q) (key : option string) (now : Z) (m : buckets Q) : bool * buckets Q :=
  match key with Some key => allow l key now m | None => (false, m) end.

(** With no more sources than the table holds. *)
Lemma broker_laws l (keys : gset string) :
  0 <= ratePerSecond l → 0 <= burst l → (size keys ≤ maxKeys l)%nat →
  limiterLaws (brokerStep l) (λ m k, m !! k) (λ t m, goodBuckets (burst l) t m ∧ dom m ⊆ keys)
    (λ key, match key with Some k => k ∈ keys | None => True end) (ratePerSecond l) (burst l).
Proof.
  intros Hr Hb Hsize. split; [done|done| |].
  - intros t m k [Hm _]. destruct (m !! k) eqn:E; [by eapply Hm|done].
  - intros t m [key|] now [Hm Hdom] Ht Hh Hk; simpl.
    2: { split; [split; [|done]; intros k b Hb'; by eapply goodBucket_later; [eapply Hm|lia]|]. intros k. lra. }
    unfold allow. destruct (m !! key) as [b|] eqn:Hkey.
    + pose proof (spend_law l t now b Hr (Hm _ _ Hkey) ltac:(lia) Hh) as Hs.
      destruct (spend l now b) as [ok b']. destruct Hs as [Hg' Hav]. split.
      { split; [by eapply goodBuckets_insert; [exact Hm|lia|]|]. rewrite dom_insert. set_solver. }
      intros k. destruct (decide (Some k = Some key)) as [[= ->]|Hne].
      * rewrite lookup_insert_eq, Hkey. done.
      * rewrite lookup_insert_ne by congruence. lra.
    + set (m1 := if (maxKeys l <=? size m)%nat then sweepLocked l now m else m).
      assert (Hm1 : goodBuckets (burst l) t m1 ∧ dom m1 ⊆ dom m ∧
                ∀ k, available (ratePerSecond l) (burst l) now (m1 !! k) <=
                     available (ratePerSecond l) (burst l) now (m !! k)).
      { unfold m1. destruct (_ <=? _)%nat; [|split_and!; [done|done|intros; lra]]. unfold sweepLocked.
        match goal with |- context [filter ?P m] =>
          destruct (filter_law (ratePerSecond l) (burst l) t now P m Hr Hm ltac:(lia)) as [? ?] end.
        - intros k b Hkb Hn. simpl in Hn. apply not_false_is_true in Hn. unfold idleFull in Hn.
          apply negb_true_iff in Hn. cbn [flt fmul fsub exact] in Hn. apply qlt_false in Hn.
          pose proof (elapsed_exact t now b (burst l) (Hm _ _ Hkb) ltac:(lia) Hh) as He.
          assert (seconds (time_sub now (lastSeen b)) * ratePerSecond l ==
                  secs (now - lastSeen b) * ratePerSecond l) as Hx by (by rewrite He). lra.
        - split_and!; [done| |done]. apply dom_filter_subseteq. }
      destruct Hm1 as (Hg1 & Hd1 & Hav1).
      assert (Hlt : (size m1 < maxKeys l)%nat).
      { rewrite <- size_dom. eapply Nat.lt_le_trans; [|exact Hsize]. apply subset_size.
        split; [set_solver|]. intros Hsub. apply not_elem_of_dom in Hkey. set_solver. }
      rewrite (proj2 (Nat.leb_gt _ _) Hlt).
      assert (Hnew : goodBucket (burst l) now {| tokens := burst l; lastSeen := now |}).
      { split; simpl; [lra|lia]. }
      pose proof (spend_law l now now _ Hr Hnew ltac:(lia) Hh) as Hs.
      destruct (spend l now _) as [ok b']. destruct Hs as [Hg' Hav']. split.
      { split; [by eapply goodBuckets_insert; [exact Hg1|lia|]|]. rewrite dom_insert. set_solver. }
      intros k. destruct (decide (Some k = Some key)) as [[= ->]|Hne].
      * rewrite lookup_insert_eq, Hkey. eapply Qle_trans; [exact Hav'|].
        apply (available_range (ratePerSecond l) (burst l) now now (Some _)); done || lia.
      * rewrite lookup_insert_ne by congruence. specialize (Hav1 k). lra.
Qed.

Lemma punchSpend_law rate burst t now b :
  0 <= rate → 0 <= burst → goodBucket burst t b → (t <= now)%Z → (now <= horizon)%Z →
  let '(ok, b') := punchSpend rate burst now b in
  goodBucket burst now b' ∧
  available rate burst now (Some b') + (if ok then 1 else 0) <= available rate burst now (Some b).
Proof.
  intros Hr Hb Hg Ht Hh. pose proof (elapsed_exact t now b burst Hg Ht Hh) as He. destruct Hg as [Htok Hl].
  unfold punchSpend. set (e := seconds _) in *. cbn [flt of_int exact fmul fadd fsub].
  assert (e * rate == secs (now - lastSeen b) * rate) as Hm by (by rewrite He).
  assert (0 <= secs (now - lastSeen b) * rate) as Hx by (apply Qmult_le_0_compat; [apply secs_nonneg; lia|done]).
  pose proof (available_cases rate burst now b) as Hav. cbv zeta in Hav.
  set (t1 := if qlt burst _ then burst else _).
  assert (Ht1 : 0 <= t1 <= burst ∧ t1 <= available rate burst now (Some b)).
  { unfold t1. destruct (qlt burst _) eqn:E; [apply qlt_spec in E|apply qlt_false in E];
      destruct Hav as [[H1 H2]|[H1 H2]]; lra. }
  change (inject_Z 1) with 1. destruct (qlt t1 1) eqn:E1.
  - split; [split; cbn [tokens lastSeen]; [lra|lia]|]. set (b2 := {| tokens := t1; lastSeen := now |}).
    assert (lastSeen b2 = now) as Hl2 by done. rewrite <- Hl2 at 1.
    rewrite available_now by (cbn [b2 tokens]; lra). cbn [b2 tokens]. lra.
  - apply qlt_false in E1. split; [split; cbn [tokens lastSeen]; [lra|lia]|].
    set (b2 := {| tokens := t1 - 1; lastSeen := now |}).
    assert (lastSeen b2 = now) as Hl2 by done. rewrite <- Hl2 at 1.
    rewrite available_now by (cbn [b2 tokens]; lra). cbn [b2 tokens]. lra.
Qed.

(** A request of a map of buckets. *)
Lemma reflectAllow_law rate burst t now key m :
  0 <= rate → 1 <= burst → goodBuckets burst t m → (0 <= t <= now)%Z → (now <= horizon)%Z →
  let '(ok, m') := reflectAllow rate burst key now m in
  goodBuckets burst now m' ∧
  ∀ k, available rate burst now (m' !! k) + (if decide (Some k = Some key) then if ok : bool then 1 else 0 else 0)
       <= available rate burst now (m !! k).
Proof.
  intros Hr Hb Hm Ht Hh. unfold reflectAllow. destruct (m !! key) as [b|] eqn:Hkey.
  - pose proof (punchSpend_law rate burst t now b Hr ltac:(lra) (Hm _ _ Hkey) ltac:(lia) Hh) as Hs.
    destruct (punchSpend rate burst now b) as [ok b']. destruct Hs as [Hg' Hav].
    split; [by eapply goodBuckets_insert; [exact Hm|lia|]|].
    intros k. destruct (decide (Some k = Some key)) as [[= ->]|Hne].
    + rewrite lookup_insert_eq, Hkey. done.
    + rewrite lookup_insert_ne by congruence. lra.
  - cbn [fsub of_int exact]. change (inject_Z 1) with 1. set (b2 := {| tokens := burst - 1; lastSeen := now |}).
    split; [eapply goodBuckets_insert; [exact Hm|lia|]; split; cbn [b2 tokens lastSeen]; [lra|lia]|].
    intros k. destruct (decide (Some k = Some key)) as [[= ->]|Hne].
    + rewrite lookup_insert_eq, Hkey. assert (lastSeen b2 = now) as Hl2 by done. rewrite <- Hl2 at 1.
      rewrite available_now by (cbn [b2 tokens]; lra). cbn [b2 tokens]. unfold available. lra.
    + rewrite lookup_insert_ne by congruence. lra.
Qed.

(** Pruning buckets idle for as long as a full refill takes is harmless. *)
Lemma prune_law rate burst t now idle m :
  0 <= rate → goodBuckets burst t m → (t <= now)%Z → burst <= rate * secs idle →
  goodBuckets burst t (prune (time_add now (- idle)) m) ∧
  ∀ k, available rate burst now (prune (time_add now (- idle)) m !! k) <= available rate burst now (m !! k).
Proof.
  intros Hr Hm Ht Hidle. unfold prune. apply filter_law; [done|done|done|].
  intros k b Hkb Hn. simpl in Hn. apply not_false_is_true in Hn. unfold time_before, time_add in Hn.
  apply Z.ltb_lt in Hn. destruct (Hm k b Hkb) as [Htok Hl].
  assert (secs (now - lastSeen b) == secs idle + secs (now - lastSeen b - idle)) as Hs.
  { rewrite <- secs_add. f_equiv. lia. }
  assert (0 <= secs (now - lastSeen b - idle) * rate) as Hx
    by (apply Qmult_le_0_compat; [apply secs_nonneg; lia|done]).
  assert (secs (now - lastSeen b) * rate == rate * secs idle + secs (now - lastSeen b - idle) * rate) as Hmul
    by (rewrite Hs; ring).
  lra.
Qed.

(** The reflector: requests, and the prune of its collector. *)
Definition reflectorStep (rate burst : Q) (idle : Z) (key : option string) (now : Z) (m : buckets Q) : bool * buckets Q :=
  match key with
  | Some ip => reflectAllow rate burst ip now m
  | None => (false, prune (time_add now (- idle)) m)
  end.

Lemma reflector_laws rate burst idle :
  0 <= rate → 1 <= burst → burst <= rate * secs idle →
  limiterLaws (reflectorStep rate burst idle) (λ m k, m !! k) (goodBuckets burst) (λ _, True) rate burst.
Proof.
  intros Hr Hb Hidle. split; [done|lra| |].
  - intros t m k Hm. destruct (m !! k) eqn:E; [by eapply Hm|done].
  - intros t m [key|] now Hm Ht Hh _; simpl; [by apply (reflectAllow_law rate burst t)|].
    destruct (prune_law rate burst t now idle m Hr Hm ltac:(lia) Hidle) as [Hg Hav]. split.
    + intros k b Hkb. eapply goodBucket_later; [by eapply Hg|lia].
    + intros k. specialize (Hav k). lra.
Qed.

(** The hub, which prunes on the way. *)
Definition hubStep (rate burst : Q) (key : option string) (now : Z) (l : punchLimiter Q) : bool * punchLimiter Q :=
  match key with Some key => punchAllow rate burst key now l | None => (false, l) end.

Lemma hub_laws rate burst :
  0 <= rate → 1 <= burst → burst <= rate * secs limiterIdleTTL →
  limiterLaws (hubStep rate burst) (λ l k, pl_buckets l !! k) (λ t l, goodBuckets burst t (pl_buckets l))
    (λ _, True) rate burst.
Proof.
  intros Hr Hb Hidle. split; [done|lra| |].
  - intros t l k Hm. destruct (pl_buckets l !! k) eqn:E; [by eapply Hm|done].
  - intros t l [key|] now Hm Ht Hh _; simpl.
    2: { split; [intros k b Hkb; eapply goodBucket_later; [by eapply Hm|lia]|]. intros k. lra. }
    unfold punchAllow.
    assert (Hp : goodBuckets burst t (pl_buckets (pruneLocked now l)) ∧
              ∀ k, available rate burst now (pl_buckets (pruneLocked now l) !! k) <=
                   available rate burst now (pl_buckets l !! k)).
    { unfold pruneLocked. destruct (_ <? _)%Z; [split; [done|intros; lra]|].
      by apply prune_law; [|done|lia|]. }
    destruct Hp as [Hg1 Hav1].
    pose proof (reflectAllow_law rate burst t now key (pl_buckets (pruneLocked now l)) Hr Hb Hg1 Ht Hh) as Ha.
    destruct (reflectAllow rate burst key now _) as [ok m']. destruct Ha as [Hg2 Hav2]. cbn [pl_buckets].
    split; [done|]. intros k. specialize (Hav1 k). specialize (Hav2 k). lra.
Qed.

(** Every limiter lets through what it says and no more.  In any window of any
    history, requests of other sources, sweeps and prunes included, a source is
    granted at most its burst plus its rate times the length of the window: for
    the broker's limiters while no more sources than the table holds appear,
    for the reflector (20 per second, burst 40) and for the hub's punch
    requests (5 per second, burst 10) always, since what they forget has
    refilled. *)
Lemma rate_bounded key history t :
  (0 <= t)%Z → clockOK t history →
  (∀ l keys m, 0 <= ratePerSecond l → 0 <= burst l → (size (keys : gset string) ≤ maxKeys l)%nat →
     goodBuckets (burst l) t m → dom m ⊆ keys →
     Forall (λ k, match k with Some k => k ∈ keys | None => True end) history.*1 →
     inject_Z (Z.of_nat (granted (brokerStep l) key history m))
       <= burst l + ratePerSecond l * secs (lastTime t history - t)) ∧
  (∀ m, goodBuckets 40 t m →
     inject_Z (Z.of_nat (granted (reflectorStep 20 40 (2 * minute)) key history m))
       <= 40 + 20 * secs (lastTime t history - t)) ∧
  (∀ l, goodBuckets 10 t (pl_buckets l) →
     inject_Z (Z.of_nat (granted (hubStep 5 10) key history l)) <= 10 + 5 * secs (lastTime t history - t)).
Proof.
  intros Ht Hc.
  assert (Hgen : ∀ S step bucketOf good admissible rate burst (s : S),
    limiterLaws step bucketOf good admissible rate burst → good t s → Forall admissible history.*1 →
    inject_Z (Z.of_nat (granted step key history s)) <= burst + rate * secs (lastTime t history - t)).
  { intros S step bucketOf good admissible rate burst s L Hg Ha.
    pose proof (granted_bound step bucketOf good admissible rate burst L key history t s Hg Ht Hc Ha) as Hb.
    pose proof (available_range rate burst t t (bucketOf s key) (law_rate _ _ _ _ _ _ L) (law_burst _ _ _ _ _ _ L)
      ltac:(lia) (law_bucket _ _ _ _ _ _ L t s key Hg)) as Hr.
    lra. }
  assert (Htrue : Forall (λ _ : option string, True) history.*1) by (by apply Forall_true).
  split; [|split].
  - intros l keys m Hr Hb Hk Hm Hd Ha. by eapply Hgen; [apply (broker_laws l keys)|split|].
  - intros m Hm. eapply Hgen; [apply (reflector_laws 20 40 (2 * minute))|done|done]; by vm_compute.
  - intros l Hm. eapply Hgen; [apply (hub_laws 5 10)|exact Hm|done]; by vm_compute.
Qed.

Lemma rate_bounded_witness :
  let history := [(Some "a", 0%Z); (Some "b", 1%Z); (Some "a", second); (None, (2 * second)%Z)]%string in
  inject_Z (Z.of_nat (granted (hubStep 5 10) "a" history {| pl_buckets := ∅; pl_lastPrune := 0 |}))
    <= 10 + 5 * secs (2 * second - 0).
Proof.
  cbv zeta.
  apply (rate_bounded "a" [(Some "a", 0%Z); (Some "b", 1%Z); (Some "a", second); (None, (2 * second)%Z)]%string 0).
  - done.
  - unfold clockOK, horizon, second, millisecond. lia.
  - intros k b Hkb. cbn [pl_buckets] in Hkb. by rewrite lookup_empty in Hkb.
Defined.
End exact_limiters.
