(* ===== verification/Punch.v ===== *)
(** NAT hole punching (src/libs/punchcore): the reflector and probe datagrams,
    the filtering of candidates, the reflector's observations and the punch
    attempt.

    A [net.IP] is an unzoned address, an IPv4 address in either of its forms
    being a [V4].  An attempt reads the clock, its context and the socket: each
    round's answers are an input, and what it writes to the socket is its
    output. *)
From stdpp Require Import base list gmap strings.
From Stdlib Require Import ZArith Lia.
From S2P Require Import Prelude Codec Netip Ticket RelayIdentity Ranking RateLimit.

(** * Addresses *)
Abbreviation IP := Addr.
Record UDPAddr := { ua_IP : IP; ua_Port : Z }.
#[global] Instance UDPAddr_eq_dec : EqDecision UDPAddr.
Proof. solve_decision. Defined.

(** [net.ParseIP]: no zone, and an IPv4 address mapped into IPv6 is the IPv4
    address. *)
Definition ParseIP (s : string) : option IP :=
  match ParseAddr s with
  | Some (V6 v z) => if str_empty z then Some (Unmap (V6 v z)) else None
  | r => r
  end.

(** The [i]th byte of an address. *)
Definition ipByte (ip : IP) (i : Z) : Z :=
  match ip with
  | V4 v => v / 2 ^ (8 * (3 - i)) mod 256
  | V6 v _ => v / 2 ^ (8 * (15 - i)) mod 256
  end.

Definition IsUnspecified (ip : IP) : bool := match ip with V4 v => v =? 0 | V6 v _ => v =? 0 end.
Definition IsLoopback (ip : IP) : bool := match ip with V4 _ => ipByte ip 0 =? 127 | V6 v _ => v =? 1 end.
Definition IsPrivate (ip : IP) : bool :=
  match ip with
  | V4 _ => (ipByte ip 0 =? 10) || ((ipByte ip 0 =? 172) && (Z.land (ipByte ip 1) 240 =? 16))
            || ((ipByte ip 0 =? 192) && (ipByte ip 1 =? 168))
  | V6 _ _ => Z.land (ipByte ip 0) 254 =? 252
  end.
Definition IsMulticast (ip : IP) : bool :=
  match ip with V4 _ => Z.land (ipByte ip 0) 240 =? 224 | V6 _ _ => ipByte ip 0 =? 255 end.
Definition IsInterfaceLocalMulticast (ip : IP) : bool :=
  match ip with V4 _ => false | V6 _ _ => (ipByte ip 0 =? 255) && (Z.land (ipByte ip 1) 15 =? 1) end.
Definition IsLinkLocalMulticast (ip : IP) : bool :=
  match ip with
  | V4 _ => (ipByte ip 0 =? 224) && (ipByte ip 1 =? 0) && (ipByte ip 2 =? 0)
  | V6 _ _ => (ipByte ip 0 =? 255) && (Z.land (ipByte ip 1) 15 =? 2)
  end.
Definition IsLinkLocalUnicast (ip : IP) : bool :=
  match ip with
  | V4 _ => (ipByte ip 0 =? 169) && (ipByte ip 1 =? 254)
  | V6 _ _ => (ipByte ip 0 =? 254) && (Z.land (ipByte ip 1) 192 =? 128)
  end.

Definition isGloballyRoutable (ip : IP) : bool :=
  if IsUnspecified ip || IsLoopback ip || IsPrivate ip || IsLinkLocalUnicast ip || IsLinkLocalMulticast ip
     || IsMulticast ip || IsInterfaceLocalMulticast ip then false else
  match ip with
  | V4 _ => negb ((ipByte ip 0 =? 100) && (64 <=? ipByte ip 1) && (ipByte ip 1 <=? 127))
  | V6 _ _ => true
  end.

(** * Endpoints *)
Record Endpoint := { ep_IP : string; ep_Port : Z; ep_Kind : string }.
#[global] Instance Endpoint_eq_dec : EqDecision Endpoint.
Proof. solve_decision. Defined.

Definition KindHost : string := "host".
Definition KindSrflx : string := "srflx".
Definition ClassEIM : string := "eim".
Definition ClassSymmetric : string := "symmetric".
Definition ClassUnknown : string := "unknown".
Definition ALPN : string := "openrung-punch/1".

Definition inRange (value minimum maximum : Z) : bool := (minimum <=? value) && (value <=? maximum).

(** [Endpoint.UDPAddr] and [Endpoint.String]. *)
Definition endpointUDPAddr (e : Endpoint) : option UDPAddr :=
  match ParseIP (ep_IP e) with
  | None => None
  | Some ip => if (ep_Port e <? 1) || (65535 <? ep_Port e) then None else Some {| ua_IP := ip; ua_Port := ep_Port e |}
  end.
Definition endpointString (e : Endpoint) : string := text (JoinHostPort (bytes (ep_IP e)) (FormatInt (ep_Port e))).
Definition endpointFromUDP (a : UDPAddr) (kind : string) : Endpoint :=
  {| ep_IP := AddrString (ua_IP a); ep_Port := ua_Port a; ep_Kind := kind |}.

Fixpoint dedupeFrom (seen : gset string) (l : list Endpoint) : list Endpoint :=
  match l with
  | [] => []
  | e :: l =>
      if str_empty (ep_IP e) || (ep_Port e <=? 0) then dedupeFrom seen l else
      if bool_decide (endpointString e ∈ seen) then dedupeFrom seen l
      else e :: dedupeFrom ({[endpointString e]} ∪ seen) l
  end.
Definition dedupeEndpoints (l : list Endpoint) : list Endpoint := dedupeFrom ∅ l.

(** * Policies *)
Record Policy := {
  MaxPeersPerKind : Z;
  RequireGlobalSrflx : bool;
  SingleSrflxIP : bool;
  StrictReflectorAddrs : bool;
  FailGatherOnCancel : bool
}.

Definition DesktopPolicy : Policy :=
  {| MaxPeersPerKind := 8; RequireGlobalSrflx := false; SingleSrflxIP := false; StrictReflectorAddrs := false;
     FailGatherOnCancel := false |}.
Definition MobilePolicy : Policy :=
  {| MaxPeersPerKind := 4; RequireGlobalSrflx := true; SingleSrflxIP := true; StrictReflectorAddrs := true;
     FailGatherOnCancel := true |}.

Fixpoint sanitizeFrom (p : Policy) (hostN srflxN : Z) (srflxIP : option IP) (l : list Endpoint) : list Endpoint :=
  match l with
  | [] => []
  | e :: l =>
      match ParseIP (ep_IP e) with
      | None => sanitizeFrom p hostN srflxN srflxIP l
      | Some ip =>
          if (ep_Port e <? 1) || (65535 <? ep_Port e) || IsMulticast ip || IsUnspecified ip
          then sanitizeFrom p hostN srflxN srflxIP l else
          if str_eqb (ep_Kind e) KindHost then
            if isGloballyRoutable ip || (MaxPeersPerKind p <=? hostN) then sanitizeFrom p hostN srflxN srflxIP l
            else e :: sanitizeFrom p (hostN + 1) srflxN srflxIP l
          else if str_eqb (ep_Kind e) KindSrflx then
            if RequireGlobalSrflx p && negb (isGloballyRoutable ip) || (MaxPeersPerKind p <=? srflxN)
            then sanitizeFrom p hostN srflxN srflxIP l else
            if SingleSrflxIP p then
              match srflxIP with
              | None => e :: sanitizeFrom p hostN (srflxN + 1) (Some ip) l
              | Some first =>
                  if bool_decide (first = ip) then e :: sanitizeFrom p hostN (srflxN + 1) srflxIP l
                  else sanitizeFrom p hostN srflxN srflxIP l
              end
            else e :: sanitizeFrom p hostN (srflxN + 1) srflxIP l
          else sanitizeFrom p hostN srflxN srflxIP l
      end
  end.

Definition SanitizePeers (p : Policy) (peers : list Endpoint) : list Endpoint :=
  sanitizeFrom p 0 0 None (dedupeEndpoints peers).

(** * Datagrams *)
Fixpoint beBytes (n : nat) (v : Z) : list byte :=
  match n with O => [] | S n => chr (v / 256 ^ Z.of_nat n) :: beBytes n v end.
Definition beValue (bs : list byte) : Z := foldl (λ acc b, acc * 256 + val b) 0 bs.

Definition reflectMagicRequest : string := "ORPUNCHRQ".
Definition reflectMagicReply : string := "ORPUNCHRS".
Definition reflectNonceLen : nat := 16.
Definition reflectMinRequest : nat := 64.
Definition probeMagic : string := "ORHOLE".
Definition probeAckMagic : string := "ORHOLEACK".
Definition TokenLen : nat := 32.

(** The buffer is 64 zero bytes into which magic and nonce are copied. *)
Definition buildReflectRequest (nonce : list byte) : list byte :=
  let head := bytes reflectMagicRequest ++ take (reflectMinRequest - 9) nonce in
  head ++ replicate (reflectMinRequest - length head) (chr 0).

Definition parseReflectRequest (data : list byte) : option (list byte) :=
  if (length data <? reflectMinRequest)%nat then None else
  if negb (bool_decide (take 9 data = bytes reflectMagicRequest)) then None else
  Some (take reflectNonceLen (drop 9 data)).

Definition buildReflectReply (nonce : list byte) (addr : UDPAddr) : list byte :=
  bytes reflectMagicReply ++ nonce ++
  match ua_IP addr with
  | V4 v => chr 4 :: beBytes 4 v
  | V6 v _ => chr 6 :: beBytes 16 v
  end ++ beBytes 2 (ua_Port addr).

Definition parseReflectReply (data : list byte) : option (list byte * UDPAddr) :=
  if (length data <? 9 + reflectNonceLen + 1)%nat then None else
  if negb (bool_decide (take 9 data = bytes reflectMagicReply)) then None else
  let nonce := take reflectNonceLen (drop 9 data) in
  match drop (9 + reflectNonceLen) data with
  | [] => None
  | family :: rest =>
      let ipLen := if val family =? 4 then Some 4%nat else if val family =? 6 then Some 16%nat else None in
      match ipLen with
      | None => None
      | Some n =>
          if (length rest <? n + 2)%nat then None else
          let ip := if (n =? 4)%nat then V4 (beValue (take n rest)) else Unmap (V6 (beValue (take n rest)) "") in
          Some (nonce, {| ua_IP := ip; ua_Port := beValue (take 2 (drop n rest)) |})
      end
  end.

Definition buildProbePacket (magic sessionID : string) (token : list byte) : list byte :=
  bytes magic ++ beBytes 2 (Z.of_nat (length (bytes sessionID))) ++ bytes sessionID ++ token.

Definition matchProbe (data : list byte) (magic sessionID : string) (token : list byte) : bool :=
  let off := length (bytes magic) in
  if (length data <? off + 2)%nat then false else
  if negb (bool_decide (take off data = bytes magic)) then false else
  let sl := Z.to_nat (beValue (take 2 (drop off data))) in
  let off := (off + 2)%nat in
  if (length data <? off + sl + TokenLen)%nat then false else
  if negb (bool_decide (take sl (drop off data) = bytes sessionID)) then false else
  bool_decide (take TokenLen (drop (off + sl) data) = token).

Inductive probeKind := probeKindNone | probeKindProbe | probeKindAck.

Definition parseProbePacket (data : list byte) (sessionID : string) (token : list byte) : probeKind :=
  if matchProbe data probeAckMagic sessionID token then probeKindAck
  else if matchProbe data probeMagic sessionID token then probeKindProbe
  else probeKindNone.

(** * The attempt *)
Definition probeInterval : Z := 50 * millisecond.

(** One round of the loop: the clock of its condition, the context, the clock
    after it, and the datagram read before the read deadline, if any. *)
Record round := {
  rd_clock : Z;
  rd_ctxErr : bool;
  rd_now : Z;
  rd_read : option (list byte * UDPAddr)
}.

Inductive attemptResult :=
| Confirmed (peer : UDPAddr)
| Provisional (peer : UDPAddr)   (* returned without error as well *)
| ErrPunchTimeout
| ErrAttemptContext
| ErrNoCandidates.

Definition datagram : Type := UDPAddr * list byte.

(** The acks [lingerAck] adds. *)
Definition lingerAck (ack : list byte) (dst : UDPAddr) : list datagram := replicate 3 (dst, ack).

(** The loop over the rounds still to come; no result when they run out before
    the deadline. *)
Fixpoint attemptLoop (peers : list UDPAddr) (sessionID : string) (token : list byte) (deadline : Z)
    (rounds : list round) (nextSend : Z) (provisional : option UDPAddr) : list datagram * option attemptResult :=
  let probe := buildProbePacket probeMagic sessionID token in
  let ack := buildProbePacket probeAckMagic sessionID token in
  match rounds with
  | [] => ([], None)
  | r :: rounds =>
      if negb (time_before (rd_clock r) deadline) then
        ([], Some (match provisional with Some peer => Provisional peer | None => ErrPunchTimeout end))
      else if rd_ctxErr r then ([], Some ErrAttemptContext) else
      let due := negb (time_before (rd_now r) nextSend) in
      let probes := if due then (λ peer, (peer, probe)) <$> peers else [] in
      let nextSend := if due then time_add (rd_now r) probeInterval else nextSend in
      let '(acks, stop, provisional) :=
        match rd_read r with
        | None => ([], None, provisional)
        | Some (data, src) =>
            match parseProbePacket data sessionID token with
            | probeKindNone => ([], None, provisional)
            | probeKindProbe =>
                ([(src, ack)], None, Some (match provisional with Some peer => peer | None => src end))
            | probeKindAck => (lingerAck ack src, Some (Confirmed src), provisional)
            end
        end in
      match stop with
      | Some res => (probes ++ acks, Some res)
      | None =>
          let '(more, res) := attemptLoop peers sessionID token deadline rounds nextSend provisional in
          (probes ++ acks ++ more, res)
      end
  end.

(** [Policy.Attempt], started at [now]. *)
Definition Attempt (p : Policy) (peers : list Endpoint) (sessionID : string) (token : list byte) (deadline now : Z)
    (rounds : list round) : list datagram * option attemptResult :=
  match omap endpointUDPAddr (SanitizePeers p peers) with
  | [] => ([], Some ErrNoCandidates)
  | addrs => attemptLoop addrs sessionID token deadline rounds now None
  end.

(** * The wire formats *)
Lemma length_beBytes n v : length (beBytes n v) = n.
Proof. induction n; simpl; congruence. Qed.

Lemma beValue_beBytes n v : beValue (beBytes n v) = v mod 256 ^ Z.of_nat n.
Proof.
  unfold beValue. enough (∀ acc, foldl (λ acc b, acc * 256 + val b) acc (beBytes n v)
    = acc * 256 ^ Z.of_nat n + v mod 256 ^ Z.of_nat n) as ->; [lia|].
  induction n as [|n IH]; intros acc; cbn [beBytes foldl]; [by rewrite Z.mod_1_r; lia|].
  rewrite IH, val_chr, Nat2Z.inj_succ, Z.pow_succ_r, (Z.mul_comm 256 (256 ^ _)) by lia.
  rewrite Z.rem_mul_r by lia. ring.
Qed.

Lemma beValue_beBytes_id n v : 0 ≤ v < 256 ^ Z.of_nat n → beValue (beBytes n v) = v.
Proof. intros Hv. by rewrite beValue_beBytes, Z.mod_small. Qed.

(** An address as the reflector sees it: no zone, and not an IPv4 address in
    IPv6 clothes. *)
Definition plainIP (ip : IP) : Prop :=
  match ip with
  | V4 v => 0 ≤ v < 2 ^ 32
  | V6 v z => 0 ≤ v < 2 ^ 128 ∧ z = ""%string ∧ Unmap ip = ip
  end.

Lemma parseReflectRequest_length data nonce :
  parseReflectRequest data = Some nonce → (reflectMinRequest ≤ length data)%nat ∧ length nonce = reflectNonceLen.
Proof.
  unfold parseReflectRequest. destruct (Nat.ltb_spec (length data) reflectMinRequest) as [|Hl]; [done|].
  case_match; [done|]. intros [= <-]. split; [done|].
  rewrite length_take, length_drop. unfold reflectMinRequest, reflectNonceLen in *. lia.
Qed.

Lemma buildReflectReply_length nonce addr :
  length nonce = reflectNonceLen → (length (buildReflectReply nonce addr) ≤ 44)%nat.
Proof.
  intros Hn. unfold buildReflectReply. rewrite !length_app, Hn.
  destruct (ua_IP addr); cbn [length]; rewrite !length_beBytes; cbn; lia.
Qed.

(** A head of known length is taken off. *)
Lemma take_drop_head {A} (n : nat) (h t : list A) : length h = n → take n (h ++ t) = h ∧ drop n (h ++ t) = t.
Proof. intros <-. split; [apply take_app_length|apply drop_app_length]. Qed.

Lemma parseReflectReply_build nonce addr rest :
  length nonce = reflectNonceLen → plainIP (ua_IP addr) → 0 ≤ ua_Port addr < 65536 →
  parseReflectReply (buildReflectReply nonce addr ++ rest) = Some (nonce, addr).
Proof.
  intros Hn Hip Hport. destruct addr as [ip port]. cbn [ua_IP ua_Port] in *.
  unfold buildReflectReply. cbn [ua_IP ua_Port].
  set (fam := match ip with V4 v => chr 4 :: beBytes 4 v | V6 v _ => chr 6 :: beBytes 16 v end).
  rewrite <- !app_assoc. unfold parseReflectReply.
  destruct (take_drop_head 9 (bytes reflectMagicReply) (nonce ++ fam ++ beBytes 2 port ++ rest) eq_refl) as [Ht Hd].
  destruct (take_drop_head reflectNonceLen nonce (fam ++ beBytes 2 port ++ rest) Hn) as [Ht2 Hd2].
  rewrite <- drop_drop, Hd, Hd2, Ht, Ht2.
  rewrite bool_decide_eq_true_2 by done. cbn [negb].
  destruct (Nat.ltb_spec (length (bytes reflectMagicReply ++ nonce ++ fam ++ beBytes 2 port ++ rest))
    (9 + reflectNonceLen + 1)) as [Hl|_].
  { exfalso. rewrite !length_app, Hn in Hl. cbn in Hl. unfold fam in Hl.
    destruct ip; cbn [length] in Hl; rewrite length_beBytes in Hl; lia. }
  assert (Hp : take 2 (beBytes 2 port ++ rest) = beBytes 2 port) by (by apply take_drop_head).
  unfold fam. destruct ip as [v|v z]; cbn [app]; rewrite val_chr; cbn [Z.modulo].
  - change (4 mod 256 =? 4) with true. cbv iota zeta.
    destruct (take_drop_head 4 (beBytes 4 v) (beBytes 2 port ++ rest) (length_beBytes 4 v)) as [Ht3 Hd3].
    rewrite Ht3, Hd3, Hp. rewrite (proj2 (Nat.ltb_ge _ _)).
    2: { rewrite !length_app, !length_beBytes. lia. }
    change ((4 =? 4)%nat) with true. cbv iota. simpl in Hip.
    rewrite !beValue_beBytes_id by (split; [lia|]; cbn; lia). done.
  - change (6 mod 256 =? 4) with false. change (6 mod 256 =? 6) with true. cbv iota zeta.
    destruct (take_drop_head 16 (beBytes 16 v) (beBytes 2 port ++ rest) (length_beBytes 16 v)) as [Ht3 Hd3].
    rewrite Ht3, Hd3, Hp. rewrite (proj2 (Nat.ltb_ge _ _)).
    2: { rewrite !length_app, !length_beBytes. lia. }
    change ((16 =? 4)%nat) with false. cbv iota. destruct Hip as (Hv & -> & Hu).
    rewrite !beValue_beBytes_id by (split; [lia|]; cbn; lia). by rewrite Hu.
Qed.

Lemma parseReflectRequest_build nonce :
  length nonce = reflectNonceLen → parseReflectRequest (buildReflectRequest nonce) = Some nonce.
Proof.
  intros Hn. unfold parseReflectRequest, buildReflectRequest. rewrite (take_ge nonce) by (rewrite Hn; unfold reflectMinRequest, reflectNonceLen; lia).
  rewrite (proj2 (Nat.ltb_ge _ _)).
  2: { rewrite length_app, length_replicate. lia. }
  set (rest := replicate _ _). rewrite <- app_assoc.
  destruct (take_drop_head 9 (bytes reflectMagicRequest) (nonce ++ rest) eq_refl) as [-> ->].
  rewrite bool_decide_eq_true_2 by done. cbn [negb]. by rewrite (proj1 (take_drop_head _ nonce rest Hn)).
Qed.

(** A datagram matches exactly when it starts with the packet. *)
Lemma matchProbe_spec data magic sessionID token :
  length token = TokenLen → Z.of_nat (length (bytes sessionID)) < 65536 →
  matchProbe data magic sessionID token = true ↔ ∃ rest, data = buildProbePacket magic sessionID token ++ rest.
Proof.
  intros Htok Hs. unfold matchProbe, buildProbePacket. set (off := length (bytes magic)). split.
  - destruct (Nat.ltb_spec (length data) (off + 2)) as [|Hl]; [done|].
    destruct (bool_decide_reflect (take off data = bytes magic)) as [Hm|]; [|done]. cbn [negb].
    set (sl := Z.to_nat _). destruct (Nat.ltb_spec (length data) (off + 2 + sl + TokenLen)) as [|Hl2]; [done|].
    destruct (bool_decide_reflect (take sl (drop (off + 2) data) = bytes sessionID)) as [Hid|]; [|done].
    cbn [negb]. intros Ht%bool_decide_eq_true. exists (drop (off + 2 + sl + TokenLen) data).
    assert (sl = length (bytes sessionID)) as Hsl.
    { rewrite <- Hid, length_take, length_drop. lia. }
    assert (beBytes 2 (Z.of_nat (length (bytes sessionID))) = take 2 (drop off data)) as ->.
    { assert (Hl3 : length (take 2 (drop off data)) = 2%nat) by (rewrite length_take, length_drop; lia).
      unfold sl in Hsl. destruct (take 2 (drop off data)) as [|a [|b [|]]]; try done.
      rewrite <- Hsl. unfold beValue. cbn [foldl beBytes]. pose proof (val_bound a). pose proof (val_bound b).
      rewrite Z2Nat.id by lia. change (256 ^ Z.of_nat 1) with 256. change (256 ^ Z.of_nat 0) with 1.
      rewrite Z.div_1_r, Z.mul_0_l, Z.add_0_l. f_equal; [|f_equal]; apply (inj val); rewrite val_chr;
        Z.to_euclidean_division_equations; lia. }
    rewrite <- Hm, <- Hid, <- Ht, <- !app_assoc. rewrite <- (take_drop off data) at 1. f_equal.
    rewrite <- (take_drop 2 (drop off data)) at 1. f_equal. rewrite drop_drop.
    rewrite <- (take_drop sl (drop (off + 2) data)) at 1. f_equal. rewrite drop_drop.
    rewrite <- (take_drop TokenLen (drop (off + 2 + sl) data)) at 1. f_equal. by rewrite drop_drop.
  - intros [rest ->]. cbv zeta. rewrite <- !app_assoc.
    set (lenb := beBytes 2 _).
    assert (Hlenb : length lenb = 2%nat) by apply length_beBytes.
    rewrite (proj2 (Nat.ltb_ge _ _)) by (rewrite !length_app, Hlenb; unfold off; lia).
    destruct (take_drop_head off (bytes magic) (lenb ++ bytes sessionID ++ token ++ rest) eq_refl) as [-> Hd].
    rewrite bool_decide_eq_true_2 by done. cbn [negb].
    assert (Z.to_nat (beValue (take 2 (drop off (bytes magic ++ lenb ++ bytes sessionID ++ token ++ rest))))
      = length (bytes sessionID)) as ->.
    { rewrite Hd, (proj1 (take_drop_head 2 lenb _ Hlenb)). unfold lenb. rewrite beValue_beBytes_id; [lia|]. change (256 ^ Z.of_nat 2) with 65536. lia. }
    rewrite (proj2 (Nat.ltb_ge _ _)) by (rewrite !length_app, Hlenb, Htok; unfold off; lia).
    rewrite <- !drop_drop, Hd, (proj2 (take_drop_head 2 lenb _ Hlenb)).
    rewrite take_app_length, drop_app_length. rewrite bool_decide_eq_true_2 by done. cbn [negb].
    rewrite (proj1 (take_drop_head TokenLen token rest Htok)). by apply bool_decide_eq_true_2.
Qed.

(** * Session secrets *)
(** [hex.DecodeString] *)
Fixpoint hexDecode (s : list byte) : option (list byte) :=
  match s with
  | [] => Some []
  | [_] => None
  | a :: b :: s =>
      match hexValue a, hexValue b, hexDecode s with
      | Some x, Some y, Some r => Some (chr (x * 16 + y) :: r)
      | _, _, _ => None
      end
  end.

Lemma hexValue_digit n : 0 ≤ n < 16 → hexValue (hexDigit n) = Some n.
Proof.
  intros Hn. set (ok := λ n, bool_decide (hexValue (hexDigit n) = Some n)).
  assert (ok n = true) as Hok%bool_decide_eq_true by (apply (allBelow_spec 16 0 ok); [by vm_compute|lia]). done.
Qed.

Lemma hexDecode_hexEncode bs : hexDecode (hexEncode bs) = Some bs.
Proof.
  induction bs as [|b bs IH]; [done|]. unfold hexEncode in *. cbn [mbind list_bind app hexDecode].
  pose proof (val_bound b). rewrite !hexValue_digit by (Z.to_euclidean_division_equations; lia).
  rewrite IH. do 2 f_equal. rewrite <- (chr_val b) at 3. f_equal. Z.to_euclidean_division_equations; lia.
Qed.

Definition GenerateNonce (random : list byte) : string * list byte := (text (hexEncode random), random).

Definition NonceKey (hexNonce : string) : option string :=
  raw ← hexDecode (bytes hexNonce); if (length raw =? reflectNonceLen)%nat then Some (text raw) else None.

(** [hmac.New(sha256.New, secret)] of the three fields. *)
Definition ComputeToken (hmac : list byte → list byte → list byte) (secret : list byte)
    (sessionID relayID clientNonce : string) : list byte :=
  hmac secret (bytes sessionID ++ chr 124 :: bytes relayID ++ chr 124 :: bytes clientNonce).

Definition EncodeToken (token : list byte) : string := text (hexEncode token).
Definition DecodeToken (s : string) : option (list byte) :=
  raw ← hexDecode (bytes s); if (length raw =? TokenLen)%nat then Some raw else None.

Lemma DecodeToken_EncodeToken token : length token = TokenLen → DecodeToken (EncodeToken token) = Some token.
Proof.
  intros Ht. unfold DecodeToken, EncodeToken. rewrite bytes_text, hexDecode_hexEncode. cbn [mbind option_bind].
  by rewrite Ht.
Qed.

Lemma NonceKey_hex raw : length raw = reflectNonceLen → NonceKey (text (hexEncode raw)) = Some (text raw).
Proof.
  intros Ht. unfold NonceKey. rewrite bytes_text, hexDecode_hexEncode. cbn [mbind option_bind]. by rewrite Ht.
Qed.

(** * The reflector *)
(** [reflectObservation]: what each local address of the reflector saw. *)
Record reflectObservation := { ob_endpoints : gmap string Endpoint; ob_seen : Z }.
Abbreviation observations := (gmap string reflectObservation).

Definition record (nonce localIP : string) (observed : Endpoint) (now : Z) (obs : observations) : observations :=
  let endpoints := match obs !! nonce with Some entry => ob_endpoints entry | None => ∅ end in
  <[nonce := {| ob_endpoints := <[localIP := observed]> endpoints; ob_seen := now |}]> obs.

(** The class of the endpoints seen through distinct reflector addresses. *)
Definition natClass (observed : list Endpoint) : string :=
  if (length observed <? 2)%nat then ClassUnknown
  else if (size (list_to_set (ep_Port <$> observed) : gset Z) =? 1)%nat then ClassEIM
  else ClassSymmetric.

Section reflector.
Context {F : Type} {float : Float64 F} `{!MapRange string Endpoint}.
#[local] Set Default Proof Using "Type".

(** [Reflector.Classify] *)
Definition Classify (nonce : string) (obs : observations) : option (string * list Endpoint) :=
  entry ← obs !! nonce;
  let endpoints := (map_range (ob_endpoints entry)).*2 in
  if bool_decide (endpoints = []) then None else Some (natClass endpoints, dedupeEndpoints endpoints).

Record Reflector := { rf_buckets : buckets F; rf_obs : observations }.

(** What arrives: a datagram on the socket bound to [localIP], the clock of the
    limiter and that of [record]; or the collector's tick. *)
Inductive reflectorEvent :=
| Arrives (localIP : string) (data : list byte) (src : UDPAddr) (now seen : Z)
| Collect (now : Z).

(** One turn of [serve], with the reply sent, and one of [gcLoop]. *)
Definition serve (localIP : string) (data : list byte) (src : UDPAddr) (now seen : Z) (r : Reflector)
    : Reflector * list datagram :=
  match parseReflectRequest data with
  | None => (r, [])
  | Some nonce =>
      let '(ok, m) := reflectAllow (of_int 20) (of_int 40) (AddrString (ua_IP src)) now (rf_buckets r) in
      if ok then
        ({| rf_buckets := m;
            rf_obs := record (text nonce) localIP (endpointFromUDP src KindSrflx) seen (rf_obs r) |},
         [(src, buildReflectReply nonce src)])
      else ({| rf_buckets := m; rf_obs := rf_obs r |}, [])
  end.

Definition collect (now : Z) (r : Reflector) : Reflector :=
  let cutoff := time_add now (- (2 * minute)) in
  {| rf_buckets := prune cutoff (rf_buckets r);
     rf_obs := filter (λ e, time_before (ob_seen e.2) cutoff = false) (rf_obs r) |}.

Definition reflectorHandle (ev : reflectorEvent) (r : Reflector) : Reflector * list datagram :=
  match ev with
  | Arrives localIP data src now seen => serve localIP data src now seen r
  | Collect now => (collect now r, [])
  end.

Fixpoint reflectorRun (evs : list reflectorEvent) (r : Reflector) : Reflector * list datagram :=
  match evs with
  | [] => (r, [])
  | ev :: evs =>
      let '(r, out) := reflectorHandle ev r in let '(r, more) := reflectorRun evs r in (r, out ++ more)
  end.
End reflector.
Arguments Reflector : clear implicits.

(** * Discovery by a peer *)
Definition GatherTimeout : Z := 2 * second.
Definition gatherRounds : nat := 4.

Inductive gatherError := ErrNoReflectors | ErrNoResolvable | ErrGatherContext | ErrNotObserved.

Section gather.
Context `{!MapRange string Endpoint}.
(** [net.ResolveUDPAddr] *)
Context (ResolveUDPAddr : string → option UDPAddr).
#[local] Set Default Proof Using "Type".

(** The target of one reflector address under the strict policy. *)
Definition strictTarget (address : string) : option UDPAddr :=
  '(host, portValue) ← SplitHostPort (bytes address);
  ip ← ParseIP (text host);
  port ← ParseInt portValue;
  match ip with
  | V4 _ => if isGloballyRoutable ip && inRange port 1 65535 then Some {| ua_IP := ip; ua_Port := port |} else None
  | V6 _ _ => None
  end.

(** The targets with their keys; the Nth resolved target of the lenient policy
    has the Nth address of the whole list [all] as its key. *)
Fixpoint gatherTargets (p : Policy) (all addrs : list string) (n : nat) : list (UDPAddr * string) :=
  match addrs with
  | [] => []
  | address :: addrs =>
      match (if StrictReflectorAddrs p then strictTarget address else ResolveUDPAddr address) with
      | None => gatherTargets p all addrs n
      | Some udp =>
          let key := if StrictReflectorAddrs p then address else default "" (all !! n) in
          (udp, key) :: gatherTargets p all addrs (S n)
      end
  end.

Fixpoint matchReflector (src : UDPAddr) (targets : list (UDPAddr * string)) : string :=
  match targets with
  | [] => ""
  | (t, key) :: targets => if bool_decide (t = src) then key else matchReflector src targets
  end.

(** One datagram read in a round. *)
Definition gatherReply (targets : list (UDPAddr * string)) (nonce : list byte) (observed : gmap string Endpoint)
    (dg : list byte * UDPAddr) : gmap string Endpoint :=
  match parseReflectReply dg.1 with
  | None => observed
  | Some (rn, obs) =>
      if negb (bool_decide (rn = nonce)) then observed else
      let key := matchReflector dg.2 targets in
      if str_empty key then observed else <[key := endpointFromUDP obs KindSrflx]> observed
  end.

(** A round: the clock of its condition, the context, the datagrams read. *)
Record gatherRound := { gr_now : Z; gr_ctxErr : bool; gr_reads : list (list byte * UDPAddr) }.

Fixpoint gatherLoop (p : Policy) (targets : list (UDPAddr * string)) (nonce : list byte) (overall : Z) (fuel : nat)
    (env : nat → gatherRound) (observed : gmap string Endpoint)
    : list datagram * result gatherError (gmap string Endpoint) :=
  match fuel with
  | O => ([], Ok observed)
  | S fuel =>
      let r := env fuel in
      if negb (size observed <? length targets)%nat || negb (time_before (gr_now r) overall) then ([], Ok observed)
      else if gr_ctxErr r then ([], if FailGatherOnCancel p then Err ErrGatherContext else Ok observed) else
      let asked := List.filter (λ t, negb (bool_decide (is_Some (observed !! t.2)))) targets in
      let sent := (λ t, (t.1, buildReflectRequest nonce)) <$> asked in
      let '(more, res) :=
        gatherLoop p targets nonce overall fuel env (foldl (gatherReply targets nonce) observed (gr_reads r)) in
      (sent ++ more, res)
  end.

(** [Policy.Gather] with the clock [now] at which its budget starts; [env i] is
    the round with [i] rounds to go. *)
Definition Gather (p : Policy) (reflectorAddrs : list string) (nonce : list byte) (now : Z) (env : nat → gatherRound)
    : list datagram * string * result gatherError (list Endpoint) :=
  if bool_decide (reflectorAddrs = []) then ([], ClassUnknown, Err ErrNoReflectors) else
  match gatherTargets p reflectorAddrs reflectorAddrs 0 with
  | [] => ([], ClassUnknown, Err ErrNoResolvable)
  | targets =>
      match gatherLoop p targets nonce (time_add now GatherTimeout) gatherRounds env ∅ with
      | (sent, Err e) => (sent, ClassUnknown, Err e)
      | (sent, Ok observed) =>
          let endpoints := (map_range observed).*2 in
          let reflexive := dedupeEndpoints endpoints in
          (sent, natClass endpoints, if bool_decide (reflexive = []) then Err ErrNotObserved else Ok reflexive)
      end
  end.
End gather.

(** * What an attempt sends *)
(** [e] may be probed at [dst] under [p]: an address that is neither multicast
    nor unspecified; a host candidate is not globally routable, a reflexive one
    is if the policy asks for it. *)
Definition mayProbe (p : Policy) (e : Endpoint) (dst : UDPAddr) : Prop :=
  endpointUDPAddr e = Some dst ∧ 1 ≤ ua_Port dst ≤ 65535 ∧
  IsMulticast (ua_IP dst) = false ∧ IsUnspecified (ua_IP dst) = false ∧
  (ep_Kind e = KindHost ∧ isGloballyRoutable (ua_IP dst) = false ∨
   ep_Kind e = KindSrflx ∧ (RequireGlobalSrflx p = true → isGloballyRoutable (ua_IP dst) = true)).

Definition kindCount (kind : string) (l : list Endpoint) : Z := Z.of_nat (length (filter (λ e, ep_Kind e = kind) l)).

Lemma dedupeFrom_sublist seen l : dedupeFrom seen l `sublist_of` l.
Proof. revert seen. induction l as [|e l IH]; intros seen; simpl; [constructor|]. repeat case_match; by constructor. Qed.

Lemma dedupe_sublist l : dedupeEndpoints l `sublist_of` l.
Proof. apply dedupeFrom_sublist. Qed.

Lemma kindCount_cons kind e l : kindCount kind (e :: l) = (if str_eqb (ep_Kind e) kind then 1 else 0) + kindCount kind l.
Proof.
  unfold kindCount, str_eqb. rewrite filter_cons. case_bool_decide.
  - rewrite decide_True by done. cbn [length]. lia.
  - rewrite decide_False by done. lia.
Qed.

Lemma sanitize_step (p : Policy) (e : Endpoint) (ip : IP) :
  ParseIP (ep_IP e) = Some ip →
  (ep_Port e <? 1) || (65535 <? ep_Port e) || IsMulticast ip || IsUnspecified ip = false →
  ep_Kind e = KindHost ∧ isGloballyRoutable ip = false ∨
    ep_Kind e = KindSrflx ∧ (RequireGlobalSrflx p = true → isGloballyRoutable ip = true) →
  mayProbe p e {| ua_IP := ip; ua_Port := ep_Port e |}.
Proof.
  intros Hip Hg Hk. rewrite !orb_false_iff, !Z.ltb_ge in Hg. destruct Hg as [[[H1 H2] Hm] Hu].
  unfold mayProbe, endpointUDPAddr. rewrite Hip. cbn [ua_IP ua_Port].
  rewrite (proj2 (Z.ltb_ge _ _)), (proj2 (Z.ltb_ge _ _)) by lia. done.
Qed.

(** What sanitizing [l] may keep, with some candidates of each kind kept
    already and the reflexive address pinned to [ip]. *)
Definition sanitized (p : Policy) (hostN srflxN : Z) (ip : option IP) (l out : list Endpoint) : Prop :=
  out `sublist_of` l ∧ Forall (λ e, ∃ dst, mayProbe p e dst) out ∧
  hostN + kindCount KindHost out ≤ MaxPeersPerKind p ∧ srflxN + kindCount KindSrflx out ≤ MaxPeersPerKind p ∧
  (SingleSrflxIP p = true → ∃ first, (∀ a, ip = Some a → first = a) ∧
     ∀ e dst, e ∈ out → ep_Kind e = KindSrflx → endpointUDPAddr e = Some dst → ua_IP dst = first).

Lemma sanitizeFrom_spec p l : ∀ hostN srflxN ip, hostN ≤ MaxPeersPerKind p → srflxN ≤ MaxPeersPerKind p →
  sanitized p hostN srflxN ip l (sanitizeFrom p hostN srflxN ip l).
Proof.
  induction l as [|e l IH]; intros hostN srflxN ip Hh Hs; cbn [sanitizeFrom].
  { unfold sanitized, kindCount. cbn. split_and!; [constructor|constructor|lia|lia|].
    intros _. exists (default (V4 0) ip). split; [by intros a ->|set_solver]. }
  assert (Hskip : sanitized p hostN srflxN ip (e :: l) (sanitizeFrom p hostN srflxN ip l)).
  { destruct (IH hostN srflxN ip Hh Hs) as (? & ? & ? & ? & ?). split_and!; [by constructor|done..]. }
  destruct (ParseIP (ep_IP e)) as [a|] eqn:Ha; [|done].
  destruct (_ || _ || _ || _) eqn:Hg; [done|].
  assert (Hdst : ∀ dst, endpointUDPAddr e = Some dst → ua_IP dst = a).
  { intros dst. unfold endpointUDPAddr. rewrite Ha. intros Hd.
    destruct ((ep_Port e <? 1) || (65535 <? ep_Port e)); by simplify_eq. }
  destruct (str_eqb (ep_Kind e) KindHost) eqn:Hk.
  { destruct (isGloballyRoutable a) eqn:Hr; [done|]. destruct (Z.leb_spec (MaxPeersPerKind p) hostN); [done|].
    cbn [orb]. destruct (IH (hostN + 1) srflxN ip ltac:(lia) Hs) as (? & ? & ? & ? & Hone).
    unfold sanitized. rewrite !kindCount_cons, Hk. apply str_eqb_true in Hk.
    split_and!; [by constructor| |lia|by rewrite Hk|].
    - constructor; [|done]. eexists. apply (sanitize_step p e a); [done..|by left].
    - intros (first & Hf & Hall)%Hone. exists first. split; [done|].
      intros e' dst [->|He']%elem_of_cons Hke; [exfalso; by rewrite Hk in Hke|eauto]. }
  destruct (str_eqb (ep_Kind e) KindSrflx) eqn:Hk2; [|done].
  destruct (RequireGlobalSrflx p && negb (isGloballyRoutable a)) eqn:Hr; [done|].
  destruct (Z.leb_spec (MaxPeersPerKind p) srflxN); [done|]. cbn [orb].
  assert (Hmay : ∃ dst, mayProbe p e dst).
  { eexists. apply str_eqb_true in Hk2. apply (sanitize_step p e a); [done..|right; split; [done|]].
    intros Hq. rewrite Hq in Hr. by apply negb_false_iff in Hr. }
  assert (Hkeep : ∀ ip', (SingleSrflxIP p = true → ip' = Some a ∧ ∀ b, ip = Some b → b = a) →
    sanitized p hostN srflxN ip (e :: l) (e :: sanitizeFrom p hostN (srflxN + 1) ip' l)).
  { intros ip' Hip'. destruct (IH hostN (srflxN + 1) ip' Hh ltac:(lia)) as (? & ? & ? & ? & Hone).
    unfold sanitized. rewrite !kindCount_cons, Hk, Hk2. split_and!; [by constructor|by constructor|lia|lia|].
    intros Hsg. destruct (Hip' Hsg) as [-> Hip]. destruct (Hone Hsg) as (first & Hf & Hall).
    specialize (Hf a eq_refl) as ->. exists a. split; [intros; symmetry; eauto|].
    intros e' dst [->|He']%elem_of_cons Hke Hd; eauto. }
  destruct (SingleSrflxIP p) eqn:Hsg; [|by apply Hkeep].
  destruct ip as [first|]; [|by apply Hkeep]. case_bool_decide as Hf; [|done].
  apply Hkeep. intros _. split; [by f_equal|]. by intros b [= <-].
Qed.

Lemma SanitizePeers_spec p peers :
  0 ≤ MaxPeersPerKind p → sanitized p 0 0 None peers (SanitizePeers p peers).
Proof.
  intros H. destruct (sanitizeFrom_spec p (dedupeEndpoints peers) 0 0 None H H) as (Hsub & ? & ? & ? & ?).
  split_and!; [|done..]. etrans; [exact Hsub|apply dedupe_sublist].
Qed.

(** The addresses probed. *)
Definition probeTargets (p : Policy) (peers : list Endpoint) : list UDPAddr := omap endpointUDPAddr (SanitizePeers p peers).

Lemma kindCount_total l :
  Forall (λ e, ep_Kind e = KindHost ∨ ep_Kind e = KindSrflx) l →
  Z.of_nat (length l) = kindCount KindHost l + kindCount KindSrflx l.
Proof.
  induction 1 as [|e l [Hk|Hk] _ IH]; [done|..]; rewrite !kindCount_cons, Hk; cbn [length];
    unfold str_eqb, KindHost, KindSrflx in *; simpl bool_decide; cbv iota; lia.
Qed.

Lemma probeTargets_spec p peers : 0 ≤ MaxPeersPerKind p →
  Z.of_nat (length (probeTargets p peers)) ≤ 2 * MaxPeersPerKind p ∧
  ∀ dst, dst ∈ probeTargets p peers → ∃ e, e ∈ peers ∧ mayProbe p e dst.
Proof.
  intros H. destruct (SanitizePeers_spec p peers H) as (Hsub & Hmay & Hh & Hs & _). split.
  - assert (length (probeTargets p peers) ≤ length (SanitizePeers p peers))%nat.
    { unfold probeTargets. clear. induction (SanitizePeers p peers) as [|e l IH]; [done|].
      cbn [omap list_omap length]. case_match; cbn [length]; lia. }
    enough (Z.of_nat (length (SanitizePeers p peers)) = kindCount KindHost (SanitizePeers p peers) +
      kindCount KindSrflx (SanitizePeers p peers)) by lia.
    apply kindCount_total. eapply Forall_impl; [exact Hmay|]. intros e (dst & _ & _ & _ & _ & [[? _]|[? _]]); auto.
  - intros dst (e & He & Hd)%list_elem_of_omap. exists e.
    split; [by eapply elem_of_sublist|]. rewrite Forall_forall in Hmay.
    destruct (Hmay e He) as (dst' & Hd' & Hrest). split; [done|]. rewrite Hd in Hd'. by simplify_eq.
Qed.

(** * The attempt *)
(** A datagram that carries session and token, as its source sent it. *)
Definition authentic (sessionID : string) (token : list byte) (rounds : list round) (src : UDPAddr) : Prop :=
  ∃ r data magic rest, r ∈ rounds ∧ rd_read r = Some (data, src) ∧ magic ∈ [probeMagic; probeAckMagic] ∧
    data = buildProbePacket magic sessionID token ++ rest.

(** The clock readings of the rounds never go back. *)
Fixpoint clockMonotone (t : Z) (rounds : list round) : Prop :=
  match rounds with [] => True | r :: rounds => t ≤ rd_clock r ≤ rd_now r ∧ clockMonotone (rd_now r) rounds end.

Lemma parseProbe_authentic data sessionID token :
  length token = TokenLen → Z.of_nat (length (bytes sessionID)) < 65536 →
  parseProbePacket data sessionID token ≠ probeKindNone →
  ∃ magic rest, magic ∈ [probeMagic; probeAckMagic] ∧ data = buildProbePacket magic sessionID token ++ rest.
Proof.
  intros Ht Hs. unfold parseProbePacket.
  destruct (matchProbe data probeAckMagic sessionID token) eqn:Ha; [|destruct (matchProbe data probeMagic _ _) eqn:Hp; [|done]]; intros _.
  - apply matchProbe_spec in Ha as [rest ->]; [|done..]. exists probeAckMagic, rest. split; [set_solver|done].
  - apply matchProbe_spec in Hp as [rest ->]; [|done..]. exists probeMagic, rest. split; [set_solver|done].
Qed.

Lemma authentic_here sessionID token r rounds data src :
  length token = TokenLen → Z.of_nat (length (bytes sessionID)) < 65536 →
  rd_read r = Some (data, src) → parseProbePacket data sessionID token ≠ probeKindNone →
  authentic sessionID token (r :: rounds) src.
Proof.
  intros Ht Hs Hr Hp. destruct (parseProbe_authentic _ _ _ Ht Hs Hp) as (magic & rest & Hm & ->).
  exists r, (buildProbePacket magic sessionID token ++ rest), magic, rest. split_and!; [by left|done..].
Qed.

Lemma authentic_cons sessionID token r rounds src :
  authentic sessionID token rounds src → authentic sessionID token (r :: rounds) src.
Proof. intros (r' & d & m & rest & Hr & ?). exists r', d, m, rest. split; [by right|done]. Qed.
#[export] Hint Resolve authentic_cons authentic_here : go.

(** What a socket may see: probes to the targets, acks to authentic sources. *)
Definition mayEmit (peers : list UDPAddr) (sessionID : string) (token : list byte) (rounds : list round)
    (dg : datagram) : Prop :=
  dg.2 = buildProbePacket probeMagic sessionID token ∧ dg.1 ∈ peers ∨
  dg.2 = buildProbePacket probeAckMagic sessionID token ∧ authentic sessionID token rounds dg.1.

Lemma mayEmit_cons peers sessionID token r rounds out :
  Forall (mayEmit peers sessionID token rounds) out → Forall (mayEmit peers sessionID token (r :: rounds)) out.
Proof. intros H. eapply Forall_impl; [exact H|]. intros dg [?|[? ?]]; [by left|right; eauto with go]. Qed.

Definition confirmedPeer (res : option attemptResult) : option UDPAddr :=
  match res with Some (Confirmed peer) | Some (Provisional peer) => Some peer | _ => None end.

Lemma attemptLoop_emits peers sessionID token deadline rounds : ∀ nextSend provisional out res,
  length token = TokenLen → Z.of_nat (length (bytes sessionID)) < 65536 →
  attemptLoop peers sessionID token deadline rounds nextSend provisional = (out, res) →
  Forall (mayEmit peers sessionID token rounds) out ∧
  ∀ peer, confirmedPeer res = Some peer → provisional = Some peer ∨ authentic sessionID token rounds peer.
Proof.
  induction rounds as [|r rounds IH]; intros nextSend provisional out res Ht Hs; cbn [attemptLoop].
  { by intros [= <- <-]. }
  destruct (negb _). { intros [= <- <-]. split; [done|]. intros peer. destruct provisional; naive_solver. }
  destruct (rd_ctxErr r); [by intros [= <- <-]|].
  assert (Hprobes : ∀ due : bool, Forall (mayEmit peers sessionID token (r :: rounds))
    (if due then (λ peer, (peer, buildProbePacket probeMagic sessionID token)) <$> peers else [])).
  { intros []; [|done]. apply Forall_fmap, Forall_forall. intros peer Hp. by left. }
  match goal with |- context [if ?b then _ <$> peers else _] => set (due := b); specialize (Hprobes due) end.
  destruct (rd_read r) as [[data src]|] eqn:Hread; [destruct (parseProbePacket data sessionID token) eqn:Hparse|].
  2: { (* a probe *)
    destruct (attemptLoop _ _ _ _ _ _ _) as [more res'] eqn:Hloop. intros [= <- <-].
    apply IH in Hloop as [Hout Hres]; [|done..].
    assert (Hsrc : authentic sessionID token (r :: rounds) src).
    { eapply authentic_here; [done..|]. by rewrite Hparse. }
    split.
    - apply Forall_app_2; [done|]. constructor; [by right|by apply mayEmit_cons].
    - intros peer [Hp|Hp]%Hres; [|eauto with go]. destruct provisional; [by left|right; by simplify_eq]. }
  2: { (* an ack *)
    intros [= <- <-].
    assert (Hsrc : authentic sessionID token (r :: rounds) src).
    { eapply authentic_here; [done..|]. by rewrite Hparse. }
    split; [apply Forall_app_2; [done|]|].
    - unfold lingerAck. apply Forall_replicate. by right.
    - intros peer [= <-]. by right. }
  all: destruct (attemptLoop _ _ _ _ _ _ _) as [more res'] eqn:Hloop; intros [= <- <-];
    apply IH in Hloop as [Hout Hres]; [|done..]; split;
    [apply Forall_app_2; [done|by apply mayEmit_cons]|intros peer [?|?]%Hres; eauto with go].
Qed.

Lemma attemptLoop_returns peers sessionID token deadline rounds : ∀ nextSend provisional,
  Exists (λ r, deadline ≤ rd_clock r) rounds →
  is_Some (attemptLoop peers sessionID token deadline rounds nextSend provisional).2.
Proof.
  induction rounds as [|r rounds IH]; intros nextSend provisional He; [by apply Exists_nil in He|].
  cbn [attemptLoop]. unfold time_before at 1. destruct (Z.ltb_spec (rd_clock r) deadline) as [Hl|Hl]; [|by eexists].
  cbn [negb]. destruct (rd_ctxErr r); [by eexists|].
  apply Exists_cons in He as [He|He]; [lia|].
  destruct (rd_read r) as [[data src]|]; [destruct (parseProbePacket _ _ _)|]; try by eexists.
  all: match goal with |- context [attemptLoop ?a ?b ?c ?d ?e ?f ?g] => specialize (IH f g He) end;
    destruct (attemptLoop _ _ _ _ _ _ _) as [more res']; exact IH.
Qed.

Definition isProbe (sessionID : string) (token : list byte) (dg : datagram) : bool :=
  bool_decide (dg.2 = buildProbePacket probeMagic sessionID token).

Definition probeCount (sessionID : string) (token : list byte) (out : list datagram) : Z :=
  Z.of_nat (length (List.filter (isProbe sessionID token) out)).

Lemma probeCount_app sessionID token a b :
  probeCount sessionID token (a ++ b) = probeCount sessionID token a + probeCount sessionID token b.
Proof. unfold probeCount. rewrite List.filter_app, length_app. lia. Qed.

Lemma probeCount_acks sessionID token l :
  Forall (λ dg, dg.2 = buildProbePacket probeAckMagic sessionID token) l → probeCount sessionID token l = 0.
Proof.
  intros H. unfold probeCount. rewrite filter_bool_none; [done|]. intros dg Hdg. rewrite Forall_forall in H.
  apply bool_decide_eq_false. rewrite (H _ Hdg). intros He. apply (f_equal length) in He.
  unfold buildProbePacket in He. rewrite !length_app in He. cbn in He. lia.
Qed.

Lemma probeCount_spray sessionID token peers :
  probeCount sessionID token ((λ peer, (peer, buildProbePacket probeMagic sessionID token)) <$> peers) = Z.of_nat (length peers).
Proof.
  unfold probeCount. rewrite filter_bool_all; [by rewrite length_fmap|].
  intros dg (peer & -> & _)%list_elem_of_fmap. by apply bool_decide_eq_true.
Qed.

(** [n] sprays, the first not before [nextSend], fit before the deadline. *)
Definition spraysFit (n nextSend t deadline : Z) : Prop :=
  0 ≤ n ∧ (1 ≤ n → t < deadline) ∧ (2 ≤ n → nextSend + probeInterval * (n - 2) < deadline).

Lemma attemptLoop_rate peers sessionID token deadline rounds : ∀ nextSend provisional t,
  clockMonotone t rounds →
  ∃ n, probeCount sessionID token (attemptLoop peers sessionID token deadline rounds nextSend provisional).1
         = n * Z.of_nat (length peers) ∧ spraysFit n nextSend t deadline.
Proof.
  assert (Hnone : ∀ nextSend t, ∃ n, probeCount sessionID token [] = n * Z.of_nat (length peers) ∧
    spraysFit n nextSend t deadline).
  { intros. exists 0. split; [done|]. unfold spraysFit. lia. }
  induction rounds as [|r rounds IH]; intros nextSend provisional t Hm; cbn [attemptLoop]; [apply Hnone|].
  destruct Hm as [[Hc Hn] Hm]. unfold time_before at 1. destruct (Z.ltb_spec (rd_clock r) deadline) as [Hl|Hl].
  2: apply Hnone.
  cbn [negb]. destruct (rd_ctxErr r); [apply Hnone|]. unfold time_before at 1 2.
  set (probe := buildProbePacket probeMagic sessionID token). set (ack := buildProbePacket probeAckMagic sessionID token).
  set (step := match rd_read r with Some _ => _ | None => _ end).
  assert (Hstep : Forall (λ dg, dg.2 = ack) step.1.1).
  { unfold step. destruct (rd_read r) as [[data src]|]; [|done].
    destruct (parseProbePacket _ _ _); [done|by constructor|]. by apply Forall_replicate. }
  destruct step as [[acks stop] provisional'] eqn:Es. cbn [fst] in Hstep. clear step Es.
  apply probeCount_acks in Hstep.
  set (nextSend' := if negb (rd_now r <? nextSend) then time_add (rd_now r) probeInterval else nextSend).
  set (probes := if negb (rd_now r <? nextSend) then (λ peer, (peer, probe)) <$> peers else []).
  assert (Hgo : ∃ n, probeCount sessionID token (probes ++ acks ++
      match stop with Some _ => [] | None =>
        (attemptLoop peers sessionID token deadline rounds nextSend' provisional').1 end)
      = n * Z.of_nat (length peers) ∧ spraysFit n nextSend t deadline).
  { rewrite !probeCount_app, Hstep. unfold probes, nextSend', time_add.
    destruct (Z.ltb_spec (rd_now r) nextSend) as [Hd|Hd]; cbn [negb]; destruct stop.
    - exists 0. split; [done|]. unfold spraysFit. lia.
    - destruct (IH nextSend provisional' (rd_now r) Hm) as (n & -> & Hf).
      exists n. split; [done|]. unfold spraysFit in *. lia.
    - exists 1. rewrite probeCount_spray. split; [change (probeCount sessionID token []) with 0; lia|]. unfold spraysFit. lia.
    - destruct (IH (rd_now r + probeInterval) provisional' (rd_now r) Hm) as (n & -> & Hf).
      exists (n + 1). rewrite probeCount_spray. split; [lia|]. unfold spraysFit, probeInterval, millisecond in *. lia. }
  destruct Hgo as (n & Hcount & Hf). exists n. split; [|done]. rewrite <- Hcount. destruct stop.
  - cbn [fst]. by rewrite app_nil_r.
  - fold nextSend'. destruct (attemptLoop _ _ _ _ _ _ _) as [more res]. done.
Qed.

(** See [attempt_targets]. *)
Lemma attempt_facts p peers sessionID token deadline now rounds :
  0 ≤ MaxPeersPerKind p → length token = TokenLen → Z.of_nat (length (bytes sessionID)) < 65536 →
  let '(out, res) := Attempt p peers sessionID token deadline now rounds in
  (∀ dg, dg ∈ out →
     dg.2 = buildProbePacket probeMagic sessionID token ∧ (∃ e, e ∈ peers ∧ mayProbe p e dg.1) ∨
     dg.2 = buildProbePacket probeAckMagic sessionID token ∧ authentic sessionID token rounds dg.1) ∧
  (∀ peer, confirmedPeer res = Some peer → authentic sessionID token rounds peer) ∧
  (clockMonotone now rounds →
     probeInterval * probeCount sessionID token out
       ≤ 2 * MaxPeersPerKind p * (Z.max 0 (deadline - now) + 2 * probeInterval)) ∧
  (Exists (λ r, deadline ≤ rd_clock r) rounds → is_Some res).
Proof.
  intros Hp Ht Hs. unfold Attempt. fold (probeTargets p peers).
  destruct (probeTargets_spec p peers Hp) as [Hlen Hmay].
  assert (Hbase : 0 ≤ 2 * MaxPeersPerKind p * (Z.max 0 (deadline - now) + 2 * probeInterval)).
  { unfold probeInterval, millisecond. nia. }
  destruct (probeTargets p peers) as [|first addrs] eqn:Haddrs; [split_and!; [set_solver|done|done|by eexists]|].
  rewrite <- Haddrs in *. clear first addrs Haddrs.
  pose proof (attemptLoop_rate (probeTargets p peers) sessionID token deadline rounds now None now) as Hrate.
  pose proof (attemptLoop_returns (probeTargets p peers) sessionID token deadline rounds now None) as Hret.
  destruct (attemptLoop _ _ _ _ _ _ _) as [out res] eqn:Hloop.
  apply attemptLoop_emits in Hloop as [Hout Hres]; [|done..]. split_and!.
  - intros dg Hdg. rewrite Forall_forall in Hout. destruct (Hout dg Hdg) as [[? ?]|?]; [left|by right]. eauto.
  - intros peer Hc. destruct (Hres peer Hc); done.
  - intros Hm. destruct (Hrate Hm) as (n & Hn & H0 & H1 & H2). cbn [fst] in Hn. rewrite Hn.
    set (L := Z.of_nat (length (probeTargets p peers))) in *. assert (0 ≤ L) by lia. clear -Hlen H0 H1 H2 H Hp.
    set (T := Z.max 0 (deadline - now)) in *. assert (probeInterval * n ≤ T + 2 * probeInterval).
    { unfold probeInterval, millisecond in *. lia. }
    transitivity (L * (T + 2 * probeInterval)); [|unfold probeInterval, millisecond in *; nia]. nia.
  - exact Hret.
Qed.

(** Hole punching cannot be turned against a third party.  An attempt sends
    probes only to candidates its policy admits, at most twice the policy's
    number per spray and one spray per 50 ms, and acknowledgements only to
    sources that showed the session and its token; the peer it returns is such
    a source; and it returns once the clock has passed the deadline. *)
Lemma attempt_targets p peers sessionID token deadline now rounds :
  0 ≤ MaxPeersPerKind p → length token = TokenLen → Z.of_nat (length (bytes sessionID)) < 65536 →
  let '(out, res) := Attempt p peers sessionID token deadline now rounds in
  (∀ dg, dg ∈ out →
     dg.2 = buildProbePacket probeMagic sessionID token ∧ (∃ e, e ∈ peers ∧ mayProbe p e dg.1) ∨
     dg.2 = buildProbePacket probeAckMagic sessionID token ∧ authentic sessionID token rounds dg.1) ∧
  (∀ peer, confirmedPeer res = Some peer → authentic sessionID token rounds peer) ∧
  (clockMonotone now rounds →
     probeInterval * probeCount sessionID token out
       ≤ 2 * MaxPeersPerKind p * (Z.max 0 (deadline - now) + 2 * probeInterval)) ∧
  (Exists (λ r, deadline ≤ rd_clock r) rounds → is_Some res).
Proof. apply attempt_facts. Qed.

Lemma attempt_targets_witness :
  let peers := [{| ep_IP := "192.168.1.9"; ep_Port := 5000; ep_Kind := "host" |};
                {| ep_IP := "8.8.8.8"; ep_Port := 53; ep_Kind := "host" |};
                {| ep_IP := "203.0.113.7"; ep_Port := 4000; ep_Kind := "srflx" |}]%string in
  let token := replicate 32 (chr 7) in
  let src := {| ua_IP := V4 3405803783; ua_Port := 4001 |} in
  let rounds := [{| rd_clock := 0; rd_ctxErr := false; rd_now := 1; rd_read := None |};
                 {| rd_clock := 60000000; rd_ctxErr := false; rd_now := 60000000;
                    rd_read := Some (buildProbePacket probeAckMagic "ab" token, src) |}] in
  Forall (λ dg,
     dg.2 = buildProbePacket probeMagic "ab" token ∧ (∃ e, e ∈ peers ∧ mayProbe DesktopPolicy e dg.1) ∨
     dg.2 = buildProbePacket probeAckMagic "ab" token ∧ authentic "ab" token rounds dg.1)
    (Attempt DesktopPolicy peers "ab" token (6 * second) 0 rounds).1.
Proof.
  intros peers token src rounds. apply Forall_forall.
  pose proof (attempt_targets DesktopPolicy peers "ab" token (6 * second) 0 rounds ltac:(done) eq_refl ltac:(done)) as H.
  destruct (Attempt DesktopPolicy peers "ab" token (6 * second) 0 rounds). exact (proj1 H).
Defined.

(** The same attempt: the public host candidate is left out, and the peer is
    the source of the acknowledgement. *)
Example attempt_run :
  let peers := [{| ep_IP := "192.168.1.9"; ep_Port := 5000; ep_Kind := "host" |};
                {| ep_IP := "8.8.8.8"; ep_Port := 53; ep_Kind := "host" |};
                {| ep_IP := "203.0.113.7"; ep_Port := 4000; ep_Kind := "srflx" |}]%string in
  let token := replicate 32 (chr 7) in
  let src := {| ua_IP := V4 3405803783; ua_Port := 4001 |} in
  let res := Attempt DesktopPolicy peers "ab" token (6 * second) 0
    [{| rd_clock := 0; rd_ctxErr := false; rd_now := 1; rd_read := None |};
     {| rd_clock := 60000000; rd_ctxErr := false; rd_now := 60000000;
        rd_read := Some (buildProbePacket probeAckMagic "ab" token, src) |}] in
  (ua_Port ∘ fst <$> res.1, res.2) = ([5000; 4000; 5000; 4000; 4001; 4001; 4001], Some (Confirmed src)).
Proof. vm_compute. reflexivity. Qed.

(** * What the reflector tells *)
(** A short session's probe is read as a probe and its ack as an ack: the
    length field would have to spell part of the longer magic. *)
Lemma parseProbePacket_build sessionID token rest :
  length token = TokenLen → Z.of_nat (length (bytes sessionID)) < 16707 →
  parseProbePacket (buildProbePacket probeMagic sessionID token ++ rest) sessionID token = probeKindProbe ∧
  parseProbePacket (buildProbePacket probeAckMagic sessionID token ++ rest) sessionID token = probeKindAck.
Proof.
  intros Ht Hs. unfold parseProbePacket.
  assert (matchProbe (buildProbePacket probeMagic sessionID token ++ rest) probeAckMagic sessionID token = false) as ->.
  { apply not_true_is_false. intros Hm. apply matchProbe_spec in Hm as [rest' He]; [|lia..].
    set (n := Z.of_nat (length (bytes sessionID))) in *.
    assert (H1 : val (chr (n / 256 ^ 1)) = 65) by exact (f_equal (λ l, from_option val 0 (l !! 6%nat)) He).
    assert (H2 : val (chr (n / 256 ^ 0)) = 67) by exact (f_equal (λ l, from_option val 0 (l !! 7%nat)) He).
    rewrite val_chr in H1, H2. change (256 ^ 1) with 256 in H1. change (256 ^ 0) with 1 in H2.
    Z.to_euclidean_division_equations; lia. }
  split.
  - by rewrite (proj2 (matchProbe_spec _ probeMagic sessionID token Ht ltac:(lia))) by eauto.
  - by rewrite (proj2 (matchProbe_spec _ probeAckMagic sessionID token Ht ltac:(lia))) by eauto.
Qed.

Section reflector_facts.
Context {F : Type} {float : Float64 F} `{!MapRange string Endpoint}.
#[local] Set Default Proof Using "Type".

(** Where an observation comes from: an accepted request with that nonce. *)
Definition sawRequest (evs : list reflectorEvent) (nonce : string) (e : Endpoint) : Prop :=
  ∃ localIP data src now seen raw, Arrives localIP data src now seen ∈ evs ∧
    parseReflectRequest data = Some raw ∧ nonce = text raw ∧ e = endpointFromUDP src KindSrflx.

Definition observedFrom (evs : list reflectorEvent) (obs : observations) : Prop :=
  ∀ nonce entry localIP e, obs !! nonce = Some entry → ob_endpoints entry !! localIP = Some e → sawRequest evs nonce e.

Lemma sawRequest_mono evs evs' nonce e : evs ⊆ evs' → sawRequest evs nonce e → sawRequest evs' nonce e.
Proof. intros Hs (l & d & s & n & t & r & Hin & ?). exists l, d, s, n, t, r. split; [by apply Hs|done]. Qed.

Lemma record_from evs nonce localIP src seen obs :
  observedFrom evs obs → sawRequest evs nonce (endpointFromUDP src KindSrflx) →
  observedFrom evs (record nonce localIP (endpointFromUDP src KindSrflx) seen obs).
Proof.
  intros Ho Hs nonce' entry l e. unfold record. rewrite lookup_insert_Some.
  intros [[<- <-]|[_ Hn]]; [|by eapply Ho]. cbn [ob_endpoints]. rewrite lookup_insert_Some.
  intros [[_ <-]|[_ He]]; [done|]. destruct (obs !! nonce) as [entry|] eqn:Hn; [by eapply Ho|].
  by rewrite lookup_empty in He.
Qed.

Lemma reflectorRun_from evs : ∀ prior (r : Reflector F), observedFrom prior (rf_obs r) →
  observedFrom (prior ++ evs) (rf_obs (reflectorRun evs r).1).
Proof.
  induction evs as [|ev evs IH]; intros prior r Hr; cbn [reflectorRun]; [by rewrite app_nil_r|].
  assert (Hstep : observedFrom (prior ++ [ev]) (rf_obs (reflectorHandle ev r).1)).
  { assert (Hold : observedFrom (prior ++ [ev]) (rf_obs r)).
    { intros nonce entry l e Hn He. eapply sawRequest_mono; [|by eapply Hr]. set_solver. }
    destruct ev as [localIP data src now seen|now]; cbn [reflectorHandle].
    - unfold serve. destruct (parseReflectRequest data) as [raw|] eqn:Hd; [|done].
      destruct (reflectAllow _ _ _ _ _) as [[] m]; cbn [fst rf_obs]; [|done].
      apply record_from; [done|]. exists localIP, data, src, now, seen, raw. split; [set_solver|done].
    - intros nonce entry l e [Hn _]%map_lookup_filter_Some. by eapply Hold. }
  destruct (reflectorHandle ev r) as [r' out]. specialize (IH (prior ++ [ev]) r' Hstep).
  rewrite <- app_assoc in IH. by destruct (reflectorRun evs r') as [r'' more].
Qed.

(** A fresh reflector. *)
Definition newReflector : Reflector F := {| rf_buckets := ∅; rf_obs := ∅ |}.

Lemma newReflector_from evs : observedFrom evs (rf_obs (reflectorRun evs newReflector).1).
Proof. apply (reflectorRun_from evs [] newReflector). intros nonce entry l e Hn. exfalso. exact (lookup_empty_Some _ _ Hn). Qed.

Lemma Classify_from evs obs nonce class eps e :
  observedFrom evs obs → Classify nonce obs = Some (class, eps) → e ∈ eps → sawRequest evs nonce e.
Proof.
  intros Ho Hc He. unfold Classify in Hc. destruct (obs !! nonce) as [entry|] eqn:Hn; [|done]. cbn in Hc.
  case_bool_decide; [done|]. injection Hc as _ <-.
  eapply elem_of_sublist in He; [|apply dedupe_sublist]. apply list_elem_of_fmap in He as ([l e'] & -> & Hl).
  apply elem_of_map_range in Hl. by eapply Ho.
Qed.

(** The reflector never amplifies and tells the truth.  Whatever datagram arrives,
    it answers at most its source, with fewer bytes than it received; a peer
    that reads the answer learns its own nonce and exactly the endpoint that
    the hub has recorded under that nonce for the address it was asked at; and
    a request from a source not yet limited is answered. *)
Lemma reflector_echo (r : Reflector F) localIP data src now seen :
  plainIP (ua_IP src) → 0 ≤ ua_Port src < 65536 →
  let '(r', out) := reflectorHandle (Arrives localIP data src now seen) r in
  (out = [] ∧ rf_obs r' = rf_obs r ∨
   ∃ nonce reply entry, parseReflectRequest data = Some nonce ∧ out = [(src, reply)] ∧
     (length reply < length data)%nat ∧ parseReflectReply reply = Some (nonce, src) ∧
     rf_obs r' !! text nonce = Some entry ∧
     ob_endpoints entry !! localIP = Some (endpointFromUDP src KindSrflx)) ∧
  (∀ nonce, length nonce = reflectNonceLen → data = buildReflectRequest nonce →
     rf_buckets r !! AddrString (ua_IP src) = None → out = [(src, buildReflectReply nonce src)]).
Proof.
  intros Hip Hport. cbn [reflectorHandle]. unfold serve. destruct (parseReflectRequest data) as [nonce|] eqn:Hreq.
  2: { split; [by left|]. intros nonce Hn ->. by rewrite parseReflectRequest_build in Hreq. }
  destruct (reflectAllow _ _ _ _ _) as [ok m] eqn:Ha.
  assert (Hfresh : ∀ b, rf_buckets r !! AddrString (ua_IP src) = None → ok = b → b = true).
  { intros b Hb <-. unfold reflectAllow in Ha. rewrite Hb in Ha. by injection Ha as <- _. }
  destruct ok.
  2: { split; [by left|]. intros nonce' _ _ Hb. by specialize (Hfresh false Hb eq_refl). }
  apply parseReflectRequest_length in Hreq as Hlen. destruct Hlen as [Hlen Hn]. split.
  - right. exists nonce, (buildReflectReply nonce src). eexists. split_and!; [done|done| | | |].
    + pose proof (buildReflectReply_length nonce src Hn). unfold reflectMinRequest in Hlen. lia.
    + rewrite <- (app_nil_r (buildReflectReply _ _)). by apply parseReflectReply_build.
    + cbn [rf_obs record]. unfold record. by rewrite lookup_insert_eq.
    + cbn [ob_endpoints]. by rewrite lookup_insert_eq.
  - intros nonce' Hn' -> _. rewrite parseReflectRequest_build in Hreq by done. by simplify_eq.
Qed.
End reflector_facts.

Lemma reflector_echo_witness :
  let _ := exact in
  let src := {| ua_IP := V4 3405803783; ua_Port := 40000 |} in
  let nonce := replicate 16 (chr 9) in
  let '(r, out) := reflectorHandle (F := QArith_base.Q) (Arrives "198.51.100.1" (buildReflectRequest nonce) src 5 6)
                     newReflector in
  out = [(src, buildReflectReply nonce src)].
Proof.
  intros E src nonce.
  pose proof (reflector_echo (float := E) newReflector "198.51.100.1" (buildReflectRequest nonce) src 5 6
    ltac:(done) ltac:(done)) as H.
  destruct (reflectorHandle _ _) as [r out]. apply (proj2 H nonce); done.
Defined.

(** * What a peer asks and believes *)
Section gather_facts.
Context `{!MapRange string Endpoint} (ResolveUDPAddr : string → option UDPAddr).
#[local] Set Default Proof Using "Type".

Lemma strictTarget_public address t :
  strictTarget address = Some t → isGloballyRoutable (ua_IP t) = true ∧ Is6 (ua_IP t) = false ∧ 1 ≤ ua_Port t ≤ 65535.
Proof.
  unfold strictTarget, inRange. destruct (SplitHostPort _) as [[host pv]|]; [|done]. cbn.
  destruct (ParseIP _) as [ip|]; [|done]. cbn. destruct (ParseInt _) as [port|]; [|done]. cbn.
  destruct ip as [v|]; [|done]. destruct (_ && _) eqn:Hg; [|done]. intros [= <-]. cbn [ua_IP ua_Port].
  rewrite !andb_true_iff, !Z.leb_le in Hg. destruct Hg as [Hg ?]. split_and!; [done|done|lia|lia].
Qed.

Lemma gatherTargets_spec p all addrs n t key :
  (t, key) ∈ gatherTargets ResolveUDPAddr p all addrs n →
  ∃ address, address ∈ addrs ∧ (if StrictReflectorAddrs p then strictTarget address else ResolveUDPAddr address) = Some t.
Proof.
  revert n. induction addrs as [|a addrs IH]; intros n; cbn [gatherTargets]; [by intros ?%elem_of_nil|].
  destruct (if StrictReflectorAddrs p then _ else _) as [udp|] eqn:Ht.
  - intros [[= -> _]|Hin]%elem_of_cons; [exists a; split; [by left|done]|].
    destruct (IH _ Hin) as (b & ? & ?). exists b. split; [by right|done].
  - intros Hin. destruct (IH _ Hin) as (b & ? & ?). exists b. split; [by right|done].
Qed.

Lemma gatherTargets_length p all addrs n : (length (gatherTargets ResolveUDPAddr p all addrs n) ≤ length addrs)%nat.
Proof.
  revert n. induction addrs as [|a addrs IH]; intros n; cbn [gatherTargets]; [done|].
  destruct (if StrictReflectorAddrs p then _ else _); cbn [length]; [specialize (IH (S n))|specialize (IH n)]; lia.
Qed.

(** A reply that was believed. *)
Definition believed (targets : list (UDPAddr * string)) (nonce : list byte) (env : nat → gatherRound) (e : Endpoint) : Prop :=
  ∃ i data src obs, (i < gatherRounds)%nat ∧ (data, src) ∈ gr_reads (env i) ∧ src ∈ targets.*1 ∧
    parseReflectReply data = Some (nonce, obs) ∧ e = endpointFromUDP obs KindSrflx.

Lemma matchReflector_target src targets : matchReflector src targets ≠ ""%string → src ∈ targets.*1.
Proof.
  induction targets as [|[t key] targets IH]; [done|]. cbn [matchReflector fmap list_fmap fst].
  case_bool_decide as He; [intros _; subst; left|right; auto].
Qed.

Lemma gatherReplies_believed targets nonce env i reads : ∀ observed,
  (i < gatherRounds)%nat → reads ⊆ gr_reads (env i) →
  (∀ key e, observed !! key = Some e → believed targets nonce env e) →
  ∀ key e, foldl (gatherReply targets nonce) observed reads !! key = Some e → believed targets nonce env e.
Proof.
  induction reads as [|[data src] reads IH]; intros observed Hi Hs Ho; [done|]. cbn [foldl].
  apply IH; [done|set_solver|]. unfold gatherReply. cbn [fst snd].
  destruct (parseReflectReply data) as [[rn obs]|] eqn:Hd; [|done].
  destruct (bool_decide_reflect (rn = nonce)) as [->|]; [|done]. cbn [negb].
  unfold str_empty. case_bool_decide as Hk; [done|]. intros key e [[_ <-]|[_ He]]%lookup_insert_Some; [|by eapply Ho].
  exists i, data, src, obs. split_and!; [done|apply Hs; by left|by apply matchReflector_target|done..].
Qed.

Lemma gatherLoop_spec p targets nonce overall fuel : ∀ env observed sent res, (fuel ≤ gatherRounds)%nat →
  gatherLoop p targets nonce overall fuel env observed = (sent, res) →
  (∀ key e, observed !! key = Some e → believed targets nonce env e) →
  (length sent ≤ fuel * length targets)%nat ∧
  Forall (λ dg, dg.1 ∈ targets.*1 ∧ dg.2 = buildReflectRequest nonce) sent ∧
  ∀ m, res = Ok m → ∀ key e, m !! key = Some e → believed targets nonce env e.
Proof.
  induction fuel as [|fuel IH]; intros env observed sent res Hf; cbn [gatherLoop].
  { intros [= <- <-] Ho. split_and!; [done|done|by intros m [= <-]]. }
  destruct (_ || _). { intros [= <- <-] Ho. split_and!; [cbn; lia|done|by intros m [= <-]]. }
  destruct (gr_ctxErr _).
  { intros [= <- <-] Ho. split_and!; [cbn; lia|done|]. destruct (FailGatherOnCancel p); [done|by intros m [= <-]]. }
  set (asked := List.filter _ _).
  destruct (gatherLoop _ _ _ _ _ _ _) as [more res'] eqn:Hloop. intros [= <- <-] Ho.
  apply IH in Hloop as (Hl & Hs & Hr); [|lia|by apply (gatherReplies_believed targets nonce env fuel); [lia|done|]].
  assert (Hsub : asked `sublist_of` targets) by apply filter_bool_sublist. split_and!; [|apply Forall_app_2|done].
  - rewrite length_app, length_fmap. pose proof (sublist_length _ _ Hsub). lia.
  - apply Forall_fmap, Forall_forall. intros [t key] Ht. cbn. split; [|done].
    apply list_elem_of_fmap. exists (t, key). split; [done|]. by eapply elem_of_sublist.
  - done.
Qed.

(** Discovery asks only the reflectors it was given, at most four times each,
    on the strict policy only public IPv4 ones, and believes only what one of
    them answered to this nonce. *)
Lemma Gather_sound p reflectorAddrs nonce now env sent class res :
  Gather ResolveUDPAddr p reflectorAddrs nonce now env = (sent, class, res) →
  let targets := gatherTargets ResolveUDPAddr p reflectorAddrs reflectorAddrs 0 in
  (length sent ≤ 4 * length reflectorAddrs)%nat ∧
  (∀ dg, dg ∈ sent → dg.1 ∈ targets.*1 ∧ dg.2 = buildReflectRequest nonce) ∧
  (StrictReflectorAddrs p = true → ∀ t, t ∈ targets.*1 → isGloballyRoutable (ua_IP t) = true ∧ Is6 (ua_IP t) = false) ∧
  (∀ eps, res = Ok eps → eps ≠ [] ∧ ∀ e, e ∈ eps → believed targets nonce env e).
Proof.
  intros Hg targets. unfold Gather in Hg. fold targets in Hg.
  assert (Hpub : StrictReflectorAddrs p = true → ∀ t, t ∈ targets.*1 →
    isGloballyRoutable (ua_IP t) = true ∧ Is6 (ua_IP t) = false).
  { intros Hp t ([t' key] & -> & Ht)%list_elem_of_fmap. apply gatherTargets_spec in Ht as (a & _ & Ha).
    rewrite Hp in Ha. apply strictTarget_public in Ha. naive_solver. }
  assert (Hnil : ∀ e, (sent, class, res) = ([], ClassUnknown, Err e) →
    (length sent ≤ 4 * length reflectorAddrs)%nat ∧ (∀ dg, dg ∈ sent → dg.1 ∈ targets.*1 ∧ dg.2 = buildReflectRequest nonce) ∧
    (∀ eps, res = Ok eps → eps ≠ [] ∧ ∀ e, e ∈ eps → believed targets nonce env e)).
  { intros e [= -> _ ->]. split_and!; [cbn; lia|set_solver|done]. }
  case_bool_decide; [destruct (Hnil _ (eq_sym Hg)) as (? & ? & ?); done|].
  destruct targets as [|t0 ts] eqn:Ht; [destruct (Hnil _ (eq_sym Hg)) as (? & ? & ?); done|].
  rewrite <- Ht in *. clear Hnil.
  destruct (gatherLoop _ _ _ _ _ _ _) as [sent' res'] eqn:Hloop.
  apply gatherLoop_spec in Hloop as (Hl & Hs & Hr); [|done|by intros key e ?%lookup_empty_Some].
  pose proof (gatherTargets_length p reflectorAddrs reflectorAddrs 0) as Hlen. fold targets in Hlen.
  assert (Hsent : sent = sent') by (by destruct res'; simplify_eq). subst sent'. split_and!; [|by apply Forall_forall|done|].
  - unfold gatherRounds in Hl. nia.
  - intros eps ->. destruct res' as [m|]; [|done]. injection Hg as _ Hres. case_bool_decide; [done|]. injection Hres as <-.
    split; [done|]. intros e He. eapply elem_of_sublist in He; [|apply dedupe_sublist].
    apply list_elem_of_fmap in He as ([key e'] & -> & Hk). apply elem_of_map_range in Hk. by eapply Hr.
Qed.
End gather_facts.

(** * IPv4 addresses are read as they are printed *)
Lemma octet_facts n : 0 ≤ n < 256 → octet (FormatInt n) = Some n ∧ lacks 46 (FormatInt n) = true ∧
  ∀ rest, addrKind (FormatInt n ++ chr 46 :: rest) = 46.
Proof.
  intros Hn. set (ok := λ n, bool_decide (octet (FormatInt n) = Some n) && lacks 46 (FormatInt n) &&
    forallb (λ c, negb ((val c =? 46) || (val c =? 58) || (val c =? 37))) (FormatInt n)).
  assert (ok n = true) as [[H1 H2]%andb_prop H3]%andb_prop
    by (apply (allBelow_spec 256 0 ok); [by vm_compute|lia]).
  apply bool_decide_eq_true in H1. split_and!; [done|done|]. intros rest.
  clear H1 ok. induction (FormatInt n) as [|c s IH]; [by vm_compute|]. cbn [app addrKind forallb] in *.
  apply andb_prop in H3 as [Hc H3]. apply negb_true_iff in Hc. rewrite Hc. apply IH; [|done].
  cbn in H2. by apply andb_prop in H2 as [_ ?].
Qed.

Lemma ParseIP_V4 v : 0 ≤ v < 2 ^ 32 → ParseIP (AddrString (V4 v)) = Some (V4 v).
Proof.
  intros Hv. unfold ParseIP, ParseAddr. cbn [AddrString]. rewrite bytes_text. unfold v4Bytes.
  set (a := v / 2 ^ 24). set (b := v / 2 ^ 16 mod 256). set (c := v / 2 ^ 8 mod 256). set (d := v mod 256).
  assert (Ha : 0 ≤ a < 256) by (unfold a; Z.to_euclidean_division_equations; lia).
  assert (0 ≤ b < 256 ∧ 0 ≤ c < 256 ∧ 0 ≤ d < 256) as (Hb & Hc & Hd) by (unfold b, c, d; Z.to_euclidean_division_equations; lia).
  destruct (octet_facts a Ha) as (Ha1 & Ha2 & Ha3), (octet_facts b Hb) as (Hb1 & Hb2 & _),
    (octet_facts c Hc) as (Hc1 & Hc2 & _), (octet_facts d Hd) as (Hd1 & Hd2 & _).
  set (parts := [FormatInt a; FormatInt b; FormatInt c; FormatInt d]).
  assert (addrKind (joinWith (chr 46) parts) = 46) as -> by apply Ha3. cbn [Z.eqb Pos.eqb].
  unfold parseIPv4. assert (splitOn 46 (joinWith (chr 46) parts) = parts) as ->.
  { change 46%N with (byte_of (chr 46)). apply splitOn_joinWith; [done|].
    change (byte_of (chr 46)) with 46%N. unfold parts. rewrite !Forall_cons. by rewrite Ha2, Hb2, Hc2, Hd2. }
  unfold parts. rewrite Ha1, Hb1, Hc1, Hd1. cbn. do 2 f_equal.
  unfold a, b, c, d. clear.
  change (2 ^ 24) with (256 * 256 * 256). change (2 ^ 16) with (256 * 256). change (2 ^ 8) with 256.
  rewrite <- !Z.div_div by lia. pose proof (Z.div_mod v 256). pose proof (Z.div_mod (v / 256) 256).
  pose proof (Z.div_mod (v / 256 / 256) 256). lia.
Qed.

(** What the reflector saw of an IPv4 peer names that peer. *)
Lemma endpointUDPAddr_FromUDP v port kind :
  0 ≤ v < 2 ^ 32 → 1 ≤ port ≤ 65535 →
  endpointUDPAddr (endpointFromUDP {| ua_IP := V4 v; ua_Port := port |} kind) = Some {| ua_IP := V4 v; ua_Port := port |}.
Proof.
  intros Hv Hp. unfold endpointUDPAddr, endpointFromUDP. cbn [ua_IP ua_Port ep_IP ep_Port].
  rewrite ParseIP_V4 by done. by rewrite (proj2 (Z.ltb_ge _ _)), (proj2 (Z.ltb_ge _ _)) by lia.
Qed.
