(* ===== verification/Tunnel.v ===== *)
(** The reverse tunnel's hub (src/libs/openrung/internal/tunnel/protocol.go,
    allocator.go, server.go and the registry of punch.go) and the relay's
    reconnect loop (client.go): frames, the port allocator, the handshake and
    life of a tunnel, the registry of live tunnels.

    The hub is a machine.  Its goroutines, one per control connection with the
    heartbeat loop of each tunnel, take one step per call that locks the
    allocator, the registry or the registration, or that waits for a peer; a
    history is any sequence of such steps. *)
From stdpp Require Import base list gmap strings.
From Stdlib Require Import ZArith Lia.
From S2P Require Import Prelude Codec Netip Ticket GoTime RelayIdentity Directory Punch.

(** * Frames *)
Definition ProtocolVersion : Z := 1.
Definition maxFrameSize : nat := 16 * 1024.
Definition StreamTypeData : byte := chr 0.
Definition StreamTypeControl : byte := chr 1.

Inductive frameError := ErrMarshal | errFrameTooLarge | ErrFrameHeader | ErrFramePayload | ErrFrameDecode.

Section frames.
Context {A : Type} (Marshal : A → option (list byte)) (Unmarshal : list byte → option A).
#[local] Set Default Proof Using "Type".

Definition writeFrame (v : A) : result frameError (list byte) :=
  match Marshal v with
  | None => Err ErrMarshal
  | Some payload =>
      if (maxFrameSize <? length payload)%nat then Err errFrameTooLarge
      else Ok (beBytes 4 (Z.of_nat (length payload)) ++ payload)
  end.

(** The frame at the head of a stream, the rest of the stream, and how many
    bytes were taken from it. *)
Definition readFrame (stream : list byte) : result frameError (A * list byte) :=
  if (length stream <? 4)%nat then Err ErrFrameHeader else
  let size := Z.to_nat (beValue (take 4 stream)) in
  if (maxFrameSize <? size)%nat then Err errFrameTooLarge else
  let rest := drop 4 stream in
  if (length rest <? size)%nat then Err ErrFramePayload else
  match Unmarshal (take size rest) with
  | None => Err ErrFrameDecode
  | Some v => Ok (v, drop size rest)
  end.

(** Frames read one after the other. *)
Fixpoint readFrames (n : nat) (stream : list byte) : result frameError (list A * list byte) :=
  match n with
  | O => Ok ([], stream)
  | S n =>
      let? (v, stream) := readFrame stream in
      let? (vs, stream) := readFrames n stream in
      Ok (v :: vs, stream)
  end.

Lemma frame_roundtrip v bs rest :
  (∀ p, Marshal v = Some p → Unmarshal p = Some v) → writeFrame v = Ok bs →
  readFrame (bs ++ rest) = Ok (v, rest) ∧ (length bs ≤ 4 + maxFrameSize)%nat.
Proof.
  intros Hinv. unfold writeFrame. destruct (Marshal v) as [p|] eqn:Hp; [|done].
  destruct (Nat.ltb_spec maxFrameSize (length p)) as [|Hl]; [done|]. intros Hbs.
  assert (bs = beBytes 4 (Z.of_nat (length p)) ++ p) as -> by congruence. clear Hbs.
  rewrite <- app_assoc. unfold readFrame.
  destruct (take_drop_head 4 (beBytes 4 (Z.of_nat (length p))) (p ++ rest) (length_beBytes _ _)) as [-> ->].
  rewrite beValue_beBytes_id, Nat2Z.id.
  2: { unfold maxFrameSize in Hl. change (256 ^ Z.of_nat 4) with 4294967296. lia. }
  rewrite !length_app, length_beBytes.
  rewrite (proj2 (Nat.ltb_ge _ 4)), (proj2 (Nat.ltb_ge maxFrameSize _)), (proj2 (Nat.ltb_ge _ (length p))) by lia.
  rewrite take_app_length, drop_app_length, (Hinv p eq_refl). split; [done|lia].
Qed.

(** What a reader holds of a frame is bounded before it is read. *)
Lemma readFrame_bound stream v rest :
  readFrame stream = Ok (v, rest) → ∃ used, stream = used ++ rest ∧ (length used ≤ 4 + maxFrameSize)%nat.
Proof.
  unfold readFrame. destruct (Nat.ltb_spec (length stream) 4) as [|H4]; [done|].
  set (size := Z.to_nat _). destruct (Nat.ltb_spec maxFrameSize size) as [|Hs]; [done|].
  destruct (Nat.ltb_spec (length (drop 4 stream)) size) as [|Hl]; [done|].
  destruct (Unmarshal _); [|done]. intros [= _ <-]. exists (take 4 stream ++ take size (drop 4 stream)).
  rewrite <- app_assoc, take_drop, take_drop. split; [done|]. rewrite length_app, !length_take. lia.
Qed.

(** What one end of a tunnel frames the other reads: any sequence of frames
    written one after the other is read back in order, whatever follows them
    on the stream; and no frame, whatever its sender announces, makes the
    reader take more than 16 KiB and its header. *)
Lemma frames_roundtrip (vs : list A) (bss : list (list byte)) (rest : list byte) :
  (∀ v p, v ∈ vs → Marshal v = Some p → Unmarshal p = Some v) →
  Forall2 (λ v bs, writeFrame v = Ok bs) vs bss →
  readFrames (length vs) (concat bss ++ rest) = Ok (vs, rest) ∧
  ∀ stream v left, readFrame stream = Ok (v, left) →
    ∃ used, stream = used ++ left ∧ (length used ≤ 4 + maxFrameSize)%nat.
Proof.
  intros Hinv Hw. split; [|intros; by eapply readFrame_bound].
  induction Hw as [|v bs vs bss Hv Hw IH]; [done|]. cbn [concat length readFrames]. rewrite <- app_assoc.
  destruct (frame_roundtrip v bs (concat bss ++ rest)) as [-> _]; [intros p; apply Hinv; by left|done|].
  rewrite IH; [done|]. intros w p Hin. apply Hinv. by right.
Qed.
End frames.

Lemma frames_roundtrip_witness :
  readFrames Some 2 ((beBytes 4 2 ++ [chr 1; chr 2]) ++ (beBytes 4 1 ++ [chr 3]) ++ [chr 9])
    = Ok ([[chr 1; chr 2]; [chr 3]], [chr 9]).
Proof.
  apply (frames_roundtrip Some Some [[chr 1; chr 2]; [chr 3]]
    [beBytes 4 2 ++ [chr 1; chr 2]; beBytes 4 1 ++ [chr 3]] [chr 9]).
  - by intros v p _ [= ->].
  - by repeat constructor.
Defined.

(** * The port allocator *)
Record PortAllocator := { pa_start : Z; pa_end : Z; pa_next : Z; pa_inUse : gset Z }.

Definition NewPortAllocator (start end_ : Z) : option PortAllocator :=
  if (start <? 1) || (65535 <? end_) || (end_ <? start) then None
  else Some {| pa_start := start; pa_end := end_; pa_next := start; pa_inUse := ∅ |}.

(** The loop of [Allocate]; [bindable] answers the transient listen. *)
Fixpoint allocateLoop (bindable : Z → bool) (fuel : nat) (a : PortAllocator) : PortAllocator * option Z :=
  match fuel with
  | O => (a, None)
  | S fuel =>
      let port := pa_next a in
      let next := pa_next a + 1 in
      let next := if pa_end a <? next then pa_start a else next in
      let a := {| pa_start := pa_start a; pa_end := pa_end a; pa_next := next; pa_inUse := pa_inUse a |} in
      if bool_decide (port ∈ pa_inUse a) then allocateLoop bindable fuel a else
      if negb (bindable port) then allocateLoop bindable fuel a else
      ({| pa_start := pa_start a; pa_end := pa_end a; pa_next := pa_next a; pa_inUse := {[port]} ∪ pa_inUse a |},
       Some port)
  end.

Definition Allocate (bindable : Z → bool) (a : PortAllocator) : PortAllocator * option Z :=
  allocateLoop bindable (Z.to_nat (pa_end a - pa_start a + 1)) a.

Definition Release (port : Z) (a : PortAllocator) : PortAllocator :=
  {| pa_start := pa_start a; pa_end := pa_end a; pa_next := pa_next a; pa_inUse := pa_inUse a ∖ {[port]} |}.

Record allocatorOK (a : PortAllocator) : Prop := {
  ok_range : 1 ≤ pa_start a ∧ pa_start a ≤ pa_next a ≤ pa_end a ∧ pa_end a ≤ 65535;
  ok_inUse port : port ∈ pa_inUse a → pa_start a ≤ port ≤ pa_end a
}.

Lemma NewPortAllocator_ok start end_ a : NewPortAllocator start end_ = Some a → allocatorOK a.
Proof.
  unfold NewPortAllocator. destruct (_ || _) eqn:E; [done|]. intros [= <-].
  rewrite !orb_false_iff, !Z.ltb_ge in E. split; cbn; [lia|set_solver].
Qed.

Lemma Release_ok port a : allocatorOK a → allocatorOK (Release port a).
Proof. intros [? Hu]. split; cbn; [done|]. intros q Hq. apply Hu. set_solver. Qed.

(** The [i]th port tried. *)
Definition probed (a : PortAllocator) (i : Z) : Z :=
  pa_start a + (pa_next a - pa_start a + i) mod (pa_end a - pa_start a + 1).

Lemma allocateLoop_spec bindable fuel : ∀ a a' r, allocatorOK a → allocateLoop bindable fuel a = (a', r) →
  allocatorOK a' ∧ pa_start a' = pa_start a ∧ pa_end a' = pa_end a ∧
  match r with
  | Some port => port ∉ pa_inUse a ∧ bindable port = true ∧ pa_inUse a' = {[port]} ∪ pa_inUse a ∧
                 pa_start a ≤ port ≤ pa_end a
  | None => pa_inUse a' = pa_inUse a ∧
            ∀ i, 0 ≤ i < Z.of_nat fuel → probed a i ∈ pa_inUse a ∨ bindable (probed a i) = false
  end.
Proof.
  induction fuel as [|fuel IH]; intros a a' r Hok; cbn [allocateLoop].
  { intros [= <- <-]. split_and!; [done..|lia]. }
  destruct Hok as [Hr Hu].
  set (next := if pa_end a <? pa_next a + 1 then pa_start a else pa_next a + 1).
  assert (Hnext : pa_start a ≤ next ≤ pa_end a) by (unfold next; cmp_lia).
  set (a1 := {| pa_start := pa_start a; pa_end := pa_end a; pa_next := next; pa_inUse := pa_inUse a |}).
  assert (Hok1 : allocatorOK a1) by (split; cbn; [lia|done]).
  assert (Hprobe : ∀ i, probed a1 i = probed a (i + 1)).
  { intros i. unfold probed, a1. cbn [pa_start pa_end pa_next]. f_equal. set (m := pa_end a - pa_start a + 1).
    unfold next. destruct (Z.ltb_spec (pa_end a) (pa_next a + 1)) as [Hlt|].
    - replace (pa_next a - pa_start a + (i + 1)) with (pa_start a - pa_start a + i + 1 * m) by (unfold m; lia).
      by rewrite Z_mod_plus_full.
    - f_equal. lia. }
  assert (H0 : probed a 0 = pa_next a).
  { unfold probed. rewrite Z.add_0_r, Z.mod_small by lia. lia. }
  assert (Hskip : (pa_next a ∈ pa_inUse a ∨ bindable (pa_next a) = false) →
    allocateLoop bindable fuel a1 = (a', r) → allocatorOK a' ∧ pa_start a' = pa_start a ∧ pa_end a' = pa_end a ∧
    match r with
    | Some port => port ∉ pa_inUse a ∧ bindable port = true ∧ pa_inUse a' = {[port]} ∪ pa_inUse a ∧
                   pa_start a ≤ port ≤ pa_end a
    | None => pa_inUse a' = pa_inUse a ∧
              ∀ i, 0 ≤ i < Z.of_nat (S fuel) → probed a i ∈ pa_inUse a ∨ bindable (probed a i) = false
    end).
  { intros Hbad Hl. apply IH in Hl as (? & ? & ? & Hres); [|done]. split_and!; [done..|].
    destruct r; [done|]. destruct Hres as [? Hall]. split; [done|]. intros i Hi.
    destruct (decide (i = 0)) as [->|]; [by rewrite H0|].
    specialize (Hall (i - 1)). rewrite Hprobe, Z.sub_add in Hall. apply Hall. lia. }
  case_bool_decide as Hin; [apply Hskip; by left|].
  destruct (bindable (pa_next a)) eqn:Hb; cbn [negb]; [|apply Hskip; by right].
  intros [= <- <-]. split_and!; try done; try (cbn; lia). split; cbn; [lia|].
  intros q [->%elem_of_singleton|Hq]%elem_of_union; [lia|]. by apply Hu.
Qed.

Lemma Allocate_spec bindable a a' r : allocatorOK a → Allocate bindable a = (a', r) →
  allocatorOK a' ∧
  match r with
  | Some port => port ∉ pa_inUse a ∧ bindable port = true ∧ pa_inUse a' = {[port]} ∪ pa_inUse a ∧
                 pa_start a ≤ port ≤ pa_end a
  | None => pa_inUse a' = pa_inUse a ∧
            ∀ port, pa_start a ≤ port ≤ pa_end a → port ∈ pa_inUse a ∨ bindable port = false
  end.
Proof.
  intros Hok Ha. apply allocateLoop_spec in Ha as (Hok' & _ & _ & Hres); [|done]. split; [done|].
  destruct r; [done|]. destruct Hres as [? Hall]. split; [done|]. intros port Hp.
  destruct Hok as [Hr _]. set (m := pa_end a - pa_start a + 1) in *.
  specialize (Hall ((port - pa_next a) mod m)). unfold probed in Hall. fold m in Hall.
  rewrite Zplus_mod_idemp_r in Hall.
  replace (pa_next a - pa_start a + (port - pa_next a)) with (port - pa_start a) in Hall by lia.
  rewrite (Z.mod_small (port - pa_start a)) in Hall by (unfold m; lia).
  replace (pa_start a + (port - pa_start a)) with port in Hall by lia. apply Hall.
  pose proof (Z.mod_pos_bound (port - pa_next a) m ltac:(unfold m; lia)). lia.
Qed.

(** * Hello *)
Record HelloFrame := {
  hf_ProtocolVersion : Z;
  hf_Token : string;
  hf_RealityPublicKey : string;
  hf_ShortID : string;
  hf_ServerName : string;
  hf_ClientID : string;
  hf_Flow : string;
  hf_ExitMode : string;
  hf_MaxSessions : Z;
  hf_MaxMbps : Z;
  hf_Label : string;
  hf_RelayVersion : string;
  hf_StreamTyping : bool;
  hf_PunchCapable : bool;
  hf_IdentityPublicKey : string;
  hf_IdentityProof : string;
  hf_IdentityExpiresAt : string
}.

Record HelloAckFrame := {
  ha_OK : bool;
  ha_Error : string;
  ha_PublicHost : string;
  ha_PublicPort : Z;
  ha_RelayID : string;
  ha_StreamTyping : bool;
  ha_ReflectorAddrs : list string
}.

Definition rejection (message : string) : HelloAckFrame :=
  {| ha_OK := false; ha_Error := message; ha_PublicHost := ""; ha_PublicPort := 0; ha_RelayID := "";
     ha_StreamTyping := false; ha_ReflectorAddrs := [] |}.

(** The hub's configuration. *)
Record HubConfig := {
  hub_PublicHost : string;
  hub_Token : string;
  hub_ReflectorAddrs : list string;
  hub_PunchEndpoint : string
}.

Definition authorized (h : HubConfig) (token : string) : bool :=
  str_empty (hub_Token h) || str_eqb token (hub_Token h).

Definition punchAvailable (h : HubConfig) : bool := (0 <? length (hub_ReflectorAddrs h))%nat.

(** [remoteHost] of the printed address. *)
Definition remoteHost (addr : list byte) : string :=
  match SplitHostPort addr with Some (host, _) => text host | None => "" end.

(** What the relay signs: the registration without an endpoint. *)
Definition helloStatement (hello : HelloFrame) : RegisterRequest :=
  {| rq_PublicHost := ""; rq_PublicPort := 0; rq_Protocol := ""; rq_ClientID := hf_ClientID hello;
     rq_RealityPublicKey := hf_RealityPublicKey hello; rq_ShortID := hf_ShortID hello;
     rq_ServerName := hf_ServerName hello; rq_Flow := hf_Flow hello; rq_ExitMode := hf_ExitMode hello;
     rq_MaxSessions := hf_MaxSessions hello; rq_MaxMbps := hf_MaxMbps hello; rq_RelayVersion := "";
     rq_Label := hf_Label hello; rq_NodeClass := ""; rq_Transport := RelayIdentity.TransportTunnel;
     rq_PunchCapable := false; rq_PunchEndpoint := ""; rq_WSSFronts := []; rq_WSSCapabilityProof := "";
     rq_WSSCapabilityExpiresAt := ""; rq_ExitHost := ""; rq_IdentityPublicKey := ""; rq_IdentityProof := "";
     rq_IdentityExpiresAt := "" |}.

Definition registerRequest (h : HubConfig) (hello : HelloFrame) (port : Z) (exitHost : string) : RegisterRequest :=
  let punchOn := punchAvailable h && hf_StreamTyping hello && hf_PunchCapable hello in
  {| rq_PublicHost := hub_PublicHost h; rq_PublicPort := port; rq_Protocol := ProtocolVLESSRealityVision;
     rq_ClientID := hf_ClientID hello; rq_RealityPublicKey := hf_RealityPublicKey hello;
     rq_ShortID := hf_ShortID hello; rq_ServerName := hf_ServerName hello; rq_Flow := hf_Flow hello;
     rq_ExitMode := hf_ExitMode hello; rq_MaxSessions := hf_MaxSessions hello; rq_MaxMbps := hf_MaxMbps hello;
     rq_RelayVersion := hf_RelayVersion hello; rq_Label := hf_Label hello; rq_NodeClass := "";
     rq_Transport := RelayIdentity.TransportTunnel; rq_PunchCapable := punchOn;
     rq_PunchEndpoint := if punchOn then hub_PunchEndpoint h else ""; rq_WSSFronts := [];
     rq_WSSCapabilityProof := ""; rq_WSSCapabilityExpiresAt := ""; rq_ExitHost := exitHost;
     rq_IdentityPublicKey := hf_IdentityPublicKey hello; rq_IdentityProof := hf_IdentityProof hello;
     rq_IdentityExpiresAt := hf_IdentityExpiresAt hello |}.

(** The acknowledgement of a registered relay. *)
Definition helloAck (h : HubConfig) (hello : HelloFrame) (port : Z) (relayID : string) : HelloAckFrame :=
  {| ha_OK := true; ha_Error := ""; ha_PublicHost := hub_PublicHost h; ha_PublicPort := port; ha_RelayID := relayID;
     ha_StreamTyping := hf_StreamTyping hello;
     ha_ReflectorAddrs := if hf_StreamTyping hello then hub_ReflectorAddrs h else [] |}.

Definition connsPerSession : Z := 256.
Definition perTunnelConnFloor : Z := 512.
Definition perTunnelConnCeil : Z := 8192.

Definition maxConcurrentConns (req : RegisterRequest) : Z :=
  let n := wrap64 (rq_MaxSessions req * connsPerSession) in
  if n <? perTunnelConnFloor then perTunnelConnFloor
  else if perTunnelConnCeil <? n then perTunnelConnCeil else n.

Lemma maxConcurrentConns_bounds req : perTunnelConnFloor ≤ maxConcurrentConns req ≤ perTunnelConnCeil.
Proof. unfold maxConcurrentConns, perTunnelConnFloor, perTunnelConnCeil. cmp_lia. Qed.

Lemma maxConcurrentConns_nonneg req : 0 ≤ maxConcurrentConns req.
Proof. pose proof (maxConcurrentConns_bounds req). unfold perTunnelConnFloor in *. lia. Qed.

Section signing.
Context (Public : list byte → list byte) (edSign : list byte → list byte → list byte).
Context (edVerify : list byte → list byte → list byte → bool).
#[local] Set Default Proof Using "Type".

Definition SignHello (priv : list byte) (hello : HelloFrame) (expiresAt : Z) : HelloFrame :=
  let '(key, proof, expires) := SignIdentity Public edSign priv (helloStatement hello) expiresAt in
  {| hf_ProtocolVersion := hf_ProtocolVersion hello; hf_Token := hf_Token hello;
     hf_RealityPublicKey := hf_RealityPublicKey hello; hf_ShortID := hf_ShortID hello;
     hf_ServerName := hf_ServerName hello; hf_ClientID := hf_ClientID hello; hf_Flow := hf_Flow hello;
     hf_ExitMode := hf_ExitMode hello; hf_MaxSessions := hf_MaxSessions hello; hf_MaxMbps := hf_MaxMbps hello;
     hf_Label := hf_Label hello; hf_RelayVersion := hf_RelayVersion hello; hf_StreamTyping := hf_StreamTyping hello;
     hf_PunchCapable := hf_PunchCapable hello; hf_IdentityPublicKey := key; hf_IdentityProof := proof;
     hf_IdentityExpiresAt := expires |}.

(** The identity a relay signs behind NAT survives the hub.  Whatever port,
    exit address, punch endpoint and other settings the hub adds to a signed
    hello, the registration it submits verifies at the broker under the
    relay's own key until the proof expires, so it may be replayed verbatim. *)
Lemma hello_identity_verifies (priv : list byte) (hello : HelloFrame) (h : HubConfig) (port : Z) (exitHost : string)
    (t now : Z) :
  (∀ m, edVerify (Public priv) m (edSign priv m) = true) →
  length (Public priv) = PublicKeySize → (∀ m, length (edSign priv m) = SignatureSize) →
  ValidateIdentityFields (helloStatement hello) = true → hasLineBreak (hub_PublicHost h) = false →
  fourDigitYear t = true → now < t / second * second ≤ now + MaxIdentityProofWindow →
  VerifyIdentity edVerify (registerRequest h (SignHello priv hello t) port exitHost) now = Ok (Some (Public priv)).
Proof.
  intros Hed Hpub Hsig Hval Hhost Hy Hwin.
  apply (signed_statement_verifies Public edSign edVerify priv _ t); try done.
  unfold ValidateIdentityFields in *. revert Hval. with_strategy opaque [hasLineBreak] cbn. by rewrite Hhost.
Qed.
End signing.

Definition exampleHello : HelloFrame :=
  {| hf_ProtocolVersion := 1; hf_Token := "t"; hf_RealityPublicKey := "k"; hf_ShortID := "s"; hf_ServerName := "n";
     hf_ClientID := "c"; hf_Flow := "f"; hf_ExitMode := "direct"; hf_MaxSessions := 4; hf_MaxMbps := 10;
     hf_Label := "l"; hf_RelayVersion := "1"; hf_StreamTyping := true; hf_PunchCapable := true;
     hf_IdentityPublicKey := ""; hf_IdentityProof := ""; hf_IdentityExpiresAt := "" |}.
Definition exampleHub : HubConfig :=
  {| hub_PublicHost := "203.0.113.1"; hub_Token := "t"; hub_ReflectorAddrs := ["203.0.113.1:9443"%string];
     hub_PunchEndpoint := "https://203.0.113.1:9444" |}.

Lemma hello_identity_verifies_witness :
  let pub := λ k : list byte, take 32 k in
  let sign := λ k m : list byte, replicate 64 (chr (Z.of_nat (length m))) in
  let verify := λ k m sg : list byte, bool_decide (sg = replicate 64 (chr (Z.of_nat (length m)))) in
  let priv := replicate 64 (chr 7) in
  VerifyIdentity verify
    (registerRequest exampleHub (SignHello pub sign priv exampleHello (exampleNow + 3600 * second + 5)) 20001 "198.51.100.9")
    exampleNow = Ok (Some (replicate 32 (chr 7))).
Proof.
  intros pub sign verify priv. change (replicate 32 (chr 7)) with (pub priv).
  apply (hello_identity_verifies pub sign verify priv exampleHello exampleHub 20001 "198.51.100.9"
    (exampleNow + 3600 * second + 5) exampleNow).
  - intros m. apply bool_decide_eq_true. reflexivity.
  - reflexivity.
  - intros m. apply length_replicate.
  - vm_compute. reflexivity.
  - vm_compute. reflexivity.
  - vm_compute. reflexivity.
  - split; [apply Z.ltb_lt|apply Z.leb_le]; vm_compute; reflexivity.
Defined.

(** * The hub *)
(** [RelayRegistration]: what the hub keeps of it. *)
Record RelayRegistration := { reg_RelayID : string; reg_LeaseToken : string }.

(** The errors [Register] and [Heartbeat] distinguish. *)
Inductive registrarError := ErrRelayNotFound | ErrIdentityProofExpired | ErrRegistrar.

(** Where the heartbeat loop of a tunnel stands: between ticks; told by the
    broker that [id] is gone; owner of its slot and about to register again;
    registered under a new ID with the old key still to remove; about to claim
    the slot of its ID. *)
Inductive heartbeatState :=
| HbWait
| HbLost (relayID : string)
| HbReregister
| HbRekeyed (oldID : string) (newID : string)
| HbClaim (newID : string).

Record tunnel := {
  tn_port : Z;
  tn_streamTyping : bool;
  tn_registerReq : RegisterRequest;
  tn_relayID : string;
  tn_leaseToken : string;
  tn_heartbeat : heartbeatState;
  tn_conns : Z;            (* slots of [sem] in use *)
  tn_sessionOpen : bool
}.

(** A tunnel accepts clients, then waits for its goroutines, then has given its
    port back. *)
Inductive tunnelStage := Serving | Stopping | Released.

(** A control connection, by where [handleControl] stands. *)
Inductive conn :=
| CHello
| CAllocated (hello : HelloFrame) (port : Z)
| CListening (hello : HelloFrame) (port : Z)
| CRegistered (hello : HelloFrame) (req : RegisterRequest) (port : Z) (registration : RelayRegistration)
| CAcked (hello : HelloFrame) (req : RegisterRequest) (port : Z) (registration : RelayRegistration)
| CTunnel (stage : tunnelStage) (t : tunnel)
| CClosed.

Record Hub := { hb_alloc : PortAllocator; hb_registry : gmap string nat; hb_conns : gmap nat conn }.

(** [addTunnel], [claimTunnel], [removeTunnel], [lookupTunnel]; a tunnel is
    named by its connection. *)
Definition addTunnel (relayID : string) (t : nat) (registry : gmap string nat) : gmap string nat := <[relayID := t]> registry.
Definition claimTunnel (relayID : string) (t : nat) (registry : gmap string nat) : bool * gmap string nat :=
  match registry !! relayID with
  | Some current => if bool_decide (current = t) then (true, <[relayID := t]> registry) else (false, registry)
  | None => (true, <[relayID := t]> registry)
  end.
Definition removeTunnel (relayID : string) (t : nat) (registry : gmap string nat) : gmap string nat :=
  if bool_decide (registry !! relayID = Some t) then delete relayID registry else registry.
Definition lookupTunnel (relayID : string) (s : Hub) : option tunnel :=
  c ← hb_registry s !! relayID;
  match hb_conns s !! c with Some (CTunnel _ t) => Some t | _ => None end.

Definition setHeartbeat (t : tunnel) (hb : heartbeatState) : tunnel :=
  {| tn_port := tn_port t; tn_streamTyping := tn_streamTyping t; tn_registerReq := tn_registerReq t;
     tn_relayID := tn_relayID t; tn_leaseToken := tn_leaseToken t; tn_heartbeat := hb; tn_conns := tn_conns t;
     tn_sessionOpen := tn_sessionOpen t |}.
(** [session.Close()]; the loop goes back to its ticker. *)
Definition closeSession (t : tunnel) : tunnel :=
  {| tn_port := tn_port t; tn_streamTyping := tn_streamTyping t; tn_registerReq := tn_registerReq t;
     tn_relayID := tn_relayID t; tn_leaseToken := tn_leaseToken t; tn_heartbeat := tn_heartbeat t; tn_conns := tn_conns t;
     tn_sessionOpen := false |}.
Definition setRegistration (t : tunnel) (r : RelayRegistration) : tunnel :=
  {| tn_port := tn_port t; tn_streamTyping := tn_streamTyping t; tn_registerReq := tn_registerReq t;
     tn_relayID := reg_RelayID r; tn_leaseToken := reg_LeaseToken r; tn_heartbeat := tn_heartbeat t;
     tn_conns := tn_conns t; tn_sessionOpen := tn_sessionOpen t |}.
Definition setConns (t : tunnel) (n : Z) : tunnel :=
  {| tn_port := tn_port t; tn_streamTyping := tn_streamTyping t; tn_registerReq := tn_registerReq t;
     tn_relayID := tn_relayID t; tn_leaseToken := tn_leaseToken t; tn_heartbeat := tn_heartbeat t; tn_conns := n;
     tn_sessionOpen := tn_sessionOpen t |}.

(** What the scheduler, the peers, the network and the broker decide. *)
Inductive hubAction :=
| DoAccept
| DoHello (hello : option HelloFrame) (bindable : Z → bool)
| DoListen (ok : bool)
| DoRegister (remote : list byte) (answer : result registrarError RelayRegistration)
| DoAck (ok : bool)
| DoSession (ok : bool)
| DoHeartbeat (answer : result registrarError unit)
| DoClaim
| DoReregister (answer : result registrarError RelayRegistration)
| DoRemoveOld
| DoClaimNew
| DoClient
| DoClientDone
| DoSessionLost
| DoStop
| DoRelease
| DoRemove.

(** What leaves the hub: the answer to a hello, and the requests to the broker. *)
Inductive hubOutput :=
| OutAck (ack : HelloAckFrame)
| OutRegister (req : RegisterRequest)
| OutHeartbeat (relayID leaseToken : string).

Section hub.
Context (h : HubConfig).
#[local] Set Default Proof Using "Type".

(** The steps of [handleControl] of connection [c]: the new allocator, registry
    and connection, and what is sent.  The last one is its deferred removal. *)
Definition handleControl (c : nat) (a : hubAction) (alloc : PortAllocator) (registry : gmap string nat) (cn : conn)
    : option (PortAllocator * gmap string nat * conn * list hubOutput) :=
  match a, cn with
  | DoHello hello bindable, CHello =>
      match hello with
      | None => Some (alloc, registry, CClosed, [])
      | Some hello =>
          if negb (hf_ProtocolVersion hello =? ProtocolVersion) then
            Some (alloc, registry, CClosed, [OutAck (rejection "unsupported tunnel protocol version")]) else
          if negb (authorized h (hf_Token hello)) then
            Some (alloc, registry, CClosed, [OutAck (rejection "invalid tunnel token")]) else
          match Allocate bindable alloc with
          | (alloc, None) => Some (alloc, registry, CClosed, [OutAck (rejection "no public ports available")])
          | (alloc, Some port) => Some (alloc, registry, CAllocated hello port, [])
          end
      end
  | DoListen ok, CAllocated hello port =>
      if ok then Some (alloc, registry, CListening hello port, [])
      else Some (Release port alloc, registry, CClosed, [OutAck (rejection "could not open public port")])
  | DoRegister remote answer, CListening hello port =>
      let req := registerRequest h hello port (remoteHost remote) in
      match answer with
      | Err _ => Some (Release port alloc, registry, CClosed,
                       [OutRegister req; OutAck (rejection "broker registration failed")])
      | Ok registration => Some (alloc, registry, CRegistered hello req port registration, [OutRegister req])
      end
  | DoAck ok, CRegistered hello req port registration =>
      let ack := OutAck (helloAck h hello port (reg_RelayID registration)) in
      if ok then Some (alloc, registry, CAcked hello req port registration, [ack])
      else Some (Release port alloc, registry, CClosed, [ack])
  | DoSession ok, CAcked hello req port registration =>
      if ok then
        let t := {| tn_port := port; tn_streamTyping := hf_StreamTyping hello; tn_registerReq := req;
                    tn_relayID := reg_RelayID registration; tn_leaseToken := reg_LeaseToken registration;
                    tn_heartbeat := HbWait; tn_conns := 0; tn_sessionOpen := true |} in
        Some (alloc, addTunnel (reg_RelayID registration) c registry, CTunnel Serving t, [])
      else Some (Release port alloc, registry, CClosed, [])
  | DoRemove, CTunnel Released t => Some (alloc, removeTunnel (tn_relayID t) c registry, CClosed, [])
  | _, _ => None
  end.

(** A tick of [heartbeatLoop] and, when the registration is lost, the claim of
    [handleRegistrationLost]. *)
Definition heartbeatLoop (c : nat) (a : hubAction) (alloc : PortAllocator) (registry : gmap string nat) (cn : conn)
    : option (PortAllocator * gmap string nat * conn * list hubOutput) :=
  match a, cn with
  | DoHeartbeat answer, CTunnel stage t =>
      match stage, tn_heartbeat t with
      | Released, _ => None
      | _, HbWait =>
          let hb := match answer with Err ErrRelayNotFound => HbLost (tn_relayID t) | _ => HbWait end in
          Some (alloc, registry, CTunnel stage (setHeartbeat t hb), [OutHeartbeat (tn_relayID t) (tn_leaseToken t)])
      | _, _ => None
      end
  | DoClaim, CTunnel stage t =>
      match tn_heartbeat t with
      | HbLost relayID =>
          let '(ok, registry) := claimTunnel relayID c registry in
          Some (alloc, registry,
                CTunnel stage (if ok then setHeartbeat t HbReregister else closeSession (setHeartbeat t HbWait)), [])
      | _ => None
      end
  | _, _ => None
  end.

(** [reregister]: the request with the new registration, the removal of the old
    key, the claim of the new one. *)
Definition reregister (c : nat) (a : hubAction) (alloc : PortAllocator) (registry : gmap string nat) (cn : conn)
    : option (PortAllocator * gmap string nat * conn * list hubOutput) :=
  match a, cn with
  | DoReregister answer, CTunnel stage t =>
      match tn_heartbeat t with
      | HbReregister =>
          let out := [OutRegister (tn_registerReq t)] in
          match answer with
          | Err ErrIdentityProofExpired => Some (alloc, registry, CTunnel stage (closeSession (setHeartbeat t HbWait)), out)
          | Err _ => Some (alloc, registry, CTunnel stage (setHeartbeat t HbWait), out)
          | Ok r =>
              let hb := if str_eqb (tn_relayID t) (reg_RelayID r) then HbClaim (reg_RelayID r)
                        else HbRekeyed (tn_relayID t) (reg_RelayID r) in
              Some (alloc, registry, CTunnel stage (setHeartbeat (setRegistration t r) hb), out)
          end
      | _ => None
      end
  | DoRemoveOld, CTunnel stage t =>
      match tn_heartbeat t with
      | HbRekeyed oldID newID => Some (alloc, removeTunnel oldID c registry, CTunnel stage (setHeartbeat t (HbClaim newID)), [])
      | _ => None
      end
  | DoClaimNew, CTunnel stage t =>
      match tn_heartbeat t with
      | HbClaim newID =>
          let '(ok, registry) := claimTunnel newID c registry in
          let t := setHeartbeat t HbWait in
          Some (alloc, registry, CTunnel stage (if ok then t else closeSession t), [])
      | _ => None
      end
  | _, _ => None
  end.

(** [run]: clients, the end of the session, the end of the accept loop, and the
    return of the port once the heartbeat loop and the clients are done. *)
Definition run (c : nat) (a : hubAction) (alloc : PortAllocator) (registry : gmap string nat) (cn : conn)
    : option (PortAllocator * gmap string nat * conn * list hubOutput) :=
  match a, cn with
  | DoClient, CTunnel Serving t =>
      if maxConcurrentConns (tn_registerReq t) <=? tn_conns t then Some (alloc, registry, CTunnel Serving t, [])
      else Some (alloc, registry, CTunnel Serving (setConns t (tn_conns t + 1)), [])
  | DoClientDone, CTunnel stage t =>
      if tn_conns t <=? 0 then None else Some (alloc, registry, CTunnel stage (setConns t (tn_conns t - 1)), [])
  | DoSessionLost, CTunnel stage t => Some (alloc, registry, CTunnel stage (closeSession t), [])
  | DoStop, CTunnel Serving t => Some (alloc, registry, CTunnel Stopping (closeSession t), [])
  | DoRelease, CTunnel Stopping t =>
      match tn_heartbeat t with
      | HbWait => if tn_conns t =? 0 then Some (Release (tn_port t) alloc, registry, CTunnel Released t, []) else None
      | _ => None
      end
  | _, _ => None
  end.

Definition connStep (c : nat) (a : hubAction) (alloc : PortAllocator) (registry : gmap string nat) (cn : conn)
    : option (PortAllocator * gmap string nat * conn * list hubOutput) :=
  match a with
  | DoAccept => None
  | DoHello _ _ | DoListen _ | DoRegister _ _ | DoAck _ | DoSession _ | DoRemove => handleControl c a alloc registry cn
  | DoHeartbeat _ | DoClaim => heartbeatLoop c a alloc registry cn
  | DoReregister _ | DoRemoveOld | DoClaimNew => reregister c a alloc registry cn
  | DoClient | DoClientDone | DoSessionLost | DoStop | DoRelease => run c a alloc registry cn
  end.

Definition hubStep (c : nat) (a : hubAction) (s : Hub) : option (Hub * list hubOutput) :=
  match a, hb_conns s !! c with
  | DoAccept, None =>
      Some ({| hb_alloc := hb_alloc s; hb_registry := hb_registry s; hb_conns := <[c := CHello]> (hb_conns s) |}, [])
  | DoAccept, Some _ => None
  | _, None => None
  | a, Some cn =>
      '(alloc, registry, cn, out) ← connStep c a (hb_alloc s) (hb_registry s) cn;
      Some ({| hb_alloc := alloc; hb_registry := registry; hb_conns := <[c := cn]> (hb_conns s) |}, out)
  end.

Definition newHub (alloc : PortAllocator) : Hub := {| hb_alloc := alloc; hb_registry := ∅; hb_conns := ∅ |}.

(** A history: every step it lists is one the hub can take. *)
Fixpoint hubRun (evs : list (nat * hubAction)) (s : Hub) : option (Hub * list (nat * hubOutput)) :=
  match evs with
  | [] => Some (s, [])
  | (c, a) :: evs =>
      '(s, out) ← hubStep c a s; '(s, more) ← hubRun evs s; Some (s, (pair c <$> out) ++ more)
  end.

(** * The invariant *)
Definition holds (cn : conn) : option Z :=
  match cn with
  | CAllocated _ port | CListening _ port | CRegistered _ _ port _ | CAcked _ _ port _ => Some port
  | CTunnel Released _ => None
  | CTunnel _ t => Some (tn_port t)
  | CHello | CClosed => None
  end.

(** What a registry entry [relayID] for this connection rests on: the tunnel's
    current ID, or the old one about to be removed. *)
Definition justifies (cn : conn) (relayID : string) : Prop :=
  match cn with
  | CTunnel _ t => tn_relayID t = relayID ∨ ∃ new, tn_heartbeat t = HbRekeyed relayID new
  | _ => False
  end.

Definition connOK (cn : conn) : Prop :=
  match cn with
  | CTunnel stage t =>
      0 ≤ tn_conns t ≤ maxConcurrentConns (tn_registerReq t) ∧
      match tn_heartbeat t with
      | HbWait | HbReregister => True
      | HbLost id | HbClaim id | HbRekeyed _ id => tn_relayID t = id
      end ∧
      (stage = Released → tn_heartbeat t = HbWait ∧ tn_conns t = 0)
  | _ => True
  end.

Record hubOK (s : Hub) : Prop := {
  ok_alloc : allocatorOK (hb_alloc s);
  ok_ports port : port ∈ pa_inUse (hb_alloc s) ↔ ∃ c cn, hb_conns s !! c = Some cn ∧ holds cn = Some port;
  ok_distinct c1 c2 cn1 cn2 port : hb_conns s !! c1 = Some cn1 → hb_conns s !! c2 = Some cn2 →
    holds cn1 = Some port → holds cn2 = Some port → c1 = c2;
  ok_registry relayID c : hb_registry s !! relayID = Some c → ∃ cn, hb_conns s !! c = Some cn ∧ justifies cn relayID;
  ok_conns c cn : hb_conns s !! c = Some cn → connOK cn
}.

(** A step of [c] leaves the other connections' entries or takes them away. *)
Definition registryStep (c : nat) (cn' : conn) (reg reg' : gmap string nat) : Prop :=
  ∀ relayID c', reg' !! relayID = Some c' → c' = c ∧ justifies cn' relayID ∨ c' ≠ c ∧ reg !! relayID = Some c'.

Lemma registry_kept s c cn cn' reg' :
  hubOK s → hb_conns s !! c = Some cn → registryStep c cn' (hb_registry s) reg' →
  ∀ relayID c', reg' !! relayID = Some c' → ∃ cn, <[c := cn']> (hb_conns s) !! c' = Some cn ∧ justifies cn relayID.
Proof.
  intros Hs Hc Hr relayID c' Hl. destruct (Hr _ _ Hl) as [[-> Hj]|[Hne Hold]].
  - exists cn'. by rewrite lookup_insert_eq.
  - rewrite lookup_insert_ne by done. by apply (ok_registry s Hs).
Qed.

Lemma conns_kept s c cn' : hubOK s → connOK cn' →
  ∀ c' cn, <[c := cn']> (hb_conns s) !! c' = Some cn → connOK cn.
Proof. intros Hs Hok c' cn [[_ <-]|[_ Hl]]%lookup_insert_Some; [done|by eapply ok_conns]. Qed.

(** The three ways a step touches the ports. *)
Lemma keep_ok s c cn cn' reg' :
  hubOK s → hb_conns s !! c = Some cn → holds cn' = holds cn → connOK cn' →
  registryStep c cn' (hb_registry s) reg' →
  hubOK {| hb_alloc := hb_alloc s; hb_registry := reg'; hb_conns := <[c := cn']> (hb_conns s) |}.
Proof.
  intros Hs Hc Hh Hok Hr.
  assert (Hback : ∀ c1 cn1 port, <[c := cn']> (hb_conns s) !! c1 = Some cn1 → holds cn1 = Some port →
    ∃ cn0, hb_conns s !! c1 = Some cn0 ∧ holds cn0 = Some port).
  { intros c1 cn1 port [[<- <-]|[_ Hl]]%lookup_insert_Some Hp; [exists cn; by rewrite <- Hh|by exists cn1]. }
  split; cbn [hb_alloc hb_registry hb_conns]; [by apply ok_alloc| | | |by apply conns_kept].
  - intros port. rewrite (ok_ports s Hs). split.
    + intros (c1 & cn1 & Hl & Hp). destruct (decide (c1 = c)) as [->|].
      * exists c, cn'. rewrite lookup_insert_eq. split; [done|]. congruence.
      * exists c1, cn1. by rewrite lookup_insert_ne.
    + intros (c1 & cn1 & Hl & Hp). destruct (Hback _ _ _ Hl Hp) as (cn0 & ? & ?). by exists c1, cn0.
  - intros c1 c2 cn1 cn2 port H1 H2 P1 P2. destruct (Hback _ _ _ H1 P1) as (d1 & L1 & Q1), (Hback _ _ _ H2 P2) as (d2 & L2 & Q2).
    by eapply (ok_distinct s Hs).
  - by eapply registry_kept.
Qed.

Lemma release_ok s c cn cn' reg' port :
  hubOK s → hb_conns s !! c = Some cn → holds cn = Some port → holds cn' = None → connOK cn' →
  registryStep c cn' (hb_registry s) reg' →
  hubOK {| hb_alloc := Release port (hb_alloc s); hb_registry := reg'; hb_conns := <[c := cn']> (hb_conns s) |}.
Proof.
  intros Hs Hc Hh Hn Hok Hr.
  assert (Hback : ∀ c1 cn1 q, <[c := cn']> (hb_conns s) !! c1 = Some cn1 → holds cn1 = Some q →
    c1 ≠ c ∧ hb_conns s !! c1 = Some cn1).
  { intros c1 cn1 q [[<- <-]|[? Hl]]%lookup_insert_Some Hp; [congruence|done]. }
  split; cbn [hb_alloc hb_registry hb_conns]; [by apply Release_ok, ok_alloc| | | |by apply conns_kept].
  - intros q. unfold Release. cbn [pa_inUse]. rewrite elem_of_difference, elem_of_singleton, (ok_ports s Hs). split.
    + intros [(c1 & cn1 & Hl & Hp) Hne]. exists c1, cn1. rewrite lookup_insert_ne; [done|]. intros ->. congruence.
    + intros (c1 & cn1 & Hl & Hp). destruct (Hback _ _ _ Hl Hp) as [Hne Hl']. split; [by exists c1, cn1|].
      intros ->. apply Hne. by eapply (ok_distinct s Hs).
  - intros c1 c2 cn1 cn2 q H1 H2 P1 P2. destruct (Hback _ _ _ H1 P1), (Hback _ _ _ H2 P2). by eapply (ok_distinct s Hs).
  - by eapply registry_kept.
Qed.

Lemma allocate_ok s c cn cn' alloc port :
  hubOK s → hb_conns s !! c = Some cn → holds cn = None → holds cn' = Some port → connOK cn' →
  allocatorOK alloc → port ∉ pa_inUse (hb_alloc s) → pa_inUse alloc = {[port]} ∪ pa_inUse (hb_alloc s) →
  registryStep c cn' (hb_registry s) (hb_registry s) →
  hubOK {| hb_alloc := alloc; hb_registry := hb_registry s; hb_conns := <[c := cn']> (hb_conns s) |}.
Proof.
  intros Hs Hc Hh Hn Hok Ha Hfresh Hin Hr.
  assert (Hother : ∀ c1 cn1, hb_conns s !! c1 = Some cn1 → holds cn1 ≠ Some port).
  { intros c1 cn1 Hl Hp. apply Hfresh, (ok_ports s Hs). by exists c1, cn1. }
  split; cbn [hb_alloc hb_registry hb_conns]; [done| | | |by apply conns_kept].
  - intros q. rewrite Hin, elem_of_union, elem_of_singleton, (ok_ports s Hs). split.
    + intros [->|(c1 & cn1 & Hl & Hp)]; [exists c, cn'; by rewrite lookup_insert_eq|].
      exists c1, cn1. rewrite lookup_insert_ne; [done|]. intros ->. congruence.
    + intros (c1 & cn1 & [[<- <-]|[_ Hl]]%lookup_insert_Some & Hp); [left; congruence|right; by exists c1, cn1].
  - intros c1 c2 cn1 cn2 q [[<- <-]|[H1 L1]]%lookup_insert_Some [[E2 <-]|[H2 L2]]%lookup_insert_Some P1 P2; subst; try done.
    + rewrite Hn in P1. simplify_eq. by destruct (Hother _ _ L2).
    + rewrite Hn in P2. simplify_eq. by destruct (Hother _ _ L1).
    + by eapply (ok_distinct s Hs).
  - by eapply registry_kept.
Qed.

(** The registry operations. *)
Lemma keep_registry s c cn cn' : hubOK s → hb_conns s !! c = Some cn →
  (∀ id, justifies cn id → justifies cn' id) → registryStep c cn' (hb_registry s) (hb_registry s).
Proof.
  intros Hs Hc Hj relayID c' Hl. destruct (decide (c' = c)) as [->|]; [left|by right]. split; [done|].
  destruct (ok_registry s Hs _ _ Hl) as (cn0 & Hl0 & Hj0). rewrite Hc in Hl0. simplify_eq. auto.
Qed.

Lemma claim_registry s c cn cn' relayID : hubOK s → hb_conns s !! c = Some cn →
  (∀ id, justifies cn id → justifies cn' id) → justifies cn' relayID →
  registryStep c cn' (hb_registry s) (claimTunnel relayID c (hb_registry s)).2.
Proof.
  intros Hs Hc Hj Hid. pose proof (keep_registry s c cn cn' Hs Hc Hj) as Hk.
  assert (Hins : registryStep c cn' (hb_registry s) (<[relayID := c]> (hb_registry s))).
  { intros id c' [[<- <-]|[_ Hl]]%lookup_insert_Some; [by left|by apply Hk]. }
  unfold claimTunnel. destruct (hb_registry s !! relayID) as [d|]; [case_bool_decide|]; done.
Qed.

Lemma remove_registry s c cn cn' relayID : hubOK s → hb_conns s !! c = Some cn →
  (∀ id, justifies cn id → id = relayID ∨ justifies cn' id) →
  registryStep c cn' (hb_registry s) (removeTunnel relayID c (hb_registry s)).
Proof.
  intros Hs Hc Hj id c' Hl.
  assert (Hold : hb_registry s !! id = Some c' ∧ (c' = c → id ≠ relayID)).
  { unfold removeTunnel in Hl. case_bool_decide as Hd.
    - apply lookup_delete_Some in Hl as [Hne Hl]. by split.
    - split; [done|]. intros -> ->. done. }
  destruct Hold as [Hold Hne]. destruct (decide (c' = c)) as [->|]; [left|by right]. split; [done|].
  destruct (ok_registry s Hs _ _ Hold) as (cn0 & Hl0 & Hj0). rewrite Hc in Hl0. simplify_eq.
  destruct (Hj _ Hj0) as [->|]; [by destruct (Hne eq_refl)|done].
Qed.

Lemma connStep_ok c a s cn alloc reg cn' out :
  hubOK s → hb_conns s !! c = Some cn → connStep c a (hb_alloc s) (hb_registry s) cn = Some (alloc, reg, cn', out) →
  hubOK {| hb_alloc := alloc; hb_registry := reg; hb_conns := <[c := cn']> (hb_conns s) |}.
Proof.
  intros Hs Hc. pose proof (ok_conns s Hs c cn Hc) as Hcn.
  assert (Hkeep : ∀ cn', holds cn' = holds cn → connOK cn' → (∀ id, justifies cn id → justifies cn' id) →
    hubOK {| hb_alloc := hb_alloc s; hb_registry := hb_registry s; hb_conns := <[c := cn']> (hb_conns s) |}).
  { intros. by eapply keep_ok; [..|eapply keep_registry]. }
  assert (Hrel : ∀ port cn', holds cn = Some port → holds cn' = None → connOK cn' → (∀ id, justifies cn id → justifies cn' id) →
    hubOK {| hb_alloc := Release port (hb_alloc s); hb_registry := hb_registry s; hb_conns := <[c := cn']> (hb_conns s) |}).
  { intros. by eapply release_ok; [..|eapply keep_registry]. }
  destruct a, cn as [|hello0 port0|hello0 port0|hello0 req0 port0 reg0|hello0 req0 port0 reg0|stage t|]; try done; cbn [connStep handleControl heartbeatLoop reregister run].
  - (* hello *)
    destruct hello as [hello|]; [|intros [= <- <- <- <-]; by apply Hkeep].
    destruct (negb _); [intros [= <- <- <- <-]; by apply Hkeep|].
    destruct (negb _); [intros [= <- <- <- <-]; by apply Hkeep|].
    destruct (Allocate bindable (hb_alloc s)) as [alloc' [port|]] eqn:Ha.
    + apply Allocate_spec in Ha as (Hok & Hfresh & _ & Hin & _); [|by apply ok_alloc]. intros [= <- <- <- <-].
      eapply allocate_ok; try done. by eapply keep_registry.
    + apply Allocate_spec in Ha as (Hok & Hin & _); [|by apply ok_alloc]. intros [= <- <- <- <-].
      destruct (Hkeep CClosed eq_refl I (λ _ f, f)) as [? Hp ? ? ?]. split; try done. cbn in *. by rewrite Hin.
  - destruct ok; intros [= <- <- <- <-]; [by apply Hkeep|by apply Hrel].
  - destruct answer; intros [= <- <- <- <-]; [by apply Hkeep|by apply Hrel].
  - destruct ok; intros [= <- <- <- <-]; [by apply Hkeep|by apply Hrel].
  - (* the tunnel is installed *)
    destruct ok; intros [= <- <- <- <-]; [|by apply Hrel].
    eapply keep_ok; [done..| |].
    + cbn. split_and!; [lia|apply maxConcurrentConns_nonneg|done|done].
    + unfold addTunnel. intros id c' [[<- <-]|[_ Hl]]%lookup_insert_Some; [left; split; [done|]; cbn; by left|].
      by eapply (keep_registry s c _ _ Hs Hc).
  - (* heartbeat *)
    destruct Hcn as (Hn & Hhb & Hst).
    destruct stage, (tn_heartbeat t) eqn:Ehb; try done; intros [= <- <- <- <-]; apply Hkeep; try done.
    all: try (cbn; split_and!; [lia|lia|by destruct answer as [|[]]|done]).
    all: intros id [Hid|[new Hnew]]; [left; done|congruence].
  - (* claim before registering again *)
    destruct Hcn as (Hn & Hhb & Hst). destruct (tn_heartbeat t) eqn:Ehb; try done.
    destruct (claimTunnel relayID c (hb_registry s)) as [ok reg'] eqn:Ecl. intros [= <- <- <- <-].
    replace reg' with (claimTunnel relayID c (hb_registry s)).2 by (by rewrite Ecl).
    assert (stage ≠ Released) by (intros ->; by destruct (Hst eq_refl)).
    eapply keep_ok; [done..| | |eapply claim_registry; [done..| |]].
    + destruct ok; by destruct stage.
    + destruct ok; cbn; split_and!; try done; lia.
    + intros id [Hid|[new Hnew]]; [|congruence]. destruct ok; by left.
    + destruct ok; by left.
  - (* registered again *)
    destruct Hcn as (Hn & Hhb & Hst). destruct (tn_heartbeat t) eqn:Ehb; try done.
    assert (stage ≠ Released) by (intros ->; by destruct (Hst eq_refl)).
    assert (Hj : ∀ id, justifies (CTunnel stage t) id → id = tn_relayID t).
    { intros id [Hid|[new Hnew]]; [done|congruence]. }
    destruct answer as [r|[]]; intros [= <- <- <- <-].
    2-4: apply Hkeep; [by destruct stage|cbn; split_and!; try done; lia|intros id ->%Hj; by left].
    apply Hkeep; [by destruct stage| |].
    + cbn. split_and!; try lia; try done. by destruct (str_eqb _ _).
    + intros id ->%Hj. cbn. destruct (str_eqb (tn_relayID t) (reg_RelayID r)) eqn:Eq.
      * left. symmetry. by apply str_eqb_true.
      * right. by eexists.
  - (* the old key *)
    destruct Hcn as (Hn & Hhb & Hst). destruct (tn_heartbeat t) eqn:Ehb; try done. intros [= <- <- <- <-].
    assert (stage ≠ Released) by (intros ->; by destruct (Hst eq_refl)).
    eapply keep_ok; [done..| | |eapply remove_registry; [done..|]].
    + by destruct stage.
    + cbn. split_and!; try done; lia.
    + intros id [Hid|[new Hnew]]; [right; by left|]. rewrite Ehb in Hnew. left. congruence.
  - (* claim of the new key *)
    destruct Hcn as (Hn & Hhb & Hst). destruct (tn_heartbeat t) eqn:Ehb; try done.
    destruct (claimTunnel newID c (hb_registry s)) as [ok reg'] eqn:Ecl. intros [= <- <- <- <-].
    replace reg' with (claimTunnel newID c (hb_registry s)).2 by (by rewrite Ecl).
    assert (stage ≠ Released) by (intros ->; by destruct (Hst eq_refl)).
    eapply keep_ok; [done..| | |eapply claim_registry; [done..| |]].
    + destruct ok; by destruct stage.
    + destruct ok; cbn; split_and!; try done; lia.
    + intros id [Hid|[new Hnew]]; [|congruence]. destruct ok; by left.
    + destruct ok; by left.
  - (* a client *)
    destruct Hcn as (Hn & Hhb & Hst). destruct stage; try done.
    destruct (Z.leb_spec (maxConcurrentConns (tn_registerReq t)) (tn_conns t)); intros [= <- <- <- <-]; apply Hkeep; try done.
    cbn. split_and!; [lia|lia|done|done].
  - destruct Hcn as (Hn & Hhb & Hst). destruct (Z.leb_spec (tn_conns t) 0); [done|]. intros [= <- <- <- <-].
    apply Hkeep; [by destruct stage| |done]. cbn. split_and!; [lia|lia|done|]. intros ->. destruct (Hst eq_refl). lia.
  - intros [= <- <- <- <-]. apply Hkeep; [by destruct stage|exact Hcn|done].
  - destruct Hcn as (Hn & Hhb & Hst). destruct stage; try done. intros [= <- <- <- <-]. by apply Hkeep.
  - (* the port is returned *)
    destruct Hcn as (Hn & Hhb & Hst). destruct stage; try done. destruct (tn_heartbeat t) eqn:Ehb; try done.
    destruct (Z.eqb_spec (tn_conns t) 0) as [E0|]; [|done]. intros [= <- <- <- <-]. apply Hrel; [done|done| |done].
    cbn. rewrite Ehb. split_and!; [lia|lia|done|done].
  - (* the entry goes *)
    destruct Hcn as (Hn & Hhb & Hst). destruct stage; try done. intros [= <- <- <- <-].
    destruct (Hst eq_refl) as [Ew _].
    eapply keep_ok; [done..| |eapply remove_registry; [done..|]]; [done|].
    intros id [Hid|[new Hnew]]; [by left|congruence].
Qed.

Lemma hubStep_ok c a s s' out : hubOK s → hubStep c a s = Some (s', out) → hubOK s'.
Proof.
  intros Hs. unfold hubStep. destruct (hb_conns s !! c) as [cn|] eqn:Hc.
  - assert (Hgo : connStep c a (hb_alloc s) (hb_registry s) cn ≫= (λ '(alloc, registry, cn, out),
      Some ({| hb_alloc := alloc; hb_registry := registry; hb_conns := <[c := cn]> (hb_conns s) |}, out)) = Some (s', out) →
      hubOK s').
    { destruct (connStep _ _ _ _ _) as [[[[alloc reg] cn'] out']|] eqn:E; [|done]. intros [= <- <-]. by eapply connStep_ok. }
    destruct a; try exact Hgo; done.
  - destruct a; try done. intros [= <- <-].
    assert (Hfresh : ∀ c1 cn1, <[c := CHello]> (hb_conns s) !! c1 = Some cn1 → holds cn1 ≠ None → hb_conns s !! c1 = Some cn1).
    { intros c1 cn1 [[_ <-]|[_ Hl]]%lookup_insert_Some Hh; done. }
    assert (Hsome : ∀ c1 cn1, hb_conns s !! c1 = Some cn1 → <[c := CHello]> (hb_conns s) !! c1 = Some cn1).
    { intros c1 cn1 Hl. rewrite lookup_insert_ne; [done|]. intros ->. congruence. }
    split; cbn [hb_alloc hb_registry hb_conns]; [by apply ok_alloc| | | |by apply conns_kept].
    + intros port. rewrite (ok_ports s Hs). split; intros (c1 & cn1 & Hl & Hp); exists c1, cn1; split; auto.
      apply Hfresh; [done|congruence].
    + intros c1 c2 cn1 cn2 port H1 H2 P1 P2. eapply (ok_distinct s Hs); [apply Hfresh|apply Hfresh|..]; eauto; congruence.
    + intros id c' Hl. destruct (ok_registry s Hs _ _ Hl) as (cn & ? & ?). eauto.
Qed.

Lemma newHub_ok alloc : allocatorOK alloc → pa_inUse alloc = ∅ → hubOK (newHub alloc).
Proof.
  intros Hok He. split; cbn; [done| |by intros ?????? ?%lookup_empty_Some|by intros ?? ?%lookup_empty_Some|by intros ?? ?%lookup_empty_Some].
  intros port. rewrite He. split; [set_solver|]. by intros (c & cn & ?%lookup_empty_Some & _).
Qed.

Lemma hubRun_ok evs : ∀ s s' out, hubOK s → hubRun evs s = Some (s', out) → hubOK s'.
Proof.
  induction evs as [|[c a] evs IH]; intros s s' out Hs; cbn [hubRun]; [by intros [= <- <-]|].
  destruct (hubStep c a s) as [[s1 out1]|] eqn:E; [|done]. cbn. destruct (hubRun evs s1) as [[s2 out2]|] eqn:E2; [|done].
  cbn. intros [= <- <-]. eapply IH; [|done]. by eapply hubStep_ok.
Qed.

(** The range never changes. *)
Lemma allocateLoop_range bindable fuel : ∀ a,
  pa_start (allocateLoop bindable fuel a).1 = pa_start a ∧ pa_end (allocateLoop bindable fuel a).1 = pa_end a.
Proof.
  induction fuel as [|fuel IH]; intros a; cbn [allocateLoop]; [done|].
  case_bool_decide; [exact (IH _)|]. destruct (negb _); [exact (IH _)|done].
Qed.

Definition sameRange (a b : PortAllocator) : Prop := pa_start a = pa_start b ∧ pa_end a = pa_end b.

Lemma hubStep_range c a s s' out : hubStep c a s = Some (s', out) → sameRange (hb_alloc s') (hb_alloc s).
Proof.
  unfold hubStep. destruct (hb_conns s !! c) as [cn|]; [|by destruct a; try done; intros [= <- <-]].
  assert (Hgo : ∀ r, connStep c a (hb_alloc s) (hb_registry s) cn = Some r → sameRange r.1.1.1 (hb_alloc s)).
  { intros r. destruct a, cn; try done; cbn [connStep handleControl heartbeatLoop reregister run]; intros Hr.
    1: { repeat (case_match; simplify_eq; try done);
           (pose proof (allocateLoop_range bindable (Z.to_nat (pa_end (hb_alloc s) - pa_start (hb_alloc s) + 1)) (hb_alloc s)) as Hl;
            unfold Allocate in *; match goal with E : allocateLoop _ _ _ = _ |- _ => rewrite E in Hl end; done). }
    all: repeat (case_match; simplify_eq; try by split).
    all: simplify_eq; by split. }
  destruct a; try done.
  all: destruct (connStep _ _ _ _ _) as [[[[alloc reg] cn'] out']|]; [|done]; intros [= <- <-]; by apply (Hgo _ eq_refl).
Qed.

Lemma hubRun_range evs : ∀ s s' out, hubRun evs s = Some (s', out) → sameRange (hb_alloc s') (hb_alloc s).
Proof.
  induction evs as [|[c a] evs IH]; intros s s' out; cbn [hubRun]; [by intros [= <- <-]|].
  destruct (hubStep c a s) as [[s1 out1]|] eqn:E; [|done]. cbn. destruct (hubRun evs s1) as [[s2 out2]|] eqn:E2; [|done].
  cbn. intros [= <- <-]. apply IH in E2 as [? ?]. apply hubStep_range in E as [? ?]. split; congruence.
Qed.

(** The hub's books balance in every interleaving of handshakes, heartbeats,
    re-registrations, clients and teardowns.  Ports in use are exactly those
    of the connections that hold one, each in the configured range and none
    held twice; no tunnel has more clients than its cap; a relay ID leads the
    punch coordinator only to a tunnel that has not ended and is registered
    under that ID or is just giving it up; and when all connections have ended
    no port and no entry is left. *)
Lemma hub_books start end_ alloc evs s out :
  NewPortAllocator start end_ = Some alloc → hubRun evs (newHub alloc) = Some (s, out) →
  (∀ port, port ∈ pa_inUse (hb_alloc s) ↔ ∃ c cn, hb_conns s !! c = Some cn ∧ holds cn = Some port) ∧
  (∀ c cn port, hb_conns s !! c = Some cn → holds cn = Some port → start ≤ port ≤ end_ ∧
     ∀ c' cn', hb_conns s !! c' = Some cn' → holds cn' = Some port → c' = c) ∧
  (∀ c stage t, hb_conns s !! c = Some (CTunnel stage t) →
     0 ≤ tn_conns t ≤ maxConcurrentConns (tn_registerReq t) ≤ perTunnelConnCeil) ∧
  (∀ relayID c, hb_registry s !! relayID = Some c → ∃ t, lookupTunnel relayID s = Some t ∧
     (tn_relayID t = relayID ∨ tn_heartbeat t = HbRekeyed relayID (tn_relayID t))) ∧
  ((∀ c cn, hb_conns s !! c = Some cn → cn = CClosed) → pa_inUse (hb_alloc s) = ∅ ∧ hb_registry s = ∅).
Proof.
  intros Hn Hrun.
  assert (Hs : hubOK s).
  { eapply hubRun_ok; [|done]. apply newHub_ok; [by eapply NewPortAllocator_ok|].
    unfold NewPortAllocator in Hn. destruct (_ || _); by simplify_eq. }
  assert (Hrange : pa_start (hb_alloc s) = start ∧ pa_end (hb_alloc s) = end_).
  { apply hubRun_range in Hrun as [-> ->]. unfold NewPortAllocator in Hn. cbn. destruct (_ || _); by simplify_eq. }
  split_and!.
  - apply (ok_ports s Hs).
  - intros c cn port Hc Hp. split; [|intros c' cn' Hc' Hp'; by eapply (ok_distinct s Hs)].
    destruct Hrange as [<- <-]. apply (ok_inUse _ (ok_alloc s Hs)), (ok_ports s Hs). by exists c, cn.
  - intros c stage t Hc. destruct (ok_conns s Hs _ _ Hc) as ([? ?] & _).
    pose proof (maxConcurrentConns_bounds (tn_registerReq t)). lia.
  - intros relayID c Hl. destruct (ok_registry s Hs _ _ Hl) as (cn & Hc & Hj).
    destruct cn as [| | | | |stage t|]; try done. exists t. unfold lookupTunnel. rewrite Hl. cbn. rewrite Hc. split; [done|].
    destruct Hj as [|[new Hhb]]; [by left|right]. destruct (ok_conns s Hs _ _ Hc) as (_ & Hid & _).
    rewrite Hhb in Hid |- *. congruence.
  - intros Hall. split.
    + apply set_eq. intros port. rewrite (ok_ports s Hs). split; [|set_solver].
      intros (c & cn & Hc & Hp). by rewrite (Hall _ _ Hc) in Hp.
    + apply map_empty. intros relayID. destruct (hb_registry s !! relayID) as [c|] eqn:Hl; [|done].
      destruct (ok_registry s Hs _ _ Hl) as (cn & Hc & Hj). by rewrite (Hall _ _ Hc) in Hj.
Qed.

(** An old session never takes the place of a newer one.  A step of a
    connection leaves every entry another connection owns, unless it installs
    a freshly registered tunnel under that very ID; and when the broker no
    longer knows an ID whose slot another tunnel owns, the session that lost
    it is closed without registering again. *)
Lemma newer_tunnel_kept c a s s' out :
  hubStep c a s = Some (s', out) →
  (∀ relayID c', hb_registry s !! relayID = Some c' → c' ≠ c →
     hb_registry s' !! relayID = Some c' ∨
     a = DoSession true ∧ hb_registry s' !! relayID = Some c ∧
     ∃ t, hb_conns s' !! c = Some (CTunnel Serving t) ∧ tn_relayID t = relayID) ∧
  (∀ stage t relayID c', a = DoClaim → hb_conns s !! c = Some (CTunnel stage t) → tn_heartbeat t = HbLost relayID →
     hb_registry s !! relayID = Some c' → c' ≠ c →
     hb_registry s' = hb_registry s ∧ out = [] ∧
     ∃ t', hb_conns s' !! c = Some (CTunnel stage t') ∧ tn_sessionOpen t' = false ∧ tn_heartbeat t' = HbWait).
Proof.
  unfold hubStep. destruct (hb_conns s !! c) as [cn|] eqn:Hc.
  2: { destruct a; try done. intros [= <- <-]. split; [by left|]. done. }
  assert (Hclaim : ∀ id relayID c', hb_registry s !! relayID = Some c' → c' ≠ c →
    (claimTunnel id c (hb_registry s)).2 !! relayID = Some c').
  { intros id relayID c' Hl Hne. unfold claimTunnel.
    destruct (hb_registry s !! id) as [d|] eqn:Hd; [case_bool_decide; [|done]|]; cbn [snd];
      rewrite lookup_insert_ne; [done|congruence|done|congruence]. }
  assert (Hremove : ∀ id relayID c', hb_registry s !! relayID = Some c' → c' ≠ c →
    removeTunnel id c (hb_registry s) !! relayID = Some c').
  { intros id relayID c' Hl Hne. unfold removeTunnel. case_bool_decide as Hd; [|done].
    rewrite lookup_delete_ne; [done|congruence]. }
  intros Hstep.
  assert (∃ alloc reg cn', connStep c a (hb_alloc s) (hb_registry s) cn = Some (alloc, reg, cn', out) ∧
    s' = {| hb_alloc := alloc; hb_registry := reg; hb_conns := <[c := cn']> (hb_conns s) |}) as (alloc & reg & cn' & Hcs & ->).
  { destruct a; try done; destruct (connStep _ _ _ _ _) as [[[[alloc reg] cn'] out']|]; try done;
      injection Hstep as <- <-; eauto. }
  clear Hstep. cbn [hb_registry hb_conns]. split.
  - intros relayID c' Hl Hne.
    destruct a, cn; try done; cbn [connStep handleControl heartbeatLoop reregister run] in Hcs.
    all: try (left; try destruct stage; simplify_eq; repeat (case_match; simplify_eq; try done); done).
    + destruct ok; simplify_eq; [|by left].
      destruct (decide (relayID = reg_RelayID registration)) as [->|Hn].
      * right. unfold addTunnel. rewrite !lookup_insert_eq. eauto.
      * left. unfold addTunnel. by rewrite lookup_insert_ne.
    + left. destruct (tn_heartbeat t) as [|id| | |]; try done. specialize (Hclaim id relayID c' Hl Hne).
      destruct (claimTunnel _ _ _). by simplify_eq.
    + left. destruct (tn_heartbeat t); try done. simplify_eq. by apply Hremove.
    + left. destruct (tn_heartbeat t) as [| | | |id]; try done. specialize (Hclaim id relayID c' Hl Hne).
      destruct (claimTunnel _ _ _). by simplify_eq.
    + left. destruct stage; try done. simplify_eq. by apply Hremove.
  - intros stage t relayID c' -> [= ->] Hhb Hl Hne. cbn [connStep handleControl heartbeatLoop reregister run] in Hcs. rewrite Hhb in Hcs.
    unfold claimTunnel in Hcs. rewrite Hl in Hcs. rewrite bool_decide_eq_false_2 in Hcs by done. simplify_eq.
    split_and!; [done|done|]. eexists. by rewrite lookup_insert_eq.
Qed.
End hub.

(** * Runs *)
Lemma hubRun_app h evs evs' : ∀ s, hubRun h (evs ++ evs') s =
  '(s, out) ← hubRun h evs s; '(s, more) ← hubRun h evs' s; Some (s, out ++ more).
Proof.
  induction evs as [|[c a] evs IH]; intros s; cbn [hubRun app].
  - cbn. by destruct (hubRun h evs' s) as [[]|].
  - destruct (hubStep h c a s) as [[s1 out1]|]; [|done]. cbn. rewrite IH.
    destruct (hubRun h evs s1) as [[s2 out2]|]; [|done]. cbn.
    destruct (hubRun h evs' s2) as [[s3 out3]|]; [|done]. cbn. by rewrite app_assoc.
Qed.

Definition exampleAlloc : PortAllocator := {| pa_start := 20000; pa_end := 20003; pa_next := 20000; pa_inUse := ∅ |}.

(** The handshake of [c] up to its registration, and from there on. *)
Definition handshake (c : nat) (r : RelayRegistration) : list (nat * hubAction) :=
  pair c <$> [DoAccept; DoHello (Some exampleHello) (λ _, true); DoListen true; DoRegister (bytes "198.51.100.9:5555") (Ok r)].
Definition establish (c : nat) : list (nat * hubAction) := pair c <$> [DoAck true; DoSession true].

Definition leaseOf (lease : string) : RelayRegistration := {| reg_RelayID := "relay_x"; reg_LeaseToken := lease |}.

(** The broker forgets the relay and gives it another ID. *)
Definition rekeyRun : list (nat * hubAction) :=
  handshake 0 (leaseOf "a") ++ establish 0 ++
  (pair 0%nat <$> [DoHeartbeat (Err ErrRelayNotFound); DoClaim;
                   DoReregister (Ok {| reg_RelayID := "relay_y"; reg_LeaseToken := "b" |}); DoClient]).

Lemma hub_books_witness :
  ∃ s out, hubRun exampleHub rekeyRun (newHub exampleAlloc) = Some (s, out) ∧
    ∀ relayID c, hb_registry s !! relayID = Some c → ∃ t, lookupTunnel relayID s = Some t ∧
      (tn_relayID t = relayID ∨ tn_heartbeat t = HbRekeyed relayID (tn_relayID t)).
Proof.
  destruct (hubRun exampleHub rekeyRun (newHub exampleAlloc)) as [[s out]|] eqn:E; [|exfalso; vm_compute in E; discriminate E].
  exists s, out. split; [reflexivity|].
  exact (proj1 (proj2 (proj2 (proj2 (hub_books exampleHub 20000 20003 exampleAlloc rekeyRun s out eq_refl E))))).
Defined.

(** B replaces A while the broker forgets A's lease: A is told, and retires. *)
Definition staleRun : list (nat * hubAction) :=
  handshake 0 (leaseOf "a") ++ establish 0 ++ handshake 1 (leaseOf "b") ++ establish 1 ++
  [(0%nat, DoHeartbeat (Err ErrRelayNotFound))].

Lemma newer_tunnel_kept_witness :
  ∃ s out s', hubRun exampleHub staleRun (newHub exampleAlloc) = Some (s, out) ∧
    hubStep exampleHub 0 DoClaim s = Some (s', []) ∧ hb_registry s' = hb_registry s ∧ hb_registry s !! "relay_x"%string = Some 1%nat.
Proof.
  destruct (hubRun exampleHub staleRun (newHub exampleAlloc)) as [[s out]|] eqn:E; [|exfalso; vm_compute in E; discriminate E].
  assert (hb_registry s !! "relay_x"%string = Some 1%nat ∧ ∃ t, hb_conns s !! 0%nat = Some (CTunnel Serving t) ∧
    tn_heartbeat t = HbLost "relay_x" ∧ ∃ s' o, hubStep exampleHub 0 DoClaim s = Some (s', o)) as (Hr & t & Hc & Hh & s' & o & Hs).
  { vm_compute in E. injection E as <- _. split; [vm_compute; reflexivity|]. eexists. split; [vm_compute; reflexivity|].
    split; [reflexivity|]. do 2 eexists. vm_compute. reflexivity. }
  exists s, out, s'. split; [reflexivity|].
  destruct (proj2 (newer_tunnel_kept exampleHub 0 DoClaim s s' o Hs) Serving t "relay_x"%string 1%nat eq_refl Hc Hh Hr)
    as (H1 & -> & _); [discriminate|]. exact (conj Hs (conj H1 Hr)).
Defined.

(** B's handshake overtakes A's between A's registration and A's installation;
    A then loses its connection. *)
Definition overtakenRun : list (nat * hubAction) :=
  handshake 0 (leaseOf "a") ++ handshake 1 (leaseOf "b") ++ establish 1 ++ establish 0 ++
  (pair 0%nat <$> [DoSessionLost; DoStop; DoRelease; DoRemove]).

(** The installation of a tunnel is not ordered like its registration.
    When a reconnecting relay's second session registers after the first and
    is installed before it, the first overwrites its entry, and the teardown
    of the first deletes it: the second session, whose lease is the current
    one, goes on serving and heartbeating, but no number of successful
    heartbeats brings it back into the registry, so the punch coordinator
    answers that the relay is not connected. *)
Lemma overtaken_session_orphaned n :
  ∃ s out t, hubRun exampleHub (overtakenRun ++ replicate n (1%nat, DoHeartbeat (Ok tt))) (newHub exampleAlloc) = Some (s, out) ∧
    hb_conns s !! 1%nat = Some (CTunnel Serving t) ∧ tn_sessionOpen t = true ∧ tn_streamTyping t = true ∧
    tn_relayID t = "relay_x"%string ∧ tn_leaseToken t = "b"%string ∧ lookupTunnel "relay_x" s = None.
Proof.
  assert (∃ s out t, hubRun exampleHub overtakenRun (newHub exampleAlloc) = Some (s, out) ∧
    (hb_conns s !! 1%nat = Some (CTunnel Serving t) ∧ tn_heartbeat t = HbWait) ∧ tn_sessionOpen t = true ∧ tn_streamTyping t = true ∧
    tn_relayID t = "relay_x"%string ∧ tn_leaseToken t = "b"%string ∧ lookupTunnel "relay_x" s = None)
    as (s & out & t & Hrun & [Hc Hw] & Hrest).
  { destruct (hubRun exampleHub overtakenRun (newHub exampleAlloc)) as [[s out]|] eqn:E; [|exfalso; vm_compute in E; discriminate E].
    exists s, out. vm_compute in E. injection E as <- _. eexists. split; [reflexivity|].
    split; [split; [vm_compute; reflexivity|reflexivity]|]. by vm_compute. }
  assert (Hbeat : ∀ n, ∃ more, hubRun exampleHub (replicate n (1%nat, DoHeartbeat (Ok tt))) s = Some (s, more)).
  { clear n. induction n as [|n [more IH]]; [by exists []|]. cbn [replicate hubRun].
    assert (hubStep exampleHub 1 (DoHeartbeat (Ok tt)) s = Some (s, [OutHeartbeat (tn_relayID t) (tn_leaseToken t)])) as ->.
    { unfold hubStep. rewrite Hc. cbn [connStep handleControl heartbeatLoop reregister run]. rewrite Hw. cbn. do 2 f_equal.
      replace (setHeartbeat t HbWait) with t by (destruct t; cbn in *; by subst).
      rewrite insert_id by done. by destruct s. }
    cbn. rewrite IH. cbn. eauto. }
  destruct (Hbeat n) as [more Hmore]. exists s, (out ++ more), t. rewrite hubRun_app, Hrun. cbn [mbind option_bind].
  rewrite Hmore. split; [reflexivity|split; [exact Hc|exact Hrest]].
Qed.

(** * The relay's side of the connection *)
(** The stream the hub opens for a client, and the one for a control frame. *)
Definition clientStream (streamTyping : bool) (data : list byte) : list byte :=
  (if streamTyping then [StreamTypeData] else []) ++ data.
Definition controlStream (frame : list byte) : list byte := StreamTypeControl :: frame.

Inductive accepted := AcceptClient (data : list byte) | AcceptControl (data : list byte) | AcceptNothing.

(** [handleAccepted] *)
Definition handleAccepted (typed : bool) (stream : list byte) : accepted :=
  if negb typed then AcceptClient stream else
  match stream with
  | [] => AcceptNothing
  | b :: data =>
      if bool_decide (b = StreamTypeData) then AcceptClient data
      else if bool_decide (b = StreamTypeControl) then AcceptControl data
      else AcceptNothing
  end.

(** Both ends take the typing from the hello, so no byte of a client is lost or
    added, and a control stream is never taken for a client's. *)
Lemma streams_dispatched h hello port relayID data :
  let typed := ha_StreamTyping (helloAck h hello port relayID) in
  handleAccepted typed (clientStream (hf_StreamTyping hello) data) = AcceptClient data ∧
  (hf_StreamTyping hello = true → handleAccepted typed (controlStream data) = AcceptControl data).
Proof. cbn. by destruct (hf_StreamTyping hello). Qed.

(** [Client.Run]: how long it waits after a session of [uptime], and the
    backoff it keeps. *)
Definition tunnelStableThreshold : Z := minute.
Definition reconnectWait (reconnectMin reconnectMax uptime backoff : Z) : Z * Z :=
  let backoff := if tunnelStableThreshold <=? uptime then reconnectMin else backoff in
  let next := wrap64 (backoff * 2) in
  (backoff, if reconnectMax <? next then reconnectMax else next).

Fixpoint reconnectWaits (reconnectMin reconnectMax : Z) (uptimes : list Z) (backoff : Z) : list Z :=
  match uptimes with
  | [] => []
  | uptime :: uptimes =>
      let '(wait, backoff) := reconnectWait reconnectMin reconnectMax uptime backoff in
      wait :: reconnectWaits reconnectMin reconnectMax uptimes backoff
  end.

(** Every wait lies between the two limits; a session that held for a minute is
    followed by the shortest. *)
Lemma reconnectWaits_bounds (reconnectMin reconnectMax : Z) (uptimes : list Z) : ∀ backoff : Z,
  0 < reconnectMin ≤ reconnectMax → reconnectMax < 2 ^ 62 → reconnectMin ≤ backoff ≤ reconnectMax →
  Forall (λ w : Z, reconnectMin ≤ w ≤ reconnectMax) (reconnectWaits reconnectMin reconnectMax uptimes backoff).
Proof.
  induction uptimes as [|uptime uptimes IH]; intros backoff Hm Hx Hb; cbn [reconnectWaits]; [done|].
  unfold reconnectWait. set (b := if tunnelStableThreshold <=? uptime then reconnectMin else backoff).
  assert (reconnectMin ≤ b ≤ reconnectMax) by (unfold b; cmp_lia).
  constructor; [done|]. apply IH; [done|done|]. rewrite wrap64_id by (unfold in_int64, int64_min, int64_max; lia). cmp_lia.
Qed.
