(* ===== verification/PunchHub.v ===== *)
(** The punch rendezvous: the hub's coordinator
    (src/libs/openrung/internal/tunnel/punch.go) and the sessions of the two
    peers (src/libs/openrung/internal/punch/session.go).

    A request holds its in-flight slot while the relay answers, so the handler
    is two steps, [beginRequest] and [finishRequest], and what happens between
    them is up to the scheduler. *)
From stdpp Require Import base list gmap strings.
From Stdlib Require Import ZArith Lia.
From S2P Require Import Prelude Codec Netip Ticket RelayIdentity Ranking RateLimit Punch Tunnel.

(** * Messages *)
Record PunchRequest := {
  pr_RelayID : string;
  pr_ClientNonce : string;
  pr_ClientReflexive : list Endpoint;
  pr_ClientLocal : list Endpoint;
  pr_ClientClass : string;
  pr_QUICALPN : string;
  pr_ProtoVersion : Z
}.

Record PunchDirective := {
  pd_SessionID : string;
  pd_RelayID : string;
  pd_ClientReflexive : list Endpoint;
  pd_ClientLocal : list Endpoint;
  pd_ClientClass : string;
  pd_PunchToken : string;
  pd_ReflectorAddrs : list string;
  pd_TTLMillis : Z;
  pd_QUICALPN : string;
  pd_ProtoVersion : Z
}.

Record PunchAck := {
  pa_SessionID : string;
  pa_OK : bool;
  pa_VolunteerReflexive : list Endpoint;
  pa_VolunteerLocal : list Endpoint;
  pa_VolunteerClass : string;
  pa_CertFingerprint : string;
  pa_Error : string
}.

Record PunchResponse := {
  rs_OK : bool;
  rs_Error : string;
  rs_SessionID : string;
  rs_VolunteerReflexive : list Endpoint;
  rs_VolunteerLocal : list Endpoint;
  rs_VolunteerClass : string;
  rs_PunchToken : string;
  rs_CertFingerprint : string;
  rs_TTLMillis : Z
}.

Definition ProtoVersion : Z := 1.
Definition DefaultPunchTTL : Z := 6 * second.
Definition DefaultTTL : Z := 6 * second.
Definition hubPolicy : Policy := DesktopPolicy.

Definition refuse (status : Z) (error : string) : Z * PunchResponse :=
  (status, {| rs_OK := false; rs_Error := error; rs_SessionID := ""; rs_VolunteerReflexive := []; rs_VolunteerLocal := [];
              rs_VolunteerClass := ""; rs_PunchToken := ""; rs_CertFingerprint := ""; rs_TTLMillis := 0 |}).

(** * In-flight requests *)
Record inflightCap := { perRelay : gmap string Z; perIP : gmap string Z }.
Definition maxRelay : Z := 4.
Definition maxIP : Z := 8.

(** A missing key reads as zero. *)
Definition countOf (m : gmap string Z) (k : string) : Z := default 0 (m !! k).

Definition acquireUpTo (maxRelay maxIP : Z) (relay ip : string) (f : inflightCap) : bool * inflightCap :=
  if (maxRelay <=? countOf (perRelay f) relay) || (maxIP <=? countOf (perIP f) ip) then (false, f)
  else (true, {| perRelay := <[relay := countOf (perRelay f) relay + 1]> (perRelay f);
                 perIP := <[ip := countOf (perIP f) ip + 1]> (perIP f) |}).

(** The limits of a coordinator. *)
Definition acquire : string → string → inflightCap → bool * inflightCap := acquireUpTo maxRelay maxIP.

Definition decrement (k : string) (m : gmap string Z) : gmap string Z :=
  let n := countOf m k - 1 in if n <=? 0 then delete k m else <[k := n]> m.

Definition release (relay ip : string) (f : inflightCap) : inflightCap :=
  {| perRelay := decrement relay (perRelay f); perIP := decrement ip (perIP f) |}.

(** * The coordinator *)
Section coordinator.
Context {F : Type} {float : Float64 F} `{!MapRange string Endpoint}.
(** HMAC-SHA256, and the secret of the process. *)
Context (hmac : list byte → list byte → list byte) (secret : list byte).
Context (reflectorAddrs : list string) (ttl : Z).
#[local] Set Default Proof Using "Type".

Record PunchCoordinator := { co_limiter : punchLimiter F; co_inflight : inflightCap }.

(** [newPunchLimiter(5, 10)] and [newInflightCap(4, 8)]. *)
Definition NewPunchCoordinator : PunchCoordinator :=
  {| co_limiter := {| pl_buckets := ∅; pl_lastPrune := zero_time |}; co_inflight := {| perRelay := ∅; perIP := ∅ |} |}.

Record pendingPunch := { pp_ip : string; pp_directive : PunchDirective }.

(** The reflexive endpoints and the class of the client, from the reflector's
    own observations. *)
Definition clientSeen (nonce : string) (obs : observations) : list Endpoint * string :=
  match k ← NonceKey nonce; Classify k obs with
  | Some (class, reflexive) => (SanitizePeers hubPolicy reflexive, class)
  | None => ([], ClassUnknown)
  end.

Definition directive (req : PunchRequest) (obs : observations) (sessionID : string) : PunchDirective :=
  let '(clientReflexive, clientClass) := clientSeen (pr_ClientNonce req) obs in
  {| pd_SessionID := sessionID; pd_RelayID := pr_RelayID req; pd_ClientReflexive := clientReflexive;
     pd_ClientLocal := SanitizePeers hubPolicy (pr_ClientLocal req); pd_ClientClass := clientClass;
     pd_PunchToken := EncodeToken (ComputeToken hmac secret sessionID (pr_RelayID req) (pr_ClientNonce req));
     pd_ReflectorAddrs := reflectorAddrs; pd_TTLMillis := milliseconds ttl; pd_QUICALPN := ALPN;
     pd_ProtoVersion := ProtoVersion |}.

(** [handleRequest] up to the directive.  [req] is [None] for an undecodable
    body, [lookup] the tunnel found for the relay ID, [random] the 16 bytes of
    the session ID. *)
Definition beginRequest (ip : string) (req : option PunchRequest) (now : Z) (lookup : option tunnel) (obs : observations)
    (random : option (list byte)) (c : PunchCoordinator) : PunchCoordinator * (Z * PunchResponse + pendingPunch) :=
  match req with
  | None => (c, inl (refuse 400 "invalid request"))
  | Some req =>
      if str_empty (pr_RelayID req) || str_empty (pr_ClientNonce req)
      then (c, inl (refuse 400 "relay_id and client_nonce required")) else
      if negb (str_empty (pr_QUICALPN req)) && negb (str_eqb (pr_QUICALPN req) ALPN)
      then (c, inl (refuse 400 "unsupported alpn")) else
      let key := text (bytes ip ++ bytes "|" ++ bytes (pr_RelayID req)) in
      let '(ok, limiter) := punchAllow (of_int 5) (of_int 10) key now (co_limiter c) in
      let c := {| co_limiter := limiter; co_inflight := co_inflight c |} in
      if negb ok then (c, inl (refuse 429 "rate limited")) else
      let '(ok, inflight) := acquire (pr_RelayID req) ip (co_inflight c) in
      if negb ok then (c, inl (refuse 429 "too many in-flight punch sessions")) else
      let released := {| co_limiter := limiter; co_inflight := release (pr_RelayID req) ip inflight |} in
      match lookup with
      | None => (released, inl (refuse 404 "relay not connected"))
      | Some t =>
          if negb (tn_streamTyping t) then (released, inl (refuse 409 "relay not punch capable")) else
          match random with
          | None => (released, inl (refuse 500 "internal error"))
          | Some random =>
              ({| co_limiter := limiter; co_inflight := inflight |},
               inr {| pp_ip := ip; pp_directive := directive req obs (text (hexEncode random)) |})
          end
      end
  end.

(** ** The exchange with the relay *)
Inductive sendError := ErrRelayNotConnected | ErrPunchUnsupported | ErrSend.

Context (MarshalDirective : PunchDirective → option (list byte)) (UnmarshalAck : list byte → option PunchAck).

(** [SendPunchDirective]: the tunnel found at send time, whether the session
    opens a stream and takes what is written, and what the relay answers on
    it.  The bytes written come with the result. *)
Definition SendPunchDirective (lookup : option tunnel) (opens writes : bool) (dir : PunchDirective) (answer : list byte)
    : list byte * result sendError PunchAck :=
  match lookup with
  | None => ([], Err ErrRelayNotConnected)
  | Some t =>
      if negb (tn_streamTyping t) then ([], Err ErrPunchUnsupported) else
      if negb opens then ([], Err ErrSend) else
      match writeFrame MarshalDirective dir with
      | Err _ => ([StreamTypeControl], Err ErrSend)
      | Ok frame =>
          if negb writes then ([], Err ErrSend) else
          (controlStream frame,
           match readFrame UnmarshalAck answer with Ok (ack, _) => Ok ack | Err _ => Err ErrSend end)
      end
  end.

(** The answer to the client. *)
Definition answerClient (dir : PunchDirective) (res : result sendError PunchAck) : Z * PunchResponse :=
  match res with
  | Err ErrRelayNotConnected => refuse 404 "relay not connected"
  | Err ErrPunchUnsupported => refuse 409 "relay not punch capable"
  | Err ErrSend => refuse 200 "relay unreachable"
  | Ok ack =>
      if negb (pa_OK ack) then refuse 200 ("relay declined: " ++ pa_Error ack) else
      if str_eqb (pd_ClientClass dir) ClassSymmetric && str_eqb (pa_VolunteerClass ack) ClassSymmetric
      then refuse 200 "skip: both symmetric"
      else (200, {| rs_OK := true; rs_Error := ""; rs_SessionID := pd_SessionID dir;
                    rs_VolunteerReflexive := pa_VolunteerReflexive ack; rs_VolunteerLocal := pa_VolunteerLocal ack;
                    rs_VolunteerClass := pa_VolunteerClass ack; rs_PunchToken := pd_PunchToken dir;
                    rs_CertFingerprint := pa_CertFingerprint ack; rs_TTLMillis := milliseconds ttl |})
  end.

(** The rest of [handleRequest], with its deferred release. *)
Definition finishRequest (p : pendingPunch) (res : result sendError PunchAck) (c : PunchCoordinator)
    : PunchCoordinator * (Z * PunchResponse) :=
  ({| co_limiter := co_limiter c; co_inflight := release (pd_RelayID (pp_directive p)) (pp_ip p) (co_inflight c) |},
   answerClient (pp_directive p) res).
End coordinator.
Arguments PunchCoordinator : clear implicits.

(** * The sessions *)
(** What an attempt is started with. *)
Record attemptPlan := { at_peers : list Endpoint; at_session : string; at_token : list byte; at_ttl : Z }.

(** [time.Duration(millis) * time.Millisecond], and its default. *)
Definition ttlOf (millis : Z) : Z :=
  let ttl := wrap64 (millis * millisecond) in if ttl <=? 0 then DefaultTTL else ttl.

Section sessions.
Context `{!MapRange string Endpoint} (ResolveUDPAddr : string → option UDPAddr).
#[local] Set Default Proof Using "Type".

(** What the relay's host answers: the socket, the random nonce, discovery, the
    interfaces ([LocalCandidates]) and the session certificate. *)
Record responderEnv := {
  rv_sock : bool;
  rv_nonce : option (list byte);
  rv_gatherStart : Z;
  rv_gather : nat → gatherRound;
  rv_local : list Endpoint;
  rv_cert : option string
}.

Definition declined (dir : PunchDirective) (reason : string) : PunchAck * option attemptPlan :=
  ({| pa_SessionID := pd_SessionID dir; pa_OK := false; pa_VolunteerReflexive := []; pa_VolunteerLocal := [];
      pa_VolunteerClass := ""; pa_CertFingerprint := ""; pa_Error := reason |}, None).

(** [RespondToDirective]: the ack, and the attempt it starts in the background. *)
Definition RespondToDirective (env : responderEnv) (dir : PunchDirective) : PunchAck * option attemptPlan :=
  match DecodeToken (pd_PunchToken dir) with
  | None => declined dir "bad token"
  | Some token =>
      if negb (rv_sock env) then declined dir "socket" else
      match rv_nonce env with
      | None => declined dir "nonce"
      | Some nonceRaw =>
          let '(_, class, gathered) :=
            Gather ResolveUDPAddr DesktopPolicy (pd_ReflectorAddrs dir) nonceRaw (rv_gatherStart env) (rv_gather env) in
          let reflexive := match gathered with Ok eps => eps | Err _ => [] end in
          if bool_decide (reflexive = []) && bool_decide (rv_local env = []) then declined dir "discovery" else
          match rv_cert env with
          | None => declined dir "cert"
          | Some fingerprint =>
              ({| pa_SessionID := pd_SessionID dir; pa_OK := true; pa_VolunteerReflexive := reflexive;
                  pa_VolunteerLocal := rv_local env; pa_VolunteerClass := class; pa_CertFingerprint := fingerprint;
                  pa_Error := "" |},
               Some {| at_peers := pd_ClientReflexive dir ++ pd_ClientLocal dir; at_session := pd_SessionID dir;
                       at_token := token; at_ttl := ttlOf (pd_TTLMillis dir) |})
          end
      end
  end.

(** What the client's host, the hub and the network answer. *)
Record dialerEnv := {
  de_config : option (list string);
  de_sock : bool;
  de_nonce : option (list byte);
  de_gatherStart : Z;
  de_gather : nat → gatherRound;
  de_local : list Endpoint;
  de_hub : PunchRequest → option PunchResponse;
  de_now : Z;
  de_rounds : list round;
  de_quic : bool;
  de_bridge : bool
}.

(** The peer of an established path or the reason for telemetry, the datagrams
    of the attempt, and whether the socket is still open. *)
Record establishment := { es_result : result string UDPAddr; es_sent : list datagram; es_sockOpen : bool }.

Definition failed (reason : string) (sent : list datagram) : establishment :=
  {| es_result := Err reason; es_sent := sent; es_sockOpen := false |}.

(** The request a client makes of what it gathered. *)
Definition clientRequest (relayID nonceHex class : string) (reflexive local : list Endpoint) : PunchRequest :=
  {| pr_RelayID := relayID; pr_ClientNonce := nonceHex; pr_ClientReflexive := reflexive; pr_ClientLocal := local;
     pr_ClientClass := class; pr_QUICALPN := ALPN; pr_ProtoVersion := ProtoVersion |}.

(** The attempt of a client that was answered [resp]. *)
Definition clientPlan (resp : PunchResponse) : option attemptPlan :=
  token ← DecodeToken (rs_PunchToken resp);
  Some {| at_peers := rs_VolunteerReflexive resp ++ rs_VolunteerLocal resp; at_session := rs_SessionID resp;
          at_token := token; at_ttl := ttlOf (rs_TTLMillis resp) |}.

(** An attempt carried out under the desktop policy. *)
Definition runPlan (plan : attemptPlan) (now : Z) (rounds : list round) : list datagram * option attemptResult :=
  Attempt DesktopPolicy (at_peers plan) (at_session plan) (at_token plan) (time_add now (at_ttl plan)) now rounds.

(** [Dialer.Establish] *)
Definition Establish (relayID : string) (env : dialerEnv) : establishment :=
  match de_config env with
  | None => failed "config" []
  | Some addrs =>
      if negb (de_sock env) then failed "socket" [] else
      match de_nonce env with
      | None => failed "nonce" []
      | Some nonceRaw =>
          let '(nonceHex, nonceRaw) := GenerateNonce nonceRaw in
          let '(_, class, gathered) :=
            Gather ResolveUDPAddr DesktopPolicy addrs nonceRaw (de_gatherStart env) (de_gather env) in
          let reflexive := match gathered with Ok eps => eps | Err _ => [] end in
          if bool_decide (reflexive = []) && bool_decide (de_local env = []) then failed "discovery" [] else
          match de_hub env (clientRequest relayID nonceHex class reflexive (de_local env)) with
          | None => failed "request" []
          | Some resp =>
              if negb (rs_OK resp) then failed ("declined:" ++ rs_Error resp) [] else
              match clientPlan resp with
              | None => failed "token" []
              | Some plan =>
                  let '(sent, res) := runPlan plan (de_now env) (de_rounds env) in
                  match res with
                  | Some (Confirmed peer) | Some (Provisional peer) =>
                      if negb (de_quic env) then failed "quic" sent else
                      if negb (de_bridge env) then failed "bridge" sent else
                      {| es_result := Ok peer; es_sent := sent; es_sockOpen := true |}
                  | _ => failed "punch" sent
                  end
              end
          end
      end
  end.
End sessions.

(** [handlePunchControl] of the relay: what it writes to the control stream, and
    the attempt it starts. *)
Section control.
Context `{!MapRange string Endpoint} (ResolveUDPAddr : string → option UDPAddr).
Context (UnmarshalDirective : list byte → option PunchDirective) (MarshalAck : PunchAck → option (list byte)).
#[local] Set Default Proof Using "Type".

Definition handlePunchControl (env : responderEnv) (stream : list byte) : list byte * option attemptPlan :=
  match readFrame UnmarshalDirective stream with
  | Err _ => ([], None)
  | Ok (dir, _) =>
      let '(ack, plan) := RespondToDirective ResolveUDPAddr env dir in
      (match writeFrame MarshalAck ack with Ok frame => frame | Err _ => [] end, plan)
  end.
End control.

(** * In-flight slots *)
Section inflight.
Context {F : Type} {float : Float64 F} `{!MapRange string Endpoint}.
Context (hmac : list byte → list byte → list byte) (secret : list byte) (reflectorAddrs : list string) (ttl : Z).
#[local] Set Default Proof Using "Type".

(** The handlers of a coordinator: one begins a request, under a fresh name, or
    finishes one that is waiting for its relay. *)
Inductive coordEvent :=
| Begin (ip : string) (req : option PunchRequest) (now : Z) (lookup : option tunnel) (obs : observations)
    (random : option (list byte))
| Finish (res : result sendError PunchAck).

Record coordState := { cs_coordinator : PunchCoordinator F; cs_pending : gmap nat pendingPunch }.

Definition coordStep (q : nat) (ev : coordEvent) (s : coordState) : option (coordState * option (Z * PunchResponse)) :=
  match ev, cs_pending s !! q with
  | Begin ip req now lookup obs random, None =>
      match beginRequest hmac secret reflectorAddrs ttl ip req now lookup obs random (cs_coordinator s) with
      | (c, inl answer) => Some ({| cs_coordinator := c; cs_pending := cs_pending s |}, Some answer)
      | (c, inr p) => Some ({| cs_coordinator := c; cs_pending := <[q := p]> (cs_pending s) |}, None)
      end
  | Finish res, Some p =>
      let '(c, answer) := finishRequest ttl p res (cs_coordinator s) in
      Some ({| cs_coordinator := c; cs_pending := delete q (cs_pending s) |}, Some answer)
  | _, _ => None
  end.

Fixpoint coordRun (evs : list (nat * coordEvent)) (s : coordState) : option coordState :=
  match evs with
  | [] => Some s
  | (q, ev) :: evs => '(s, _) ← coordStep q ev s; coordRun evs s
  end.

(** The requests waiting for a relay, and those of a client. *)
Definition waiting {P} (key : P → string) (k : string) (m : gmap nat P) : Z :=
  Z.of_nat (size (filter (λ qp, key qp.2 = k) m)).
Definition relayOf (p : pendingPunch) : string := pd_RelayID (pp_directive p).

(** A table of counts: what is not waited for has no row. *)
Definition counts {P} (key : P → string) (m : gmap nat P) (table : gmap string Z) : Prop :=
  ∀ k, countOf table k = waiting key k m ∧ (waiting key k m = 0 → table !! k = None).

Lemma waiting_insert {P} (key : P → string) k q p m : m !! q = None →
  waiting key k (<[q := p]> m) = waiting key k m + (if decide (key p = k) then 1 else 0).
Proof.
  intros Hq. unfold waiting. destruct (decide (key p = k)) as [Hk|Hk].
  - rewrite map_filter_insert_True by done. rewrite map_size_insert_None; [lia|].
    apply map_lookup_filter_None. by left.
  - rewrite map_filter_insert_False by done. rewrite delete_id by done. lia.
Qed.

Lemma waiting_delete {P} (key : P → string) k q p m : m !! q = Some p →
  waiting key k (delete q m) = waiting key k m - (if decide (key p = k) then 1 else 0).
Proof.
  intros Hq. rewrite <- (insert_delete_id m q p) at 2 by done.
  rewrite (waiting_insert key k q p (delete q m)) by apply lookup_delete_eq. lia.
Qed.

Lemma counts_insert {P} (key : P → string) q p m table : m !! q = None → counts key m table →
  counts key (<[q := p]> m) (<[key p := countOf table (key p) + 1]> table).
Proof.
  intros Hq Hc k. rewrite waiting_insert by done. destruct (Hc k) as [He Hn]. unfold countOf in *.
  destruct (decide (key p = k)) as [<-|Hk].
  - rewrite lookup_insert_eq. cbn. split; [lia|]. unfold waiting. lia.
  - rewrite lookup_insert_ne by done. split; [lia|]. intros. apply Hn. lia.
Qed.

Lemma counts_delete {P} (key : P → string) q p m table : m !! q = Some p → counts key m table →
  counts key (delete q m) (decrement (key p) table).
Proof.
  intros Hq Hc k. rewrite (waiting_delete key k q p) by done. destruct (Hc k) as [He Hn].
  assert (Hpos : 1 ≤ waiting key (key p) m).
  { unfold waiting. assert (size (filter (λ qp, key qp.2 = key p) m) ≠ 0%nat); [|lia].
    apply map_size_non_empty_iff. intros Hemp. apply (f_equal (lookup q)) in Hemp. rewrite lookup_empty in Hemp.
    rewrite (proj2 (map_lookup_filter_Some _ m q p)) in Hemp; done. }
  unfold decrement, countOf in *. cbv zeta.
  destruct (decide (key p = k)) as [<-|Hk].
  - destruct (Z.leb_spec (default 0 (table !! key p) - 1) 0).
    + rewrite lookup_delete_eq. cbn. split; [lia|done].
    + rewrite lookup_insert_eq. cbn. split; [lia|]. lia.
  - destruct (_ <=? 0).
    + rewrite lookup_delete_ne by done. split; [lia|]. intros. apply Hn. lia.
    + rewrite lookup_insert_ne by done. split; [lia|]. intros. apply Hn. lia.
Qed.

Record coordOK (s : coordState) : Prop := {
  co_relay : counts relayOf (cs_pending s) (perRelay (co_inflight (cs_coordinator s)));
  co_ip : counts pp_ip (cs_pending s) (perIP (co_inflight (cs_coordinator s)));
  co_max k : waiting relayOf k (cs_pending s) ≤ maxRelay ∧ waiting pp_ip k (cs_pending s) ≤ maxIP
}.

(** Giving back what was just taken. *)
Lemma countOf_insert_eq m k v : countOf (<[k := v]> m) k = v.
Proof. unfold countOf. by rewrite lookup_insert_eq. Qed.

Lemma decrement_increment k m : (countOf m k = 0 → m !! k = None) → 0 ≤ countOf m k →
  decrement k (<[k := countOf m k + 1]> m) = m.
Proof.
  intros Hz Hn. unfold decrement. cbv zeta. rewrite countOf_insert_eq. rewrite Z.add_simpl_r.
  destruct (Z.leb_spec (countOf m k) 0).
  - rewrite delete_insert_eq, delete_id; [done|]. apply Hz. lia.
  - rewrite insert_insert_eq. apply insert_id. unfold countOf in *. destruct (m !! k); cbn in *; [done|lia].
Qed.

Lemma coordStep_ok q ev s s' out : coordOK s → coordStep q ev s = Some (s', out) → coordOK s'.
Proof.
  intros [Hr Hi Hm]. unfold coordStep. destruct ev as [ip req now lookup obs random|res].
  - destruct (cs_pending s !! q) as [|] eqn:Hq; [done|].
    assert (Hsame : ∀ l f, f = co_inflight (cs_coordinator s) →
      coordOK {| cs_coordinator := {| co_limiter := l; co_inflight := f |}; cs_pending := cs_pending s |}).
    { by intros l f ->. }
    assert (Hc : coordOK {| cs_coordinator := cs_coordinator s; cs_pending := cs_pending s |}) by done.
    unfold beginRequest. destruct req as [req|]; [|by intros [= <- _]].
    destruct (_ || _); [by intros [= <- _]|]. destruct (_ && _); [by intros [= <- _]|].
    destruct (punchAllow _ _ _ _ _) as [[] limiter]; cbn [negb]; [|by intros [= <- _]; apply Hsame].
    unfold acquire, acquireUpTo at 1. cbn [co_inflight]. destruct (_ || _) eqn:Hfull; cbn [negb]; [by intros [= <- _]; apply Hsame|].
    rewrite orb_false_iff, !Z.leb_gt in Hfull. destruct Hfull as [Hf1 Hf2].
    set (f := {| perRelay := _; perIP := _ |}).
    assert (Hrel : release (pr_RelayID req) ip f = co_inflight (cs_coordinator s)).
    { unfold release, f. cbn [perRelay perIP]. destruct (Hr (pr_RelayID req)) as [E1 N1], (Hi ip) as [E2 N2].
      rewrite !decrement_increment; [by destruct (co_inflight (cs_coordinator s))|..]; try (rewrite ?E1, ?E2; unfold waiting; lia).
      - rewrite E2. exact N2.
      - rewrite E1. exact N1. }
    destruct lookup as [t|]; [|by intros [= <- _]; apply Hsame].
    destruct (negb _); [by intros [= <- _]; apply Hsame|]. destruct random as [random|]; [|by intros [= <- _]; apply Hsame].
    intros [= <- _]. set (p := {| pp_ip := ip; pp_directive := _ |}).
    assert (Hp : relayOf p = pr_RelayID req ∧ pp_ip p = ip).
    { unfold relayOf, p, directive. cbn [pp_directive pp_ip]. by destruct (clientSeen _ _). }
    destruct Hp as [Hp1 Hp2]. split; cbn [cs_pending cs_coordinator co_inflight].
    + unfold f. cbn [perRelay]. rewrite <- Hp1. by apply counts_insert.
    + unfold f. cbn [perIP]. rewrite <- Hp2. by apply counts_insert.
    + intros k. rewrite !waiting_insert by done. rewrite Hp1, Hp2. destruct (Hm k) as [M1 M2].
      destruct (Hr (pr_RelayID req)) as [E1 _], (Hi ip) as [E2 _]. split; case_decide as Hd; [rewrite <- Hd| |rewrite <- Hd|]; lia.
  - destruct (cs_pending s !! q) as [p|] eqn:Hq; [|done]. unfold finishRequest. intros [= <- _].
    split; cbn [cs_pending cs_coordinator co_inflight release perRelay perIP].
    + by apply (counts_delete relayOf q p).
    + by apply (counts_delete pp_ip q p).
    + intros k. rewrite !(waiting_delete _ _ q p) by done. destruct (Hm k). split; case_decide; lia.
Qed.

Lemma coordRun_ok evs : ∀ s s', coordOK s → coordRun evs s = Some s' → coordOK s'.
Proof.
  induction evs as [|[q ev] evs IH]; intros s s' Hs; cbn [coordRun]; [by intros [= <-]|].
  destruct (coordStep q ev s) as [[s1 out]|] eqn:E; [|done]. cbn. apply IH. by eapply coordStep_ok.
Qed.

Lemma newCoordinator_ok : coordOK {| cs_coordinator := NewPunchCoordinator; cs_pending := ∅ |}.
Proof.
  assert (Hz : ∀ (key : pendingPunch → string) k, waiting key k ∅ = 0).
  { intros key k. unfold waiting. by rewrite map_filter_empty, map_size_empty. }
  split; cbn [cs_pending cs_coordinator co_inflight perRelay perIP NewPunchCoordinator].
  - intros k. by rewrite Hz.
  - intros k. by rewrite Hz.
  - intros k. by rewrite !Hz.
Qed.
End inflight.
Arguments coordState : clear implicits.

(** The coordinator bounds what waits.  In every interleaving of requests and
    answers at most four requests wait for one relay and eight for one client
    address, the tables hold exactly the waiting requests, and a caller that
    is not served leaves nothing behind: when no request waits, both tables
    are empty. *)
Lemma inflight_bounded {F : Type} {float : Float64 F} `{!MapRange string Endpoint}
    hmac secret reflectorAddrs ttl evs (s : coordState F) :
  coordRun hmac secret reflectorAddrs ttl evs {| cs_coordinator := NewPunchCoordinator; cs_pending := ∅ |} = Some s →
  (∀ k, countOf (perRelay (co_inflight (cs_coordinator s))) k = waiting relayOf k (cs_pending s) ∧
        waiting relayOf k (cs_pending s) ≤ maxRelay) ∧
  (∀ k, countOf (perIP (co_inflight (cs_coordinator s))) k = waiting pp_ip k (cs_pending s) ∧
        waiting pp_ip k (cs_pending s) ≤ maxIP) ∧
  (cs_pending s = ∅ → co_inflight (cs_coordinator s) = {| perRelay := ∅; perIP := ∅ |}).
Proof.
  intros Hrun. destruct (coordRun_ok _ _ _ _ _ _ _ newCoordinator_ok Hrun) as [Hr Hi Hm]. split_and!.
  - intros k. split; [apply Hr|apply Hm].
  - intros k. split; [apply Hi|apply Hm].
  - intros He. rewrite He in Hr, Hi.
    assert (Hz : ∀ (key : pendingPunch → string) k, waiting key k ∅ = 0).
    { intros key k. unfold waiting. by rewrite map_filter_empty, map_size_empty. }
    destruct (co_inflight (cs_coordinator s)) as [a b]. cbn [perRelay perIP] in *.
    f_equal; apply map_empty; intros k; [apply (proj2 (Hr k))|apply (proj2 (Hi k))]; apply Hz.
Qed.

(** * Who is probed *)
(** A fresh socket's first spray. *)
Lemma attempt_first p peers sessionID token deadline now r rounds dst :
  dst ∈ probeTargets p peers → rd_clock r < deadline → rd_ctxErr r = false → now ≤ rd_now r →
  (dst, buildProbePacket probeMagic sessionID token) ∈ (Attempt p peers sessionID token deadline now (r :: rounds)).1.
Proof.
  intros Hd Hc He Hn. unfold Attempt. fold (probeTargets p peers).
  destruct (probeTargets p peers) as [|a addrs] eqn:Ha; [set_solver|]. rewrite <- Ha in *. clear a addrs Ha.
  cbn [attemptLoop]. unfold time_before at 1. rewrite (proj2 (Z.ltb_lt _ _)) by done. cbn [negb]. rewrite He.
  assert (time_before (rd_now r) now = false) as -> by (by apply Z.ltb_ge). cbn [negb].
  set (step := match rd_read r with Some _ => _ | None => _ end). destruct step as [[acks stop] provisional].
  assert (Hin : (dst, buildProbePacket probeMagic sessionID token) ∈
    (λ peer, (peer, buildProbePacket probeMagic sessionID token)) <$> probeTargets p peers).
  { apply list_elem_of_fmap. by exists dst. }
  destruct stop; [cbn [fst]; apply elem_of_app; by left|].
  destruct (attemptLoop _ _ _ _ _ _ _) as [more res]. cbn [fst]. apply elem_of_app. left. exact Hin.
Qed.

(** One reflexive candidate passes the desktop policy, whatever its address. *)
Lemma sanitize_srflx e a :
  ep_Kind e = KindSrflx → ParseIP (ep_IP e) = Some a → 1 ≤ ep_Port e ≤ 65535 →
  IsMulticast a = false → IsUnspecified a = false → SanitizePeers DesktopPolicy [e] = [e].
Proof.
  intros Hk Ha Hp Hm Hu. unfold SanitizePeers, dedupeEndpoints. cbn [dedupeFrom].
  assert (str_empty (ep_IP e) = false) as ->.
  { apply bool_decide_eq_false. intros He. by rewrite He in Ha. }
  rewrite (proj2 (Z.leb_gt _ _)) by lia. cbn [orb]. rewrite bool_decide_eq_false_2 by set_solver.
  cbn [sanitizeFrom]. rewrite Ha, Hm, Hu, Hk.
  rewrite (proj2 (Z.ltb_ge _ _)), (proj2 (Z.ltb_ge _ _)) by lia. done.
Qed.

Lemma probeTargets_srflx e a :
  ep_Kind e = KindSrflx → ParseIP (ep_IP e) = Some a → 1 ≤ ep_Port e ≤ 65535 →
  IsMulticast a = false → IsUnspecified a = false →
  {| ua_IP := a; ua_Port := ep_Port e |} ∈ probeTargets DesktopPolicy [e].
Proof.
  intros Hk Ha Hp Hm Hu. unfold probeTargets. rewrite (sanitize_srflx e a) by done.
  apply list_elem_of_omap. exists e. split; [by left|]. unfold endpointUDPAddr. rewrite Ha.
  by rewrite (proj2 (Z.ltb_ge _ _)), (proj2 (Z.ltb_ge _ _)) by lia.
Qed.

Section provenance.
Context `{!MapRange string Endpoint}.
Context (hmac : list byte → list byte → list byte) (secret : list byte) (reflectorAddrs : list string) (ttl : Z).
Context (ResolveUDPAddr : string → option UDPAddr).
#[local] Set Default Proof Using "Type".

Lemma RespondToDirective_plan env dir ack plan :
  RespondToDirective ResolveUDPAddr env dir = (ack, Some plan) →
  pa_OK ack = true ∧ at_peers plan = pd_ClientReflexive dir ++ pd_ClientLocal dir ∧
  at_session plan = pd_SessionID dir ∧ DecodeToken (pd_PunchToken dir) = Some (at_token plan) ∧
  at_ttl plan = ttlOf (pd_TTLMillis dir).
Proof.
  unfold RespondToDirective, declined. destruct (DecodeToken _) as [token|]; [|done].
  destruct (negb _); [done|]. destruct (rv_nonce env); [|done]. destruct (Gather _ _ _ _ _ _) as [[? class] gathered].
  destruct (_ && _); [done|]. destruct (rv_cert env); [|done]. by intros [= <- <-].
Qed.

(** Where a relay's probes go.  Following a directive the hub derives from a
    client's request and its reflector's observations, a relay probes only
    addresses from which the reflector accepted a request bearing that
    client's nonce, addresses that are not globally routable, and addresses
    the client itself listed as reflexive among its local candidates. *)
Lemma relay_probe_targets {F : Type} {float : Float64 F} (evs : list reflectorEvent) req sessionID env ack plan now rounds dg :
  (∀ m, length (hmac secret m) = TokenLen) → Z.of_nat (length (bytes sessionID)) < 65536 →
  let obs := rf_obs (reflectorRun (F := F) evs newReflector).1 in
  RespondToDirective ResolveUDPAddr env (directive hmac secret reflectorAddrs ttl req obs sessionID) = (ack, Some plan) →
  dg ∈ (runPlan plan now rounds).1 → isProbe (at_session plan) (at_token plan) dg = true →
  (∃ nonce e, NonceKey (pr_ClientNonce req) = Some nonce ∧ sawRequest evs nonce e ∧ endpointUDPAddr e = Some dg.1) ∨
  isGloballyRoutable (ua_IP dg.1) = false ∨
  (∃ e, e ∈ pr_ClientLocal req ∧ ep_Kind e = KindSrflx ∧ endpointUDPAddr e = Some dg.1).
Proof.
  intros Hmac Hlen obs Hresp Hdg Hprobe. apply RespondToDirective_plan in Hresp as (_ & Hpeers & Hsess & Htok & _).
  assert (Ht : length (at_token plan) = TokenLen).
  { unfold DecodeToken in Htok. destruct (hexDecode _) as [raw|]; [|done]. cbn in Htok.
    destruct (Nat.eqb_spec (length raw) TokenLen); [by simplify_eq|done]. }
  assert (Hs : at_session plan = sessionID) by (rewrite Hsess; unfold directive; by destruct (clientSeen _ _)).
  pose proof (attempt_facts DesktopPolicy (at_peers plan) (at_session plan) (at_token plan) (time_add now (at_ttl plan)) now rounds
    ltac:(done) Ht ltac:(by rewrite Hs)) as Hat.
  unfold runPlan in Hdg. destruct (Attempt _ _ _ _ _ _ _) as [out res]. destruct Hat as [Hout _]. cbn [fst] in Hdg.
  apply bool_decide_eq_true in Hprobe.
  destruct (Hout dg Hdg) as [[_ (e & He & Hmay)]|[Hack _]].
  2: { exfalso. rewrite Hack in Hprobe. apply (f_equal length) in Hprobe.
       unfold buildProbePacket in Hprobe. rewrite !length_app in Hprobe. cbn in Hprobe. lia. }
  destruct Hmay as (Hd & _ & _ & _ & Hkind). rewrite Hpeers in He. unfold directive in He.
  destruct (clientSeen (pr_ClientNonce req) obs) as [reflexive class] eqn:Hseen.
  cbn [pd_ClientReflexive pd_ClientLocal] in He. apply elem_of_app in He as [He|He].
  - left. unfold clientSeen in Hseen. destruct (NonceKey (pr_ClientNonce req)) as [nonce|] eqn:Hn; cbn in Hseen.
    2: { injection Hseen as <- _. set_solver. }
    destruct (Classify nonce obs) as [[cl eps]|] eqn:Hc; [|injection Hseen as <- _; set_solver].
    injection Hseen as <- _. exists nonce, e. split; [done|]. split; [|done].
    destruct (SanitizePeers_spec hubPolicy eps ltac:(done)) as (Hsub & _).
    eapply Classify_from; [apply newReflector_from|exact Hc|]. by eapply elem_of_sublist.
  - right. destruct Hkind as [[_ Hr]|[Hk _]]; [by left|right]. exists e. split; [|done].
    destruct (SanitizePeers_spec hubPolicy (pr_ClientLocal req) ltac:(done)) as (Hsub & _). by eapply elem_of_sublist.
Qed.
End provenance.

Section flaw.
Context `{!MapRange string Endpoint}.
Context (hmac : list byte → list byte → list byte) (secret : list byte) (reflectorAddrs : list string) (ttl : Z).
Context (ResolveUDPAddr : string → option UDPAddr).
#[local] Set Default Proof Using "Type".

(** Neither peer's candidates are what the reflector observed.  For any unicast
    address and port whatsoever: a client that lists it among its local
    candidates with the kind of a reflexive one makes the relay probe it,
    though the reflector has seen nothing; and a relay that acknowledges with
    it as its reflexive endpoint makes the client probe it. *)
Lemma unobserved_candidates_probed e a r rounds now :
  ep_Kind e = KindSrflx → ParseIP (ep_IP e) = Some a → 1 ≤ ep_Port e ≤ 65535 →
  IsMulticast a = false → IsUnspecified a = false → rd_ctxErr r = false → now ≤ rd_now r →
  let dst := {| ua_IP := a; ua_Port := ep_Port e |} in
  let probed plan := rd_clock r < now + at_ttl plan →
    (dst, buildProbePacket probeMagic (at_session plan) (at_token plan)) ∈ (runPlan plan now (r :: rounds)).1 in
  (∀ req sessionID env ack plan, pr_ClientLocal req = [e] →
     RespondToDirective ResolveUDPAddr env (directive hmac secret reflectorAddrs ttl req ∅ sessionID) = (ack, Some plan) →
     probed plan) ∧
  (∀ dir ack resp plan, pa_VolunteerReflexive ack = [e] → pa_VolunteerLocal ack = [] →
     answerClient ttl dir (Ok ack) = (200, resp) → clientPlan resp = Some plan → probed plan).
Proof.
  intros Hk Ha Hp Hm Hu He Hn dst probed.
  assert (Hplan : ∀ plan, at_peers plan = [e] → probed plan).
  { intros plan Hpeers Hc. unfold runPlan. rewrite Hpeers. apply attempt_first; [by apply probeTargets_srflx|done..]. }
  split.
  - intros req sessionID env ack plan Hloc Hresp. apply Hplan. apply RespondToDirective_plan in Hresp as (_ & -> & _).
    unfold directive, clientSeen. destruct (NonceKey (pr_ClientNonce req)); cbn; rewrite Hloc;
      rewrite ?lookup_empty; by apply (sanitize_srflx e a).
  - intros dir ack resp plan Href Hloc. unfold answerClient, refuse.
    destruct (negb (pa_OK ack)); [intros [= <-]; done|]. destruct (_ && _); [intros [= <-]; done|].
    intros [= <-]. unfold clientPlan. cbn [rs_PunchToken]. destruct (DecodeToken (pd_PunchToken dir)); [|done].
    intros [= <-]. apply Hplan. cbn. by rewrite Href, Hloc.
Qed.
End flaw.

(** * The rendezvous *)
Section rendezvous.
Context `{!MapRange string Endpoint}.
Context (hmac : list byte → list byte → list byte) (secret : list byte) (reflectorAddrs : list string) (ttl : Z).
Context (ResolveUDPAddr : string → option UDPAddr).
Context (MarshalDirective : PunchDirective → option (list byte)) (UnmarshalDirective : list byte → option PunchDirective).
Context (MarshalAck : PunchAck → option (list byte)) (UnmarshalAck : list byte → option PunchAck).
#[local] Set Default Proof Using "Type".

(** The two JSON codecs and HMAC-SHA256 are what they are documented to be. *)
Record wireOK : Prop := {
  wire_directive d p : MarshalDirective d = Some p → UnmarshalDirective p = Some d;
  wire_ack a p : MarshalAck a = Some p → UnmarshalAck p = Some a;
  wire_hmac m : length (hmac secret m) = TokenLen
}.

Lemma length_hexEncode bs : length (hexEncode bs) = (2 * length bs)%nat.
Proof. induction bs as [|b bs IH]; [done|]. unfold hexEncode in *. cbn. rewrite IH. lia. Qed.

(** A granted punch brings the two together.  When the hub's directive reaches a
    relay over its tunnel and the hub grants the client its punch, client and
    relay hold the same session, the same token and the same time budget; each
    probes what the other gathered; and each takes the other's probes and
    acknowledgements for what they are. *)
Lemma rendezvous (req : PunchRequest) obs random t env written answer res resp plan rest :
  wireOK → length random = 16%nat → tn_streamTyping t = true →
  let dir := directive hmac secret reflectorAddrs ttl req obs (text (hexEncode random)) in
  SendPunchDirective MarshalDirective UnmarshalAck (Some t) true true dir answer = (written, res) →
  (∀ data, handleAccepted true written = AcceptControl data →
     handlePunchControl ResolveUDPAddr UnmarshalDirective MarshalAck env data = (answer, plan)) →
  answerClient ttl dir res = (200, resp) → rs_OK resp = true →
  ∃ relayPlan peerPlan, plan = Some relayPlan ∧ clientPlan resp = Some peerPlan ∧
    at_session peerPlan = at_session relayPlan ∧ at_token peerPlan = at_token relayPlan ∧
    at_ttl peerPlan = at_ttl relayPlan ∧
    at_peers relayPlan = pd_ClientReflexive dir ++ pd_ClientLocal dir ∧
    at_peers peerPlan = rs_VolunteerReflexive resp ++ rs_VolunteerLocal resp ∧
    parseProbePacket (buildProbePacket probeMagic (at_session peerPlan) (at_token peerPlan) ++ rest)
      (at_session relayPlan) (at_token relayPlan) = probeKindProbe ∧
    parseProbePacket (buildProbePacket probeAckMagic (at_session relayPlan) (at_token relayPlan) ++ rest)
      (at_session peerPlan) (at_token peerPlan) = probeKindAck.
Proof.
  intros [Hd Hacks Hmac] Hrand Htyped dir Hsend Hrelay Hans Hok.
  assert (Hdir : pd_SessionID dir = text (hexEncode random) ∧ pd_TTLMillis dir = milliseconds ttl ∧
    DecodeToken (pd_PunchToken dir) = Some (ComputeToken hmac secret (text (hexEncode random)) (pr_RelayID req) (pr_ClientNonce req))).
  { unfold dir, directive. destruct (clientSeen _ _). cbn [pd_SessionID pd_TTLMillis pd_PunchToken].
    split_and!; [done..|]. apply DecodeToken_EncodeToken. apply Hmac. }
  destruct Hdir as (Hsid & Httl & Htok).
  assert (Hbad : ∀ e, res = Err e → False).
  { intros e ->. cbn [answerClient] in Hans. unfold refuse in Hans. destruct e; by simplify_eq. }
  unfold SendPunchDirective in Hsend. rewrite Htyped in Hsend. cbn [negb] in Hsend.
  destruct (writeFrame MarshalDirective dir) as [frame|] eqn:Hframe; [|injection Hsend as _ Hres; by destruct (Hbad ErrSend)].
  injection Hsend as <- Hres. specialize (Hrelay frame eq_refl).
  unfold handlePunchControl in Hrelay.
  assert (readFrame UnmarshalDirective frame = Ok (dir, [])) as Hread.
  { rewrite <- (app_nil_r frame). by apply (frame_roundtrip MarshalDirective UnmarshalDirective dir frame []);
      [apply Hd|]. }
  rewrite Hread in Hrelay. destruct (RespondToDirective ResolveUDPAddr env dir) as [ack plan'] eqn:Hresp.
  injection Hrelay as Hanswer <-.
  destruct (writeFrame MarshalAck ack) as [af|] eqn:Haf; subst answer.
  2: { by destruct (Hbad ErrSend). }
  assert (readFrame UnmarshalAck af = Ok (ack, [])) as Hack.
  { rewrite <- (app_nil_r af). by apply (frame_roundtrip MarshalAck UnmarshalAck ack af []); [apply Hacks|]. }
  rewrite Hack in Hres. subst res. cbn [answerClient] in Hans. unfold refuse in Hans.
  destruct (negb (pa_OK ack)) eqn:Hpa; [by injection Hans as <-|].
  destruct (_ && _); [by injection Hans as <-|]. injection Hans as <-.
  destruct plan' as [relayPlan|].
  2: { exfalso. unfold RespondToDirective, declined in Hresp. rewrite Htok in Hresp.
       repeat (case_match; simplify_eq; try done). }
  apply RespondToDirective_plan in Hresp as (_ & Hpeers & Hsess & Htk & Httl').
  unfold clientPlan. cbn [rs_PunchToken rs_VolunteerReflexive rs_VolunteerLocal rs_SessionID rs_TTLMillis].
  rewrite Htk. cbn [mbind option_bind]. eexists relayPlan, _. split; [done|]. split; [done|].
  cbn [at_session at_token at_ttl at_peers]. rewrite Hsess. split_and!; [done|done|by rewrite Httl', Httl|done|done|..].
  all: apply parseProbePacket_build; [rewrite Htok in Htk; injection Htk as <-; apply Hmac|].
  all: rewrite Hsid, bytes_text, length_hexEncode, Hrand; done.
Qed.
End rendezvous.

(** * Examples *)
#[global] Instance PunchDirective_eq_dec : EqDecision PunchDirective.
Proof. solve_decision. Defined.
#[global] Instance PunchAck_eq_dec : EqDecision PunchAck.
Proof. solve_decision. Defined.

Definition exampleHmac (key m : list byte) : list byte := replicate 32 (chr (Z.of_nat (length m))).
Definition exampleTunnel : tunnel :=
  {| tn_port := 20000; tn_streamTyping := true; tn_registerReq := exampleRequest0; tn_relayID := "relay_x";
     tn_leaseToken := "b"; tn_heartbeat := HbWait; tn_conns := 0; tn_sessionOpen := true |}.
Definition exampleVictim : Endpoint := {| ep_IP := "8.8.8.8"; ep_Port := 53; ep_Kind := "srflx" |}.
Definition examplePunch (local : list Endpoint) : PunchRequest :=
  {| pr_RelayID := "relay_x"; pr_ClientNonce := "000102030405060708090a0b0c0d0e0f"; pr_ClientReflexive := [];
     pr_ClientLocal := local; pr_ClientClass := "eim"; pr_QUICALPN := ALPN; pr_ProtoVersion := 1 |}.
Definition exampleResponder : responderEnv :=
  {| rv_sock := true; rv_nonce := Some (replicate 16 (chr 3)); rv_gatherStart := 0;
     rv_gather := λ _, {| gr_now := 0; gr_ctxErr := false; gr_reads := [] |};
     rv_local := [{| ep_IP := "192.168.7.2"; ep_Port := 40000; ep_Kind := "host" |}]; rv_cert := Some "fp"%string |}.
Definition exampleRandom : list byte := replicate 16 (chr 11).
Definition exampleSession : string := text (hexEncode exampleRandom).
#[local] Existing Instance map_to_list_range.
#[local] Existing Instance exact.
Definition exampleDirective (local : list Endpoint) : PunchDirective :=
  directive exampleHmac [] ["203.0.113.1:9443"%string] (6 * second) (examplePunch local) ∅ exampleSession.
Definition examplePlan (local : list Endpoint) : attemptPlan :=
  {| at_peers := pd_ClientLocal (exampleDirective local); at_session := exampleSession;
     at_token := exampleHmac [] (bytes exampleSession ++ chr 124 :: bytes "relay_x" ++ chr 124 :: bytes "000102030405060708090a0b0c0d0e0f");
     at_ttl := 6 * second |}.
Definition exampleRound : round := {| rd_clock := 1; rd_ctxErr := false; rd_now := 1; rd_read := None |}.

Lemma inflight_bounded_witness :
  ∃ s, coordRun exampleHmac [] [] (6 * second)
      [(0%nat, Begin "198.51.100.9" (Some (examplePunch [])) 5 (Some exampleTunnel) ∅ (Some exampleRandom));
       (1%nat, Begin "198.51.100.9" (Some (examplePunch [])) 6 (Some exampleTunnel) ∅ (Some exampleRandom));
       (0%nat, Finish (Err ErrSend))]
      {| cs_coordinator := NewPunchCoordinator; cs_pending := ∅ |} = Some s ∧
    ∀ k, countOf (perRelay (co_inflight (cs_coordinator s))) k = waiting relayOf k (cs_pending s) ∧
         waiting relayOf k (cs_pending s) ≤ maxRelay.
Proof.
  match goal with |- ∃ s, coordRun ?a ?b ?c ?d ?evs ?s0 = _ ∧ _ =>
    destruct (coordRun a b c d evs s0) as [s|] eqn:E; [|exfalso; vm_compute in E; discriminate E] end.
  exists s. split; [reflexivity|]. exact (proj1 (inflight_bounded _ _ _ _ _ s E)).
Defined.

Lemma relay_probe_targets_witness :
  let dg := ({| ua_IP := V4 134744072; ua_Port := 53 |},
             buildProbePacket probeMagic exampleSession (at_token (examplePlan [exampleVictim]))) in
  (∃ nonce e, NonceKey "000102030405060708090a0b0c0d0e0f" = Some nonce ∧ sawRequest [] nonce e ∧ endpointUDPAddr e = Some dg.1) ∨
  isGloballyRoutable (ua_IP dg.1) = false ∨
  (∃ e, e ∈ [exampleVictim] ∧ ep_Kind e = KindSrflx ∧ endpointUDPAddr e = Some dg.1).
Proof.
  apply (relay_probe_targets exampleHmac [] ["203.0.113.1:9443"%string] (6 * second) (λ _, None) [] (examplePunch [exampleVictim])
    exampleSession exampleResponder (RespondToDirective (λ _, None) exampleResponder (exampleDirective [exampleVictim])).1
    (examplePlan [exampleVictim]) 0 [exampleRound]
    ({| ua_IP := V4 134744072; ua_Port := 53 |},
     buildProbePacket probeMagic exampleSession (at_token (examplePlan [exampleVictim])))).
  - intros m. apply length_replicate.
  - vm_compute. reflexivity.
  - vm_compute. reflexivity.
  - apply (list_elem_of_lookup_2 _ 0). vm_compute. reflexivity.
  - vm_compute. reflexivity.
Defined.

Lemma unobserved_candidates_probed_witness :
  ({| ua_IP := V4 134744072; ua_Port := 53 |},
   buildProbePacket probeMagic exampleSession (at_token (examplePlan [exampleVictim])))
    ∈ (runPlan (examplePlan [exampleVictim]) 0 [exampleRound]).1.
Proof.
  apply (proj1 (unobserved_candidates_probed exampleHmac [] ["203.0.113.1:9443"%string] (6 * second) (λ _, None) exampleVictim
    (V4 134744072) exampleRound [] 0 eq_refl eq_refl (conj (ltac:(apply Z.leb_le; reflexivity) : 1 ≤ 53) (ltac:(apply Z.leb_le; reflexivity) : 53 ≤ 65535))
    eq_refl eq_refl eq_refl (ltac:(apply Z.leb_le; reflexivity)))
    (examplePunch [exampleVictim]) exampleSession exampleResponder
    (RespondToDirective (λ _, None) exampleResponder (exampleDirective [exampleVictim])).1 (examplePlan [exampleVictim])).
  - reflexivity.
  - vm_compute. reflexivity.
  - vm_compute. reflexivity.
Defined.

Definition exampleAck : PunchAck := (RespondToDirective (λ _, None) exampleResponder (exampleDirective [])).1.

Lemma rendezvous_witness :
  let md := λ d, if decide (d = exampleDirective []) then Some [chr 1] else None in
  let ma := λ a, if decide (a = exampleAck) then Some [chr 2] else None in
  let answer := beBytes 4 1 ++ [chr 2] in
  let '(written, res) := SendPunchDirective md (λ _, Some exampleAck) (Some exampleTunnel) true true (exampleDirective []) answer in
  ∃ relayPlan peerPlan, Some (examplePlan []) = Some relayPlan ∧ clientPlan (answerClient (6 * second) (exampleDirective []) res).2 = Some peerPlan ∧
    at_token peerPlan = at_token relayPlan.
Proof.
  intros md ma answer.
  destruct (SendPunchDirective md (λ _, Some exampleAck) (Some exampleTunnel) true true (exampleDirective []) answer) as [written res] eqn:Hs.
  destruct (rendezvous exampleHmac [] ["203.0.113.1:9443"%string] (6 * second) (λ _, None) md (λ _, Some (exampleDirective []))
    ma (λ _, Some exampleAck) (examplePunch []) ∅ exampleRandom exampleTunnel exampleResponder written answer res
    (answerClient (6 * second) (exampleDirective []) res).2 (Some (examplePlan [])) []) as (rp & pp & H1 & H2 & _ & H4 & _).
  - split.
    + intros d p. unfold md. case_decide; congruence.
    + intros a p. unfold ma. case_decide; congruence.
    + intros m. apply length_replicate.
  - reflexivity.
  - reflexivity.
  - exact Hs.
  - vm_compute in Hs. injection Hs as <- _. intros data [= <-]. vm_compute. reflexivity.
  - vm_compute in Hs. injection Hs as _ <-. vm_compute. reflexivity.
  - vm_compute in Hs. injection Hs as _ <-. vm_compute. reflexivity.
  - exists rp, pp. exact (conj H1 (conj H2 H4)).
Defined.
