(* ===== verification/Classify.v ===== *)
(** Why a connection failed: the tokens that leave the client
    (src/libs/wsscore/failure.go and winsock.go,
    src/libs/connectcore/clienttelemetry/classify.go).

    A Go error is a tree: a value, which [errors.As] and [errors.Is] test, and
    the errors it unwraps to.  Of a value the model keeps what the code can
    ask: which of the types and sentinels of interest it is, its text, and what
    its Timeout method answers.  A failed WSS handshake is classified once,
    where the error and the response still exist, and everything else about it
    is dropped; the telemetry classifier names any failure by a token of a
    fixed set, and cuts the text it sends. *)
From stdpp Require Import base list list_numbers strings.
From Stdlib Require Import ZArith Lia.
From S2P Require Import Prelude Codec Netip Registration Punch.

(** * Errors *)
(** What a value is.  [KOSError] is a [PathError], [LinkError] or
    [SyscallError]; [KSafe] offers a rendering for telemetry. *)
Inductive kind :=
| KOther | KCanceled | KDeadlineExceeded | KEOF | KUnexpectedEOF | KErrno (n : Z)
| KDNSError (Err : string) | KRecordHeader | KCertificateInvalid (expired : bool) | KUnknownAuthority
| KHostname | KCertificateVerification | KOpError (Op : string) | KSocketProtection
| KDialError (reason : string) | KHTTPStatus (code : Z)
| KNoRelaysAvailable | KRelayNotInList | KNoRelayInCountry | KNoUsableRelay
| KPermission | KExitError | KOSError | KSafe (safe : string).

(** [ev_timeout] is the answer of a Timeout method, if there is one; a
    [net.Error] has a Temporary method as well. *)
Record errView := { ev_kind : kind; ev_Error : string; ev_timeout : option bool; ev_net : bool }.

(** A value with [Unwrap() []error] is joined. *)
Inductive goError := GoError (v : errView) (joined : bool) (causes : list goError).

Definition viewOf (e : goError) : errView := let '(GoError v _ _) := e in v.
Definition Error (e : goError) : string := ev_Error (viewOf e).

(** [errors.Unwrap] *)
Definition Unwrap (e : goError) : option goError :=
  let '(GoError _ joined causes) := e in if joined then None else head causes.

(** [errors.As], with the test for the target's type, and [errors.Is]. *)
Fixpoint errorsAs {A} (f : errView → option A) (e : goError) {struct e} : option A :=
  let '(GoError v _ causes) := e in
  match f v with
  | Some a => Some a
  | None =>
      (fix first (l : list goError) : option A :=
         match l with
         | [] => None
         | c :: l => match errorsAs f c with Some a => Some a | None => first l end
         end) causes
  end.
Definition errorsIs (f : errView → bool) (e : goError) : bool :=
  bool_decide (is_Some (errorsAs (λ v, if f v then Some () else None) e)).

(** * Error numbers

    The numbers of the platform the client is built for; Go's Windows build
    invents those without a Winsock value.  [Errno.Timeout] and
    [Errno.Is(os.ErrPermission)] are the platform's. *)
Definition WSAEACCES : Z := 10013.
Definition WSAENETUNREACH : Z := 10051.
Definition WSAECONNABORTED : Z := 10053.
Definition WSAECONNRESET : Z := 10054.
Definition WSAETIMEDOUT : Z := 10060.
Definition WSAECONNREFUSED : Z := 10061.
Definition WSAEHOSTUNREACH : Z := 10065.
Definition WinsockErrnos : list Z :=
  [WSAEACCES; WSAENETUNREACH; WSAECONNABORTED; WSAECONNRESET; WSAETIMEDOUT; WSAECONNREFUSED; WSAEHOSTUNREACH].

Class Errnos := {
  ECONNREFUSED : Z; ENETUNREACH : Z; EHOSTUNREACH : Z; ECONNRESET : Z; ETIMEDOUT : Z; EPIPE : Z; EACCES : Z; EPERM : Z;
  errnoTimeout : Z → bool;
  errnoPermission : Z → bool;
  errnos_distinct : NoDup ([ECONNREFUSED; ENETUNREACH; EHOSTUNREACH; ECONNRESET; ETIMEDOUT; EPIPE; EACCES; EPERM] ++ WinsockErrnos);
  errnoTimeout_table n : n ∈ [ECONNREFUSED; ENETUNREACH; EHOSTUNREACH; ECONNRESET; EPIPE; EACCES; EPERM] ++ WinsockErrnos → errnoTimeout n = false;
  errnoTimeout_etimedout : errnoTimeout ETIMEDOUT = true;
  errnoPermission_table n : n ∈ [ECONNREFUSED; ENETUNREACH; EHOSTUNREACH; ECONNRESET; ETIMEDOUT; EPIPE] ++ WinsockErrnos → errnoPermission n = false;
  errnoPermission_eacces : errnoPermission EACCES = true ∧ errnoPermission EPERM = true;
  errno_positive : 0 ∉ [ECONNREFUSED; ENETUNREACH; EHOSTUNREACH; ECONNRESET; ETIMEDOUT; EPIPE; EACCES; EPERM]
}.

(** A bare number; its text is the platform's. *)
Definition errnoError `{Errnos} (text : string) (n : Z) : goError :=
  GoError {| ev_kind := KErrno n; ev_Error := text; ev_timeout := Some (errnoTimeout n); ev_net := true |} false [].

(** * A failed WSS handshake *)
Definition ReasonWSUpgrade : string := "ws_upgrade".
Definition ReasonHTTP401 : string := "http_401".
Definition ReasonHTTP403 : string := "http_403".
Definition ReasonHTTP421 : string := "http_421".
Definition ReasonRateLimited : string := "rate_limited".
Definition ReasonHTTP502 : string := "http_502".
Definition ReasonHTTP503 : string := "http_503".
Definition ReasonHTTPOther : string := "http_other".
Definition ReasonWSSubprotocol : string := "ws_subprotocol".
Definition ReasonDNSBogon : string := "dns_bogon".
Definition ReasonDNSFailure : string := "dns_failure".
Definition ReasonCancelled : string := "cancelled".
Definition ReasonConnectionRefused : string := "connection_refused".
Definition ReasonNetworkUnreachable : string := "network_unreachable".
Definition ReasonConnectionReset : string := "connection_reset".
Definition ReasonTLSReset : string := "tls_reset".
Definition ReasonResponseReset : string := "response_reset".
Definition ReasonTLSNotTLS : string := "tls_not_tls".
Definition ReasonCertExpired : string := "cert_expired".
Definition ReasonCertVerify : string := "cert_verify".
Definition ReasonTLSAlert : string := "tls_alert".
Definition ReasonTLSHandshake : string := "tls_handshake".
Definition ReasonTCPTimeout : string := "tcp_timeout".
Definition ReasonTLSTimeout : string := "tls_timeout".
Definition ReasonResponseTimeout : string := "response_timeout".
Definition ReasonHandshakeTimeout : string := "handshake_timeout".
Definition ReasonUnclassified : string := "unclassified".

Definition Reasons : list string :=
  [ReasonWSUpgrade; ReasonHTTP401; ReasonHTTP403; ReasonHTTP421; ReasonRateLimited; ReasonHTTP502; ReasonHTTP503; ReasonHTTPOther;
   ReasonWSSubprotocol; ReasonDNSBogon; ReasonDNSFailure; ReasonCancelled; ReasonConnectionRefused; ReasonNetworkUnreachable;
   ReasonConnectionReset; ReasonTLSReset; ReasonResponseReset; ReasonTLSNotTLS; ReasonCertExpired; ReasonCertVerify;
   ReasonTLSAlert; ReasonTLSHandshake; ReasonTCPTimeout; ReasonTLSTimeout; ReasonResponseTimeout; ReasonHandshakeTimeout;
   ReasonUnclassified].

(** A [DialError] unwraps to nothing. *)
Definition newDialErrorWithMessage (reason message : string) : goError :=
  GoError {| ev_kind := KDialError reason; ev_Error := message; ev_timeout := None; ev_net := false |} false [].
Definition newDialError (reason : string) : goError :=
  newDialErrorWithMessage reason ("WSS handshake failed (" +:+ reason +:+ ")").
Definition FailureReason (err : goError) : string :=
  default "" (errorsAs (λ v, match ev_kind v with KDialError r => Some r | _ => None end) err).

Record dialPhases := { tcpConnected : bool; tlsStarted : bool; tlsDone : bool; gotFirstResponseByte : bool; bogonAddress : bool }.

(** [netip.ParseAddrPort] *)
Definition ParseAddrPort (s : string) : option (Addr * Z) :=
  '(ip, port) ← cutLast 58 (bytes s);
  if bool_decide (ip = []) || bool_decide (port = []) then None else
  let bracketed := startsWith 91 ip in
  inner ← (if bracketed then '(inside, rest) ← cutLast 93 (tail ip); if bool_decide (rest = []) then Some inside else None else Some ip);
  n ← parseDigits 0 port;
  addr ← ParseAddr (text inner);
  if (65535 <? n) || negb (Bool.eqb bracketed (Is6 addr)) then None else Some (addr, n).

Definition bogonPrefixes : list Prefix := omap ParsePrefix ["100.64.0.0/10"; "0.0.0.0/8"; "240.0.0.0/4"]%string.

Definition isBogonAddress (address : string) : bool :=
  match ParseAddrPort address with
  | None => false
  | Some (addr, _) =>
      let addr := Unmap addr in
      if IsLoopback addr || IsPrivate addr || IsLinkLocalUnicast addr then true
      else existsb (λ p, Contains p addr) bogonPrefixes
  end.

Definition classifyHTTPStatus (status : Z) : string :=
  if status =? 101 then ReasonWSUpgrade else
  if status =? 401 then ReasonHTTP401 else
  if status =? 403 then ReasonHTTP403 else
  if status =? 421 then ReasonHTTP421 else
  if status =? 429 then ReasonRateLimited else
  if status =? 502 then ReasonHTTP502 else
  if status =? 503 then ReasonHTTP503 else ReasonHTTPOther.

Definition isUnknownAuthority (v : errView) : bool := match ev_kind v with KUnknownAuthority => true | _ => false end.
Definition isHostname (v : errView) : bool := match ev_kind v with KHostname => true | _ => false end.

Definition certificateReason (err : goError) : option string :=
  match errorsAs (λ v, match ev_kind v with KCertificateInvalid expired => Some expired | _ => None end) err with
  | Some expired => Some (if expired then ReasonCertExpired else ReasonCertVerify)
  | None =>
      if errorsIs (λ v, match ev_kind v with KCertificateVerification => true | _ => false end) err ||
         errorsIs isUnknownAuthority err || errorsIs isHostname err
      then Some ReasonCertVerify else None
  end.

Definition resetReason (phases : dialPhases) : string :=
  if tlsStarted phases && negb (tlsDone phases) then ReasonTLSReset else
  if tlsDone phases then ReasonResponseReset else ReasonConnectionReset.

Definition timeoutReason (phases : dialPhases) : string :=
  if negb (tcpConnected phases) then ReasonTCPTimeout else
  if tlsStarted phases && negb (tlsDone phases) then ReasonTLSTimeout else
  if tlsDone phases && negb (gotFirstResponseByte phases) then ReasonResponseTimeout else ReasonHandshakeTimeout.

Section classify.
Context `{Errnos}.
#[local] Set Default Proof Using "Type".

Definition errnoOf (err : goError) : Z := default 0 (errorsAs (λ v, match ev_kind v with KErrno n => Some n | _ => None end) err).

(** [context.Canceled], a [DialError] of that reason, and an error that says it
    is one. *)
Definition isCanceled (v : errView) : bool :=
  match ev_kind v with KCanceled => true | KDialError r => str_eqb r ReasonCancelled | _ => false end.
Definition isDeadlineExceeded (v : errView) : bool := match ev_kind v with KDeadlineExceeded => true | _ => false end.
Definition isDNSError (v : errView) : bool := match ev_kind v with KDNSError _ => true | _ => false end.
Definition isRecordHeader (v : errView) : bool := match ev_kind v with KRecordHeader => true | _ => false end.
Definition isEOF (v : errView) : bool := match ev_kind v with KEOF | KUnexpectedEOF => true | _ => false end.

(** The first [net.Error] of the tree answers for all of it. *)
Definition netTimeout (err : goError) : bool :=
  default false (errorsAs (λ v, if ev_net v then Some (default false (ev_timeout v)) else None) err).
Definition firstOp (err : goError) : option string := errorsAs (λ v, match ev_kind v with KOpError op => Some op | _ => None end) err.

Definition classifyDialFailure (err : goError) (resp : option Z) (phases : dialPhases) : string :=
  match resp with
  | Some status => classifyHTTPStatus status
  | None =>
      if bogonAddress phases then ReasonDNSBogon else
      if errorsIs isCanceled err then ReasonCancelled else
      if errorsIs isDNSError err then ReasonDNSFailure else
      let errno := errnoOf err in
      if (errno =? ECONNREFUSED) || (errno =? WSAECONNREFUSED) then ReasonConnectionRefused else
      if (errno =? ENETUNREACH) || (errno =? EHOSTUNREACH) || (errno =? WSAENETUNREACH) || (errno =? WSAEHOSTUNREACH) then ReasonNetworkUnreachable else
      if (errno =? ECONNRESET) || (errno =? WSAECONNRESET) then resetReason phases else
      if errorsIs isRecordHeader err then ReasonTLSNotTLS else
      match certificateReason err with
      | Some reason => reason
      | None =>
          if bool_decide (firstOp err = Some "remote error"%string) then ReasonTLSAlert else
          if netTimeout err || errorsIs isDeadlineExceeded err || (errno =? ETIMEDOUT) || (errno =? WSAETIMEDOUT) then timeoutReason phases else
          if errorsIs isEOF err || (errno =? EPIPE) || (errno =? WSAECONNABORTED) then resetReason phases else
          if tlsStarted phases && negb (tlsDone phases) then ReasonTLSHandshake else ReasonUnclassified
      end
  end.

Definition SocketErrnoReason (text : string) (errno : Z) : string :=
  classifyDialFailure (errnoError text errno) None
    {| tcpConnected := false; tlsStarted := false; tlsDone := false; gotFirstResponseByte := false; bogonAddress := false |}.

(** The protector's refusal, across a DNS error that holds it as text. *)
Definition ErrSocketProtectionFailed : goError :=
  GoError {| ev_kind := KSocketProtection; ev_Error := "WSS socket protection failed"; ev_timeout := None; ev_net := false |} false [].
Fixpoint containsAt (needle s : list byte) : option nat :=
  if bool_decide (take (length needle) s = needle) then Some 0%nat else
  match s with [] => None | _ :: s => S <$> containsAt needle s end.
Definition strContains (s needle : string) : bool := bool_decide (is_Some (containsAt (bytes needle) (bytes s))).
Definition IsSocketProtectionFailed (err : goError) : bool :=
  errorsIs (λ v, match ev_kind v with KSocketProtection => true | _ => false end) err ||
  match errorsAs (λ v, match ev_kind v with KDNSError text => Some text | _ => None end) err with
  | Some text => strContains text (Error ErrSocketProtectionFailed)
  | None => false
  end.

(** What [DialClient] returns of a handshake that failed. *)
Definition dialFailure (err : goError) (resp : option Z) (phases : dialPhases) : goError :=
  if IsSocketProtectionFailed err then ErrSocketProtectionFailed else newDialError (classifyDialFailure err resp phases).

Definition Subprotocol : string := "openrung-wss-bridge-v1".
(** What it returns of a handshake the peer answered: the extensions and the
    subprotocol are compared. *)
Definition negotiated (extensions : nat) (subprotocol : string) : option goError :=
  if negb (extensions =? 0)%nat then Some (newDialErrorWithMessage ReasonWSSubprotocol "WSS extensions were unexpectedly negotiated") else
  if negb (str_eqb subprotocol Subprotocol) then Some (newDialErrorWithMessage ReasonWSSubprotocol "WSS subprotocol was not negotiated") else None.

(** * The telemetry classifier *)
Definition wssReasonAllowlist : list string :=
  ["ws_upgrade"; "http_401"; "http_403"; "http_421"; "rate_limited"; "http_502"; "http_503"; "http_other"; "ws_subprotocol"; "dns_bogon";
   "dns_failure"; "cancelled"; "connection_refused"; "network_unreachable"; "connection_reset"; "tls_reset"; "response_reset";
   "tls_not_tls"; "cert_expired"; "cert_verify"; "tls_alert"; "tls_handshake"; "tcp_timeout"; "tls_timeout"; "response_timeout";
   "handshake_timeout"; "unclassified"]%string.
Definition wssFailureReason (reason : string) : string :=
  if bool_decide (reason ∈ wssReasonAllowlist) then reason else "wss_transport_failed".

(** [os.IsTimeout] looks through one [PathError], [LinkError] or
    [SyscallError], and asks for a Timeout method alone. *)
Definition osIsTimeout (err : goError) : bool :=
  let e := match ev_kind (viewOf err) with KOSError => default err (Unwrap err) | _ => err end in
  default false (ev_timeout (viewOf e)).

Definition sentinelReason (v : errView) : option string :=
  match ev_kind v with
  | KNoRelaysAvailable => Some "no_relays_available" | KRelayNotInList => Some "relay_not_in_list"
  | KNoRelayInCountry => Some "no_relay_in_country" | KNoUsableRelay => Some "no_usable_relay" | _ => None
  end%string.
Definition hasKindReason (reason : string) (v : errView) : bool := bool_decide (sentinelReason v = Some reason).
Definition isPermission (v : errView) : bool :=
  match ev_kind v with KPermission => true | KErrno n => errnoPermission n | _ => false end.

Definition httpStatusReason (status : Z) : string := if status =? 429 then "rate_limited" else "http_" +:+ text (FormatInt status).

Definition ClassifyError (err : option goError) : string :=
  match err with
  | None => ""
  | Some err =>
      if errorsIs isCanceled err then "cancelled" else
      if errorsIs isDeadlineExceeded err then "timeout" else
      match errorsAs (λ v, match ev_kind v with KDialError r => Some r | _ => None end) err with
      | Some reason => wssFailureReason reason
      | None =>
      if errorsIs (hasKindReason "no_relays_available") err then "no_relays_available" else
      if errorsIs (hasKindReason "relay_not_in_list") err then "relay_not_in_list" else
      if errorsIs (hasKindReason "no_relay_in_country") err then "no_relay_in_country" else
      if errorsIs (hasKindReason "no_usable_relay") err then "no_usable_relay" else
      match errorsAs (λ v, match ev_kind v with KHTTPStatus status => Some status | _ => None end) err with
      | Some status => httpStatusReason status
      | None =>
      let errno n := (errnoOf err =? n)%Z in
      if errno ECONNREFUSED || errno WSAECONNREFUSED then "connection_refused" else
      if errno ECONNRESET || errno WSAECONNRESET then "connection_reset" else
      if errno ENETUNREACH || errno EHOSTUNREACH || errno WSAENETUNREACH || errno WSAEHOSTUNREACH then "network_unreachable" else
      if errorsIs isDNSError err then "dns_failure" else
      if errorsIs isRecordHeader err then "tls_handshake" else
      if errorsIs isUnknownAuthority err || errorsIs (λ v, match ev_kind v with KCertificateInvalid _ => true | _ => false end) err || errorsIs isHostname err
      then "tls_handshake" else
      if errorsIs isPermission err || errno WSAEACCES then "permission_denied" else
      if errorsIs (λ v, match ev_kind v with KExitError => true | _ => false end) err then "process_exited" else
      if netTimeout err then "timeout" else
      if osIsTimeout err then "timeout" else
      if errno ETIMEDOUT || errno WSAETIMEDOUT then "timeout" else "unknown"
      end end
  end%string.
End classify.

(** ** The text that is sent *)
Definition detailMaxBytes : nat := 256.

(** The first value along [errors.Unwrap] that has a rendering for telemetry:
    its text, and the rendering. *)
Fixpoint firstSafe (e : goError) : option (string * string) :=
  let '(GoError v joined causes) := e in
  match ev_kind v with
  | KSafe safe => Some (ev_Error v, safe)
  | _ => if joined then None else match causes with [] => None | c :: _ => firstSafe c end
  end.

(** [strings.Replace] of one occurrence. *)
Definition replaceFirst (s old new : list byte) : list byte :=
  match containsAt old s with None => s | Some i => take i s ++ new ++ drop (i + length old) s end.

Fixpoint trimRune (n : nat) (s : list byte) : list byte :=
  match n with
  | O => []
  | S n' => if validUTF8 (take n s) then take n s else trimRune n' s
  end.

Definition truncated (msg : list byte) : list byte := if (length msg <=? detailMaxBytes)%nat then msg else trimRune detailMaxBytes msg.

Definition ErrorDetail (err : option goError) : string :=
  match err with
  | None => ""
  | Some err =>
      let msg := bytes (Error err) in
      text (truncated (match firstSafe err with Some (quoted, safe) => replaceFirst msg (bytes quoted) (bytes safe) | None => msg end))
  end.

(** * Trees *)
Definition wraps (vs : list errView) (e : goError) : goError := foldr (λ v e, GoError v false [e]) e vs.
(** A wrapper nobody asks about, as [fmt.Errorf] makes it. *)
Definition opaque (v : errView) : Prop := ev_kind v = KOther ∧ ev_net v = false.

Lemma errorsAs_wraps {A} (f : errView → option A) vs e : Forall (λ v, f v = None) vs → errorsAs f (wraps vs e) = errorsAs f e.
Proof.
  induction 1 as [|v vs Hv _ IH]; [done|]. change (wraps (v :: vs) e) with (GoError v false [wraps vs e]).
  cbn [errorsAs]. rewrite Hv, IH. by destruct (errorsAs f e).
Qed.

Lemma errorsIs_wraps f vs e : Forall (λ v, f v = false) vs → errorsIs f (wraps vs e) = errorsIs f e.
Proof. intros Hvs. unfold errorsIs. rewrite errorsAs_wraps; [done|]. eapply Forall_impl; [exact Hvs|]. by intros v ->. Qed.

(** A test that looks at the kind alone passes over opaque wrappers. *)
Lemma opaque_none {A} (f : errView → option A) vs : Forall opaque vs → (∀ v, ev_kind v = KOther → f v = None) → Forall (λ v, f v = None) vs.
Proof. intros Hvs Hf. eapply Forall_impl; [exact Hvs|]. intros v [Hk _]. auto. Qed.
Lemma opaque_false (f : errView → bool) vs : Forall opaque vs → (∀ v, ev_kind v = KOther → f v = false) → Forall (λ v, f v = false) vs.
Proof. intros Hvs Hf. eapply Forall_impl; [exact Hvs|]. intros v [Hk _]. auto. Qed.

Lemma errorsIs_leaf f v joined : errorsIs f (GoError v joined []) = f v.
Proof. unfold errorsIs. cbn. by destruct (f v). Qed.

(** * The tokens *)
Section tokens.
Context `{Errnos}.
#[local] Set Default Proof Using "Type".

Lemma http_token status : classifyHTTPStatus status ∈ take 8 Reasons.
Proof. unfold classifyHTTPStatus. repeat (destruct (_ =? _); [apply (bool_decide_unpack _); vm_compute; exact I|]). apply (bool_decide_unpack _); vm_compute; exact I. Qed.

Lemma http_token_closed status : classifyHTTPStatus status ∈ Reasons.
Proof. pose proof (http_token status) as Ht. rewrite <- (take_drop 8 Reasons). apply elem_of_app. by left. Qed.

(** Where a token without a response comes from. *)
Inductive tokenOf (p : dialPhases) : string → Prop :=
| tok_bogon : bogonAddress p = true → tokenOf p ReasonDNSBogon
| tok_plain r : bogonAddress p = false →
    r ∈ [ReasonCancelled; ReasonDNSFailure; ReasonConnectionRefused; ReasonNetworkUnreachable; ReasonTLSNotTLS; ReasonCertExpired;
         ReasonCertVerify; ReasonTLSAlert; ReasonUnclassified] → tokenOf p r
| tok_tls r : bogonAddress p = false → tlsStarted p = true → tlsDone p = false → r ∈ [ReasonTLSReset; ReasonTLSTimeout; ReasonTLSHandshake] → tokenOf p r
| tok_response_reset : bogonAddress p = false → tlsDone p = true → tokenOf p ReasonResponseReset
| tok_reset : bogonAddress p = false → tlsStarted p = false → tokenOf p ReasonConnectionReset
| tok_tcp : bogonAddress p = false → tcpConnected p = false → tokenOf p ReasonTCPTimeout
| tok_response : bogonAddress p = false → tcpConnected p = true → tlsDone p = true → gotFirstResponseByte p = false → tokenOf p ReasonResponseTimeout
| tok_handshake : bogonAddress p = false → tcpConnected p = true → tokenOf p ReasonHandshakeTimeout.

Lemma reset_token p : bogonAddress p = false → tokenOf p (resetReason p).
Proof.
  intros Hb. unfold resetReason. destruct (tlsStarted p) eqn:E1, (tlsDone p) eqn:E2; cbn; try (by constructor);
    apply tok_tls; auto; by repeat constructor.
Qed.

Lemma timeout_token p : bogonAddress p = false → tokenOf p (timeoutReason p).
Proof.
  intros Hb. unfold timeoutReason. destruct (tcpConnected p) eqn:E0; [|by constructor].
  destruct (tlsStarted p) eqn:E1, (tlsDone p) eqn:E2; cbn; try (by apply tok_tls; auto; repeat constructor);
    destruct (gotFirstResponseByte p) eqn:E3; cbn; by constructor.
Qed.

Lemma certificate_token err r : certificateReason err = Some r → r ∈ [ReasonCertExpired; ReasonCertVerify].
Proof.
  unfold certificateReason. destruct (errorsAs _ _) as [[]|]; [intros [= <-]; by repeat constructor..|].
  destruct (_ || _); [|done]. intros [= <-]; by repeat constructor.
Qed.

#[local] Ltac token_step :=
  lazymatch goal with
  | |- tokenOf _ (resetReason _) => by apply reset_token
  | |- tokenOf _ (timeoutReason _) => by apply timeout_token
  | |- tokenOf _ (if ?c then _ else _) => destruct c eqn:?
  | |- tokenOf _ (match ?c with Some _ => _ | None => _ end) => destruct c eqn:?
  | |- tokenOf _ (let _ := _ in _) => cbv zeta
  end.

Lemma classify_token err p : tokenOf p (classifyDialFailure err None p).
Proof.
  unfold classifyDialFailure. destruct (bogonAddress p) eqn:Hb; [by constructor|].
  repeat token_step; try (apply tok_plain; [done|by repeat constructor]).
  - apply tok_plain; [done|]. apply certificate_token in Heqo. rewrite !elem_of_cons, elem_of_nil in *. tauto.
  - match goal with Hs : _ && _ = true |- _ => apply andb_true_iff in Hs as [? ?%negb_true_iff] end.
    apply tok_tls; auto. by repeat constructor.
Qed.
End tokens.

Section tokens2.
Context `{Errnos}.
#[local] Set Default Proof Using "Type".

Lemma tokenOf_closed p r : tokenOf p r → r ∈ Reasons.
Proof.
  intros Ht. destruct Ht as [|r _ Hr|r _ _ _ Hr| | | | |]; try (apply (bool_decide_unpack _); vm_compute; exact I);
    unfold Reasons; rewrite !elem_of_cons, ?elem_of_nil in *; tauto.
Qed.

Lemma classify_closed err resp p : classifyDialFailure err resp p ∈ Reasons.
Proof. destruct resp as [status|]; [apply http_token_closed|]. eapply tokenOf_closed, classify_token. Qed.

Lemma allowlist_all r : r ∈ Reasons → wssFailureReason r = r.
Proof. intros Hr. unfold wssFailureReason. by rewrite bool_decide_eq_true_2. Qed.

(** A token that names a phase is not the one of a poisoned answer, and so on:
    distinct names. *)
Lemma tokenOf_inv p r : tokenOf p r →
  r ∉ take 9 Reasons ∧ (r = ReasonDNSBogon ↔ bogonAddress p = true) ∧
  (r ∈ [ReasonTLSReset; ReasonTLSTimeout; ReasonTLSHandshake] → tlsStarted p = true ∧ tlsDone p = false) ∧
  (r ∈ [ReasonResponseReset; ReasonResponseTimeout] → tlsDone p = true) ∧
  (r = ReasonTCPTimeout → tcpConnected p = false) ∧ (r = ReasonResponseTimeout → gotFirstResponseByte p = false).
Proof.
  intros Ht.
  assert (Hd : ∀ (P : Prop) `{Decision P}, bool_decide P = true → P) by (intros P D E; by apply bool_decide_eq_true in E).
  destruct Ht as [E|r E Hr|r E E1 E2 Hr| | | | |];
    try (rewrite !elem_of_cons, elem_of_nil in Hr; destruct_or! Hr; subst r; try done);
    (split; [apply (bool_decide_unpack _); vm_compute; exact I|]);
    (split; [split; [by intros [=]|rewrite E || idtac; try done; congruence]|]);
    split_and!; intros Hx; try discriminate Hx; try done;
    exfalso; revert Hx; apply (bool_decide_unpack _); vm_compute; exact I.
Qed.
End tokens2.

(** * What leaves the client *)
(** nothing of a failed handshake leaves but a token of the closed set, and
    the token tells the truth: the error is one of 28 constants, whatever the
    error, the response and their texts were; an HTTP token means a response
    came, a poisoned answer was seen where it is named, and a token that names
    a phase names the one the handshake had reached. *)
Lemma handshake_tokens `{Errnos} err resp p :
  let r := classifyDialFailure err resp p in
  dialFailure err resp p ∈ ErrSocketProtectionFailed :: (newDialError <$> Reasons) ∧
  (is_Some resp ↔ r ∈ take 8 Reasons) ∧
  (resp = None →
    (r = ReasonDNSBogon ↔ bogonAddress p = true) ∧
    (r ∈ [ReasonTLSReset; ReasonTLSTimeout; ReasonTLSHandshake] → tlsStarted p = true ∧ tlsDone p = false) ∧
    (r ∈ [ReasonResponseReset; ReasonResponseTimeout] → tlsDone p = true) ∧
    (r = ReasonTCPTimeout → tcpConnected p = false) ∧ (r = ReasonResponseTimeout → gotFirstResponseByte p = false)).
Proof.
  intros r. subst r. split; [|split].
  - unfold dialFailure. destruct (IsSocketProtectionFailed err); [by left|right]. apply list_elem_of_fmap_2, classify_closed.
  - destruct resp as [status|]; (split; [intros Hs|intros Hr]); [apply http_token|done|by destruct Hs|].
    destruct (tokenOf_inv _ _ (classify_token err p)) as [Hn _]. exfalso. apply Hn. change (take 9 Reasons) with (take 8 Reasons ++ [ReasonWSSubprotocol]). apply elem_of_app. by left.
  - intros ->. apply (tokenOf_inv _ _ (classify_token err p)).
Qed.

(** C27: what the handshake found is what telemetry says, however the failure
    was wrapped on the way: the token comes through unchanged. *)
Theorem wss_token_reported `{Errnos} vs err resp p : Forall opaque vs → IsSocketProtectionFailed err = false →
  let e := wraps vs (dialFailure err resp p) in
  ClassifyError (Some e) = classifyDialFailure err resp p ∧ FailureReason e = classifyDialFailure err resp p.
Proof.
  intros Hvs Hp e. subst e. unfold dialFailure. rewrite Hp. set (r := classifyDialFailure err resp p).
  assert (Hr : r ∈ Reasons) by apply classify_closed. clearbody r.
  unfold ClassifyError, FailureReason.
  rewrite !errorsIs_wraps by (apply opaque_false; [done|]; intros v Hv; unfold isCanceled, isDeadlineExceeded; by rewrite Hv).
  rewrite !errorsAs_wraps by (apply opaque_none; [done|]; intros v Hv; by rewrite Hv).
  unfold newDialError, newDialErrorWithMessage. rewrite !errorsIs_leaf. cbn [errorsAs ev_kind default]. split; [|done].
  unfold isCanceled, isDeadlineExceeded. cbn [ev_kind]. destruct (str_eqb r ReasonCancelled) eqn:E.
  - apply str_eqb_true in E as ->. done.
  - by apply allowlist_all.
Qed.

(** ** Platforms *)
(** The POSIX numbers with their Winsock twins. *)
Definition errnoTwins `{Errnos} : list (Z * Z) :=
  [(ECONNREFUSED, WSAECONNREFUSED); (ENETUNREACH, WSAENETUNREACH); (EHOSTUNREACH, WSAEHOSTUNREACH); (ECONNRESET, WSAECONNRESET);
   (ETIMEDOUT, WSAETIMEDOUT); (EPIPE, WSAECONNABORTED); (EACCES, WSAEACCES); (EPERM, WSAEACCES)].

Definition isAny (n : Z) (l : list Z) : bool := existsb (Z.eqb n) l.

(** What either taxonomy says of a bare number. *)
Definition errnoTokens `{Errnos} (n : Z) : string * string :=
  if isAny n [ECONNREFUSED; WSAECONNREFUSED] then ("connection_refused", "connection_refused") else
  if isAny n [ECONNRESET; WSAECONNRESET] then ("connection_reset", "connection_reset") else
  if isAny n [ENETUNREACH; EHOSTUNREACH; WSAENETUNREACH; WSAEHOSTUNREACH] then ("network_unreachable", "network_unreachable") else
  if errnoPermission n || isAny n [WSAEACCES] then ("permission_denied", if errnoTimeout n then "tcp_timeout" else "unclassified") else
  if errnoTimeout n || isAny n [ETIMEDOUT; WSAETIMEDOUT] then ("timeout", "tcp_timeout") else
  if isAny n [EPIPE; WSAECONNABORTED] then ("unknown", "connection_reset") else ("unknown", "unclassified").

Lemma isAny_true n l : isAny n l = true ↔ n ∈ l.
Proof.
  unfold isAny. rewrite existsb_exists. setoid_rewrite Z.eqb_eq. split.
  - intros (x & Hx & ->). by apply list_elem_of_In.
  - intros Hn. exists n. split; [by apply list_elem_of_In|done].
Qed.

(** A number by its place in the table. *)
Definition errnoTable `{Errnos} : list Z :=
  [ECONNREFUSED; ENETUNREACH; EHOSTUNREACH; ECONNRESET; ETIMEDOUT; EPIPE; EACCES; EPERM] ++ WinsockErrnos.

Lemma isAny_table `{Errnos} i x js : errnoTable !! i = Some x → Forall (λ j, (j < 15)%nat) js →
  isAny x ((λ j, errnoTable !!! j) <$> js) = bool_decide (i ∈ js).
Proof.
  intros Hi Hjs. apply eq_bool_prop_intro. rewrite !Is_true_true, isAny_true, bool_decide_eq_true. split.
  - intros (j & -> & Hj)%list_elem_of_fmap. rewrite Forall_forall in Hjs. specialize (Hjs j Hj).
    enough (i = j) as -> by done. eapply NoDup_lookup; [apply errnos_distinct|exact Hi|].
    apply list_lookup_lookup_total_lt. cbn. lia.
  - intros Hj. apply list_elem_of_fmap. exists i. split; [|done]. symmetry. by apply list_lookup_total_correct.
Qed.

Lemma timeout_table `{Errnos} i x : errnoTable !! i = Some x → errnoTimeout x = bool_decide (i = 4%nat).
Proof.
  intros Hi. destruct (decide (i = 4%nat)) as [->|Hn]; [injection Hi as <-; by rewrite errnoTimeout_etimedout|].
  rewrite bool_decide_eq_false_2 by done. apply errnoTimeout_table. do 15 (destruct i as [|i]; [injection Hi as <-; try done; by repeat constructor|]). done.
Qed.

Lemma permission_table `{Errnos} i x : errnoTable !! i = Some x → errnoPermission x = bool_decide (i ∈ [6; 7]%nat).
Proof.
  intros Hi. destruct errnoPermission_eacces as [P1 P2]. do 15 (destruct i as [|i]; [injection Hi as <-; first [exact P1|exact P2|apply errnoPermission_table; by repeat constructor]|]). done.
Qed.

Notation at_places js := ((λ j, errnoTable !!! j) <$> js).

Lemma isAny_apart `{Errnos} n js1 js2 : isAny n (at_places js1) = true → Forall (λ j, (j < 15)%nat ∧ j ∉ js2) js1 → Forall (λ j, (j < 15)%nat) js2 →
  isAny n (at_places js2) = false.
Proof.
  intros (j & -> & Hj)%isAny_true%list_elem_of_fmap H1 H2. rewrite Forall_forall in H1. destruct (H1 j Hj) as [Hlt Hn].
  rewrite (isAny_table j); [by apply bool_decide_eq_false|by apply list_lookup_lookup_total_lt|done].
Qed.

Lemma isAny_permission `{Errnos} n js : isAny n (at_places js) = true → Forall (λ j, (j < 15)%nat ∧ j ∉ [6; 7; 8]%nat) js →
  errnoPermission n || isAny n [WSAEACCES] = false.
Proof.
  intros H1 H2. rewrite orb_false_iff. split.
  - apply isAny_true, list_elem_of_fmap in H1 as (j & -> & Hj). rewrite Forall_forall in H2. destruct (H2 j Hj) as [Hlt Hn].
    rewrite (permission_table j) by (by apply list_lookup_lookup_total_lt). apply bool_decide_eq_false. rewrite !elem_of_cons, elem_of_nil in *. tauto.
  - apply (isAny_apart n js [8]%nat H1); [|by repeat constructor; lia]. eapply Forall_impl; [exact H2|]. intros j. rewrite !elem_of_cons, elem_of_nil. tauto.
Qed.

#[local] Ltac places := apply (bool_decide_unpack _); vm_compute; exact I.

Lemma reset_not_unreachable `{Errnos} n : isAny n [ECONNRESET; WSAECONNRESET] = true →
  isAny n [ENETUNREACH; EHOSTUNREACH; WSAENETUNREACH; WSAEHOSTUNREACH] = false.
Proof. intros H1. apply (isAny_apart n [3; 11] [1; 2; 9; 14] H1)%nat; places. Qed.

Lemma timeout_not_permission `{Errnos} n : isAny n [ETIMEDOUT; WSAETIMEDOUT] = true → errnoPermission n || isAny n [WSAEACCES] = false.
Proof. intros H1. apply (isAny_permission n [4; 12] H1)%nat; places. Qed.

Lemma pipe_not_permission `{Errnos} n : isAny n [EPIPE; WSAECONNABORTED] = true → errnoPermission n || isAny n [WSAEACCES] = false.
Proof. intros H1. apply (isAny_permission n [5; 10] H1)%nat; places. Qed.

Lemma errnoTokens_spec `{Errnos} text n : (ClassifyError (Some (errnoError text n)), SocketErrnoReason text n) = errnoTokens n.
Proof.
  unfold SocketErrnoReason, ClassifyError, classifyDialFailure, certificateReason, firstOp, netTimeout, osIsTimeout, errnoOf, errnoError.
  rewrite !errorsIs_leaf. cbn [errorsAs isCanceled isDeadlineExceeded isDNSError isRecordHeader isEOF isPermission isUnknownAuthority isHostname
    ev_kind ev_net ev_timeout viewOf default id orb bogonAddress tlsStarted tlsDone andb negb].
  repeat match goal with |- context [hasKindReason ?r ?v] => change (hasKindReason r v) with false end.
  rewrite !bool_decide_eq_false_2 by done. unfold errnoTokens.
  pose proof (reset_not_unreachable n) as H1. pose proof (timeout_not_permission n) as H2. pose proof (pipe_not_permission n) as H3. revert H1 H2 H3.
  unfold isAny, timeoutReason, resetReason. cbn [existsb tcpConnected tlsStarted tlsDone negb andb]. rewrite !orb_false_r.
  destruct (_ =? ECONNREFUSED); [done|]. destruct (_ =? WSAECONNREFUSED); [done|]. cbn [orb].
  rewrite !orb_assoc. destruct ((_ =? ENETUNREACH) || _ || _ || _) eqn:E1, ((n =? ECONNRESET) || _) eqn:E2; cbn [orb]; intros H1 H2 H3;
    [by specialize (H1 eq_refl)|done|done|].
  destruct (errnoPermission n || (n =? WSAEACCES)) eqn:E3; cbn [orb].
  - destruct (_ =? ETIMEDOUT); [by specialize (H2 eq_refl)|]. destruct (_ =? WSAETIMEDOUT); [by specialize (H2 eq_refl)|].
    destruct (_ =? EPIPE); [by specialize (H3 eq_refl)|]. destruct (_ =? WSAECONNABORTED); [by specialize (H3 eq_refl)|].
    by destruct (errnoTimeout n).
  - destruct (errnoTimeout n); [done|]. destruct (_ =? ETIMEDOUT); [done|]. destruct (_ =? WSAETIMEDOUT); [done|]. cbn [orb].
    by destruct (_ =? EPIPE), (_ =? WSAECONNABORTED).
Qed.

(** [errnoTokens] of a place. *)
Definition tokensAt (i : nat) : string * string :=
  if bool_decide (i ∈ [0; 13]%nat) then ("connection_refused", "connection_refused") else
  if bool_decide (i ∈ [3; 11]%nat) then ("connection_reset", "connection_reset") else
  if bool_decide (i ∈ [1; 2; 9; 14]%nat) then ("network_unreachable", "network_unreachable") else
  if bool_decide (i ∈ [6; 7; 8]%nat) then ("permission_denied", "unclassified") else
  if bool_decide (i ∈ [4; 12]%nat) then ("timeout", "tcp_timeout") else
  if bool_decide (i ∈ [5; 10]%nat) then ("unknown", "connection_reset") else ("unknown", "unclassified").

Lemma errnoTokens_at `{Errnos} i x : errnoTable !! i = Some x → errnoTokens x = tokensAt i.
Proof.
  intros Hi. pose proof (isAny_table i x) as Ha. unfold errnoTokens.
  assert (Hp : ∀ js l, l = at_places js → Forall (λ j, (j < 15)%nat) js → isAny x l = bool_decide (i ∈ js)) by (intros js l -> ?; by apply Ha).
  rewrite (Hp [0; 13]%nat [ECONNREFUSED; WSAECONNREFUSED]), (Hp [3; 11]%nat [ECONNRESET; WSAECONNRESET]),
    (Hp [1; 2; 9; 14]%nat [ENETUNREACH; EHOSTUNREACH; WSAENETUNREACH; WSAEHOSTUNREACH]), (Hp [8]%nat [WSAEACCES]),
    (Hp [4; 12]%nat [ETIMEDOUT; WSAETIMEDOUT]), (Hp [5; 10]%nat [EPIPE; WSAECONNABORTED]) by first [reflexivity | repeat constructor; lia].
  rewrite (timeout_table i x Hi), (permission_table i x Hi).
  do 15 (destruct i as [|i]; [reflexivity|]). done.
Qed.

(** What both taxonomies name alike. *)
Definition namedAlike `{Errnos} : list Z :=
  [ECONNREFUSED; WSAECONNREFUSED; ECONNRESET; WSAECONNRESET; ENETUNREACH; EHOSTUNREACH; WSAENETUNREACH; WSAEHOSTUNREACH].

Lemma errnoTokens_alike `{Errnos} n : n ∈ namedAlike → (errnoTokens n).1 = (errnoTokens n).2.
Proof.
  intros Hn. assert (∃ i, errnoTable !! i = Some n ∧ i ∈ [0; 1; 2; 3; 9; 11; 13; 14]%nat) as (i & Hi & Hin).
  { unfold namedAlike in Hn. rewrite !elem_of_cons, elem_of_nil in Hn.
    destruct Hn as [->|[->|[->|[->|[->|[->|[->|[->|[]]]]]]]]];
      [exists 0%nat|exists 13%nat|exists 3%nat|exists 11%nat|exists 1%nat|exists 2%nat|exists 9%nat|exists 14%nat];
      (split; [reflexivity|by apply (bool_decide_unpack _)]). }
  rewrite (errnoTokens_at i n Hi). clear Hi. rewrite !elem_of_cons, elem_of_nil in Hin.
  by destruct Hin as [->|[->|[->|[->|[->|[->|[->|[->|[]]]]]]]]].
Qed.

Lemma errnoTokens_apart `{Errnos} n : n ∉ namedAlike →
  errnoTokens n =
    (if errnoPermission n || (n =? WSAEACCES)%Z then "permission_denied"
     else if errnoTimeout n || isAny n [ETIMEDOUT; WSAETIMEDOUT] then "timeout" else "unknown",
     if errnoTimeout n || isAny n [ETIMEDOUT; WSAETIMEDOUT] then "tcp_timeout"
     else if isAny n [EPIPE; WSAECONNABORTED] then "connection_reset" else "unclassified")%string.
Proof.
  intros Hn. assert (Hno : ∀ l, (∀ x, x ∈ l → x ∈ namedAlike) → isAny n l = false).
  { intros l Hl. destruct (isAny n l) eqn:E; [|done]. apply isAny_true, Hl in E. done. }
  pose proof (timeout_not_permission n) as H2. pose proof (pipe_not_permission n) as H3. unfold errnoTokens.
  rewrite !Hno by (intros x; unfold namedAlike; rewrite !elem_of_cons, elem_of_nil; tauto).
  change (isAny n [WSAEACCES]) with ((n =? WSAEACCES) || false) in *. rewrite !orb_false_r in *.
  destruct (errnoPermission n || (n =? WSAEACCES)), (isAny n [ETIMEDOUT; WSAETIMEDOUT]), (isAny n [EPIPE; WSAECONNABORTED]), (errnoTimeout n);
    try done; (by specialize (H2 eq_refl)) || (by specialize (H3 eq_refl)).
Qed.

(** C36: the two platforms agree, and the two taxonomies agree exactly where
    they mean to.  A number means the same to each classifier as its twin on
    the other platform.  The classifiers name the same failure on exactly the
    eight numbers of a refusal, a reset and an unreachable network or host; of
    every other number telemetry says a refused permission, a timeout or
    nothing, where the transport says a timeout before the connection, a reset
    for a broken pipe, or nothing. *)
Theorem taxonomies_agree `{Errnos} text text' :
  (∀ a b, (a, b) ∈ errnoTwins →
     ClassifyError (Some (errnoError text a)) = ClassifyError (Some (errnoError text' b)) ∧ SocketErrnoReason text a = SocketErrnoReason text' b) ∧
  (∀ n, ClassifyError (Some (errnoError text n)) = SocketErrnoReason text n ↔ n ∈ namedAlike) ∧
  (∀ n, n ∉ namedAlike →
     ClassifyError (Some (errnoError text n)) =
       (if errnoPermission n || (n =? WSAEACCES)%Z then "permission_denied"
        else if errnoTimeout n || isAny n [ETIMEDOUT; WSAETIMEDOUT] then "timeout" else "unknown")%string ∧
     SocketErrnoReason text n =
       (if errnoTimeout n || isAny n [ETIMEDOUT; WSAETIMEDOUT] then "tcp_timeout"
        else if isAny n [EPIPE; WSAECONNABORTED] then "connection_reset" else "unclassified")%string).
Proof.
  assert (Hapart : ∀ n, n ∉ namedAlike → _ ∧ _) by (intros n Hn; pose proof (errnoTokens_spec text n) as He;
    rewrite (errnoTokens_apart n Hn) in He;
    pose proof (f_equal fst He) as H1; pose proof (f_equal snd He) as H2; cbn [fst snd] in H1, H2; exact (conj H1 H2)).
  split_and!; [| |exact Hapart].
  - intros a b Hab. enough (errnoTokens a = errnoTokens b) as He.
    { pose proof (errnoTokens_spec text a) as Ha. pose proof (errnoTokens_spec text' b) as Hb. rewrite He, <- Hb in Ha. by injection Ha. }
    assert (Hat : ∀ i j x y, errnoTable !! i = Some x → errnoTable !! j = Some y → tokensAt i = tokensAt j → errnoTokens x = errnoTokens y).
    { intros i j x y Hx Hy Hij. by rewrite (errnoTokens_at i x Hx), (errnoTokens_at j y Hy). }
    apply list_elem_of_lookup in Hab as [k Hk].
    destruct k as [|[|[|[|[|[|[|[|k]]]]]]]]; [..|done]; injection Hk as <- <-;
      [by apply (Hat 0%nat 13%nat)|by apply (Hat 1%nat 9%nat)|by apply (Hat 2%nat 14%nat)|by apply (Hat 3%nat 11%nat)|
       by apply (Hat 4%nat 12%nat)|by apply (Hat 5%nat 10%nat)|by apply (Hat 6%nat 8%nat)|by apply (Hat 7%nat 8%nat)].
  - intros n. split.
    + intros E. destruct (decide (n ∈ namedAlike)) as [|Hn]; [done|]. destruct (Hapart n Hn) as [H1 H2]. rewrite H1, H2 in E.
      by repeat match type of E with context [if ?c then _ else _] => destruct c end.
    + intros Hn. pose proof (errnoTokens_spec text n) as He. pose proof (errnoTokens_alike n Hn) as Ha. rewrite <- He in Ha. exact Ha.
Qed.

(** ** Text *)
Lemma containsAt_here needle s : take (length needle) s = needle → containsAt needle s = Some 0%nat.
Proof. intros E. destruct s; cbn [containsAt]; by rewrite bool_decide_eq_true_2. Qed.

(** A valid text can be cut near anywhere: a rune has at most four bytes. *)
Lemma validUTF8_cut m : ∀ s n, (length s ≤ m)%nat → validUTF8 s = true → (n ≤ length s)%nat →
  ∃ k, (k ≤ n ≤ k + 3)%nat ∧ validUTF8 (take k s) = true.
Proof.
  induction m as [|m IH]; intros s n Hm Hs Hn; [exists 0%nat; split; [lia|done]|].
  destruct s as [|a s]; [exists 0%nat; cbn in Hn; split; [lia|done]|].
  destruct n as [|n]; [exists 0%nat; split; [lia|done]|]. cbn [length] in Hm, Hn. cbn [validUTF8] in Hs.
  destruct (val a <? 128) eqn:Ea.
  { destruct (IH s n ltac:(lia) Hs ltac:(lia)) as (k & Hk & Hv). exists (S k). split; [lia|]. cbn [take validUTF8]. by rewrite Ea. }
  destruct s as [|b s]; [done|]. destruct n as [|n]; [exists 0%nat; split; [lia|done]|]. cbn [length] in Hm, Hn.
  destruct (contByte 194 223 a) eqn:E2.
  { apply andb_true_iff in Hs as [Hb Hs]. destruct (IH s n ltac:(lia) Hs ltac:(lia)) as (k & Hk & Hv).
    exists (S (S k)). split; [lia|]. cbn [take validUTF8]. by rewrite Ea, E2, Hb. }
  destruct s as [|c s]; [done|]. destruct n as [|n]; [exists 0%nat; split; [lia|done]|]. cbn [length] in Hm, Hn.
  destruct (contByte 224 239 a) eqn:E3.
  { rewrite !andb_true_iff in Hs. destruct Hs as ((Hb & Hc) & Hs). destruct (IH s n ltac:(lia) Hs ltac:(lia)) as (k & Hk & Hv).
    exists (S (S (S k))). split; [lia|]. cbn [take validUTF8]. by rewrite Ea, E2, E3, Hb, Hc. }
  destruct s as [|d s]; [done|]. destruct n as [|n]; [exists 0%nat; split; [lia|done]|]. cbn [length] in Hm, Hn.
  rewrite !andb_true_iff in Hs. destruct Hs as ((((H4 & Hb) & Hc) & Hd) & Hs). destruct (IH s n ltac:(lia) Hs ltac:(lia)) as (k & Hk & Hv).
  exists (S (S (S (S k)))). split; [lia|]. cbn [take validUTF8]. by rewrite Ea, E2, E3, H4, Hb, Hc, Hd.
Qed.

Lemma trimRune_spec n s : ∃ k, (k ≤ n)%nat ∧ trimRune n s = take k s ∧ validUTF8 (take k s) = true ∧
  ∀ j, (j ≤ n)%nat → validUTF8 (take j s) = true → (j ≤ k)%nat.
Proof.
  induction n as [|n IH]; [exists 0%nat; repeat split; try done; lia|]. cbn [trimRune].
  destruct (validUTF8 (take (S n) s)) eqn:E; [exists (S n); repeat split; try done; lia|].
  destruct IH as (k & Hk & Ht & Hv & Hmax). exists k. repeat split; [lia|done|done|]. intros j Hj Hvj.
  destruct (decide (j = S n)) as [->|]; [by rewrite E in Hvj|]. apply Hmax; [lia|done].
Qed.

(** the text that is sent fits the broker's attribute: it is at most 256
    bytes, a beginning of what was to be sent, all of that if it fits, and
    otherwise cut between runes: valid text loses at most three bytes more. *)
Lemma detail_fits err :
  let d := bytes (ErrorDetail (Some err)) in
  let msg := match firstSafe err with Some (quoted, safe) => replaceFirst (bytes (Error err)) (bytes quoted) (bytes safe) | None => bytes (Error err) end in
  (length d ≤ 256)%nat ∧ d `prefix_of` msg ∧ ((length msg ≤ 256)%nat → d = msg) ∧
  ((256 < length msg)%nat → validUTF8 d = true) ∧
  (validUTF8 msg = true → validUTF8 d = true ∧ (Nat.min 253 (length msg) ≤ length d)%nat).
Proof.
  intros d msg. assert (Hd : d = truncated msg) by (subst d; unfold ErrorDetail; by rewrite bytes_text).
  clearbody msg d. subst d. unfold truncated, detailMaxBytes. destruct (Nat.leb_spec (length msg) 256) as [Hle|Hgt].
  { split_and!; try lia; auto. intros Hv. split; [done|lia]. }
  destruct (trimRune_spec 256 msg) as (k & Hk & -> & Hv & Hmax). rewrite length_take. split_and!; try done; try lia.
  - apply prefix_take.
  - intros Hm. split; [done|]. destruct (validUTF8_cut (length msg) msg 256 ltac:(done) Hm ltac:(lia)) as (j & Hj & Hvj).
    specialize (Hmax j ltac:(lia) Hvj). lia.
Qed.

(** ** Poisoned answers *)
Lemma private_second b : 0 ≤ b < 256 → (Z.land b 240 =? 16) = (16 <=? b) && (b <? 32).
Proof. intros Hb. apply Bool.eqb_prop. apply (allBelow_spec 256 0 (λ b, Bool.eqb (Z.land b 240 =? 16) ((16 <=? b) && (b <? 32)))); [vm_compute; done|lia]. Qed.

Lemma unique_byte b : 0 ≤ b < 256 → (Z.land b 254 =? 252) = (b =? 252) || (b =? 253).
Proof. intros Hb. apply Bool.eqb_prop. apply (allBelow_spec 256 0 (λ b, Bool.eqb (Z.land b 254 =? 252) ((b =? 252) || (b =? 253)))); [vm_compute; done|lia]. Qed.
Lemma link_second b : 0 ≤ b < 256 → (Z.land b 192 =? 128) = (128 <=? b) && (b <? 192).
Proof. intros Hb. apply Bool.eqb_prop. apply (allBelow_spec 256 0 (λ b, Bool.eqb (Z.land b 192 =? 128) ((128 <=? b) && (b <? 192)))); [vm_compute; done|lia]. Qed.

Lemma ipByte_bound ip i : 0 ≤ ipByte ip i < 256.
Proof. destruct ip; cbn [ipByte]; apply Z.mod_pos_bound; lia. Qed.

Lemma parseDigits_nonneg s : ∀ acc n, 0 ≤ acc → parseDigits acc s = Some n → 0 ≤ n.
Proof.
  induction s as [|c s IH]; intros acc n Hacc; cbn [parseDigits]; [by intros [= <-]|].
  destruct (undigit c) as [d|] eqn:E; [|done]. cbn. apply IH. unfold undigit in E. destruct (_ && _) eqn:Er; [|done].
  apply andb_true_iff in Er as [?%Z.leb_le ?%Z.leb_le]. injection E as <-. lia.
Qed.

Lemma octet_range s n : octet s = Some n → 0 ≤ n ≤ 255.
Proof.
  unfold octet. destruct s as [|c rest]; [done|]. destruct (_ && _); [done|]. destruct (_ <? _)%nat; [done|].
  destruct (parseDigits 0 (c :: rest)) as [m|] eqn:E; [|done]. cbn. destruct (Z.leb_spec m 255); [|done]. intros [= <-].
  apply parseDigits_nonneg in E; lia.
Qed.

Lemma parseIPv4_range s v : parseIPv4 s = Some v → 0 ≤ v < 2 ^ 32.
Proof.
  unfold parseIPv4. destruct (splitOn 46 s) as [|a [|b [|c [|d [|]]]]]; try done.
  destruct (octet a) as [w|] eqn:E1; [|done]. destruct (octet b) as [x|] eqn:E2; [|done]. destruct (octet c) as [y|] eqn:E3; [|done].
  destruct (octet d) as [z|] eqn:E4; [|done]. apply octet_range in E1, E2, E3, E4. cbn. intros [= <-]. lia.
Qed.

Lemma ParseAddr_V4 s v : ParseAddr s = Some (V4 v) → 0 ≤ v < 2 ^ 32.
Proof.
  unfold ParseAddr. destruct (_ =? 46).
  - destruct (parseIPv4 (bytes s)) as [w|] eqn:E; [|done]. intros [= <-]. by eapply parseIPv4_range.
  - destruct (_ =? 58); [|done]. unfold parseZoned. destruct (cutAt 37 (bytes s)) as [[a zone]|].
    + destruct (bool_decide _); [done|]. by destruct (parseIPv6 a).
    + by destruct (parseIPv6 (bytes s)).
Qed.

Lemma ParseAddrPort_V4 s a p v : ParseAddrPort s = Some (a, p) → Unmap a = V4 v → 0 ≤ v < 2 ^ 32.
Proof.
  unfold ParseAddrPort. destruct (cutLast 58 (bytes s)) as [[ip port]|]; [|done]. cbn. destruct (_ || _); [done|].
  destruct (if startsWith 91 ip then _ else _) as [inner|]; [|done]. cbn. destruct (parseDigits 0 port); [|done]. cbn.
  destruct (ParseAddr (text inner)) as [addr|] eqn:E; [|done]. cbn. destruct (_ || _); [done|]. intros [= -> _].
  destruct a as [w|w zone]; cbn; [intros [= <-]; by eapply ParseAddr_V4|]. destruct (_ =? 65535); [|done]. intros [= <-].
  apply Z.mod_pos_bound. lia.
Qed.

(** The reserved ranges of the comment, byte by byte. *)
Definition reserved (a : Addr) : Prop :=
  let b := ipByte a in
  match a with
  | V4 _ => b 0 = 0 ∨ b 0 = 10 ∨ b 0 = 127 ∨ b 0 = 100 ∧ 64 ≤ b 1 ≤ 127 ∨ b 0 = 169 ∧ b 1 = 254 ∨
            b 0 = 172 ∧ 16 ≤ b 1 ≤ 31 ∨ b 0 = 192 ∧ b 1 = 168 ∨ 240 ≤ b 0
  | V6 v _ => v = 1 ∨ b 0 = 252 ∨ b 0 = 253 ∨ b 0 = 254 ∧ 128 ≤ b 1 ≤ 191
  end.

Lemma reserved_V4 v : 0 ≤ v < 2 ^ 32 →
  (IsLoopback (V4 v) || IsPrivate (V4 v) || IsLinkLocalUnicast (V4 v) || existsb (λ p, Contains p (V4 v)) bogonPrefixes = true ↔ reserved (V4 v)).
Proof.
  intros Hv. change bogonPrefixes with
    [{| prefixAddr := V4 1681915904; prefixBits := 10 |}; {| prefixAddr := V4 0; prefixBits := 8 |}; {| prefixAddr := V4 4026531840; prefixBits := 4 |}].
  unfold IsLoopback, IsPrivate, IsLinkLocalUnicast, reserved. rewrite private_second by apply ipByte_bound.
  cbn [existsb Contains prefixAddr prefixBits]. rewrite orb_false_r.
  change (1681915904 / 2 ^ (32 - 10)) with 401. change (0 / 2 ^ (32 - 8)) with 0. change (4026531840 / 2 ^ (32 - 4)) with 15.
  change (2 ^ (32 - 10)) with 4194304. change (2 ^ (32 - 8)) with 16777216. change (2 ^ (32 - 4)) with 268435456.
  cbn [ipByte]. change (2 ^ (8 * (3 - 0))) with 16777216. change (2 ^ (8 * (3 - 1))) with 65536.
  assert (E0 : v / 16777216 mod 256 = v / 16777216) by (apply Z.mod_small; split; [apply Z.div_pos; lia|apply Z.div_lt_upper_bound; lia]).
  rewrite E0. rewrite !orb_true_iff, !andb_true_iff, !Z.eqb_eq, Z.leb_le, Z.ltb_lt.
  pose proof (Z.div_mod v 16777216 ltac:(lia)). pose proof (Z.mod_pos_bound v 16777216 ltac:(lia)).
  pose proof (Z.div_mod v 4194304 ltac:(lia)). pose proof (Z.mod_pos_bound v 4194304 ltac:(lia)).
  pose proof (Z.div_mod v 268435456 ltac:(lia)). pose proof (Z.mod_pos_bound v 268435456 ltac:(lia)).
  pose proof (Z.div_mod v 65536 ltac:(lia)). pose proof (Z.mod_pos_bound v 65536 ltac:(lia)).
  pose proof (Z.div_mod (v / 65536) 256 ltac:(lia)). pose proof (Z.mod_pos_bound (v / 65536) 256 ltac:(lia)).
  lia.
Qed.

Lemma reserved_V6 v z :
  (IsLoopback (V6 v z) || IsPrivate (V6 v z) || IsLinkLocalUnicast (V6 v z) || existsb (λ p, Contains p (V6 v z)) bogonPrefixes = true ↔ reserved (V6 v z)).
Proof.
  change bogonPrefixes with
    [{| prefixAddr := V4 1681915904; prefixBits := 10 |}; {| prefixAddr := V4 0; prefixBits := 8 |}; {| prefixAddr := V4 4026531840; prefixBits := 4 |}].
  unfold IsLoopback, IsPrivate, IsLinkLocalUnicast, reserved. cbn [existsb Contains prefixAddr].
  rewrite unique_byte, link_second by apply ipByte_bound. rewrite !orb_false_r, !orb_true_iff, !andb_true_iff, !Z.eqb_eq, Z.leb_le, Z.ltb_lt.
  pose proof (ipByte_bound (V6 v z) 1). lia.
Qed.

(** a handshake is blamed on a poisoned DNS answer exactly where the dialed
    address lies in the reserved ranges, IPv4 addresses mapped into IPv6
    included. *)
Lemma bogon_ranges address addr port : ParseAddrPort address = Some (addr, port) →
  (isBogonAddress address = true ↔ reserved (Unmap addr)).
Proof.
  intros Hp. unfold isBogonAddress. rewrite Hp.
  transitivity (IsLoopback (Unmap addr) || IsPrivate (Unmap addr) || IsLinkLocalUnicast (Unmap addr) || existsb (λ p, Contains p (Unmap addr)) bogonPrefixes = true).
  { by destruct (IsLoopback (Unmap addr) || IsPrivate (Unmap addr) || IsLinkLocalUnicast (Unmap addr)). }
  destruct (Unmap addr) as [v|v z] eqn:E; [|apply reserved_V6]. apply reserved_V4. by eapply ParseAddrPort_V4.
Qed.

(** * Linux, and the contract's vectors *)
#[refine] Instance linux : Errnos := {|
  ECONNREFUSED := 111; ENETUNREACH := 101; EHOSTUNREACH := 113; ECONNRESET := 104; ETIMEDOUT := 110; EPIPE := 32; EACCES := 13; EPERM := 1;
  errnoTimeout n := (n =? 11) || (n =? 110); errnoPermission n := (n =? 13) || (n =? 1)
|}.
Proof.
  - apply (bool_decide_unpack _). vm_compute. exact I.
  - apply (Forall_forall (λ n, (n =? 11) || (n =? 110) = false)). apply (bool_decide_unpack _). vm_compute. exact I.
  - reflexivity.
  - apply (Forall_forall (λ n, (n =? 13) || (n =? 1) = false)). apply (bool_decide_unpack _). vm_compute. exact I.
  - done.
  - apply (bool_decide_unpack _). vm_compute. exact I.
Defined.

Section examples.
#[local] Open Scope string_scope.
Definition plainError (k : kind) (text : string) : goError :=
  GoError {| ev_kind := k; ev_Error := text; ev_timeout := None; ev_net := false |} false [].
Definition wrapView (text : string) : errView := {| ev_kind := KOther; ev_Error := text; ev_timeout := None; ev_net := false |}.

(** Rows of contract/vectors/classification.json. *)
Example classification_vectors :
  (λ e, ClassifyError (Some e)) <$>
    [plainError KCanceled ""; wraps [wrapView ""] (plainError KCanceled ""); plainError KDeadlineExceeded ""; plainError KNoRelaysAvailable "";
     plainError (KHTTPStatus 429) ""; plainError (KHTTPStatus 451) ""; wraps [wrapView ""] (errnoError "" ECONNREFUSED); errnoError "" EPIPE;
     errnoError "" WSAEACCES; errnoError "" WSAETIMEDOUT; errnoError "" WSAECONNABORTED; plainError (KDNSError "no such host") "";
     plainError (KCertificateInvalid true) ""; plainError KExitError ""; newDialError "tls_not_tls"; newDialError "made_up"; plainError KOther "something odd"] =
  ["cancelled"; "cancelled"; "timeout"; "no_relays_available"; "rate_limited"; "http_451"; "connection_refused"; "unknown"; "permission_denied";
   "timeout"; "unknown"; "dns_failure"; "tls_handshake"; "process_exited"; "tls_not_tls"; "wss_transport_failed"; "unknown"].
Proof. vm_compute. reflexivity. Qed.

Definition connectedPhases : dialPhases :=
  {| tcpConnected := true; tlsStarted := true; tlsDone := false; gotFirstResponseByte := false; bogonAddress := false |}.
Definition exampleReset : goError := wraps [wrapView "read tcp 192.0.2.7:443: connection reset by peer"] (errnoError "connection reset by peer" ECONNRESET).

Lemma handshake_tokens_witness : classifyDialFailure exampleReset None connectedPhases = ReasonTLSReset ∧
  tlsStarted connectedPhases = true ∧ tlsDone connectedPhases = false.
Proof.
  split; [vm_compute; reflexivity|].
  destruct (handshake_tokens exampleReset None connectedPhases) as (_ & _ & H). destruct (H eq_refl) as (_ & Htls & _).
  apply Htls. vm_compute. left.
Defined.

Lemma wss_token_reported_witness :
  IsSocketProtectionFailed exampleReset = false ∧
  ClassifyError (Some (wraps [wrapView "WSS path failed"; wrapView "candidate failed"] (dialFailure exampleReset None connectedPhases))) = ReasonTLSReset.
Proof.
  split; [vm_compute; reflexivity|].
  rewrite (proj1 (wss_token_reported [wrapView "WSS path failed"; wrapView "candidate failed"] exampleReset None connectedPhases
    ltac:(repeat constructor) ltac:(vm_compute; reflexivity))). vm_compute. reflexivity.
Defined.

Lemma taxonomies_agree_witness :
  ClassifyError (Some (errnoError "" ETIMEDOUT)) = ClassifyError (Some (errnoError "" WSAETIMEDOUT)) ∧
  (ClassifyError (Some (errnoError "" EPIPE)), SocketErrnoReason "" EPIPE) = ("unknown", "connection_reset")%string.
Proof.
  destruct (taxonomies_agree "" "") as (H1 & _ & H3). split; [apply (H1 ETIMEDOUT WSAETIMEDOUT); do 4 right; left|].
  destruct (H3 EPIPE) as [-> ->]; [|vm_compute; reflexivity].
  apply (bool_decide_unpack _). vm_compute. exact I.
Defined.

(** 200 two-byte runes do not fit: the cut at 256 is between runes. *)
Definition longText : string := text (replicate 1 (chr 97) ++ concat (replicate 200 [chr 195; chr 169])).
Lemma detail_fits_witness : validUTF8 (bytes longText) = true ∧ length (bytes (ErrorDetail (Some (plainError KOther longText)))) = 255%nat ∧
  validUTF8 (bytes (ErrorDetail (Some (plainError KOther longText)))) = true.
Proof.
  split; [vm_compute; reflexivity|split; [vm_compute; reflexivity|]].
  destruct (detail_fits (plainError KOther longText)) as (_ & _ & _ & _ & H). apply H. vm_compute. reflexivity.
Defined.

Lemma bogon_ranges_witness : ParseAddrPort "[::ffff:10.10.34.35]:443" = Some (V6 281470850179619 "", 443%Z) ∧
  isBogonAddress "[::ffff:10.10.34.35]:443" = true.
Proof.
  assert (Hp : ParseAddrPort "[::ffff:10.10.34.35]:443" = Some (V6 281470850179619 "", 443%Z)) by (vm_compute; reflexivity).
  split; [exact Hp|]. apply (proj2 (bogon_ranges _ _ _ Hp)). vm_compute. right. left. reflexivity.
Defined.
End examples.
