(* ===== verification/OsProxy.v ===== *)
(** The system proxy of the client: what a session does to it and how it is put
    back (src/libs/connectcore/engine.go: [applyProxy], [releaseProxy],
    [cleanupConn], [Start]; src/core/host.go: [osProxyAdapter]) over the Windows
    controller (src/libs/openrung/internal/proxymode/windows_controller.go,
    windows.go).

    The registry (golang.org/x/sys/windows/registry) and wininet are a class
    [Registry]; the engine sees a controller through the class [OSProxy], which
    [windowsProxy] instantiates, and its on-disk state through [SnapshotStore].
    Every operation may fail at any call: the world it runs in decides.  The
    engine's code runs in a state monad that records the world after every
    call, so that a crash is the choice of one of them.  Log lines are left
    out. *)
From stdpp Require Import base gmap strings.
From Stdlib Require Import ZArith Lia.
From S2P Require Import Prelude Codec Netip.

(** * The Windows backend *)
Record WindowsProxyState := {
  ProxyEnable : bool; ProxyServer : string; ProxyOverride : string; AutoConfigURL : string
}.
#[export] Instance WindowsProxyState_eq_dec : EqDecision WindowsProxyState.
Proof. solve_decision. Defined.

Definition disabledProxy : WindowsProxyState :=
  {| ProxyEnable := false; ProxyServer := ""; ProxyOverride := ""; AutoConfigURL := "" |}.

Inductive regValue := RegDword (z : Z) | RegSz (s : string) | RegOther.
Inductive regErr := ErrNotExist | ErrRegistry.

(** The values of one registry key.  [reg_values] is what they are; a read or a
    write may fail, and a failed write changes nothing. *)
Class Registry (W : Type) := {
  reg_values : W → gmap string regValue;
  OpenKey : W → bool * W;
  GetIntegerValue : string → W → result regErr Z * W;
  GetStringValue : string → W → result regErr string * W;
  SetDWordValue : string → Z → W → bool * W;
  SetStringValue : string → string → W → bool * W;
  DeleteValue : string → W → option regErr * W;
  internetSetOption : Z → W → bool * W;
  OpenKey_values w : reg_values (OpenKey w).2 = reg_values w;
  GetIntegerValue_values name w : reg_values (GetIntegerValue name w).2 = reg_values w;
  GetStringValue_values name w : reg_values (GetStringValue name w).2 = reg_values w;
  internetSetOption_values o w : reg_values (internetSetOption o w).2 = reg_values w;
  GetIntegerValue_ok name w z :
    (GetIntegerValue name w).1 = Ok z → reg_values w !! name = Some (RegDword z);
  GetIntegerValue_absent name w :
    (GetIntegerValue name w).1 = Err ErrNotExist → reg_values w !! name = None;
  GetStringValue_spec name w :
    match (GetStringValue name w).1 with
    | Ok s => reg_values w !! name = Some (RegSz s)
    | Err _ => ∀ s, reg_values w !! name ≠ Some (RegSz s)
    end;
  SetDWordValue_spec name z w :
    reg_values (SetDWordValue name z w).2 =
      if (SetDWordValue name z w).1 then <[name := RegDword z]> (reg_values w) else reg_values w;
  SetStringValue_spec name s w :
    reg_values (SetStringValue name s w).2 =
      if (SetStringValue name s w).1 then <[name := RegSz s]> (reg_values w) else reg_values w;
  DeleteValue_spec name w :
    reg_values (DeleteValue name w).2 =
      match (DeleteValue name w).1 with None => delete name (reg_values w) | Some _ => reg_values w end;
  DeleteValue_absent name w :
    (DeleteValue name w).1 = Some ErrNotExist → reg_values w !! name = None
}.
#[export] Hint Mode Registry ! : typeclass_instances.

(** What Windows reads out of the key. *)
Definition stringValue (m : gmap string regValue) (name : string) : string :=
  match m !! name with Some (RegSz s) => s | _ => "" end.
Definition integerValue (m : gmap string regValue) (name : string) : bool :=
  match m !! name with Some (RegDword z) => negb (z =? 0) | _ => false end.
Definition proxyStateOf (m : gmap string regValue) : WindowsProxyState :=
  {| ProxyEnable := integerValue m "ProxyEnable"; ProxyServer := stringValue m "ProxyServer";
     ProxyOverride := stringValue m "ProxyOverride"; AutoConfigURL := stringValue m "AutoConfigURL" |}.

Record ServiceProxyState := {
  sp_Name : string; WebEnabled : bool; WebHost : string; WebPort : Z;
  SecureEnabled : bool; SecureHost : string; SecurePort : Z
}.
Record Snapshot := {
  sn_Platform : string; sn_Services : list ServiceProxyState; sn_Windows : option WindowsProxyState
}.

Definition Host : string := "127.0.0.1".
Definition defaultProxyBypass : string :=
  "localhost;127.*;10.*;172.16.*;172.17.*;172.18.*;172.19.*;172.20.*;172.21.*;172.22.*;172.23.*;172.24.*;172.25.*;172.26.*;172.27.*;172.28.*;172.29.*;172.30.*;172.31.*;192.168.*;<local>".
Definition internetOptionSettingsChanged : Z := 39.
Definition internetOptionRefresh : Z := 37.

Section windows.
#[local] Set Default Proof Using "Type".
Context {W : Type} `{Registry W}.

Definition readString (name : string) (w : W) : string * W :=
  let '(v, w) := GetStringValue name w in
  match v with Ok s => (s, w) | Err _ => (""%string, w) end.

Definition read (w : W) : option WindowsProxyState * W :=
  let '(opened, w) := OpenKey w in
  if negb opened then (None, w) else
  let '(enable, w) := GetIntegerValue "ProxyEnable" w in
  match enable with
  | Err ErrRegistry => (None, w)
  | _ =>
      let '(server, w) := readString "ProxyServer" w in
      let '(override, w) := readString "ProxyOverride" w in
      let '(pac, w) := readString "AutoConfigURL" w in
      (Some {| ProxyEnable := match enable with Ok z => negb (z =? 0) | Err _ => false end;
               ProxyServer := server; ProxyOverride := override; AutoConfigURL := pac |}, w)
  end.

Definition writeString (name value : string) (w : W) : bool * W :=
  if str_empty value then
    let '(err, w) := DeleteValue name w in
    (match err with Some ErrRegistry => false | _ => true end, w)
  else SetStringValue name value w.

Definition write (state : WindowsProxyState) (w : W) : bool * W :=
  let '(ok, w) := OpenKey w in
  if negb ok then (false, w) else
  let '(ok, w) := SetDWordValue "ProxyEnable" (if ProxyEnable state then 1 else 0) w in
  if negb ok then (false, w) else
  let '(ok, w) := writeString "ProxyServer" (ProxyServer state) w in
  if negb ok then (false, w) else
  let '(ok, w) := writeString "ProxyOverride" (ProxyOverride state) w in
  if negb ok then (false, w) else
  writeString "AutoConfigURL" (AutoConfigURL state) w.

Definition notify (w : W) : bool * W :=
  let '(ok, w) := internetSetOption internetOptionSettingsChanged w in
  if negb ok then (false, w) else internetSetOption internetOptionRefresh w.

(** ** The controller *)
Definition wc_Snapshot (w : W) : option Snapshot * W :=
  let '(state, w) := read w in
  match state with
  | None => (None, w)
  | Some state => (Some {| sn_Platform := "windows"; sn_Services := []; sn_Windows := Some state |}, w)
  end.

Definition ourProxy (host : string) (port : Z) : WindowsProxyState :=
  {| ProxyEnable := true; ProxyServer := text (JoinHostPort (bytes host) (FormatInt port));
     ProxyOverride := defaultProxyBypass; AutoConfigURL := "" |}.

Definition wc_Set (host : string) (port : Z) (w : W) : bool * W :=
  let '(ok, w) := write (ourProxy host port) w in
  if negb ok then (false, w) else notify w.

Definition wc_Restore (snap : Snapshot) (w : W) : bool * W :=
  if negb (str_empty (sn_Platform snap)) && negb (str_eqb (sn_Platform snap) "windows") then (false, w) else
  let '(ok, w) := write (default disabledProxy (sn_Windows snap)) w in
  if negb ok then (false, w) else notify w.

Definition Describe (w : W) : string * W :=
  let '(state, w) := read w in
  match state with
  | None => (""%string, w)
  | Some state =>
      (if ProxyEnable state && negb (str_empty (ProxyServer state)) then ProxyServer state else AutoConfigURL state, w)
  end.

Definition Clear (w : W) : bool * W :=
  let '(state, w) := read w in
  match state with
  | None => (false, w)
  | Some state =>
      let '(ok, w) := write {| ProxyEnable := false; ProxyServer := ""; ProxyOverride := ProxyOverride state;
                               AutoConfigURL := "" |} w in
      if negb ok then (false, w) else notify w
  end.

(** ** What the calls leave in the registry *)
Lemma readString_spec name w :
  readString name w = (stringValue (reg_values w) name, (readString name w).2) ∧
  reg_values (readString name w).2 = reg_values w.
Proof.
  unfold readString, stringValue. pose proof (GetStringValue_spec name w) as Hs.
  pose proof (GetStringValue_values name w) as Hv. destruct (GetStringValue name w) as [[s|e] w']; cbn in *.
  - by rewrite Hs.
  - split; [|done]. destruct (reg_values w !! name) as [[| s|]|]; [done| |done..]. by destruct (Hs s).
Qed.

(** A successful read is the view of the key, and reads change nothing. *)
Lemma read_spec w :
  reg_values (read w).2 = reg_values w ∧
  ∀ st, (read w).1 = Some st → st = proxyStateOf (reg_values w).
Proof.
  unfold read. pose proof (OpenKey_values w) as H1. destruct (OpenKey w) as [[] w1]; cbn in *; [|done].
  pose proof (GetIntegerValue_values "ProxyEnable" w1) as H2.
  pose proof (GetIntegerValue_ok "ProxyEnable" w1) as Hok. pose proof (GetIntegerValue_absent "ProxyEnable" w1) as Habs.
  destruct (GetIntegerValue "ProxyEnable" w1) as [enable w2]. cbn in *.
  destruct (readString_spec "ProxyServer" w2) as [E3 H3].
  destruct (readString "ProxyServer" w2) as [server w3]. simplify_eq/=.
  destruct (readString_spec "ProxyOverride" w3) as [E4 H4].
  destruct (readString "ProxyOverride" w3) as [override w4]. simplify_eq/=.
  destruct (readString_spec "AutoConfigURL" w4) as [E5 H5].
  destruct (readString "AutoConfigURL" w4) as [pac w5]. simplify_eq/=.
  assert (Hm : reg_values w5 = reg_values w) by congruence.
  destruct enable as [z|[]]; cbn; (split; [congruence|]); intros st [= <-];
    unfold proxyStateOf, integerValue; rewrite <- H1, H4, H3, H2.
  - by rewrite (Hok z).
  - by rewrite Habs.
Qed.

Lemma writeString_spec name value w :
  (writeString name value w).1 = true →
  stringValue (reg_values (writeString name value w).2) name = value ∧
  ∀ other, other ≠ name → reg_values (writeString name value w).2 !! other = reg_values w !! other.
Proof.
  unfold writeString, str_empty, stringValue. case_bool_decide as Hv.
  - pose proof (DeleteValue_spec name w) as Hd. pose proof (DeleteValue_absent name w) as Ha.
    destruct (DeleteValue name w) as [[[]|] w']; cbn in *; intros He; [|done|]; rewrite Hd; subst value.
    + by rewrite Ha.
    + rewrite lookup_delete_eq. split; [done|]. intros other Hne. by apply lookup_delete_ne.
  - pose proof (SetStringValue_spec name value w) as Hs. intros Hok. rewrite Hok in Hs. rewrite Hs, lookup_insert_eq.
    split; [done|]. intros other Hne. by apply lookup_insert_ne.
Qed.

Lemma notify_values w : reg_values (notify w).2 = reg_values w.
Proof.
  unfold notify. pose proof (internetSetOption_values internetOptionSettingsChanged w) as H1.
  destruct (internetSetOption internetOptionSettingsChanged w) as [[] w1]; cbn in *; [|done].
  by rewrite internetSetOption_values.
Qed.

(** What [read] reads back is what a complete [write] wrote. *)
Lemma write_spec st w :
  (write st w).1 = true → proxyStateOf (reg_values (write st w).2) = st.
Proof.
  unfold write. pose proof (OpenKey_values w) as H1. destruct (OpenKey w) as [[] w1]; cbn in *; [|done].
  pose proof (SetDWordValue_spec "ProxyEnable" (if ProxyEnable st then 1 else 0) w1) as H2.
  destruct (SetDWordValue "ProxyEnable" _ w1) as [[] w2]; cbn in *; [|done].
  pose proof (writeString_spec "ProxyServer" (ProxyServer st) w2) as H3.
  destruct (writeString "ProxyServer" _ w2) as [[] w3]; cbn in *; [|done].
  pose proof (writeString_spec "ProxyOverride" (ProxyOverride st) w3) as H4.
  destruct (writeString "ProxyOverride" _ w3) as [[] w4]; cbn in *; [|done].
  intros Hok. destruct (writeString_spec "AutoConfigURL" (AutoConfigURL st) w4 Hok) as [H5 F5].
  destruct (H3 eq_refl) as [E3 F3]. destruct (H4 eq_refl) as [E4 F4].
  destruct (writeString "AutoConfigURL" _ w4) as [ok w5]; cbn in *.
  unfold proxyStateOf, integerValue. unfold stringValue in *.
  rewrite H5, F5, F4, F3, H2, lookup_insert_eq by done.
  rewrite !F5 by done. rewrite E4, F4, E3 by done. by destruct st as [[] ???].
Qed.

(** Putting back the snapshot of a key, however it was changed meanwhile, puts
    back what Windows read out of it. *)
Lemma restore_spec snap w :
  (wc_Restore snap w).1 = true →
  proxyStateOf (reg_values (wc_Restore snap w).2) = default disabledProxy (sn_Windows snap).
Proof.
  unfold wc_Restore. destruct (negb _ && negb _); [done|].
  pose proof (write_spec (default disabledProxy (sn_Windows snap)) w) as Hw.
  destruct (write _ w) as [[] w1]; cbn in *; [|done]. intros _. by rewrite notify_values, Hw.
Qed.

Lemma snapshot_spec w :
  reg_values (wc_Snapshot w).2 = reg_values w ∧
  ∀ snap, (wc_Snapshot w).1 = Some snap →
    sn_Platform snap = "windows"%string ∧ sn_Windows snap = Some (proxyStateOf (reg_values w)).
Proof.
  unfold wc_Snapshot. destruct (read_spec w) as [Hm Hs]. destruct (read w) as [[st|] w']; cbn in *; (split; [done|]).
  - intros snap [= <-]. cbn. by rewrite (Hs st).
  - done.
Qed.

Lemma set_spec host port w :
  (wc_Set host port w).1 = true → proxyStateOf (reg_values (wc_Set host port w).2) = ourProxy host port.
Proof.
  unfold wc_Set. pose proof (write_spec (ourProxy host port) w) as Hw.
  destruct (write _ w) as [[] w1]; cbn in *; [|done]. intros _. by rewrite notify_values, Hw.
Qed.
End windows.

(** * The engine's interfaces

    [OSProxy] is interfaces.go's contract of a controller over worlds [W]:
    [osp_view] is what the operating system uses, [osp_state] what a snapshot
    holds.  A call that fails may leave any setting behind.  [SnapshotStore] is
    the part of Persistence the proxy needs; the two share a world and leave
    each other's part alone. *)
Class OSProxy (W V S : Type) := {
  osp_Supported : bool;
  osp_Snapshot : W → option S * W;
  osp_Set : string → Z → W → bool * W;
  osp_Restore : S → W → bool * W;
  osp_view : W → V;
  osp_state : S → V;
  osp_Snapshot_view w : osp_view (osp_Snapshot w).2 = osp_view w;
  osp_Snapshot_ok w s : (osp_Snapshot w).1 = Some s → osp_state s = osp_view w;
  osp_Restore_ok s w : (osp_Restore s w).1 = true → osp_view (osp_Restore s w).2 = osp_state s
}.

Class SnapshotStore (W V S : Type) `{OSProxy W V S} := {
  SaveProxySnapshot : S → W → bool * W;
  LoadProxySnapshot : W → option S;
  ClearProxySnapshot : W → bool * W;
  Save_ok s w : (SaveProxySnapshot s w).1 = true → LoadProxySnapshot (SaveProxySnapshot s w).2 = Some s;
  Clear_load w : LoadProxySnapshot (ClearProxySnapshot w).2 =
    if (ClearProxySnapshot w).1 then None else LoadProxySnapshot w;
  Save_view s w : osp_view (SaveProxySnapshot s w).2 = osp_view w;
  Clear_view w : osp_view (ClearProxySnapshot w).2 = osp_view w;
  Snapshot_load w : LoadProxySnapshot (osp_Snapshot w).2 = LoadProxySnapshot w;
  Set_load host port w : LoadProxySnapshot (osp_Set host port w).2 = LoadProxySnapshot w;
  Restore_load s w : LoadProxySnapshot (osp_Restore s w).2 = LoadProxySnapshot w
}.
#[export] Hint Mode OSProxy ! - - : typeclass_instances.
#[export] Hint Mode SnapshotStore ! - - - : typeclass_instances.

(** The Windows controller keeps the contract. *)
#[export, refine] Instance windowsProxy {W} `{Registry W} : OSProxy W WindowsProxyState Snapshot := {|
  osp_Supported := true;
  osp_Snapshot := wc_Snapshot;
  osp_Set := wc_Set;
  osp_Restore := wc_Restore;
  osp_view w := proxyStateOf (reg_values w);
  osp_state s := default disabledProxy (sn_Windows s)
|}.
Proof.
  - intros w. by rewrite (proj1 (snapshot_spec w)).
  - intros w s Hs. by rewrite (proj2 (proj2 (snapshot_spec w) s Hs)).
  - apply restore_spec.
Defined.

(** * The engine's use of them *)
Record engineHost := { tunMode : bool; hasOSProxy : bool; hasPersistence : bool }.

(** The proxy fields of a [connection]; [snapshot] is nil until taken. *)
Record proxyConn (S : Type) := { proxySet : bool; snapshotTaken : bool; snapshot : option S }.
Arguments proxySet {S}. Arguments snapshotTaken {S}. Arguments snapshot {S}.
Definition newConn {S} : proxyConn S := {| proxySet := false; snapshotTaken := false; snapshot := None |}.

Section engine.
#[local] Set Default Proof Using "Type".
Context {W V S : Type} `{SnapshotStore W V S} (e : engineHost).

#[local] Notation storedSnapshot := (LoadProxySnapshot (W := W) (V := V) (S := S)).
#[local] Notation clearSnapshot := (ClearProxySnapshot (W := W) (V := V) (S := S)).
#[local] Notation held := (osp_state (W := W) (V := V) (S := S)).
#[local] Notation view := (osp_view (W := W) (V := V) (S := S)).

(** The state monad that records the world every call leaves. *)
Definition P (A : Type) : Type := proxyConn S * W → A * list W * (proxyConn S * W).
#[global] Instance P_ret : MRet P := λ A a s, (a, [], s).
#[global] Instance P_bind : MBind P := λ A B k m s,
  let '(a, l1, s1) := m s in
  let '(b, l2, s2) := k a s1 in (b, l1 ++ l2, s2).
Definition call {A} (f : W → A * W) : P A := λ '(c, w), let '(a, w') := f w in (a, [w'], (c, w')).
Definition getConn : P (proxyConn S) := λ s, (s.1, [], s).
Definition putConn (c : proxyConn S) : P () := λ s, ((), [], (c, s.2)).
Definition setProxySet (b : bool) : P () :=
  c ← getConn; putConn {| proxySet := b; snapshotTaken := snapshotTaken c; snapshot := snapshot c |}.

(** [s.OSProxy.Restore(conn.snapshot)]; the adapter refuses a nil snapshot. *)
Definition restoreSnapshot : P bool :=
  c ← getConn;
  match snapshot c with
  | Some s => call (osp_Restore s)
  | None => mret false
  end.

Definition persisting (f : W → bool * W) : P () :=
  if hasPersistence e then _ ← call f; mret tt else mret tt.

(** Capture the setting, once per connection; false when it cannot be read. *)
Definition capture : P bool :=
  c ← getConn;
  if snapshotTaken c then mret true else
  snap ← call osp_Snapshot;
  match snap with
  | None => mret false
  | Some s =>
      _ ← putConn {| proxySet := proxySet c; snapshotTaken := true; snapshot := Some s |};
      _ ← persisting (SaveProxySnapshot s);
      mret true
  end.

Definition applyProxy (port : Z) : P () :=
  if tunMode e then mret tt else
  if negb (hasOSProxy e && osp_Supported (W := W) (V := V) (S := S)) then mret tt else
  captured ← capture;
  if negb captured then mret tt else
  _ ← setProxySet true;
  ok ← call (osp_Set Host port);
  if negb ok then
    restored ← restoreSnapshot;
    if negb restored then mret tt else
    _ ← setProxySet false;
    persisting clearSnapshot
  else
    c ← getConn;
    match snapshot c with
    | Some s => persisting (SaveProxySnapshot s)
    | None => mret tt
    end.

Definition releaseProxy : P bool :=
  c ← getConn;
  if proxySet c then
    if negb (hasOSProxy e) then mret false else
    restored ← restoreSnapshot;
    if negb restored then mret false else
    _ ← setProxySet false; mret true
  else mret true.

(** [cleanupConn] after the candidate is torn down; whether it restored. *)
Definition cleanupProxy : P bool :=
  restored ← releaseProxy;
  _ ← match restored with true => persisting clearSnapshot | false => mret tt end;
  mret restored.

(** The crash recovery of [Start]. *)
Definition Start (w : W) : W :=
  if hasPersistence e then
    match storedSnapshot w with
    | Some s =>
        if hasOSProxy e then
          let '(ok, w) := osp_Restore s w in
          if ok then (clearSnapshot w).2 else w
        else w
    | None => w
    end
  else w.

(** What a connection does to the proxy: it points it at a candidate it
    promotes, and takes it back when the candidate is lost. *)
Inductive proxyOp := Promote (port : Z) | Release.
Definition doOp (o : proxyOp) : P () :=
  match o with
  | Promote port => applyProxy port
  | Release => _ ← releaseProxy; mret tt
  end.
Fixpoint doOps (ops : list proxyOp) : P () :=
  match ops with
  | [] => mret tt
  | o :: ops => _ ← doOp o; doOps ops
  end.
Definition session (ops : list proxyOp) : P bool := _ ← doOps ops; cleanupProxy.
Definition runSession (ops : list proxyOp) (w : W) : bool * list W * W :=
  let '(restored, ws, (_, w')) := session ops (newConn, w) in (restored, ws, w').

(** ** Reasoning about runs

    [triple Pre m safe Post]: from a state in [Pre], every world [m] passes
    through is [safe], and it ends in [Post]. *)
Definition triple {A} (Pre : proxyConn S → W → Prop) (m : P A) (safe : W → Prop)
    (Post : A → proxyConn S → W → Prop) : Prop :=
  ∀ c w, Pre c w → let '(a, ws, (c', w')) := m (c, w) in Forall safe ws ∧ Post a c' w'.

Lemma triple_ret {A} Pre (a : A) safe Post :
  (∀ c w, Pre c w → Post a c w) → triple Pre (mret a) safe Post.
Proof. intros Hp c w Hpre. split; [done|]. by apply Hp. Qed.

Lemma triple_bind {A B} Pre (m : P A) (k : A → P B) safe Mid Post :
  triple Pre m safe Mid → (∀ a, triple (Mid a) (k a) safe Post) → triple Pre (m ≫= k) safe Post.
Proof.
  intros Hm Hk c w Hpre. unfold mbind, P_bind. specialize (Hm c w Hpre).
  destruct (m (c, w)) as [[a l1] [c1 w1]]. destruct Hm as [Hl1 Hmid].
  specialize (Hk a c1 w1 Hmid). destruct (k a (c1, w1)) as [[b l2] [c2 w2]].
  destruct Hk as [Hl2 Hpost]. split; [by apply Forall_app|done].
Qed.

Lemma triple_call {A} Pre (f : W → A * W) safe Post :
  (∀ c w, Pre c w → safe (f w).2 ∧ Post (f w).1 c (f w).2) → triple Pre (call f) safe Post.
Proof.
  intros Hf c w Hpre. unfold call. specialize (Hf c w Hpre). destruct (f w) as [a w']; cbn in *.
  destruct Hf. split; [|done]. by repeat constructor.
Qed.

Lemma triple_get Pre safe : triple Pre getConn safe (λ a c w, a = c ∧ Pre c w).
Proof. intros c w Hpre. split; [done|]. done. Qed.

Lemma triple_put Pre c' safe (Post : () → proxyConn S → W → Prop) :
  (∀ c w, Pre c w → Post () c' w) → triple Pre (putConn c') safe Post.
Proof. intros Hp c w Hpre. split; [done|]. by apply (Hp c). Qed.

Lemma triple_pre {A} (Pre Pre' : proxyConn S → W → Prop) (m : P A) safe Post :
  (∀ c w, Pre c w → Pre' c w) → triple Pre' m safe Post → triple Pre m safe Post.
Proof. intros Hp Hm c w Hpre. apply Hm. by apply Hp. Qed.

Lemma triple_post {A} Pre (m : P A) safe (Post Post' : A → proxyConn S → W → Prop) :
  (∀ a c w, Post a c w → Post' a c w) → triple Pre m safe Post → triple Pre m safe Post'.
Proof.
  intros Hp Hm c w Hpre. specialize (Hm c w Hpre). destruct (m (c, w)) as [[a l] [c' w']].
  destruct Hm. split; [done|]. by apply Hp.
Qed.

Lemma triple_persisting Pre f safe (Post : () → proxyConn S → W → Prop) :
  (∀ c w, Pre c w → if hasPersistence e then safe (f w).2 ∧ Post tt c (f w).2 else Post tt c w) →
  triple Pre (persisting f) safe Post.
Proof.
  intros Hf. unfold persisting. destruct (hasPersistence e).
  - apply (triple_bind _ _ _ _ (λ _ c w, Post tt c w)); [by apply triple_call|intros a; by apply triple_ret].
  - by apply triple_ret.
Qed.

Lemma triple_setProxySet Pre b safe (Post : () → proxyConn S → W → Prop) :
  (∀ c w, Pre c w → Post tt {| proxySet := b; snapshotTaken := snapshotTaken c; snapshot := snapshot c |} w) →
  triple Pre (setProxySet b) safe Post.
Proof.
  intros Hp. unfold setProxySet. eapply triple_bind; [apply triple_get|].
  intros a. apply triple_put. intros c w [-> Hpre]. by apply Hp.
Qed.

(** ** The invariant of a session

    While the proxy may differ from the user's setting [orig] ([proxySet]), the
    snapshot in memory holds it; in a [durable] run the one on disk does. *)
Section invariant.
Context (orig : V) (durable : bool).
Hypothesis (Hpersist : durable = true → hasPersistence e = true)
           (Hsave : durable = true → ∀ s w, (SaveProxySnapshot (W := W) (V := V) (S := S) s w).1 = true)
           (Hset : durable = true → ∀ host port w, (osp_Set (W := W) (V := V) (S := S) host port w).1 = true).

Definition recoverable (w : W) : Prop :=
  match storedSnapshot w with Some s => held s = orig | None => view w = orig end.

(** The setting is captured, and on disk if [durable]. *)
Definition captured (c : proxyConn S) (w : W) : Prop :=
  ∃ s, snapshotTaken c = true ∧ snapshot c = Some s ∧ held s = orig ∧
    (durable = true → storedSnapshot w = Some s).

Definition untouched (c : proxyConn S) (w : W) : Prop :=
  proxySet c = false ∧ view w = orig ∧
  (snapshotTaken c = false ∧ (durable = true → storedSnapshot w = None)).

Definition inv (c : proxyConn S) (w : W) : Prop :=
  untouched c w ∨ captured c w ∧ (proxySet c = false → view w = orig).

Definition safe (w : W) : Prop := durable = true → recoverable w.

Lemma captured_safe c w : captured c w → safe w.
Proof. intros (s & _ & _ & Hs & Hd) Hdur. unfold recoverable. by rewrite (Hd Hdur). Qed.

Lemma untouched_safe c w : untouched c w → safe w.
Proof. intros (_ & Hv & _ & Hd) Hdur. unfold recoverable. by rewrite (Hd Hdur). Qed.

Lemma inv_safe c w : inv c w → safe w.
Proof. intros [?|[? _]]; eauto using captured_safe, untouched_safe. Qed.

(** A call that keeps what is on disk keeps the capture. *)
Lemma captured_load c c' w w' :
  captured c w → snapshotTaken c' = snapshotTaken c → snapshot c' = snapshot c →
  (durable = true → storedSnapshot w' = storedSnapshot w) → captured c' w'.
Proof.
  intros (s & H1 & H2 & H3 & H4) E1 E2 Hl. exists s. repeat split; [congruence..|].
  intros Hd. by rewrite (Hl Hd), (H4 Hd).
Qed.

Lemma capture_triple :
  triple inv capture safe (λ ok c w, inv c w ∧ (ok = true → captured c w)).
Proof using Hpersist Hsave.
  unfold capture. eapply triple_bind; [apply triple_get|]. intros c0. cbn beta.
  destruct (snapshotTaken c0) eqn:Ht.
  { apply triple_ret. intros c w [-> Hi]. split; [done|]. intros _.
    destruct Hi as [(_ & _ & Hn & _)|[Hc _]]; [congruence|done]. }
  apply (triple_bind _ _ _ _ (λ snap c w, c0 = c ∧ untouched c w ∧ ∀ s, snap = Some s → held s = orig)).
  - apply triple_call. intros c w [-> Hi]. destruct Hi as [Hu|[(s & Hs & _) _]]; [|congruence].
    destruct Hu as (Hp & Hv & _ & Hd).
    assert (Hu : untouched c (osp_Snapshot w).2).
    { repeat split; [done|by rewrite osp_Snapshot_view|done|]. intros Hdur. rewrite Snapshot_load. by apply Hd. }
    split; [by eapply untouched_safe|]. split; [done|]. split; [done|].
    intros s Hs. by rewrite (osp_Snapshot_ok w s Hs).
  - intros [s|].
    2: { apply triple_ret. intros c w (-> & Hu & _). split; [by left|done]. }
    eapply triple_bind.
    { apply (triple_put _ _ _ (λ _ c w, proxySet c = false ∧ view w = orig ∧ snapshotTaken c = true ∧
        snapshot c = Some s ∧ held s = orig)). intros c w (-> & (Hp & Hv & _) & Hs). cbn. eauto 6. }
    intros []. apply (triple_bind _ _ _ _ (λ _ c w, captured c w ∧ proxySet c = false ∧ view w = orig)).
    + apply triple_persisting. intros c w (Hp & Hv & Ht' & Hsn & Hs). destruct (hasPersistence e) eqn:Hper.
      * assert (captured c (SaveProxySnapshot s w).2).
        { exists s. repeat split; [done..|]. intros Hdur. apply Save_ok. by apply Hsave. }
        split; [by eapply captured_safe|]. split; [done|]. split; [done|]. by rewrite Save_view.
      * split; [|done]. exists s. repeat split; [done..|]. intros Hdur. pose proof (Hpersist Hdur). congruence.
    + intros []. apply triple_ret. intros c w (Hc & Hp & Hv). split; [right|]; auto.
Qed.

Lemma restore_triple (Pre : proxyConn S → W → Prop) :
  (∀ c w, Pre c w → captured c w) →
  triple Pre restoreSnapshot safe (λ ok c w, captured c w ∧ (ok = true → view w = orig) ∧
    ∃ w0, Pre c w0 ∧ storedSnapshot w = storedSnapshot w0).
Proof.
  intros Hpre. unfold restoreSnapshot. eapply triple_bind; [apply triple_get|]. intros c0. cbn beta.
  destruct (snapshot c0) as [s|] eqn:Es.
  - apply triple_call. intros c w [-> Hp]. pose proof (Hpre c w Hp) as Hc.
    assert (Hc' : captured c (osp_Restore s w).2).
    { eapply captured_load; [exact Hc|done..|]. intros _. apply Restore_load. }
    split; [by eapply captured_safe|]. split; [done|]. split.
    + intros Hok. rewrite (osp_Restore_ok s w Hok). destruct Hc as (s' & _ & Hs & Hst & _). congruence.
    + exists w. split; [done|]. apply Restore_load.
  - apply triple_ret. intros c w [-> Hp]. destruct (Hpre c w Hp) as (s & _ & Hs & _). congruence.
Qed.

Lemma applyProxy_triple port : triple inv (applyProxy port) safe (λ _, inv).
Proof using Hpersist Hsave Hset.
  unfold applyProxy. destruct (tunMode e); [by apply triple_ret|].
  destruct (negb _); [by apply triple_ret|].
  eapply triple_bind; [apply capture_triple|]. intros [|]; cbn [negb].
  2: { apply triple_ret. by intros c w [? _]. }
  eapply triple_bind.
  { apply (triple_setProxySet _ _ _ (λ _ c w, captured c w ∧ proxySet c = true)). intros c w [_ Hc]. split; [|done].
    eapply captured_load; [by apply Hc|done..]. }
  intros []. apply (triple_bind _ _ _ _ (λ ok c w, captured c w ∧ proxySet c = true ∧ (ok = false → durable = false))).
  { apply triple_call. intros c w [Hc Hp].
    assert (Hc' : captured c (osp_Set Host port w).2).
    { eapply captured_load; [exact Hc|done..|]. intros _. apply Set_load. }
    split; [by eapply captured_safe|]. split; [done|]. split; [done|]. intros Hf.
    apply not_true_is_false. intros Hd. pose proof (Hset Hd Host port w). congruence. }
  intros [|]; cbn [negb].
  - eapply triple_bind; [apply triple_get|]. intros c0. cbn beta. destruct (snapshot c0) as [s|] eqn:Es.
    + apply triple_persisting. intros c w (-> & Hc & Hp & _). destruct (hasPersistence e).
      * assert (Hc' : captured c (SaveProxySnapshot s w).2).
        { destruct Hc as (s' & H1 & H2 & H3 & H4). exists s. repeat split; [done..|congruence|].
          intros Hd. apply Save_ok. by apply Hsave. }
        split; [by eapply captured_safe|]. right. split; [done|]. congruence.
      * right. split; [done|]. congruence.
    + apply triple_ret. intros c w (-> & Hc & Hp & _). right. split; [done|congruence].
  - eapply triple_bind.
    { eapply triple_pre; [|apply (restore_triple (λ c w, captured c w ∧ proxySet c = true ∧ durable = false))].
      - intros c w (Hc & Hp & Hd). auto.
      - by intros c w [? _]. }
    intros [|]; cbn [negb].
    2: { apply triple_ret. intros c w (Hc & _ & w0 & (_ & Hp & _) & _). right. split; [done|congruence]. }
    eapply triple_bind.
    { apply (triple_setProxySet _ _ _ (λ _ c w, captured c w ∧ view w = orig ∧ durable = false)).
      intros c w (Hc & Hv & w0 & (_ & _ & Hd) & _). split; [eapply captured_load; [exact Hc|done..]|auto]. }
    intros []. apply triple_persisting. intros c w (Hc & Hv & Hd). destruct (hasPersistence e).
    + split; [intros Hd'; congruence|]. right. split; [|by rewrite Clear_view].
      eapply captured_load; [exact Hc|done..|congruence].
    + right. auto.
Qed.

Lemma releaseProxy_triple : triple inv releaseProxy safe (λ ok c w, inv c w ∧ (ok = true → view w = orig)).
Proof.
  unfold releaseProxy. eapply triple_bind; [apply triple_get|]. intros c0. cbn beta.
  destruct (proxySet c0) eqn:Ep.
  2: { apply triple_ret. intros c w [-> Hi]. split; [done|]. intros _. destruct Hi as [(_ & ? & _)|[_ Hv]]; auto. }
  destruct (hasOSProxy e); cbn [negb]; [|by apply triple_ret; intros c w [_ ?]].
  eapply triple_bind.
  { eapply triple_pre; [|apply (restore_triple (λ c w, captured c w ∧ proxySet c = true))].
    - intros c w [-> [(? & _)|[? _]]]; [congruence|done].
    - by intros c w [? _]. }
  intros [|]; cbn [negb].
  - eapply triple_bind.
    { apply (triple_setProxySet _ _ _ (λ _ c w, inv c w ∧ view w = orig)).
      intros c w (Hc & Hv & _). split; [right; split; [eapply captured_load; [exact Hc|done..]|auto]|auto]. }
    intros []. apply triple_ret. by intros c w [? ?].
  - apply triple_ret. intros c w (Hc & _ & w0 & [_ Hp] & _). split; [right; split; [done|congruence]|done].
Qed.

Lemma doOps_triple ops : triple inv (doOps ops) safe (λ _, inv).
Proof using Hpersist Hsave Hset.
  induction ops as [|o ops IH]; cbn [doOps]; [by apply triple_ret|].
  apply (triple_bind _ _ _ _ (λ _, inv)); [|done]. destruct o as [port|]; cbn [doOp]; [apply applyProxy_triple|].
  eapply triple_bind; [apply releaseProxy_triple|]. intros a. apply triple_ret. by intros c w [? _].
Qed.

(** What a restored session leaves. *)
Definition settled (w : W) : Prop :=
  view w = orig ∧
  (hasPersistence e = true → (∀ w, (clearSnapshot w).1 = true) → storedSnapshot w = None).

(** Everything a session passes through is safe; if its last restore worked,
    the setting is the user's own again. *)
Lemma session_triple ops :
  triple inv (session ops) safe (λ ok c w, ok = true → settled w).
Proof using Hpersist Hsave Hset.
  unfold session. eapply triple_bind; [apply doOps_triple|]. intros []. unfold cleanupProxy.
  eapply triple_bind; [apply releaseProxy_triple|]. intros [|].
  2: { eapply triple_bind; [by apply (triple_ret _ _ _ (λ _ _ _, True))|]. intros []. by apply triple_ret. }
  apply (triple_bind _ _ _ _ (λ _ c w, settled w)).
  - apply triple_persisting. intros c w [Hi Hv]. specialize (Hv eq_refl). unfold settled.
    destruct (hasPersistence e); [|done].
    split; [|split; [by rewrite Clear_view|intros _ Hc; by rewrite Clear_load, Hc]]. intros Hd. unfold recoverable.
    rewrite Clear_load, Clear_view. destruct (ClearProxySnapshot w).1; [done|]. exact (inv_safe c w Hi Hd).
  - intros []. by apply triple_ret.
Qed.
End invariant.
End engine.

Section theorems.
#[local] Set Default Proof Using "Type".
Context {W V S : Type} `{SnapshotStore W V S} (e : engineHost).
#[local] Notation view := (osp_view (W := W) (V := V) (S := S)).
#[local] Notation storedSnapshot := (LoadProxySnapshot (W := W) (V := V) (S := S)).

(** a session that ends with its proxy restored leaves the operating system
    on the setting it found, whatever sequence of promotions and releases it
    went through and whichever calls to the controller and the disk failed on
    the way; and, removals working, it leaves no snapshot for the next launch. *)
Lemma session_restores_proxy ops w ws w' :
  runSession (V := V) (S := S) e ops w = (true, ws, w') → settled e (view w) w'.
Proof.
  unfold runSession. intros Hrun.
  pose proof (session_triple e (view w) false (λ E, match diff_false_true E with end) (λ E, match diff_false_true E with end)
    (λ E, match diff_false_true E with end) ops newConn w) as Ht.
  destruct (session e ops (newConn, w)) as [[ok l] [c w1]]. simplify_eq.
  apply Ht; [|done]. left. by repeat split.
Qed.

(** C16: a crash at any point of a session loses nothing: if the snapshot can be
    saved and the controller's [Set] works, then from every world the session
    passes through, the next launch puts the user's setting back, provided its
    one restore works. *)
Theorem crash_recovers_proxy ops w ws w' restored crashed :
  hasPersistence e = true → hasOSProxy e = true →
  (∀ s w, (SaveProxySnapshot (W := W) (V := V) (S := S) s w).1 = true) →
  (∀ host port w, (osp_Set (W := W) (V := V) (S := S) host port w).1 = true) →
  storedSnapshot w = None →
  runSession (V := V) (S := S) e ops w = (restored, ws, w') → crashed ∈ ws →
  (∀ s, storedSnapshot crashed = Some s → (osp_Restore (W := W) (V := V) (S := S) s crashed).1 = true) →
  view (Start (V := V) (S := S) e crashed) = view w.
Proof.
  intros Hp Ho Hsave Hset Hl Hrun Hin Hrestore. unfold runSession in Hrun.
  pose proof (session_triple e (view w) true (λ _, Hp) (λ _, Hsave) (λ _, Hset) ops newConn w) as Ht.
  destruct (session e ops (newConn, w)) as [[ok l] [c w1]]. simplify_eq.
  assert (Hs : safe (view w) true crashed).
  { destruct Ht as [Ht _]; [by left; repeat split|]. by eapply Forall_forall in Ht. }
  specialize (Hs eq_refl). unfold recoverable in Hs. unfold Start. rewrite Hp, Ho.
  destruct (storedSnapshot crashed) as [s|]; [|done]. specialize (Hrestore s eq_refl).
  pose proof (osp_Restore_ok s crashed Hrestore) as Hr.
  destruct (osp_Restore s crashed) as [[] w2]; cbn in *; [|done]. rewrite Clear_view. congruence.
Qed.

(** a connection that touches no proxy setting, because it runs in TUN mode
    or promotes no candidate, removes in its cleanup the snapshot that a failed
    [Start] kept for the next launch, with the setting it holds not restored. *)
Lemma idle_session_drops_leftover ports w :
  tunMode e = true ∨ ports = [] → hasPersistence e = true →
  (∀ w, (ClearProxySnapshot (W := W) (V := V) (S := S) w).1 = true) →
  let '(restored, ws, w') := runSession (V := V) (S := S) e (Promote <$> ports) w in
  restored = true ∧ view w' = view w ∧ storedSnapshot w' = None.
Proof.
  intros Ht Hp Hc.
  assert (Hops : doOps e (Promote <$> ports) (newConn, w) = (tt, [], (newConn, w))).
  { destruct Ht as [Ht| ->]; [|done].
    induction ports as [|p ports IH]; cbn; [done|]. unfold mbind, P_bind, applyProxy. rewrite Ht. cbn. by rewrite IH. }
  unfold runSession, session, mbind, P_bind at 1. rewrite Hops.
  unfold cleanupProxy, releaseProxy, persisting, mbind, P_bind, call, mret, P_ret, getConn. cbn. rewrite Hp. cbn. pose proof (Clear_load w) as H1. pose proof (Clear_view w) as H2. rewrite (Hc w) in H1.
  destruct (ClearProxySnapshot w) as [ok w1]; cbn in *. done.
Qed.
End theorems.

(** * A machine

    A registry key and the snapshot file in memory.  The key's first write of a
    value and wininet's notifications consult a schedule of faults, if the
    machine has one. *)
Record machine := Machine { mc_reg : gmap string regValue; mc_stored : option Snapshot; mc_faults : list bool }.
Definition tagged (faulty : bool) : Type := machine.
Definition fault {faulty} (w : tagged faulty) : bool * tagged faulty :=
  if faulty then
    match mc_faults w with
    | [] => (false, w)
    | b :: fs => (b, Machine (mc_reg w) (mc_stored w) fs)
    end
  else (false, w).
Definition withReg {faulty} (w : tagged faulty) (m : gmap string regValue) : tagged faulty :=
  Machine m (mc_stored w) (mc_faults w).
Definition withStored {faulty} (w : tagged faulty) (s : option Snapshot) : tagged faulty :=
  Machine (mc_reg w) s (mc_faults w).

Lemma fault_reg {faulty} (w : tagged faulty) : mc_reg (fault w).2 = mc_reg w.
Proof. unfold fault. destruct faulty; [|done]. by destruct w as [? ? []]. Qed.
Lemma fault_stored {faulty} (w : tagged faulty) : mc_stored (fault w).2 = mc_stored w.
Proof. unfold fault. destruct faulty; [|done]. by destruct w as [? ? []]. Qed.

#[export, refine] Instance machineRegistry {faulty} : Registry (tagged faulty) := {|
  reg_values := mc_reg;
  OpenKey w := (true, w);
  GetIntegerValue name w :=
    (match mc_reg w !! name with
     | Some (RegDword z) => Ok z | Some _ => Err ErrRegistry | None => Err ErrNotExist end, w);
  GetStringValue name w :=
    (match mc_reg w !! name with
     | Some (RegSz s) => Ok s | Some _ => Err ErrRegistry | None => Err ErrNotExist end, w);
  SetDWordValue name z w :=
    let '(b, w) := fault (faulty := faulty) w in
    if b then (false, w) else (true, withReg (faulty := faulty) w (<[name := RegDword z]> (mc_reg w)));
  SetStringValue name s w := (true, withReg (faulty := faulty) w (<[name := RegSz s]> (mc_reg w)));
  DeleteValue name w :=
    match mc_reg w !! name with
    | None => (Some ErrNotExist, w)
    | Some _ => (None, withReg (faulty := faulty) w (delete name (mc_reg w)))
    end;
  internetSetOption o w := let '(b, w) := fault (faulty := faulty) w in (negb b, w)
|}.
Proof.
  all: cbn.
  - done.
  - done.
  - done.
  - intros opt w. pose proof (fault_reg (faulty := faulty) w). by destruct (fault (faulty := faulty) w).
  - intros name w z. repeat case_match; congruence.
  - intros name w. repeat case_match; congruence.
  - intros name w. destruct (mc_reg w !! name) as [[]|]; congruence.
  - intros name z w. pose proof (fault_reg (faulty := faulty) w) as Hf. destruct (fault (faulty := faulty) w) as [[] w']; cbn in *; congruence.
  - done.
  - intros name w. by destruct (mc_reg w !! name).
  - intros name w. by destruct (mc_reg w !! name).
Defined.

(** Nothing the controller does touches the snapshot file. *)
Section stored.
#[local] Set Default Proof Using "Type".
Context {faulty : bool}.
#[local] Notation M := (tagged faulty).
Implicit Types (w : M).

Lemma SetDWordValue_stored name z w : mc_stored (SetDWordValue (W := M) name z w).2 = mc_stored w.
Proof. cbn. pose proof (fault_stored w) as Hf. by destruct (fault w) as [[] w']. Qed.
Lemma internetSetOption_stored o w : mc_stored (internetSetOption (W := M) o w).2 = mc_stored w.
Proof. cbn. pose proof (fault_stored w) as Hf. by destruct (fault w) as [b w']. Qed.
Lemma writeString_stored name v w : mc_stored (writeString (W := M) name v w).2 = mc_stored w.
Proof. unfold writeString. cbn. by destruct (str_empty v), (mc_reg w !! name). Qed.

Lemma write_stored st w : mc_stored (write (W := M) st w).2 = mc_stored w.
Proof.
  unfold write. change (OpenKey (W := M) w) with (true, w). cbn [negb].
  pose proof (SetDWordValue_stored "ProxyEnable" (if ProxyEnable st then 1 else 0) w) as H1.
  destruct (SetDWordValue (W := M) _ _ w) as [[] w1]; cbn [negb snd] in *; [|done].
  pose proof (writeString_stored "ProxyServer" (ProxyServer st) w1) as H2.
  destruct (writeString "ProxyServer" _ w1) as [[] w2]; cbn [negb snd] in *; [|congruence].
  pose proof (writeString_stored "ProxyOverride" (ProxyOverride st) w2) as H3.
  destruct (writeString "ProxyOverride" _ w2) as [[] w3]; cbn [negb snd] in *; [|congruence].
  rewrite writeString_stored. congruence.
Qed.

Lemma notify_stored w : mc_stored (notify (W := M) w).2 = mc_stored w.
Proof.
  unfold notify. pose proof (internetSetOption_stored internetOptionSettingsChanged w) as H1.
  destruct (internetSetOption (W := M) _ w) as [[] w1]; cbn [negb snd] in *; [|done].
  by rewrite internetSetOption_stored.
Qed.

Lemma written_stored st w :
  mc_stored (let '(ok, w) := write (W := M) st w in if negb ok then (false, w) else notify w).2 = mc_stored w.
Proof.
  pose proof (write_stored st w) as Hw. destruct (write st w) as [[] w1]; cbn [negb snd] in *; [|done].
  by rewrite notify_stored.
Qed.

Lemma snapshot_stored w : mc_stored (wc_Snapshot (W := M) w).2 = mc_stored w.
Proof.
  assert (Hs : ∀ name w, (readString (W := M) name w).2 = w).
  { intros name w'. unfold readString. cbn. by destruct (mc_reg w' !! name) as [[]|]. }
  assert (Hi : ∀ name w, (GetIntegerValue (W := M) name w).2 = w) by done.
  unfold wc_Snapshot, read. change (OpenKey (W := M) w) with (true, w). cbn [negb].
  specialize (Hi "ProxyEnable"%string w). destruct (GetIntegerValue (W := M) "ProxyEnable" w) as [enable w1].
  pose proof (Hs "ProxyServer"%string w1) as H1. destruct (readString "ProxyServer" w1) as [server w2].
  pose proof (Hs "ProxyOverride"%string w2) as H2. destruct (readString "ProxyOverride" w2) as [override w3].
  pose proof (Hs "AutoConfigURL"%string w3) as H3. destruct (readString "AutoConfigURL" w3) as [pac w4].
  cbn [snd] in *. subst. by destruct enable as [|[]].
Qed.
End stored.

(** Without a schedule of faults every write and every notification works. *)
Lemma calm_written st (w : tagged false) :
  (let '(ok, w) := write (W := tagged false) st w in if negb ok then (false, w) else notify w).1 = true.
Proof.
  assert (Hs : ∀ name v (w : tagged false), (writeString (W := tagged false) name v w).1 = true).
  { intros name v w'. unfold writeString. destruct (str_empty v); [|done]. cbn. by destruct (mc_reg w' !! name) as [[]|]. }
  unfold write. change (OpenKey (W := tagged false) w) with (true, w). cbn [negb].
  change (SetDWordValue (W := tagged false) ?n ?z w) with (true, withReg w (<[n := RegDword z]> (mc_reg w))). cbn [negb].
  pose proof (Hs "ProxyServer"%string (ProxyServer st)) as H1.
  match goal with |- context [writeString "ProxyServer" ?v ?w] => specialize (H1 w); destruct (writeString "ProxyServer" v w) as [[] w1] end;
    [|done]. cbn [negb].
  pose proof (Hs "ProxyOverride"%string (ProxyOverride st) w1) as H2.
  destruct (writeString "ProxyOverride" _ w1) as [[] w2]; [|done]. cbn [negb].
  pose proof (Hs "AutoConfigURL"%string (AutoConfigURL st) w2) as H3.
  by destruct (writeString "AutoConfigURL" _ w2) as [[] w3].
Qed.

#[export, refine] Instance machineStore {faulty} : SnapshotStore (tagged faulty) WindowsProxyState Snapshot := {|
  SaveProxySnapshot s w := (true, withStored (faulty := faulty) w (Some s));
  LoadProxySnapshot := mc_stored;
  ClearProxySnapshot w := (true, withStored (faulty := faulty) w None)
|}.
Proof.
  all: try done.
  - apply snapshot_stored.
  - intros host port w. exact (written_stored (ourProxy host port) w).
  - intros s w. change (mc_stored (wc_Restore (W := tagged faulty) s w).2 = mc_stored w). unfold wc_Restore. destruct (negb _ && negb _); [done|]. apply written_stored.
Defined.

(** ** Concrete sessions *)
Definition desktopHost : engineHost := {| tunMode := false; hasOSProxy := true; hasPersistence := true |}.

(** A user behind a proxy of their own, with an auto-configuration script. *)
Definition userRegistry : gmap string regValue :=
  {[ "ProxyEnable" := RegDword 1; "ProxyServer" := RegSz "corp.example:8080";
     "AutoConfigURL" := RegSz "http://corp.example/proxy.pac" ]}%string.
Definition userProxy : WindowsProxyState :=
  {| ProxyEnable := true; ProxyServer := "corp.example:8080"; ProxyOverride := "";
     AutoConfigURL := "http://corp.example/proxy.pac" |}.
Definition userMachine (faults : list bool) : machine := Machine userRegistry None faults.

(** The connection's recovery points the proxy at 127.0.0.1:18080 twice. *)
Definition recoveredSession (faulty : bool) (faults : list bool) : bool * list (tagged faulty) * tagged faulty :=
  runSession (V := WindowsProxyState) (S := Snapshot) desktopHost [Promote 18080; Release; Promote 18080]
    (userMachine faults : tagged faulty).

Lemma session_restores_proxy_witness :
  (recoveredSession true [false; true]).1.1 = true ∧
  settled (W := tagged true) (V := WindowsProxyState) (S := Snapshot) desktopHost userProxy (recoveredSession true [false; true]).2.
Proof.
  assert (Hok : (recoveredSession true [false; true]).1.1 = true) by (vm_compute; reflexivity). split; [exact Hok|].
  destruct (recoveredSession true [false; true]) as [[ok ws] w'] eqn:E. cbn in Hok. subst ok.
  exact (session_restores_proxy (W := tagged true) desktopHost _ (userMachine [false; true]) ws w' E).
Defined.

(** The machine once the first promotion has set the proxy. *)
Definition crashedMachine : tagged false :=
  (wc_Set (W := tagged false) "127.0.0.1" 18080 (Machine userRegistry
    (Some {| sn_Platform := "windows"; sn_Services := []; sn_Windows := Some userProxy |}) [])).2.

Lemma crash_recovers_proxy_witness :
  proxyStateOf (mc_reg crashedMachine) = ourProxy "127.0.0.1" 18080 ∧
  proxyStateOf (mc_reg (Start (W := tagged false) (V := WindowsProxyState) (S := Snapshot) desktopHost crashedMachine)) = proxyStateOf userRegistry.
Proof.
  split; [vm_compute; reflexivity|].
  destruct (runSession (W := tagged false) (V := WindowsProxyState) (S := Snapshot) desktopHost [Promote 18080] (userMachine []))
    as [[restored ws] w'] eqn:E.
  refine (crash_recovers_proxy (W := tagged false) (V := WindowsProxyState) (S := Snapshot) desktopHost [Promote 18080]
    (userMachine []) ws w' restored crashedMachine
    eq_refl eq_refl (λ _ _, eq_refl) (λ host port w, calm_written (ourProxy host port) w) eq_refl E
    (list_elem_of_lookup_2 _ 2 _ _) _).
  - apply (f_equal (λ r, r.1.2 !! 2%nat)) in E. cbn [fst snd] in E. rewrite <- E. vm_compute. reflexivity.
  - intros s Hs. assert (s = {| sn_Platform := "windows"; sn_Services := []; sn_Windows := Some userProxy |}) as ->.
    { vm_compute in Hs. injection Hs as <-. reflexivity. }
    vm_compute. reflexivity.
Defined.

Lemma idle_session_drops_leftover_witness :
  let '(restored, ws, w') := runSession (W := tagged false) (V := WindowsProxyState) (S := Snapshot)
      {| tunMode := true; hasOSProxy := true; hasPersistence := true |} [Promote 18080]
      (Machine ∅ (Some {| sn_Platform := "windows"; sn_Services := []; sn_Windows := Some userProxy |}) []) in
  restored = true ∧ proxyStateOf (mc_reg w') = disabledProxy ∧ mc_stored w' = None.
Proof.
  exact (idle_session_drops_leftover (W := tagged false) (V := WindowsProxyState) (S := Snapshot)
    {| tunMode := true; hasOSProxy := true; hasPersistence := true |} [18080]
    (Machine ∅ (Some {| sn_Platform := "windows"; sn_Services := []; sn_Windows := Some userProxy |}) [])
    (or_introl eq_refl) eq_refl (λ _, eq_refl)).
Defined.

(** the exclusion of failed [Set]s from [crash_recovers_proxy] is needed.
    A first promotion whose notification fails is undone and its snapshot
    removed from disk; when the recovery's promotion fails in the same way and
    its undoing fails too, the session ends with the system proxy pointing at
    the client, and no snapshot for the next launch to restore. *)
Lemma failed_set_strands_proxy :
  let '(restored, _, w') := recoveredSession true [false; true; false; false; false; false; true; true; true] in
  restored = false ∧ proxyStateOf (mc_reg w') = ourProxy "127.0.0.1" 18080 ∧ mc_stored w' = None ∧
  Start (W := tagged true) (V := WindowsProxyState) (S := Snapshot) desktopHost w' = w'.
Proof. vm_compute. repeat split. Qed.

