(* ===== verification/Lifecycle.v ===== *)
(** The life of a connection (src/libs/connectcore/engine.go: [ConnectTarget],
    [Disconnect], [teardownExisting], [runConnect], [connectFlow], [promote],
    [finalizeConn], [clearConn], [emitStatusLocked]; lifecycle.go: [Shutdown];
    monitor.go: [supervise]) as the interleaving of two threads: the API call
    that holds connectMu, and the runConnect goroutine of each connection.

    One step is one critical section of the engine's mutex, or the local work
    between two of them whose outcome the scheduler chooses; [history] records
    the statuses the sink receives, newest first, tagged with the connection
    they are written for, and where a connection is marked for disconnection. *)
From stdpp Require Import base list strings sorting.
From Stdlib Require Import ZArith Lia.
From S2P Require Import Prelude.

Inductive Status :=
| StatusDisconnected | StatusPreparing | StatusConnecting
| StatusConnected | StatusDisconnecting | StatusFailed.
#[export] Instance Status_eq_dec : EqDecision Status.
Proof. solve_decision. Defined.

(** Where a connection's goroutine stands.  [err] is the (stage, error) result
    of connectFlow: None is a clean end. *)
Inductive flowpc :=
| FUnspawned                      (* installed; the goroutine is not started *)
| FSpawned                        (* consent *)
| FConnecting                     (* fetch, rank, ladder *)
| FPromote                        (* a candidate won *)
| FSupervise                      (* the connected phase *)
| FTriggered                      (* a trigger was taken; maybe paused *)
| FRecover                        (* recovery decided *)
| FRelease                        (* CONNECTING emitted; the old candidate still up *)
| FReladder                       (* waits and the recovery ladder *)
| FExit (err : option string)     (* connectFlow returned *)
| FCleanup (err : option string)  (* terminal status claimed *)
| FSample (err : option string)   (* resources released *)
| FTerminal (disconnecting : bool) (err : option string)
| FClear                          (* terminal status emitted *)
| FReturn                         (* cleared; the deferred cancel is next *)
| FClose                          (* cancelled; the deferred close is next *)
| FDone.

Record connection := {
  cancelled : bool; disconnecting : bool; finalized : bool; closed : bool;
  active : bool;                  (* a promoted candidate's tunnel runs *)
  pc : flowpc
}.
Definition newConnection : connection :=
  {| cancelled := false; disconnecting := false; finalized := false; closed := false; active := false; pc := FUnspawned |}.

(** The API call in progress; [install] tells ConnectTarget from Shutdown. *)
Inductive apipc :=
| AIdle
| ATeardown (install : bool)
| ACancelWait (id : nat) (install : bool)
| AWait (id : nat) (install : bool)
| AInstall
| APrepare (id : nat)
| ACancel (id : nat).

Inductive mark := HStatus (id : nat) (s : Status) | HMark (id : nat).
Definition mark_id (h : mark) : nat := match h with HStatus id _ | HMark id => id end.

Record engine := {
  status : Status; s_conn : option nat; conns : list connection; api : apipc; history : list mark
}.
Definition newEngine : engine :=
  {| status := StatusDisconnected; s_conn := None; conns := []; api := AIdle; history := [] |}.

(** Calls of the host, the API call's next section, and a goroutine's next
    step with the outcome of the work before it. *)
Inductive outcome := Proceed | Stop | Fails (stage : string) | Again.
Inductive event := EConnect | EShutdown | EDisconnect | EApi | EFlow (id : nat) (o : outcome).

Definition withApi (a : apipc) (s : engine) : engine :=
  {| status := status s; s_conn := s_conn s; conns := conns s; api := a; history := history s |}.
Definition withConn (id : nat) (c : connection) (s : engine) : engine :=
  {| status := status s; s_conn := s_conn s; conns := <[id := c]> (conns s); api := api s; history := history s |}.
Definition emitStatus (id : nat) (st : Status) (s : engine) : engine :=
  {| status := st; s_conn := s_conn s; conns := conns s; api := api s; history := HStatus id st :: history s |}.
Definition markConn (id : nat) (s : engine) : engine :=
  {| status := status s; s_conn := s_conn s; conns := conns s; api := api s; history := HMark id :: history s |}.
Definition clearConn (id : nat) (s : engine) : engine :=
  {| status := status s; s_conn := if decide (s_conn s = Some id) then None else s_conn s; conns := conns s;
     api := api s; history := history s |}.

Definition goto (p : flowpc) (c : connection) : connection :=
  {| cancelled := cancelled c; disconnecting := disconnecting c; finalized := finalized c; closed := closed c;
     active := active c; pc := p |}.
Definition withActive (b : bool) (c : connection) : connection :=
  {| cancelled := cancelled c; disconnecting := disconnecting c; finalized := finalized c; closed := closed c;
     active := b; pc := pc c |}.
Definition cancel (c : connection) : connection :=
  {| cancelled := true; disconnecting := disconnecting c; finalized := finalized c; closed := closed c;
     active := active c; pc := pc c |}.
Definition disconnect (c : connection) : connection :=
  {| cancelled := cancelled c; disconnecting := true; finalized := finalized c; closed := closed c;
     active := active c; pc := pc c |}.
Definition finalize (c : connection) : connection :=
  {| cancelled := cancelled c; disconnecting := disconnecting c; finalized := true; closed := closed c;
     active := active c; pc := pc c |}.
Definition closeDone (c : connection) : connection :=
  {| cancelled := cancelled c; disconnecting := disconnecting c; finalized := finalized c; closed := true;
     active := active c; pc := pc c |}.

Section machine.
#[local] Set Default Proof Using "Type".
Context (mobile : bool).

(** [ctx.Err() != nil || s.isDisconnecting(conn)]. *)
Definition stopping (c : connection) : bool := cancelled c || disconnecting c.

(** One step of runConnect; None where the code cannot take it. *)
Definition flowStep (id : nat) (o : outcome) (c : connection) (s : engine) : option engine :=
  match pc c, o with
  | FSpawned, Proceed => Some (emitStatus id StatusConnecting (withConn id (goto FConnecting c) s))
  | FSpawned, Fails stage => Some (withConn id (goto (FExit (Some stage)) c) s)
  | FConnecting, Proceed => Some (withConn id (goto FPromote c) s)
  | FConnecting, Fails stage => Some (withConn id (goto (FExit (Some stage)) c) s)
  | FConnecting, Stop => if cancelled c then Some (withConn id (goto (FExit None) c) s) else None
  | FPromote, Proceed =>
      if stopping c then Some (withConn id (goto (FExit None) c) s)
      else Some (emitStatus id StatusConnected (withConn id (goto FSupervise (withActive true c)) s))
  | FSupervise, Stop => if stopping c then Some (withConn id (goto (FExit None) c) s) else None
  | FSupervise, Fails stage => if stopping c then None else Some (withConn id (goto (FExit (Some stage)) c) s)
  | FSupervise, Proceed => if stopping c then None else Some (withConn id (goto FTriggered c) s)
  | FTriggered, Stop => if stopping c then Some (withConn id (goto (FExit None) c) s) else None
  | FTriggered, Proceed => if disconnecting c then None else Some (withConn id (goto FRecover c) s)
  | FRecover, Proceed => Some (emitStatus id StatusConnecting (withConn id (goto FRelease c) s))
  | FRelease, Proceed => Some (withConn id (goto FReladder (withActive false c)) s)
  | FReladder, Proceed => Some (withConn id (goto FPromote c) s)
  | FReladder, Stop => if cancelled c then Some (withConn id (goto (FExit None) c) s) else None
  | FReladder, Fails stage => if cancelled c then None else Some (withConn id (goto (FExit (Some stage)) c) s)
  | FReladder, Again => if cancelled c then None else Some s
  | FExit err, Proceed =>
      Some (withConn id (goto (FCleanup err) (finalize (if mobile then cancel c else c))) s)
  | FCleanup err, Proceed => Some (withConn id (goto (FSample err) (withActive false c)) s)
  | FSample err, Proceed => Some (withConn id (goto (FTerminal (disconnecting c) err) c) s)
  | FTerminal dis err, Proceed =>
      Some (emitStatus id (if dis || bool_decide (err = None) then StatusDisconnected else StatusFailed)
              (withConn id (goto FClear c) s))
  | FClear, Proceed => Some (clearConn id (withConn id (goto FReturn c) s))
  | FReturn, Proceed => Some (withConn id (goto FClose (cancel c)) s)
  | FClose, Proceed => Some (withConn id (goto FDone (closeDone c)) s)
  | _, _ => None
  end.

(** The next section of the API call in progress. *)
Definition apiStep (s : engine) : option engine :=
  match api s with
  | AIdle => None
  | ATeardown install =>
      match s_conn s with
      | None => Some (withApi (if install then AInstall else AIdle) s)
      | Some id =>
          c ← conns s !! id;
          Some (withApi (ACancelWait id install) (markConn id (withConn id (disconnect c) s)))
      end
  | ACancelWait id install => c ← conns s !! id; Some (withApi (AWait id install) (withConn id (cancel c) s))
  | AWait id install =>
      c ← conns s !! id;
      if closed c then Some (withApi (if install then AInstall else AIdle) s) else None
  | AInstall =>
      let id := length (conns s) in
      Some {| status := status s; s_conn := Some id; conns := conns s ++ [newConnection]; api := APrepare id;
              history := history s |}
  | APrepare id =>
      c ← conns s !! id;
      Some (withApi AIdle (withConn id (goto FSpawned c) (emitStatus id StatusPreparing s)))
  | ACancel id => c ← conns s !! id; Some (withApi AIdle (withConn id (cancel c) s))
  end.

Definition step (e : event) (s : engine) : option engine :=
  match e with
  | EConnect => match api s with AIdle => Some (withApi (ATeardown true) s) | _ => None end
  | EShutdown =>
      match api s, s_conn s with
      | AIdle, None => Some s
      | AIdle, Some _ => Some (withApi (ATeardown false) s)
      | _, _ => None
      end
  | EDisconnect =>
      match api s, s_conn s with
      | AIdle, None => Some s
      | AIdle, Some id =>
          c ← conns s !! id;
          let s1 := markConn id (withConn id (disconnect c) s) in
          Some (withApi (ACancel id) (if finalized c then s1 else emitStatus id StatusDisconnecting s1))
      | _, _ => None
      end
  | EApi => apiStep s
  | EFlow id o => c ← conns s !! id; flowStep id o c s
  end.

Fixpoint run (es : list event) (s : engine) : option engine :=
  match es with [] => Some s | e :: es => s' ← step e s; run es s' end.
End machine.

(** * Invariants *)
Definition live (p : flowpc) : bool :=
  match p with FReturn | FClose | FDone => false | _ => true end.
Definition claimed (p : flowpc) : bool :=
  match p with
  | FCleanup _ | FSample _ | FTerminal _ _ | FClear | FReturn | FClose | FDone => true
  | _ => false
  end.
(** Where a promoted tunnel may still run. *)
Definition holding (p : flowpc) : bool :=
  match p with FSupervise | FTriggered | FRecover | FRelease | FExit _ | FCleanup _ => true | _ => false end.
Definition settled (p : flowpc) : bool :=
  match p with FClear | FReturn | FClose | FDone => true | _ => false end.
Definition terminal (st : Status) : Prop := st = StatusDisconnected ∨ st = StatusFailed.

Record connOK (c : connection) : Prop := {
  ok_closed : closed c = true ↔ pc c = FDone;
  ok_finalized : finalized c = claimed (pc c);
  ok_active : active c = true → holding (pc c) = true;
  ok_cancelled : cancelled c = true → claimed (pc c) = true ∨ disconnecting c = true
}.

(** What one step of a goroutine does to its connection. *)
Record moved (c c' : connection) : Prop := {
  mv_spawned : pc c ≠ FUnspawned ∧ pc c' ≠ FUnspawned;
  mv_disconnecting : disconnecting c' = disconnecting c;
  mv_ok : connOK c → connOK c';
  mv_claimed : claimed (pc c) = true → claimed (pc c') = true;
  mv_sampled err : pc c' = FTerminal false err → disconnecting c = false ∨ pc c = FTerminal false err
}.

Inductive flowEffect (id : nat) (c : connection) (s : engine) : engine → Prop :=
| EffMove c' :
    moved c c' → live (pc c') = live (pc c) → (settled (pc c') = true → settled (pc c) = true) →
    flowEffect id c s (withConn id c' s)
| EffEmit c' st :
    moved c c' → live (pc c') = live (pc c) → live (pc c) = true → st ≠ StatusDisconnecting →
    (st = StatusConnected → disconnecting c = false) →
    (st = StatusFailed → claimed (pc c) = true ∧ ∃ err, pc c = FTerminal false err) →
    (settled (pc c') = true → terminal st) →
    flowEffect id c s (emitStatus id st (withConn id c' s))
| EffClear c' :
    moved c c' → pc c = FClear → live (pc c') = false → settled (pc c') = true →
    flowEffect id c s (clearConn id (withConn id c' s)).

Section flow.
#[local] Set Default Proof Using "Type".
Context (mobile : bool).

Lemma withConn_id id c s : conns s !! id = Some c → withConn id c s = s.
Proof. intros Hc. unfold withConn. rewrite list_insert_id by done. by destruct s. Qed.

(** A step of the goroutine at [p] to [c']: the facts about [connOK] are
    propositional once the program counters are known. *)
Ltac solve_moved Hp :=
  constructor; cbn;
    [ rewrite Hp; split; discriminate
    | reflexivity
    | intros [Hclosed Hfinal Hactive Hcancelled]; rewrite Hp in *; constructor; cbn in *; intuition congruence
    | rewrite Hp; cbn; intuition congruence
    | intros ?; intuition congruence ].

Lemma flowStep_effect id o c s s' :
  conns s !! id = Some c → flowStep mobile id o c s = Some s' → flowEffect id c s s'.
Proof.
  intros Hc. unfold flowStep, stopping.
  destruct (pc c) eqn:Hp, o; try discriminate; intros Hs;
    repeat match type of Hs with context [if ?b then _ else _] => destruct b eqn:? end; simplify_eq;
    try (apply EffMove; [by solve_moved Hp|by rewrite Hp|rewrite Hp; done]).
  - apply EffEmit; [by solve_moved Hp|by rewrite Hp|by rewrite Hp|done..].
  - apply orb_false_elim in Heqb as [_ Hd]. apply EffEmit; [by solve_moved Hp|by rewrite Hp|by rewrite Hp|done..].
  - apply EffEmit; [by solve_moved Hp|by rewrite Hp|by rewrite Hp|done..].
  - rewrite <- (withConn_id id c s') at 2 by done. apply EffMove; [|done..].
    constructor; rewrite ?Hp; [done..|congruence].
  - apply EffEmit; [by solve_moved Hp|by rewrite Hp|by rewrite Hp|done..|]. intros _. by left.
  - apply orb_false_elim in Heqb as [-> _].
    apply EffEmit; [by solve_moved Hp|by rewrite Hp|by rewrite Hp|done| |rewrite Hp; eauto|intros _; by right]. done.
  - apply EffClear; [by solve_moved Hp|done..].
Qed.
End flow.

(** What holds of every reachable engine: which connection is installed, whose
    goroutine is live, and what the API call in progress has established. *)
Record inv (s : engine) : Prop := {
  i_conn id : s_conn s = Some id →
    length (conns s) = S id ∧ ∃ c, conns s !! id = Some c ∧ live (pc c) = true;
  i_live id c : conns s !! id = Some c → live (pc c) = true → s_conn s = Some id;
  i_ok id c : conns s !! id = Some c → connOK c;
  i_spawn id c : conns s !! id = Some c → pc c = FUnspawned → api s = APrepare id;
  i_api : match api s with
          | AInstall => s_conn s = None
          | ACancelWait id _ | AWait id _ =>
              (s_conn s = Some id ∨ s_conn s = None) ∧ ∃ c, conns s !! id = Some c ∧ disconnecting c = true
          | ACancel id => ∃ c, conns s !! id = Some c ∧ disconnecting c = true
          | APrepare id => conns s !! id = Some newConnection
          | _ => True
          end;
  (** the sink's history *)
  i_tags : Forall (λ h, mark_id h < length (conns s))%nat (history s);
  i_sorted : StronglySorted (λ h1 h2, mark_id h2 ≤ mark_id h1)%nat (history s);
  i_mark id : HMark id ∈ history s → ∃ c, conns s !! id = Some c ∧ disconnecting c = true;
  i_connected l1 l2 id : history s = l1 ++ HStatus id StatusConnected :: l2 → HMark id ∉ l2;
  i_disconnecting id : HStatus id StatusDisconnecting ∈ history s →
    ∃ c, conns s !! id = Some c ∧ disconnecting c = true ∧ ∀ err, pc c ≠ FTerminal false err;
  i_failed id : HStatus id StatusFailed ∈ history s →
    HStatus id StatusDisconnecting ∉ history s ∧ ∃ c, conns s !! id = Some c ∧ claimed (pc c) = true;
  i_status id c : conns s !! id = Some c → length (conns s) = S id → settled (pc c) = true → terminal (status s)
}.

Lemma inv_init : inv newEngine.
Proof.
  constructor; cbn; try done; try (by constructor); try (by intros ? ?%elem_of_nil).
  by intros [] ? ?.
Qed.

Section preservation.
#[local] Set Default Proof Using "Type".
Context (mobile : bool).

(** The installed connection is the last. *)
Lemma live_last s id c : inv s → conns s !! id = Some c → live (pc c) = true → length (conns s) = S id.
Proof. intros Hi Hc Hl. exact (proj1 (i_conn s Hi id (i_live s Hi id c Hc Hl))). Qed.

Lemma moved_disconnecting s id c c' id0 :
  conns s !! id = Some c → moved c c' → (∃ c0, conns s !! id0 = Some c0 ∧ disconnecting c0 = true) →
  ∃ c0, <[id := c']> (conns s) !! id0 = Some c0 ∧ disconnecting c0 = true.
Proof.
  intros Hc Hm (c0 & H0 & Hd). destruct (decide (id0 = id)) as [->|Hne].
  - exists c'. rewrite list_lookup_insert_eq by (by eapply lookup_lt_Some). split; [done|].
    rewrite (mv_disconnecting _ _ Hm). congruence.
  - exists c0. by rewrite list_lookup_insert_ne.
Qed.

Lemma moved_api s id c c' :
  inv s → conns s !! id = Some c → moved c c' →
  match api s with
  | AInstall => s_conn s = None
  | ACancelWait id0 _ | AWait id0 _ =>
      (s_conn s = Some id0 ∨ s_conn s = None) ∧ ∃ c0, <[id := c']> (conns s) !! id0 = Some c0 ∧ disconnecting c0 = true
  | ACancel id0 => ∃ c0, <[id := c']> (conns s) !! id0 = Some c0 ∧ disconnecting c0 = true
  | APrepare id0 => <[id := c']> (conns s) !! id0 = Some newConnection
  | _ => True
  end.
Proof.
  intros Hi Hc Hm.
  pose proof (i_api s Hi) as Ha. destruct (api s) as [| |id0 ?|id0 ?| |id0|id0] eqn:Ea; try done.
  - destruct Ha as [? ?]. eauto using moved_disconnecting.
  - destruct Ha as [? ?]. eauto using moved_disconnecting.
  - destruct (decide (id0 = id)) as [->|Hne]; [|by rewrite list_lookup_insert_ne].
    exfalso. destruct (mv_spawned _ _ Hm) as [Hs _]. by simplify_eq.
  - eauto using moved_disconnecting.
Qed.

(** A lookup after a goroutine moved its connection. *)
Lemma moved_lookup (l : list connection) id c c' id0 c0 :
  l !! id = Some c → <[id := c']> l !! id0 = Some c0 → (id0 = id ∧ c0 = c') ∨ (id0 ≠ id ∧ l !! id0 = Some c0).
Proof.
  intros Hc H0. destruct (decide (id0 = id)) as [->|Hne].
  - rewrite list_lookup_insert_eq in H0 by (by eapply lookup_lt_Some). left. by simplify_eq.
  - rewrite list_lookup_insert_ne in H0 by done. auto.
Qed.

(** A goroutine that stays as live as it was, with what it tells the sink. *)
Lemma inv_update s id c c' st h :
  inv s → conns s !! id = Some c → moved c c' → live (pc c') = live (pc c) →
  Forall (λ h, mark_id h < length (conns s))%nat h →
  StronglySorted (λ h1 h2, mark_id h2 ≤ mark_id h1)%nat h →
  (∀ id0, HMark id0 ∈ h → HMark id0 ∈ history s) →
  (∀ l1 l2 id0, h = l1 ++ HStatus id0 StatusConnected :: l2 → HMark id0 ∉ l2) →
  (∀ id0, HStatus id0 StatusDisconnecting ∈ h → HStatus id0 StatusDisconnecting ∈ history s) →
  (∀ id0, HStatus id0 StatusFailed ∈ h → HStatus id0 StatusFailed ∈ history s ∨
     id0 = id ∧ claimed (pc c') = true ∧ HStatus id StatusDisconnecting ∉ history s) →
  (settled (pc c') = true → terminal st ∨ settled (pc c) = true ∧ st = status s) →
  (st = status s ∨ length (conns s) = S id) →
  inv {| status := st; s_conn := s_conn s; conns := <[id := c']> (conns s); api := api s; history := h |}.
Proof.
  intros Hi Hc Hm Hlive Ht Hsort Hmark Hconn Hdis Hfail Hset Hlast. constructor; cbn.
  - intros id0 H0. destruct (i_conn s Hi id0 H0) as (Hlen & c0 & Hc0 & Hl0). rewrite length_insert. split; [done|].
    destruct (decide (id0 = id)) as [->|Hne].
    + exists c'. rewrite list_lookup_insert_eq by (by eapply lookup_lt_Some). split; [done|]. simplify_eq. congruence.
    + exists c0. by rewrite list_lookup_insert_ne.
  - intros id0 c0 H0 Hl0. destruct (moved_lookup _ _ _ _ _ _ Hc H0) as [[-> ->]|[_ H0']].
    + apply (i_live s Hi id c Hc). congruence.
    + by apply (i_live s Hi id0 c0).
  - intros id0 c0 H0. destruct (moved_lookup _ _ _ _ _ _ Hc H0) as [[-> ->]|[_ H0']].
    + apply (mv_ok _ _ Hm). by apply (i_ok s Hi id).
    + by apply (i_ok s Hi id0).
  - intros id0 c0 H0 Hp. destruct (moved_lookup _ _ _ _ _ _ Hc H0) as [[-> ->]|[_ H0']].
    + by destruct (mv_spawned _ _ Hm) as [_ []].
    + by apply (i_spawn s Hi id0 c0).
  - by apply moved_api with c.
  - by rewrite length_insert.
  - done.
  - intros id0 H0. apply moved_disconnecting with c; [done..|]. by apply (i_mark s Hi), Hmark.
  - done.
  - intros id0 H0. destruct (i_disconnecting s Hi id0 (Hdis _ H0)) as (c0 & Hc0 & Hd0 & Hpc0).
    destruct (decide (id0 = id)) as [->|Hne]; [|by exists c0; rewrite list_lookup_insert_ne].
    simplify_eq. exists c'. rewrite list_lookup_insert_eq by (by eapply lookup_lt_Some). split; [done|].
    split; [by rewrite (mv_disconnecting _ _ Hm)|]. intros err Herr. destruct (mv_sampled _ _ Hm err Herr) as [?|?]; [congruence|by destruct (Hpc0 err)].
  - intros id0 H0. destruct (Hfail id0 H0) as [H1|(-> & Hcl & Hnd)].
    + destruct (i_failed s Hi id0 H1) as (Hnd & c0 & Hc0 & Hcl0). split; [by intros ?%Hdis|].
      destruct (decide (id0 = id)) as [->|Hne]; [|by exists c0; rewrite list_lookup_insert_ne].
      simplify_eq. exists c'. rewrite list_lookup_insert_eq by (by eapply lookup_lt_Some).
      split; [done|]. by apply (mv_claimed _ _ Hm).
    + split; [by intros ?%Hdis|]. exists c'. by rewrite list_lookup_insert_eq by (by eapply lookup_lt_Some).
  - intros id0 c0 H0 Hl0 Hs0. rewrite length_insert in Hl0.
    destruct (moved_lookup _ _ _ _ _ _ Hc H0) as [[-> ->]|[Hne H0']].
    + destruct (Hset Hs0) as [?|[Hsc ->]]; [done|]. by apply (i_status s Hi id c).
    + destruct Hlast as [->|?]; [by apply (i_status s Hi id0 c0)|lia].
Qed.

Lemma inv_move s id c c' :
  inv s → conns s !! id = Some c → moved c c' → live (pc c') = live (pc c) →
  (settled (pc c') = true → settled (pc c) = true) → inv (withConn id c' s).
Proof.
  intros Hi Hc Hm Hl Hs. apply (inv_update s id c c'); try done; try (by apply Hi); auto.
Qed.

Lemma elem_of_tag id st x h : x ∈ HStatus id st :: h → x = HStatus id st ∨ x ∈ h.
Proof. by intros ?%elem_of_cons. Qed.

Lemma inv_emit s id c c' st :
  inv s → conns s !! id = Some c → moved c c' → live (pc c') = live (pc c) → live (pc c) = true →
  st ≠ StatusDisconnecting → (st = StatusConnected → disconnecting c = false) →
  (st = StatusFailed → claimed (pc c) = true ∧ ∃ err, pc c = FTerminal false err) →
  (settled (pc c') = true → terminal st) → inv (emitStatus id st (withConn id c' s)).
Proof.
  intros Hi Hc Hm Hl Hlive Hnd Hcon Hfail Hset. pose proof (live_last s id c Hi Hc Hlive) as Hlast.
  unfold emitStatus, withConn; cbn. apply (inv_update s id c c'); try done; auto.
  - constructor; [cbn; lia|apply i_tags, Hi].
  - constructor; [apply i_sorted, Hi|]. cbn. eapply Forall_impl; [apply i_tags, Hi|]. cbn. lia.
  - intros id0 [?|?]%elem_of_tag; [done|done].
  - intros [|h1 l1] l2 id0 Hh; simplify_eq/=.
    + intros (c0 & Hc0 & Hd0)%(i_mark s Hi). specialize (Hcon eq_refl). congruence.
    + by apply (i_connected s Hi l1).
  - intros id0 [?|?]%elem_of_tag; [congruence|done].
  - intros id0 [?|?]%elem_of_tag; [|by left]. simplify_eq. destruct (Hfail eq_refl) as (Hcl & err & Herr).
    right. split; [done|]. split; [by apply (mv_claimed _ _ Hm)|].
    intros (c0 & Hc0 & _ & Hno)%(i_disconnecting s Hi). simplify_eq. by destruct (Hno err).
Qed.

Lemma inv_clear s id c c' :
  inv s → conns s !! id = Some c → moved c c' → pc c = FClear → live (pc c') = false → settled (pc c') = true →
  inv (clearConn id (withConn id c' s)).
Proof.
  intros Hi Hc Hm Hpc Hl Hset. pose proof (i_live s Hi id c Hc ltac:(by rewrite Hpc)) as Hsc.
  unfold clearConn, withConn; cbn. rewrite decide_True by done.
  constructor; cbn; try (by apply Hi).
  - done.
  - intros id0 c0 H0 Hl0. destruct (moved_lookup _ _ _ _ _ _ Hc H0) as [[-> ->]|[Hne H0']]; [congruence|].
    pose proof (i_live s Hi id0 c0 H0' Hl0). congruence.
  - intros id0 c0 H0. destruct (moved_lookup _ _ _ _ _ _ Hc H0) as [[-> ->]|[_ H0']].
    + apply (mv_ok _ _ Hm). by apply (i_ok s Hi id).
    + by apply (i_ok s Hi id0).
  - intros id0 c0 H0 Hp. destruct (moved_lookup _ _ _ _ _ _ Hc H0) as [[-> ->]|[_ H0']].
    + by destruct (mv_spawned _ _ Hm) as [_ []].
    + by apply (i_spawn s Hi id0 c0).
  - pose proof (moved_api s id c c' Hi Hc Hm) as Ha. destruct (api s); try done; by destruct Ha as [_ ?]; auto.
  - rewrite length_insert. apply Hi.
  - intros id0 H0. apply moved_disconnecting with c; [done..|]. by apply (i_mark s Hi).
  - intros id0 H0. destruct (i_disconnecting s Hi id0 H0) as (c0 & Hc0 & Hd0 & Hpc0).
    destruct (decide (id0 = id)) as [->|Hne]; [|by exists c0; rewrite list_lookup_insert_ne].
    simplify_eq. exists c'. rewrite list_lookup_insert_eq by (by eapply lookup_lt_Some). split; [done|].
    split; [by rewrite (mv_disconnecting _ _ Hm)|]. intros err Herr. by rewrite Herr in Hl.
  - intros id0 H0. destruct (i_failed s Hi id0 H0) as (Hnd & c0 & Hc0 & Hcl0). split; [done|].
    destruct (decide (id0 = id)) as [->|Hne]; [|by exists c0; rewrite list_lookup_insert_ne].
    simplify_eq. exists c'. rewrite list_lookup_insert_eq by (by eapply lookup_lt_Some).
    split; [done|]. by apply (mv_claimed _ _ Hm).
  - intros id0 c0 H0 Hl0 Hs0. rewrite length_insert in Hl0.
    destruct (moved_lookup _ _ _ _ _ _ Hc H0) as [[-> ->]|[Hne H0']].
    + apply (i_status s Hi id c Hc Hl0). by rewrite Hpc.
    + by apply (i_status s Hi id0 c0).
Qed.

Lemma inv_flow s id o c s' : inv s → conns s !! id = Some c → flowStep mobile id o c s = Some s' → inv s'.
Proof.
  intros Hi Hc Hs. destruct (flowStep_effect mobile id o c s s' Hc Hs) as [c' Hm Hl Hset|c' st Hm Hl Hlive Hnd Hcon Hf Hset|c' Hm Hp Hl Hset].
  - by eapply inv_move.
  - by eapply inv_emit.
  - by eapply inv_clear.
Qed.

Lemma inv_withApi s a :
  inv s →
  match a with
  | AInstall => s_conn s = None
  | ACancelWait id _ | AWait id _ =>
      (s_conn s = Some id ∨ s_conn s = None) ∧ ∃ c, conns s !! id = Some c ∧ disconnecting c = true
  | ACancel id => ∃ c, conns s !! id = Some c ∧ disconnecting c = true
  | APrepare id => conns s !! id = Some newConnection
  | _ => True
  end →
  (∀ id c, conns s !! id = Some c → pc c ≠ FUnspawned) → inv (withApi a s).
Proof.
  intros Hi Ha Hu. destruct Hi. constructor; cbn; try done. intros id c Hc Hp. by destruct (Hu id c Hc).
Qed.

(** Outside [APrepare] every goroutine has started. *)
Lemma spawned s id c : inv s → (∀ id, api s ≠ APrepare id) → conns s !! id = Some c → pc c ≠ FUnspawned.
Proof. intros Hi Ha Hc Hp. exact (Ha id (i_spawn s Hi id c Hc Hp)). Qed.

Lemma inv_cancel s id c :
  inv s → (∀ id, api s ≠ APrepare id) → conns s !! id = Some c → disconnecting c = true →
  inv (withConn id (cancel c) s).
Proof.
  intros Hi Ha Hc Hd. apply inv_move with c; try done. pose proof (spawned s id c Hi Ha Hc).
  constructor; cbn; [done..| |done|auto]. intros []. constructor; cbn; auto.
Qed.

(** Marking the installed connection, and Disconnect's own status. *)
Lemma inv_disconnect s id c emits :
  inv s → (∀ id, api s ≠ APrepare id) → s_conn s = Some id → conns s !! id = Some c →
  (emits = true → finalized c = false) →
  let s1 := markConn id (withConn id (disconnect c) s) in
  inv (if emits then emitStatus id StatusDisconnecting s1 else s1) ∧
  conns (if emits then emitStatus id StatusDisconnecting s1 else s1) !! id = Some (disconnect c).
Proof.
  intros Hi Ha Hsc Hc He s1. pose proof (spawned s id c Hi Ha Hc) as Hsp.
  destruct (i_conn s Hi id Hsc) as (Hlen & c0 & Hc0 & Hlive). simplify_eq.
  assert (Hlk : <[id := disconnect c]> (conns s) !! id = Some (disconnect c))
    by (apply list_lookup_insert_eq; lia).
  assert (Hcl : emits = true → claimed (pc c) = false).
  { intros E. rewrite <- (ok_finalized c (i_ok s Hi id c Hc)). auto. }
  assert (Hh : history (if emits then emitStatus id StatusDisconnecting s1 else s1) =
    (if emits then [HStatus id StatusDisconnecting] else []) ++ HMark id :: history s) by by destruct emits.
  split; [|by destruct emits].
  assert (Hin : ∀ x, x ∈ history (if emits then emitStatus id StatusDisconnecting s1 else s1) →
    (emits = true ∧ x = HStatus id StatusDisconnecting) ∨ x = HMark id ∨ x ∈ history s).
  { intros x. rewrite Hh. destruct emits; cbn; rewrite ?elem_of_cons; naive_solver. }
  assert (Hlook : ∀ id0 c0, <[id := disconnect c]> (conns s) !! id0 = Some c0 →
    ∃ c1, conns s !! id0 = Some c1 ∧ pc c0 = pc c1 ∧ (connOK c1 → connOK c0)).
  { intros id0 c0 H0. destruct (moved_lookup _ _ _ _ _ _ Hc H0) as [[-> ->]|[Hne H0']]; [|by exists c0].
    exists c. split; [done|]. split; [done|]. intros []. constructor; cbn; auto. }
  assert (Hkeep : ∀ id0 c0, conns s !! id0 = Some c0 → ∃ c1, <[id := disconnect c]> (conns s) !! id0 = Some c1 ∧
    pc c1 = pc c0 ∧ (disconnecting c0 = true → disconnecting c1 = true)).
  { intros id0 c0 H0. destruct (decide (id0 = id)) as [->|Hne]; [|exists c0; by rewrite list_lookup_insert_ne].
    simplify_eq. by exists (disconnect c). }
  replace (if emits then emitStatus id StatusDisconnecting s1 else s1) with
    {| status := if emits then StatusDisconnecting else status s; s_conn := s_conn s;
       conns := <[id := disconnect c]> (conns s); api := api s;
       history := history (if emits then emitStatus id StatusDisconnecting s1 else s1) |} by by destruct emits.
  constructor; cbn.
  - intros id0 ?. simplify_eq. rewrite length_insert. split; [done|]. by exists (disconnect c).
  - intros id0 c0 H0 Hl0. destruct (Hlook _ _ H0) as (c1 & H1 & Hp & _). apply (i_live s Hi id0 c1 H1). congruence.
  - intros id0 c0 H0. destruct (Hlook _ _ H0) as (c1 & H1 & _ & Hok). by apply Hok, (i_ok s Hi id0).
  - intros id0 c0 H0 Hp0. destruct (Hlook _ _ H0) as (c1 & H1 & Hp & _). apply (i_spawn s Hi id0 c1 H1). congruence.
  - assert (Hdis : ∀ id0, (∃ c0, conns s !! id0 = Some c0 ∧ disconnecting c0 = true) →
      ∃ c0, <[id := disconnect c]> (conns s) !! id0 = Some c0 ∧ disconnecting c0 = true).
    { intros id0 (c0 & H0 & Hd0). destruct (Hkeep _ _ H0) as (c1 & ? & _ & ?). eauto. }
    pose proof (i_api s Hi) as Hapi. destruct (api s) eqn:Ea; try done; try (destruct Hapi as [? ?]; by auto).
    + by destruct (Ha id0).
    + by apply Hdis.
  - rewrite length_insert, Hh. apply Forall_app. split; [destruct emits; repeat constructor; cbn; lia|].
    constructor; [cbn; lia|apply Hi].
  - rewrite Hh. assert (Hs1 : StronglySorted (λ h1 h2, mark_id h2 ≤ mark_id h1)%nat (HMark id :: history s)).
    { constructor; [apply Hi|]. cbn. eapply Forall_impl; [apply (i_tags s Hi)|]. cbn. lia. }
    destruct emits; [|done]. cbn. constructor; [done|]. cbn. constructor; [cbn; lia|].
    eapply Forall_impl; [apply (i_tags s Hi)|]. cbn. lia.
  - intros id0 [[_ ?]|[?|?]]%Hin; [done| |].
    + simplify_eq. by exists (disconnect c).
    + destruct (i_mark s Hi id0) as (c0 & H0 & Hd0); [done|]. destruct (Hkeep _ _ H0) as (c1 & ? & _ & ?). eauto.
  - intros l1 l2 id0. rewrite Hh. destruct emits.
    + destruct l1 as [|? [|? l1]]; intros ?; simplify_eq/=. by apply (i_connected s Hi l1).
    + destruct l1 as [|? l1]; intros ?; simplify_eq/=. by apply (i_connected s Hi l1).
  - intros id0 [[Hem ?]|[?|H0]]%Hin; [|done|].
    + simplify_eq. exists (disconnect c). split; [done|]. split; [done|]. cbn. intros err Herr.
      specialize (Hcl eq_refl). by rewrite Herr in Hcl.
    + destruct (i_disconnecting s Hi id0 H0) as (c0 & Hc0 & Hd0 & Hp0). destruct (Hkeep _ _ Hc0) as (c1 & ? & Hp1 & ?).
      exists c1. rewrite Hp1. auto.
  - intros id0 [[_ ?]|[?|H0]]%Hin; [done|done|].
    destruct (i_failed s Hi id0 H0) as (Hnd & c0 & Hc0 & Hcl0). split.
    + intros [[Hem ?]|[?|?]]%Hin; [|done|done]. simplify_eq. specialize (Hcl eq_refl). congruence.
    + destruct (Hkeep _ _ Hc0) as (c1 & ? & Hp1 & _). exists c1. split; [done|]. congruence.
  - intros id0 c0 H0 Hl0 Hs0. rewrite length_insert in Hl0. destruct (Hlook _ _ H0) as (c1 & H1 & Hp & _).
    assert (id0 = id) as -> by lia. simplify_eq. rewrite Hp in Hs0. destruct emits.
    + specialize (Hcl eq_refl). by destruct (pc c).
    + by apply (i_status s Hi id c).
Qed.

Lemma inv_install s :
  inv s → api s = AInstall →
  inv {| status := status s; s_conn := Some (length (conns s)); conns := conns s ++ [newConnection];
         api := APrepare (length (conns s)); history := history s |}.
Proof.
  intros Hi Ha. pose proof (i_api s Hi) as Hn. rewrite Ha in Hn.
  assert (Hlook : ∀ id c, (conns s ++ [newConnection]) !! id = Some c →
    (id = length (conns s) ∧ c = newConnection) ∨ conns s !! id = Some c).
  { intros id c [?|[? Hc]]%lookup_app_Some; [auto|]. left. apply list_lookup_singleton_Some in Hc as [? ->]. split; [lia|done]. }
  assert (Hkeep : ∀ id c, conns s !! id = Some c → (conns s ++ [newConnection]) !! id = Some c)
    by (intros; by apply lookup_app_l_Some).
  assert (Hnew : (conns s ++ [newConnection]) !! length (conns s) = Some newConnection).
  { rewrite lookup_app_r by done. by rewrite Nat.sub_diag. }
  constructor; cbn.
  - intros id ?. simplify_eq. rewrite length_app. cbn. split; [lia|]. by exists newConnection.
  - intros id c [[-> ->]|H0]%Hlook Hl; [done|]. pose proof (i_live s Hi id c H0 Hl). congruence.
  - intros id c [[-> ->]|H0]%Hlook; [|by apply (i_ok s Hi id)]. constructor; cbn; try done.
  - intros id c [[-> ->]|H0]%Hlook Hp; [done|]. pose proof (i_spawn s Hi id c H0 Hp). congruence.
  - done.
  - rewrite length_app. cbn. eapply Forall_impl; [apply (i_tags s Hi)|]. cbn. lia.
  - apply Hi.
  - intros id (c & H0 & Hd)%(i_mark s Hi). eauto.
  - apply Hi.
  - intros id (c & H0 & Hd)%(i_disconnecting s Hi). eauto.
  - intros id H0. destruct (i_failed s Hi id H0) as (? & c & Hc & Hcl). eauto.
  - intros id c [[-> ->]|H0]%Hlook Hl Hs; [done|]. rewrite length_app in Hl. cbn in Hl.
    apply lookup_lt_Some in H0. lia.
Qed.

Lemma inv_prepare s id c :
  inv s → api s = APrepare id → conns s !! id = Some c →
  inv (withApi AIdle (withConn id (goto FSpawned c) (emitStatus id StatusPreparing s))).
Proof.
  intros Hi Ha Hc. pose proof (i_api s Hi) as Hn. rewrite Ha in Hn. simplify_eq.
  assert (Hlive : live (pc newConnection) = true) by done.
  pose proof (live_last s id _ Hi Hc Hlive) as Hlen. pose proof (i_live s Hi id _ Hc Hlive) as Hsc.
  assert (Hlook : ∀ id0 c0, <[id := goto FSpawned newConnection]> (conns s) !! id0 = Some c0 →
    (id0 = id ∧ c0 = goto FSpawned newConnection) ∨ (id0 ≠ id ∧ conns s !! id0 = Some c0))
    by (intros id0 c0; apply moved_lookup with newConnection; done).
  assert (Hkeep : ∀ id0 c0, conns s !! id0 = Some c0 → ∃ c1, <[id := goto FSpawned newConnection]> (conns s) !! id0 = Some c1 ∧
    disconnecting c1 = disconnecting c0 ∧ (claimed (pc c0) = true → claimed (pc c1) = true) ∧
    (∀ err, pc c1 = FTerminal false err → pc c0 = FTerminal false err)).
  { intros id0 c0 H0. destruct (decide (id0 = id)) as [->|Hne]; [|exists c0; by rewrite list_lookup_insert_ne].
    simplify_eq. exists (goto FSpawned newConnection). rewrite list_lookup_insert_eq by lia. done. }
  assert (Hin : ∀ x, x ∈ HStatus id StatusPreparing :: history s → x = HStatus id StatusPreparing ∨ x ∈ history s)
    by (intros x; apply elem_of_tag).
  unfold withApi, withConn, emitStatus; cbn. constructor; cbn.
  - intros id0 H0. rewrite length_insert. destruct (i_conn s Hi id0 H0) as (? & _). split; [done|]. simplify_eq.
    eexists. split; [apply list_lookup_insert_eq; lia|done].
  - intros id0 c0 [[-> ->]|[? H0]]%Hlook Hl; [done|by apply (i_live s Hi id0 c0)].
  - intros id0 c0 [[-> ->]|[? H0]]%Hlook; [|by apply (i_ok s Hi id0)]. constructor; cbn; try done.
  - intros id0 c0 [[-> ->]|[? H0]]%Hlook Hp; [done|]. pose proof (i_spawn s Hi id0 c0 H0 Hp). congruence.
  - done.
  - rewrite length_insert. constructor; [cbn; lia|apply Hi].
  - constructor; [apply Hi|]. cbn. eapply Forall_impl; [apply (i_tags s Hi)|]. cbn. lia.
  - intros id0 [?|(c0 & H0 & Hd)%(i_mark s Hi)]%Hin; [done|]. destruct (Hkeep _ _ H0) as (c1 & ? & E & _).
    exists c1. by rewrite E.
  - intros [|? l1] l2 id0 ?; simplify_eq/=. by apply (i_connected s Hi l1).
  - intros id0 [?|(c0 & H0 & Hd & Hp)%(i_disconnecting s Hi)]%Hin; [done|].
    destruct (Hkeep _ _ H0) as (c1 & ? & E & _ & Ht). exists c1. rewrite E. naive_solver.
  - intros id0 [?|H0]%Hin; [done|]. destruct (i_failed s Hi id0 H0) as (Hnd & c0 & Hc0 & Hcl). split.
    + by intros [?|?]%Hin.
    + destruct (Hkeep _ _ Hc0) as (c1 & ? & _ & Hc1 & _). eauto.
  - intros id0 c0 [[-> ->]|[? H0]]%Hlook Hl Hs; [done|]. rewrite length_insert in Hl. lia.
Qed.

Lemma inv_api s s' : inv s → apiStep s = Some s' → inv s'.
Proof.
  intros Hi. unfold apiStep. pose proof (i_api s Hi) as Ha. destruct (api s) as [|inst|id inst|id inst| |id|id] eqn:Ea; [done|..].
  - assert (Hn : ∀ id, api s ≠ APrepare id) by (intros; congruence).
    destruct (s_conn s) as [id|] eqn:Es.
    + destruct (conns s !! id) as [c|] eqn:Hc; [|done]. intros [= <-].
      destruct (inv_disconnect s id c false Hi Hn Es Hc) as [H1 H2]; [done|].
      apply inv_withApi; [done| |].
      * cbn. split; [by left|]. eexists. split; [exact H2|done].
      * intros id0 c0 Hc0 Hp. by apply (spawned _ id0 c0 H1 ltac:(done) Hc0).
    + intros [= <-]. apply inv_withApi; [done|by destruct inst|]. intros id c Hc. by apply (spawned s id).
  - assert (Hn : ∀ id, api s ≠ APrepare id) by (intros; congruence).
    destruct Ha as [Hs (c & Hc & Hd)]. rewrite Hc. intros [= <-].
    pose proof (inv_cancel s id c Hi Hn Hc Hd) as H1. apply inv_withApi; [done| |].
    + cbn. split; [done|]. exists (cancel c). rewrite list_lookup_insert_eq by (by eapply lookup_lt_Some). done.
    + intros id0 c0 Hc0. apply (spawned _ id0 c0 H1); [done|done].
  - destruct Ha as [Hs (c & Hc & Hd)]. rewrite Hc. cbn. destruct (closed c) eqn:Hcl; [|done]. intros [= <-].
    assert (Hn : s_conn s = None).
    { destruct Hs as [Hs|]; [|done]. destruct (i_conn s Hi id Hs) as (_ & c0 & Hc0 & Hl). simplify_eq.
      apply (ok_closed c (i_ok s Hi id c Hc)) in Hcl. by rewrite Hcl in Hl. }
    apply inv_withApi; [done|by destruct inst|]. intros id0 c0 Hc0. apply (spawned s id0); [done|by rewrite Ea|done].
  - intros [= <-]. by apply inv_install.
  - rewrite Ha. intros [= <-]. by apply inv_prepare.
  - assert (Hn : ∀ id, api s ≠ APrepare id) by (intros; congruence).
    destruct Ha as (c & Hc & Hd). rewrite Hc. intros [= <-].
    pose proof (inv_cancel s id c Hi Hn Hc Hd) as H1. apply inv_withApi; [done|done|].
    intros id0 c0 Hc0. apply (spawned _ id0 c0 H1); [done|done].
Qed.

Lemma inv_step e s s' : inv s → step mobile e s = Some s' → inv s'.
Proof.
  intros Hi. destruct e as [| | | |id o]; cbn.
  - destruct (api s) eqn:Ea; try done. intros [= <-]. apply inv_withApi; [done..|].
    intros id c Hc. apply (spawned s id); [done|by rewrite Ea|done].
  - destruct (api s) eqn:Ea; try done. destruct (s_conn s); intros [= <-]; [|done]. apply inv_withApi; [done..|].
    intros id c Hc. apply (spawned s id); [done|by rewrite Ea|done].
  - destruct (api s) eqn:Ea; try done. destruct (s_conn s) as [id|] eqn:Es; [|by intros [= <-]].
    destruct (conns s !! id) as [c|] eqn:Hc; [|done]. intros [= <-].
    destruct (inv_disconnect s id c (negb (finalized c)) Hi ltac:(by rewrite Ea) Es Hc) as [H1 H2]; [by destruct (finalized c)|].
    destruct (finalized c); cbn [negb] in *; (apply inv_withApi; [done|by eexists|]);
      intros id0 c0 Hc0; (apply (spawned _ id0 c0 H1); cbn; [by rewrite Ea|done]).
  - apply inv_api; done.
  - destruct (conns s !! id) as [c|] eqn:Hc; [|done]. by apply inv_flow.
Qed.

Lemma inv_run es s s' : inv s → run mobile es s = Some s' → inv s'.
Proof.
  revert s. induction es as [|e es IH]; cbn; intros s Hi Hr; [by simplify_eq|].
  destruct (step mobile e s) as [s1|] eqn:E; [|done]. by apply (IH s1); [eapply inv_step|].
Qed.
End preservation.

(** * Theorems *)
Definition flowOf (id : nat) (e : event) : bool :=
  match e with EFlow id' _ => bool_decide (id' = id) | _ => false end.

(** Steps a cancelled goroutine has left, at most. *)
Definition stepsLeft (p : flowpc) : nat :=
  match p with
  | FUnspawned => 16 | FSpawned => 15 | FTriggered => 15 | FRecover => 14 | FConnecting => 14
  | FRelease => 13 | FReladder => 12 | FPromote => 11 | FSupervise => 10 | FExit _ => 9 | FCleanup _ => 8
  | FSample _ => 7 | FTerminal _ _ => 6 | FClear => 5 | FReturn => 4 | FClose => 3 | FDone => 0
  end.

Section theorems.
#[local] Set Default Proof Using "Type".
Context (mobile : bool).

(** C13: whatever calls the host makes and however they interleave with the
    goroutines, the statuses of two connections never mix in the sink's
    history (once a connection has spoken no earlier one does), only one
    connection's tunnel runs at a time, and it is the installed one. *)
Theorem sessions_never_interleave es s :
  run mobile es newEngine = Some s →
  StronglySorted (λ h1 h2, mark_id h2 ≤ mark_id h1)%nat (history s) ∧
  (∀ id c, conns s !! id = Some c → active c = true → s_conn s = Some id) ∧
  (∀ id1 id2 c1 c2, conns s !! id1 = Some c1 → conns s !! id2 = Some c2 →
     active c1 = true → active c2 = true → id1 = id2).
Proof.
  intros Hr. pose proof (inv_run mobile es _ s inv_init Hr) as Hi.
  assert (Ha : ∀ id c, conns s !! id = Some c → active c = true → s_conn s = Some id).
  { intros id c Hc Hac. apply (i_live s Hi id c Hc). pose proof (ok_active c (i_ok s Hi id c Hc) Hac). by destruct (pc c). }
  split; [apply Hi|]. split; [done|].
  intros id1 id2 c1 c2 H1 H2 A1 A2. pose proof (Ha _ _ H1 A1). pose proof (Ha _ _ H2 A2). congruence.
Qed.

(** C17: a user's disconnect wins.  Once a connection is marked it never reports
    CONNECTED again; and if Disconnect still found it unfinished, and so
    reported DISCONNECTING, it ends DISCONNECTED, not FAILED. *)
Theorem disconnect_wins es s id :
  run mobile es newEngine = Some s →
  (∀ l1 l2, history s = l1 ++ HStatus id StatusConnected :: l2 → HMark id ∉ l2) ∧
  (HStatus id StatusDisconnecting ∈ history s → HStatus id StatusFailed ∉ history s).
Proof.
  intros Hr. pose proof (inv_run mobile es _ s inv_init Hr) as Hi.
  split; [intros l1 l2; by apply i_connected|].
  intros Hd Hf. by destruct (i_failed s Hi id Hf) as [Hn _].
Qed.

(** Until something is installed the status is the initial one. *)
Lemma step_length e s s' : step mobile e s = Some s' → (length (conns s) ≤ length (conns s'))%nat.
Proof.
  destruct e as [| | | |id o]; cbn.
  - destruct (api s); intros [= <-]; cbn; lia.
  - destruct (api s), (s_conn s); intros [= <-]; cbn; lia.
  - destruct (api s); try done. destruct (s_conn s) as [id|]; [|by intros [= <-]].
    destruct (conns s !! id) as [c|]; [|done]. intros [= <-].
    destruct (finalized c); cbn; by rewrite length_insert.
  - unfold apiStep. destruct (api s) as [|?|id ?|id ?| |id|id], (s_conn s) as [id0|]; try done; intros Hs;
      repeat match type of Hs with context [conns s !! ?i] => destruct (conns s !! i); [|done] end;
      cbn in Hs;
      repeat match type of Hs with context [closed ?c] => destruct (closed c); [|done] end;
      simplify_eq/=; rewrite ?length_insert, ?length_app; cbn; lia.
  - destruct (conns s !! id) as [c|] eqn:Hc; [|done]. cbn. intros Hs.
    destruct (flowStep_effect mobile id o c s s' Hc Hs); cbn; rewrite ?length_insert; lia.
Qed.

Lemma fresh_status es s : run mobile es newEngine = Some s → conns s = [] → status s = StatusDisconnected.
Proof.
  assert (Hs : ∀ s0, (conns s0 = [] → status s0 = StatusDisconnected) →
    run mobile es s0 = Some s → conns s = [] → status s = StatusDisconnected); [|by apply Hs].
  induction es as [|e es IH]; cbn; intros s0 H0; [by intros [= <-]|].
  destruct (step mobile e s0) as [s1|] eqn:E; [|done]. apply IH. intros H1.
  pose proof (step_length e s0 s1 E) as Hl. rewrite H1 in Hl. cbn in Hl.
  assert (Hn : conns s0 = []) by (by apply nil_length_inv; lia). rewrite <- (H0 Hn).
  destruct e as [| | | |id o]; cbn in E.
  - by destruct (api s0); simplify_eq.
  - by destruct (api s0), (s_conn s0); simplify_eq.
  - rewrite Hn in E. by destruct (api s0), (s_conn s0); simplify_eq/=.
  - unfold apiStep in E. rewrite Hn in E. destruct (api s0), (s_conn s0); simplify_eq/=; done.
  - rewrite Hn in E. done.
Qed.

(** the sink never ends on a transient status: when no goroutine is live,
    and the last Connect has got past its installation, the status is
    DISCONNECTED or FAILED. *)
Lemma status_settles es s :
  run mobile es newEngine = Some s →
  s_conn s = None → terminal (status s).
Proof.
  intros Hr Hn. pose proof (inv_run mobile es _ s inv_init Hr) as Hi.
  destruct (decide (conns s = [])) as [He|He].
  - left. by apply (fresh_status es).
  - destruct (lookup_lt_is_Some_2 (conns s) (pred (length (conns s)))) as [c Hc].
    { destruct (conns s); [done|]. cbn. lia. }
    apply (i_status s Hi (pred (length (conns s))) c Hc); [destruct (conns s); [done|cbn; lia]|].
    destruct (settled (pc c)) eqn:E; [done|]. assert (live (pc c) = true) as Hl by by destruct (pc c).
    pose proof (i_live s Hi _ c Hc Hl). congruence.
Qed.

(** ** A disconnect settles *)
Lemma flowStep_left id o c s s' c' :
  conns s !! id = Some c → cancelled c = true → disconnecting c = true ∨ claimed (pc c) = true →
  flowStep mobile id o c s = Some s' → conns s' !! id = Some c' →
  (stepsLeft (pc c') < stepsLeft (pc c))%nat ∧ cancelled c' = true ∧ (disconnecting c' = true ∨ claimed (pc c') = true).
Proof.
  intros Hc Hcan Hd Hs Hc'. assert (Hlt : (id < length (conns s))%nat) by (by eapply lookup_lt_Some).
  assert (Hdone : ∀ c1, <[id := c1]> (conns s) !! id = Some c1) by (intros c1; by apply list_lookup_insert_eq).
  unfold flowStep, stopping in Hs. rewrite Hcan in Hs. cbn [orb] in Hs.
  destruct (pc c) eqn:Hp, o; try discriminate; cbn in Hd;
    repeat match type of Hs with context [if ?b then _ else _] => destruct b eqn:? end; simplify_eq;
    unfold clearConn, withConn, emitStatus in Hc'; cbn in Hc'; rewrite ?Hdone in Hc'; simplify_eq; cbn;
    (split; [lia|split; [done|naive_solver]]).
Qed.

(** Every other step leaves a started goroutine where it is. *)
Lemma step_other e s s' id c :
  inv s → step mobile e s = Some s' → flowOf id e = false → conns s !! id = Some c → pc c ≠ FUnspawned →
  ∃ c', conns s' !! id = Some c' ∧ pc c' = pc c ∧ (cancelled c = true → cancelled c' = true).
Proof.
  intros Hi Hs Hf Hc Hp.
  assert (Hset : ∀ id0 c0 c1, conns s !! id0 = Some c0 → pc c1 = pc c0 → (cancelled c0 = true → cancelled c1 = true) →
    ∃ c', <[id0 := c1]> (conns s) !! id = Some c' ∧ pc c' = pc c ∧ (cancelled c = true → cancelled c' = true)).
  { intros id0 c0 c1 H0 Hpc Hcan. destruct (decide (id0 = id)) as [->|Hne].
    - simplify_eq. exists c1. by rewrite list_lookup_insert_eq by (by eapply lookup_lt_Some).
    - exists c. by rewrite list_lookup_insert_ne. }
  assert (Hsame : conns s' = conns s → ∃ c', conns s' !! id = Some c' ∧ pc c' = pc c ∧ (cancelled c = true → cancelled c' = true))
    by (intros ->; eauto).
  destruct e as [| | | |id0 o]; cbn in Hs.
  - apply Hsame. by destruct (api s); simplify_eq.
  - apply Hsame. by destruct (api s), (s_conn s); simplify_eq.
  - destruct (api s); try done. destruct (s_conn s) as [id0|]; [|by simplify_eq; auto].
    destruct (conns s !! id0) as [c0|] eqn:H0; [|done]. simplify_eq/=. destruct (finalized c0); by apply (Hset id0 c0).
  - unfold apiStep in Hs. pose proof (i_api s Hi) as Ha.
    destruct (api s) as [|?|id0 ?|id0 ?| |id0|id0] eqn:Ea; try done.
    + destruct (s_conn s) as [id0|]; [|by simplify_eq; auto].
      destruct (conns s !! id0) as [c0|] eqn:H0; [|done]. simplify_eq/=. by apply (Hset id0 c0).
    + destruct (conns s !! id0) as [c0|] eqn:H0; [|done]. simplify_eq/=. by apply (Hset id0 c0).
    + destruct (conns s !! id0) as [c0|]; [|done]. cbn in Hs. destruct (closed c0); [|done]. simplify_eq. auto.
    + simplify_eq/=. exists c. by rewrite lookup_app_l by (by eapply lookup_lt_Some).
    + rewrite Ha in Hs. simplify_eq/=. destruct (decide (id0 = id)) as [->|Hne]; [by simplify_eq|].
      exists c. by rewrite list_lookup_insert_ne.
    + destruct (conns s !! id0) as [c0|] eqn:H0; [|done]. simplify_eq/=. by apply (Hset id0 c0).
  - cbn in Hf. apply bool_decide_eq_false in Hf. destruct (conns s !! id0) as [c0|] eqn:H0; [|done].
    exists c. destruct (flowStep_effect mobile id0 o c0 s s' H0 Hs); cbn; by rewrite list_lookup_insert_ne.
Qed.

(** A cancelled goroutine always has a step, until it is done. *)
Lemma cancelled_enabled s id c :
  inv s → conns s !! id = Some c → cancelled c = true →
  pc c = FDone ∨ ∃ o s', step mobile (EFlow id o) s = Some s'.
Proof.
  intros Hi Hc Hcan. cbn. rewrite Hc. cbn. pose proof (i_api s Hi) as Ha.
  unfold flowStep, stopping. rewrite Hcan. cbn [orb]. destruct (pc c) eqn:Hp; try (right; exists Proceed; by eauto).
  - rewrite (i_spawn s Hi id c Hc Hp) in Ha. by simplify_eq.
  - right. exists Stop. eauto.
  - right. exists Stop. eauto.
  - by left.
Qed.

(** C39: a cancelled connection ends.  From any reachable state, however calls
    and other goroutines interleave, its goroutine takes at most [stepsLeft]
    (never more than 16) further steps, and until its done channel is closed it
    always has one it can take: so the Connect or Shutdown that waits for the
    channel is released. *)
Theorem disconnect_terminates es s id c :
  run mobile es newEngine = Some s → conns s !! id = Some c → cancelled c = true →
  (closed c = true ∨ ∃ o s', step mobile (EFlow id o) s = Some s') ∧
  ∀ es' s', run mobile es' s = Some s' →
    ∃ c', conns s' !! id = Some c' ∧
      (length (List.filter (flowOf id) es') + stepsLeft (pc c') ≤ stepsLeft (pc c) ≤ 16)%nat.
Proof.
  intros Hr Hc Hcan. pose proof (inv_run mobile es _ s inv_init Hr) as Hi. split.
  { destruct (cancelled_enabled s id c Hi Hc Hcan) as [Hd|?]; [|by right]. left. by apply (ok_closed c (i_ok s Hi id c Hc)). }
  clear es Hr. intros es'. revert s c Hi Hc Hcan.
  induction es' as [|e es' IH]; cbn [run List.filter]; intros s c Hi Hc Hcan s' Hr.
  { simplify_eq. exists c. split; [done|]. cbn. destruct (pc c); cbn; lia. }
  destruct (step mobile e s) as [s1|] eqn:E; [|done].
  pose proof (inv_step mobile e s s1 Hi E) as Hi1. destruct (flowOf id e) eqn:Hf.
  - destruct e as [| | | |id0 o]; try done. cbn in Hf. apply bool_decide_eq_true in Hf as ->. cbn in E. rewrite Hc in E. cbn in E.
    assert (is_Some (conns s1 !! id)) as [c1 Hc1].
    { apply lookup_lt_is_Some. destruct (flowStep_effect mobile id o c s s1 Hc E); cbn; rewrite length_insert; by eapply lookup_lt_Some. }
    destruct (flowStep_left id o c s s1 c1 Hc Hcan) as (Hlt & Hcan1 & _); [|done..|].
    { destruct (ok_cancelled c (i_ok s Hi id c Hc) Hcan); auto. }
    destruct (IH s1 c1 Hi1 Hc1 Hcan1 s' Hr) as (c' & Hc' & Hle). exists c'. split; [done|].
    cbn [length]. destruct (pc c); cbn in *; lia.
  - assert (Hp : pc c ≠ FUnspawned).
    { intros Hp. pose proof (i_api s Hi) as Ha. rewrite (i_spawn s Hi id c Hc Hp) in Ha. by simplify_eq. }
    destruct (step_other e s s1 id c Hi E Hf Hc Hp) as (c1 & Hc1 & Hpc & Hcan1).
    destruct (IH s1 c1 Hi1 Hc1 (Hcan1 Hcan) s' Hr) as (c' & Hc' & Hle). exists c'. split; [done|]. by rewrite Hpc in Hle.
Qed.
End theorems.

(** ** A concrete history

    Connect, reach CONNECTED, lose the tunnel; a second Connect takes over as
    the recovery's winner comes up, and the user disconnects it while its own
    winner does. *)
Definition go (id n : nat) : list event := replicate n (EFlow id Proceed).
Definition switchRun : list event :=
  [EConnect; EApi; EApi; EApi] ++ go 0 8 ++ [EConnect; EApi; EApi] ++ go 0 8 ++ [EApi; EApi; EApi] ++
  go 1 2 ++ [EDisconnect; EFlow 1 Proceed; EApi] ++ go 1 5.
Definition switchEngine : option engine := run false switchRun newEngine.

Example switch_history :
  (λ s, (status s, history s, s_conn s)) <$> switchEngine =
  Some (StatusDisconnected,
    [HStatus 1 StatusDisconnected; HStatus 1 StatusDisconnecting; HMark 1; HStatus 1 StatusConnecting; HStatus 1 StatusPreparing;
     HStatus 0 StatusDisconnected; HMark 0; HStatus 0 StatusConnecting; HStatus 0 StatusConnected;
     HStatus 0 StatusConnecting; HStatus 0 StatusPreparing], None).
Proof. reflexivity. Qed.

(** What the final engine shows, by evaluation. *)
Lemma switch_observe {A} (f : engine → A) s x :
  run false switchRun newEngine = Some s → f <$> switchEngine = Some x → f s = x.
Proof. unfold switchEngine. intros ->. by intros [= ->]. Qed.

Lemma sessions_never_interleave_witness :
  ∃ s, run false switchRun newEngine = Some s ∧ StronglySorted (λ h1 h2, mark_id h2 ≤ mark_id h1)%nat (history s) ∧
    length (conns s) = 2%nat.
Proof.
  destruct (run false switchRun newEngine) as [s|] eqn:E; [|exfalso; vm_compute in E; discriminate E].
  exists s. split; [reflexivity|]. split; [exact (proj1 (sessions_never_interleave false switchRun s E))|].
  apply (switch_observe (λ s, length (conns s)) s _ E). vm_compute. reflexivity.
Defined.

Lemma disconnect_wins_witness :
  ∃ s, run false switchRun newEngine = Some s ∧ HStatus 1 StatusDisconnecting ∈ history s ∧
    HStatus 1 StatusFailed ∉ history s.
Proof.
  destruct (run false switchRun newEngine) as [s|] eqn:E; [|exfalso; vm_compute in E; discriminate E].
  exists s. split; [reflexivity|].
  assert (Hin : HStatus 1 StatusDisconnecting ∈ history s).
  { apply (list_elem_of_lookup_2 _ 1). apply (switch_observe (λ s, history s !! 1%nat) s _ E). vm_compute. reflexivity. }
  exact (conj Hin (proj2 (disconnect_wins false switchRun s 1 E) Hin)).
Defined.

Lemma status_settles_witness : ∃ s, run false switchRun newEngine = Some s ∧ terminal (status s).
Proof.
  destruct (run false switchRun newEngine) as [s|] eqn:E; [|exfalso; vm_compute in E; discriminate E].
  exists s. split; [reflexivity|]. apply (status_settles false switchRun s E).
  apply (switch_observe s_conn s _ E). vm_compute. reflexivity.
Defined.

(** The first connection, cancelled as its recovery's winner comes up. *)
Definition takeover : list event := [EConnect; EApi; EApi; EApi] ++ go 0 8 ++ [EConnect; EApi; EApi].
Definition cancelledWinner : connection :=
  {| cancelled := true; disconnecting := true; finalized := false; closed := false; active := false; pc := FPromote |}.

Lemma disconnect_terminates_witness :
  ∃ s, run false takeover newEngine = Some s ∧ conns s !! 0%nat = Some cancelledWinner ∧
    (closed cancelledWinner = true ∨ ∃ o s', step false (EFlow 0 o) s = Some s').
Proof.
  destruct (run false takeover newEngine) as [s|] eqn:E; [|exfalso; vm_compute in E; discriminate E].
  assert (Hc : conns s !! 0%nat = Some cancelledWinner).
  { apply (f_equal (λ o, o ≫= λ s, conns s !! 0%nat)) in E. cbn [mbind option_bind] in E. rewrite <- E. vm_compute. reflexivity. }
  exists s. split; [reflexivity|]. split; [exact Hc|].
  exact (proj1 (disconnect_terminates false takeover s 0 cancelledWinner E Hc eq_refl)).
Defined.
