(* ===== verification/Monitor.v ===== *)
(** The connected phase: the platform's network signals
    (src/libs/connectcore/network.go), the traffic-aware probe cadence
    (mobile.go: [mobileProbeCadence]), the recovery budget, the health loop and
    the wait for the network (monitor.go: [healthLoopWithProbe],
    [waitForNetworkRecovery]).

    Goroutines are functions over what they receive: a health loop over its
    sweeps, a wait over its wake-ups; each carries the readings of the clock,
    the probes and the context that the code takes at that point.  Log lines
    and notices are left out. *)
From stdpp Require Import base list gmap strings.
From Stdlib Require Import ZArith Lia.
From S2P Require Import Prelude PunchBreaker Directory Ladder.

Definition networkRecoveryPollInterval : Z := 5 * second.
Definition mobileNetworkRecoveryMaxPoll : Z := 60 * second.
Definition mobileNetworkRecoveryLimit : Z := 2 * minute.
Definition MaxRecoveryBackoff : Z := 60 * second.
Definition HealthProbeInterval : Z := 30 * second.
Definition HealthFailureThreshold : nat := 3.
Definition maxProbeAllowance : Z := 5 * minute.

(** * The network tracker *)
Record NetworkState := { Up : bool; Fingerprint : string }.
#[export] Instance NetworkState_eq_dec : EqDecision NetworkState.
Proof. solve_decision. Defined.

Record tracker := { netBaselined : bool; netLast : NetworkState; netEpoch : Z }.
Definition newTracker : tracker :=
  {| netBaselined := false; netLast := {| Up := false; Fingerprint := "" |}; netEpoch := 0 |}.

(** [UpdateNetworkState]; whether it crosses an epoch boundary, and then sends
    its notice and wakes the session.  The counter is a uint64. *)
Definition UpdateNetworkState (state : NetworkState) (t : tracker) : tracker * bool :=
  if negb (netBaselined t) then ({| netBaselined := true; netLast := state; netEpoch := netEpoch t |}, false)
  else if decide (state = netLast t) then (t, false)
  else ({| netBaselined := true; netLast := state; netEpoch := (netEpoch t + 1) mod 2 ^ 64 |}, true).

Definition physicalNetworkKnownDown (t : tracker) : bool := netBaselined t && negb (Up (netLast t)).

(** The number of changes in a sequence of observations. *)
Fixpoint changes (last : option NetworkState) (l : list NetworkState) : Z :=
  match l with
  | [] => 0
  | x :: l => (match last with Some y => if decide (x = y) then 0 else 1 | None => 0 end) + changes (Some x) l
  end.

Lemma observe_all l t :
  0 ≤ netEpoch t < 2 ^ 64 →
  netEpoch (foldl (λ t x, (UpdateNetworkState x t).1) t l) =
  (netEpoch t + changes (if netBaselined t then Some (netLast t) else None) l) mod 2 ^ 64.
Proof.
  revert t. induction l as [|x l IH]; intros t Ht; cbn [foldl changes].
  { by rewrite Z.add_0_r, Z.mod_small. }
  unfold UpdateNetworkState at 2. destruct (netBaselined t) eqn:Eb; cbn [negb].
  - destruct (decide (x = netLast t)) as [->|Hne]; cbn [fst].
    + rewrite IH by done. by rewrite Eb, Z.add_0_l.
    + rewrite IH by (apply Z.mod_pos_bound; lia). cbn. rewrite Zplus_mod_idemp_l. f_equal. lia.
  - cbn [fst]. rewrite IH by done. cbn. done.
Qed.

(** ** Wakes

    The session's netNotify channel holds one wake.  [inflight] callers of
    UpdateNetworkState are between the tracker's lock and their send.  The
    supervisor watches, compares after a wake, drains wakes while it waits out
    an outage, and captures the epoch before a candidate's first dial. *)
Inductive suppc := SRecover | SAttempt (captured : Z) | SWatch (handled : Z) | SWoken (handled : Z).
(** [seen] is the epoch the session last dialled in or reacted to. *)
Record wakes := { wk_tracker : tracker; inflight : nat; pending : bool; sup : suppc; seen : Z }.

Inductive wakeEvent :=
| Observe (state : NetworkState)   (* a host's call, up to its lock's release *)
| Send                             (* and its send *)
| Receive                          (* the supervisor, or its recovery wait, takes the wake *)
| Compare (wss : bool)             (* the supervisor compares the epochs *)
| Lost                             (* the watched candidate is given up *)
| Capture                          (* an attempt begins *)
| Promoted.                        (* its candidate is promoted *)

Definition wakeStep (e : wakeEvent) (m : wakes) : option wakes :=
  let t := wk_tracker m in
  let with_ i p s n := Some {| wk_tracker := t; inflight := i; pending := p; sup := s; seen := n |} in
  match e, sup m with
  | Observe x, s =>
      let '(t, crossed) := UpdateNetworkState x t in
      Some {| wk_tracker := t; inflight := if crossed then S (inflight m) else inflight m; pending := pending m;
              sup := s; seen := seen m |}
  | Send, s => match inflight m with S i => with_ i true s (seen m) | O => None end
  | Receive, SRecover => if pending m then with_ (inflight m) false SRecover (seen m) else None
  | Receive, SWatch h => if pending m then with_ (inflight m) false (SWoken h) (seen m) else None
  | Compare wss, SWoken h =>
      if netEpoch t =? h then with_ (inflight m) (pending m) (SWatch h) (seen m)
      else
        (* retire the session, or kick a health sweep *)
        with_ (inflight m) (pending m) (if wss then SRecover else SWatch (netEpoch t)) (netEpoch t)
  | Lost, (SWatch _ | SAttempt _) => with_ (inflight m) (pending m) SRecover (seen m)
  | Capture, (SRecover | SAttempt _) => with_ (inflight m) (pending m) (SAttempt (netEpoch t)) (netEpoch t)
  | Promoted, SAttempt captured => with_ (inflight m) (pending m) (SWatch captured) (seen m)
  | _, _ => None
  end.

Fixpoint wakeRun (es : list wakeEvent) (m : wakes) : option wakes :=
  match es with [] => Some m | e :: es => m' ← wakeStep e m; wakeRun es m' end.

(** An epoch the session has not accounted for has a wake under way, and what
    the supervisor compares with is what the session accounted for. *)
Definition accounted (m : wakes) : Prop :=
  match sup m with
  | SWatch h | SAttempt h => seen m = h ∧ (netEpoch (wk_tracker m) ≠ h → pending m = true ∨ (0 < inflight m)%nat)
  | SWoken h => seen m = h
  | SRecover => True
  end.

Lemma accounted_step e m m' : accounted m → wakeStep e m = Some m' → accounted m'.
Proof.
  unfold accounted, wakeStep. intros Ha Hs.
  destruct e as [x| | |wss| | |]; cbn in Hs.
  - destruct (UpdateNetworkState x (wk_tracker m)) as [t crossed] eqn:E. simplify_eq/=.
    assert (He : crossed = false → netEpoch t = netEpoch (wk_tracker m)).
    { unfold UpdateNetworkState in E. by repeat case_match; simplify_eq/=. }
    destruct (sup m); try done; destruct Ha as [? Ha]; (split; [done|]);
      (destruct crossed; [right; lia|rewrite He by done; done]).
  - destruct (inflight m); [done|]. simplify_eq/=. destruct (sup m); naive_solver.
  - destruct (sup m), (pending m); simplify_eq/=; naive_solver.
  - destruct (sup m) as [| |h|h]; try done. destruct (Z.eqb_spec (netEpoch (wk_tracker m)) h); simplify_eq/=; [done|].
    by destruct wss; simplify_eq/=.
  - destruct (sup m); by simplify_eq/=.
  - destruct (sup m); by simplify_eq/=.
  - destruct (sup m); by simplify_eq/=.
Qed.

(** no network change is lost on the way to the supervisor.  However the
    host's calls interleave with the session, failovers included: while the
    supervisor watches a candidate and no wake is pending or about to be sent,
    the session has accounted for every change the tracker has counted, by
    dialling the candidate after it or by reacting to it; in particular a
    change between the first dial and the promotion is not absorbed. *)
Lemma no_epoch_lost t es m h :
  wakeRun es {| wk_tracker := t; inflight := 0; pending := false; sup := SRecover; seen := 0 |} = Some m →
  sup m = SWatch h → pending m = false → inflight m = 0%nat → netEpoch (wk_tracker m) = seen m.
Proof.
  intros Hr Hs Hp Hi.
  assert (Ha : accounted m).
  { assert (H : ∀ m0, accounted m0 → wakeRun es m0 = Some m → accounted m); [|by eapply H; [|exact Hr]].
    clear. induction es as [|e es IH]; cbn; intros m0 H0 Hr; [by simplify_eq|].
    destruct (wakeStep e m0) as [m1|] eqn:E; [|done]. by apply (IH m1); [eapply accounted_step|]. }
  unfold accounted in Ha. rewrite Hs, Hp, Hi in Ha. destruct Ha as [-> Ha].
  destruct (decide (netEpoch (wk_tracker m) = h)) as [|Hne]; [done|]. destruct (Ha Hne); [done|lia].
Qed.

Lemma no_epoch_lost_witness :
  let wifi := {| Up := true; Fingerprint := "wifi" |} in
  let lte := {| Up := true; Fingerprint := "lte" |} in
  ∃ m, wakeRun [Observe wifi; Capture; Observe lte; Promoted; Send; Receive; Compare false]
      {| wk_tracker := newTracker; inflight := 0; pending := false; sup := SRecover; seen := 0 |} = Some m ∧
    netEpoch (wk_tracker m) = 1 ∧ netEpoch (wk_tracker m) = seen m.
Proof.
  intros wifi lte. eexists. split; [reflexivity|]. split; [reflexivity|].
  exact (no_epoch_lost newTracker [Observe wifi; Capture; Observe lte; Promoted; Send; Receive; Compare false] _ 1
    eq_refl eq_refl eq_refl eq_refl).
Defined.

(** the epoch counts the changes: after any sequence of observations it has
    advanced, modulo 2^64, by the number of times an observation differed from
    the one before it, the first being the baseline. *)
Lemma epochs_count_changes l :
  netEpoch (foldl (λ t x, (UpdateNetworkState x t).1) newTracker l) = changes None l mod 2 ^ 64.
Proof. by rewrite observe_all. Qed.

(** * The probe cadence of mobile hosts *)
Record mobileProbeCadence := {
  base : Z; allowance : Z; remaining : Z; sent : Z; received : Z; sampled : bool
}.

Definition healthy (p : mobileProbeCadence) : mobileProbeCadence :=
  let a := Z.min (allowance p * 2) maxProbeAllowance in
  {| base := base p; allowance := a; remaining := a; sent := sent p; received := received p; sampled := sampled p |}.
Definition failed (p : mobileProbeCadence) : mobileProbeCadence :=
  {| base := base p; allowance := base p; remaining := 0; sent := sent p; received := received p; sampled := sampled p |}.

(** [traffic] is what the run reported: sent and received bytes, if present. *)
Definition downlink (p : mobileProbeCadence) (traffic : option (Z * Z)) : bool :=
  match traffic with Some (_, r) => sampled p && (received p <? r) | None => false end.
Definition uplink (p : mobileProbeCadence) (traffic : option (Z * Z)) : bool :=
  match traffic with Some (s, _) => sampled p && (sent p <? s) | None => false end.
Definition sample (p : mobileProbeCadence) (traffic : option (Z * Z)) : mobileProbeCadence :=
  match traffic with
  | Some (s, r) =>
      {| base := base p; allowance := allowance p; remaining := remaining p; sent := s; received := r; sampled := true |}
  | None => p
  end.

Definition due (elapsed : Z) (traffic : option (Z * Z)) (failures : nat) (forced : bool) (p : mobileProbeCadence)
    : bool * mobileProbeCadence :=
  let down := downlink p traffic in
  let up := uplink p traffic in
  let p := sample p traffic in
  if forced then (true, p)
  else if (failures =? 0)%nat && down then (false, healthy p)
  else
    let p := {| base := base p; allowance := allowance p; remaining := remaining p - elapsed;
                sent := sent p; received := received p; sampled := sampled p |} in
    ((0 <? failures)%nat || (up && negb down) || (remaining p <=? 0), p).

Inductive cadenceOp := CTick (elapsed : Z) (traffic : option (Z * Z)) (failures : nat) (forced : bool) | CHealthy | CFailed.
Definition cadenceStep (p : mobileProbeCadence) (o : cadenceOp) : mobileProbeCadence :=
  match o with
  | CTick elapsed traffic failures forced => (due elapsed traffic failures forced p).2
  | CHealthy => healthy p
  | CFailed => failed p
  end.
Definition newCadence (base : Z) : mobileProbeCadence :=
  {| base := base; allowance := base; remaining := 0; sent := 0; received := 0; sampled := false |}.

(** Ticks that all pass without a probe and without downlink. *)
Fixpoint quietly (p : mobileProbeCadence) (ticks : list (Z * option (Z * Z))) : bool :=
  match ticks with
  | [] => true
  | (elapsed, traffic) :: ticks =>
      negb (downlink p traffic) && negb (due elapsed traffic 0 false p).1 && quietly (due elapsed traffic 0 false p).2 ticks
  end.
Definition elapsedSum (ticks : list (Z * option (Z * Z))) : Z := foldr (λ t acc, t.1 + acc) 0 ticks.

Lemma cadence_remaining p o :
  (∀ e t f b, o = CTick e t f b → 0 ≤ e) → remaining p ≤ maxProbeAllowance → remaining (cadenceStep p o) ≤ maxProbeAllowance.
Proof.
  intros He Hr. destruct o as [e t f b| |]; cbn; [|lia|unfold maxProbeAllowance, minute, second, millisecond; lia].
  specialize (He e t f b eq_refl). assert (Hs : remaining (sample p t) = remaining p) by by destruct t as [[]|].
  unfold due. destruct b; [cbn; lia|]. destruct (_ && _); cbn; lia.
Qed.

Lemma quietly_remaining p ticks :
  ticks ≠ [] → quietly p ticks = true → elapsedSum ticks < remaining p.
Proof.
  revert p. induction ticks as [|[e t] ticks IH]; intros p Hne; [done|]. cbn [quietly elapsedSum foldr fst].
  intros [[Hd Hdue]%andb_prop Hq]%andb_prop. apply negb_true_iff in Hd, Hdue.
  assert (Hs : remaining (sample p t) = remaining p) by by destruct t as [[]|].
  unfold due in Hdue, Hq. rewrite Hd in Hdue, Hq. cbn in Hdue, Hq.
  apply orb_false_elim in Hdue as [_ Hrem]. apply Z.leb_gt in Hrem.
  destruct ticks as [|t2 ticks]; [cbn; lia|]. specialize (IH _ ltac:(done) Hq). cbn in IH. unfold elapsedSum in *. cbn in *. lia.
Qed.

(** the mobile cadence never starves the probe: whatever it went through
    before, any stretch of ticks that pass without a probe while no downlink
    is seen lasts less than five minutes. *)
Lemma probe_within_allowance b ops ticks :
  (∀ e t f fo, CTick e t f fo ∈ ops → 0 ≤ e) → ticks ≠ [] →
  quietly (foldl cadenceStep (newCadence b) ops) ticks = true → elapsedSum ticks < 5 * minute.
Proof.
  intros Hops Hne Hq. pose proof (quietly_remaining _ _ Hne Hq) as Hlt.
  assert (Hr : remaining (foldl cadenceStep (newCadence b) ops) ≤ maxProbeAllowance).
  { assert (H : ∀ p, remaining p ≤ maxProbeAllowance → remaining (foldl cadenceStep p ops) ≤ maxProbeAllowance).
    - clear Hq Hlt. induction ops as [|o ops IH]; cbn; intros p Hp; [done|]. apply IH.
      + intros e t f fo Hin. apply (Hops e t f fo). by right.
      + apply cadence_remaining; [|done]. intros e t f fo ->. apply (Hops e t f fo). by left.
    - apply H. cbn. unfold maxProbeAllowance, minute, second, millisecond. lia. }
  unfold maxProbeAllowance in Hr. lia.
Qed.

Lemma probe_within_allowance_witness :
  elapsedSum [(100 * second, None); (100 * second, None)] < 5 * minute.
Proof.
  apply (probe_within_allowance (60 * second) [CHealthy; CTick (30 * second) None 0 true; CHealthy]).
  - intros e t f fo. rewrite !elem_of_cons. intros [?|[?|[?|[]%elem_of_nil]]]; simplify_eq.
    unfold second, millisecond. lia.
  - done.
  - vm_compute. reflexivity.
Defined.

(** * The recovery budget *)
Record monitorConfig := {
  mc_mobile : bool; mc_tun : bool;
  networkRecoveryLimit : Z;   (* zero or negative means the default *)
  networkRetryDelay : Z       (* likewise *)
}.

(** The readings of the clock and of the resume counter. *)
Record ambient := { a_now : Z; a_resumeEpoch : Z }.

(** [deadline] is None for the zero time: no limit. *)
Record networkRecoveryBudget := { deadline : option Z; resumeEpoch : Z }.

Definition mobileRecoveryDeadline (cfg : monitorConfig) (am : ambient) : option Z :=
  if mc_mobile cfg then
    Some (time_add (a_now am)
      (if networkRecoveryLimit cfg <=? 0 then mobileNetworkRecoveryLimit else networkRecoveryLimit cfg))
  else None.

Definition newRecoveryBudget (cfg : monitorConfig) (am : ambient) : networkRecoveryBudget :=
  {| deadline := mobileRecoveryDeadline cfg am; resumeEpoch := a_resumeEpoch am |}.

(** [currentDeadline]: a resume since the budget was last read renews it. *)
Definition renewed (cfg : monitorConfig) (am : ambient) (b : networkRecoveryBudget) : networkRecoveryBudget :=
  if a_resumeEpoch am =? resumeEpoch b then b else newRecoveryBudget cfg am.

(** [networkAlive]: one front's dial, and the contexts around it. *)
Record frontDial := { fd_ctx : bool; fd_err : option goerr; fd_ctxAfter : bool }.
Fixpoint dialFronts (l : list frontDial) : bool :=
  match l with
  | [] => false
  | d :: l =>
      if fd_ctx d then false else
      match fd_err d with
      | None => true
      | Some e => if isSocketProtectionFailure e then true else if fd_ctxAfter d then false else dialFronts l
      end
  end.
Definition networkAlive (cfg : monitorConfig) (ctxErr knownDown physicalAlive : bool) (dials : list frontDial) : bool :=
  if ctxErr || mc_mobile cfg && knownDown then false
  else if mc_mobile cfg && physicalAlive then true
  else dialFronts dials.

(** One liveness check: the readings when it starts, what [networkAlive] said
    under the deadline, whether the context had ended, and the readings after. *)
Record reading := { r_at : ambient; r_alive : bool; r_ctxErr : bool; r_then : ambient }.

Definition expired (am : ambient) (b : networkRecoveryBudget) : bool :=
  match deadline b with Some d => negb (time_before (a_now am) d) | None => false end.

Definition networkAliveBefore (cfg : monitorConfig) (r : reading) (b : networkRecoveryBudget)
    : bool * networkRecoveryBudget :=
  let b := renewed cfg (r_at r) b in
  if r_ctxErr r then (false, b) else
  let b := renewed cfg (r_then r) b in
  (if expired (r_then r) b then true else r_alive r, b).

Definition recoveryWaitDelay (delay : Z) (b : networkRecoveryBudget) (now : Z) : Z :=
  match deadline b with
  | None => delay
  | Some d => Z.min delay (Z.max 0 (time_sub d now))
  end.
Definition nextMobileRecoveryDelay (delay : Z) : Z := Z.min (2 * delay) mobileNetworkRecoveryMaxPoll.

(** * The health loop *)
Record sweep := {
  sw_elapsed : Z;                       (* the timer's last interval *)
  sw_forced : bool;                     (* a kick, not the timer *)
  sw_done : bool;                       (* the context ended, at the select or the pause *)
  sw_traffic : option (Z * Z);
  sw_probe : option goerr;              (* the probe's error *)
  sw_ctxErr : bool;                     (* the context ended during the probe *)
  sw_at : ambient;
  sw_net : reading
}.

Record healthState := { failures : nat; recovery : option networkRecoveryBudget; cadence : option mobileProbeCadence }.

Inductive healthOutcome :=
| HContinue (st : healthState)
| HReturn
| HReport (e : goerr) (held : option networkRecoveryBudget).

(** What a sweep probed, and what came of it: None when it was skipped. *)
Definition healthSweep (cfg : monitorConfig) (s : sweep) (st : healthState) : option (option goerr) * healthOutcome :=
  if sw_done s then (None, HReturn) else
  let '(skip, cad) :=
    match cadence st with
    | None => (false, None)
    | Some p => let '(d, p) := due (sw_elapsed s) (sw_traffic s) (failures st) (sw_forced s) p in (negb d, Some p)
    end in
  if skip : bool then (None, HContinue {| failures := failures st; recovery := recovery st; cadence := cad |}) else
  match sw_probe s with
  | None => (Some None, HContinue {| failures := 0; recovery := None; cadence := healthy <$> cad |})
  | Some err =>
      (Some (Some err),
       if sw_ctxErr s then HReturn else
       match localCandidateErrorStage err with
       | Some _ => HReport err None
       | None =>
           let cad := failed <$> cad in
           let n := S (failures st) in
           if (n <? HealthFailureThreshold)%nat then
             HContinue {| failures := n; recovery := recovery st; cadence := cad |}
           else
             let b := default (newRecoveryBudget cfg (sw_at s)) (recovery st) in
             let '(alive, b) := if negb (mc_tun cfg) || mc_mobile cfg then networkAliveBefore cfg (sw_net s) b else (true, b) in
             if alive : bool then
               HReport (ErrWrap "tunnel health probe failed" err) (if mc_mobile cfg then Some b else None)
             else if r_ctxErr (sw_net s) then HReturn
             else HContinue {| failures := n; recovery := Some b; cadence := cad |}
       end)
  end.

(** The loop: the verdicts of the probes it ran, in order, and its end. *)
Fixpoint healthLoop (cfg : monitorConfig) (sweeps : list sweep) (st : healthState)
    : list (option goerr) * healthOutcome :=
  match sweeps with
  | [] => ([], HContinue st)
  | s :: sweeps =>
      let '(v, o) := healthSweep cfg s st in
      let vs := match v with Some v => [v] | None => [] end in
      match o with
      | HContinue st =>
          let '(rest, o) := healthLoop cfg sweeps st in (vs ++ rest, o)
      | _ => (vs, o)
      end
  end.
Definition healthStart (traffic : option mobileProbeCadence) : healthState :=
  {| failures := 0; recovery := None; cadence := traffic |}.

(** A failed probe that blames the path, not the host. *)
Definition remoteFailure (v : option goerr) : Prop :=
  match v with Some e => localCandidateErrorStage e = None | None => False end.

(** The network is no excuse: it answered, or the budget for waiting is spent,
    or the host's own tunnel would carry the question. *)
Definition noExcuse (cfg : monitorConfig) (s : sweep) (held : option networkRecoveryBudget) : Prop :=
  mc_tun cfg = true ∧ mc_mobile cfg = false ∨
  r_ctxErr (sw_net s) = false ∧
    (r_alive (sw_net s) = true ∨ ∃ b, held = Some b ∧ expired (r_then (sw_net s)) b = true).

(** Desktop budgets have no deadline. *)
Definition unlimited (cfg : monitorConfig) (st : healthState) : Prop :=
  mc_mobile cfg = false → ∀ b, recovery st = Some b → deadline b = None.

Lemma renewed_unlimited cfg am b : mc_mobile cfg = false → deadline b = None → deadline (renewed cfg am b) = None.
Proof.
  intros Hm Hd. unfold renewed, newRecoveryBudget, mobileRecoveryDeadline. rewrite Hm. by destruct (_ =? _).
Qed.

Lemma networkAliveBefore_spec cfg r b alive b' :
  networkAliveBefore cfg r b = (alive, b') →
  (mc_mobile cfg = false → deadline b = None → deadline b' = None) ∧
  (alive = true → r_ctxErr r = false ∧ (r_alive r = true ∨ expired (r_then r) b' = true)) ∧
  (alive = false → r_ctxErr r = true ∨ r_alive r = false ∧ expired (r_then r) b' = false).
Proof.
  unfold networkAliveBefore. destruct (r_ctxErr r); intros Hn; simplify_eq.
  { split; [intros; by apply renewed_unlimited|]. split; [done|by left]. }
  split; [intros; by repeat apply renewed_unlimited|]. destruct (expired _ _); auto.
Qed.

(** One sweep: what a report rests on, and what a continued loop counts. *)
Lemma healthSweep_spec cfg s st v o :
  unlimited cfg st → healthSweep cfg s st = (v, o) →
  match o with
  | HReport e held =>
      v = Some (sw_probe s) ∧
      ((∃ err, sw_probe s = Some err ∧ e = err ∧ is_Some (localCandidateErrorStage err)) ∨
       remoteFailure (sw_probe s) ∧ (HealthFailureThreshold ≤ S (failures st))%nat ∧ noExcuse cfg s held)
  | HContinue st' =>
      unlimited cfg st' ∧
      match v with
      | None => failures st' = failures st
      | Some None => failures st' = 0%nat
      | Some (Some e) => remoteFailure (Some e) ∧ failures st' = S (failures st)
      end
  | HReturn => True
  end.
Proof.
  intros Hu. unfold healthSweep. destruct (sw_done s); [by intros; simplify_eq|].
  destruct (match cadence st with None => _ | Some p => _ end) as [skip cad].
  destruct skip; [by intros; simplify_eq|].
  destruct (sw_probe s) as [err|] eqn:Ep; [|by intros; simplify_eq].
  destruct (sw_ctxErr s); [by intros; simplify_eq|].
  destruct (localCandidateErrorStage err) as [stage|] eqn:El; [intros; simplify_eq; split; [done|left; eauto]|].
  destruct (Nat.ltb_spec (S (failures st)) HealthFailureThreshold) as [Hlt|Hge].
  { intros ?; simplify_eq. cbn. by split; [|split]. }
  pose (b := default (newRecoveryBudget cfg (sw_at s)) (recovery st)). fold b.
  assert (Hb : mc_mobile cfg = false → deadline b = None).
  { intros Hm. unfold b. destruct (recovery st) as [b0|] eqn:Er; cbn; [by apply Hu|].
    unfold newRecoveryBudget, mobileRecoveryDeadline. by rewrite Hm. }
  destruct (negb (mc_tun cfg) || mc_mobile cfg) eqn:Eg.
  - destruct (networkAliveBefore cfg (sw_net s) b) as [alive b'] eqn:Ea.
    destruct (networkAliveBefore_spec _ _ _ _ _ Ea) as (Hd & Ht & Hf). destruct alive.
    + intros ?; simplify_eq. split; [done|]. right. split; [done|]. split; [done|]. right.
      destruct (Ht eq_refl) as [? [?|Hex]]; (split; [done|]); [by left|]. destruct (mc_mobile cfg); [right; eauto|].
      unfold expired in Hex. by rewrite Hd in Hex by auto.
    + destruct (r_ctxErr (sw_net s)); [by intros; simplify_eq|]. intros ?; simplify_eq. cbn.
      split; [|done]. intros Hm b0 [= <-]. auto.
  - intros ?; simplify_eq. apply orb_false_elim in Eg as [Ht Hm]. apply negb_false_iff in Ht.
    split; [done|]. right. split; [done|]. split; [done|]. by left.
Qed.

(** The failures since the last success, counting those before the list. *)
Fixpoint streak (n : nat) (vs : list (option goerr)) : nat :=
  match vs with [] => n | None :: vs => streak 0 vs | Some _ :: vs => streak (S n) vs end.

Lemma healthLoop_spec cfg sweeps st vs e held :
  unlimited cfg st → healthLoop cfg sweeps st = (vs, HReport e held) →
  ∃ vs0 s, vs = vs0 ++ [sw_probe s] ∧ s ∈ sweeps ∧ Forall (λ v, is_Some v → remoteFailure v) vs0 ∧
    ((∃ err, sw_probe s = Some err ∧ e = err ∧ is_Some (localCandidateErrorStage err)) ∨
     remoteFailure (sw_probe s) ∧ (HealthFailureThreshold ≤ S (streak (failures st) vs0))%nat ∧ noExcuse cfg s held).
Proof.
  revert st vs. induction sweeps as [|s sweeps IH]; intros st vs Hu; [done|]. cbn [healthLoop].
  destruct (healthSweep cfg s st) as [v o] eqn:Es. pose proof (healthSweep_spec cfg s st v o Hu Es) as Hs.
  destruct o as [st'| |e' held']; [|by intros; simplify_eq|].
  - destruct (healthLoop cfg sweeps st') as [rest o] eqn:El. intros ?; simplify_eq. destruct Hs as [Hu' Hv].
    destruct (IH st' rest Hu' El) as (vs0 & s0 & -> & Hin & Hall & Hr).
    exists (match v with Some v => [v] | None => [] end ++ vs0), s0. rewrite app_assoc. split; [done|]. split; [by right|].
    destruct v as [[err|]|]; cbn.
    + destruct Hv as [Hrem Hf]. split; [by constructor|]. by rewrite Hf in Hr.
    + split; [constructor; [by intros []|done]|]. by rewrite Hv in Hr.
    + split; [done|]. by rewrite Hv in Hr.
  - intros ?; simplify_eq. destruct Hs as [-> Hr]. exists [], s. split; [done|]. split; [by left|]. by split; [constructor|].
Qed.

(** A streak of [n] is the [n] last verdicts, all failures. *)
Lemma streak_suffix vs n :
  (n ≤ streak 0 vs)%nat → Forall (λ v, is_Some v → remoteFailure v) vs →
  ∃ pre fails, vs = pre ++ fails ∧ length fails = n ∧ Forall remoteFailure fails.
Proof.
  intros Hn Hall.
  assert (H : ∀ vs k, (n ≤ streak k vs)%nat → Forall (λ v, is_Some v → remoteFailure v) vs →
    ∃ pre fails, vs = pre ++ fails ∧ (length fails ≤ n)%nat ∧ Forall remoteFailure fails ∧
      (length fails = n ∨ pre = [] ∧ (n ≤ k + length fails)%nat)).
  { clear vs Hn Hall. intros vs. induction vs as [|v vs IH]; intros k Hk Hall; cbn in Hk.
    { exists [], []. split; [done|]. split; [cbn; lia|]. split; [constructor|]. right. cbn. split; [done|lia]. }
    inversion_clear Hall as [|? ? Hv Hall']. destruct v as [e|].
    - destruct (IH (S k) Hk Hall') as (pre & fails & -> & Hlen & Hf & [Hn|[-> Hn]]).
      + exists (Some e :: pre), fails. by repeat split; auto.
      + destruct (decide (length fails = n)) as [Heq|Hne].
        * exists [Some e], fails. by repeat split; auto.
        * exists [], (Some e :: fails). cbn. repeat split; [lia|constructor; [by apply Hv|done]|right; split; [done|lia]].
    - destruct (IH 0%nat Hk Hall') as (pre & fails & -> & Hlen & Hf & [Hn|[-> Hn]]).
      + exists (None :: pre), fails. by repeat split; auto.
      + exists [None], fails. repeat split; [done..|]. left. lia. }
  destruct (H vs 0%nat Hn Hall) as (pre & fails & -> & Hlen & Hf & Hor). exists pre, fails.
  split; [done|]. split; [|done]. destruct Hor as [?|[_ ?]]; [done|lia].
Qed.

(** C32: a failover needs evidence.  If the health loop gives a tunnel up, then
    either the last probe failed on the host itself, or at least three probes
    in a row, the last three it ran, failed for a reason outside the host, and
    the network is no excuse for the last of them: it was seen alive while the
    session was, or, on mobile only, the budget for waiting out an outage is
    spent, or a desktop TUN leaves no way to ask. *)
Theorem failover_needs_evidence cfg sweeps traffic vs e held :
  healthLoop cfg sweeps (healthStart traffic) = (vs, HReport e held) →
  (∃ vs0 err, vs = vs0 ++ [Some err] ∧ e = err ∧ is_Some (localCandidateErrorStage err)) ∨
  ∃ pre fails s, vs = pre ++ fails ∧ length fails = HealthFailureThreshold ∧ Forall remoteFailure fails ∧
    s ∈ sweeps ∧ last fails = Some (sw_probe s) ∧ noExcuse cfg s held.
Proof.
  intros Hl. assert (Hu : unlimited cfg (healthStart traffic)) by (intros ? ? ?; discriminate).
  destruct (healthLoop_spec cfg sweeps _ vs e held Hu Hl) as (vs0 & s & -> & Hin & Hall & [H1|(Hrem & Hge & Hne)]).
  - destruct H1 as (err & -> & -> & Hloc). left. by exists vs0, err.
  - right. destruct (streak_suffix vs0 2) as (pre & fails & -> & Hlen & Hf); [unfold HealthFailureThreshold in Hge; cbn in Hge; lia|done|].
    exists pre, (fails ++ [sw_probe s]), s. rewrite <- app_assoc. split; [done|]. rewrite length_app, Hlen.
    split; [done|]. split; [apply Forall_app; split; [done|by constructor]|]. split; [done|]. by rewrite last_snoc.
Qed.

(** and it is enough: a loop with no cadence whose session is not ending
    gives the tunnel up at the third failure in a row if the network answers
    then. *)
Lemma dead_tunnel_reported cfg st s1 s2 s3 e1 e2 e3 rest :
  cadence st = None → failures st = 0%nat →
  (∀ s, s ∈ [s1; s2; s3] → sw_done s = false ∧ sw_ctxErr s = false) →
  sw_probe s1 = Some e1 → sw_probe s2 = Some e2 → sw_probe s3 = Some e3 →
  remoteFailure (Some e1) → remoteFailure (Some e2) → remoteFailure (Some e3) →
  r_ctxErr (sw_net s3) = false → r_alive (sw_net s3) = true →
  ∃ held, healthLoop cfg (s1 :: s2 :: s3 :: rest) st =
    ([Some e1; Some e2; Some e3], HReport (ErrWrap "tunnel health probe failed" e3) held).
Proof.
  intros Hc Hf Hs P1 P2 P3 R1 R2 R3 Hctx Ha. cbn in R1, R2, R3.
  destruct (Hs s1) as [D1 C1]; [by left|]. destruct (Hs s2) as [D2 C2]; [by right; left|].
  destruct (Hs s3) as [D3 C3]; [by right; right; left|].
  cbn [healthLoop]. unfold healthSweep at 1. rewrite D1, Hc, P1, C1, R1, Hf. cbn [Nat.ltb Nat.leb HealthFailureThreshold option_map fmap option_fmap].
  cbn [healthLoop]. unfold healthSweep at 1. rewrite D2, P2, C2, R2. cbn.
  unfold healthSweep at 1. rewrite D3, P3, C3, R3. cbn.
  destruct (negb (mc_tun cfg) || mc_mobile cfg); [|by eexists].
  unfold networkAliveBefore. rewrite Hctx, Ha. destruct (expired _ _); by eexists.
Qed.

Definition probeError : goerr := ErrMsg "probe: timeout".
Definition deadSweep (alive : bool) (now : Z) : sweep :=
  {| sw_elapsed := 30 * second; sw_forced := false; sw_done := false; sw_traffic := None; sw_probe := Some probeError;
     sw_ctxErr := false; sw_at := {| a_now := now; a_resumeEpoch := 0 |};
     sw_net := {| r_at := {| a_now := now; a_resumeEpoch := 0 |}; r_alive := alive; r_ctxErr := false;
                  r_then := {| a_now := now + second; a_resumeEpoch := 0 |} |} |}.
Definition desktopMonitor : monitorConfig :=
  {| mc_mobile := false; mc_tun := false; networkRecoveryLimit := 0; networkRetryDelay := 0 |}.
Definition mobileMonitor : monitorConfig :=
  {| mc_mobile := true; mc_tun := true; networkRecoveryLimit := 0; networkRetryDelay := 0 |}.

Lemma failover_needs_evidence_witness :
  let sweeps := [deadSweep false 0; deadSweep false 30; deadSweep false 60; deadSweep true 90] in
  (∃ vs0 err, replicate 4 (Some probeError) = vs0 ++ [Some err] ∧ ErrWrap "tunnel health probe failed" probeError = err ∧
     is_Some (localCandidateErrorStage err)) ∨
  ∃ pre fails s, replicate 4 (Some probeError) = pre ++ fails ∧ length fails = HealthFailureThreshold ∧
    Forall remoteFailure fails ∧ s ∈ sweeps ∧ last fails = Some (sw_probe s) ∧ noExcuse desktopMonitor s None.
Proof.
  intros sweeps. apply (failover_needs_evidence desktopMonitor sweeps None). reflexivity.
Defined.

Lemma dead_tunnel_reported_witness :
  ∃ held, healthLoop mobileMonitor [deadSweep false 0; deadSweep false 30; deadSweep true 60] (healthStart None) =
    ([Some probeError; Some probeError; Some probeError], HReport (ErrWrap "tunnel health probe failed" probeError) held).
Proof.
  apply dead_tunnel_reported; try reflexivity.
  intros s. rewrite !elem_of_cons. intros [->|[->|[->|[]%elem_of_nil]]]; split; reflexivity.
Defined.

(** * Waiting out an outage *)
Inductive wakeupKind := WTimer | WSignal | WDone.
Record wakeup := {
  wu_kind : wakeupKind;
  wu_resumed : bool;      (* awaitResumed: false if the context ended meanwhile *)
  wu_net : reading;
  wu_arm : ambient        (* the readings when the timer is set again *)
}.

(** [delay] is the current one, [baseDelay] what a network signal resets it to;
    None while the wait goes on.  The waits set are collected. *)
Fixpoint waitLoop (cfg : monitorConfig) (baseDelay delay : Z) (l : list wakeup) (b : networkRecoveryBudget)
    : option bool * list Z * networkRecoveryBudget :=
  match l with
  | [] => (None, [], b)
  | w :: l =>
      match wu_kind w with
      | WDone => (Some false, [], b)
      | k =>
          let delay :=
            match k with WTimer => if mc_mobile cfg then nextMobileRecoveryDelay delay else delay | _ => baseDelay end in
          if negb (wu_resumed w) then (Some false, [], b) else
          let '(alive, b) := networkAliveBefore cfg (wu_net w) b in
          if alive : bool then (Some true, [], b) else
          let b := renewed cfg (wu_arm w) b in
          let set := recoveryWaitDelay delay b (a_now (wu_arm w)) in
          let '(r, sets, b) := waitLoop cfg baseDelay delay l b in (r, set :: sets, b)
      end
  end.

Definition retryDelay (cfg : monitorConfig) : Z :=
  if networkRetryDelay cfg <=? 0 then networkRecoveryPollInterval else networkRetryDelay cfg.

(** [waitForNetworkRecovery]: [first] is the check made at once. *)
Definition waitForNetworkRecovery (cfg : monitorConfig) (resumed : bool) (first : reading) (arm : ambient)
    (l : list wakeup) (b : networkRecoveryBudget) : option bool * list Z * networkRecoveryBudget :=
  if negb resumed then (Some false, [], b) else
  let '(alive, b) := networkAliveBefore cfg first b in
  if alive : bool then (Some true, [], b) else
  if r_ctxErr first then (Some false, [], b) else
  let delay := retryDelay cfg in
  let b := renewed cfg arm b in
  let set := recoveryWaitDelay delay b (a_now arm) in
  let '(r, sets, b) := waitLoop cfg delay delay l b in (r, set :: sets, b).

(** The clock of a wait: monotone, and a timer fires no earlier than set. *)
Fixpoint clocked (armed : Z) (epoch : Z) (sets : list Z) (l : list wakeup) : Prop :=
  match l, sets with
  | [], _ => True
  | w :: l, set :: sets =>
      armed ≤ a_now (r_at (wu_net w)) ≤ a_now (r_then (wu_net w)) ∧
      a_now (r_then (wu_net w)) ≤ a_now (wu_arm w) ∧
      (wu_kind w = WTimer → armed + set ≤ a_now (r_at (wu_net w))) ∧
      a_resumeEpoch (r_at (wu_net w)) = epoch ∧ a_resumeEpoch (r_then (wu_net w)) = epoch ∧
      a_resumeEpoch (wu_arm w) = epoch ∧ clocked (a_now (wu_arm w)) epoch sets l
  | _ :: _, [] => True
  end.

Definition timers (l : list wakeup) : Z :=
  Z.of_nat (length (List.filter (λ w, match wu_kind w with WTimer => true | _ => false end) l)).

Lemma renewed_same cfg am b : a_resumeEpoch am = resumeEpoch b → renewed cfg am b = b.
Proof. intros He. unfold renewed. by rewrite He, Z.eqb_refl. Qed.

Lemma networkAliveBefore_same cfg r b :
  a_resumeEpoch (r_at r) = resumeEpoch b → a_resumeEpoch (r_then r) = resumeEpoch b →
  networkAliveBefore cfg r b = (negb (r_ctxErr r) && (expired (r_then r) b || r_alive r), b).
Proof.
  intros H1 H2. unfold networkAliveBefore. rewrite !renewed_same by done.
  destruct (r_ctxErr r); [done|]. by destruct (expired (r_then r) b).
Qed.

Lemma wait_timers cfg baseDelay delay l b d armed sets b' :
  0 < baseDelay ≤ mobileNetworkRecoveryMaxPoll → baseDelay ≤ delay → mc_mobile cfg = true →
  deadline b = Some d →
  waitLoop cfg baseDelay delay l b = (None, sets, b') →
  Forall (λ w, r_ctxErr (wu_net w) = false) l →
  clocked armed (resumeEpoch b) (recoveryWaitDelay delay b armed :: sets) l →
  armed ≤ d →
  timers l * baseDelay ≤ d - armed.
Proof.
  intros Hbase. revert delay armed sets. induction l as [|w l IH]; intros delay armed sets Hdel Hm Hd Hw Hctx Hcl Harm.
  { unfold timers. cbn. lia. }
  cbn [waitLoop] in Hw. cbn [clocked] in Hcl.
  destruct Hcl as (Hat & Hthen & Htimer & E1 & E2 & E3 & Hcl).
  inversion_clear Hctx as [|? ? Hc Hctx'].
  assert (Hnd : wu_kind w ≠ WDone) by (intros Hk; rewrite Hk in Hw; done).
  pose (delay' := match wu_kind w with WTimer => nextMobileRecoveryDelay delay | _ => baseDelay end).
  assert (Hdel' : baseDelay ≤ delay').
  { unfold delay', nextMobileRecoveryDelay. destruct (wu_kind w); lia. }
  rewrite networkAliveBefore_same in Hw by done. rewrite Hc, Hm in Hw. cbn [negb andb] in Hw.
  assert (Hw' : (if negb (wu_resumed w) then (Some false, [], b) else
      if expired (r_then (wu_net w)) b || r_alive (wu_net w) then (Some true, [], b) else
      let '(r, ss, bb) := waitLoop cfg baseDelay delay' l (renewed cfg (wu_arm w) b) in
      (r, recoveryWaitDelay delay' (renewed cfg (wu_arm w) b) (a_now (wu_arm w)) :: ss, bb)) = (None, sets, b')).
  { unfold delay'. destruct (wu_kind w); done. }
  clear Hw. destruct (wu_resumed w); cbn [negb] in Hw'; [|done].
  destruct (expired (r_then (wu_net w)) b) eqn:Eex; cbn [orb] in Hw'; [done|].
  destruct (r_alive (wu_net w)); [done|]. rewrite renewed_same in Hw' by done.
  destruct (waitLoop cfg baseDelay delay' l b) as [[r ss] bb] eqn:El. simplify_eq.
  unfold expired in Eex. rewrite Hd in Eex. apply negb_false_iff in Eex. unfold time_before in Eex. apply Z.ltb_lt in Eex.
  specialize (IH delay' (a_now (wu_arm w)) ss Hdel' Hm Hd El Hctx').
  (* the timer that is set past the deadline is not one the loop survives *)
  assert (Hnext : wu_kind w = WTimer → armed + baseDelay ≤ a_now (r_then (wu_net w))).
  { intros Hk. specialize (Htimer Hk). unfold recoveryWaitDelay in Htimer. rewrite Hd in Htimer.
    unfold time_sub, int64_min, int64_max in Htimer. unfold mobileNetworkRecoveryMaxPoll, second, millisecond in Hbase. lia. }
  destruct (Z.le_gt_cases (a_now (wu_arm w)) d) as [Hle|Hgt].
  - specialize (IH Hcl Hle). unfold timers in *. cbn [List.filter].
    destruct (wu_kind w) eqn:Ek; [|lia|done]. cbn [length]. specialize (Hnext eq_refl). lia.
  - (* set after the deadline: nothing more can be waited for *)
    destruct l as [|w2 l].
    { unfold timers. cbn [List.filter]. destruct (wu_kind w) eqn:Ek; cbn; [|lia|done]. specialize (Hnext eq_refl). lia. }
    exfalso. cbn [waitLoop clocked] in El, Hcl. destruct Hcl as (Hat2 & _ & _ & F1 & F2 & _ & _).
    inversion_clear Hctx' as [|? ? Hc2 _].
    rewrite networkAliveBefore_same in El by done. rewrite Hc2 in El. cbn [negb andb] in El.
    assert (expired (r_then (wu_net w2)) b = true) as Hex.
    { unfold expired. rewrite Hd. unfold time_before. apply negb_true_iff, Z.ltb_ge. lia. }
    rewrite Hex in El. cbn [orb] in El. destruct (wu_kind w2), (wu_resumed w2); done.
Qed.

(** A wait that goes on has made all its checks before the deadline. *)
Lemma wait_checks cfg baseDelay delay l b d armed sets set b' :
  deadline b = Some d → waitLoop cfg baseDelay delay l b = (None, sets, b') →
  Forall (λ w, r_ctxErr (wu_net w) = false) l → clocked armed (resumeEpoch b) (set :: sets) l →
  Forall (λ w, a_now (r_then (wu_net w)) < d) l.
Proof.
  revert delay armed set sets. induction l as [|w l IH]; intros delay armed set sets Hd Hw Hctx Hcl; [constructor|].
  cbn [waitLoop] in Hw. cbn [clocked] in Hcl. destruct Hcl as (_ & _ & _ & E1 & E2 & E3 & Hcl).
  inversion_clear Hctx as [|? ? Hc Hctx'].
  rewrite networkAliveBefore_same in Hw by done. rewrite Hc in Hw. cbn [negb andb] in Hw.
  destruct (expired (r_then (wu_net w)) b) eqn:Eex.
  { cbn [orb] in Hw. destruct (wu_kind w), (wu_resumed w); done. }
  cbn [orb] in Hw. rewrite renewed_same in Hw by done.
  constructor.
  { unfold expired in Eex. rewrite Hd in Eex. apply negb_false_iff, Z.ltb_lt in Eex. done. }
  destruct (wu_kind w), (wu_resumed w), (r_alive (wu_net w)); cbn [negb] in Hw; try done;
    match type of Hw with context [waitLoop ?c ?bd ?dl l b] =>
      destruct (waitLoop c bd dl l b) as [[r ss] bb] eqn:El; simplify_eq; by eapply IH end.
Qed.

(** a mobile outage wait is bounded by its budget.  With no resume to renew
    the budget and the session alive, a wait that started at [t0] against the
    deadline [d] and is still going on has made every check before [d], and its
    timers, of which none fires early, number at most (d - t0) / retryDelay: 24
    with the default delays.  The first check that ends at the deadline or
    later releases the ladder. *)
Lemma outage_wait_bounded cfg first arm l b d sets b' :
  mc_mobile cfg = true → retryDelay cfg ≤ mobileNetworkRecoveryMaxPoll → deadline b = Some d →
  a_resumeEpoch (r_at first) = resumeEpoch b → a_resumeEpoch (r_then first) = resumeEpoch b →
  a_resumeEpoch arm = resumeEpoch b → a_now arm ≤ d →
  Forall (λ w, r_ctxErr (wu_net w) = false) l →
  waitForNetworkRecovery cfg true first arm l b = (None, sets, b') →
  clocked (a_now arm) (resumeEpoch b) sets l →
  timers l * retryDelay cfg ≤ d - a_now arm ∧ Forall (λ w, a_now (r_then (wu_net w)) < d) l.
Proof.
  intros Hm Hbase Hd E1 E2 E3 Harm Hctx Hw Hcl. unfold waitForNetworkRecovery in Hw. cbn [negb] in Hw.
  rewrite networkAliveBefore_same in Hw by done. destruct (negb (r_ctxErr first) && _); [done|].
  destruct (r_ctxErr first); [done|]. rewrite renewed_same in Hw by done.
  destruct (waitLoop cfg (retryDelay cfg) (retryDelay cfg) l b) as [[r ss] bb] eqn:El. simplify_eq.
  assert (Hpos : 0 < retryDelay cfg).
  { unfold retryDelay, networkRecoveryPollInterval, second, millisecond. destruct (Z.leb_spec (networkRetryDelay cfg) 0); lia. }
  split; [|by eapply wait_checks]. by apply (wait_timers cfg (retryDelay cfg) (retryDelay cfg) l b d (a_now arm) ss b').
Qed.

(** An outage that lasts: the wait polls after 5, 10, 20 and 40 seconds, and is
    released at the deadline. *)
Definition outage (delay : Z) (now : Z) : wakeup :=
  let am := {| a_now := now; a_resumeEpoch := 0 |} in
  {| wu_kind := WTimer; wu_resumed := true;
     wu_net := {| r_at := am; r_alive := false; r_ctxErr := false; r_then := am |}; wu_arm := am |}.

Lemma outage_wait_bounded_witness :
  let am := {| a_now := 0; a_resumeEpoch := 0 |} in
  let b := newRecoveryBudget mobileMonitor am in
  let polls := [outage 0 (5 * second); outage 0 (15 * second); outage 0 (35 * second); outage 0 (75 * second)] in
  timers polls * retryDelay mobileMonitor ≤ 120 * second - 0 ∧
  (waitForNetworkRecovery mobileMonitor true {| r_at := am; r_alive := false; r_ctxErr := false; r_then := am |} am
     (polls ++ [outage 0 (120 * second)]) b).1.1 = Some true.
Proof.
  intros am b polls. split; [|vm_compute; reflexivity].
  destruct (waitForNetworkRecovery mobileMonitor true {| r_at := am; r_alive := false; r_ctxErr := false; r_then := am |} am polls b)
    as [[r sets] b'] eqn:E.
  assert (r = None ∧ sets = [5 * second; 10 * second; 20 * second; 40 * second; 45 * second]) as [-> ->]
    by (vm_compute in E; injection E as <- <- _; split; reflexivity).
  apply (proj1 (outage_wait_bounded mobileMonitor {| r_at := am; r_alive := false; r_ctxErr := false; r_then := am |} am polls b
    (120 * second) [5 * second; 10 * second; 20 * second; 40 * second; 45 * second] b'
    eq_refl (ltac:(apply Z.leb_le; reflexivity)) eq_refl eq_refl eq_refl eq_refl (ltac:(apply Z.leb_le; reflexivity))
    ltac:(repeat constructor) E ltac:(vm_compute; intuition discriminate))).
Defined.
