(* ===== verification/Recovery.v ===== *)
(** Losing the tunnel and getting another: the supervisor's reaction to what its
    select receives, the telemetry of the loss and the relay it demotes, the
    recovery pass and its retries (src/libs/connectcore/monitor.go: [supervise],
    [reladder]), and the connect flow before it (engine.go: [connectFlow],
    [candidatesFor]).

    Fetches, ports, probes, contexts and ladders are what the environment
    answers at each point; [Ladder] models the ladder itself and [Monitor] the
    waits.  Log lines and notices are left out. *)
From stdpp Require Import base list gmap strings.
From Stdlib Require Import ZArith Lia.
From S2P Require Import Prelude PunchBreaker Directory Ladder Monitor.

(** * Losing the tunnel *)
Definition wssSessionEndedStage : string := "wss_session_ended".
Definition wssNetworkEpochStage : string := "wss_network_epoch".

Definition gracefulWSSSessionEnd (e : goerr) : bool :=
  match wssTransportStage e with
  | Some stage => str_eqb stage wssSessionEndedStage || str_eqb stage wssNetworkEpochStage
  | None => false
  end.

(** What the supervisor looks at of the live candidate. *)
Record liveCandidate := { lc_relayID : string; lc_accessTransport : string; lc_frontID : string }.
Definition overWSS (cur : liveCandidate) : bool := str_eqb (lc_accessTransport cur) accessTransportWSS.

(** What its select receives; nil errors are None. *)
Inductive trigger :=
| RunDone (err : option goerr)
| TransportErr (err : option goerr)
| HealthFail (err : goerr) (held : option networkRecoveryBudget)
| NetNotify (epoch handled : Z).

Record recoveryCase := {
  rc_trigger : goerr; rc_reason : string;
  rc_transportFailure : bool; rc_wasHealth : bool;
  rc_recovery : option networkRecoveryBudget
}.
Inductive reaction :=
| ReactEnd                                (* a clean end *)
| ReactFail (stage : string) (err : goerr)
| ReactRecover (c : recoveryCase)
| ReactKick                               (* an immediate health sweep *)
| ReactIgnore.

(** One receive of [supervise]'s select.  [ending] is
    [ctx.Err() != nil || s.isDisconnecting(conn)]. *)
Definition react (ending : bool) (cur : liveCandidate) (t : trigger) : reaction :=
  if ending then ReactEnd else
  match t with
  | RunDone err =>
      let runErr := default (ErrMsg "tunnel exited unexpectedly") err in
      if overWSS cur then ReactFail "tunnel_process" (markLocalCandidateError "active_tunnel_process" runErr)
      else ReactRecover {| rc_trigger := runErr; rc_reason := "tunnel process exited unexpectedly";
                           rc_transportFailure := false; rc_wasHealth := false; rc_recovery := None |}
  | TransportErr err =>
      let e := default (markWSSTransportError "wss_session" (lc_frontID cur) (ErrMsg "WSS access transport stopped")) err in
      ReactRecover {| rc_trigger := e;
                      rc_reason := if gracefulWSSSessionEnd e then "WSS session ended" else "WSS transport stopped unexpectedly";
                      rc_transportFailure := true; rc_wasHealth := false; rc_recovery := None |}
  | HealthFail e held =>
      match localCandidateErrorStage e with
      | Some stage => ReactFail stage e
      | None =>
          ReactRecover {| rc_trigger := if overWSS cur then markWSSTransportError "wss_health_probe" (lc_frontID cur) e else e;
                          rc_reason := "tunnel health check failed 3 times";
                          rc_transportFailure := overWSS cur; rc_wasHealth := true; rc_recovery := held |}
      end
  | NetNotify epoch handled =>
      if epoch =? handled then ReactIgnore
      else if overWSS cur then
        ReactRecover {| rc_trigger := markWSSTransportError wssNetworkEpochStage (lc_frontID cur) (ErrMsg "physical network epoch changed");
                        rc_reason := "physical network epoch changed";
                        rc_transportFailure := true; rc_wasHealth := false; rc_recovery := None |}
      else ReactKick
  end.

(** The telemetry of a loss, and the relay the recovery demotes. *)
Inductive lossRecord := RelayAttemptFailed (relayID : string) | TransportSessionEnded (relayID : string) | TransportFailed (relayID : string).
Definition recordLoss (cur : liveCandidate) (c : recoveryCase) : lossRecord * string :=
  if rc_transportFailure c then
    (if gracefulWSSSessionEnd (rc_trigger c) then TransportSessionEnded (lc_relayID cur) else TransportFailed (lc_relayID cur), ""%string)
  else (RelayAttemptFailed (lc_relayID cur), lc_relayID cur).

(** A punched path's loss, against the circuit breaker; [alive] is the probe of
    the physical network after the teardown. *)
Definition punchLoss (Int63n : Z → Z) (cfg : monitorConfig) (cur : liveCandidate) (c : recoveryCase) (alive : bool) (now : Z)
    (b : punchRecoveryBreaker) : option (punchRecoveryBreaker * punchRecoveryDecision) :=
  onDirectPathLost Int63n b (lc_relayID cur) now (rc_wasHealth c && negb (mc_tun cfg) || alive).

(** trouble on a WSS path is never held against the relay: the loss of a
    session carried by a CDN front, through its transport, its health probe or
    a change of network, neither records a relay failure nor demotes the relay
    for the recovery ladder, and a crash of the local tunnel process ends the
    session instead of spending another single-use ticket.  A loss on any other
    path is the relay's. *)
Lemma wss_loss_blames_no_relay ending cur t :
  match react ending cur t with
  | ReactRecover c =>
      if overWSS cur then
        (recordLoss cur c).2 = ""%string ∧ (∀ id, (recordLoss cur c).1 ≠ RelayAttemptFailed id) ∧ (∀ err, t ≠ RunDone err)
      else (∃ err, t = TransportErr err) ∨ recordLoss cur c = (RelayAttemptFailed (lc_relayID cur), lc_relayID cur)
  | _ => True
  end.
Proof.
  unfold react. destruct ending; [done|].
  assert (Hr : ∀ tr rs wh re, let c := {| rc_trigger := tr; rc_reason := rs; rc_transportFailure := true; rc_wasHealth := wh; rc_recovery := re |} in
    (recordLoss cur c).2 = ""%string ∧ ∀ id, (recordLoss cur c).1 ≠ RelayAttemptFailed id).
  { intros tr rs wh re c. unfold recordLoss. cbn. by destruct (gracefulWSSSessionEnd tr). }
  destruct t as [err|err|e held|epoch handled].
  - destruct (overWSS cur) eqn:Eo; [done|]. by right.
  - destruct (overWSS cur); [|left; by eexists].
    destruct (Hr (default (markWSSTransportError "wss_session" (lc_frontID cur) (ErrMsg "WSS access transport stopped")) err)
      (if gracefulWSSSessionEnd (default (markWSSTransportError "wss_session" (lc_frontID cur) (ErrMsg "WSS access transport stopped")) err)
       then "WSS session ended" else "WSS transport stopped unexpectedly")%string false None) as [H1 H2]. auto.
  - destruct (localCandidateErrorStage e); [done|]. destruct (overWSS cur) eqn:Eo; [|by right].
    edestruct Hr as [H1 H2]. split; [exact H1|]. split; [exact H2|done].
  - destruct (epoch =? handled); [done|]. destruct (overWSS cur) eqn:Eo; [|done].
    edestruct Hr as [H1 H2]. split; [exact H1|]. split; [exact H2|done].
Qed.

(** * The candidates of a connect or a recovery *)
Inductive fetchError := FetchRateLimited (RetryAfter : Z) (e : goerr) | FetchFailed (e : goerr).
Definition fetchCause (e : fetchError) : goerr := match e with FetchRateLimited _ e | FetchFailed e => e end.

Definition rateLimitWait (retryAfter : Z) : Z :=
  let wait := if retryAfter <=? 0 then 10 * second else retryAfter in
  if MaxRecoveryBackoff <? wait then MaxRecoveryBackoff else wait.

Section recovery.
#[local] Set Default Proof Using "Type".
(** [describe] is the target's rendering in messages. *)
Context (EqualFold : string → string → bool) (describe : RelayTarget → string).

(** The stage and the error chain. *)
Definition filterStage (describe : string) (e : FilterError) : string * goerr :=
  match e with
  | relay_id_filter => ("relay_id_filter", ErrWrap describe (ErrMsg "target relay not offered by the broker"))
  | relay_geo_filter => ("relay_geo_filter", ErrWrap describe (ErrMsg "no usable relay in the requested country"))
  end%string.

Definition candidatesFor (resp : RelayListResponse) (clock : Z) (target : RelayTarget)
    : result (string * goerr) (list RelayDescriptor) :=
  match Relays resp with
  | [] => Err ("relay_select"%string, ErrMsg "broker returned no relays")
  | _ =>
      match usableRelays resp clock with
      | [] => Err ("relay_select"%string, ErrMsg "no usable relay")
      | usable =>
          match FilterCandidates EqualFold usable target with
          | Ok cands => Ok cands
          | Err e => Err (filterStage (describe target) e)
          end
      end
  end.

(** What a recovery pass meets: the fetch, whether the session ended during
    the rate-limit wait, the fetch after it, and the last check of the port. *)
Record refetch := {
  rf_first : result fetchError RelayListResponse;
  rf_waitEnded : bool;
  rf_second : result fetchError RelayListResponse;
  rf_clock : Z;
  rf_probe : nat → RelayDescriptor → option Z;
  rf_portErr : option goerr
}.

(** [reladder] up to its ladder: the wait it makes, and the candidates. *)
Definition reladder (cfg : monitorConfig) (r : refetch) (target : RelayTarget) (failedRelayID : string)
    : option Z * result (string * goerr) (list RelayDescriptor) :=
  let '(wait, fetched) :=
    match rf_first r with
    | Err (FetchRateLimited ra _) =>
        (Some (rateLimitWait ra), if rf_waitEnded r then None else Some (rf_second r))
    | f => (None, Some f)
    end in
  (wait,
   match fetched with
   | None => Err (""%string, ErrContext)
   | Some (Err e) => Err ("broker_fetch"%string, fetchCause e)
   | Some (Ok resp) =>
       match candidatesFor resp (rf_clock r) target with
       | Err e => Err e
       | Ok cands =>
           let cands := demoteRelay (candidates (rankLadder cands target (rf_probe r))) failedRelayID in
           match (if mc_tun cfg then None else rf_portErr r) with
           | Some e => Err ("proxy_bind"%string, e)
           | None => Ok cands
           end
       end
   end).

Definition fetchedBy (r : refetch) (resp : RelayListResponse) : Prop :=
  rf_first r = Ok resp ∨ (∃ ra e, rf_first r = Err (FetchRateLimited ra e)) ∧ rf_second r = Ok resp.

Lemma candidatesFor_spec resp clock target cands :
  candidatesFor resp clock target = Ok cands →
  FilterCandidates EqualFold (usableRelays resp clock) target = Ok cands.
Proof.
  unfold candidatesFor. destruct (Relays resp); [done|]. destruct (usableRelays resp clock) as [|u us]; [done|].
  destruct (FilterCandidates EqualFold (u :: us) target); [|done]. by intros [= ->].
Qed.

Lemma candidates_perm cands target probe : candidates (rankLadder cands target probe) ≡ₚ cands.
Proof.
  unfold candidates, rankLadder. cbn. destruct (identity target || _); [by rewrite fmap_relay_unranked|].
  apply rank_is_permutation.
Qed.

(** Every relay of the list is one the directory page [resp] held, usable at
    its time, and answers to [target]: a pinned relay stays pinned, a country
    target stays in the country. *)
Definition answersTarget (resp : RelayListResponse) (clock : Z) (target : RelayTarget) (c : RelayDescriptor) : Prop :=
  c ∈ Relays resp ∧ IsUsableRelay c (effectiveNow resp clock) = true ∧
  (identity target = true → matchesIdentity target c = true) ∧
  (identity target = false → str_empty (TrimSpace (targetCountry target)) = false → matchesCountry EqualFold target c = true).

Lemma candidates_answer resp clock target cands c :
  candidatesFor resp clock target = Ok cands → c ∈ cands ↔ answersTarget resp clock target c.
Proof.
  intros Hc%candidatesFor_spec. destruct (FilterCandidates_spec EqualFold _ _ _ Hc) as (_ & _ & Hin).
  rewrite Hin. unfold usableRelays, answersTarget. rewrite elem_of_filter_bool. tauto.
Qed.

(** a recovery never widens the user's choice and never forgets a relay.
    The ladder a recovery pass walks is exactly the usable relays of the page
    it fetched that answer the session's target, the relay that just died
    last; and a broker's rate limit holds the pass for at most a minute. *)
Lemma reladder_candidates cfg r target failedRelayID wait cands :
  reladder cfg r target failedRelayID = (wait, Ok cands) →
  (∃ resp, fetchedBy r resp ∧ ∀ c, c ∈ cands ↔ answersTarget resp (rf_clock r) target c) ∧
  (∃ others lost, cands = others ++ lost ∧ Forall (λ c, rd_ID c ≠ failedRelayID) others ∧
     Forall (λ c, rd_ID c = failedRelayID) lost) ∧
  (∀ w, wait = Some w → 0 < w ≤ MaxRecoveryBackoff).
Proof.
  intros Hr.
  assert (Hw : ∀ ra, 0 < rateLimitWait ra ≤ MaxRecoveryBackoff).
  { intros ra. unfold rateLimitWait, MaxRecoveryBackoff, second, millisecond.
    destruct (Z.leb_spec ra 0); case_match eqn:E; try (apply Z.ltb_ge in E); lia. }
  assert (Hok : ∀ resp, match candidatesFor resp (rf_clock r) target with
      | Err e => Err e
      | Ok cands0 =>
          match (if mc_tun cfg then None else rf_portErr r) with
          | Some e => Err ("proxy_bind"%string, e)
          | None => Ok (demoteRelay (candidates (rankLadder cands0 target (rf_probe r))) failedRelayID)
          end
      end = Ok cands →
    (∀ c, c ∈ cands ↔ answersTarget resp (rf_clock r) target c) ∧
    (∃ others lost, cands = others ++ lost ∧ Forall (λ c, rd_ID c ≠ failedRelayID) others ∧
       Forall (λ c, rd_ID c = failedRelayID) lost)).
  { intros resp Hf. destruct (candidatesFor resp (rf_clock r) target) as [cands0|] eqn:Ec; [|done].
    destruct (if mc_tun cfg then None else rf_portErr r); [done|]. injection Hf as <-.
    destruct (demoteRelay_spec (candidates (rankLadder cands0 target (rf_probe r))) failedRelayID) as [Hperm Heq].
    split.
    - intros c. rewrite Hperm, candidates_perm. by apply candidates_answer.
    - rewrite Heq. eexists _, _. split; [done|]. split; apply Forall_forall; intros c [_ Hc]%elem_of_filter_bool.
      + apply negb_true_iff in Hc. intros He. apply str_eqb_true in He. congruence.
      + by apply str_eqb_true. }
  unfold reladder in Hr. destruct (rf_first r) as [resp|[ra e|e]] eqn:E1.
  - injection Hr as <- Hf. destruct (Hok resp Hf) as [H1 H2]. split; [|split; [done|by intros]].
    exists resp. split; [by left|done].
  - destruct (rf_waitEnded r); [injection Hr as <- Hf; done|].
    destruct (rf_second r) as [resp|e2] eqn:E2; injection Hr as <- Hf; [|done].
    destruct (Hok resp Hf) as [H1 H2]. split; [|split; [done|by intros w [= <-]]].
    exists resp. split; [right; eauto|done].
  - injection Hr as <- Hf. done.
Qed.

(** * The recovery loop

    One pass: the pause gate, the wait for the network where it is made, the
    ladder's result, the context after it and the check that decides on another
    pass. *)
Context {A : Type}.
Record pass := {
  ps_resumed : bool;
  ps_waitResumed : bool; ps_first : reading; ps_arm : ambient; ps_wakeups : list wakeup;
  ps_ladder : result goerr A;
  ps_ctxErr : bool;
  ps_check : reading
}.

Inductive recovered := Won (a : A) | Ended | Exhausted (e : goerr) | Pending.

(** Mobile, and a desktop after a transport failure, wait for the network. *)
Definition waits (cfg : monitorConfig) (transportFailure : bool) : bool := mc_mobile cfg || transportFailure.

Definition passWait (cfg : monitorConfig) (transportFailure : bool) (p : pass) (b : networkRecoveryBudget)
    : option bool * networkRecoveryBudget :=
  if waits cfg transportFailure then
    let '(w, _, b) := waitForNetworkRecovery cfg (ps_waitResumed p) (ps_first p) (ps_arm p) (ps_wakeups p) b in (w, b)
  else (Some true, b).

Fixpoint recover (cfg : monitorConfig) (transportFailure : bool) (passes : list pass) (b : networkRecoveryBudget)
    : recovered * nat :=
  match passes with
  | [] => (Pending, 0%nat)
  | p :: passes =>
      if negb (ps_resumed p) then (Ended, 1%nat) else
      let '(w, b) := passWait cfg transportFailure p b in
      match w with
      | None => (Pending, 1%nat)
      | Some false => (Ended, 1%nat)
      | Some true =>
          match ps_ladder p with
          | Ok a => (Won a, 1%nat)
          | Err e =>
              if ps_ctxErr p then (Ended, 1%nat) else
              if mc_mobile cfg && bool_decide (is_Some (localCandidateErrorStage e)) then (Exhausted e, 1%nat) else
              let '(alive, b) := if waits cfg transportFailure then networkAliveBefore cfg (ps_check p) b else (true, b) in
              if alive : bool then (Exhausted e, 1%nat)
              else let '(r, n) := recover cfg transportFailure passes b in (r, S n)
          end
      end
  end.

(** recovery does not loop on a live network.  A pass is followed by another
    only if its ladder failed and the check after it found the network down
    (or the session ending), with the waiting budget not spent; a desktop
    recovery from a lost direct path makes exactly one pass; and a failure of
    the host itself is final on mobile. *)
Lemma recovery_retries cfg transportFailure p q passes b r n :
  recover cfg transportFailure (p :: q :: passes) b = (r, n) → (1 < n)%nat →
  waits cfg transportFailure = true ∧
  ∃ e b1 b2, ps_ladder p = Err e ∧ (mc_mobile cfg = true → localCandidateErrorStage e = None) ∧
    passWait cfg transportFailure p b = (Some true, b1) ∧
    networkAliveBefore cfg (ps_check p) b1 = (false, b2) ∧
    (r_ctxErr (ps_check p) = true ∨ r_alive (ps_check p) = false ∧ expired (r_then (ps_check p)) b2 = false) ∧
    recover cfg transportFailure (q :: passes) b2 = (r, pred n).
Proof.
  intros Hr Hn. remember (q :: passes) as rest eqn:Hrest. cbn [recover] in Hr.
  destruct (ps_resumed p); cbn [negb] in Hr; [|injection Hr as <- <-; lia].
  destruct (passWait cfg transportFailure p b) as [w b1] eqn:Ew.
  destruct w as [[]|]; [|injection Hr as <- <-; lia..].
  destruct (ps_ladder p) as [a|e] eqn:El; [injection Hr as <- <-; lia|].
  destruct (ps_ctxErr p); [injection Hr as <- <-; lia|].
  destruct (mc_mobile cfg && bool_decide (is_Some (localCandidateErrorStage e))) eqn:Eloc; [injection Hr as <- <-; lia|].
  destruct (waits cfg transportFailure) eqn:Egate; [|injection Hr as <- <-; lia].
  destruct (networkAliveBefore cfg (ps_check p) b1) as [alive b2] eqn:Ea.
  destruct alive; [injection Hr as <- <-; lia|].
  destruct (recover cfg transportFailure rest b2) as [r0 n0] eqn:Er. injection Hr as <- <-.
  split; [done|]. exists e, b1, b2. split; [done|]. split.
  { intros Hm. rewrite Hm in Eloc. cbn in Eloc. apply bool_decide_eq_false in Eloc. by apply eq_None_not_Some. }
  split; [done|]. split; [done|]. split; [|by rewrite Er].
  by apply (networkAliveBefore_spec _ _ _ _ _ Ea).
Qed.
End recovery.

(** * The connect flow (engine.go: [connectFlow], [finalizeConn]) *)
Section flow.
#[local] Set Default Proof Using "Type".
Context (EqualFold : string → string → bool) (describe : RelayTarget → string).

(** What the flow meets, in the order it meets it. *)
Record flowEnv := {
  fe_validateMobile : option goerr;
  fe_prepare : result goerr bool;
  fe_LocalProxyPort : result goerr Z;
  fe_portErr1 : option goerr;
  fe_fetch : result fetchError RelayListResponse;
  fe_fetchCtx : bool;
  fe_clock : Z;
  fe_probe : nat → RelayDescriptor → option Z;
  fe_rankedCtx : bool;
  fe_portErr2 : option goerr;
  fe_ladder : list RelayDescriptor → Z → result goerr candidateResult;
  fe_ladderCtx : bool
}.

Inductive flowEvent := FlowConnecting | FlowAttempted | FlowLadder (cands : list RelayDescriptor) (port : Z).
Inductive flowResult :=
| FlowClean
| FlowFailed (stage : string) (e : goerr)
| FlowWon (res : candidateResult).

(** The stable endpoint of proxy mode; TUN mode binds none. *)
Definition flowPort (cfg : monitorConfig) (env : flowEnv) : result goerr Z :=
  if mc_tun cfg then Ok 0 else
  match fe_LocalProxyPort env with
  | Err e => Err e
  | Ok port => match fe_portErr1 env with Some e => Err e | None => Ok port end
  end.

Definition connectFlow (cfg : monitorConfig) (env : flowEnv) (target : RelayTarget) : flowResult * list flowEvent :=
  match fe_validateMobile env with Some e => (FlowFailed "mobile_config" e, []) | None =>
  match fe_prepare env with
  | Err e => (FlowFailed "elevation" e, [])
  | Ok false => (FlowFailed "elevation" (ErrMsg "TUN mode was not permitted"), [])
  | Ok true =>
      let started := if mc_mobile cfg then [FlowAttempted; FlowConnecting] else [FlowConnecting; FlowAttempted] in
      match flowPort cfg env with
      | Err e => (FlowFailed "proxy_port" e, started)
      | Ok port =>
          match fe_fetch env with
          | Err e => (if fe_fetchCtx env then FlowClean else FlowFailed "broker_fetch" (fetchCause e), started)
          | Ok resp =>
              match candidatesFor EqualFold describe resp (fe_clock env) target with
              | Err (stage, e) => (FlowFailed stage e, started)
              | Ok cands =>
                  let order := rankLadder cands target (fe_probe env) in
                  let ladder := candidates order in
                  if fe_rankedCtx env then (FlowClean, started) else
                  match (if mc_tun cfg then None else fe_portErr2 env) with
                  | Some e => (FlowFailed "proxy_port" e, started)
                  | None =>
                      (match fe_ladder env ladder port with
                       | Err e => if fe_ladderCtx env then FlowClean else FlowFailed "relay_connect" e
                       | Ok res => FlowWon res
                       end, started ++ [FlowLadder ladder port])
                  end
              end
          end
      end
  end end.

(** a first connect dials only what the user asked for.  If the flow runs
    its ladder, consent and configuration were given, proxy mode found its port
    free, and the ladder is exactly the usable relays of the fetched page that
    answer the target; it runs at most once, and every failure before it, and
    none after a clean end, is reported under the stage that failed. *)
Lemma connectFlow_ladder cfg env target res events ladder port :
  connectFlow cfg env target = (res, events) → FlowLadder ladder port ∈ events →
  fe_validateMobile env = None ∧ fe_prepare env = Ok true ∧
  (mc_tun cfg = false → fe_LocalProxyPort env = Ok port ∧ fe_portErr1 env = None ∧ fe_portErr2 env = None) ∧
  (∃ resp, fe_fetch env = Ok resp ∧ ∀ c, c ∈ ladder ↔ answersTarget EqualFold resp (fe_clock env) target c) ∧
  match res with
  | FlowWon r => fe_ladder env ladder port = Ok r
  | FlowFailed stage e => stage = "relay_connect"%string ∧ fe_ladder env ladder port = Err e
  | FlowClean => fe_ladderCtx env = true
  end.
Proof.
  unfold connectFlow. destruct (fe_validateMobile env); [by intros [= <- <-] ?%elem_of_nil|].
  destruct (fe_prepare env) as [[]|]; [|by intros [= <- <-] ?%elem_of_nil..].
  assert (Hs : FlowLadder ladder port ∉ (if mc_mobile cfg then [FlowAttempted; FlowConnecting] else [FlowConnecting; FlowAttempted])).
  { destruct (mc_mobile cfg); rewrite !elem_of_cons; intros [?|[?|?%elem_of_nil]]; done. }
  destruct (flowPort cfg env) as [p|] eqn:Ep; [|by intros [= <- <-] ?].
  destruct (fe_fetch env) as [resp|] eqn:Ef; [|by destruct (fe_fetchCtx env); intros [= <- <-] ?].
  destruct (candidatesFor EqualFold describe resp (fe_clock env) target) as [cands|[stage e]] eqn:Ec; [|by intros [= <- <-] ?].
  destruct (fe_rankedCtx env); [by intros [= <- <-] ?|].
  destruct (if mc_tun cfg then None else fe_portErr2 env) eqn:Ep2; [by intros [= <- <-] ?|].
  intros Hr Hin. assert (Hev : events = (if mc_mobile cfg then [FlowAttempted; FlowConnecting] else [FlowConnecting; FlowAttempted]) ++
    [FlowLadder (candidates (rankLadder cands target (fe_probe env))) p]) by congruence.
  rewrite Hev in Hin. apply elem_of_app in Hin as [Hin|Hin]; [done|]. apply list_elem_of_singleton in Hin. injection Hin as -> ->.
  split; [done|]. split; [done|]. split.
  { intros Ht. rewrite Ht in Ep2. unfold flowPort in Ep. rewrite Ht in Ep. destruct (fe_LocalProxyPort env); [|done].
    destruct (fe_portErr1 env); [done|]. by injection Ep as ->. }
  split.
  { exists resp. split; [done|]. intros c. rewrite candidates_perm. by eapply candidates_answer. }
  destruct (fe_ladder env _ p) as [r|e]; injection Hr as <- _; [done|]. by destruct (fe_ladderCtx env).
Qed.
End flow.

(** ** Witnesses *)
Definition exampleList : RelayListResponse := {| Relays := [exampleRelay "a"; exampleRelay "b"; exampleRelay "c"]; ServerTime := 0 |}.
Definition anyTarget : RelayTarget := {| targetRelayID := ""; targetLabel := ""; targetCountry := "" |}.
Definition limitedRefetch : refetch :=
  {| rf_first := Err (FetchRateLimited (3600 * second) (ErrMsg "429")); rf_waitEnded := false; rf_second := Ok exampleList;
     rf_clock := 0; rf_probe := λ i _, Some (10 * Z.of_nat i); rf_portErr := None |}.

Lemma reladder_candidates_witness :
  (reladder str_eqb targetLabel desktopMonitor limitedRefetch anyTarget "a").1 = Some (60 * second) ∧
  (∃ others lost, exampleRelay <$> ["b"; "c"; "a"]%string = others ++ lost ∧ Forall (λ c, rd_ID c ≠ "a"%string) others ∧
     Forall (λ c, rd_ID c = "a"%string) lost).
Proof.
  assert (Hr : reladder str_eqb targetLabel desktopMonitor limitedRefetch anyTarget "a" =
    (Some (60 * second), Ok (exampleRelay <$> ["b"; "c"; "a"]%string))) by (vm_compute; reflexivity).
  split; [by rewrite Hr|].
  exact (proj1 (proj2 (reladder_candidates str_eqb targetLabel desktopMonitor limitedRefetch anyTarget "a" _ _ Hr))).
Defined.

(** A mobile recovery whose network is down when its first ladder fails. *)
Definition quietReading (alive : bool) (now : Z) : reading :=
  {| r_at := {| a_now := now; a_resumeEpoch := 0 |}; r_alive := alive; r_ctxErr := false;
     r_then := {| a_now := now; a_resumeEpoch := 0 |} |}.
Definition recoveryPass (aliveAfter : bool) (now : Z) (ladder : result goerr nat) : pass :=
  {| ps_resumed := true; ps_waitResumed := true; ps_first := quietReading true now;
     ps_arm := {| a_now := now; a_resumeEpoch := 0 |}; ps_wakeups := []; ps_ladder := ladder; ps_ctxErr := false;
     ps_check := quietReading aliveAfter now |}.

Lemma recovery_retries_witness :
  let b := newRecoveryBudget mobileMonitor {| a_now := 0; a_resumeEpoch := 0 |} in
  recover mobileMonitor false [recoveryPass false second (Err probeError); recoveryPass true (2 * second) (Ok 7%nat)] b
    = (Won 7%nat, 2%nat) ∧
  ∃ e b1 b2, Err probeError = Err (A := nat) e ∧ (true = true → localCandidateErrorStage e = None) ∧
    passWait mobileMonitor false (recoveryPass false second (Err probeError)) b = (Some true, b1) ∧
    networkAliveBefore mobileMonitor (quietReading false second) b1 = (false, b2) ∧
    (false = true ∨ false = false ∧ expired {| a_now := second; a_resumeEpoch := 0 |} b2 = false) ∧
    recover mobileMonitor false [recoveryPass true (2 * second) (Ok 7%nat)] b2 = (Won 7%nat, 1%nat).
Proof.
  intros b.
  assert (Hr : recover mobileMonitor false [recoveryPass false second (Err probeError); recoveryPass true (2 * second) (Ok 7%nat)] b
    = (Won 7%nat, 2%nat)) by (vm_compute; reflexivity).
  split; [exact Hr|].
  exact (proj2 (recovery_retries mobileMonitor false _ _ [] b (Won 7%nat) 2%nat Hr (le_n 2%nat))).
Defined.

Definition pinnedTarget : RelayTarget := {| targetRelayID := "b"; targetLabel := ""; targetCountry := "" |}.
Definition exampleFlow : flowEnv :=
  {| fe_validateMobile := None; fe_prepare := Ok true; fe_LocalProxyPort := Ok 18080; fe_portErr1 := None;
     fe_fetch := Ok exampleList; fe_fetchCtx := false; fe_clock := 0; fe_probe := λ _ _, None; fe_rankedCtx := false;
     fe_portErr2 := None; fe_ladder := λ _ _, Err probeError; fe_ladderCtx := false |}.

Lemma connectFlow_ladder_witness :
  connectFlow str_eqb targetLabel desktopMonitor exampleFlow pinnedTarget =
    (FlowFailed "relay_connect" probeError, [FlowConnecting; FlowAttempted; FlowLadder [exampleRelay "b"] 18080]) ∧
  fe_LocalProxyPort exampleFlow = Ok 18080.
Proof.
  assert (Hf : connectFlow str_eqb targetLabel desktopMonitor exampleFlow pinnedTarget =
    (FlowFailed "relay_connect" probeError, [FlowConnecting; FlowAttempted; FlowLadder [exampleRelay "b"] 18080]))
    by (vm_compute; reflexivity).
  split; [exact Hf|].
  assert (Hin : FlowLadder [exampleRelay "b"] 18080 ∈ [FlowConnecting; FlowAttempted; FlowLadder [exampleRelay "b"] 18080])
    by (right; right; left).
  exact (proj1 (proj1 (proj2 (proj2 (connectFlow_ladder str_eqb targetLabel desktopMonitor exampleFlow pinnedTarget _ _ _ _ Hf Hin))) eq_refl)).
Defined.
