(* ===== verification/SingBox.v ===== *)
(** The configuration of sing-box, the engine that carries a client's tunnel
    (src/libs/connectcore/client/singbox_config.go and singbox_split_tunnel.go), with
    the input of a desktop candidate (connectcore/engine.go) and what the mobile
    host makes of it (connectcore/mobile.go).

    [BuildSingBoxConfig] is a document as a tree ([Codec.json]); printing it
    ([json.MarshalIndent]) is the standard library's.  What a rule means is
    sing-box's: [RouteEngine] and [DNSEngine] state the documented behaviour
    the emission relies on, as interfaces, and the theorems say which way every
    flow and every lookup takes through an engine that behaves so. *)
From stdpp Require Import base list list_numbers strings.
From Stdlib Require Import ZArith Lia.
From S2P Require Import Prelude Codec Netip Directory Punch Ladder.

(** * Inputs *)
Inductive InboundMode := ModeTUN | ModeProxy.
Inductive DNSShape := DNSShapeTCPProxied | DNSShapeDoHFailover.
#[export] Instance InboundMode_eq_dec : EqDecision InboundMode.
Proof. solve_decision. Defined.
#[export] Instance DNSShape_eq_dec : EqDecision DNSShape.
Proof. solve_decision. Defined.

Definition DefaultTunnelIPv4Address : string := "172.19.0.1/30".
Definition DefaultTunnelIPv6Address : string := "fdfe:dcba:9876::1/126".
Definition DefaultTunnelDNSAddress : string := "172.19.0.2".
Definition DefaultProbeDomainSuffixes : list string := ["probe.openrung.org"; "cp.cloudflare.com"]%string.
Definition dnsPrimaryTimeout : string := "2s".
Definition dnsFallbackTimeout : string := "3s".

Definition dohTLSServerNames (server : string) : option string :=
  if str_eqb server "1.1.1.1" then Some "cloudflare-dns.com"%string
  else if str_eqb server "8.8.8.8" then Some "dns.google"%string else None.

Record SplitTunnelRules := {
  st_BypassLAN : bool;
  st_BypassCountries : list string;
  st_ExcludedPackages : list string;
  st_RuleSetDirectory : string
}.

Record splitTunnelDirectResolver := { dr_server : string; dr_tlsServerName : string }.

Definition SplitTunnelCountryIR : string := "ir".
Definition SplitTunnelCountryCN : string := "cn".

(** The outer option is membership in the map, the inner one a nil entry. *)
Definition splitTunnelDirectResolvers (country : string) : option (option splitTunnelDirectResolver) :=
  if str_eqb country SplitTunnelCountryIR then Some None
  else if str_eqb country SplitTunnelCountryCN
  then Some (Some {| dr_server := "223.5.5.5"; dr_tlsServerName := "dns.alidns.com" |})
  else None.

Definition directResolver (country : string) : option splitTunnelDirectResolver :=
  default None (splitTunnelDirectResolvers country).

Record SingBoxConfigInput := {
  sb_Relay : RelayDescriptor;
  sb_TunnelIPv4Address : string;
  sb_TunnelIPv6Address : string;
  sb_DNSServers : list string;
  sb_MTU : Z;
  sb_Mode : InboundMode;
  sb_ProxyListenAddress : string;
  sb_ProxyListenPort : Z;
  sb_BridgeHost : string;
  sb_BridgePort : Z;
  sb_PunchPeerExcludeAddress : string;
  sb_BridgeOwnsOuterSocket : bool;
  sb_LogLevel : string;
  sb_DNSShape : DNSShape;
  sb_ProbeDomainSuffixes : list string;
  sb_SplitTunnel : option SplitTunnelRules;
  sb_RouteFindProcess : bool;
  sb_ClashAPI : bool;
  sb_DNSStrategy : string;
  sb_IPv6Disabled : bool
}.

(** * Validation *)
Inductive buildError :=
| ErrProtocol | ErrFlow | ErrExitMode | ErrFields
| ErrExcludedPackages | ErrBypassShape | ErrRuleSetDirectory
| ErrUnsupportedCountry (country : string) | ErrDuplicateCountry (country : string)
| ErrDNSStrategy | ErrDNSNotIP (server : string) | ErrDNSNoServerName (server : string)
| ErrMTU | ErrListenPort.

Definition validateRelayForConfig (c : RelayDescriptor) : option buildError :=
  if negb (str_eqb (rd_Protocol c) ProtocolVLESSRealityVision) then Some ErrProtocol else
  if negb (str_eqb (rd_Flow c) FlowVision) then Some ErrFlow else
  if negb (str_eqb (rd_ExitMode c) ExitModeDirect) then Some ErrExitMode else
  if negb (hasRequiredConnectionFields c) then Some ErrFields else None.

Fixpoint validateCountries (seen countries : list string) : option buildError :=
  match countries with
  | [] => None
  | country :: rest =>
      match splitTunnelDirectResolvers country with
      | None => Some (ErrUnsupportedCountry country)
      | Some _ =>
          if bool_decide (country ∈ seen) then Some (ErrDuplicateCountry country)
          else validateCountries (country :: seen) rest
      end
  end.

Definition validateSplitTunnel (i : SingBoxConfigInput) : option buildError :=
  match sb_SplitTunnel i with
  | None => None
  | Some rules =>
      if (0 <? length (st_ExcludedPackages rules))%nat && bool_decide (sb_Mode i = ModeProxy) then Some ErrExcludedPackages else
      if (length (st_BypassCountries rules) =? 0)%nat then None else
      if negb (bool_decide (sb_DNSShape i = DNSShapeDoHFailover)) then Some ErrBypassShape else
      if str_empty (st_RuleSetDirectory rules) then Some ErrRuleSetDirectory else
      validateCountries [] (st_BypassCountries rules)
  end.

Definition validateDNSStrategy (strategy : string) : option buildError :=
  if bool_decide (strategy ∈ [""; "prefer_ipv4"; "prefer_ipv6"; "ipv4_only"; "ipv6_only"]%string) then None else Some ErrDNSStrategy.

Fixpoint validateDoHDNSServers (dnsServers : list string) : option buildError :=
  match dnsServers with
  | [] => None
  | server :: rest =>
      match ParseIP server with
      | None => Some (ErrDNSNotIP server)
      | Some _ =>
          match dohTLSServerNames server with
          | None => Some (ErrDNSNoServerName server)
          | Some _ => validateDoHDNSServers rest
          end
      end
  end.

(** * The inbound *)
Definition strs (l : list string) : json := JArr (JStr <$> l).

(** [strings.TrimPrefix] and [TrimSuffix] of one byte. *)
Definition trimPrefixByte (c : Z) (s : list byte) : list byte :=
  match s with x :: rest => if val x =? c then rest else s | [] => [] end.
Definition trimSuffixByte (c : Z) (s : list byte) : list byte := reverse (trimPrefixByte c (reverse s)).

(** [ip.String()] of a parsed address, which is never an IPv4 address mapped
    into IPv6. *)
Definition relayRouteExcludeAddress (host : string) : string :=
  match ParseIP (text (trimSuffixByte 93 (trimPrefixByte 91 (bytes host)))) with
  | None => ""
  | Some (V4 v) => AddrString (V4 v) +:+ "/32"
  | Some (V6 v z) => AddrString (V6 v z) +:+ "/128"
  end.

Definition bridged (i : SingBoxConfigInput) : bool := negb (str_empty (sb_BridgeHost i)) && (0 <? sb_BridgePort i).

Definition excludeAddresses (i : SingBoxConfigInput) : list string :=
  List.filter (λ a, negb (str_empty a))
    (relayRouteExcludeAddress <$> [rd_PublicHost (sb_Relay i); sb_PunchPeerExcludeAddress i]).

Definition tunInbound (i : SingBoxConfigInput) (ipv4 ipv6 : string) (mtu : Z) : list (string * json) :=
  [("type", JStr "tun"); ("tag", JStr "tun-in"); ("mtu", JNum mtu); ("auto_route", JBool true); ("strict_route", JBool true);
    ("stack", JStr "system"); ("dns_mode", JStr "hijack"); ("endpoint_independent_nat", JBool true);
    ("address", strs (if sb_IPv6Disabled i then [ipv4] else [ipv4; ipv6]))]%string ++
  match sb_SplitTunnel i with
  | Some rules => match st_ExcludedPackages rules with [] => [] | l => [("exclude_package"%string, strs l)] end
  | None => []
  end ++
  (if sb_BridgeOwnsOuterSocket i && bridged i then [] else
   match excludeAddresses i with [] => [] | l => [("route_exclude_address"%string, strs l)] end).

Definition buildInbound (i : SingBoxConfigInput) (ipv4 ipv6 : string) (mtu : Z) : result buildError json :=
  match sb_Mode i with
  | ModeProxy =>
      let listen := if str_empty (sb_ProxyListenAddress i) then "127.0.0.1"%string else sb_ProxyListenAddress i in
      if sb_ProxyListenPort i <=? 0 then Err ErrListenPort else
      Ok (JObj [("type", JStr "mixed"); ("tag", JStr "mixed-in"); ("listen", JStr listen);
                ("listen_port", JNum (sb_ProxyListenPort i))]%string)
  | ModeTUN => Ok (JObj (tunInbound i ipv4 ipv6 mtu))
  end.

(** * DNS *)
Definition dnsTag (n : nat) : string := "dns-" +:+ text (FormatInt (Z.of_nat n)).

Definition dnsServerObjects (servers : list string) : list json :=
  imap (λ n server, JObj [("tag", JStr (dnsTag n)); ("type", JStr "tcp"); ("server", JStr server); ("detour", JStr "proxy")])%string servers.

Definition dohServerObjects (servers : list string) : list json :=
  imap (λ n server, JObj [("tag", JStr (dnsTag n)); ("type", JStr "https"); ("server", JStr server); ("detour", JStr "proxy");
    ("tls", JObj [("enabled", JBool true); ("server_name", JStr (default "" (dohTLSServerNames server)))])])%string servers.

Definition directTag (country : string) : string := "dns-direct-" +:+ country.

Definition directServerObjects (countries : list string) : list json :=
  omap (λ country, (λ r, JObj [("tag", JStr (directTag country)); ("type", JStr "https"); ("server", JStr (dr_server r));
    ("tls", JObj [("enabled", JBool true); ("server_name", JStr (dr_tlsServerName r))])])%string <$> directResolver country) countries.

(** The scope of a rule: the domains, if any. *)
Definition suffixField (suffixes : list string) : list (string * json) :=
  match suffixes with [] => [] | _ => [("domain_suffix"%string, strs suffixes)] end.
Definition scopeAndCache (suffixes : list string) (disableCache : bool) (rule : list (string * json)) : json :=
  JObj (rule ++ suffixField suffixes ++
        if disableCache then [("disable_cache", JBool true); ("disable_optimistic_cache", JBool true)]%string else []).

Definition rcodes : list string := ["NOERROR"; "NXDOMAIN"]%string.

Definition respondRule (scope : list (string * json)) (rcode : string) : json :=
  JObj ([("match_response", JBool true); ("response_rcode", JStr rcode); ("action", JStr "respond")]%string ++ scope).

(** [dnsServers[:len(dnsServers)-1]] panics for no server at all, which
    [BuildSingBoxConfig] excludes. *)
Definition dnsFailoverRules (dnsServers suffixes : list string) (disableCache : bool) : list json :=
  (seq 0 (length dnsServers - 1) ≫= λ n,
     scopeAndCache suffixes disableCache
       [("action", JStr "evaluate"); ("server", JStr (dnsTag n)); ("timeout", JStr dnsPrimaryTimeout)]%string ::
     (respondRule (suffixField suffixes) <$> rcodes)) ++
  [scopeAndCache suffixes disableCache
     [("server", JStr (dnsTag (length dnsServers - 1))); ("timeout", JStr dnsFallbackTimeout)]%string].

Definition geosite (country : string) : string := "geosite-" +:+ country.
Definition geoip (country : string) : string := "geoip-" +:+ country.

Definition countryDNSRules (country : string) : list json :=
  match directResolver country with
  | None => []
  | Some _ =>
      let ruleSet := strs [geosite country] in
      JObj [("rule_set", ruleSet); ("action", JStr "evaluate"); ("server", JStr (directTag country));
            ("timeout", JStr dnsPrimaryTimeout)]%string ::
      ((λ rcode, JObj [("rule_set", ruleSet); ("match_response", JBool true); ("response_rcode", JStr rcode);
                       ("action", JStr "respond")]%string) <$> rcodes)
  end.

Definition bypassCountries (i : SingBoxConfigInput) : list string :=
  match sb_SplitTunnel i with Some rules => st_BypassCountries rules | None => [] end.
Definition bypassLAN (i : SingBoxConfigInput) : bool :=
  match sb_SplitTunnel i with Some rules => st_BypassLAN rules | None => false end.

Definition strategyField (i : SingBoxConfigInput) : list (string * json) :=
  if str_empty (sb_DNSStrategy i) then [] else [("strategy"%string, JStr (sb_DNSStrategy i))].

Definition dnsRules (i : SingBoxConfigInput) (dnsServers probeSuffixes : list string) : list json :=
  dnsFailoverRules dnsServers probeSuffixes true ++ (bypassCountries i ≫= countryDNSRules) ++
  dnsFailoverRules dnsServers [] false.

Definition buildDNSConfig (i : SingBoxConfigInput) (dnsServers probeSuffixes : list string) : json :=
  match sb_DNSShape i with
  | DNSShapeTCPProxied => JObj ([("servers", JArr (dnsServerObjects dnsServers)); ("final", JStr "dns-0")]%string ++ strategyField i)
  | DNSShapeDoHFailover =>
      JObj ([("servers", JArr (dohServerObjects dnsServers ++ directServerObjects (bypassCountries i)));
             ("rules", JArr (dnsRules i dnsServers probeSuffixes));
             ("final", JStr (dnsTag (length dnsServers - 1))); ("timeout", JStr dnsFallbackTimeout)]%string ++ strategyField i)
  end.

(** * Routes *)
Definition routeRules (i : SingBoxConfigInput) (probeSuffixes : list string) : list json :=
  [JObj [("protocol", JStr "dns"); ("action", JStr "hijack-dns")]%string;
   JObj [("port", JNum 53); ("action", JStr "hijack-dns")]%string] ++
  match bypassCountries i with
  | [] => []
  | _ => [JObj [("action", JStr "sniff")]%string;
          JObj [("network", JStr "tcp"); ("domain_suffix", strs probeSuffixes); ("outbound", JStr "proxy")]%string]
  end ++
  (if bypassLAN i then [JObj [("ip_is_private", JBool true); ("outbound", JStr "direct")]%string] else []) ++
  ((λ country, JObj [("rule_set", strs [geosite country; geoip country]); ("outbound", JStr "direct")]%string) <$> bypassCountries i) ++
  [JObj [("network", JStr "udp"); ("port", JNum 443); ("action", JStr "reject"); ("no_drop", JBool true)]%string].

Definition localRuleSetObject (directory tag : string) : json :=
  JObj [("type", JStr "local"); ("tag", JStr tag); ("format", JStr "binary");
        ("path", JStr (directory +:+ "/" +:+ tag +:+ ".srs"))]%string.

Definition ruleSetField (i : SingBoxConfigInput) : list (string * json) :=
  match sb_SplitTunnel i with
  | Some rules =>
      match st_BypassCountries rules with
      | [] => []
      | countries => [("rule_set"%string, JArr (countries ≫= λ country,
          [localRuleSetObject (st_RuleSetDirectory rules) (geosite country);
           localRuleSetObject (st_RuleSetDirectory rules) (geoip country)]))]
      end
  | None => []
  end.

Definition buildRouteConfig (i : SingBoxConfigInput) (probeSuffixes : list string) : json :=
  JObj ([("auto_detect_interface", JBool true); ("default_domain_resolver", JStr "dns-0");
         ("rules", JArr (routeRules i probeSuffixes)); ("final", JStr "proxy")]%string ++
        (if sb_RouteFindProcess i then [("find_process"%string, JBool true)] else []) ++ ruleSetField i).

(** * The document *)
Definition vlessOutbound (relay : RelayDescriptor) (server : string) (port : Z) : json :=
  JObj [("type", JStr "vless"); ("tag", JStr "proxy"); ("server", JStr server); ("server_port", JNum port);
        ("uuid", JStr (rd_ClientID relay)); ("flow", JStr (rd_Flow relay)); ("network", JStr "tcp"); ("packet_encoding", JStr "xudp");
        ("tls", JObj [("enabled", JBool true); ("server_name", JStr (rd_ServerName relay));
          ("utls", JObj [("enabled", JBool true); ("fingerprint", JStr "chrome")]);
          ("reality", JObj [("enabled", JBool true); ("public_key", JStr (rd_RealityPublicKey relay));
            ("short_id", JStr (rd_ShortID relay))])])]%string.

Definition orDefault (s d : string) : string := if str_empty s then d else s.
Definition dnsServersOf (i : SingBoxConfigInput) : list string :=
  match sb_DNSServers i with [] => ["1.1.1.1"; "8.8.8.8"]%string | l => l end.
Definition probeSuffixesOf (i : SingBoxConfigInput) : list string :=
  match sb_ProbeDomainSuffixes i with [] => DefaultProbeDomainSuffixes | l => l end.

(** Where the outbound dials. *)
Definition serverOf (i : SingBoxConfigInput) : string * Z :=
  if bridged i then (sb_BridgeHost i, sb_BridgePort i) else (rd_PublicHost (sb_Relay i), rd_PublicPort (sb_Relay i)).

Definition document (i : SingBoxConfigInput) (inbound : json) : json :=
  JObj ([("log", JObj [("level", JStr (orDefault (sb_LogLevel i) "info")); ("timestamp", JBool true)]);
         ("dns", buildDNSConfig i (dnsServersOf i) (probeSuffixesOf i));
         ("inbounds", JArr [inbound]);
         ("outbounds", JArr [vlessOutbound (sb_Relay i) (serverOf i).1 (serverOf i).2;
                             JObj [("type", JStr "direct"); ("tag", JStr "direct")];
                             JObj [("type", JStr "block"); ("tag", JStr "block")]]);
         ("route", buildRouteConfig i (probeSuffixesOf i))]%string ++
        (if sb_ClashAPI i then [("experimental", JObj [("clash_api", JObj [])])]%string else [])).

(** The checks, in the order of the code; [None] passes. *)
Definition checkInput (i : SingBoxConfigInput) : option buildError :=
  match validateRelayForConfig (sb_Relay i) with Some e => Some e | None =>
  match validateSplitTunnel i with Some e => Some e | None =>
  match validateDNSStrategy (sb_DNSStrategy i) with Some e => Some e | None =>
  match (if bool_decide (sb_DNSShape i = DNSShapeDoHFailover) then validateDoHDNSServers (dnsServersOf i) else None) with Some e => Some e | None =>
  if sb_MTU i <? 0 then Some ErrMTU else None end end end end.

Definition BuildSingBoxConfig (i : SingBoxConfigInput) : result buildError json :=
  match checkInput i with
  | Some e => Err e
  | None =>
      let? inbound := buildInbound i (orDefault (sb_TunnelIPv4Address i) DefaultTunnelIPv4Address)
                        (orDefault (sb_TunnelIPv6Address i) DefaultTunnelIPv6Address)
                        (if sb_MTU i =? 0 then 1500 else sb_MTU i) in
      Ok (document i inbound)
  end.

(** * The resolver of the tunnel *)
(** [addr.Next()]: none after the last address. *)
Definition Next (a : Addr) : option Addr :=
  match a with
  | V4 v => if v =? 2 ^ 32 - 1 then None else Some (V4 (v + 1))
  | V6 v z => if v =? 2 ^ 128 - 1 then None else Some (V6 (v + 1) z)
  end.

Definition TunnelDNSAddress (tunnelIPv4Address : string) : option string :=
  match ParsePrefix tunnelIPv4Address with
  | Some p =>
      match prefixAddr p with
      | V4 _ =>
          match Next (prefixAddr p) with
          | Some next => if Contains p next then Some (AddrString next) else None
          | None => None
          end
      | V6 _ _ => None
      end
  | None => None
  end.

Example default_dns_address : TunnelDNSAddress DefaultTunnelIPv4Address = Some DefaultTunnelDNSAddress.
Proof. vm_compute. reflexivity. Qed.
Example last_address_has_no_dns : TunnelDNSAddress "172.19.0.3/30" = None.
Proof. vm_compute. reflexivity. Qed.

(** * Reading a document *)
Fixpoint assoc (k : string) (l : list (string * json)) : option json :=
  match l with [] => None | (k', v) :: rest => if String.eqb k k' then Some v else assoc k rest end.
Definition field (k : string) (j : json) : option json := match j with JObj l => assoc k l | _ => None end.
Definition asStr (j : json) : option string := match j with JStr s => Some s | _ => None end.
Definition str_at (k : string) (j : json) : option string := field k j ≫= asStr.
Definition items (k : string) (j : json) : list json := match field k j with Some (JArr l) => l | _ => [] end.
Definition strings_at (k : string) (j : json) : list string := omap asStr (items k j).
Definition sub (k : string) (j : json) : json := default (JObj []) (field k j).
Definition tags (l : list json) : list string := omap (str_at "tag") l.

Definition dnsOf (cfg : json) : json := sub "dns" cfg.
Definition routeOf (cfg : json) : json := sub "route" cfg.
Definition outboundTags (cfg : json) : list string := tags (items "outbounds" cfg).
Definition serverTags (cfg : json) : list string := tags (items "servers" (dnsOf cfg)).
Definition ruleSetTags (cfg : json) : list string := tags (items "rule_set" (routeOf cfg)).

(** A document whose every reference is declared, once: sing-box refuses any
    other when it starts. *)
Record closed (cfg : json) : Prop := {
  outbounds_distinct : NoDup (outboundTags cfg);
  servers_distinct : NoDup (serverTags cfg);
  ruleSets_distinct : NoDup (ruleSetTags cfg);
  detours_declared s t : s ∈ items "servers" (dnsOf cfg) → str_at "detour" s = Some t → t ∈ outboundTags cfg;
  dnsServers_declared r t : r ∈ items "rules" (dnsOf cfg) → str_at "server" r = Some t → t ∈ serverTags cfg;
  dnsSets_declared r t : r ∈ items "rules" (dnsOf cfg) → t ∈ strings_at "rule_set" r → t ∈ ruleSetTags cfg;
  dnsFinal_declared : ∃ t, str_at "final" (dnsOf cfg) = Some t ∧ t ∈ serverTags cfg;
  outbounds_declared r t : r ∈ items "rules" (routeOf cfg) → str_at "outbound" r = Some t → t ∈ outboundTags cfg;
  routeSets_declared r t : r ∈ items "rules" (routeOf cfg) → t ∈ strings_at "rule_set" r → t ∈ ruleSetTags cfg;
  routeFinal_declared : ∃ t, str_at "final" (routeOf cfg) = Some t ∧ t ∈ outboundTags cfg;
  resolver_declared : ∃ t, str_at "default_domain_resolver" (routeOf cfg) = Some t ∧ t ∈ serverTags cfg
}.

(** * What sing-box makes of the rules *)
(** A flow as the router sees it. *)
Record flow := {
  fl_protocol : string;               (* tagged by the TUN, or sniffed *)
  fl_network : string;
  fl_port : Z;
  fl_private : bool;                  (* the destination address is private *)
  fl_suffix : list string → bool;     (* its sniffed domain ends so *)
  fl_inSet : string → bool            (* a rule set holds it *)
}.

Inductive verdict := Hijacked | Rejected | Via (outbound : string).

(** The fields of a rule that are not conditions. *)
Definition conditions (actions : list string) (l : list (string * json)) : list (string * json) :=
  List.filter (λ kv, negb (existsb (String.eqb kv.1) actions)) l.
Definition routeActions : list string := ["action"; "outbound"; "no_drop"]%string.

(** What a matching rule decides, [None] for an action that decides nothing. *)
Definition decision (l : list (string * json)) : option verdict :=
  match str_at "action" (JObj l), str_at "outbound" (JObj l) with
  | Some a, _ => if String.eqb a "hijack-dns" then Some Hijacked else if String.eqb a "reject" then Some Rejected else None
  | None, Some o => Some (Via o)
  | None, None => None
  end.

(** The router tries the rules in order; a rule matches when all its
    conditions hold; the first decision counts, else the final outbound. *)
Class RouteEngine := {
  holds : string * json → flow → bool;
  route : list json → string → flow → verdict;
  holds_protocol p f : holds ("protocol"%string, JStr p) f = str_eqb (fl_protocol f) p;
  holds_network n f : holds ("network"%string, JStr n) f = str_eqb (fl_network f) n;
  holds_port p f : holds ("port"%string, JNum p) f = (fl_port f =? p);
  holds_private f : holds ("ip_is_private"%string, JBool true) f = fl_private f;
  holds_suffix l f : holds ("domain_suffix"%string, strs l) f = fl_suffix f l;
  holds_set l f : holds ("rule_set"%string, strs l) f = existsb (fl_inSet f) l;
  route_nil final f : route [] final f = Via final;
  route_cons l rules final f : route (JObj l :: rules) final f =
    if forallb (λ kv, holds kv f) (conditions routeActions l) then default (route rules final f) (decision l)
    else route rules final f
}.

(** A lookup: which resolver answers what ([None] is an error or a timeout). *)
Record query := {
  q_suffix : list string → bool;
  q_inSet : string → bool;
  q_exchange : string → option string
}.

Definition dnsActions : list string := ["action"; "server"; "timeout"; "disable_cache"; "disable_optimistic_cache"]%string.

(** DNS rules run in order, with the response last evaluated: [evaluate] asks
    its server and goes on, [respond] returns the response it matched, any
    other rule asks its server and ends. *)
Class DNSEngine := {
  dns_holds : string * json → option (string * string) → query → bool;
  resolve : list json → string → option (string * string) → query → string * option string;
  afterFailure : option (string * string) → option (string * string);
  after_failure saved : afterFailure saved = None ∨ afterFailure saved = saved;
  dns_suffix l saved q : dns_holds ("domain_suffix"%string, strs l) saved q = q_suffix q l;
  dns_set l saved q : dns_holds ("rule_set"%string, strs l) saved q = existsb (q_inSet q) l;
  dns_response saved q : dns_holds ("match_response"%string, JBool true) saved q = bool_decide (is_Some saved);
  dns_rcode rc saved q : dns_holds ("response_rcode"%string, JStr rc) saved q = bool_decide (snd <$> saved = Some rc);
  resolve_nil final saved q : resolve [] final saved q = (final, q_exchange q final);
  resolve_cons l rules final saved q : resolve (JObj l :: rules) final saved q =
    if forallb (λ kv, dns_holds kv saved q) (conditions dnsActions l) then
      match str_at "action" (JObj l), str_at "server" (JObj l) with
      | Some a, server =>
          if String.eqb a "evaluate" then
            let s := default ""%string server in
            resolve rules final (match q_exchange q s with Some rc => Some (s, rc) | None => afterFailure saved end) q
          else match saved with Some (s, rc) => (s, Some rc) | None => resolve rules final saved q end
      | None, Some s => (s, q_exchange q s)
      | None, None => resolve rules final saved q
      end
    else resolve rules final saved q
}.

(** * The policies *)
(** What becomes of a flow: DNS stays inside; probes, when anything may go
    around the tunnel, go through it; then what the user lets around it; QUIC
    is refused at once; the rest goes through the tunnel. *)
Definition policy (i : SingBoxConfigInput) (f : flow) : verdict :=
  if str_eqb (fl_protocol f) "dns" || (fl_port f =? 53) then Hijacked else
  if (0 <? length (bypassCountries i))%nat && str_eqb (fl_network f) "tcp" && fl_suffix f (probeSuffixesOf i) then Via "proxy" else
  if bypassLAN i && fl_private f then Via "direct" else
  if existsb (λ country, fl_inSet f (geosite country) || fl_inSet f (geoip country)) (bypassCountries i) then Via "direct" else
  if str_eqb (fl_network f) "udp" && (fl_port f =? 443) then Rejected else Via "proxy".

Definition answered (rcode : option string) : bool :=
  match rcode with Some rc => existsb (String.eqb rc) rcodes | None => false end.

(** The resolvers in turn, the last one's answer whatever it is. *)
Fixpoint failover (servers : list string) (q : query) : string * option string :=
  match servers with
  | [] => (""%string, None)
  | [s] => (s, q_exchange q s)
  | s :: rest => if answered (q_exchange q s) then (s, q_exchange q s) else failover rest q
  end.

(** The in-country resolver that answers a lookup. *)
Definition inCountry (q : query) (country : string) : bool :=
  bool_decide (is_Some (directResolver country)) && q_inSet q (geosite country) && answered (q_exchange q (directTag country)).

Definition proxied (i : SingBoxConfigInput) : list string := dnsTag <$> seq 0 (length (dnsServersOf i)).

Definition lookupPolicy (i : SingBoxConfigInput) (q : query) : string * option string :=
  match sb_DNSShape i with
  | DNSShapeTCPProxied => (dnsTag 0, q_exchange q (dnsTag 0))
  | DNSShapeDoHFailover =>
      if q_suffix q (probeSuffixesOf i) then failover (proxied i) q else
      match List.find (inCountry q) (bypassCountries i) with
      | Some country => (directTag country, q_exchange q (directTag country))
      | None => failover (proxied i) q
      end
  end.

(** * What a built document is *)
Lemma build_inv i cfg : BuildSingBoxConfig i = Ok cfg → checkInput i = None ∧ ∃ inbound,
  buildInbound i (orDefault (sb_TunnelIPv4Address i) DefaultTunnelIPv4Address)
    (orDefault (sb_TunnelIPv6Address i) DefaultTunnelIPv6Address) (if sb_MTU i =? 0 then 1500 else sb_MTU i) = Ok inbound ∧
  cfg = document i inbound.
Proof.
  unfold BuildSingBoxConfig. destruct (checkInput i); [done|]. destruct (buildInbound _ _ _ _) as [inb|]; [|done].
  intros [= <-]. split; [done|]. by exists inb.
Qed.

Lemma validateCountries_none seen cs : validateCountries seen cs = None →
  NoDup cs ∧ ∀ c, c ∈ cs → c ∉ seen ∧ (c = SplitTunnelCountryIR ∨ c = SplitTunnelCountryCN).
Proof.
  revert seen. induction cs as [|c cs IH]; intros seen; cbn; [intros _; split; [constructor|by intros ? ?%elem_of_nil]|].
  destruct (splitTunnelDirectResolvers c) eqn:Er; [|done]. case_bool_decide as Hc; [done|].
  intros [Hn Hin]%IH. split; [constructor; [|done]; intros Hcs; destruct (Hin _ Hcs) as [Hx _]; apply Hx; by left|].
  intros d [->|Hd]%elem_of_cons.
  - split; [done|]. unfold splitTunnelDirectResolvers in Er.
    destruct (str_eqb c _) eqn:E1; [left; by apply str_eqb_true|]. destruct (str_eqb c SplitTunnelCountryCN) eqn:E2; [right; by apply str_eqb_true|done].
  - destruct (Hin _ Hd) as [Hx Hy]. split; [|done]. intros H. apply Hx. by right.
Qed.

(** The countries of a document that passed the checks. *)
Lemma checked_countries i : checkInput i = None →
  NoDup (bypassCountries i) ∧ (∀ c, c ∈ bypassCountries i → c = SplitTunnelCountryIR ∨ c = SplitTunnelCountryCN) ∧
  (bypassCountries i ≠ [] → sb_DNSShape i = DNSShapeDoHFailover).
Proof.
  unfold checkInput, validateSplitTunnel, bypassCountries. destruct (validateRelayForConfig _); [done|].
  destruct (sb_SplitTunnel i) as [rules|]; [|intros _; split_and!; [constructor|by intros ? ?%elem_of_nil|done]].
  destruct (_ && _); [done|]. destruct (st_BypassCountries rules) as [|c cs] eqn:Ec.
  { intros _. split_and!; [constructor|by intros ? ?%elem_of_nil|done]. }
  change ((length (c :: cs) =? 0)%nat) with false. cbn match. case_bool_decide as Hs; [|done]. cbn [negb].
  destruct (str_empty _); [done|]. destruct (validateCountries [] _) eqn:Ev; [done|]. intros _.
  apply validateCountries_none in Ev as [Hn Hin]. split_and!; [done| |done]. intros d Hd. by destruct (Hin d Hd).
Qed.

(** ** Tags *)
Lemma FormatInt_nat_inj m n : Z.of_nat m ≤ int64_max → Z.of_nat n ≤ int64_max →
  FormatInt (Z.of_nat m) = FormatInt (Z.of_nat n) → m = n.
Proof. unfold int64_max. intros Hm Hn H%FormatInt_inj; unfold in_int64, int64_min, int64_max; lia. Qed.

Lemma dnsTag_inj m n : Z.of_nat m ≤ int64_max → Z.of_nat n ≤ int64_max → dnsTag m = dnsTag n → m = n.
Proof.
  intros Hm Hn H. apply (inj (String.append "dns-")) in H. apply (f_equal bytes) in H. rewrite !bytes_text in H. by apply FormatInt_nat_inj.
Qed.

Lemma dnsTag_not_direct n country : Z.of_nat n ≤ int64_max → dnsTag n ≠ directTag country.
Proof.
  intros Hn H. change (directTag country) with ("dns-" +:+ ("direct-" +:+ country)) in H. apply (inj (String.append "dns-")) in H.
  apply (f_equal bytes) in H. rewrite bytes_text in H. apply (f_equal ParseInt) in H.
  rewrite ParseInt_FormatInt in H by (unfold int64_max in *; lia). discriminate H.
Qed.

Lemma tags_cons j l : tags (j :: l) = match str_at "tag" j with Some t => t :: tags l | None => tags l end.
Proof. done. Qed.

Lemma tags_imap {A} (g : nat → A → json) (h : nat → string) (l : list A) :
  (∀ n x, str_at "tag" (g n x) = Some (h n)) → tags (imap g l) = h <$> seq 0 (length l).
Proof.
  revert g h. induction l as [|x l IH]; intros g h Hg; [done|]. rewrite imap_cons, tags_cons, Hg. cbn [length seq fmap list_fmap]. f_equal.
  rewrite (IH (g ∘ S) (h ∘ S)) by (intros; apply Hg). by rewrite <- fmap_S_seq, <- list_fmap_compose.
Qed.

Lemma tags_app l k : tags (l ++ k) = tags l ++ tags k.
Proof. apply omap_app. Qed.

Definition directTags (countries : list string) : list string := omap (λ c, (λ _, directTag c) <$> directResolver c) countries.

Lemma tags_direct countries : tags (directServerObjects countries) = directTags countries.
Proof.
  unfold tags, directServerObjects, directTags. induction countries as [|c cs IH]; [done|]. cbn -[str_at directResolver].
  destruct (directResolver c); cbn -[directResolver]; [by f_equal|done].
Qed.

Definition indexed (l : list string) : Prop := Z.of_nat (length l) ≤ int64_max.

Lemma dnsTags_distinct n : Z.of_nat n ≤ int64_max → NoDup (dnsTag <$> seq 0 n).
Proof.
  intros Hn. apply NoDup_fmap_2_strong; [|apply NoDup_seq]. intros x y Hx%elem_of_seq Hy%elem_of_seq. apply dnsTag_inj; lia.
Qed.

Lemma directTag_inj c d : directTag c = directTag d → c = d.
Proof. apply (inj (String.append "dns-direct-")). Qed.

Lemma elem_of_directTags t countries : t ∈ directTags countries ↔
  ∃ c, c ∈ countries ∧ is_Some (directResolver c) ∧ t = directTag c.
Proof.
  unfold directTags. rewrite list_elem_of_omap. split; intros (c & Hc & H).
  - exists c. destruct (directResolver c); [|done]. cbn in H. injection H as <-. by split_and!; [|eexists|].
  - destruct H as [[r Hr] ->]. exists c. by rewrite Hr.
Qed.

Lemma directTags_distinct countries : NoDup countries → NoDup (directTags countries).
Proof.
  induction 1 as [|c cs Hc _ IH]; [constructor|]. unfold directTags in *. cbn -[directResolver]. destruct (directResolver c); cbn -[directResolver]; [|done]. constructor; [|done].
  intros (d & Hd & _ & H)%elem_of_directTags. apply directTag_inj in H as ->. done.
Qed.

(** ** The routes *)
Ltac route_step := rewrite route_cons; cbn [conditions routeActions List.filter existsb fst String.eqb Ascii.eqb Bool.eqb orb negb forallb andb].

Section routes.
Context `{RouteEngine}.

Lemma route_countries countries rules final f :
  route (((λ country, JObj [("rule_set", strs [geosite country; geoip country]); ("outbound", JStr "direct")]%string) <$> countries) ++ rules) final f =
  if existsb (λ country, fl_inSet f (geosite country) || fl_inSet f (geoip country)) countries then Via "direct" else route rules final f.
Proof.
  induction countries as [|c cs IH]; [done|]. cbn [fmap list_fmap app existsb]. route_step. rewrite holds_set. cbn [existsb].
  rewrite orb_false_r, andb_true_r. destruct (_ || fl_inSet f (geoip c)); [done|]. apply IH.
Qed.

Lemma route_rules i probes f : route (routeRules i probes) "proxy" f =
  if str_eqb (fl_protocol f) "dns" || (fl_port f =? 53) then Hijacked else
  if (0 <? length (bypassCountries i))%nat && str_eqb (fl_network f) "tcp" && fl_suffix f probes then Via "proxy" else
  if bypassLAN i && fl_private f then Via "direct" else
  if existsb (λ country, fl_inSet f (geosite country) || fl_inSet f (geoip country)) (bypassCountries i) then Via "direct" else
  if str_eqb (fl_network f) "udp" && (fl_port f =? 443) then Rejected else Via "proxy".
Proof.
  unfold routeRules. cbn [app]. route_step. rewrite holds_protocol. rewrite andb_true_r.
  destruct (str_eqb (fl_protocol f) "dns"); [done|]. route_step. rewrite holds_port, andb_true_r.
  destruct (fl_port f =? 53); [done|]. cbn [orb].
  assert (Hrest : ∀ final, route ((if bypassLAN i then [JObj [("ip_is_private", JBool true); ("outbound", JStr "direct")]%string] else []) ++
    ((λ country, JObj [("rule_set", strs [geosite country; geoip country]); ("outbound", JStr "direct")]%string) <$> bypassCountries i) ++
    [JObj [("network", JStr "udp"); ("port", JNum 443); ("action", JStr "reject"); ("no_drop", JBool true)]%string]) final f =
    if bypassLAN i && fl_private f then Via "direct" else
    if existsb (λ country, fl_inSet f (geosite country) || fl_inSet f (geoip country)) (bypassCountries i) then Via "direct" else
    if str_eqb (fl_network f) "udp" && (fl_port f =? 443) then Rejected else Via final).
  { intros final. destruct (bypassLAN i); cbn [app andb].
    - route_step. rewrite holds_private, andb_true_r. destruct (fl_private f); [done|]. rewrite route_countries.
      route_step. rewrite holds_network, holds_port, andb_true_r, route_nil. destruct (existsb _ _); [done|]; by destruct (str_eqb (fl_network f) "udp" && (fl_port f =? 443)).
    - rewrite route_countries. route_step. rewrite holds_network, holds_port, andb_true_r, route_nil. destruct (existsb _ _); [done|]; by destruct (str_eqb (fl_network f) "udp" && (fl_port f =? 443)). }
  destruct (bypassCountries i) as [|c cs] eqn:Ec; [apply Hrest|]. rewrite <- Ec in *. cbn [app].
  route_step. cbn [decision str_at field assoc String.eqb Ascii.eqb Bool.eqb mbind option_bind asStr default from_option].
  route_step. rewrite holds_network, holds_suffix, andb_true_r.
  replace (0 <? length (bypassCountries i))%nat with true by (by rewrite Ec). cbn [andb].
  destruct (str_eqb (fl_network f) "tcp" && fl_suffix f probes); [done|]. apply Hrest.
Qed.
End routes.

(** ** The lookups *)
Ltac dns_step := rewrite resolve_cons;
  cbn [app conditions dnsActions suffixField List.filter existsb fst String.eqb Ascii.eqb Bool.eqb orb negb forallb andb
       str_at field assoc mbind option_bind asStr default from_option].

Section lookups.
Context `{DNSEngine}.

(** A [respond] rule in the scope [b]. *)
Lemma resolve_respond l rc b rules final saved q :
  forallb (λ kv, dns_holds kv saved q) (conditions dnsActions l) = b && bool_decide (snd <$> saved = Some rc) →
  str_at "action" (JObj l) = Some "respond"%string →
  resolve (JObj l :: rules) final saved q =
    if b && bool_decide (snd <$> saved = Some rc)
    then (default ""%string (fst <$> saved), Some rc) else resolve rules final saved q.
Proof.
  intros Hc Ha. rewrite resolve_cons, Hc, Ha. destruct b; [|done]. case_bool_decide as Hs; [|done].
  destruct saved as [[s rc']|]; [|done]. by injection Hs as ->.
Qed.

Definition unanswered (saved : option (string * string)) : Prop := answered (snd <$> saved) = false.

Lemma resolve_responds l1 l2 b rules final saved q :
  (∀ rc l, (rc, l) ∈ [("NOERROR"%string, l1); ("NXDOMAIN"%string, l2)] →
     forallb (λ kv, dns_holds kv saved q) (conditions dnsActions l) = b && bool_decide (snd <$> saved = Some rc) ∧
     str_at "action" (JObj l) = Some "respond"%string) →
  resolve (JObj l1 :: JObj l2 :: rules) final saved q =
    if b && answered (snd <$> saved) then (default ""%string (fst <$> saved), snd <$> saved) else resolve rules final saved q.
Proof.
  intros Hl. destruct (Hl "NOERROR" l1) as [H1 A1]; [by left|]. destruct (Hl "NXDOMAIN" l2) as [H2 A2]; [right; by left|].
  rewrite (resolve_respond _ _ _ _ _ _ _ H1 A1), (resolve_respond _ _ _ _ _ _ _ H2 A2). destruct b; [|done]. cbn [andb].
  destruct saved as [[s rc]|]; [|done]. cbn. destruct (String.eqb_spec rc "NOERROR") as [->|N1]; [done|].
  rewrite bool_decide_eq_false_2 by (by intros [=]). destruct (String.eqb_spec rc "NXDOMAIN") as [->|N2]; [done|].
  by rewrite bool_decide_eq_false_2 by (by intros [=]).
Qed.

Lemma holds_response rc saved q :
  dns_holds ("match_response"%string, JBool true) saved q && (dns_holds ("response_rcode"%string, JStr rc) saved q && true)
  = bool_decide (snd <$> saved = Some rc).
Proof.
  rewrite dns_response, dns_rcode, andb_true_r. destruct saved as [[s rc']|]; [|done]. by rewrite bool_decide_eq_true_2.
Qed.

(** The scope of a chain. *)
Definition inScope (suffixes : list string) (q : query) : bool := match suffixes with [] => true | _ => q_suffix q suffixes end.

Lemma holds_scope suffixes saved q : forallb (λ kv, dns_holds kv saved q) (conditions dnsActions (suffixField suffixes)) = inScope suffixes q.
Proof. destruct suffixes; [done|]. cbn -[dns_holds strs]. by rewrite dns_suffix, andb_true_r. Qed.

Lemma conditions_app a l k : conditions a (l ++ k) = conditions a l ++ conditions a k.
Proof. apply List.filter_app. Qed.

(** The response saved after a server was asked. *)
Definition asked (s : string) (saved : option (string * string)) (q : query) : option (string * string) :=
  match q_exchange q s with Some rc => Some (s, rc) | None => afterFailure saved end.

Lemma asked_answered s saved q : unanswered saved → answered (snd <$> asked s saved q) = answered (q_exchange q s).
Proof.
  unfold asked, unanswered. intros Hs. destruct (q_exchange q s); [done|]. by destruct (after_failure saved) as [->| ->].
Qed.

Lemma asked_response s saved q : answered (q_exchange q s) = true →
  (default ""%string (fst <$> asked s saved q), snd <$> asked s saved q) = (s, q_exchange q s).
Proof. unfold asked. by destruct (q_exchange q s). Qed.

Lemma respond_scope suffixes rc saved q :
  forallb (λ kv, dns_holds kv saved q) (conditions dnsActions
    ([("match_response", JBool true); ("response_rcode", JStr rc); ("action", JStr "respond")]%string ++ suffixField suffixes)) =
  inScope suffixes q && bool_decide (snd <$> saved = Some rc).
Proof.
  rewrite conditions_app, forallb_app, holds_scope, andb_comm. f_equal. apply holds_response.
Qed.

Lemma responds_scope suffixes rules final saved q :
  resolve ((respondRule (suffixField suffixes) <$> rcodes) ++ rules) final saved q =
    if inScope suffixes q && answered (snd <$> saved) then (default ""%string (fst <$> saved), snd <$> saved)
    else resolve rules final saved q.
Proof.
  apply resolve_responds. intros rc l Hin.
  apply list_elem_of_In in Hin as [[= <- <-]|[[= <- <-]|[]]]; (split; [apply respond_scope|done]).
Qed.

Lemma evaluate_scope suffixes (cache : bool) n saved q :
  forallb (λ kv, dns_holds kv saved q) (conditions dnsActions
    ([("action", JStr "evaluate"); ("server", JStr (dnsTag n)); ("timeout", JStr dnsPrimaryTimeout)]%string ++ suffixField suffixes ++
     if cache then [("disable_cache", JBool true); ("disable_optimistic_cache", JBool true)]%string else [])) = inScope suffixes q.
Proof.
  rewrite <- (holds_scope suffixes saved q). rewrite !conditions_app. destruct cache; cbn [conditions dnsActions List.filter existsb fst String.eqb Ascii.eqb Bool.eqb orb negb app]; by rewrite app_nil_r.
Qed.

Lemma final_scope suffixes (cache : bool) n saved q :
  forallb (λ kv, dns_holds kv saved q) (conditions dnsActions
    ([("server", JStr (dnsTag n)); ("timeout", JStr dnsFallbackTimeout)]%string ++ suffixField suffixes ++
     if cache then [("disable_cache", JBool true); ("disable_optimistic_cache", JBool true)]%string else [])) = inScope suffixes q.
Proof.
  rewrite <- (holds_scope suffixes saved q). rewrite !conditions_app. destruct cache; cbn [conditions dnsActions List.filter existsb fst String.eqb Ascii.eqb Bool.eqb orb negb app]; by rewrite app_nil_r.
Qed.

(** One server of a chain: it answers, or the rules go on. *)
Lemma resolve_evaluate suffixes cache n rules final saved q : unanswered saved → ∃ saved', unanswered saved' ∧
  resolve (scopeAndCache suffixes cache
       [("action", JStr "evaluate"); ("server", JStr (dnsTag n)); ("timeout", JStr dnsPrimaryTimeout)]%string ::
     (respondRule (suffixField suffixes) <$> rcodes) ++ rules) final saved q =
  if inScope suffixes q && answered (q_exchange q (dnsTag n)) then (dnsTag n, q_exchange q (dnsTag n))
  else resolve rules final saved' q.
Proof.
  intros Hs. unfold scopeAndCache. rewrite resolve_cons, evaluate_scope, !responds_scope.
  destruct (inScope suffixes q); cbn [andb]; [|by exists saved].
  destruct (answered (q_exchange q (dnsTag n))) eqn:Ea.
  - exists saved. split; [done|].
    change (match q_exchange q _ with Some rc => Some (_, rc) | None => afterFailure saved end) with (asked (dnsTag n) saved q).
    cbn [str_at field assoc app String.eqb Ascii.eqb Bool.eqb mbind option_bind asStr default from_option id].
    rewrite asked_answered, Ea by done. by apply asked_response.
  - exists (asked (dnsTag n) saved q). unfold unanswered. rewrite asked_answered by done. split; [done|].
    change (match q_exchange q _ with Some rc => Some (_, rc) | None => afterFailure saved end) with (asked (dnsTag n) saved q).
    cbn [str_at field assoc app String.eqb Ascii.eqb Bool.eqb mbind option_bind asStr default from_option id].
    by rewrite asked_answered, Ea.
Qed.

Lemma resolve_chain suffixes cache ns last rules final saved q : unanswered saved → ∃ saved', unanswered saved' ∧
  resolve (((ns ≫= λ n, scopeAndCache suffixes cache
        [("action", JStr "evaluate"); ("server", JStr (dnsTag n)); ("timeout", JStr dnsPrimaryTimeout)]%string ::
      (respondRule (suffixField suffixes) <$> rcodes)) ++
    [scopeAndCache suffixes cache [("server", JStr (dnsTag last)); ("timeout", JStr dnsFallbackTimeout)]%string]) ++ rules) final saved q =
  if inScope suffixes q then failover ((dnsTag <$> ns) ++ [dnsTag last]) q else resolve rules final saved' q.
Proof.
  revert saved. induction ns as [|n ns IH]; intros saved Hs.
  - exists saved. split; [done|]. change ([] ≫= _) with (@nil json). cbn [app]. unfold scopeAndCache. rewrite resolve_cons, final_scope.
    destruct (inScope suffixes q); [by destruct suffixes, cache|done].
  - rewrite bind_cons, <- !app_assoc, <- app_comm_cons.
    edestruct (resolve_evaluate suffixes cache n) as (s1 & Hs1 & ->); [done|].
    destruct (IH s1 Hs1) as (s2 & Hs2 & He). exists s2. split; [done|]. rewrite <- app_assoc in He. rewrite He.
    destruct (inScope suffixes q); cbn [andb]; [|done]. cbn [fmap list_fmap app].
    destruct (answered (q_exchange q (dnsTag n))) eqn:Ea.
    + destruct ((dnsTag <$> ns) ++ [dnsTag last]) eqn:El; [by destruct ns|]. cbn [failover]. by rewrite Ea.
    + destruct ((dnsTag <$> ns) ++ [dnsTag last]) eqn:El; [by destruct ns|]. cbn [failover]. by rewrite Ea.
Qed.

Lemma resolve_failover suffixes cache servers rules final saved q : unanswered saved → servers ≠ [] → ∃ saved', unanswered saved' ∧
  resolve (dnsFailoverRules servers suffixes cache ++ rules) final saved q =
  if inScope suffixes q then failover (dnsTag <$> seq 0 (length servers)) q else resolve rules final saved' q.
Proof.
  intros Hs Hn. replace (length servers) with (S (length servers - 1)) by (destruct servers; [done|cbn; lia]).
  rewrite seq_S, fmap_app. cbn [fmap list_fmap]. unfold dnsFailoverRules. replace (S (length servers - 1) - 1)%nat with (length servers - 1)%nat by lia.
  rewrite Nat.add_0_l. by apply resolve_chain.
Qed.

Lemma resolve_country country rules final saved q : unanswered saved → ∃ saved', unanswered saved' ∧
  resolve (countryDNSRules country ++ rules) final saved q =
  if inCountry q country then (directTag country, q_exchange q (directTag country)) else resolve rules final saved' q.
Proof.
  intros Hs. unfold countryDNSRules, inCountry. destruct (directResolver country) as [r|]; [|by exists saved].
  rewrite bool_decide_eq_true_2 by (by eexists). cbn [andb app fmap list_fmap rcodes].
  assert (Hset : ∀ s', dns_holds ("rule_set"%string, strs [geosite country]) s' q = q_inSet q (geosite country)).
  { intros s'. rewrite dns_set. cbn. by rewrite orb_false_r. }
  assert (Hr : ∀ s', resolve (JObj [("rule_set", strs [geosite country]); ("match_response", JBool true); ("response_rcode", JStr "NOERROR"); ("action", JStr "respond")]%string ::
      JObj [("rule_set", strs [geosite country]); ("match_response", JBool true); ("response_rcode", JStr "NXDOMAIN"); ("action", JStr "respond")]%string :: rules) final s' q =
    if q_inSet q (geosite country) && answered (snd <$> s') then (default ""%string (fst <$> s'), snd <$> s') else resolve rules final s' q).
  { intros s'. apply resolve_responds. intros rc l Hin.
    apply list_elem_of_In in Hin as [[= <- <-]|[[= <- <-]|[]]]; (split; [|done]);
      cbn [conditions dnsActions List.filter existsb fst String.eqb Ascii.eqb Bool.eqb orb negb forallb]; by rewrite Hset, holds_response. }
  rewrite resolve_cons, Hr. cbn [conditions dnsActions List.filter existsb fst String.eqb Ascii.eqb Bool.eqb orb negb forallb].
  rewrite Hset, andb_true_r. destruct (q_inSet q (geosite country)); cbn [andb]; [|exists saved; split; [done|]; by rewrite Hr].
  cbn [str_at field assoc String.eqb Ascii.eqb Bool.eqb mbind option_bind asStr default from_option id].
  change (match q_exchange q _ with Some rc => Some (_, rc) | None => afterFailure saved end) with (asked (directTag country) saved q).
  rewrite Hr. cbn [andb]. rewrite asked_answered by done. destruct (answered (q_exchange q (directTag country))) eqn:Ea.
  - exists saved. split; [done|]. by apply asked_response.
  - exists (asked (directTag country) saved q). unfold unanswered. by rewrite asked_answered, Ea.
Qed.

Lemma resolve_countries countries rules final saved q : unanswered saved → ∃ saved', unanswered saved' ∧
  resolve ((countries ≫= countryDNSRules) ++ rules) final saved q =
  match List.find (inCountry q) countries with
  | Some country => (directTag country, q_exchange q (directTag country))
  | None => resolve rules final saved' q
  end.
Proof.
  revert saved. induction countries as [|c cs IH]; intros saved Hs; [by exists saved|]. cbn [List.find]. rewrite bind_cons, <- app_assoc.
  edestruct (resolve_country c) as (s1 & Hs1 & ->); [done|]. destruct (inCountry q c); [by exists saved|]. by apply IH.
Qed.

Lemma resolve_rules i q : dnsServersOf i ≠ [] → probeSuffixesOf i ≠ [] →
  resolve (dnsRules i (dnsServersOf i) (probeSuffixesOf i)) (dnsTag (length (dnsServersOf i) - 1)) None q =
  if q_suffix q (probeSuffixesOf i) then failover (proxied i) q else
  match List.find (inCountry q) (bypassCountries i) with
  | Some country => (directTag country, q_exchange q (directTag country))
  | None => failover (proxied i) q
  end.
Proof.
  intros Hn Hp. unfold dnsRules.
  edestruct (resolve_failover (probeSuffixesOf i) true (dnsServersOf i)) as (s1 & Hs1 & ->); [done..|].
  replace (inScope (probeSuffixesOf i) q) with (q_suffix q (probeSuffixesOf i)) by (by destruct (probeSuffixesOf i)).
  destruct (q_suffix _ _); [done|]. edestruct (resolve_countries (bypassCountries i)) as (s2 & Hs2 & ->); [done|].
  destruct (List.find _ _); [done|].
  rewrite <- (app_nil_r (dnsFailoverRules _ [] false)). by edestruct (resolve_failover [] false (dnsServersOf i)) as (s3 & Hs3 & ->).
Qed.
End lookups.

(** ** References *)
Lemma dnsServersOf_nonempty i : dnsServersOf i ≠ [].
Proof. unfold dnsServersOf. by destruct (sb_DNSServers i). Qed.
Lemma probeSuffixesOf_nonempty i : probeSuffixesOf i ≠ [].
Proof. unfold probeSuffixesOf. by destruct (sb_ProbeDomainSuffixes i). Qed.

(** Adding the scope changes neither the server nor the rule sets of a rule. *)
Lemma scoped_refs suffixes cache l :
  str_at "server" (scopeAndCache suffixes cache l) = str_at "server" (JObj l) ∧
  strings_at "rule_set" (scopeAndCache suffixes cache l) = strings_at "rule_set" (JObj l).
Proof.
  unfold scopeAndCache, str_at, strings_at, items, field. induction l as [|[k v] l [IH1 IH2]]; [by destruct suffixes, cache|].
  cbn [app assoc]. split; [destruct (String.eqb "server" k); [done|apply IH1]|destruct (String.eqb "rule_set" k); [done|apply IH2]].
Qed.

Lemma failover_refs servers suffixes cache r : servers ≠ [] → r ∈ dnsFailoverRules servers suffixes cache →
  (∀ t, str_at "server" r = Some t → t ∈ dnsTag <$> seq 0 (length servers)) ∧ strings_at "rule_set" r = [].
Proof.
  intros Hn Hr. assert (0 < length servers)%nat by (destruct servers; [done|cbn; lia]).
  assert (Hin : ∀ n, (n < length servers)%nat → dnsTag n ∈ dnsTag <$> seq 0 (length servers)).
  { intros n Hlt. apply list_elem_of_fmap_2, elem_of_seq. lia. }
  apply elem_of_app in Hr as [(n & Hr & Hseq%elem_of_seq)%list_elem_of_bind|Hr%list_elem_of_singleton].
  - apply elem_of_cons in Hr as [->|Hr].
    + edestruct scoped_refs as [-> ->]. split; [|done]. intros t [= <-]. apply Hin. lia.
    + apply list_elem_of_In in Hr. by destruct suffixes, Hr as [<-|[<-|[]]].
  - subst r. edestruct scoped_refs as [-> ->]. split; [|done]. intros t [= <-]. apply Hin. lia.
Qed.

Lemma country_refs country r : r ∈ countryDNSRules country →
  (∀ t, str_at "server" r = Some t → t = directTag country ∧ is_Some (directResolver country)) ∧
  (∀ t, t ∈ strings_at "rule_set" r → t = geosite country).
Proof.
  unfold countryDNSRules. destruct (directResolver country) eqn:Ed; [|by intros ?%elem_of_nil].
  intros Hr%list_elem_of_In. destruct Hr as [<-|[<-|[<-|[]]]]; (split; [|by intros t ->%list_elem_of_singleton]); [|done..].
  intros t [= <-]. split; [done|by eexists].
Qed.

Definition ruleSets (countries : list string) : list string := countries ≫= λ c, [geosite c; geoip c].

Lemma elem_of_ruleSets c countries : c ∈ countries → geosite c ∈ ruleSets countries ∧ geoip c ∈ ruleSets countries.
Proof. intros Hc. split; apply list_elem_of_bind; exists c; (split; [|done]); [by left|right; by left]. Qed.

Lemma ruleSets_NoDup countries : NoDup countries → NoDup (ruleSets countries).
Proof.
  induction 1 as [|c cs Hc _ IH]; [constructor|]. unfold ruleSets. rewrite bind_cons. cbn [app].
  assert (Hfresh : ∀ f g : string → string, (∀ x y, f x = f y → x = y) → (∀ x y, f x ≠ g y) → f c ∉ cs ≫= λ c, [f c; g c]).
  { intros f g Hf Hg (d & Hd & Hin)%list_elem_of_bind. apply list_elem_of_In in Hd as [Hd|[Hd|[]]]; [|by eapply Hg].
    apply Hf in Hd as ->. done. }
  constructor; [intros [Heq|Hin]%elem_of_cons|constructor; [|done]].
  - unfold geosite, geoip in Heq. discriminate Heq.
  - revert Hin. apply Hfresh; [apply (inj (String.append "geosite-"))|]. intros x y Hxy. discriminate Hxy.
  - intros (d & Hd & Hin)%list_elem_of_bind. apply list_elem_of_In in Hd as [Hd|[Hd|[]]]; [discriminate Hd|].
    apply (inj (String.append "geoip-")) in Hd as ->. done.
Qed.

Lemma serverTags_document i inb : serverTags (document i inb) =
  (dnsTag <$> seq 0 (length (dnsServersOf i))) ++
  match sb_DNSShape i with DNSShapeTCPProxied => [] | DNSShapeDoHFailover => directTags (bypassCountries i) end.
Proof.
  unfold serverTags. change (dnsOf (document i inb)) with (buildDNSConfig i (dnsServersOf i) (probeSuffixesOf i)).
  unfold buildDNSConfig. destruct (sb_DNSShape i).
  - rewrite app_nil_r. by apply tags_imap.
  - change (items "servers" _) with (dohServerObjects (dnsServersOf i) ++ directServerObjects (bypassCountries i)).
    rewrite tags_app, tags_direct. f_equal. by apply tags_imap.
Qed.

Lemma ruleSetTags_document i inb : ruleSetTags (document i inb) = ruleSets (bypassCountries i).
Proof.
  unfold ruleSetTags. change (routeOf (document i inb)) with (buildRouteConfig i (probeSuffixesOf i)).
  unfold buildRouteConfig, ruleSetField, bypassCountries.
  assert (Hs : ∀ dir cs, tags (cs ≫= λ c, [localRuleSetObject dir (geosite c); localRuleSetObject dir (geoip c)]) = ruleSets cs).
  { intros dir cs. induction cs as [|c cs IH]; [done|]. unfold ruleSets. rewrite !bind_cons, tags_app, IH. done. }
  destruct (sb_SplitTunnel i) as [rules|]; [|by destruct (sb_RouteFindProcess i)].
  destruct (st_BypassCountries rules) as [|c cs] eqn:Ec; [by destruct (sb_RouteFindProcess i)|].
  rewrite <- (Hs (st_RuleSetDirectory rules)). by destruct (sb_RouteFindProcess i).
Qed.

Lemma route_refs i probes r : r ∈ routeRules i probes →
  (∀ t, str_at "outbound" r = Some t → t = "proxy"%string ∨ t = "direct"%string) ∧
  (∀ t, t ∈ strings_at "rule_set" r → t ∈ ruleSets (bypassCountries i)).
Proof.
  unfold routeRules. rewrite !elem_of_app. intros [Hr|[Hr|[Hr|[Hr|Hr]]]].
  - by apply list_elem_of_In in Hr as [<-|[<-|[]]]; (split; [|intros ? ?%elem_of_nil]).
  - destruct (bypassCountries i); [by apply elem_of_nil in Hr|].
    apply list_elem_of_In in Hr as [<-|[<-|[]]]; (split; [|by intros ? ?%elem_of_nil]); [done|]. intros t [= <-]. by left.
  - destruct (bypassLAN i); [|by apply elem_of_nil in Hr]. apply list_elem_of_singleton in Hr as ->.
    split; [|by intros ? ?%elem_of_nil]. intros t [= <-]. by right.
  - apply list_elem_of_fmap in Hr as (c & -> & Hc). split; [intros t [= <-]; by right|].
    intros t Ht%list_elem_of_In. destruct (elem_of_ruleSets _ _ Hc). by destruct Ht as [<-|[<-|[]]].
  - apply list_elem_of_singleton in Hr as ->. by split; [|intros ? ?%elem_of_nil].
Qed.

(** The resolvers of a document: what each detours through. *)
Definition servers (i : SingBoxConfigInput) : list json := items "servers" (buildDNSConfig i (dnsServersOf i) (probeSuffixesOf i)).

Lemma server_refs i s : s ∈ servers i →
  (str_at "detour" s = Some "proxy"%string ∧ ∃ n, (n < length (dnsServersOf i))%nat ∧ str_at "tag" s = Some (dnsTag n)) ∨
  str_at "detour" s = None ∧ str_at "type" s = Some "https"%string ∧ sb_DNSShape i = DNSShapeDoHFailover ∧
    ∃ c, c ∈ bypassCountries i ∧ is_Some (directResolver c) ∧ str_at "tag" s = Some (directTag c).
Proof.
  unfold servers, buildDNSConfig. destruct (sb_DNSShape i); cbn [items field assoc app String.eqb Ascii.eqb Bool.eqb].
  - intros (n & x & -> & Hx)%elem_of_lookup_imap_1. left. split; [done|]. exists n. split; [by eapply lookup_lt_Some|done].
  - intros [(n & x & -> & Hx)%elem_of_lookup_imap_1|(c & Hc & Hs)%list_elem_of_omap]%elem_of_app.
    + left. split; [done|]. exists n. split; [by eapply lookup_lt_Some|done].
    + right. destruct (directResolver c) eqn:Er; [|done]. injection Hs as <-. split_and!; try done. exists c. split_and!; [done|by eexists|done].
Qed.

Lemma dns_refs i inb r : r ∈ items "rules" (dnsOf (document i inb)) →
  (∀ t, str_at "server" r = Some t → t ∈ serverTags (document i inb)) ∧
  (∀ t, t ∈ strings_at "rule_set" r → t ∈ ruleSetTags (document i inb)).
Proof.
  change (dnsOf (document i inb)) with (buildDNSConfig i (dnsServersOf i) (probeSuffixesOf i)).
  rewrite serverTags_document, ruleSetTags_document. unfold buildDNSConfig, strategyField. destruct (sb_DNSShape i).
  { destruct (str_empty _); by intros ?%elem_of_nil. }
  change (items "rules" _) with (dnsRules i (dnsServersOf i) (probeSuffixesOf i)). unfold dnsRules. rewrite !elem_of_app.
  intros [Hr|[(c & Hr & Hc)%list_elem_of_bind|Hr]].
  - apply failover_refs in Hr as [Hs ->]; [|apply dnsServersOf_nonempty]. split; [|by intros ? ?%elem_of_nil].
    intros t Ht. apply elem_of_app. left. by apply Hs.
  - apply country_refs in Hr as [Hs Hset]. split.
    + intros t Ht. destruct (Hs t Ht) as [-> Hd]. apply elem_of_app. right. apply elem_of_directTags. by exists c.
    + intros t ->%Hset. by apply elem_of_ruleSets.
  - apply failover_refs in Hr as [Hs ->]; [|apply dnsServersOf_nonempty]. split; [|by intros ? ?%elem_of_nil].
    intros t Ht. apply elem_of_app. left. by apply Hs.
Qed.

Lemma dnsServersOf_indexed i : indexed (sb_DNSServers i) → indexed (dnsServersOf i).
Proof. unfold indexed, dnsServersOf. destruct (sb_DNSServers i); [|done]. intros _. unfold int64_max. cbn. lia. Qed.

Lemma proxied_tag i n : (n < length (dnsServersOf i))%nat → dnsTag n ∈ proxied i.
Proof. intros Hn. apply list_elem_of_fmap_2, elem_of_seq. lia. Qed.

Lemma failover_in l q : l ≠ [] → (failover l q).1 ∈ l.
Proof.
  induction l as [|s [|s' l] IH]; intros Hn; [done|by left|]. change (failover (s :: s' :: l) q) with
    (if answered (q_exchange q s) then (s, q_exchange q s) else failover (s' :: l) q).
  destruct (answered _); [by left|]. right. by apply IH.
Qed.

(** A failover fails only when every resolver does. *)
Lemma failover_fails l q : answered (failover l q).2 = false → ∀ s, s ∈ l → answered (q_exchange q s) = false.
Proof.
  induction l as [|s [|s' l] IH]; [by intros _ s ?%elem_of_nil|by intros Hf x ->%list_elem_of_singleton|].
  change (failover (s :: s' :: l) q) with (if answered (q_exchange q s) then (s, q_exchange q s) else failover (s' :: l) q).
  destruct (answered (q_exchange q s)) eqn:E; [cbn; congruence|]. intros Hf x [->|Hx]%elem_of_cons; [done|by apply IH].
Qed.

(** * What a configuration does *)
(** C37: sing-box can start what the client builds: in a built document every
    outbound, resolver and rule set that a rule, a resolver, a default or a
    final names is declared, and none is declared twice. *)
Theorem config_closed i cfg : indexed (sb_DNSServers i) → BuildSingBoxConfig i = Ok cfg → closed cfg.
Proof.
  intros Hidx (Hchk & inb & _ & ->)%build_inv. destruct (checked_countries i Hchk) as (Hnd & _ & Hshape).
  assert (Hlen : Z.of_nat (length (dnsServersOf i)) ≤ int64_max) by (by apply dnsServersOf_indexed).
  assert (0 < length (dnsServersOf i))%nat as Hpos by (pose proof (dnsServersOf_nonempty i); destruct (dnsServersOf i); [done|cbn; lia]).
  split; change (outboundTags (document i inb)) with ["proxy"; "direct"; "block"]%string;
    change (routeOf (document i inb)) with (buildRouteConfig i (probeSuffixesOf i)).
  - repeat constructor; cbv; intros H; by repeat (apply elem_of_cons in H as [H|H]; [discriminate H|]); apply elem_of_nil in H.
  - rewrite serverTags_document. apply NoDup_app. split; [by apply dnsTags_distinct|]. split.
    + intros t (n & -> & Hseq%elem_of_seq)%list_elem_of_fmap Ht. destruct (sb_DNSShape i); [by apply elem_of_nil in Ht|].
      apply elem_of_directTags in Ht as (c & _ & _ & Ht). apply dnsTag_not_direct in Ht; [done|lia].
    + destruct (sb_DNSShape i); [constructor|by apply directTags_distinct].
  - rewrite ruleSetTags_document. by apply ruleSets_NoDup.
  - intros s t Hs Ht. destruct (server_refs i s Hs) as [[Hd _]|[Hd _]]; rewrite Hd in Ht; [injection Ht as <-; by left|done].
  - intros r t Hr. by apply dns_refs.
  - intros r t Hr. by apply dns_refs.
  - rewrite serverTags_document. change (dnsOf (document i inb)) with (buildDNSConfig i (dnsServersOf i) (probeSuffixesOf i)).
    unfold buildDNSConfig. destruct (sb_DNSShape i); eexists; (split; [reflexivity|]); apply elem_of_app; left;
      [by apply (proxied_tag i 0)|apply proxied_tag; lia].
  - intros r t Hr Ht. destruct (route_refs i _ r Hr) as [Ho _]. destruct (Ho t Ht) as [-> | ->]; [by left|right; by left].
  - intros r t Hr Ht. rewrite ruleSetTags_document. destruct (route_refs i _ r Hr) as [_ Hs]. by apply Hs.
  - eexists; split; [reflexivity|by left].
  - eexists; split; [reflexivity|]. rewrite serverTags_document. apply elem_of_app. left. by apply (proxied_tag i 0).
Qed.

(** C6: flows go where the user wants them: through the rules of any built
    document sing-box hijacks DNS, sends probes through the tunnel, sends
    around it only private destinations and countries the user bypasses,
    refuses QUIC, and sends the rest through the tunnel. *)
Theorem routes_as_promised `{RouteEngine} i cfg f : BuildSingBoxConfig i = Ok cfg →
  route (items "rules" (routeOf cfg)) (default ""%string (str_at "final" (routeOf cfg))) f = policy i f.
Proof. intros (_ & inb & _ & ->)%build_inv. apply route_rules. Qed.

(** C11: where lookups go.  In a document of the failover shape, mobile's, a
    lookup of a bypassed domain is answered by the country's resolver if that
    answers, a probe's never, and otherwise the proxied resolvers are asked in
    turn, so that a lookup fails only when all of them do.  A document of the
    TCP shape, which every desktop candidate has, asks its first resolver and no
    other, whether it answers or not.  In both a resolver outside the tunnel
    answers only lookups of bypassed domains that are no probe's, over HTTPS. *)
Theorem lookups_fail_over `{DNSEngine} i cfg q : indexed (sb_DNSServers i) → BuildSingBoxConfig i = Ok cfg →
  let answer := resolve (items "rules" (dnsOf cfg)) (default ""%string (str_at "final" (dnsOf cfg))) None q in
  (sb_DNSShape i = DNSShapeDoHFailover →
     answer = match (if q_suffix q (probeSuffixesOf i) then None else List.find (inCountry q) (bypassCountries i)) with
              | Some country => (directTag country, q_exchange q (directTag country))
              | None => failover (proxied i) q
              end ∧
     (answered answer.2 = false → ∀ s, s ∈ proxied i → answered (q_exchange q s) = false)) ∧
  (sb_DNSShape i = DNSShapeTCPProxied → answer = (dnsTag 0, q_exchange q (dnsTag 0))) ∧
  ∀ s, s ∈ items "servers" (dnsOf cfg) → str_at "tag" s = Some answer.1 →
    str_at "detour" s = Some "proxy"%string ∨
    str_at "type" s = Some "https"%string ∧ q_suffix q (probeSuffixesOf i) = false ∧
    ∃ c, c ∈ bypassCountries i ∧ q_inSet q (geosite c) = true.
Proof.
  intros Hidx (_ & inb & _ & ->)%build_inv answer.
  assert (Ha : answer = lookupPolicy i q).
  { subst answer. change (dnsOf (document i inb)) with (buildDNSConfig i (dnsServersOf i) (probeSuffixesOf i)).
    unfold buildDNSConfig, lookupPolicy, strategyField. destruct (sb_DNSShape i).
    - destruct (str_empty _); apply resolve_nil.
    - change (items "rules" _) with (dnsRules i (dnsServersOf i) (probeSuffixesOf i)).
      apply resolve_rules; [apply dnsServersOf_nonempty|apply probeSuffixesOf_nonempty]. }
  rewrite Ha. clear answer Ha. split_and!.
  { intros Hsh. unfold lookupPolicy. rewrite Hsh. destruct (q_suffix _ _); [split; [done|apply failover_fails]|].
    destruct (List.find _ _) as [c|] eqn:Ef; [|split; [done|apply failover_fails]].
    apply find_some in Ef as [_ Hc]. split; [done|]. unfold inCountry in Hc. apply andb_true_iff in Hc as [_ Hc]. cbn [snd]. congruence. }
  { intros Hsh. unfold lookupPolicy. by rewrite Hsh. }
  intros s Hs Ht.
  destruct (server_refs i s Hs) as [[Hd _]|(_ & Hty & Hsh & c & Hc & _ & Htag)]; [by left|right]. split; [done|].
  rewrite Htag in Ht. injection Ht as Ht. unfold lookupPolicy in Ht. rewrite Hsh in Ht.
  assert (Hno : (failover (proxied i) q).1 ≠ directTag c).
  { intros Heq. assert (Hin : (failover (proxied i) q).1 ∈ proxied i).
    { apply failover_in. unfold proxied. pose proof (dnsServersOf_nonempty i). by destruct (dnsServersOf i). }
    rewrite Heq in Hin. apply list_elem_of_fmap in Hin as (n & Hn & Hseq%elem_of_seq).
    pose proof (dnsServersOf_indexed i Hidx) as Hi. unfold indexed in Hi. symmetry in Hn. apply dnsTag_not_direct in Hn; [done|lia]. }
  destruct (q_suffix _ _); [by destruct Hno|]. split; [done|].
  destruct (List.find _ _) as [d|] eqn:Ef; [|by destruct Hno]. cbn in Ht. apply directTag_inj in Ht. subst d.
  apply find_some in Ef as [Hin Hic]. exists c. split; [by apply list_elem_of_In|]. unfold inCountry in Hic.
  destruct (q_inSet q (geosite c)); [done|]. by rewrite andb_false_r in Hic.
Qed.

(** * The candidates of the desktop client (connectcore/engine.go)

    The ladder's own record has the fields the engine sets; the others keep
    their zero values. *)
Definition ofCandidate (c : Ladder.SingBoxConfigInput) : SingBoxConfigInput :=
  {| sb_Relay := ciRelay c; sb_TunnelIPv4Address := ""; sb_TunnelIPv6Address := ""; sb_DNSServers := ciDNSServers c;
     sb_MTU := ciMTU c; sb_Mode := if ciTUN c then ModeTUN else ModeProxy;
     sb_ProxyListenAddress := ciProxyListenAddress c; sb_ProxyListenPort := ciProxyListenPort c;
     sb_BridgeHost := ciBridgeHost c; sb_BridgePort := ciBridgePort c;
     sb_PunchPeerExcludeAddress := ciPunchPeerExcludeAddress c; sb_BridgeOwnsOuterSocket := false; sb_LogLevel := "";
     sb_DNSShape := DNSShapeTCPProxied; sb_ProbeDomainSuffixes := []; sb_SplitTunnel := None; sb_RouteFindProcess := false;
     sb_ClashAPI := false; sb_DNSStrategy := ciDNSStrategy c; sb_IPv6Disabled := ciIPv6Disabled c |}.

(** The input of one candidate, over its punched path or its WSS adapter if it
    has one. *)
Definition candidateInput (cfg : EngineConfig) (cand : RelayDescriptor) (port : Z) (bridge : option (string * Z * string)) : SingBoxConfigInput :=
  let base := candidateConfigInput cfg cand port in
  ofCandidate (match bridge with Some (host, bport, peer) => withBridge base host bport peer | None => base end).

(** ** The mobile host *)
Record MobileTunnelSettings := {
  mt_TunnelIPv4Address : string;
  mt_TunnelIPv6Address : string;
  mt_DNSServers : list string;
  mt_MTU : Z;
  mt_LogLevel : string;
  mt_ProbeDomainSuffixes : list string;
  mt_SplitTunnel : option SplitTunnelRules;
  mt_RouteFindProcess : bool;
  mt_ClashAPI : bool
}.

Inductive mobileError :=
| MErrHost | MErrSettings | MErrContext | MErrDNSAddress | MErrIPv6Prefix | MErrLogLevel
| MErrBuild (e : buildError) | MErrPreflight.

(** What the host answers: its wiring ([validateMobile]), its settings, whether
    the context has ended at the three places the code asks, and what the core
    says of a document. *)
Record mobileWorld := {
  mw_valid : bool;
  mw_Settings : option MobileTunnelSettings;
  mw_ctxErr : nat → bool;
  mw_Preflight : json → bool
}.

Definition withSettings (m : MobileTunnelSettings) (i : SingBoxConfigInput) : SingBoxConfigInput :=
  {| sb_Relay := sb_Relay i; sb_TunnelIPv4Address := mt_TunnelIPv4Address m; sb_TunnelIPv6Address := mt_TunnelIPv6Address m;
     sb_DNSServers := mt_DNSServers m; sb_MTU := mt_MTU m; sb_Mode := sb_Mode i;
     sb_ProxyListenAddress := sb_ProxyListenAddress i; sb_ProxyListenPort := sb_ProxyListenPort i;
     sb_BridgeHost := sb_BridgeHost i; sb_BridgePort := sb_BridgePort i;
     sb_PunchPeerExcludeAddress := sb_PunchPeerExcludeAddress i; sb_BridgeOwnsOuterSocket := true; sb_LogLevel := mt_LogLevel m;
     sb_DNSShape := DNSShapeDoHFailover; sb_ProbeDomainSuffixes := mt_ProbeDomainSuffixes m; sb_SplitTunnel := match mt_SplitTunnel m with Some rules => Some rules | None => sb_SplitTunnel i end;
     sb_RouteFindProcess := mt_RouteFindProcess m; sb_ClashAPI := mt_ClashAPI m; sb_DNSStrategy := sb_DNSStrategy i;
     sb_IPv6Disabled := sb_IPv6Disabled i |}.
Definition overBridge (host : string) (port : Z) (i : SingBoxConfigInput) : SingBoxConfigInput :=
  {| sb_Relay := sb_Relay i; sb_TunnelIPv4Address := sb_TunnelIPv4Address i; sb_TunnelIPv6Address := sb_TunnelIPv6Address i;
     sb_DNSServers := sb_DNSServers i; sb_MTU := sb_MTU i; sb_Mode := sb_Mode i;
     sb_ProxyListenAddress := sb_ProxyListenAddress i; sb_ProxyListenPort := sb_ProxyListenPort i;
     sb_BridgeHost := host; sb_BridgePort := port;
     sb_PunchPeerExcludeAddress := sb_PunchPeerExcludeAddress i; sb_BridgeOwnsOuterSocket := sb_BridgeOwnsOuterSocket i;
     sb_LogLevel := sb_LogLevel i; sb_DNSShape := sb_DNSShape i; sb_ProbeDomainSuffixes := sb_ProbeDomainSuffixes i;
     sb_SplitTunnel := sb_SplitTunnel i; sb_RouteFindProcess := sb_RouteFindProcess i; sb_ClashAPI := sb_ClashAPI i;
     sb_DNSStrategy := sb_DNSStrategy i; sb_IPv6Disabled := sb_IPv6Disabled i |}.

Definition mobileIPv6 (address : string) : bool :=
  str_empty address ||
  match ParsePrefix address with Some p => match prefixAddr p with V6 _ _ => true | V4 _ => false end | None => false end.
Definition mobileLogLevel (level : string) : bool :=
  bool_decide (level ∈ [""; "trace"; "debug"; "info"; "warn"; "error"; "fatal"; "panic"]%string).

(** One turn of the loop over the direct and the bridged shape. *)
Definition preflight (w : mobileWorld) (turn : nat) (check : SingBoxConfigInput) : option mobileError :=
  match BuildSingBoxConfig check with
  | Err e => Some (MErrBuild e)
  | Ok config =>
      if negb (mw_Preflight w config) then Some MErrPreflight else
      if mw_ctxErr w turn then Some MErrContext else None
  end.

Definition mobileConfig (w : mobileWorld) (input : SingBoxConfigInput) : result mobileError SingBoxConfigInput :=
  if negb (mw_valid w) then Err MErrHost else
  match mw_Settings w with
  | None => Err MErrSettings
  | Some settings =>
      if mw_ctxErr w 0 then Err MErrContext else
      let input := withSettings settings input in
      match TunnelDNSAddress (orDefault (sb_TunnelIPv4Address input) DefaultTunnelIPv4Address) with
      | None => Err MErrDNSAddress
      | Some _ =>
          if negb (mobileIPv6 (sb_TunnelIPv6Address input)) then Err MErrIPv6Prefix else
          if negb (mobileLogLevel (sb_LogLevel input)) then Err MErrLogLevel else
          match preflight w 1 input with Some e => Err e | None =>
          match preflight w 2 (overBridge "127.0.0.1" 1 input) with Some e => Err e | None =>
          Ok input end end
      end
  end.

(** Whether a document is built does not depend on the path: what the mobile
    host accepted for one candidate builds over every bridge, in the failover
    shape of its DNS, and its tunnel has a resolver to hijack. *)
Lemma mobile_builds w input i : mobileConfig w input = Ok i →
  sb_Relay i = sb_Relay input ∧ sb_Mode i = sb_Mode input ∧ sb_DNSShape i = DNSShapeDoHFailover ∧ sb_BridgeOwnsOuterSocket i = true ∧
  is_Some (TunnelDNSAddress (orDefault (sb_TunnelIPv4Address i) DefaultTunnelIPv4Address)) ∧
  (∃ cfg, BuildSingBoxConfig i = Ok cfg ∧ mw_Preflight w cfg = true) ∧
  ∀ host port, is_ok (BuildSingBoxConfig (overBridge host port i)) = true.
Proof.
  unfold mobileConfig. destruct (mw_valid w); [|done]. destruct (mw_Settings w) as [m|]; [|done]. cbn [negb].
  destruct (mw_ctxErr w 0); [done|]. cbn zeta. set (i0 := withSettings m input).
  destruct (TunnelDNSAddress _) eqn:Ed; [|done]. destruct (mobileIPv6 _); [|done]. destruct (mobileLogLevel _); [|done]. cbn [negb].
  unfold preflight at 1. destruct (BuildSingBoxConfig i0) as [cfg|] eqn:Eb; [|done].
  destruct (mw_Preflight w cfg) eqn:Ep; [|done]. cbn [negb]. destruct (mw_ctxErr w 1); [done|].
  destruct (preflight w 2 _); [done|]. intros [= <-]. split_and!; try done; [by exists cfg|].
  intros host port. unfold BuildSingBoxConfig in *.
  change (checkInput (overBridge host port i0)) with (checkInput i0). destruct (checkInput i0); [done|].
  unfold buildInbound in *. cbn [overBridge sb_Mode sb_ProxyListenPort sb_ProxyListenAddress] in *.
  destruct (sb_Mode i0); try done. by destruct (sb_ProxyListenPort i0 <=? 0).
Qed.

Lemma usable_validates cand now : IsUsableRelay cand now = true → validateRelayForConfig cand = None.
Proof.
  unfold IsUsableRelay, validateRelayForConfig. rewrite !andb_true_iff. intros ((((-> & ->) & ->) & _) & ->). done.
Qed.

Lemma candidate_checks cfg cand now port bridge : IsUsableRelay cand now = true → (tunMode cfg = true → 0 ≤ TunnelMTU cfg) →
  checkInput (candidateInput cfg cand port bridge) = None.
Proof.
  intros Hu Hm. unfold checkInput.
  replace (sb_Relay _) with cand by (by destruct bridge as [[[]]|]). rewrite (usable_validates _ _ Hu).
  replace (validateSplitTunnel _) with (@None buildError) by (by destruct bridge as [[[]]|]).
  replace (validateDNSStrategy _) with (@None buildError) by (by destruct bridge as [[[]]|]; cbn; destruct (tunnelDNSIPv6Disabled cfg)).
  replace (sb_DNSShape _) with DNSShapeTCPProxied by (by destruct bridge as [[[]]|]).
  rewrite bool_decide_eq_false_2 by done.
  replace (sb_MTU _) with (if tunMode cfg then TunnelMTU cfg else 0) by (by destruct bridge as [[[]]|]).
  rewrite (proj2 (Z.ltb_ge _ _)); [done|]. destruct (tunMode cfg); [auto|lia].
Qed.

Lemma strings_strs (l : list string) : omap asStr (JStr <$> l) = l.
Proof. induction l as [|x l IH]; [done|]. cbn. by f_equal. Qed.

Lemma elem_of_excludeAddresses i a : a ∈ excludeAddresses i ↔
  a ≠ ""%string ∧ (a = relayRouteExcludeAddress (rd_PublicHost (sb_Relay i)) ∨ a = relayRouteExcludeAddress (sb_PunchPeerExcludeAddress i)).
Proof.
  unfold excludeAddresses. rewrite elem_of_filter_bool. unfold str_empty. rewrite negb_true_iff, bool_decide_eq_false.
  cbn [fmap list_fmap]. rewrite !elem_of_cons, elem_of_nil. tauto.
Qed.

(** The inbound of an input without split tunnelling. *)
Lemma plain_inbound i ipv4 ipv6 mtu : sb_SplitTunnel i = None → sb_BridgeOwnsOuterSocket i = false →
  (sb_Mode i = ModeProxy → 0 < sb_ProxyListenPort i) → ∃ inbound, buildInbound i ipv4 ipv6 mtu = Ok inbound ∧
  strings_at "route_exclude_address" inbound = match sb_Mode i with ModeTUN => excludeAddresses i | ModeProxy => [] end.
Proof.
  intros Hs Hb Hp. unfold buildInbound, tunInbound. rewrite Hs, Hb. cbn [andb]. destruct (sb_Mode i).
  - eexists. split; [done|]. destruct (excludeAddresses i) as [|a l]; [done|]. exact (strings_strs (a :: l)).
  - rewrite (proj2 (Z.leb_gt _ _)) by auto. by eexists.
Qed.

Lemma candidate_excludes cfg cand port bridge a : a ∈ excludeAddresses (candidateInput cfg cand port bridge) ↔
  a ≠ ""%string ∧ (a = relayRouteExcludeAddress (rd_PublicHost cand) ∨
     ∃ host bport peer, bridge = Some (host, bport, peer) ∧ a = relayRouteExcludeAddress peer).
Proof.
  rewrite elem_of_excludeAddresses. destruct bridge as [[[host bport] peer]|]; cbn.
  - split; intros [Ha [H|H]]; (split; [done|]); auto; [right; by exists host, bport, peer|]. by destruct H as (? & ? & ? & [= <- <- <-] & ->); right.
  - change (relayRouteExcludeAddress "") with ""%string. split; intros [Ha [H|H]]; (split; [done|]); auto; [done|]. by destruct H as (? & ? & ? & ? & _).
Qed.

(** C29: every candidate the ladder tries gets a whole tunnel: the document
    builds, its outbound dials the relay or the local end of the bridge, with
    a TUN the addresses kept outside it are the relay's and the punched peer's
    and nothing else, and no flow goes around it: DNS is hijacked, QUIC refused
    and the rest sent through the relay. *)
Theorem candidate_tunnel `{RouteEngine} cfg cand now port bridge :
  IsUsableRelay cand now = true → (if tunMode cfg then 0 ≤ TunnelMTU cfg else 0 < port) →
  let i := candidateInput cfg cand port bridge in
  ∃ inbound outbound rest doc, BuildSingBoxConfig i = Ok doc ∧
    items "inbounds" doc = [inbound] ∧ items "outbounds" doc = outbound :: rest ∧
    (str_at "tag" outbound = Some "proxy"%string ∧ field "uuid" outbound = Some (JStr (rd_ClientID cand)) ∧
     match bridge with
     | Some (host, bport, _) => host ≠ ""%string → 0 < bport → field "server" outbound = Some (JStr host) ∧ field "server_port" outbound = Some (JNum bport)
     | None => field "server" outbound = Some (JStr (rd_PublicHost cand)) ∧ field "server_port" outbound = Some (JNum (rd_PublicPort cand))
     end) ∧
    (∀ a, a ∈ strings_at "route_exclude_address" inbound ↔
       tunMode cfg = true ∧ a ≠ ""%string ∧
       (a = relayRouteExcludeAddress (rd_PublicHost cand) ∨
        ∃ host bport peer, bridge = Some (host, bport, peer) ∧ a = relayRouteExcludeAddress peer)) ∧
    ∀ f, route (items "rules" (routeOf doc)) (default ""%string (str_at "final" (routeOf doc))) f =
      if str_eqb (fl_protocol f) "dns" || (fl_port f =? 53) then Hijacked
      else if str_eqb (fl_network f) "udp" && (fl_port f =? 443) then Rejected else Via "proxy".
Proof.
  intros Hu Hm i. subst i. set (i := candidateInput cfg cand port bridge).
  assert (Hc : checkInput i = None) by (apply (candidate_checks _ _ now); [done|]; intros E; by rewrite E in Hm).
  edestruct (plain_inbound i) as (inbound & Hin & Hex); [by destruct bridge as [[[]]|].. | |].
  { intros Hp. assert (tunMode cfg = false ∧ sb_ProxyListenPort i = port) as [E ->]; [|by rewrite E in Hm].
    subst i. destruct bridge as [[[]]|]; cbn in *; by destruct (tunMode cfg). }
  eexists inbound, _, _, (document i inbound). unfold BuildSingBoxConfig. rewrite Hc, Hin.
  split; [done|]. split; [done|]. split; [reflexivity|]. split_and!.
  - done.
  - by destruct bridge as [[[]]|].
  - destruct bridge as [[[host bport] peer]|]; [|done]. intros Hh Hb. unfold serverOf.
    replace (bridged i) with true; [done|]. unfold bridged. cbn. unfold str_empty. by rewrite bool_decide_eq_false_2, (proj2 (Z.ltb_lt _ _)).
  - intros a. rewrite Hex. replace (sb_Mode i) with (if tunMode cfg then ModeTUN else ModeProxy) by (by destruct bridge as [[[]]|]).
    pose proof (candidate_excludes cfg cand port bridge a) as He. fold i in He. destruct (tunMode cfg); [tauto|]. split; [by intros ?%elem_of_nil|by intros [? _]].
  - intros f. change (route _ _ f) with (route (routeRules i (probeSuffixesOf i)) "proxy" f). rewrite route_rules.
    replace (bypassCountries i) with (@nil string) by (by destruct bridge as [[[]]|]).
    replace (bypassLAN i) with false by (by destruct bridge as [[[]]|]). done.
Qed.

(** * An engine that behaves as documented *)
Section examples.
#[local] Open Scope string_scope.

Definition heldBy (kv : string * json) (f : flow) : bool :=
  match kv with
  | (k, JStr s) => if String.eqb k "protocol" then str_eqb (fl_protocol f) s else if String.eqb k "network" then str_eqb (fl_network f) s else false
  | (k, JNum n) => String.eqb k "port" && (fl_port f =? n)%Z
  | (k, JBool b) => String.eqb k "ip_is_private" && fl_private f
  | (k, JArr l) => if String.eqb k "domain_suffix" then fl_suffix f (omap asStr l)
                   else if String.eqb k "rule_set" then existsb (fl_inSet f) (omap asStr l) else false
  | _ => false
  end.

Fixpoint firstMatch (rules : list json) (final : string) (f : flow) : verdict :=
  match rules with
  | [] => Via final
  | JObj l :: rest =>
      if forallb (λ kv, heldBy kv f) (conditions routeActions l) then default (firstMatch rest final f) (decision l)
      else firstMatch rest final f
  | _ :: rest => firstMatch rest final f
  end.

#[local] Instance exampleRouter : RouteEngine.
Proof.
  refine {| holds := heldBy; route := firstMatch |}; try reflexivity.
  - intros l f. cbn. by rewrite strings_strs.
  - intros l f. cbn. by rewrite strings_strs.
Defined.

Definition lookupHeld (kv : string * json) (saved : option (string * string)) (q : query) : bool :=
  match kv with
  | (k, JArr l) => if String.eqb k "domain_suffix" then q_suffix q (omap asStr l)
                   else if String.eqb k "rule_set" then existsb (q_inSet q) (omap asStr l) else false
  | (k, JBool _) => String.eqb k "match_response" && bool_decide (is_Some saved)
  | (k, JStr rc) => String.eqb k "response_rcode" && bool_decide (snd <$> saved = Some rc)
  | _ => false
  end.

Fixpoint runRules (rules : list json) (final : string) (saved : option (string * string)) (q : query) : string * option string :=
  match rules with
  | [] => (final, q_exchange q final)
  | JObj l :: rest =>
      if forallb (λ kv, lookupHeld kv saved q) (conditions dnsActions l) then
        match str_at "action" (JObj l), str_at "server" (JObj l) with
        | Some a, server =>
            if String.eqb a "evaluate" then
              let s := default "" server in
              runRules rest final (match q_exchange q s with Some rc => Some (s, rc) | None => None end) q
            else match saved with Some (s, rc) => (s, Some rc) | None => runRules rest final saved q end
        | None, Some s => (s, q_exchange q s)
        | None, None => runRules rest final saved q
        end
      else runRules rest final saved q
  | _ :: rest => runRules rest final saved q
  end.

#[local] Instance exampleResolver : DNSEngine.
Proof.
  refine {| dns_holds := lookupHeld; resolve := runRules; afterFailure := λ _, None |}; try reflexivity.
  - intros saved. by left.
  - intros l saved q. cbn. by rewrite strings_strs.
  - intros l saved q. cbn. by rewrite strings_strs.
Defined.

(** A mobile client that bypasses its LAN and both countries. *)
Definition exampleSplit : SingBoxConfigInput :=
  {| sb_Relay := Directory.exampleRelay "relay-a"; sb_TunnelIPv4Address := ""; sb_TunnelIPv6Address := ""; sb_DNSServers := [];
     sb_MTU := 1400; sb_Mode := ModeTUN; sb_ProxyListenAddress := ""; sb_ProxyListenPort := 0; sb_BridgeHost := ""; sb_BridgePort := 0;
     sb_PunchPeerExcludeAddress := ""; sb_BridgeOwnsOuterSocket := true; sb_LogLevel := "warn"; sb_DNSShape := DNSShapeDoHFailover;
     sb_ProbeDomainSuffixes := [];
     sb_SplitTunnel := Some {| st_BypassLAN := true; st_BypassCountries := ["ir"; "cn"]; st_ExcludedPackages := [];
                               st_RuleSetDirectory := "/data/rules" |};
     sb_RouteFindProcess := true; sb_ClashAPI := true; sb_DNSStrategy := ""; sb_IPv6Disabled := false |}.

Definition exampleDocument : json := match BuildSingBoxConfig exampleSplit with Ok doc => doc | Err _ => JObj [] end.

(** A connection to a site in China. *)
Definition exampleFlow : flow :=
  {| fl_protocol := "tls"; fl_network := "tcp"; fl_port := 443; fl_private := false; fl_suffix := λ _, false;
     fl_inSet := λ s, String.eqb s "geosite-cn" |}.

(** A lookup of such a site while its resolver is down and the first proxied
    one fails. *)
Definition exampleQuery : query :=
  {| q_suffix := λ _, false; q_inSet := λ s, String.eqb s "geosite-cn";
     q_exchange := λ s, if String.eqb s "dns-1" then Some "NOERROR" else if String.eqb s "dns-0" then Some "SERVFAIL" else None |}.

Lemma config_closed_witness : indexed (sb_DNSServers exampleSplit) ∧ BuildSingBoxConfig exampleSplit = Ok exampleDocument ∧ closed exampleDocument.
Proof.
  assert (Hi : indexed (sb_DNSServers exampleSplit)) by (apply Z.leb_le; vm_compute; reflexivity).
  assert (Hb : BuildSingBoxConfig exampleSplit = Ok exampleDocument) by (vm_compute; reflexivity).
  split; [exact Hi|split; [exact Hb|]]. exact (config_closed exampleSplit exampleDocument Hi Hb).
Defined.

Lemma routes_as_promised_witness :
  BuildSingBoxConfig exampleSplit = Ok exampleDocument ∧
  firstMatch (items "rules" (routeOf exampleDocument)) (default "" (str_at "final" (routeOf exampleDocument))) exampleFlow = Via "direct".
Proof.
  assert (Hb : BuildSingBoxConfig exampleSplit = Ok exampleDocument) by (vm_compute; reflexivity).
  split; [exact Hb|]. exact (routes_as_promised exampleSplit exampleDocument exampleFlow Hb).
Defined.

Lemma lookups_fail_over_witness :
  BuildSingBoxConfig exampleSplit = Ok exampleDocument ∧
  runRules (items "rules" (dnsOf exampleDocument)) (default "" (str_at "final" (dnsOf exampleDocument))) None exampleQuery = ("dns-1", Some "NOERROR").
Proof.
  assert (Hi : indexed (sb_DNSServers exampleSplit)) by (apply Z.leb_le; vm_compute; reflexivity).
  assert (Hb : BuildSingBoxConfig exampleSplit = Ok exampleDocument) by (vm_compute; reflexivity).
  split; [exact Hb|]. exact (proj1 (proj1 (lookups_fail_over exampleSplit exampleDocument exampleQuery Hi Hb) eq_refl)).
Defined.

(** The tunnel of a punched candidate. *)
Definition exampleTUN : EngineConfig :=
  {| tunMode := true; mobile := false; tunnelDNSServers := ["9.9.9.9"]; tunnelDNSIPv6Disabled := true;
     TunnelMTU := 1400; PunchEnabled := true; hasPunchEstablisher := true; wssTicketBudget := 0;
     brokerURL := "https://broker.example"; DefaultBrokerURLs := [] |}.

Lemma candidate_tunnel_witness :
  IsUsableRelay (Directory.exampleRelay "relay-a") 0 = true ∧
  ∃ doc, BuildSingBoxConfig (candidateInput exampleTUN (Directory.exampleRelay "relay-a") 0 (Some ("127.0.0.1", 4433, "198.51.100.7"))) = Ok doc ∧
    firstMatch (items "rules" (routeOf doc)) (default "" (str_at "final" (routeOf doc))) exampleFlow = Via "proxy".
Proof.
  assert (Hu : IsUsableRelay (Directory.exampleRelay "relay-a") 0 = true) by (vm_compute; reflexivity).
  split; [exact Hu|].
  destruct (candidate_tunnel exampleTUN (Directory.exampleRelay "relay-a") 0 0 (Some ("127.0.0.1", 4433, "198.51.100.7")) Hu
    ltac:(apply Z.leb_le; vm_compute; reflexivity)) as (inb & out & rest & doc & Hb & _ & _ & _ & _ & Hr).
  exists doc. split; [exact Hb|]. exact (Hr exampleFlow).
Defined.
End examples.
