(* ===== verification/RelayConfig.v ===== *)
(** The relay engine's configuration: its defaults, the foundation posture, the
    WSS guards, validation, how it reaches its broker and how it trusts its hub
    (src/libs/openrung/internal/relayruntime/engine/engine.go up to [validate]
    and from [hubTLSConfig]; broker.go: [ValidateSecureBrokerURL];
    config.go: [BuildXrayConfig]; probe.go: [DeriveHubHTTPBase],
    [ProbeBindAddr]).

    net/url, Unicode case mapping, SHA-256 and Ed25519 are parameters. *)
From stdpp Require Import base list gmap strings.
From Stdlib Require Import ZArith Lia.
From S2P Require Import Prelude Codec Netip Directory Fronts Ticket RelayIdentity Registration BrokerServer Punch.

(** * Data *)
Record Identity := {
  id_ClientID : string;
  id_RealityPrivateKey : string;
  id_RealityPublicKey : string;
  id_ShortID : string;
  id_IdentitySeed : string
}.
#[export] Instance Identity_eq_dec : EqDecision Identity.
Proof. solve_decision. Defined.

(** The HTTP client of tests is left out; [cf_ConnectionLog] is whether
    [ConnectionLogOutput] is set. *)
Record Config := {
  cf_BrokerURL : string;
  cf_Token : string;
  cf_FoundationToken : string;
  cf_NodeClass : string;
  cf_Label : string;
  cf_PublicHost : string;
  cf_PublicPort : Z;
  cf_XrayPath : string;
  cf_ListenHost : string;
  cf_ListenPort : Z;
  cf_AutomaticPortCandidates : list Z;
  cf_Mode : string;
  cf_HubAddr : string;
  cf_HubHTTPURL : string;
  cf_HubCertFingerprint : string;
  cf_HubInsecure : bool;
  cf_HubPlaintext : bool;
  cf_ServerName : string;
  cf_RealityDest : string;
  cf_MaxSessions : Z;
  cf_MaxMbps : Z;
  cf_HeartbeatInterval : Z;
  cf_WSSFronts : list Front;
  cf_ConnectionLog : bool;
  cf_Identity : Identity;
  cf_ConfigDir : string;
  cf_ConfigPath : string;
  cf_Version : string;
  cf_PunchCapable : bool;
  cf_DisableXray : bool
}.

Definition ModeAuto : string := "auto".
Definition ModeDirect : string := "direct".
Definition ModeTunnel : string := "tunnel".
Definition DefaultMaxSessions : Z := 75.
Definition DefaultMaxMbps : Z := 100.

(** [tempDir] is [os.TempDir()]. *)
Definition withDefaults (tempDir : string) (c : Config) : Config :=
  let str d v := if str_empty v then d else v in
  let int d v := if v =? 0 then d else v in
  {| cf_BrokerURL := cf_BrokerURL c; cf_Token := cf_Token c; cf_FoundationToken := cf_FoundationToken c;
     cf_NodeClass := cf_NodeClass c; cf_Label := cf_Label c; cf_PublicHost := cf_PublicHost c;
     cf_PublicPort := cf_PublicPort c; cf_XrayPath := str "xray"%string (cf_XrayPath c);
     cf_ListenHost := cf_ListenHost c; cf_ListenPort := int 443 (cf_ListenPort c);
     cf_AutomaticPortCandidates := cf_AutomaticPortCandidates c; cf_Mode := str ModeAuto (cf_Mode c);
     cf_HubAddr := cf_HubAddr c; cf_HubHTTPURL := cf_HubHTTPURL c;
     cf_HubCertFingerprint := cf_HubCertFingerprint c; cf_HubInsecure := cf_HubInsecure c;
     cf_HubPlaintext := cf_HubPlaintext c; cf_ServerName := str "www.cloudflare.com"%string (cf_ServerName c);
     cf_RealityDest := str "www.cloudflare.com:443"%string (cf_RealityDest c);
     cf_MaxSessions := int DefaultMaxSessions (cf_MaxSessions c); cf_MaxMbps := int DefaultMaxMbps (cf_MaxMbps c);
     cf_HeartbeatInterval := int (30 * second) (cf_HeartbeatInterval c); cf_WSSFronts := cf_WSSFronts c;
     cf_ConnectionLog := cf_ConnectionLog c; cf_Identity := cf_Identity c;
     cf_ConfigDir := str tempDir (cf_ConfigDir c); cf_ConfigPath := cf_ConfigPath c;
     cf_Version := str "dev"%string (cf_Version c); cf_PunchCapable := cf_PunchCapable c;
     cf_DisableXray := cf_DisableXray c |}.

(** The fields the engine assigns: class, mode, fronts, ports, identity. *)
Definition assign (class mode : string) (fronts : list Front) (listen public : Z) (id : Identity) (c : Config) : Config :=
  {| cf_BrokerURL := cf_BrokerURL c; cf_Token := cf_Token c; cf_FoundationToken := cf_FoundationToken c;
     cf_NodeClass := class; cf_Label := cf_Label c; cf_PublicHost := cf_PublicHost c;
     cf_PublicPort := public; cf_XrayPath := cf_XrayPath c;
     cf_ListenHost := cf_ListenHost c; cf_ListenPort := listen;
     cf_AutomaticPortCandidates := cf_AutomaticPortCandidates c; cf_Mode := mode;
     cf_HubAddr := cf_HubAddr c; cf_HubHTTPURL := cf_HubHTTPURL c;
     cf_HubCertFingerprint := cf_HubCertFingerprint c; cf_HubInsecure := cf_HubInsecure c;
     cf_HubPlaintext := cf_HubPlaintext c; cf_ServerName := cf_ServerName c; cf_RealityDest := cf_RealityDest c;
     cf_MaxSessions := cf_MaxSessions c; cf_MaxMbps := cf_MaxMbps c;
     cf_HeartbeatInterval := cf_HeartbeatInterval c; cf_WSSFronts := fronts;
     cf_ConnectionLog := cf_ConnectionLog c; cf_Identity := id;
     cf_ConfigDir := cf_ConfigDir c; cf_ConfigPath := cf_ConfigPath c;
     cf_Version := cf_Version c; cf_PunchCapable := cf_PunchCapable c;
     cf_DisableXray := cf_DisableXray c |}.
Definition withClass (class : string) (c : Config) : Config :=
  assign class (cf_Mode c) (cf_WSSFronts c) (cf_ListenPort c) (cf_PublicPort c) (cf_Identity c) c.
Definition withMode (mode : string) (c : Config) : Config :=
  assign (cf_NodeClass c) mode (cf_WSSFronts c) (cf_ListenPort c) (cf_PublicPort c) (cf_Identity c) c.
Definition withFronts (fronts : list Front) (c : Config) : Config :=
  assign (cf_NodeClass c) (cf_Mode c) fronts (cf_ListenPort c) (cf_PublicPort c) (cf_Identity c) c.
Definition withPorts (port : Z) (c : Config) : Config :=
  assign (cf_NodeClass c) (cf_Mode c) (cf_WSSFronts c) port port (cf_Identity c) c.
Definition withStoredIdentity (id : Identity) (c : Config) : Config :=
  assign (cf_NodeClass c) (cf_Mode c) (cf_WSSFronts c) (cf_ListenPort c) (cf_PublicPort c) id c.

Inductive configError :=
| ErrClassConflict | ErrNodeClass | ErrWSSFronts | ErrFoundationHub
| ErrWSSClass | ErrWSSMode | ErrWSSPort | ErrWSSListenHost | ErrWSSConnectionLog | ErrWSSSeedMissing | ErrWSSSeed
| ErrMode | ErrHubAddr | ErrBrokerURL | ErrInsecureBroker
| ErrListenPort | ErrPublicPort | ErrLabel | ErrCandidatePort | ErrMaxSessions | ErrMaxMbps | ErrHeartbeat.

(** * Ports and hosts *)
Definition resolvesToDirect (c : Config) : bool :=
  str_eqb (cf_Mode c) ModeDirect || str_eqb (cf_Mode c) ModeAuto && str_empty (cf_HubAddr c).

Definition publicPort (c : Config) : Z := if 0 <? cf_PublicPort c then cf_PublicPort c else cf_ListenPort c.

Definition automaticDirectListenHost : string := "".
Definition directOnlyListenHost : string := "::".
Definition wssDirectListenHost : string := "0.0.0.0".

Definition directListenHost (c : Config) (automatic : bool) : string :=
  let host := TrimSpace (cf_ListenHost c) in
  if negb (str_empty host) then host
  else if automatic then automaticDirectListenHost else directOnlyListenHost.

Definition wssListenHost (c : Config) : string :=
  let host := TrimSpace (cf_ListenHost c) in
  if negb (str_empty host) then host else wssDirectListenHost.

(** The first occurrence of every port, in order. *)
Fixpoint dedupPorts (seen ports : list Z) : list Z :=
  match ports with
  | [] => []
  | p :: ports => if bool_decide (p ∈ seen) then dedupPorts seen ports else p :: dedupPorts (p :: seen) ports
  end.

Definition automaticPortCandidates (c : Config) : list Z :=
  let ports := match cf_AutomaticPortCandidates c with [] => [cf_ListenPort c] | ports => ports end in
  dedupPorts [] ports.

Lemma elem_of_dedupPorts p ports : ∀ seen, p ∈ dedupPorts seen ports ↔ p ∈ ports ∧ p ∉ seen.
Proof.
  induction ports as [|q ports IH]; intros seen; cbn [dedupPorts].
  { split; [intros H; by apply not_elem_of_nil in H|intros [H _]; by apply not_elem_of_nil in H]. }
  case_bool_decide as Hq; [rewrite IH; set_solver|].
  rewrite !elem_of_cons, IH. destruct (decide (p = q)) as [->|]; set_solver.
Qed.

Lemma NoDup_dedupPorts ports : ∀ seen, NoDup (dedupPorts seen ports).
Proof.
  induction ports as [|q ports IH]; intros seen; cbn [dedupPorts]; [by apply NoDup_nil|].
  case_bool_decide; [done|]. apply NoDup_cons. split; [|done]. rewrite elem_of_dedupPorts. set_solver.
Qed.

(** * Base64 seeds (relay/identity.go) *)
Definition parseSeed (encoded : string) : option (list byte) :=
  seed ← stdDecode (bytes (TrimSpace encoded));
  if (length seed =? SeedSize)%nat then Some seed else None.

(** Text without blanks or bytes above ASCII is its own trimming. *)
Definition plain (a : byte) : bool := ((32 <? byte_of a) && (byte_of a <? 128))%N.

Lemma plain_spaces a b c : plain a = true →
  space1 a = false ∧ space2 a b = false ∧ space2 b a = false ∧ space3 a b c = false ∧ space3 c b a = false.
Proof.
  unfold plain. intros [H1%N.ltb_lt H2%N.ltb_lt]%andb_true_iff.
  assert (∀ n, (n <= 32 ∨ 128 <= n)%N → (byte_of a =? n)%N = false) as Hne by (intros n Hn; apply N.eqb_neq; lia).
  assert (∀ n, (128 <= n)%N → (n <=? byte_of a)%N = false) as Hle by (intros n Hn; apply N.leb_gt; lia).
  unfold space1, space2, space3. rewrite !Hne, (Hle 128%N) by lia. replace (byte_of a <=? 13)%N with false by (symmetry; apply N.leb_gt; lia).
  by rewrite !andb_false_r.
Qed.

(** One byte decides: nothing is trimmed before it. *)
Lemma trimLeft_first a l : plain a = true → trimLeft (a :: l) = a :: l ∧ trimLeftRev (a :: l) = a :: l.
Proof.
  intros Ha. destruct l as [|b [|c l]]; cbn; repeat match goal with |- context [space1 a] => destruct (plain_spaces a a a Ha) as (-> & _) end; [done|..].
  - by destruct (plain_spaces a b a Ha) as (_ & -> & -> & _).
  - by destruct (plain_spaces a b c Ha) as (_ & -> & -> & -> & ->).
Qed.

(** A line between its first and its last byte. *)
Lemma TrimSpace_ends a l z : plain a = true → plain z = true → TrimSpace (text (a :: l ++ [z])) = text (a :: l ++ [z]).
Proof.
  intros Ha Hz. unfold TrimSpace. change (String.list_ascii_of_string (text (a :: l ++ [z]))) with (bytes (text (a :: l ++ [z]))). rewrite bytes_text.
  destruct (trimLeft_first a (l ++ [z]) Ha) as [-> _].
  assert (E : rev (a :: l ++ [z]) = z :: rev l ++ [a]) by (cbn; by rewrite rev_app_distr).
  rewrite E. destruct (trimLeft_first z (rev l ++ [a]) Hz) as [_ ->]. by rewrite <- E, rev_involutive.
Qed.

Lemma TrimSpace_newline a l z : plain a = true → plain z = true → TrimSpace (text ((a :: l ++ [z]) ++ [chr 10])) = text (a :: l ++ [z]).
Proof.
  intros Ha Hz. rewrite <- (TrimSpace_ends a l z) by done. unfold TrimSpace.
  change (String.list_ascii_of_string (text ?x)) with (bytes (text x)). rewrite !bytes_text. cbn [app].
  destruct (trimLeft_first a ((l ++ [z]) ++ [chr 10]) Ha) as [-> _]. destruct (trimLeft_first a (l ++ [z]) Ha) as [-> _].
  do 2 f_equal. change (a :: (l ++ [z]) ++ [chr 10]) with ((a :: l ++ [z]) ++ [chr 10]). by rewrite rev_app_distr.
Qed.

Lemma TrimSpace_plain l : Forall (λ a, plain a = true) l → TrimSpace (text l) = text l.
Proof.
  intros Hl. destruct Hl as [|a l Ha Hl]; [done|]. destruct l as [|z l] using rev_ind; [|clear IHl; apply Forall_app in Hl as [_ Hz]; rewrite Forall_singleton in Hz; by apply TrimSpace_ends].
  unfold TrimSpace. cbn. destruct (plain_spaces a a a Ha) as (E & _). rewrite E. cbn. by rewrite E.
Qed.

Lemma stdEncode_plain bs : Forall (λ a, plain a = true) (stdEncode bs).
Proof.
  unfold stdEncode, rawStdEncode. apply Forall_app. split.
  - apply Forall_fmap. eapply Forall_impl; [apply sextetsOf_bound|]. intros n Hn. unfold compose.
    by apply (allBelow_spec 64 0 (λ n, plain (stdSextet n))); [vm_compute|].
  - unfold padding. by repeat case_match; repeat constructor.
Qed.

Lemma parseSeed_encode seed : length seed = SeedSize → parseSeed (text (stdEncode seed)) = Some seed.
Proof.
  intros Hs. unfold parseSeed. rewrite TrimSpace_plain by apply stdEncode_plain.
  rewrite bytes_text, stdDecode_stdEncode. cbn. by rewrite Hs.
Qed.

(** * The xray configuration (config.go: [BuildXrayConfig])

    The document as a tree; [json.MarshalIndent] prints it. *)
Record XrayConfigInput := {
  xc_ListenHost : string;
  xc_ListenPort : Z;
  xc_ClientID : string;
  xc_Flow : string;
  xc_Dest : string;
  xc_ServerName : string;
  xc_RealityPrivateKey : string;
  xc_ShortID : string
}.

Definition BuildXrayConfig (i : XrayConfigInput) : option json :=
  let host := if str_empty (xc_ListenHost i) then "::"%string else xc_ListenHost i in
  if (xc_ListenPort i <? 1) || (65535 <? xc_ListenPort i) then None else
  if str_empty (xc_ClientID i) || str_empty (xc_Flow i) || str_empty (xc_Dest i) || str_empty (xc_ServerName i)
     || str_empty (xc_RealityPrivateKey i) || str_empty (xc_ShortID i) then None else
  Some (JObj [
    ("log", JObj [("loglevel", JStr "warning")]);
    ("inbounds", JArr [JObj [
      ("tag", JStr "vless-reality-in"); ("listen", JStr host); ("port", JNum (xc_ListenPort i)); ("protocol", JStr "vless");
      ("settings", JObj [
        ("clients", JArr [JObj [("id", JStr (xc_ClientID i)); ("flow", JStr (xc_Flow i))]]);
        ("decryption", JStr "none")]);
      ("streamSettings", JObj [
        ("network", JStr "tcp"); ("security", JStr "reality");
        ("realitySettings", JObj [
          ("show", JBool false); ("dest", JStr (xc_Dest i)); ("xver", JNum 0);
          ("serverNames", JArr [JStr (xc_ServerName i)]); ("privateKey", JStr (xc_RealityPrivateKey i));
          ("shortIds", JArr [JStr (xc_ShortID i)])])]);
      ("sniffing", JObj [("enabled", JBool true); ("destOverride", JArr [JStr "http"; JStr "tls"; JStr "quic"])])]]);
    ("outbounds", JArr [JObj [("tag", JStr "direct"); ("protocol", JStr "freedom")]])])%string.

Section config.
#[local] Set Default Proof Using "Type".
Context (ToLower : string → string) (EqualFold : string → string → bool).
Context (urlParse : string → option URL) (urlString : URL → string).
Context (Hostname Port : URL → string) (isIPLiteral : string → bool).
Context (NewKeyFromSeed Sum256 : list byte → list byte).

Definition ParseIdentitySeed (encoded : string) : option (list byte) := NewKeyFromSeed <$> parseSeed encoded.
(** [priv.Seed()] is the first half of the key. *)
Definition EncodeIdentitySeed (priv : list byte) : string := text (stdEncode (take SeedSize priv)).
Definition identityKey (id : Identity) : option (list byte) := ParseIdentitySeed (id_IdentitySeed id).

Definition lowerTrim (s : string) : string := ToLower (TrimSpace s).

Definition isDualListenHost (host : string) : bool :=
  str_eqb (lowerTrim host) "dual" || str_eqb (lowerTrim host) "both".

Definition wssListenHostReachesIPv4Loopback (host : string) : bool :=
  let h := lowerTrim host in
  str_empty h || str_eqb h "0.0.0.0" || str_eqb h "127.0.0.1".

(** * The postures *)
Definition applyFoundationTokenPosture (c : Config) : result configError Config :=
  if str_empty (cf_FoundationToken c) then Ok c else
  let class := lowerTrim (cf_NodeClass c) in
  if str_empty class || str_eqb class NodeClassFoundation
  then Ok (withMode ModeDirect (withClass NodeClassFoundation c)) else Err ErrClassConflict.

Definition requireDirectModeForFoundation (c : Config) : result configError unit :=
  if str_eqb (cf_NodeClass c) NodeClassFoundation && negb (resolvesToDirect c) then Err ErrFoundationHub else Ok tt.

Definition validateWSSFronts (c : Config) : result configError unit :=
  if (length (cf_WSSFronts c) =? 0)%nat then Ok tt else
  if negb (str_eqb (cf_NodeClass c) NodeClassFoundation) then Err ErrWSSClass else
  if negb (resolvesToDirect c) then Err ErrWSSMode else
  if negb (cf_ListenPort c =? 443) || negb (publicPort c =? 443) then Err ErrWSSPort else
  if negb (wssListenHostReachesIPv4Loopback (cf_ListenHost c)) then Err ErrWSSListenHost else
  if cf_ConnectionLog c then Err ErrWSSConnectionLog else
  if str_empty (TrimSpace (id_IdentitySeed (cf_Identity c))) then Err ErrWSSSeedMissing else
  match ParseIdentitySeed (id_IdentitySeed (cf_Identity c)) with
  | None => Err ErrWSSSeed
  | Some _ => Ok tt
  end.

Definition effectiveConfig (c : Config) : result configError Config :=
  let? c := applyFoundationTokenPosture c in
  match NormalizeNodeClass ToLower (cf_NodeClass c) with
  | None => Err ErrNodeClass
  | Some nodeClass =>
      let c := withClass nodeClass c in
      match NormalizeWSSFronts ToLower EqualFold urlParse urlString Hostname Port isIPLiteral (cf_WSSFronts c) with
      | Err _ => Err ErrWSSFronts
      | Ok fronts =>
          let c := withFronts fronts c in
          let? _ := requireDirectModeForFoundation c in
          let? _ := validateWSSFronts c in
          Ok c
      end
  end.

Definition EffectiveMode (tempDir : string) (c : Config) : string :=
  match effectiveConfig (withDefaults tempDir c) with Ok effective => cf_Mode effective | Err _ => "" end.

(** * The broker *)
Definition isLoopbackBrokerHost (host : string) : bool :=
  EqualFold host "localhost" || match ParseIP host with Some ip => IsLoopback ip | None => false end.

Definition ValidateSecureBrokerURL (rawURL : string) : bool :=
  match urlParse rawURL with
  | None => false
  | Some u => str_eqb (Scheme u) "https" || str_eqb (Scheme u) "http" && isLoopbackBrokerHost (Hostname u)
  end.

Record BrokerClient := { bc_BaseURL : string; bc_Token : string; bc_RequireSecureTransport : bool }.

Definition brokerClient (c : Config) : BrokerClient :=
  {| bc_BaseURL := cf_BrokerURL c;
     bc_Token := if negb (str_empty (cf_FoundationToken c)) then cf_FoundationToken c else cf_Token c;
     bc_RequireSecureTransport :=
       negb (str_empty (cf_FoundationToken c)) || str_eqb (lowerTrim (cf_NodeClass c)) NodeClassFoundation |}.

(** * Validation *)
Definition validate (c : Config) : result configError unit :=
  let? c := effectiveConfig c in
  if negb (str_eqb (cf_Mode c) ModeAuto || str_eqb (cf_Mode c) ModeDirect || str_eqb (cf_Mode c) ModeTunnel)
  then Err ErrMode else
  if str_eqb (cf_Mode c) ModeTunnel && str_empty (cf_HubAddr c) then Err ErrHubAddr else
  if negb (str_eqb (cf_Mode c) ModeTunnel) && str_empty (cf_BrokerURL c) then Err ErrBrokerURL else
  if negb (str_eqb (cf_Mode c) ModeTunnel) &&
     (negb (str_empty (cf_FoundationToken c)) || str_eqb (cf_NodeClass c) NodeClassFoundation) &&
     negb (ValidateSecureBrokerURL (cf_BrokerURL c)) then Err ErrInsecureBroker else
  if (cf_ListenPort c <? 1) || (65535 <? cf_ListenPort c) then Err ErrListenPort else
  if (cf_PublicPort c <? 0) || (65535 <? cf_PublicPort c) then Err ErrPublicPort else
  match NormalizeLabel (cf_Label c) with
  | None => Err ErrLabel
  | Some _ =>
      if str_eqb (cf_Mode c) ModeAuto &&
         existsb (λ port, (port <? 1) || (65535 <? port)) (cf_AutomaticPortCandidates c) then Err ErrCandidatePort else
      if cf_MaxSessions c <? 1 then Err ErrMaxSessions else
      if cf_MaxMbps c <? 1 then Err ErrMaxMbps else
      if cf_HeartbeatInterval c <? 5 * second then Err ErrHeartbeat else Ok tt
  end.

(** * The hub *)
Definition normalizeFingerprint (fp : string) : string :=
  text (filter (λ b, val b ≠ 58 ∧ val b ≠ 32) (bytes (lowerTrim fp))).

(** What the engine sets of a [tls.Config]; [tls_pin] is the fingerprint its
    [VerifyPeerCertificate] demands. *)
Record tlsConfig := { tls_ServerName : string; tls_InsecureSkipVerify : bool; tls_pin : option string }.

Definition hubTLSClientConfig (c : Config) : tlsConfig :=
  let pin := normalizeFingerprint (cf_HubCertFingerprint c) in
  if negb (str_empty pin)
  then {| tls_ServerName := ""; tls_InsecureSkipVerify := true; tls_pin := Some pin |}
  else {| tls_ServerName := ""; tls_InsecureSkipVerify := cf_HubInsecure c; tls_pin := None |}.

(** [host] is the host of [net.SplitHostPort(cfg.HubAddr)], when it splits;
    [None] is the plaintext dial. *)
Definition hubTLSConfig (host : option string) (c : Config) : option tlsConfig :=
  if cf_HubPlaintext c then None else
  let tc := hubTLSClientConfig c in
  Some {| tls_ServerName := default (cf_HubAddr c) host;
          tls_InsecureSkipVerify := tls_InsecureSkipVerify tc; tls_pin := tls_pin tc |}.

Definition pinnedLeafVerifier (want : string) (rawCerts : list (list byte)) : bool :=
  match rawCerts with
  | [] => false
  | leaf :: _ => str_eqb (text (hexEncode (Sum256 leaf))) want
  end.

(** What crypto/tls accepts under the configuration: [chain] is its own
    verification of the chain and the server name. *)
Definition tlsAccepts (tc : tlsConfig) (rawCerts : list (list byte)) (chain : bool) : bool :=
  (tls_InsecureSkipVerify tc || chain) &&
  match tls_pin tc with Some pin => pinnedLeafVerifier pin rawCerts | None => true end.

(** With a pin, the one certificate either connection to the hub accepts is the
    one that hashes to it. *)
Lemma pinned_hub host c tc certs chain :
  normalizeFingerprint (cf_HubCertFingerprint c) ≠ ""%string →
  tc = hubTLSClientConfig c ∨ hubTLSConfig host c = Some tc →
  tlsAccepts tc certs chain = true →
  ∃ leaf rest, certs = leaf :: rest ∧
    text (hexEncode (Sum256 leaf)) = normalizeFingerprint (cf_HubCertFingerprint c).
Proof.
  intros Hp Htc Ha.
  assert (tls_pin tc = Some (normalizeFingerprint (cf_HubCertFingerprint c))) as Hpin.
  { unfold hubTLSConfig, hubTLSClientConfig in Htc. unfold str_empty in Htc.
    rewrite bool_decide_eq_false_2 in Htc by done. cbn in Htc.
    destruct Htc as [->|Htc]; [done|]. destruct (cf_HubPlaintext c); [done|]. by injection Htc as <-. }
  unfold tlsAccepts in Ha. rewrite Hpin in Ha. apply andb_true_iff in Ha as [_ Ha].
  destruct certs as [|leaf rest]; [done|]. exists leaf, rest. split; [done|]. by apply str_eqb_true.
Qed.

(** [host] is the host of [hubAddr], when it splits; the result has
    [net.JoinHostPort(host, "9444")]. *)
Definition DeriveHubHTTPBase (JoinHostPort : string → string → string) (host : option string)
    (explicit hubAddr : string) (useTLS : bool) : string :=
  if negb (str_empty explicit) then explicit else
  (if useTLS then "https" else "http") +:+ "://" +:+ JoinHostPort (default hubAddr host) "9444".

(** The host part of the address a probe binds; the port is the argument's. *)
Definition ProbeBindHost (listenHost : string) : string :=
  let h := lowerTrim listenHost in
  if str_empty h || str_eqb h "::" || str_eqb h "dual" || str_eqb h "both" then "" else listenHost.

(** * What a posture guarantees *)
Lemma posture_spec c c' : applyFoundationTokenPosture c = Ok c' →
  (cf_FoundationToken c = ""%string ∧ c' = c) ∨
  (cf_FoundationToken c ≠ ""%string ∧ c' = withMode ModeDirect (withClass NodeClassFoundation c)).
Proof.
  unfold applyFoundationTokenPosture, str_empty at 1. case_bool_decide; [intros [= <-]; by left|].
  case_match; [|done]. intros [= <-]. by right.
Qed.

(** The facts of an effective configuration: its class is concrete, its fronts
    canonical, and a foundation relay has no way to a hub. *)
Record effective (c e : Config) : Prop := {
  ef_class : cf_NodeClass e = NodeClassVolunteer ∨ cf_NodeClass e = NodeClassFoundation;
  ef_fronts : NormalizeWSSFronts ToLower EqualFold urlParse urlString Hostname Port isIPLiteral (cf_WSSFronts c) = Ok (cf_WSSFronts e);
  ef_token : cf_FoundationToken c ≠ ""%string → cf_NodeClass e = NodeClassFoundation ∧ cf_Mode e = ModeDirect;
  ef_mode : cf_FoundationToken c = ""%string → cf_Mode e = cf_Mode c ∧
    NormalizeNodeClass ToLower (cf_NodeClass c) = Some (cf_NodeClass e);
  ef_direct : cf_NodeClass e = NodeClassFoundation → resolvesToDirect e = true;
  ef_wss : cf_WSSFronts e ≠ [] →
    cf_NodeClass e = NodeClassFoundation ∧ cf_ListenPort e = 443 ∧ publicPort e = 443 ∧
    cf_ConnectionLog e = false ∧ is_Some (ParseIdentitySeed (id_IdentitySeed (cf_Identity e)));
  ef_same : e = assign (cf_NodeClass e) (cf_Mode e) (cf_WSSFronts e) (cf_ListenPort c) (cf_PublicPort c) (cf_Identity c) c
}.

Lemma NormalizeNodeClass_range class n : NormalizeNodeClass ToLower class = Some n →
  n = NodeClassVolunteer ∨ n = NodeClassFoundation.
Proof. unfold NormalizeNodeClass. repeat case_match; intros; simplify_eq; auto. Qed.

(** A lower-case ASCII word is its own lower case. *)
Context (ToLower_foundation : ToLower NodeClassFoundation = NodeClassFoundation).

Lemma NormalizeNodeClass_foundation : NormalizeNodeClass ToLower NodeClassFoundation = Some NodeClassFoundation.
Proof using ToLower_foundation.
  unfold NormalizeNodeClass. assert (TrimSpace NodeClassFoundation = NodeClassFoundation) as -> by (vm_compute; reflexivity).
  by rewrite ToLower_foundation.
Qed.

Lemma effectiveConfig_spec c e :
  effectiveConfig c = Ok e → effective c e.
Proof using ToLower_foundation.
  unfold effectiveConfig. destruct (applyFoundationTokenPosture c) as [p|] eqn:Ep; [|done]. cbn.
  destruct (NormalizeNodeClass ToLower (cf_NodeClass p)) as [n|] eqn:En; [|done].
  destruct (NormalizeWSSFronts _ _ _ _ _ _ _ _) as [fronts|] eqn:Ef; [|done].
  destruct (requireDirectModeForFoundation _) eqn:Er; [|done]. cbn.
  destruct (validateWSSFronts _) eqn:Ew; [|done]. cbn. intros [= <-].
  pose proof (NormalizeNodeClass_range _ _ En) as Hn.
  assert (Hdir : n = NodeClassFoundation → resolvesToDirect (withFronts fronts (withClass n p)) = true).
  { intros ->. unfold requireDirectModeForFoundation in Er.
    change (cf_NodeClass (withFronts fronts (withClass NodeClassFoundation p))) with NodeClassFoundation in Er.
    rewrite (proj2 (str_eqb_true _ _) eq_refl) in Er. cbn in Er. by destruct (resolvesToDirect _). }
  assert (Hwss : fronts ≠ [] → n = NodeClassFoundation ∧ cf_ListenPort p = 443 ∧ publicPort p = 443 ∧
    cf_ConnectionLog p = false ∧ is_Some (ParseIdentitySeed (id_IdentitySeed (cf_Identity p)))).
  { intros Hne. unfold validateWSSFronts in Ew. cbn in Ew. destruct fronts as [|f fs]; [done|]. cbn in Ew.
    destruct (str_eqb n NodeClassFoundation) eqn:Enc; [|done]. apply str_eqb_true in Enc.
    destruct (resolvesToDirect _); [|done]. cbn in Ew.
    destruct (Z.eqb_spec (cf_ListenPort p) 443); [|done].
    change (publicPort (withFronts (f :: fs) (withClass n p))) with (publicPort p) in Ew.
    destruct (Z.eqb_spec (publicPort p) 443); [|done]. cbn in Ew.
    destruct (wssListenHostReachesIPv4Loopback _); [|done]. cbn in Ew.
    destruct (cf_ConnectionLog p) eqn:El; [done|]. destruct (str_empty _); [done|].
    destruct (ParseIdentitySeed _) eqn:Es; [|done]. eauto. }
  destruct (posture_spec _ _ Ep) as [[Ht ->]|[Ht ->]].
  - split; try done.
  - change (cf_NodeClass (withMode ModeDirect (withClass NodeClassFoundation c))) with NodeClassFoundation in En.
    rewrite NormalizeNodeClass_foundation in En. injection En as <-. by split.
Qed.
End config.
