(* ===== verification/Runner.v ===== *)
(** The tunnel process (src/libs/connectcore: client/engine.go,
    tunnelruntime.go and [writeTempConfig] of helpers.go): the last lines it
    wrote, the error of a crash, which quotes them for the user and not for
    telemetry, and the goroutines that supervise one run, stop it and take its
    configuration, which holds the relay's credentials, off the disk.

    What the process writes, when it exits and when a wait ends are events the
    machine is given. *)
From stdpp Require Import base list list_numbers strings.
From Stdlib Require Import ZArith Lia.
From S2P Require Import Prelude Codec Registration Classify.

(** * The last lines *)
Definition crashLineRecorderMaxLine : nat := 512.
Definition crashLineTailLen : nat := 8.

Record crashLine := { cl_text : string; cl_isErr : bool }.
Record crashLineRecorder := { rc_partial : list byte; rc_tail : list crashLine }.
Definition newRecorder : crashLineRecorder := {| rc_partial := []; rc_tail := [] |}.

(** [utf8.DecodeLastRune] of a text that ends with a whole rune: its last one
    to four bytes are one. *)
Definition oneRune (s : list byte) : bool :=
  match s with [] => false | _ :: rest => validUTF8 s && forallb (contByte 128 191) rest end.
Definition endsWithRune (s : list byte) : bool :=
  existsb (λ k, (k <=? length s)%nat && oneRune (drop (length s - k) s)) [1; 2; 3; 4]%nat.

(** The loop of [flushLongLineLocked]. *)
Fixpoint runeCut (fuel cut : nat) (s : list byte) : nat :=
  match fuel with
  | O => cut
  | S fuel => if (cut =? 0)%nat || endsWithRune (take cut s) then cut else runeCut fuel (cut - 1) s
  end.
Definition UTFMax : nat := 4.

Definition trimPrefix (prefix s : list byte) : list byte :=
  if bool_decide (take (length prefix) s = prefix) then drop (length prefix) s else s.

Section recorder.
(** [strings.ToLower] *)
Context (ToLower : string → string).
#[local] Set Default Proof Using "Type".

Definition errorLooking (line : string) : bool :=
  let lower := ToLower line in strContains lower "error" || strContains lower "fatal" || strContains lower "panic".

(** One buffered line as it is remembered; a blank one is not. *)
Definition lineOf (partial : list byte) : option crashLine :=
  let line := TrimSpace (text partial) in
  if str_empty line then None
  else Some {| cl_text := TrimSpace (text (trimPrefix (bytes "error:") (bytes line))); cl_isErr := errorLooking line |}.

Definition remember (tail : list crashLine) (l : crashLine) : list crashLine :=
  (if (length tail =? crashLineTailLen)%nat then drop 1 tail else tail) ++ [l].

Definition recordLocked (r : crashLineRecorder) : crashLineRecorder :=
  match lineOf (rc_partial r) with
  | None => r
  | Some l => {| rc_partial := rc_partial r; rc_tail := remember (rc_tail r) l |}
  end.
Definition setPartial (partial : list byte) (r : crashLineRecorder) : crashLineRecorder :=
  {| rc_partial := partial; rc_tail := rc_tail r |}.

Definition flushLongLineLocked (r : crashLineRecorder) : crashLineRecorder :=
  let cut := runeCut UTFMax (length (rc_partial r)) (rc_partial r) in
  let cut := if (cut =? 0)%nat then length (rc_partial r) else cut in
  setPartial (drop cut (rc_partial r)) (recordLocked (setPartial (take cut (rc_partial r)) r)).

Definition writeByte (r : crashLineRecorder) (b : byte) : crashLineRecorder :=
  if val b =? 10 then setPartial [] (recordLocked r) else
  let r := if (crashLineRecorderMaxLine <=? length (rc_partial r))%nat then flushLongLineLocked r else r in
  setPartial (rc_partial r ++ [b]) r.
Definition Write (p : list byte) (r : crashLineRecorder) : crashLineRecorder := foldl writeByte r p.

Definition tailLines (r : crashLineRecorder) : list crashLine := rc_tail (recordLocked r).

Definition firstSome {A B} (f : A → option B) (l : list A) : option B := head (omap f l).
Definition firstCrashLine (recorders : list crashLineRecorder) : string :=
  let tails := tailLines <$> recorders in
  match firstSome (λ tail, cl_text <$> firstSome (λ l, if cl_isErr l then Some l else None) (reverse tail)) tails with
  | Some quote => quote
  | None => default "" (firstSome (λ tail, cl_text <$> last tail) tails)
  end.
End recorder.

(** * The report of a run *)
Definition exitedPrefix : string := "sing-box exited: ".
Definition crashError (quote : string) (cause : goError) : goError :=
  GoError {| ev_kind := KSafe (exitedPrefix +:+ Error cause); ev_Error := exitedPrefix +:+ quote +:+ " (" +:+ Error cause +:+ ")";
             ev_timeout := None; ev_net := false |} false [cause].

(** [fmt.Errorf] with one %w between two texts. *)
Definition wrapf (w : string * string) (e : goError) : goError :=
  GoError {| ev_kind := KOther; ev_Error := w.1 +:+ Error e +:+ w.2; ev_timeout := None; ev_net := false |} false [e].
Definition newError (text : string) : goError := GoError {| ev_kind := KOther; ev_Error := text; ev_timeout := None; ev_net := false |} false [].

(** What [supervise] sends, when [Wait] returned [waitErr]. *)
Definition exitReport (stopRequested : bool) (waitErr : option goError) (quote : string) : option goError :=
  if stopRequested then None else
  match waitErr with
  | Some e => Some (if str_empty quote then wrapf (exitedPrefix, "") e else crashError quote e)
  | None => Some (newError "sing-box exited")
  end.

(** * One run *)
(** [supervise] reaps the child, asks whether its stop was requested, closes
    [exited] and sends its report; [forward] removes the configuration, closes
    [cleaned] and passes the report on. *)
Inductive suppc := SWait | SAsked (stopRequested : bool) | SReaped (stopRequested : bool) | SSent (report : option goError).
Inductive fwdpc := FWait | FRemoved | FCleaned | FSent.

(** A Stop waits for the exit, kills when the grace is over, waits again for a
    short time, and then for [cleaned]; [TReturned false] is an error. *)
Inductive tstop := TRequested | TKilling | TCleaning | TReturned (ok : bool).

Record run := {
  rn_child : option (option goError);       (* what Wait will return, once the child has exited *)
  rn_stopRequested : bool;
  rn_sup : suppc;
  rn_fwd : fwdpc;
  rn_removal : option bool;                 (* what os.Remove did of the configuration; the code does not look *)
  rn_stops : list tstop
}.

Definition withChild (c : option (option goError)) (s : run) : run :=
  {| rn_child := c; rn_stopRequested := rn_stopRequested s; rn_sup := rn_sup s; rn_fwd := rn_fwd s; rn_removal := rn_removal s; rn_stops := rn_stops s |}.
Definition withSup (p : suppc) (s : run) : run :=
  {| rn_child := rn_child s; rn_stopRequested := rn_stopRequested s; rn_sup := p; rn_fwd := rn_fwd s; rn_removal := rn_removal s; rn_stops := rn_stops s |}.
Definition withFwd (p : fwdpc) (removal : option bool) (s : run) : run :=
  {| rn_child := rn_child s; rn_stopRequested := rn_stopRequested s; rn_sup := rn_sup s; rn_fwd := p; rn_removal := removal; rn_stops := rn_stops s |}.
Definition withStops (l : list tstop) (s : run) : run :=
  {| rn_child := rn_child s; rn_stopRequested := rn_stopRequested s; rn_sup := rn_sup s; rn_fwd := rn_fwd s; rn_removal := rn_removal s; rn_stops := l |}.

(** The configuration is on disk. *)
Definition onDisk (s : run) : bool := match rn_removal s with Some removed => negb removed | None => true end.
Definition exited (s : run) : bool := match rn_sup s with SWait | SAsked _ => false | _ => true end.
Definition cleaned (s : run) : bool := match rn_fwd s with FCleaned | FSent => true | _ => false end.

Definition supervise (quote : string) (s : run) : option run :=
  match rn_sup s, rn_child s with
  | SWait, Some _ => Some (withSup (SAsked (rn_stopRequested s)) s)
  | SAsked asked, Some _ => Some (withSup (SReaped asked) s)
  | SReaped asked, Some waitErr => Some (withSup (SSent (exitReport asked waitErr quote)) s)
  | _, _ => None
  end.

(** [removed] is whether the file could be removed. *)
Definition forward (removed : bool) (s : run) : option run :=
  match rn_fwd s, rn_sup s with
  | FWait, SSent _ => Some (withFwd FRemoved (Some removed) s)
  | FRemoved, _ => Some (withFwd FCleaned (rn_removal s) s)
  | FCleaned, _ => Some (withFwd FSent (rn_removal s) s)
  | _, _ => None
  end.

(** [process.Stop] up to its first wait. *)
Definition Stop (s : run) : run :=
  {| rn_child := rn_child s; rn_stopRequested := true; rn_sup := rn_sup s; rn_fwd := rn_fwd s; rn_removal := rn_removal s;
     rn_stops := rn_stops s ++ [TRequested] |}.

Definition stopStep (j : nat) (timeout : bool) (s : run) : option run :=
  t ← rn_stops s !! j;
  let goto t := Some (withStops (<[j := t]> (rn_stops s)) s) in
  match t with
  | TRequested => if timeout then goto TKilling else if exited s then goto TCleaning else None
  | TKilling => if timeout then goto (TReturned false) else if exited s then goto TCleaning else None
  | TCleaning => if cleaned s then goto (TReturned true) else None
  | TReturned _ => None
  end.

Inductive runEvent :=
| EvExit (waitErr : option goError)
| EvSupervise (quote : string)
| EvForward (removed : bool)
| EvStop
| EvStopStep (j : nat) (timeout : bool).

Definition runStep (e : runEvent) (s : run) : option run :=
  match e with
  | EvExit waitErr => match rn_child s with None => Some (withChild (Some waitErr) s) | Some _ => None end
  | EvSupervise quote => supervise quote s
  | EvForward removed => forward removed s
  | EvStop => Some (Stop s)
  | EvStopStep j timeout => stopStep j timeout s
  end.
Fixpoint runSteps (l : list runEvent) (s : run) : option run :=
  match l with [] => Some s | e :: l => s ← runStep e s; runSteps l s end.

(** [writeTempConfig]: whether it succeeded, and whether a file is left. *)
Record launch := {
  la_ctxErr0 : bool;
  la_created : bool;
  la_written : bool;
  la_closed : bool;
  la_ctxErr1 : bool;
  la_started : bool;
  la_ctxErr2 : bool;
  la_removed : bool                         (* os.Remove on a failed launch *)
}.
Definition writeTempConfig (la : launch) : bool * bool :=
  if negb (la_created la) then (false, false) else
  if negb (la_written la) then (false, negb (la_removed la)) else
  if negb (la_closed la) then (false, negb (la_removed la)) else (true, true).

(** [subprocessRuntime.Run]: the file is written, the child started, and the
    context asked three times; [LFailed file] left the file on disk. *)
Inductive launched := LFailed (file : bool) | LLive (s : run) | LUnwinding (s : run).
Definition started : run :=
  {| rn_child := None; rn_stopRequested := false; rn_sup := SWait; rn_fwd := FWait; rn_removal := None; rn_stops := [] |}.
Definition Run (la : launch) : launched :=
  if la_ctxErr0 la then LFailed false else
  let '(wrote, file) := writeTempConfig la in
  if negb wrote then LFailed file else
  if la_ctxErr1 la then LFailed (negb (la_removed la)) else
  if negb (la_started la) then LFailed (negb (la_removed la)) else
  if la_ctxErr2 la then LUnwinding (Stop started) else LLive started.

(** * The quote *)
Lemma containsAt_later M c tl pre rest : M = c :: tl → c ∉ tl → containsAt M pre = None →
  ∀ x, containsAt (M ++ x) (pre ++ (M ++ x) ++ rest) = Some (length pre).
Proof.
  intros HM Hc. induction pre as [|a pre IH]; intros Hpre x.
  - apply containsAt_here. cbn. apply take_app_length.
  - cbn [containsAt] in Hpre. destruct (bool_decide (take (length M) (a :: pre) = M)) eqn:Eb; [done|].
    destruct (containsAt M pre) as [|] eqn:Ep; [done|]. cbn [app containsAt]. rewrite bool_decide_eq_false_2.
    + by rewrite IH.
    + intros E. apply bool_decide_eq_false in Eb. apply Eb.
      assert (E' : take (length M) (a :: pre ++ (M ++ x) ++ rest) = M).
      { transitivity (take (length M) (take (length (M ++ x)) (a :: pre ++ (M ++ x) ++ rest))); [|rewrite E; apply take_app_length].
        rewrite take_take. f_equal. rewrite length_app. lia. }
      destruct (decide (length M ≤ length (a :: pre))%nat) as [Hle|Hgt].
      { rewrite <- E' at 2. change (a :: pre ++ (M ++ x) ++ rest) with ((a :: pre) ++ (M ++ x) ++ rest). by rewrite take_app_le. }
      exfalso. apply Hc. subst M. cbn [length] in *.
      assert (Hl : (c :: tl) !! S (length pre) = Some c).
      { rewrite <- E', lookup_take_lt by lia. change (a :: pre ++ ((c :: tl) ++ x) ++ rest) with ((a :: pre) ++ ((c :: tl) ++ x) ++ rest).
        rewrite lookup_app_r by done. cbn [length]. by rewrite Nat.sub_diag. }
      by eapply list_elem_of_lookup_2.
Qed.

(** The text before and after a wrapped error. *)
Definition before (ws : list (string * string)) : string := foldr (λ w s, w.1 +:+ s) "" ws.
Definition after (ws : list (string * string)) : string := foldr (λ w s, s +:+ w.2) "" ws.
Definition wrapAll (ws : list (string * string)) (e : goError) : goError := foldr wrapf e ws.

Lemma wrapAll_Error ws e : bytes (Error (wrapAll ws e)) = bytes (before ws) ++ bytes (Error e) ++ bytes (after ws).
Proof.
  induction ws as [|w ws IH]; [by rewrite app_nil_r|].
  change (Error (wrapAll (w :: ws) e)) with (w.1 +:+ Error (wrapAll ws e) +:+ w.2)%string.
  change (before (w :: ws)) with (w.1 +:+ before ws)%string. change (after (w :: ws)) with (after ws +:+ w.2)%string.
  rewrite !bytes_app, IH, <- !app_assoc. done.
Qed.

Lemma wrapAll_firstSafe ws e : firstSafe (wrapAll ws e) = firstSafe e.
Proof. by induction ws as [|w ws IH]. Qed.

(** C26: what the tunnel process wrote never reaches telemetry: wrapped in any
    texts but ones that imitate the report itself, a crash is sent as the exit
    of the process alone, whatever it was quoted with. *)
Theorem crash_output_private ws quote cause : containsAt (bytes exitedPrefix) (bytes (before ws)) = None →
  ErrorDetail (Some (wrapAll ws (crashError quote cause))) =
  text (truncated (bytes (before ws +:+ exitedPrefix +:+ Error cause +:+ after ws))).
Proof.
  intros Hb. unfold ErrorDetail. rewrite wrapAll_firstSafe. f_equal. f_equal. cbn [firstSafe crashError ev_kind].
  rewrite wrapAll_Error. unfold replaceFirst. change (ev_Error _) with (Error (crashError quote cause)).
  change (Error (crashError quote cause)) with (exitedPrefix +:+ (quote +:+ " (" +:+ Error cause +:+ ")"))%string.
  rewrite !(bytes_app exitedPrefix).
  rewrite (containsAt_later (bytes exitedPrefix) (chr 115) (bytes "ing-box exited: "));
    [|reflexivity|apply (bool_decide_unpack _); vm_compute; exact I|done].
  rewrite take_app_length, drop_app_add, drop_app_length, !bytes_app, <- !app_assoc. done.
Qed.

(** * The recorder *)
Section recorderFacts.
Context (ToLower : string → string).
#[local] Set Default Proof Using "Type".
#[local] Notation line_of := (lineOf ToLower).
#[local] Notation write := (Write ToLower).

Lemma remember_lastN tail l : (length tail ≤ crashLineTailLen)%nat → remember tail l = lastN crashLineTailLen (tail ++ [l]).
Proof.
  intros Hl. unfold remember, lastN. rewrite length_app. cbn [length]. unfold crashLineTailLen in *.
  destruct (Nat.eqb_spec (length tail) 8) as [E|E].
  - rewrite E. change (8 + 1 - 8)%nat with 1%nat. rewrite drop_app_le by lia. done.
  - replace (length tail + 1 - 8)%nat with 0%nat by lia. done.
Qed.

Lemma remember_all ls : ∀ tail, (length tail ≤ crashLineTailLen)%nat → foldl remember tail ls = lastN crashLineTailLen (tail ++ ls).
Proof.
  induction ls as [|l ls IH]; intros tail Ht; cbn [foldl].
  - rewrite app_nil_r. unfold lastN. by replace (length tail - crashLineTailLen)%nat with 0%nat by lia.
  - rewrite remember_lastN, IH by (done || apply length_lastN). by rewrite lastN_app, <- app_assoc.
Qed.

Lemma splitOn_prefix sep a b : lacks sep a = true → ∃ l ls, splitOn sep (a ++ b) = (a ++ l) :: ls.
Proof.
  induction a as [|c a IH]; cbn [app splitOn lacks forallb].
  - intros _. destruct (splitOn sep b) as [|l ls] eqn:E; [by apply splitOn_nonempty in E|]. by exists l, ls.
  - intros [Hc%negb_true_iff Ha]%andb_true_iff. rewrite Hc. destruct (IH Ha) as (l & ls & ->). by exists l, ls.
Qed.

(** Lines that fit are remembered as they are. *)
Lemma write_lines p : ∀ r, (length (rc_tail r) ≤ crashLineTailLen)%nat → lacks 10 (rc_partial r) = true →
  Forall (λ l, (length l ≤ crashLineRecorderMaxLine)%nat) (splitOn 10 (rc_partial r ++ p)) →
  tailLines ToLower (write p r) = foldl remember (rc_tail r) (omap line_of (splitOn 10 (rc_partial r ++ p))).
Proof.
  induction p as [|b p IH]; intros r Ht Hq Hlen.
  - rewrite app_nil_r, splitOn_lacks by done. change (write [] r) with r. unfold tailLines, recordLocked. cbn [omap list_omap].
    by destruct (line_of (rc_partial r)).
  - change (write (b :: p) r) with (write p (writeByte ToLower r b)). unfold writeByte. destruct (val b =? 10) eqn:Eb.
    + assert (Hs : splitOn 10 (rc_partial r ++ b :: p) = rc_partial r :: splitOn 10 p).
      { apply splitOn_app; [done|]. apply Z.eqb_eq in Eb. unfold val in Eb. apply N2Z.inj. rewrite Eb. done. }
      rewrite Hs in *. inversion Hlen as [|? ? _ Hlen']; subst. cbn [omap list_omap].
      rewrite IH; cbn [setPartial rc_partial rc_tail app]; [|unfold recordLocked; destruct (line_of _); cbn; [|done]|done|done].
      * unfold recordLocked. destruct (line_of (rc_partial r)); done.
      * rewrite remember_lastN by done. apply length_lastN.
    + assert (Hq' : lacks 10 (rc_partial r ++ [b]) = true).
      { rewrite lacks_app, Hq. cbn. rewrite andb_true_r. apply negb_true_iff, N.eqb_neq. intros E. apply Z.eqb_neq in Eb. apply Eb. unfold val. by rewrite E. }
      replace (rc_partial r ++ b :: p) with ((rc_partial r ++ [b]) ++ p) in Hlen |- * by (by rewrite <- app_assoc).
      assert (Hfit : (length (rc_partial r) < crashLineRecorderMaxLine)%nat).
      { destruct (splitOn_prefix 10 _ p Hq') as (l & ls & E). rewrite E in Hlen. inversion Hlen as [|? ? Hl _]; subst.
        rewrite !length_app in Hl. cbn in Hl. lia. }
      rewrite (proj2 (Nat.leb_gt _ _)) by done. by apply (IH (setPartial (rc_partial r ++ [b]) r)).
Qed.
End recorderFacts.

Section recorderBounds.
Context (ToLower : string → string).
#[local] Set Default Proof Using "Type".

Definition fits (r : crashLineRecorder) : Prop :=
  (length (rc_partial r) ≤ crashLineRecorderMaxLine)%nat ∧ (length (rc_tail r) ≤ crashLineTailLen)%nat.

Lemma recordLocked_fits r : (length (rc_tail r) ≤ crashLineTailLen)%nat → (length (rc_tail (recordLocked ToLower r)) ≤ crashLineTailLen)%nat.
Proof.
  intros Ht. unfold recordLocked. destruct (lineOf _ _); [|done]. cbn. rewrite remember_lastN by done. apply length_lastN.
Qed.

Lemma recordLocked_partial r : rc_partial (recordLocked ToLower r) = rc_partial r.
Proof. unfold recordLocked. by destruct (lineOf _ _). Qed.

Lemma runeCut_le fuel s : ∀ cut, (runeCut fuel cut s ≤ cut)%nat.
Proof. induction fuel as [|fuel IH]; intros cut; cbn [runeCut]; [lia|]. destruct (_ || _); [lia|]. specialize (IH (cut - 1)%nat). lia. Qed.

Lemma writeByte_fits r b : fits r → fits (writeByte ToLower r b).
Proof.
  intros [Hp Ht]. unfold writeByte. destruct (_ =? 10); [split; cbn; [lia|by apply recordLocked_fits]|].
  destruct (Nat.leb_spec crashLineRecorderMaxLine (length (rc_partial r))) as [Hle|Hlt].
  - unfold flushLongLineLocked. pose proof (runeCut_le UTFMax (rc_partial r) (length (rc_partial r))) as Hc.
    assert (Hpos : (0 < crashLineRecorderMaxLine)%nat) by (unfold crashLineRecorderMaxLine; lia).
    split; cbn [setPartial rc_partial rc_tail]; [|by apply recordLocked_fits]. rewrite length_app, length_drop. cbn [length].
    destruct (Nat.eqb_spec (runeCut UTFMax (length (rc_partial r)) (rc_partial r)) 0); lia.
  - split; cbn; [rewrite length_app; cbn; lia|done].
Qed.

Lemma Write_fits p : ∀ r, fits r → fits (Write ToLower p r).
Proof. induction p as [|b p IH]; intros r Hr; [done|]. apply (IH (writeByte ToLower r b)). by apply writeByte_fits. Qed.
End recorderBounds.

(** a recorder never holds more than 512 bytes of a line and eight lines,
    whatever the process writes and in whatever pieces; and of output whose
    lines fit it remembers exactly the last eight that are not blank. *)
Lemma recorder_tail ToLower writes :
  let p := concat writes in
  let r := foldl (λ r w, Write ToLower w r) newRecorder writes in
  (length (rc_partial r) ≤ 512)%nat ∧ (length (tailLines ToLower r) ≤ 8)%nat ∧
  (Forall (λ l, (length l ≤ 512)%nat) (splitOn 10 p) → tailLines ToLower r = lastN 8 (omap (lineOf ToLower) (splitOn 10 p))).
Proof.
  intros p r.
  assert (Hr : r = Write ToLower p newRecorder).
  { subst p r. generalize newRecorder. induction writes as [|w writes IH]; intros r0; [done|]. cbn [foldl concat].
    rewrite IH. unfold Write. by rewrite foldl_app. }
  clearbody r. subst r. destruct (Write_fits ToLower p newRecorder) as [H1 H2]; [split; cbn; unfold crashLineRecorderMaxLine; lia|].
  split_and!; [exact H1|by apply recordLocked_fits|]. intros Hl. rewrite write_lines; [|cbn; lia|done|done].
  change (rc_tail newRecorder) with (@nil crashLine). rewrite remember_all by (cbn; lia). done.
Qed.

(** * The machine *)
#[global] Instance fwdpc_eq_dec : EqDecision fwdpc.
Proof. solve_decision. Defined.

Definition sent (p : suppc) : bool := match p with SSent _ => true | _ => false end.

(** What [supervise] has found out of the stop. *)
Definition askedOf (p : suppc) : option bool :=
  match p with SWait => None | SAsked asked | SReaped asked => Some asked | SSent report => Some (bool_decide (report = None)) end.

Record runOK (s : run) : Prop := {
  ok_removal : rn_fwd s = FWait ↔ rn_removal s = None;
  ok_fwd : rn_fwd s ≠ FWait → sent (rn_sup s) = true;
  ok_child : rn_sup s ≠ SWait → is_Some (rn_child s);
  ok_asked : askedOf (rn_sup s) = Some true → rn_stopRequested s = true;
  ok_requested : rn_stops s ≠ [] → rn_stopRequested s = true;
  ok_stops t : t ∈ rn_stops s → match t with TCleaning => exited s = true | TReturned true => cleaned s = true | _ => True end
}.

Lemma stops_insert (P : tstop → Prop) (l : list tstop) (j : nat) (t : tstop) : (∀ x, x ∈ l → P x) → P t → ∀ x, x ∈ <[j := t]> l → P x.
Proof. intros Hl Ht x [k Hk]%list_elem_of_lookup. apply list_lookup_insert_Some in Hk as [(_ & <- & _)|[_ Hk]]; [done|]. apply Hl. by eapply list_elem_of_lookup_2. Qed.

(** An exit is no error exactly if it was requested. *)
Lemma exitReport_asked asked waitErr quote : bool_decide (exitReport asked waitErr quote = None) = asked.
Proof. unfold exitReport. destruct asked; [done|]. destruct waitErr as [e|]; [by destruct (str_empty quote)|done]. Qed.

Lemma stopStep_ok j timeout s s' : runOK s → stopStep j timeout s = Some s' → runOK s'.
Proof.
  intros [H1 H2 H3 H4 H5 H6]. unfold stopStep. destruct (rn_stops s !! j) as [t|] eqn:Ej; [|done]. cbn.
  assert (Ha : rn_stopRequested s = true) by (apply H5; by destruct (rn_stops s)).
  destruct t as [| | |ok]; [destruct timeout; [|case_eq (exited s); intros E; [|done]]|destruct timeout; [|case_eq (exited s); intros E; [|done]]|case_eq (cleaned s); intros E; [|done]|done];
    intros [= <-]; split; cbn [withStops rn_removal rn_fwd rn_sup rn_child rn_stopRequested rn_stops]; auto;
    by apply (stops_insert (λ t, match t with TCleaning => exited s = true | TReturned true => cleaned s = true | _ => True end)).
Qed.

Lemma withFwd_ok p removal s : runOK s → p ≠ FWait → removal ≠ None → sent (rn_sup s) = true →
  (cleaned s = true → cleaned (withFwd p removal s) = true) → runOK (withFwd p removal s).
Proof.
  intros [H1 H2 H3 H4 H5 H6] Hp Hr Hs Hc. split; cbn [withFwd rn_removal rn_fwd rn_sup rn_child rn_stopRequested rn_stops]; auto; [done|].
  intros t Ht. specialize (H6 t Ht). destruct t as [| | |[]]; auto.
Qed.

(** A step of [supervise] before anything is cleaned up. *)
Lemma withSup_ok p s : runOK s → sent (rn_sup s) = false → p ≠ SWait → is_Some (rn_child s) →
  (askedOf p = Some true → rn_stopRequested s = true) → (exited s = true → exited (withSup p s) = true) → runOK (withSup p s).
Proof.
  intros [H1 H2 H3 H4 H5 H6] Hs Hp Hc Ha He. split; cbn [withSup rn_removal rn_fwd rn_sup rn_child rn_stopRequested rn_stops]; auto.
  - intros Hf. by rewrite (H2 Hf) in Hs.
  - intros t Ht. specialize (H6 t Ht). destruct t as [| | |[]]; auto.
Qed.

Lemma supervise_ok quote s s' : runOK s → supervise quote s = Some s' → runOK s'.
Proof.
  intros Hok. pose proof (ok_asked _ Hok) as Ha. unfold supervise.
  destruct (rn_sup s) as [|asked|asked|report] eqn:Es; destruct (rn_child s) as [w|] eqn:Ec; try done; intros [= <-];
    (apply withSup_ok; [done|by rewrite Es|done|by rewrite Ec| |unfold exited; by rewrite Es]).
  - cbn. by intros [= ->].
  - exact Ha.
  - intros H. apply Ha. rewrite <- H. cbn. by rewrite exitReport_asked.
Qed.

Lemma runStep_ok e s s' : runOK s → runStep e s = Some s' → runOK s'.
Proof.
  intros Hok. destruct e as [w|quote|removed| |j timeout]; cbn [runStep].
  - destruct Hok as [H1 H2 H3 H4 H5 H6]. destruct (rn_child s) eqn:Ec; [done|]. intros [= <-]. split; cbn; auto.
  - by apply supervise_ok.
  - unfold forward. pose proof (ok_removal _ Hok) as Hr. pose proof (ok_fwd _ Hok) as Hf.
    destruct (rn_fwd s) eqn:Ef; [destruct (rn_sup s) eqn:Es; try done| | |done]; intros [= <-];
      (apply withFwd_ok; [done|done|done || (intros E; by apply Hr in E)|by rewrite Es || by apply Hf|unfold cleaned; by rewrite Ef]).
  - destruct Hok as [H1 H2 H3 H4 H5 H6]. intros [= <-]. split; cbn; auto.
    intros t [Ht|Ht]%elem_of_app; [by apply H6|]. apply list_elem_of_singleton in Ht as ->. done.
  - by apply stopStep_ok.
Qed.

Lemma runSteps_ok l : ∀ s s', runOK s → runSteps l s = Some s' → runOK s'.
Proof.
  induction l as [|e l IH]; intros s s' Hs; cbn [runSteps]; [by intros [= <-]|].
  destruct (runStep e s) as [s1|] eqn:E; [|done]. cbn. apply IH. by eapply runStep_ok.
Qed.

Lemma started_ok : runOK started ∧ runOK (Stop started).
Proof.
  assert (runOK started) as H by (split; cbn; try done; by intros ? ?%elem_of_nil).
  split; [done|]. by apply (runStep_ok EvStop started).
Qed.

(** ** What a stop decides *)
(** Once a stop is requested and [supervise] has not asked, it will find it. *)
Definition settled (s : run) : Prop := rn_stopRequested s = true ∧ askedOf (rn_sup s) ≠ Some false.

Lemma runStep_settled e s s' : settled s → runStep e s = Some s' → settled s'.
Proof.
  intros Hs. pose proof Hs as [Hr Ha]. destruct e as [w|quote|removed| |j timeout]; cbn [runStep].
  - destruct (rn_child s); [done|]. by intros [= <-].
  - unfold supervise. destruct (rn_sup s) as [|asked|asked|report]; destruct (rn_child s) as [w|]; try done; intros [= <-]; split; try done; cbn.
    + by rewrite Hr.
    + by rewrite exitReport_asked.
  - unfold forward. destruct (rn_fwd s), (rn_sup s); try done; by intros [= <-].
  - by intros [= <-].
  - unfold stopStep. destruct (rn_stops s !! j) as [t|]; [|done]. cbn.
    destruct t, timeout; try destruct (exited s); try destruct (cleaned s); try done; by intros [= <-].
Qed.

Lemma runSteps_settled l : ∀ s s', settled s → runSteps l s = Some s' → settled s'.
Proof.
  induction l as [|e l IH]; intros s s' Hs; cbn [runSteps]; [by intros [= <-]|].
  destruct (runStep e s) as [s1|] eqn:E; [|done]. cbn. apply IH. by eapply runStep_settled.
Qed.

(** ** The end of a run *)
(** What is left to do once the child has exited. *)
Definition cleanup (quote : string) (removed : bool) (s : run) : list runEvent :=
  replicate (match rn_sup s with SWait => 3 | SAsked _ => 2 | SReaped _ => 1 | SSent _ => 0 end) (EvSupervise quote) ++
  replicate (match rn_fwd s with FWait => 3 | FRemoved => 2 | FCleaned => 1 | FSent => 0 end) (EvForward removed).

Lemma cleanup_runs quote removed s : runOK s → is_Some (rn_child s) → ∃ s',
  runSteps (cleanup quote removed s) s = Some s' ∧ rn_fwd s' = FSent ∧ rn_stops s' = rn_stops s.
Proof.
  intros Hok [w Hw]. pose proof (ok_fwd _ Hok) as Hf. unfold cleanup.
  destruct (rn_fwd s) eqn:Ef; destruct (rn_sup s) eqn:Es; try (by discriminate Hf);
    cbn; unfold supervise, forward; rewrite ?Es, ?Hw; cbn; rewrite ?Hw; cbn; rewrite ?Hw; cbn; rewrite ?Ef, ?Es; cbn; eauto.
Qed.

(** Whatever its timers do, a Stop returns in three steps, without an error if
    they do not fire. *)
Definition waits (t : tstop) : nat := match t with TRequested => 3 | TKilling => 2 | TCleaning => 1 | TReturned _ => 0 end.
Definition answered (t : tstop) (fired : bool) : tstop :=
  match t with
  | TRequested => if fired then TKilling else TCleaning
  | TKilling => if fired then TReturned false else TCleaning
  | TCleaning => TReturned true
  | TReturned ok => TReturned ok
  end.

Lemma stopStep_answered j b l t s : exited s = true → cleaned s = true → l !! j = Some t → (0 < waits t)%nat →
  stopStep j b (withStops l s) = Some (withStops (<[j := answered t b]> l) s).
Proof.
  intros He Hc Hj Ht. unfold stopStep. cbn [withStops rn_stops]. rewrite Hj. cbn.
  change (exited (withStops l s)) with (exited s). change (cleaned (withStops l s)) with (cleaned s). rewrite He, Hc.
  destruct t, b; try done. cbn in Ht. lia. cbn in Ht. lia.
Qed.

Lemma stopCall_returns j s bs : exited s = true → cleaned s = true → ∀ t l, l !! j = Some t → (waits t ≤ length bs)%nat →
  ∃ n l' ok, (n ≤ waits t)%nat ∧ runSteps (EvStopStep j <$> take n bs) (withStops l s) = Some (withStops l' s) ∧
    l' !! j = Some (TReturned ok) ∧ (ok = false → t = TReturned false ∨ true ∈ bs).
Proof.
  intros He Hc. induction bs as [|b bs IH]; intros t l Hj Hn.
  - destruct t as [| | |ok]; cbn in Hn; try lia. exists 0%nat, l, ok. split_and!; try done. intros ->. by left.
  - destruct (decide (waits t = 0)%nat) as [Hz|Hz].
    { destruct t as [| | |ok]; try done. exists 0%nat, l, ok. split_and!; try done. intros ->. by left. }
    destruct (IH (answered t b) (<[j := answered t b]> l)) as (n & l' & ok & Hle & Hs & Hl & Hok);
      [apply list_lookup_insert_eq; by eapply lookup_lt_Some|destruct t, b; cbn in *; lia|].
    exists (S n), l', ok. split; [destruct t, b; cbn in *; lia|]. cbn [take fmap list_fmap runSteps runStep].
    rewrite (stopStep_answered j b l t s He Hc Hj) by lia. split; [exact Hs|]. split; [exact Hl|].
    intros E. right. destruct (Hok E) as [Ha|Hin]; [|by right]. destruct b; [by left|]. by destruct t.
Qed.

(** What holds of a run however it got there. *)
Lemma run_end s : runOK s →
  (rn_child s = None → onDisk s = true) ∧
  (rn_fwd s = FSent ∨ TReturned true ∈ rn_stops s →
     is_Some (rn_child s) ∧ ∃ removed, rn_removal s = Some removed ∧ onDisk s = negb removed) ∧
  (∀ report, rn_sup s = SSent report → report = None → rn_stopRequested s = true) ∧
  (rn_stopRequested s = true → rn_sup s = SWait → ∀ l' s' report, runSteps l' s = Some s' → rn_sup s' = SSent report → report = None) ∧
  (is_Some (rn_child s) → ∀ quote removed, (length (cleanup quote removed s) ≤ 6)%nat ∧
     ∃ s', runSteps (cleanup quote removed s) s = Some s' ∧ rn_fwd s' = FSent ∧
       ∀ j t fired, rn_stops s !! j = Some t → length fired = 3%nat → ∃ n s'' ok, (n ≤ 3)%nat ∧
         runSteps (EvStopStep j <$> take n fired) s' = Some s'' ∧ rn_stops s'' !! j = Some (TReturned ok) ∧
         (ok = false → t = TReturned false ∨ true ∈ fired)).
Proof.
  intros Hok. pose proof (ok_removal _ Hok) as Hr. split_and!.
  - intros Hc. unfold onDisk. destruct (decide (rn_fwd s = FWait)) as [Hw|Hn]; [by rewrite (proj1 Hr Hw)|]. exfalso.
    pose proof (ok_fwd _ Hok Hn) as Hs. destruct (ok_child _ Hok) as [w Hw]; [intros E; by rewrite E in Hs|]. by rewrite Hw in Hc.
  - intros H. assert (Hf : rn_fwd s ≠ FWait).
    { destruct H as [H|H]; [by rewrite H|]. pose proof (ok_stops _ Hok _ H) as Hc. cbn in Hc. intros E. unfold cleaned in Hc. by rewrite E in Hc. }
    split; [apply (ok_child _ Hok); intros E; pose proof (ok_fwd _ Hok Hf) as Hs; by rewrite E in Hs|].
    unfold onDisk. destruct (rn_removal s) as [removed|] eqn:E; [by exists removed|]. by destruct Hf; apply Hr.
  - intros report Hs ->. apply (ok_asked _ Hok). by rewrite Hs.
  - intros Hq Hw l' s' report Hs Hs'. assert (Hset : settled s) by (split; [done|by rewrite Hw]).
    destruct (runSteps_settled _ _ _ Hset Hs) as [_ Ha]. rewrite Hs' in Ha. cbn in Ha. case_bool_decide; done.
  - intros Hc quote removed. split.
    { unfold cleanup. rewrite length_app, !length_replicate. destruct (rn_sup s), (rn_fwd s); lia. }
    destruct (cleanup_runs quote removed s Hok Hc) as (s' & Hs' & Hf & Hstops). exists s'. split; [done|]. split; [done|].
    intros j t fired Hj Hlen. assert (Hok' : runOK s') by (by eapply runSteps_ok).
    assert (Hex : exited s' = true).
    { pose proof (ok_fwd _ Hok') as Hs. rewrite Hf in Hs. specialize (Hs ltac:(done)). unfold exited. by destruct (rn_sup s'). }
    destruct (stopCall_returns j s' fired Hex ltac:(unfold cleaned; by rewrite Hf) t (rn_stops s')) as (n & l' & ok & Hn & Hsteps & Hl & Ho);
      [by rewrite Hstops|destruct t; cbn; lia|].
    replace (withStops (rn_stops s') s') with s' in Hsteps by (by destruct s').
    exists n, (withStops l' s'), ok. split_and!; try done. destruct t; cbn in Hn; lia.
Qed.

(** C23: a run cleans up after itself.  A launch that fails leaves no
    configuration file unless its removal failed.  Of one that does not, in
    every interleaving: the file stays while the child lives; its removal was
    asked for before an exit is reported and before a Stop returns without an
    error; an exit is reported without an error if its stop was requested
    before the supervisor looked, and only if one was requested at all; and
    once the child has exited, six steps of the two goroutines ask for the
    removal and deliver the report, after which every Stop returns within
    three steps, without an error unless one of its timers fires. *)
Theorem run_cleans_up la :
  match Run la with
  | LFailed file => file = true → la_removed la = false
  | LLive s0 | LUnwinding s0 => ∀ l s, runSteps l s0 = Some s →
      (rn_child s = None → onDisk s = true) ∧
      (rn_fwd s = FSent ∨ TReturned true ∈ rn_stops s →
         is_Some (rn_child s) ∧ ∃ removed, rn_removal s = Some removed ∧ onDisk s = negb removed) ∧
      (∀ report, rn_sup s = SSent report → report = None → rn_stopRequested s = true) ∧
      (rn_stopRequested s = true → rn_sup s = SWait → ∀ l' s' report, runSteps l' s = Some s' → rn_sup s' = SSent report → report = None) ∧
      (is_Some (rn_child s) → ∀ quote removed, (length (cleanup quote removed s) ≤ 6)%nat ∧
         ∃ s', runSteps (cleanup quote removed s) s = Some s' ∧ rn_fwd s' = FSent ∧
           ∀ j t fired, rn_stops s !! j = Some t → length fired = 3%nat → ∃ n s'' ok, (n ≤ 3)%nat ∧
             runSteps (EvStopStep j <$> take n fired) s' = Some s'' ∧ rn_stops s'' !! j = Some (TReturned ok) ∧
             (ok = false → t = TReturned false ∨ true ∈ fired))
  end.
Proof.
  assert (Hmain : ∀ s0, runOK s0 → ∀ l s, runSteps l s0 = Some s → runOK s) by (intros s0 H0 l s H; by eapply runSteps_ok).
  destruct started_ok as [Hok1 Hok2]. unfold Run, writeTempConfig.
  destruct (la_ctxErr0 la), (la_created la), (la_written la), (la_closed la), (la_ctxErr1 la), (la_started la), (la_ctxErr2 la), (la_removed la);
    cbn [negb]; try done; intros l s Hs; apply run_end; eauto.
Qed.

(** * Examples *)
Section examples.
#[local] Open Scope string_scope.
Definition exampleExit : goError := newError "exit status 1".

Lemma crash_output_private_witness :
  containsAt (bytes exitedPrefix) (bytes (before [("local VPN setup failed: ", "")])) = None ∧
  ErrorDetail (Some (wrapAll [("local VPN setup failed: ", "")] (crashError "open /home/alice/config.json: denied" exampleExit))) =
    "local VPN setup failed: sing-box exited: exit status 1".
Proof.
  split; [vm_compute; reflexivity|].
  rewrite (crash_output_private [("local VPN setup failed: ", "")] "open /home/alice/config.json: denied" exampleExit ltac:(vm_compute; reflexivity)).
  vm_compute. reflexivity.
Defined.

(** Upper-case letters of ASCII, for the example. *)
Definition asciiLower (s : string) : string :=
  text ((λ c, if (65 <=? val c)%Z && (val c <=? 90)%Z then chr (val c + 32) else c) <$> bytes s).
Definition exampleOutput : list (list byte) := [(bytes "INFO started" ++ [chr 10])%list; bytes "error: bind: FATAL po"; bytes "rt in use"].
Lemma recorder_tail_witness :
  tailLines asciiLower (foldl (λ r w, Write asciiLower w r) newRecorder exampleOutput) =
    [{| cl_text := "INFO started"; cl_isErr := false |}; {| cl_text := "bind: FATAL port in use"; cl_isErr := true |}] ∧
  (length (tailLines asciiLower (foldl (λ r w, Write asciiLower w r) newRecorder exampleOutput)) ≤ 8)%nat.
Proof. split; [vm_compute; reflexivity|]. apply (recorder_tail asciiLower exampleOutput). Defined.

Definition exampleLaunch : launch :=
  {| la_ctxErr0 := false; la_created := true; la_written := true; la_closed := true; la_ctxErr1 := false; la_started := true;
     la_ctxErr2 := false; la_removed := true |}.
(** The child crashes, and is stopped between the supervisor's steps. *)
Definition exampleRun : list runEvent := [EvExit (Some exampleExit); EvSupervise ""; EvStop; EvSupervise ""].
Definition exampleRunEnd : run := default started (runSteps exampleRun started).
Lemma run_cleans_up_witness :
  Run exampleLaunch = LLive started ∧ runSteps exampleRun started = Some exampleRunEnd ∧ onDisk exampleRunEnd = true ∧
  (length (cleanup "bind: FATAL port in use" true exampleRunEnd) ≤ 6)%nat.
Proof.
  assert (Hrun : runSteps exampleRun started = Some exampleRunEnd) by (vm_compute; reflexivity).
  split; [reflexivity|]. split; [exact Hrun|]. split; [vm_compute; reflexivity|].
  destruct (run_cleans_up exampleLaunch exampleRun exampleRunEnd Hrun) as (_ & _ & _ & _ & H).
  apply H. vm_compute. eexists. reflexivity.
Defined.
End examples.
