(* ===== verification/RelayEngine.v ===== *)
(** The relay engine: identity, the reachability probe, the choice of a
    transport, direct and tunnelled sessions, and the supervisor that repeats
    them (src/libs/openrung/internal/relayruntime/engine/engine.go, probe.go,
    broker.go, config.go: [GenerateUUID], [GenerateShortID]; of the hub's client,
    internal/tunnel/client.go, the hello and its answer in [runOnce]).

    A session runs in a monad over the engine's stored configuration and status
    that writes down what it does to the outside: processes and listeners
    started and told to stop, probes, requests to the broker with their answers, hub
    connections, status snapshots.  What the outside answers is an argument of
    the session, point by point; the two loops consume what their [select]
    receives.  Log lines and the byte counters are left out. *)
From stdpp Require Import base list gmap strings.
From Stdlib Require Import ZArith Lia.
From S2P Require Import Prelude Codec GoTime Netip Directory Fronts Ticket RelayIdentity Ranking Registration BrokerStore BrokerServer Punch Tunnel RelayConfig.

(** * Status *)
Inductive Phase := PhaseIdle | PhaseStarting | PhaseProbing | PhaseRegistering | PhaseOnline | PhaseRetrying | PhaseStopping.
#[export] Instance Phase_eq_dec : EqDecision Phase.
Proof. solve_decision. Defined.

Record Status := {
  st_Phase : Phase;
  st_Transport : string;
  st_RelayID : string;
  st_Label : string;
  st_PublicHost : string;
  st_PublicPort : Z;
  st_LastError : string;
  st_onlineAt : Z;
  st_Registrations : Z
}.
Definition newStatus : Status :=
  {| st_Phase := PhaseIdle; st_Transport := ""; st_RelayID := ""; st_Label := ""; st_PublicHost := "";
     st_PublicPort := 0; st_LastError := ""; st_onlineAt := zero_time; st_Registrations := 0 |}.

(** The assignments [setStatus] makes. *)
Definition setPhase (p : Phase) (s : Status) : Status :=
  {| st_Phase := p; st_Transport := st_Transport s; st_RelayID := st_RelayID s; st_Label := st_Label s;
     st_PublicHost := st_PublicHost s; st_PublicPort := st_PublicPort s; st_LastError := st_LastError s;
     st_onlineAt := st_onlineAt s; st_Registrations := st_Registrations s |}.
Definition setLastError (e : string) (s : Status) : Status :=
  {| st_Phase := st_Phase s; st_Transport := st_Transport s; st_RelayID := st_RelayID s; st_Label := st_Label s;
     st_PublicHost := st_PublicHost s; st_PublicPort := st_PublicPort s; st_LastError := e;
     st_onlineAt := st_onlineAt s; st_Registrations := st_Registrations s |}.
Definition setLabel (l : string) (s : Status) : Status :=
  {| st_Phase := st_Phase s; st_Transport := st_Transport s; st_RelayID := st_RelayID s; st_Label := l;
     st_PublicHost := st_PublicHost s; st_PublicPort := st_PublicPort s; st_LastError := st_LastError s;
     st_onlineAt := st_onlineAt s; st_Registrations := st_Registrations s |}.
Definition setOnlineAt (t : Z) (s : Status) : Status :=
  {| st_Phase := st_Phase s; st_Transport := st_Transport s; st_RelayID := st_RelayID s; st_Label := st_Label s;
     st_PublicHost := st_PublicHost s; st_PublicPort := st_PublicPort s; st_LastError := st_LastError s;
     st_onlineAt := t; st_Registrations := st_Registrations s |}.
Definition setRelay (transport id host : string) (port : Z) (s : Status) : Status :=
  {| st_Phase := st_Phase s; st_Transport := transport; st_RelayID := id; st_Label := st_Label s;
     st_PublicHost := host; st_PublicPort := port; st_LastError := st_LastError s;
     st_onlineAt := st_onlineAt s; st_Registrations := st_Registrations s |}.
Definition setRelayID (id : string) (s : Status) : Status :=
  setRelay (st_Transport s) id (st_PublicHost s) (st_PublicPort s) s.
(** [e.registrations.Add(1)], a uint64. *)
Definition addRegistration (s : Status) : Status :=
  {| st_Phase := st_Phase s; st_Transport := st_Transport s; st_RelayID := st_RelayID s; st_Label := st_Label s;
     st_PublicHost := st_PublicHost s; st_PublicPort := st_PublicPort s; st_LastError := st_LastError s;
     st_onlineAt := st_onlineAt s; st_Registrations := (st_Registrations s + 1) mod 2 ^ 64 |}.

(** * What a session does *)
Inductive brokerError := ErrBrokerTransport | ErrInsecureURL | APIError (StatusCode : Z) (Message RetryAfter : string).
Inductive exchange :=
| ExRegister (req : RegisterRequest) (answer : result brokerError Descriptor)
| ExHeartbeat (id leaseToken : string) (answer : result brokerError ()).

Inductive DirectProbeOutcome :=
| DirectProbeReachable | DirectProbePermissionDenied | DirectProbePortInUse | DirectProbeExternallyUnreachable
| DirectProbeAPIUnavailable | DirectProbeBindFailed | DirectProbeInternalFailure.
#[export] Instance DirectProbeOutcome_eq_dec : EqDecision DirectProbeOutcome.
Proof. solve_decision. Defined.
Record DirectProbeResult := { dp_Outcome : DirectProbeOutcome; dp_ObservedHost : string }.

Inductive event :=
| EvStatus (s : Status)
| EvIdentity (id : Identity)
| EvProbe (base token listenHost : string) (port : Z) (r : DirectProbeResult)
| EvXrayStart (host : string) (port : Z) (id : Identity)
| EvXrayStop (killed exited : bool)               (* told to stop: by Kill, and its exit seen *)
| EvListen (host : string) (port : Z)
| EvListenCancel                                 (* a goroutine of the observer closes it then *)
| EvPost (url bearer : string) (ex : exchange)
| EvWait (d : Z)                                (* between two registrations *)
| EvBackoff (d : Z)                             (* between two sessions *)
| EvHubRun (addr : string)
| EvHubHello (hello : HelloFrame)
| EvHubAck (ack : HelloAckFrame)
| EvHubStop.                                     (* the client has returned *)

Record engine := { es_cfg : Config; es_status : Status }.
Definition M (A : Type) : Type := engine → A * list event * engine.
#[export] Instance M_ret : MRet M := λ A a s, (a, [], s).
#[export] Instance M_bind : MBind M := λ A B f m s,
  let '(a, l, s) := m s in let '(b, k, s) := f a s in (b, l ++ k, s).

Definition emit (e : event) : M () := λ s, (tt, [e], s).
Definition getConfig : M Config := λ s, (es_cfg s, [], s).
Definition putIdentity (id : Identity) : M () := λ s,
  (tt, [], {| es_cfg := withStoredIdentity id (es_cfg s); es_status := es_status s |}).
Definition setStatus (mutate : Status → Status) : M () := λ s,
  let st := mutate (es_status s) in (tt, [EvStatus st], {| es_cfg := es_cfg s; es_status := st |}).
Definition countRegistration : M () := λ s,
  (tt, [], {| es_cfg := es_cfg s; es_status := addRegistration (es_status s) |}).

(** How a session ends; [errReresolve] and [errPublicIPChanged] are restarts.
    [Serving] is a session that was not told to end. *)
Inductive sessionError := ErrReresolve | ErrPublicIPChanged | ErrCanceled | ErrConfig (e : configError) | ErrSession (msg : string).
Inductive outcome := Ended (err : option sessionError) | Serving.

(** * Identity *)
Definition setNibble (b : byte) (keep bits : Z) : byte := chr (Z.lor (Z.land (val b) keep) bits).

(** [fmt.Sprintf("%x-%x-%x-%x-%x", ...)] of 16 random bytes with the version and
    variant bits set; [None] is a failing [rand.Read]. *)
Definition GenerateUUID (rnd : option (list byte)) : option string :=
  b ← rnd;
  let b := alter (λ x, setNibble x 15 64) 6%nat b in
  let b := alter (λ x, setNibble x 63 128) 8%nat b in
  let hex i n := hexEncode (take n (drop i b)) in
  Some (text (hex 0%nat 4%nat ++ chr 45 :: hex 4%nat 2%nat ++ chr 45 :: hex 6%nat 2%nat ++ chr 45 :: hex 8%nat 2%nat ++ chr 45 :: hex 10%nat 6%nat)).

Definition GenerateShortID (rnd : option (list byte)) : option string :=
  b ← rnd; Some (text (hexEncode (take 8 b))).

(** What generation draws: random bytes, the key pair [xray x25519] prints and
    the seed [ed25519.GenerateKey] reads. *)
Record identityInputs := {
  ii_uuid : option (list byte);
  ii_shortID : option (list byte);
  ii_keyPair : option (string * string);
  ii_seed : option (list byte)
}.

Definition needsKeys (id : Identity) : bool :=
  str_empty (id_RealityPrivateKey id) || str_empty (id_RealityPublicKey id).

Section engine.
#[local] Set Default Proof Using "Type".
Context (ToLower : string → string) (EqualFold : string → string → bool).
Context (urlParse : string → option URL) (urlString : URL → string).
Context (Hostname Port : URL → string) (isIPLiteral : string → bool).
Context (NewKeyFromSeed Sum256 Public : list byte → list byte) (edSign : list byte → list byte → list byte).
Context (Marshal : wssCapabilityPayload → option (list byte)).
Context (JoinHostPort : string → string → string) (SplitHost : string → option string).

#[local] Notation identityKey := (identityKey NewKeyFromSeed).
#[local] Notation effectiveConfig := (effectiveConfig ToLower EqualFold urlParse urlString Hostname Port isIPLiteral NewKeyFromSeed).
#[local] Notation ValidateSecureBrokerURL := (ValidateSecureBrokerURL EqualFold urlParse Hostname).

(** A part that is missing is generated; whether it was. *)
Definition orGenerate {A} (missing : bool) (v : A) (gen : option A) (msg : string) : result sessionError (A * bool) :=
  if missing then match gen with Some v => Ok (v, true) | None => Err (ErrSession msg) end else Ok (v, false).

(** The identity completed, and whether anything was generated.  An unreadable
    seed is generated anew like a missing one. *)
Definition completeIdentity (inp : identityInputs) (id : Identity) : result sessionError (Identity * bool) :=
  let? client := orGenerate (str_empty (id_ClientID id)) (id_ClientID id) (GenerateUUID (ii_uuid inp)) "generate client ID" in
  let? short := orGenerate (str_empty (id_ShortID id)) (id_ShortID id) (GenerateShortID (ii_shortID inp)) "generate short ID" in
  let? keys := orGenerate (needsKeys id) (id_RealityPrivateKey id, id_RealityPublicKey id) (ii_keyPair inp) "run xray x25519" in
  let? seed := orGenerate (negb (bool_decide (is_Some (identityKey id)))) (id_IdentitySeed id)
                 ((λ s, EncodeIdentitySeed (NewKeyFromSeed s)) <$> ii_seed inp) "generate identity key" in
  Ok ({| id_ClientID := client.1; id_RealityPrivateKey := keys.1.1; id_RealityPublicKey := keys.1.2;
         id_ShortID := short.1; id_IdentitySeed := seed.1 |}, client.2 || short.2 || keys.2 || seed.2).

Definition prepareIdentity (inp : identityInputs) : M (result sessionError Identity) :=
  cfg ← getConfig;
  match completeIdentity inp (cf_Identity cfg) with
  | Err e => mret (Err e)
  | Ok (id, true) => _ ← putIdentity id; _ ← emit (EvIdentity id); mret (Ok id)
  | Ok (id, false) => mret (Ok id)
  end.

(** * The reachability probe *)
Inductive bindError := BindPermission | BindInUse | BindOther.
Definition classifyProbeBindError (e : bindError) : DirectProbeOutcome :=
  match e with
  | BindPermission => DirectProbePermissionDenied
  | BindInUse => DirectProbePortInUse
  | BindOther => DirectProbeBindFailed
  end.

(** One call of the hub's probe endpoint: whether the context had ended before
    it, its answer (reachable, observed host), and whether the context ended
    during the second after a failure. *)
Record probeCall := { pc_ctxErr : bool; pc_answer : option (bool * string); pc_waitEnded : bool }.
Definition detectAttempts : nat := 3.

Fixpoint probeAttempts (n : nat) (calls : nat → probeCall) (i : nat) : DirectProbeResult :=
  let unavailable := {| dp_Outcome := DirectProbeAPIUnavailable; dp_ObservedHost := "" |} in
  match n with
  | O => unavailable
  | S n =>
      let c := calls i in
      if pc_ctxErr c then unavailable else
      match pc_answer c with
      | None => if pc_waitEnded c then unavailable else probeAttempts n calls (S i)
      | Some (reachable, host) =>
          {| dp_Outcome := if reachable then DirectProbeReachable else DirectProbeExternallyUnreachable;
             dp_ObservedHost := host |}
      end
  end.

(** [rnd] is whether the nonce could be read; [bind] the listener. *)
Record probeInputs := { pi_rnd : bool; pi_bind : option bindError; pi_calls : nat → probeCall }.
Definition ProbeDirectReachability (p : probeInputs) : DirectProbeResult :=
  if negb (pi_rnd p) then {| dp_Outcome := DirectProbeInternalFailure; dp_ObservedHost := "" |} else
  match pi_bind p with
  | Some e => {| dp_Outcome := classifyProbeBindError e; dp_ObservedHost := "" |}
  | None => probeAttempts detectAttempts (pi_calls p) 0
  end.

(** The probe of each port, and whether the context had ended after it. *)
Record probeEnv := { pe_probe : Z → probeInputs; pe_ctxErr : Z → bool }.

Definition hubHTTPBase (cfg : Config) : string :=
  DeriveHubHTTPBase JoinHostPort (SplitHost (cf_HubAddr cfg)) (cf_HubHTTPURL cfg) (cf_HubAddr cfg) (negb (cf_HubPlaintext cfg)).

(** [None] is ("", "", 0) of an ended context. *)
Fixpoint resolvePorts (cfg : Config) (env : probeEnv) (ports : list Z) : M (option (string * string * Z)) :=
  match ports with
  | [] => mret (Some (ModeTunnel, ""%string, 0))
  | port :: ports =>
      let r := ProbeDirectReachability (pe_probe env port) in
      _ ← emit (EvProbe (hubHTTPBase cfg) (cf_Token cfg) (directListenHost cfg true) port r);
      if pe_ctxErr env port : bool then mret None else
      match dp_Outcome r with
      | DirectProbeReachable => mret (Some (ModeDirect, dp_ObservedHost r, port))
      | DirectProbeAPIUnavailable | DirectProbeInternalFailure => mret (Some (ModeTunnel, ""%string, 0))
      | _ => resolvePorts cfg env ports
      end
  end.
Definition autoResolve (cfg : Config) (env : probeEnv) : M (option (string * string * Z)) :=
  resolvePorts cfg env (automaticPortCandidates cfg).

(** * The broker *)
Fixpoint dropSlashes (l : list byte) : list byte :=
  match l with b :: l' => if val b =? 47 then dropSlashes l' else l | [] => [] end.
(** [strings.TrimRight(s, "/")] *)
Definition trimSlashes (s : string) : string := text (reverse (dropSlashes (reverse (bytes s)))).

Definition relayRegisterPath : string := "/api/v1/relays/register".
Definition relayHeartbeatPathBase : string := "/api/v1/relays/".

(** [answer] is what the exchange would end with; a URL the policy refuses is
    never asked. *)
Definition postJSON {A} (b : BrokerClient) (path : string) (ex : result brokerError A → exchange)
    (answer : result brokerError A) : M (result brokerError A) :=
  let url := trimSlashes (bc_BaseURL b) +:+ path in
  if bc_RequireSecureTransport b && negb (ValidateSecureBrokerURL url) then mret (Err ErrInsecureURL)
  else _ ← emit (EvPost url (bc_Token b) (ex answer)); mret answer.

Definition Register (b : BrokerClient) (req : RegisterRequest) (answer : result brokerError Descriptor)
    : M (result brokerError Descriptor) := postJSON b relayRegisterPath (ExRegister req) answer.
Definition Heartbeat (b : BrokerClient) (id leaseToken : string) (answer : result brokerError ()) : M (result brokerError ()) :=
  postJSON b (relayHeartbeatPathBase +:+ id +:+ "/heartbeat") (ExHeartbeat id leaseToken) answer.

Definition IsRelayNotFound (e : brokerError) : bool :=
  match e with APIError code msg _ => (code =? 404) && str_eqb msg "relay not found" | _ => false end.

(** The answer of one try, the context after it, and whether it ended during
    the wait. *)
Record registerTry := { rt_answer : result brokerError Descriptor; rt_ctxErr : bool; rt_waitEnded : bool }.

Definition retryWait (backoff : Z) (e : brokerError) : Z :=
  match e with
  | APIError _ _ ra =>
      if str_empty ra then backoff else
      match ParseInt (bytes ra) with
      | Some secs => if 0 <? secs then wrap64 (secs * second) else backoff
      | None => backoff
      end
  | _ => backoff
  end.

Fixpoint registerTries (n : nat) (b : BrokerClient) (req : RegisterRequest) (tries : nat → registerTry) (i : nat) (backoff : Z)
    : M (result sessionError Descriptor) :=
  match n with
  | O => mret (Err (ErrSession "register with broker"))
  | S n =>
      r ← Register b req (rt_answer (tries i));
      match r with
      | Ok desc => mret (Ok desc)
      | Err e =>
          if rt_ctxErr (tries i) : bool then mret (Err ErrCanceled) else
          _ ← emit (EvWait (retryWait backoff e));
          if rt_waitEnded (tries i) : bool then mret (Err ErrCanceled)
          else registerTries n b req tries (S i) (backoff * 2)
      end
  end.
Definition registerWithRetry (b : BrokerClient) (req : RegisterRequest) (tries : nat → registerTry) : M (result sessionError Descriptor) :=
  registerTries 3 b req tries 0 (2 * second).

(** [None] is no error. *)
Definition verifyRegisteredDescriptor (req : RegisterRequest) (desc : Descriptor) (key : list byte) : option sessionError :=
  if str_eqb (rq_NodeClass req) NodeClassFoundation && negb (str_eqb (dd_NodeClass desc) NodeClassFoundation)
  then Some (ErrSession "node class not attested") else
  if negb (bool_decide (dd_WSSFronts desc = rq_WSSFronts req)) then Some (ErrSession "WSS fronts not echoed") else
  if negb (length (rq_WSSFronts req) =? 0)%nat && negb (str_eqb (dd_ID desc) (DeriveRelayID Sum256 (Public key)))
  then Some (ErrSession "relay ID does not match the identity") else None.

(** * Requests *)
Definition registerRequest (cfg : Config) (label : string) (id : Identity) (publicHost : string) : RegisterRequest :=
  {| rq_PublicHost := publicHost; rq_PublicPort := publicPort cfg; rq_Protocol := ProtocolVLESSRealityVision;
     rq_ClientID := id_ClientID id; rq_RealityPublicKey := id_RealityPublicKey id; rq_ShortID := id_ShortID id;
     rq_ServerName := cf_ServerName cfg; rq_Flow := FlowVision; rq_ExitMode := ExitModeDirect;
     rq_MaxSessions := cf_MaxSessions cfg; rq_MaxMbps := cf_MaxMbps cfg; rq_RelayVersion := cf_Version cfg;
     rq_Label := label; rq_NodeClass := cf_NodeClass cfg; rq_Transport := TransportDirect;
     rq_PunchCapable := false; rq_PunchEndpoint := ""; rq_WSSFronts := cf_WSSFronts cfg;
     rq_WSSCapabilityProof := ""; rq_WSSCapabilityExpiresAt := ""; rq_ExitHost := "";
     rq_IdentityPublicKey := ""; rq_IdentityProof := ""; rq_IdentityExpiresAt := "" |}.

Definition withCapability (req : RegisterRequest) (cap : string * string) : RegisterRequest :=
  {| rq_PublicHost := rq_PublicHost req; rq_PublicPort := rq_PublicPort req; rq_Protocol := rq_Protocol req;
     rq_ClientID := rq_ClientID req; rq_RealityPublicKey := rq_RealityPublicKey req; rq_ShortID := rq_ShortID req;
     rq_ServerName := rq_ServerName req; rq_Flow := rq_Flow req; rq_ExitMode := rq_ExitMode req;
     rq_MaxSessions := rq_MaxSessions req; rq_MaxMbps := rq_MaxMbps req; rq_RelayVersion := rq_RelayVersion req;
     rq_Label := rq_Label req; rq_NodeClass := rq_NodeClass req; rq_Transport := rq_Transport req;
     rq_PunchCapable := rq_PunchCapable req; rq_PunchEndpoint := rq_PunchEndpoint req; rq_WSSFronts := rq_WSSFronts req;
     rq_WSSCapabilityProof := cap.1; rq_WSSCapabilityExpiresAt := cap.2; rq_ExitHost := rq_ExitHost req;
     rq_IdentityPublicKey := rq_IdentityPublicKey req; rq_IdentityProof := rq_IdentityProof req;
     rq_IdentityExpiresAt := rq_IdentityExpiresAt req |}.

Definition signedRequest (key : list byte) (req : RegisterRequest) (now : Z) : result sessionError RegisterRequest :=
  let expiresAt := time_add now IdentityProofTTLDirect in
  let signed := withIdentity req (SignIdentity Public edSign key req expiresAt) in
  if (length (rq_WSSFronts signed) =? 0)%nat then Ok signed else
  match SignWSSCapability Sum256 Public edSign ToLower EqualFold urlParse urlString Hostname Port isIPLiteral Marshal key signed expiresAt with
  | Ok cap => Ok (withCapability signed cap)
  | Err _ => Err (ErrSession "sign WSS capability")
  end.

Definition helloFrame (cfg : Config) (label : string) (id : Identity) : HelloFrame :=
  {| hf_ProtocolVersion := 0; hf_Token := cf_Token cfg; hf_RealityPublicKey := id_RealityPublicKey id;
     hf_ShortID := id_ShortID id; hf_ServerName := cf_ServerName cfg; hf_ClientID := id_ClientID id;
     hf_Flow := FlowVision; hf_ExitMode := ExitModeDirect; hf_MaxSessions := cf_MaxSessions cfg;
     hf_MaxMbps := cf_MaxMbps cfg; hf_Label := label; hf_RelayVersion := cf_Version cfg; hf_StreamTyping := true;
     hf_PunchCapable := cf_PunchCapable cfg; hf_IdentityPublicKey := ""; hf_IdentityProof := "";
     hf_IdentityExpiresAt := "" |}.

(** * The xray process

    How the process comes to an end: whether the interrupt can be sent (on
    Windows it cannot), and whether its exit is seen within the two seconds
    after it and within the second after [Kill]. *)
Record xrayInputs := {
  xi_write : bool;
  xi_start : bool;
  xi_interrupt : bool;
  xi_exit : bool;
  xi_exitKilled : bool
}.

Definition xrayConfigInput (cfg : Config) (id : Identity) (host : string) (port : Z) : XrayConfigInput :=
  {| xc_ListenHost := host; xc_ListenPort := port; xc_ClientID := id_ClientID id; xc_Flow := FlowVision;
     xc_Dest := cf_RealityDest cfg; xc_ServerName := cf_ServerName cfg;
     xc_RealityPrivateKey := id_RealityPrivateKey id; xc_ShortID := id_ShortID id |}.

(** Whether a process was started: none is when xray is disabled. *)
Definition startXray (cfg : Config) (id : Identity) (host : string) (port : Z) (inp : xrayInputs) : M (result sessionError bool) :=
  match BuildXrayConfig (xrayConfigInput cfg id host port) with
  | None => mret (Err (ErrSession "xray config"))
  | Some _ =>
      if negb (xi_write inp) then mret (Err (ErrSession "write xray config")) else
      if cf_DisableXray cfg then mret (Ok false) else
      if negb (xi_start inp) then mret (Err (ErrSession "start xray")) else
      _ ← emit (EvXrayStart host port id); mret (Ok true)
  end.

(** Both waits are bounded: the process may outlive the call, but not without
    having been killed.  A process that had crashed is waited for in vain: its
    exit was already taken from the channel. *)
Definition stopProcess (inp : xrayInputs) (started : bool) : M () :=
  if negb started then mret tt else
  if xi_exit inp then emit (EvXrayStop (negb (xi_interrupt inp)) true)
  else emit (EvXrayStop true (xi_exitKilled inp)).

(** A deferred release: it runs when the session ends. *)
Definition deferring (release : M ()) (body : M outcome) : M outcome :=
  o ← body;
  match o with Serving => mret o | Ended _ => _ ← release; mret o end.

(** * A direct session *)
Inductive directTick :=
| DCtxDone
| DXray (err : option string)
| DObserver (err : option string)
| DObserverClosed
| DIPRecheck (detected : option string)
| DHeartbeat (answer : result brokerError ()) (now : Z) (again : result brokerError Descriptor).

Section direct.
Context (broker : BrokerClient) (req : RegisterRequest) (key : list byte).

(** The [select] loop; [observer] is whether the listener's channel is open,
    a closed one is never received from again. *)
Fixpoint directLoop (baseline : string) (ticks : list directTick) (observer : bool) (desc : Descriptor) : M outcome :=
  match ticks with
  | [] => mret Serving
  | DCtxDone :: _ => mret (Ended None)
  | DXray _ :: _ => mret (Ended (Some (ErrSession "xray exited")))
  | DObserver err :: ticks =>
      match observer, err with
      | true, Some _ => mret (Ended (Some (ErrSession "connection listener stopped")))
      | _, _ => directLoop baseline ticks observer desc
      end
  | DObserverClosed :: ticks => directLoop baseline ticks false desc
  | DIPRecheck detected :: ticks =>
      match detected with
      | Some d =>
          if negb (str_empty baseline) && negb (str_eqb d baseline) then mret (Ended (Some ErrPublicIPChanged))
          else directLoop baseline ticks observer desc
      | None => directLoop baseline ticks observer desc
      end
  | DHeartbeat answer now again :: ticks =>
      h ← Heartbeat broker (dd_ID desc) (dd_LeaseToken desc) answer;
      match h with
      | Ok _ => directLoop baseline ticks observer desc
      | Err e =>
          if negb (IsRelayNotFound e) then directLoop baseline ticks observer desc else
          match signedRequest key req now with
          | Err _ => directLoop baseline ticks observer desc
          | Ok signed =>
              r ← Register broker signed again;
              match r with
              | Err _ => directLoop baseline ticks observer desc
              | Ok updated =>
                  match verifyRegisteredDescriptor signed updated key with
                  | Some _ => mret (Ended (Some (ErrSession "re-register after expired lease")))
                  | None =>
                      _ ← countRegistration;
                      _ ← setStatus (setRelayID (dd_ID updated));
                      directLoop baseline ticks observer updated
                  end
              end
          end
      end
  end.
End direct.

Record directEnv := {
  de_detect : option string;             (* detectPublicIPv6, for the endpoint *)
  de_loopback : option (string * Z);     (* ReserveLoopbackTCPPort *)
  de_xray : xrayInputs;
  de_listen : bool;
  de_now : Z;
  de_tries : nat → registerTry;
  de_baseline : option string;           (* detectPublicIPv6, for the recheck *)
  de_onlineAt : Z;
  de_ticks : list directTick
}.

Definition hasFronts (cfg : Config) : bool := negb (length (cf_WSSFronts cfg) =? 0)%nat.

(** The advertised host, and whether it is the configured one. *)
Definition directHost (cfg : Config) (publicHost : string) (detect : option string) : option (string * bool) :=
  let configured := str_empty publicHost && negb (str_empty (cf_PublicHost cfg)) in
  let publicHost := if configured then cf_PublicHost cfg else publicHost in
  if str_empty publicHost then (λ h, (h, configured)) <$> detect else Some (publicHost, configured).

(** A WSS registration uses exactly the configured seed. *)
Definition seedMatches (cfg : Config) (key : list byte) : bool :=
  match ParseIdentitySeed NewKeyFromSeed (id_IdentitySeed (cf_Identity cfg)) with
  | Some configured => bool_decide (configured = key)
  | None => false
  end.

Definition onlineStatus (transport id host : string) (port : Z) (s : Status) : Status :=
  setLastError "" (setRelay transport id host port (setPhase PhaseOnline s)).

(** From the registration on. *)
Definition serveDirect (broker : BrokerClient) (cfg : Config) (label : string) (id : Identity) (publicHost : string)
    (configured : bool) (env : directEnv) : M outcome :=
  _ ← setStatus (setPhase PhaseRegistering);
  match identityKey id with
  | None => mret (Ended (Some (ErrSession "identity seed")))
  | Some key =>
      if hasFronts cfg && negb (seedMatches cfg key)
      then mret (Ended (Some (ErrSession "prepared identity does not match the seed"))) else
      let req := registerRequest cfg label id publicHost in
      match signedRequest key req (de_now env) with
      | Err e => mret (Ended (Some e))
      | Ok signed =>
          r ← registerWithRetry broker signed (de_tries env);
          match r with
          | Err e => mret (Ended (Some e))
          | Ok desc =>
              match verifyRegisteredDescriptor signed desc key with
              | Some e => mret (Ended (Some e))
              | None =>
                  _ ← countRegistration;
                  _ ← setStatus (λ s, setOnlineAt (de_onlineAt env)
                        (onlineStatus TransportDirect (dd_ID desc) (dd_PublicHost desc) (dd_PublicPort desc) s));
                  let baseline := if configured then ""%string else default ""%string (de_baseline env) in
                  directLoop broker req key baseline (de_ticks env) (negb (hasFronts cfg)) desc
              end
          end
      end
  end.

(** The end of the session cancels the observer's context; a goroutine closes
    the listener after that. *)
Definition listening (cfg : Config) (listenHost : string) (opened : bool) (body : M outcome) : M outcome :=
  if hasFronts cfg then body else
  if negb opened then mret (Ended (Some (ErrSession "listen on port"))) else
  _ ← emit (EvListen listenHost (cf_ListenPort cfg));
  deferring (emit EvListenCancel) body.

Definition runDirectSession (broker : BrokerClient) (cfg : Config) (label : string) (id : Identity)
    (publicHost listenHost : string) (env : directEnv) : M outcome :=
  match directHost cfg publicHost (de_detect env) with
  | None => mret (Ended (Some (ErrSession "no public address")))
  | Some (host, configured) =>
      match (if hasFronts cfg then Some (wssListenHost cfg, cf_ListenPort cfg) else de_loopback env) with
      | None => mret (Ended (Some (ErrSession "reserve loopback TCP port")))
      | Some (xrayHost, xrayPort) =>
          x ← startXray cfg id xrayHost xrayPort (de_xray env);
          match x with
          | Err e => mret (Ended (Some e))
          | Ok started =>
              deferring (stopProcess (de_xray env) started)
                (listening cfg listenHost (de_listen env) (serveDirect broker cfg label id host configured env))
          end
      end
  end.

(** * A tunnelled session *)
Inductive tunnelTick :=
| THello (now : Z)                              (* the hub client connects *)
| TAck (ack : HelloAckFrame) (now : Z)          (* and reads the answer *)
| TDisconnected (err : option string)
| TReprobe (env : probeEnv)
| TBecameDirect
| TCtxDone
| TXray (err : option string)
| TClientDone (err : option string).

Definition helloVersion (h : HelloFrame) : HelloFrame :=
  {| hf_ProtocolVersion := ProtocolVersion; hf_Token := hf_Token h; hf_RealityPublicKey := hf_RealityPublicKey h;
     hf_ShortID := hf_ShortID h; hf_ServerName := hf_ServerName h; hf_ClientID := hf_ClientID h; hf_Flow := hf_Flow h;
     hf_ExitMode := hf_ExitMode h; hf_MaxSessions := hf_MaxSessions h; hf_MaxMbps := hf_MaxMbps h;
     hf_Label := hf_Label h; hf_RelayVersion := hf_RelayVersion h; hf_StreamTyping := hf_StreamTyping h;
     hf_PunchCapable := hf_PunchCapable h; hf_IdentityPublicKey := hf_IdentityPublicKey h;
     hf_IdentityProof := hf_IdentityProof h; hf_IdentityExpiresAt := hf_IdentityExpiresAt h |}.

(** [watching] is whether the reprobe goroutine runs, [signalled] whether it
    found another transport, [greeted] whether the client has sent a hello on
    the connection and not yet read its answer ([runOnce]); it reads none
    otherwise, and reports only an answer that accepts. *)
Fixpoint tunnelLoop (cfg : Config) (hello : HelloFrame) (key : list byte) (ticks : list tunnelTick)
    (watching signalled greeted : bool) : M outcome :=
  match ticks with
  | [] => mret Serving
  | THello now :: ticks =>
      _ ← emit (EvHubHello (helloVersion (SignHello Public edSign key hello (time_add now IdentityProofTTLTunnel))));
      tunnelLoop cfg hello key ticks watching signalled true
  | TAck ack now :: ticks =>
      if negb greeted then tunnelLoop cfg hello key ticks watching signalled greeted else
      if negb (ha_OK ack) then tunnelLoop cfg hello key ticks watching signalled false else
      _ ← emit (EvHubAck ack);
      _ ← countRegistration;
      _ ← setStatus (λ s, let s := onlineStatus TransportTunnel (ha_RelayID ack) (ha_PublicHost ack) (ha_PublicPort ack) s in
                          if time_is_zero (st_onlineAt s) then setOnlineAt now s else s);
      tunnelLoop cfg hello key ticks watching signalled false
  | TDisconnected err :: ticks =>
      _ ← setStatus (λ s, let s := setPhase PhaseRegistering s in
                          match err with Some e => setLastError e s | None => s end);
      tunnelLoop cfg hello key ticks watching signalled false
  | TReprobe env :: ticks =>
      match watching with
      | false => tunnelLoop cfg hello key ticks watching signalled greeted
      | true =>
          r ← autoResolve cfg env;
          match r with
          | Some (mode, _, _) =>
              if str_eqb mode ModeTunnel then tunnelLoop cfg hello key ticks watching signalled greeted
              else tunnelLoop cfg hello key ticks false true greeted
          | None => tunnelLoop cfg hello key ticks watching signalled greeted
          end
      end
  | TBecameDirect :: ticks =>
      match signalled with
      | true => _ ← emit EvHubStop; mret (Ended (Some ErrReresolve))
      | false => tunnelLoop cfg hello key ticks watching signalled greeted
      end
  | TCtxDone :: _ => _ ← emit EvHubStop; mret (Ended None)
  | TXray _ :: _ => _ ← emit EvHubStop; mret (Ended (Some (ErrSession "xray exited")))
  | TClientDone _ :: _ => _ ← emit EvHubStop; mret (Ended (Some (ErrSession "hub connection stopped")))
  end.

Record tunnelEnv := { te_loopback : option (string * Z); te_xray : xrayInputs; te_ticks : list tunnelTick }.

Definition serveTunnel (cfg : Config) (label : string) (id : Identity) (env : tunnelEnv) : M outcome :=
  _ ← setStatus (setPhase PhaseRegistering);
  match identityKey id with
  | None => mret (Ended (Some (ErrSession "identity seed")))
  | Some key =>
      _ ← emit (EvHubRun (cf_HubAddr cfg));
      tunnelLoop cfg (helloFrame cfg label id) key (te_ticks env) (str_eqb (cf_Mode cfg) ModeAuto) false false
  end.

Definition runTunnelSession (cfg : Config) (label : string) (id : Identity) (env : tunnelEnv) : M outcome :=
  match te_loopback env with
  | None => mret (Ended (Some (ErrSession "reserve loopback TCP port")))
  | Some (host, port) =>
      x ← startXray cfg id host port (te_xray env);
      match x with
      | Err e => mret (Ended (Some e))
      | Ok started => deferring (stopProcess (te_xray env) started) (serveTunnel cfg label id env)
      end
  end.

(** * A session *)
Record sessionEnv := {
  se_label : string;                     (* GenerateLabel *)
  se_identity : identityInputs;
  se_probe : probeEnv;
  se_direct : directEnv;
  se_tunnel : tunnelEnv
}.

Definition sessionLabel (cfg : Config) (generated : string) : option string :=
  if str_empty (cf_Label cfg) then Some generated else NormalizeLabel (cf_Label cfg).

(** The transport, and the session over it. *)
Definition chooseTransport (broker : BrokerClient) (cfg : Config) (label : string) (id : Identity) (env : sessionEnv) : M outcome :=
  if str_eqb (cf_Mode cfg) ModeAuto && negb (str_empty (cf_HubAddr cfg)) then
    _ ← setStatus (setPhase PhaseProbing);
    r ← autoResolve cfg (se_probe env);
    match r with
    | None => mret (Ended (Some ErrCanceled))
    | Some (mode, publicHost, port) =>
        if str_eqb mode ModeDirect
        then runDirectSession broker (withPorts port cfg) label id publicHost (directListenHost (withPorts port cfg) true) (se_direct env)
        else runTunnelSession cfg label id (se_tunnel env)
    end
  else if str_eqb (cf_Mode cfg) ModeTunnel then runTunnelSession cfg label id (se_tunnel env)
  else runDirectSession broker cfg label id "" (directListenHost cfg false) (se_direct env).

Definition runSession (broker : BrokerClient) (env : sessionEnv) : M outcome :=
  raw ← getConfig;
  match effectiveConfig raw with
  | Err e => mret (Ended (Some (ErrConfig e)))
  | Ok cfg =>
      _ ← setStatus (λ s, setLastError "" (setPhase PhaseStarting s));
      match sessionLabel cfg (se_label env) with
      | None => mret (Ended (Some (ErrSession "invalid label")))
      | Some label =>
          _ ← setStatus (setLabel label);
          id ← prepareIdentity (se_identity env);
          match id with
          | Err e => mret (Ended (Some e))
          | Ok id => chooseTransport broker cfg label id env
          end
      end
  end.

(** * The supervisor *)
Definition backoffMin : Z := 2 * second.
Definition backoffMax : Z := minute.

(** A session, the context after it, whether it lasted over two minutes, and
    whether the context ended during the wait after it. *)
Record round := { rd_session : sessionEnv; rd_ctxErr : bool; rd_long : bool; rd_waitEnded : bool }.

Definition restarts (err : option sessionError) : bool :=
  match err with Some ErrReresolve | Some ErrPublicIPChanged => true | _ => false end.
Context (describe : option sessionError → string).

(** Whether the supervisor returned. *)
Fixpoint supervise (broker : BrokerClient) (rounds : list round) (backoff : Z) : M bool :=
  match rounds with
  | [] => mret false
  | r :: rounds =>
      o ← runSession broker (rd_session r);
      match o with
      | Serving => mret false
      | Ended err =>
          if rd_ctxErr r : bool then mret true else
          if restarts err : bool then
            _ ← setStatus (λ s, setLastError "" (setPhase PhaseStarting s));
            supervise broker rounds backoffMin
          else
            let backoff := if rd_long r : bool then backoffMin else backoff in
            _ ← setStatus (λ s, setOnlineAt zero_time (setLastError (describe err) (setPhase PhaseRetrying s)));
            _ ← emit (EvBackoff backoff);
            if rd_waitEnded r : bool then mret true
            else supervise broker rounds (if backoffMax <? backoff * 2 then backoffMax else backoff * 2)
      end
  end.

Definition idleStatus (s : Status) : Status := setOnlineAt zero_time (setRelay "" "" "" 0 (setPhase PhaseIdle s)).

Definition run (rounds : list round) : M bool :=
  cfg ← getConfig;
  let brokerConfig := match effectiveConfig cfg with Ok e => e | Err _ => cfg end in
  ended ← supervise (brokerClient ToLower brokerConfig) rounds backoffMin;
  match ended with
  | true => _ ← setStatus idleStatus; mret true
  | false => mret false
  end.

(** [RenderXrayConfig]; [running] is [e.Running()], [loopback] the reserved
    port of tunnel mode. *)
Definition renderBinding (cfg : Config) (loopback : option (string * Z)) : result sessionError (string * Z) :=
  let host := directListenHost cfg false in
  if str_eqb (cf_Mode cfg) ModeTunnel then
    match loopback with Some b => Ok b | None => Err (ErrSession "reserve loopback TCP port") end
  else if hasFronts cfg then Ok (wssListenHost cfg, cf_ListenPort cfg)
  else if isDualListenHost ToLower host then Err (ErrSession "listen host names two listeners")
  else Ok (host, cf_ListenPort cfg).

Definition RenderXrayConfig (running : bool) (inp : identityInputs) (loopback : option (string * Z)) : M (result sessionError json) :=
  if running then mret (Err (ErrSession "relay is running")) else
  raw ← getConfig;
  match effectiveConfig raw with
  | Err e => mret (Err (ErrConfig e))
  | Ok cfg =>
      match validate ToLower EqualFold urlParse urlString Hostname Port isIPLiteral NewKeyFromSeed cfg with
      | Err e => mret (Err (ErrConfig e))
      | Ok _ =>
          id ← prepareIdentity inp;
          match id with
          | Err e => mret (Err e)
          | Ok id =>
              match renderBinding cfg loopback with
              | Err e => mret (Err e)
              | Ok (host, port) =>
                  match BuildXrayConfig (xrayConfigInput cfg id host port) with
                  | Some doc => mret (Ok doc)
                  | None => mret (Err (ErrSession "xray config"))
                  end
              end
          end
      end
  end.

(** * The books of a run

    What the events so far leave: the xray process not told to stop, the public
    listener not told to close, the hub client and what it last said and read,
    the endpoints a probe confirmed, the last registration answered, the
    identity in use. *)
Inductive greeting := Silent | Greeted (hello : HelloFrame) | Answered (hello : HelloFrame) (ack : HelloAckFrame).
Record books := {
  bk_xray : bool;
  bk_listener : bool;
  bk_hub : bool;
  bk_greeting : greeting;
  bk_confirmed : list (string * Z);
  bk_registered : option (RegisterRequest * Descriptor);
  bk_identity : option Identity
}.

Definition complete (id : Identity) : bool :=
  negb (str_empty (id_ClientID id)) && negb (str_empty (id_ShortID id)) && negb (needsKeys id) &&
  bool_decide (is_Some (identityKey id)).

Definition openBooks (id : Identity) : books :=
  {| bk_xray := false; bk_listener := false; bk_hub := false; bk_greeting := Silent; bk_confirmed := []; bk_registered := None;
     bk_identity := if complete id then Some id else None |}.

Definition record (b : books) (e : event) : books :=
  let '(Build_books x l h g c r i) := b in
  match e with
  | EvXrayStart _ _ _ => Build_books true l h g c r i
  | EvXrayStop _ _ => Build_books false l h g c r i
  | EvListen _ _ => Build_books x true h g c r i
  | EvListenCancel => Build_books x false h g c r i
  | EvHubRun _ => Build_books x l true Silent c r i
  | EvHubHello hello => Build_books x l h (Greeted hello) c r i
  | EvHubAck ack => Build_books x l h (match g with Greeted hello => Answered hello ack | _ => g end) c r i
  | EvHubStop => Build_books x l false Silent c r i
  | EvProbe _ _ _ port res =>
      Build_books x l h g (if bool_decide (dp_Outcome res = DirectProbeReachable) then (dp_ObservedHost res, port) :: c else c) r i
  | EvPost _ _ (ExRegister req (Ok d)) => Build_books x l h g c (Some (req, d)) i
  | EvIdentity id => Build_books x l h g c r (Some id)
  | _ => b
  end.

Definition foundation (c : Config) : Prop :=
  cf_FoundationToken c ≠ ""%string ∨ NormalizeNodeClass ToLower (cf_NodeClass c) = Some NodeClassFoundation.
Definition autoWithHub (c : Config) : Prop :=
  cf_FoundationToken c = ""%string ∧ cf_Mode c = ModeAuto ∧ cf_HubAddr c ≠ ""%string.

(** A request or hello that carries the identity in use. *)
Definition carried (b : books) (client reality short public : string) : Prop :=
  ∃ id key, bk_identity b = Some id ∧ identityKey id = Some key ∧ client = id_ClientID id ∧
    reality = id_RealityPublicKey id ∧ short = id_ShortID id ∧ public = text (stdEncode (Public key)).

(** A registration answered with what the engine accepts. *)
Definition accepted (c : Config) (b : books) (relayID : string) : Prop :=
  ∃ req d id key, bk_registered b = Some (req, d) ∧ relayID = dd_ID d ∧
    bk_identity b = Some id ∧ identityKey id = Some key ∧ verifyRegisteredDescriptor req d key = None ∧
    NormalizeWSSFronts ToLower EqualFold urlParse urlString Hostname Port isIPLiteral (cf_WSSFronts c) = Ok (rq_WSSFronts req) ∧
    (foundation c → rq_NodeClass req = NodeClassFoundation).

Definition secured (c : Config) (url bearer : string) : Prop :=
  (∃ path, url = trimSlashes (cf_BrokerURL c) +:+ path) ∧
  (foundation c → ValidateSecureBrokerURL url = true) ∧
  bearer = if str_empty (cf_FoundationToken c) then cf_Token c else cf_FoundationToken c.

(** An endpoint a probe confirmed; a hub that does not say which host it
    reached leaves that to the relay. *)
Definition confirmed (b : books) (host : string) (port : Z) : Prop :=
  (host, port) ∈ bk_confirmed b ∨ (""%string, port) ∈ bk_confirmed b.

(** A configured seed that can be read is never replaced. *)
Definition keepsSeed (c : Config) (id : Identity) : Prop :=
  ∀ key, identityKey (cf_Identity c) = Some key → identityKey id = Some key.

(** What the hub's last answer published. *)
Definition published (b : books) (st : Status) : Prop :=
  ∃ hello ack, bk_greeting b = Answered hello ack ∧ ha_OK ack = true ∧
    st_RelayID st = ha_RelayID ack ∧ st_PublicHost st = ha_PublicHost ack ∧ st_PublicPort st = ha_PublicPort ack.

(** What an engine configured with [c] may do when its books are [b]. *)
Definition allowed (c : Config) (b : books) (e : event) : Prop :=
  match e with
  | EvStatus st =>
      st_Phase st = PhaseOnline → (bk_xray b = true ∨ cf_DisableXray c = true) ∧
        (st_Transport st = TransportDirect ∧ accepted c b (st_RelayID st) ∧ bk_hub b = false ∧
           (bk_listener b = true ∨ cf_WSSFronts c ≠ []) ∨
         st_Transport st = TransportTunnel ∧ bk_hub b = true ∧ published b st)
  | EvIdentity id => bk_identity b = None ∧ complete id = true ∧ keepsSeed c id
  | EvProbe _ token host port _ =>
      ¬ foundation c ∧ autoWithHub c ∧ token = cf_Token c ∧ host = directListenHost c true ∧ port ∈ automaticPortCandidates c
  | EvXrayStart _ _ id => bk_xray b = false ∧ bk_listener b = false ∧ bk_hub b = false ∧ bk_identity b = Some id
  | EvXrayStop killed exited =>
      bk_xray b = true ∧ bk_listener b = false ∧ bk_hub b = false ∧ (killed = true ∨ exited = true)
  | EvListen host port =>
      bk_listener b = false ∧ bk_hub b = false ∧
      (autoWithHub c → host = directListenHost c true ∧ port ∈ (bk_confirmed b).*2)
  | EvListenCancel => bk_listener b = true
  | EvPost url bearer ex =>
      secured c url bearer ∧ bk_hub b = false ∧
      match ex with
      | ExRegister req _ =>
          carried b (rq_ClientID req) (rq_RealityPublicKey req) (rq_ShortID req) (rq_IdentityPublicKey req) ∧
          (autoWithHub c → confirmed b (rq_PublicHost req) (rq_PublicPort req))
      | ExHeartbeat _ _ _ => True
      end
  | EvWait _ => True
  | EvBackoff d => backoffMin ≤ d ≤ backoffMax
  | EvHubRun addr => ¬ foundation c ∧ bk_hub b = false ∧ addr = cf_HubAddr c
  | EvHubHello h =>
      ¬ foundation c ∧ bk_hub b = true ∧ hf_Token h = cf_Token c ∧
      carried b (hf_ClientID h) (hf_RealityPublicKey h) (hf_ShortID h) (hf_IdentityPublicKey h)
  | EvHubAck ack => bk_hub b = true ∧ ∃ hello, bk_greeting b = Greeted hello
  | EvHubStop => bk_hub b = true
  end.

Fixpoint lawful (c : Config) (b : books) (l : list event) : Prop :=
  match l with [] => True | e :: l => allowed c b e ∧ lawful c (record b e) l end.

Lemma lawful_app c l k : ∀ b, lawful c b (l ++ k) ↔ lawful c b l ∧ lawful c (foldl record b l) k.
Proof. induction l as [|e l IH]; intros b; cbn; [tauto|]. rewrite IH. tauto. Qed.

(** ** A weakest precondition over the books *)
Definition wp {A} (c : Config) (m : M A) (Q : A → engine → books → Prop) (s : engine) (b : books) : Prop :=
  lawful c b (m s).1.2 ∧ Q (m s).1.1 (m s).2 (foldl record b (m s).1.2).

Lemma wp_ret {A} c (a : A) (Q : A → engine → books → Prop) s b : Q a s b → wp c (mret a) Q s b.
Proof. by split. Qed.
Lemma wp_bind {A B} c (m : M A) (f : A → M B) Q s b :
  wp c m (λ a s b, wp c (f a) Q s b) s b → wp c (m ≫= f) Q s b.
Proof.
  unfold wp, mbind, M_bind. destruct (m s) as [[a l] s1]. cbn. destruct (f a s1) as [[x k] s2]. cbn.
  rewrite lawful_app, foldl_app. tauto.
Qed.
Lemma wp_mono {A} c (m : M A) (Q Q' : A → engine → books → Prop) s b :
  wp c m Q s b → (∀ a s b, Q a s b → Q' a s b) → wp c m Q' s b.
Proof. intros [H1 H2] H. split; auto. Qed.
Lemma wp_emit c e (Q : () → engine → books → Prop) s b : allowed c b e → Q tt s (record b e) → wp c (emit e) Q s b.
Proof. by split. Qed.
Lemma wp_getConfig c (Q : Config → engine → books → Prop) s b : Q (es_cfg s) s b → wp c getConfig Q s b.
Proof. by split. Qed.
Lemma wp_setStatus c f (Q : () → engine → books → Prop) s b :
  allowed c b (EvStatus (f (es_status s))) → Q tt {| es_cfg := es_cfg s; es_status := f (es_status s) |} b →
  wp c (setStatus f) Q s b.
Proof. intros H1 H2. split; [by split|]. by destruct b. Qed.
Lemma wp_countRegistration c (Q : () → engine → books → Prop) s b :
  Q tt {| es_cfg := es_cfg s; es_status := addRegistration (es_status s) |} b → wp c countRegistration Q s b.
Proof. by split. Qed.

Lemma wp_deferring c release body (Q : outcome → engine → books → Prop) s b :
  wp c body (λ o s b, match o with Ended _ => wp c release (λ _ s b, Q o s b) s b | Serving => Q o s b end) s b →
  wp c (deferring release body) Q s b.
Proof.
  intros H. apply wp_bind. eapply wp_mono; [exact H|]. intros [err|] s1 b1 H1; [|by apply wp_ret].
  apply wp_bind. eapply wp_mono; [exact H1|]. intros [] s2 b2 H2. by apply wp_ret.
Qed.

(** ** Invariant *)
Definition storedOK (c : Config) (id : Identity) (b : books) : Prop :=
  keepsSeed c id ∧
  match bk_identity b with
  | Some i => i = id ∧ complete id = true
  | None => complete id = false
  end.
Definition inv (c : Config) (s : engine) (b : books) : Prop :=
  ∃ id, es_cfg s = withStoredIdentity id c ∧ storedOK c id b.

Definition idle (b : books) : Prop := bk_xray b = false ∧ bk_listener b = false ∧ bk_hub b = false.
(** What a computation may do to the books' resources: nothing. *)
Definition sameResources (b b' : books) : Prop :=
  bk_xray b' = bk_xray b ∧ bk_listener b' = bk_listener b ∧ bk_hub b' = bk_hub b.

(** What a session takes from its effective configuration. *)
Record sessionCfg (c e : Config) : Prop := {
  sc_same : cf_Token e = cf_Token c ∧ cf_FoundationToken e = cf_FoundationToken c ∧ cf_BrokerURL e = cf_BrokerURL c ∧
    cf_HubAddr e = cf_HubAddr c ∧ cf_ListenHost e = cf_ListenHost c ∧ cf_DisableXray e = cf_DisableXray c;
  sc_fronts : NormalizeWSSFronts ToLower EqualFold urlParse urlString Hostname Port isIPLiteral (cf_WSSFronts c) = Ok (cf_WSSFronts e);
  sc_foundation : foundation c → cf_NodeClass e = NodeClassFoundation ∧ resolvesToDirect e = true;
  sc_auto : cf_Mode e = ModeAuto → cf_HubAddr e ≠ ""%string → autoWithHub c;
  sc_mode : autoWithHub c → cf_Mode e = ModeAuto
}.

Context (ToLower_foundation : ToLower NodeClassFoundation = NodeClassFoundation).

Lemma effective_session id c e : effectiveConfig (withStoredIdentity id c) = Ok e →
  sessionCfg c e ∧ automaticPortCandidates e = automaticPortCandidates c.
Proof using ToLower_foundation.
  intros He. destruct (effectiveConfig_spec _ _ _ _ _ _ _ _ ToLower_foundation _ _ He) as [Hc Hf Ht Hm Hd Hw Hs].
  split; [split|].
  - rewrite Hs. done.
  - exact Hf.
  - intros Hfo. assert (cf_NodeClass e = NodeClassFoundation) as Hn; [|auto].
    destruct Hfo as [Hfo|Hfo]; [by apply Ht|].
    destruct (decide (cf_FoundationToken c = ""%string)) as [E|E]; [|by apply Ht].
    destruct (Hm E) as [_ Hm']. change (cf_NodeClass (withStoredIdentity id c)) with (cf_NodeClass c) in Hm'. congruence.
  - intros Hma Hh. assert (cf_HubAddr e = cf_HubAddr c) as Eh by (by rewrite Hs).
    destruct (decide (cf_FoundationToken c = ""%string)) as [E|E].
    + destruct (Hm E) as [Hm' _]. split; [done|]. split; [|congruence]. rewrite Hma in Hm'. by symmetry.
    + destruct (Ht E) as [_ Hx]. rewrite Hx in Hma. discriminate.
  - intros (E & Hma & _). destruct (Hm E) as [Hm' _]. by rewrite Hm'.
  - unfold automaticPortCandidates. by rewrite Hs.
Qed.

(** ** Identity *)
Context (seed_prefix : ∀ s, length s = SeedSize → take SeedSize (NewKeyFromSeed s) = s).

(** What generation draws has the size the code asks for. *)
Definition drawn (inp : identityInputs) : Prop :=
  (∀ b, ii_shortID inp = Some b → length b = 8%nat) ∧
  (∀ p q, ii_keyPair inp = Some (p, q) → p ≠ ""%string ∧ q ≠ ""%string) ∧
  (∀ s, ii_seed inp = Some s → length s = SeedSize).

Lemma generated_seed s : length s = SeedSize →
  ParseIdentitySeed NewKeyFromSeed (EncodeIdentitySeed (NewKeyFromSeed s)) = Some (NewKeyFromSeed s).
Proof using seed_prefix.
  intros Hs. unfold ParseIdentitySeed, EncodeIdentitySeed. by rewrite seed_prefix, parseSeed_encode.
Qed.

Lemma GenerateUUID_nonempty rnd v : GenerateUUID rnd = Some v → str_empty v = false.
Proof.
  unfold GenerateUUID. destruct rnd as [b|]; [|done]. cbn -[hexEncode text]. intros [= <-].
  apply text_nonempty. intros [_ E]%app_eq_nil. discriminate.
Qed.

Lemma GenerateShortID_nonempty rnd v : (∀ b, rnd = Some b → length b = 8%nat) → GenerateShortID rnd = Some v → str_empty v = false.
Proof.
  unfold GenerateShortID. destruct rnd as [b|]; [|done]. intros Hl [= <-]. specialize (Hl b eq_refl).
  apply text_nonempty. destruct b; [done|]. discriminate.
Qed.

Lemma complete_spec id : complete id = true ↔
  str_empty (id_ClientID id) = false ∧ str_empty (id_ShortID id) = false ∧ needsKeys id = false ∧ is_Some (identityKey id).
Proof. unfold complete. rewrite !andb_true_iff, !negb_true_iff, bool_decide_eq_true. tauto. Qed.

Lemma orGenerate_ok {A} missing (v : A) gen msg v' g : orGenerate missing v gen msg = Ok (v', g) →
  (missing = false ∧ v' = v ∧ g = false) ∨ (missing = true ∧ gen = Some v' ∧ g = true).
Proof. unfold orGenerate. destruct missing; [destruct gen; [|done]|]; intros [= <- <-]; auto. Qed.

Lemma completeIdentity_complete inp id : complete id = true → completeIdentity inp id = Ok (id, false).
Proof.
  intros (H1 & H2 & H3 & H4)%complete_spec. unfold completeIdentity, orGenerate.
  rewrite H1, H2, H3, bool_decide_eq_true_2 by done. by destruct id.
Qed.

Lemma completeIdentity_spec inp id id' g : drawn inp → completeIdentity inp id = Ok (id', g) →
  complete id' = true ∧ (∀ key, identityKey id = Some key → identityKey id' = Some key) ∧
  (complete id = false → g = true).
Proof using seed_prefix.
  intros (Hs & Hk & Hd). unfold completeIdentity.
  destruct (orGenerate (str_empty (id_ClientID id)) _ _ _) as [[u gu]|] eqn:Eu; [|done].
  destruct (orGenerate (str_empty (id_ShortID id)) _ _ _) as [[sh gs]|] eqn:Es; [|done].
  destruct (orGenerate (needsKeys id) _ _ _) as [[[p q] gk]|] eqn:Ek; [|done].
  destruct (orGenerate (negb _) _ _ _) as [[seed gd]|] eqn:Ed; [|done].
  cbn. intros [= <- <-].
  assert (Hu : str_empty u = false ∧ (str_empty (id_ClientID id) = true → gu = true)).
  { destruct (orGenerate_ok _ _ _ _ _ _ Eu) as [(H & -> & ->)|(H & Hg & ->)]; [by rewrite H|]. split; [|done]. by eapply GenerateUUID_nonempty. }
  assert (Hsh : str_empty sh = false ∧ (str_empty (id_ShortID id) = true → gs = true)).
  { destruct (orGenerate_ok _ _ _ _ _ _ Es) as [(H & -> & ->)|(H & Hg & ->)]; [by rewrite H|]. split; [|done]. by eapply GenerateShortID_nonempty. }
  assert (Hpq : str_empty p || str_empty q = false ∧ (needsKeys id = true → gk = true)).
  { destruct (orGenerate_ok _ _ _ _ _ _ Ek) as [(H & [= -> ->] & ->)|(H & Hg & ->)]; [split; [exact H|congruence]|].
    split; [|done]. destruct (Hk _ _ Hg) as [Hp Hq]. unfold str_empty. by rewrite !bool_decide_eq_false_2. }
  assert (Hse : is_Some (ParseIdentitySeed NewKeyFromSeed seed) ∧
    (∀ key, identityKey id = Some key → ParseIdentitySeed NewKeyFromSeed seed = Some key) ∧ (identityKey id = None → gd = true)).
  { destruct (orGenerate_ok _ _ _ _ _ _ Ed) as [(H & -> & ->)|(H & Hg & ->)].
    - apply negb_false_iff, bool_decide_eq_true in H as [key H]. split; [by eexists|]. split; [done|]. congruence.
    - apply negb_true_iff, bool_decide_eq_false, eq_None_not_Some in H.
      destruct (ii_seed inp) as [sd|] eqn:Esd; [|done]. injection Hg as <-.
      rewrite generated_seed by auto. split; [by eexists|]. split; [congruence|done]. }
  destruct Hu as [Hu Hgu], Hsh as [Hsh Hgs], Hpq as [Hpq Hgk], Hse as (Hse & Hkey & Hgd).
  split; [apply complete_spec; by split_and!|]. split; [exact Hkey|].
  intros Hc. destruct (str_empty (id_ClientID id)) eqn:E1; [by rewrite Hgu|].
  destruct (str_empty (id_ShortID id)) eqn:E2; [rewrite Hgs by done; by rewrite orb_true_r|].
  destruct (needsKeys id) eqn:E3; [rewrite Hgk by done; by rewrite !orb_true_r|].
  destruct (identityKey id) as [key|] eqn:E4; [|rewrite Hgd by done; by rewrite !orb_true_r].
  assert (complete id = true) as H; [|congruence]. apply complete_spec. rewrite E4. by split_and!.
Qed.

(** The identity a session uses is the stored one, and a complete one. *)
Lemma wp_prepareIdentity c inp s b : inv c s b → drawn inp →
  wp c (prepareIdentity inp) (λ r s' b', inv c s' b' ∧ sameResources b b' ∧ bk_confirmed b' = bk_confirmed b ∧
    match r with Ok id => bk_identity b' = Some id ∧ complete id = true | Err _ => True end) s b.
Proof using seed_prefix.
  intros (id & Hid & Hkeep & Hstored) Hd. apply wp_bind, wp_getConfig.
  assert (Hraw : cf_Identity (es_cfg s) = id) by (by rewrite Hid). rewrite Hraw.
  destruct (completeIdentity inp id) as [[id' g]|] eqn:Ec.
  2: { apply wp_ret. split; [by exists id|]. by split_and!. }
  destruct (completeIdentity_spec _ _ _ _ Hd Ec) as (Hc & Hk & Hg).
  destruct (bk_identity b) as [i|] eqn:Eb.
  - destruct Hstored as [-> Hci]. rewrite completeIdentity_complete in Ec by done. injection Ec as <- <-.
    apply wp_ret. split_and!; try done. exists id. split; [done|]. split; [done|]. by rewrite Eb.
  - rewrite Hg by done. assert (keepsSeed c id') by (intros key Hkey; auto).
    apply wp_bind. split; [done|]. apply wp_bind, wp_emit; [done|]. apply wp_ret. destruct b; cbn in *.
    split_and!; try done. exists id'. cbn. rewrite Hid. split; [done|]. split; [eauto|done].
Qed.

(** ** The choice of a transport *)
Lemma hub_not_foundation c e : sessionCfg c e →
  cf_Mode e = ModeTunnel ∨ cf_Mode e = ModeAuto ∧ cf_HubAddr e ≠ ""%string → ¬ foundation c.
Proof.
  intros Hc Hm Hf. destruct (sc_foundation _ _ Hc Hf) as [_ Hr]. unfold resolvesToDirect in Hr.
  destruct Hm as [Hm|[Hm Hh]]; rewrite Hm in Hr; [discriminate|].
  unfold str_empty in Hr. by rewrite bool_decide_eq_false_2 in Hr.
Qed.

(** What changes neither the resources nor the identity; confirmations stay. *)
Record sameBooks (b b' : books) : Prop := {
  sb_resources : sameResources b b';
  sb_identity : bk_identity b' = bk_identity b;
  sb_greeting : bk_greeting b' = bk_greeting b;
  sb_confirmed : ∀ x, x ∈ bk_confirmed b → x ∈ bk_confirmed b'
}.
Lemma sameBooks_refl b : sameBooks b b.
Proof. by split. Qed.
Lemma sameBooks_trans a b d : sameBooks a b → sameBooks b d → sameBooks a d.
Proof. intros [(?&?&?) ? ? ?] [(?&?&?) ? ? ?]. split; [split_and!; congruence|congruence|congruence|auto]. Qed.
Lemma inv_same c s b b' : inv c s b → sameBooks b b' → inv c s b'.
Proof. intros (id & H1 & H2) [_ Hi _ _]. exists id. split; [done|]. unfold storedOK. by rewrite Hi. Qed.
Lemma inv_status c s b st : inv c s b → inv c {| es_cfg := es_cfg s; es_status := st |} b.
Proof. done. Qed.

Lemma wp_resolvePorts c e env ports : ∀ s b, sessionCfg c e → autoWithHub c → ¬ foundation c →
  (∀ p, p ∈ ports → p ∈ automaticPortCandidates c) →
  wp c (resolvePorts e env ports) (λ r s' b', s' = s ∧ sameBooks b b' ∧
    match r with Some (m, h, p) => m = ModeDirect ∧ (h, p) ∈ bk_confirmed b' ∨ m = ModeTunnel | None => True end) s b.
Proof.
  induction ports as [|port ports IH]; intros s b Hc Ha Hf Hp; cbn [resolvePorts].
  { apply wp_ret. split; [done|]. split; [apply sameBooks_refl|by right]. }
  destruct (sc_same _ _ Hc) as (Ht & _ & _ & _ & Hl & _).
  set (r := ProbeDirectReachability (pe_probe env port)).
  set (ev := EvProbe (hubHTTPBase e) (cf_Token e) (directListenHost e true) port r).
  apply wp_bind, wp_emit.
  { split_and!; [done|done|done|unfold directListenHost; by rewrite Hl|by apply Hp; left]. }
  assert (Hs : sameBooks b (record b ev)).
  { destruct b. split; [done..|]. cbn. intros x Hx. case_bool_decide; [by right|done]. }
  destruct (pe_ctxErr env port); [by apply wp_ret|].
  assert (Hrest : wp c (resolvePorts e env ports) (λ r s' b', s' = s ∧ sameBooks b b' ∧
    match r with Some (m, h, p) => m = ModeDirect ∧ (h, p) ∈ bk_confirmed b' ∨ m = ModeTunnel | None => True end) s (record b ev)).
  { eapply wp_mono; [apply IH; [done..|intros p Hin; apply Hp; by right]|].
    intros r0 s' b' (-> & Hb & Hr). split; [done|]. split; [by eapply sameBooks_trans|done]. }
  destruct (dp_Outcome r) eqn:Eo; try exact Hrest; apply wp_ret; (split; [done|]); (split; [exact Hs|]); [|by right..].
  left. split; [done|]. destruct b. cbn. rewrite bool_decide_eq_true_2 by done. by left.
Qed.

Lemma wp_autoResolve c e env s b : sessionCfg c e → automaticPortCandidates e = automaticPortCandidates c →
  cf_Mode e = ModeAuto → cf_HubAddr e ≠ ""%string →
  wp c (autoResolve e env) (λ r s' b', s' = s ∧ sameBooks b b' ∧
    match r with Some (m, h, p) => m = ModeDirect ∧ (h, p) ∈ bk_confirmed b' ∨ m = ModeTunnel | None => True end) s b.
Proof.
  intros Hc Hp Hm Hh. unfold autoResolve. rewrite Hp. apply wp_resolvePorts; [done|by apply (sc_auto _ _ Hc)| |done].
  apply (hub_not_foundation _ _ Hc). by right.
Qed.

(** ** Registration *)
Definition brokerFor (c : Config) (broker : BrokerClient) : Prop :=
  bc_BaseURL broker = cf_BrokerURL c ∧
  bc_Token broker = (if str_empty (cf_FoundationToken c) then cf_Token c else cf_FoundationToken c) ∧
  (foundation c → bc_RequireSecureTransport broker = true).

Lemma wp_postJSON {A} c broker path (ex : result brokerError A → exchange) answer s b (Q : result brokerError A → engine → books → Prop) :
  brokerFor c broker → bk_hub b = false →
  match ex answer with
  | ExRegister req _ => carried b (rq_ClientID req) (rq_RealityPublicKey req) (rq_ShortID req) (rq_IdentityPublicKey req) ∧
      (autoWithHub c → confirmed b (rq_PublicHost req) (rq_PublicPort req))
  | ExHeartbeat _ _ _ => True
  end →
  Q (Err ErrInsecureURL) s b → (∀ url bearer, Q answer s (record b (EvPost url bearer (ex answer)))) →
  wp c (postJSON broker path ex answer) Q s b.
Proof.
  intros (Hu & Ht & Hs) Hh Hex HQ1 HQ2. unfold postJSON. rewrite Hu, Ht. destruct (bc_RequireSecureTransport broker && _) eqn:E; [by apply wp_ret|].
  apply wp_bind, wp_emit; [|by apply wp_ret]. split; [|split; [done|exact Hex]]. split; [by eexists|]. split; [|done].
  intros Hf. rewrite Hs in E by done. by apply negb_false_iff in E.
Qed.

(** What a registration has to carry. *)
Record reqOK (c : Config) (b : books) (key : list byte) (req : RegisterRequest) : Prop := {
  ro_identity : ∃ id, bk_identity b = Some id ∧ identityKey id = Some key ∧ rq_ClientID req = id_ClientID id ∧
    rq_RealityPublicKey req = id_RealityPublicKey id ∧ rq_ShortID req = id_ShortID id;
  ro_endpoint : autoWithHub c → confirmed b (rq_PublicHost req) (rq_PublicPort req);
  ro_class : foundation c → rq_NodeClass req = NodeClassFoundation;
  ro_fronts : NormalizeWSSFronts ToLower EqualFold urlParse urlString Hostname Port isIPLiteral (cf_WSSFronts c) = Ok (rq_WSSFronts req)
}.
Definition signedOK (c : Config) (b : books) (key : list byte) (req : RegisterRequest) : Prop :=
  reqOK c b key req ∧ rq_IdentityPublicKey req = text (stdEncode (Public key)).

Lemma reqOK_same c b b' key req : reqOK c b key req → sameBooks b b' → reqOK c b' key req.
Proof.
  intros [(id & H) H2 H3 H4] [_ Hi Hc]. split; [exists id; by rewrite Hi| |done|done].
  intros Ha. destruct (H2 Ha); [left|right]; auto.
Qed.

Lemma signedRequest_ok c b key req now signed :
  reqOK c b key req → signedRequest key req now = Ok signed → signedOK c b key signed.
Proof.
  intros [H1 H2 H3 H4]. unfold signedRequest, SignIdentity. cbn [withIdentity rq_WSSFronts].
  destruct (_ =? 0)%nat; [intros [= <-]; by repeat split|].
  destruct (SignWSSCapability _ _ _ _ _ _ _ _ _ _ _ _ _ _); [|done]. intros [= <-]. by repeat split.
Qed.

Definition registered (req : RegisterRequest) (r : option Descriptor) (b : books) : books :=
  {| bk_xray := bk_xray b; bk_listener := bk_listener b; bk_hub := bk_hub b; bk_greeting := bk_greeting b; bk_confirmed := bk_confirmed b;
     bk_registered := match r with Some d => Some (req, d) | None => bk_registered b end; bk_identity := bk_identity b |}.
Lemma registered_same req r b : sameBooks b (registered req r b).
Proof. by split. Qed.

Lemma wp_Register c broker req key answer s b : brokerFor c broker → bk_hub b = false → signedOK c b key req →
  wp c (Register broker req answer) (λ r s' b', s' = s ∧
    b' = registered req (match r with Ok d => Some d | Err _ => None end) b) s b.
Proof.
  intros Hb Hh [[(id & Hi & Hk & Hcl & Hre & Hsh) He _ _] Hp]. apply wp_postJSON; [done|done| | |].
  - split; [|done]. exists id, key. by rewrite Hcl, Hre, Hsh.
  - by destruct b.
  - intros url bearer. destruct b, answer; done.
Qed.

Lemma wp_registerTries c broker req key tries n : ∀ i backoff s b,
  brokerFor c broker → bk_hub b = false → signedOK c b key req →
  wp c (registerTries n broker req tries i backoff) (λ r s' b', s' = s ∧
    b' = registered req (match r with Ok d => Some d | Err _ => None end) b) s b.
Proof.
  induction n as [|n IH]; intros i backoff s b Hb Hh Hr; cbn [registerTries].
  { apply wp_ret. by destruct b. }
  apply wp_bind. eapply wp_mono; [by apply (wp_Register _ _ _ key)|]. intros [d|e] s' b' [-> ->]; [by apply wp_ret|].
  replace (registered req None b) with b by (by destruct b).
  destruct (rt_ctxErr _); [apply wp_ret; by destruct b|]. apply wp_bind, wp_emit; [done|].
  replace (record b _) with b by (by destruct b).
  destruct (rt_waitEnded _); [apply wp_ret; by destruct b|]. by apply IH.
Qed.

Lemma accepted_intro c b key req d : signedOK c b key req →
  verifyRegisteredDescriptor req d key = None → accepted c (registered req (Some d) b) (dd_ID d).
Proof. intros [[(id & Hi & Hk & _) _ Hcl Hf] _] Hv. exists req, d, id, key. by split_and!. Qed.

(** ** Direct sessions *)
Definition serving (c : Config) (b : books) : Prop :=
  (bk_xray b = true ∨ cf_DisableXray c = true) ∧ bk_hub b = false ∧ (bk_listener b = true ∨ cf_WSSFronts c ≠ []).
Lemma serving_same c b b' : serving c b → sameBooks b b' → serving c b'.
Proof. intros H [(E1 & E2 & E3) _ _ _]. unfold serving. by rewrite E1, E2, E3. Qed.

Lemma wp_directLoop c broker req key baseline ticks : ∀ observer desc s b,
  brokerFor c broker → inv c s b → serving c b → reqOK c b key req →
  (st_Phase (es_status s) = PhaseOnline ∧ st_Transport (es_status s) = TransportDirect) →
  wp c (directLoop broker req key baseline ticks observer desc) (λ _ s' b', inv c s' b' ∧ sameBooks b b') s b.
Proof.
  induction ticks as [|t ticks IH]; intros observer desc s b Hb Hi Hs Hr Hst; cbn [directLoop].
  { apply wp_ret. split; [done|apply sameBooks_refl]. }
  assert (Hend : ∀ o : outcome, wp c (mret o) (λ _ s' b', inv c s' b' ∧ sameBooks b b') s b).
  { intros o. apply wp_ret. split; [done|apply sameBooks_refl]. }
  destruct t as [|err|err| |det|answer now again]; [apply Hend..| | | |].
  - destruct observer, err; try apply Hend; by apply IH.
  - by apply IH.
  - destruct det; [case_match; [apply Hend|]|]; by apply IH.
  - apply wp_bind. apply wp_postJSON; [done|apply Hs|done| |].
    { change (IsRelayNotFound ErrInsecureURL) with false. by apply IH. }
    intros url bearer. replace (record b _) with b by (by destruct b).
    destruct answer as [|e]; [by apply IH|]. destruct (IsRelayNotFound e); cbn [negb]; [|by apply IH].
    destruct (signedRequest key req now) as [signed|] eqn:Es; [|by apply IH].
    pose proof (signedRequest_ok _ _ _ _ _ _ Hr Es) as Hsg.
    apply wp_bind. eapply wp_mono; [by apply (wp_Register _ _ _ key); [done|apply Hs|]|]. intros r s' b' [-> ->].
    destruct r as [updated|e']; [|replace (registered signed None b) with b by (by destruct b); by apply IH].
    pose proof (registered_same signed (Some updated) b) as Hsame.
    destruct (verifyRegisteredDescriptor signed updated key) eqn:Ev.
    { apply wp_ret. split; [by eapply inv_same|done]. }
    apply wp_bind, wp_countRegistration, wp_bind, wp_setStatus.
    { intros _. split; [apply Hs|]. left. split; [apply Hst|]. split; [by apply (accepted_intro c b key)|]. apply Hs. }
    eapply wp_mono; [apply IH; [done|by eapply inv_same|by eapply serving_same|by eapply reqOK_same|done]|].
    intros _ s' b' [H1 H2]. split; [done|by eapply sameBooks_trans].
Qed.

Lemma hasFronts_config c e : sessionCfg c e → hasFronts e = true → cf_WSSFronts c ≠ [].
Proof.
  intros Hc Hf E. pose proof (sc_fronts _ _ Hc) as Hn. rewrite E in Hn. cbn in Hn. injection Hn as Hn.
  unfold hasFronts in Hf. by rewrite <- Hn in Hf.
Qed.

(** Where a direct session listens and what it advertises, in auto mode. *)
Definition endpointOK (c cfg : Config) (b : books) (publicHost listenHost : string) : Prop :=
  autoWithHub c → listenHost = directListenHost c true ∧ publicPort cfg = cf_ListenPort cfg ∧
    (publicHost, cf_ListenPort cfg) ∈ bk_confirmed b.

Lemma wp_serveDirect c broker cfg label id host configured env s b :
  sessionCfg c cfg → brokerFor c broker → inv c s b → serving c b → bk_identity b = Some id →
  (autoWithHub c → confirmed b host (publicPort cfg)) →
  wp c (serveDirect broker cfg label id host configured env) (λ _ s' b', inv c s' b' ∧ sameBooks b b') s b.
Proof.
  intros Hc Hb Hi Hs Hid He. unfold serveDirect. apply wp_bind, wp_setStatus; [done|].
  assert (Hend : ∀ o : outcome, wp c (mret o) (λ _ s' b', inv c s' b' ∧ sameBooks b b')
    {| es_cfg := es_cfg s; es_status := setPhase PhaseRegistering (es_status s) |} b).
  { intros o. apply wp_ret. split; [done|apply sameBooks_refl]. }
  destruct (identityKey id) as [key|] eqn:Ek; [|apply Hend].
  destruct (hasFronts cfg && _); [apply Hend|].
  set (req := registerRequest cfg label id host).
  assert (Hr : reqOK c b key req).
  { split; [by exists id|exact He| |apply Hc]. intros Hf. by apply (sc_foundation _ _ Hc). }
  destruct (signedRequest key req (de_now env)) as [signed|] eqn:Es; [|apply Hend].
  pose proof (signedRequest_ok _ _ _ _ _ _ Hr Es) as Hsg.
  apply wp_bind. eapply wp_mono; [by apply (wp_registerTries _ _ _ key); [done|apply Hs|]|]. intros r s' b' [-> ->].
  pose proof (registered_same signed (match r with Ok d => Some d | Err _ => None end) b) as Hsame.
  destruct r as [desc|e]; [|apply wp_ret; split; [by eapply inv_same|done]].
  destruct (verifyRegisteredDescriptor signed desc key) eqn:Ev; [apply wp_ret; split; [by eapply inv_same|done]|].
  apply wp_bind, wp_countRegistration, wp_bind, wp_setStatus.
  { intros _. split; [apply Hs|]. left. split; [done|]. split; [by apply (accepted_intro c b key)|]. apply Hs. }
  eapply wp_mono; [apply wp_directLoop; [done|by eapply inv_same|by eapply serving_same|by eapply reqOK_same|done]|].
  intros _ s' b' [H1 H2]. split; [done|by eapply sameBooks_trans].
Qed.

(** What a session leaves: nothing held once it ended. *)
Definition leaves (c : Config) (held : books → Prop) (o : outcome) (s' : engine) (b' : books) : Prop :=
  inv c s' b' ∧ match o with Ended _ => held b' | Serving => True end.
Definition holdsXray (started : bool) (b : books) : Prop :=
  bk_xray b = started ∧ bk_listener b = false ∧ bk_hub b = false.

Lemma same_holds started b b' : holdsXray started b → sameBooks b b' → holdsXray started b'.
Proof. intros (H1 & H2 & H3) [(E1 & E2 & E3) _ _ _]. unfold holdsXray. by rewrite E1, E2, E3. Qed.

Lemma wp_listening c broker cfg label id host configured env listenHost opened started s b :
  sessionCfg c cfg → brokerFor c broker → inv c s b → bk_identity b = Some id → holdsXray started b →
  (started = true ∨ cf_DisableXray c = true) →
  (autoWithHub c → confirmed b host (publicPort cfg)) →
  (autoWithHub c → listenHost = directListenHost c true ∧ cf_ListenPort cfg ∈ (bk_confirmed b).*2) →
  wp c (listening cfg listenHost opened (serveDirect broker cfg label id host configured env))
    (leaves c (holdsXray started)) s b.
Proof.
  intros Hc Hb Hi Hid (Hx & Hl & Hh) Hd He Hep. unfold listening. destruct (hasFronts cfg) eqn:Ef.
  - eapply wp_mono.
    { apply wp_serveDirect; try done. split; [by rewrite Hx|]. split; [done|]. right. by eapply hasFronts_config. }
    intros o s' b' [H1 H2]. split; [done|]. destruct o; [|done]. by eapply same_holds.
  - destruct opened; cbn [negb]; [|by apply wp_ret].
    apply wp_bind, wp_emit; [by split_and!|].
    set (b1 := record b (EvListen listenHost (cf_ListenPort cfg))).
    assert (bk_xray b1 = started ∧ bk_listener b1 = true ∧ bk_hub b1 = false ∧ bk_identity b1 = bk_identity b ∧
      bk_confirmed b1 = bk_confirmed b) as (Hx1 & Hl1 & Hh1 & Hid1 & Hc1) by (destruct b; cbn in *; by split_and!).
    apply wp_deferring. eapply wp_mono.
    { apply wp_serveDirect; [done|done| | |by rewrite Hid1|unfold confirmed; by rewrite Hc1].
      - destruct Hi as (i & Hi1 & Hi2). exists i. split; [done|]. unfold storedOK. by rewrite Hid1.
      - unfold serving. rewrite Hx1, Hl1. auto. }
    intros o s' b' [H1 [(E1 & E2 & E3) Ei _ _]]. destruct o as [err|]; [|done].
    apply wp_emit; [cbn; congruence|]. split.
    + destruct H1 as (i & Hi1 & Hi2). exists i. split; [done|]. unfold storedOK in *. by destruct b'.
    + destruct b'; cbn in *. unfold holdsXray. cbn. split_and!; congruence.
Qed.

Lemma wp_startXray c cfg id host port inp s b :
  sessionCfg c cfg → inv c s b → idle b → bk_identity b = Some id →
  wp c (startXray cfg id host port inp) (λ r s' b', s' = s ∧ bk_identity b' = bk_identity b ∧ bk_confirmed b' = bk_confirmed b ∧
    match r with Ok started => holdsXray started b' ∧ (started = true ∨ cf_DisableXray c = true) | Err _ => idle b' end) s b.
Proof.
  intros Hc Hi (Hx & Hl & Hh) Hid. destruct (sc_same _ _ Hc) as (_ & _ & _ & _ & _ & Hdx). unfold startXray.
  destruct (BuildXrayConfig _); [|by apply wp_ret]. destruct (xi_write inp); cbn [negb]; [|by apply wp_ret].
  destruct (cf_DisableXray cfg) eqn:Ed.
  { apply wp_ret. split_and!; try done. right. congruence. }
  destruct (xi_start inp); cbn [negb]; [|by apply wp_ret].
  apply wp_bind, wp_emit; [done|]. apply wp_ret. destruct b; cbn in *. split_and!; auto. by split_and!.
Qed.

Lemma inv_books c s b b' : inv c s b → bk_identity b' = bk_identity b → inv c s b'.
Proof. intros (id & H1 & H2) Hi. exists id. split; [done|]. unfold storedOK. by rewrite Hi. Qed.

(** The deferred stop of the process a session started. *)
Lemma wp_stopping c inp started body s b :
  wp c body (leaves c (holdsXray started)) s b →
  wp c (deferring (stopProcess inp started) body) (leaves c idle) s b.
Proof.
  intros H. apply wp_deferring. eapply wp_mono; [exact H|]. intros [err|] s' b' [Hi Hh]; [|done].
  destruct Hh as (Hx & Hl & Hh). destruct started; cbn.
  - unfold stopProcess. cbn. destruct (xi_exit inp); (apply wp_emit; [cbn; auto|]);
      (split; [by eapply inv_books; [|destruct b']|]); destruct b'; by split_and!.
  - apply wp_ret. split; [done|by split_and!].
Qed.

Lemma directHost_endpoint c cfg b publicHost listenHost detect host configured :
  endpointOK c cfg b publicHost listenHost → directHost cfg publicHost detect = Some (host, configured) →
  autoWithHub c → confirmed b host (publicPort cfg).
Proof.
  intros He Hd Ha. destruct (He Ha) as (_ & -> & Hin). unfold directHost in Hd.
  destruct (str_empty publicHost) eqn:E; cbn [andb] in Hd.
  - right. apply bool_decide_eq_true in E. by rewrite E in Hin.
  - rewrite E in Hd. injection Hd as <- _. by left.
Qed.

Lemma wp_runDirectSession c broker cfg label id publicHost listenHost env s b :
  sessionCfg c cfg → brokerFor c broker → inv c s b → idle b → bk_identity b = Some id →
  endpointOK c cfg b publicHost listenHost →
  wp c (runDirectSession broker cfg label id publicHost listenHost env) (leaves c idle) s b.
Proof.
  intros Hc Hb Hi Hidle Hid He. unfold runDirectSession.
  destruct (directHost cfg publicHost (de_detect env)) as [[host configured]|] eqn:Eh; [|by apply wp_ret].
  destruct (if hasFronts cfg then _ else _) as [[xh xp]|]; [|by apply wp_ret].
  apply wp_bind. eapply wp_mono; [by apply wp_startXray|]. intros r s' b1 (-> & Hid1 & Hc1 & Hr).
  pose proof (inv_books _ _ _ _ Hi Hid1) as Hi1.
  destruct r as [started|e]; [|by apply wp_ret]. destruct Hr as [Hx Hd].
  apply wp_stopping, wp_listening; try done; [congruence| |].
  - intros Ha. unfold confirmed. rewrite Hc1. by eapply directHost_endpoint.
  - intros Ha. destruct (He Ha) as (Hl & _ & Hin). split; [done|]. rewrite Hc1. by apply list_elem_of_fmap_2' with (publicHost, cf_ListenPort cfg).
Qed.

(** ** Tunnelled sessions *)
Definition tunnelling (c : Config) (started : bool) (b : books) : Prop :=
  bk_xray b = started ∧ bk_listener b = false ∧ bk_hub b = true.

Lemma helloVersion_carried b key id cfg label t :
  bk_identity b = Some id → identityKey id = Some key →
  let h := helloVersion (SignHello Public edSign key (helloFrame cfg label id) t) in
  carried b (hf_ClientID h) (hf_RealityPublicKey h) (hf_ShortID h) (hf_IdentityPublicKey h).
Proof. intros Hi Hk h. exists id, key. by split_and!. Qed.

Lemma wp_tunnelLoop c cfg label id key started ticks : ∀ watching signalled greeted s b,
  sessionCfg c cfg → automaticPortCandidates cfg = automaticPortCandidates c → ¬ foundation c →
  inv c s b → bk_identity b = Some id → identityKey id = Some key →
  tunnelling c started b → (started = true ∨ cf_DisableXray c = true) →
  (watching = true → cf_Mode cfg = ModeAuto ∧ cf_HubAddr cfg ≠ ""%string) →
  (greeted = true → ∃ hello, bk_greeting b = Greeted hello) →
  wp c (tunnelLoop cfg (helloFrame cfg label id) key ticks watching signalled greeted) (leaves c (holdsXray started)) s b.
Proof.
  induction ticks as [|t ticks IH]; intros watching signalled greeted s b Hc Hp Hf Hi Hid Hk Hb Hst Hw Hg; cbn [tunnelLoop].
  { by apply wp_ret. }
  assert (Hstop : ∀ o, wp c (_ ← emit EvHubStop; mret (Ended o)) (leaves c (holdsXray started)) s b).
  { intros o. destruct Hb as (Hx & Hl & Hh). apply wp_bind, wp_emit; [done|]. apply wp_ret.
    split; [by eapply inv_books; [|destruct b]|]. destruct b; by split_and!. }
  destruct t as [now|ack now|err|env| | |err|err]; try apply Hstop.
  - apply wp_bind, wp_emit.
    { split; [done|]. split; [apply Hb|]. split; [apply (sc_same _ _ Hc)|]. by eapply helloVersion_carried. }
    destruct b; apply IH; try done. intros _. by eexists.
  - destruct greeted; [|by apply IH]. destruct (Hg eq_refl) as (hello & Hgr). cbn [negb].
    destruct (ha_OK ack) eqn:Eok; [|by apply IH]. cbn [negb].
    apply wp_bind, wp_emit; [split; [apply Hb|by exists hello]|].
    destruct b as [x l h g cf rg i]. cbn in Hgr. subst g. apply wp_bind, wp_countRegistration, wp_bind, wp_setStatus; [|by apply IH].
    intros _. destruct Hb as (Hx & Hl & Hh). split; [cbn in *; by rewrite Hx|]. right.
    split_and!; [by case_match|done|]. exists hello, ack. by case_match.
  - apply wp_bind, wp_setStatus; [by destruct err|]. by apply IH.
  - destruct watching; [|by apply IH]. destruct (Hw eq_refl) as [Hma Hhub].
    apply wp_bind. eapply wp_mono; [by apply wp_autoResolve|]. intros r s' b1 (-> & Hs & _).
    assert (IH' : ∀ w sg, (w = true → cf_Mode cfg = ModeAuto ∧ cf_HubAddr cfg ≠ ""%string) →
      wp c (tunnelLoop cfg (helloFrame cfg label id) key ticks w sg greeted) (leaves c (holdsXray started)) s b1).
    { intros w sg Hw'. destruct Hs as [(E1 & E2 & E3) Ei Eg _].
      eapply wp_mono; [apply IH; try done; [by eapply inv_books|congruence| |by rewrite Eg]|done].
      destruct Hb as (Hx & Hl & Hh). split_and!; congruence. }
    destruct r as [[[m h] p]|]; [|by apply IH']. destruct (str_eqb m ModeTunnel); by apply IH'.
  - destruct signalled; [apply Hstop|by apply IH].
Qed.

Lemma wp_runTunnelSession c cfg label id env s b :
  sessionCfg c cfg → automaticPortCandidates cfg = automaticPortCandidates c → ¬ foundation c →
  (cf_Mode cfg = ModeAuto → cf_HubAddr cfg ≠ ""%string) →
  inv c s b → idle b → bk_identity b = Some id →
  wp c (runTunnelSession cfg label id env) (leaves c idle) s b.
Proof.
  intros Hc Hp Hf Hm Hi Hidle Hid. unfold runTunnelSession. destruct (te_loopback env) as [[host port]|]; [|by apply wp_ret].
  apply wp_bind. eapply wp_mono; [by apply wp_startXray|]. intros r s' b1 (-> & Hid1 & Hc1 & Hr).
  pose proof (inv_books _ _ _ _ Hi Hid1) as Hi1.
  destruct r as [started|e]; [|by apply wp_ret]. destruct Hr as [(Hx & Hl & Hh) Hd].
  apply wp_stopping. unfold serveTunnel. apply wp_bind, wp_setStatus; [done|].
  destruct (identityKey id) as [key|] eqn:Ek; [|by apply wp_ret].
  apply wp_bind, wp_emit. { split; [done|]. split; [done|]. by apply (sc_same _ _ Hc). }
  eapply wp_mono.
  { apply (wp_tunnelLoop c cfg label id key started); try done.
    - eapply inv_books; [exact Hi1|by destruct b1].
    - destruct b1; cbn in *; congruence.
    - destruct b1; by split_and!.
    - intros Hw%str_eqb_true. auto. }
  done.
Qed.

(** ** Sessions and the supervisor *)
Lemma sessionCfg_ports c cfg port : sessionCfg c cfg → sessionCfg c (withPorts port cfg).
Proof. intros [H1 H2 H3 H4 H5]. by split. Qed.

Lemma publicPort_withPorts port cfg : publicPort (withPorts port cfg) = port.
Proof. unfold publicPort. cbn. by case_match. Qed.

Definition envOK (env : sessionEnv) : Prop := drawn (se_identity env).

Lemma wp_chooseTransport c broker cfg label id env s b :
  sessionCfg c cfg → automaticPortCandidates cfg = automaticPortCandidates c → brokerFor c broker →
  inv c s b → idle b → bk_identity b = Some id →
  wp c (chooseTransport broker cfg label id env) (leaves c idle) s b.
Proof.
  intros Hc Hp Hb Hi Hidle Hid. unfold chooseTransport.
  destruct (str_eqb (cf_Mode cfg) ModeAuto) eqn:Ema; [destruct (str_empty (cf_HubAddr cfg)) eqn:Eh|]; cbn [andb negb].
  - apply str_eqb_true in Ema. rewrite Ema. change (str_eqb ModeAuto ModeTunnel) with false. cbn iota.
    apply wp_runDirectSession; try done. intros (_ & _ & Ha). destruct (sc_same _ _ Hc) as (_ & _ & _ & Hh & _).
    apply bool_decide_eq_true in Eh. congruence.
  - apply str_eqb_true in Ema. apply bool_decide_eq_false in Eh.
    apply wp_bind, wp_setStatus; [done|]. apply wp_bind. eapply wp_mono; [by apply wp_autoResolve|].
    intros r s' b1 (-> & Hs & Hr). pose proof (inv_same _ _ _ _ Hi Hs) as Hi1.
    assert (Hidle1 : idle b1). { destruct Hs as [(E1 & E2 & E3) _ _ _]. destruct Hidle as (?&?&?). split_and!; congruence. }
    assert (Hid1 : bk_identity b1 = Some id) by (destruct Hs as [_ E _]; congruence).
    destruct r as [[[m h] p]|]; [|by apply wp_ret].
    destruct (str_eqb m ModeDirect) eqn:Em.
    + destruct Hr as [[_ Hin]| ->]; [|done]. eapply wp_mono.
      { apply wp_runDirectSession; [by apply sessionCfg_ports|done|exact Hi1|done|exact Hid1|].
        intros Ha. rewrite publicPort_withPorts. split; [|done].
        destruct (sc_same _ _ Hc) as (_ & _ & _ & _ & Hl & _). unfold directListenHost. cbn. by rewrite Hl. }
      done.
    + eapply wp_mono; [apply wp_runTunnelSession; try done|done]. apply (hub_not_foundation _ _ Hc). by right.
  - destruct (str_eqb (cf_Mode cfg) ModeTunnel) eqn:Et.
    + apply str_eqb_true in Et. apply wp_runTunnelSession; try done; [apply (hub_not_foundation _ _ Hc); by left|].
      rewrite Et. done.
    + apply wp_runDirectSession; try done. intros Ha. apply (sc_mode _ _ Hc) in Ha. rewrite Ha in Ema. discriminate.
Qed.

Lemma wp_runSession c broker env s b : brokerFor c broker → inv c s b → idle b → envOK env →
  wp c (runSession broker env) (leaves c idle) s b.
Proof using ToLower_foundation seed_prefix.
  intros Hb Hi Hidle He. unfold runSession. apply wp_bind, wp_getConfig.
  destruct (effectiveConfig (es_cfg s)) as [cfg|] eqn:Ecfg; [|by apply wp_ret].
  assert (sessionCfg c cfg ∧ automaticPortCandidates cfg = automaticPortCandidates c) as [Hc Hp].
  { destruct Hi as (id & Hid & _). rewrite Hid in Ecfg. by eapply effective_session. }
  apply wp_bind, wp_setStatus; [done|]. destruct (sessionLabel cfg (se_label env)) as [label|]; [|by apply wp_ret].
  apply wp_bind, wp_setStatus; [done|]. apply wp_bind. eapply wp_mono; [by apply wp_prepareIdentity|].
  intros r s' b1 (Hi1 & (E1 & E2 & E3) & _ & Hr).
  assert (idle b1) by (destruct Hidle as (?&?&?); split_and!; congruence).
  destruct r as [id|e]; [|by apply wp_ret]. destruct Hr as [Hid _].
  eapply wp_mono; [by apply wp_chooseTransport|done].
Qed.

Lemma wp_supervise c broker rounds : ∀ backoff s b, backoffMin ≤ backoff ≤ backoffMax →
  brokerFor c broker → inv c s b → idle b → Forall (λ r, envOK (rd_session r)) rounds →
  wp c (supervise broker rounds backoff) (λ ended s' b', inv c s' b' ∧ (ended = true → idle b')) s b.
Proof using ToLower_foundation seed_prefix.
  assert (Hmm : 0 < backoffMin ≤ backoffMax) by (unfold backoffMin, backoffMax, minute, second, millisecond; lia).
  induction rounds as [|r rounds IH]; intros backoff s b Hbk Hb Hi Hidle He; cbn [supervise]; [by apply wp_ret|].
  apply Forall_cons in He as [Hr He]. apply wp_bind. eapply wp_mono; [by apply wp_runSession|].
  intros [err|] s1 b1 [Hi1 Hh]; [|by apply wp_ret].
  destruct (rd_ctxErr r); [by apply wp_ret|].
  destruct (restarts err); [apply wp_bind, wp_setStatus; [done|]; apply IH; (done || lia)|].
  set (d := if rd_long r then backoffMin else backoff).
  assert (Hd : backoffMin ≤ d ≤ backoffMax) by (unfold d; destruct (rd_long r); lia).
  apply wp_bind, wp_setStatus; [done|]. apply wp_bind, wp_emit; [exact Hd|].
  replace (record b1 _) with b1 by (by destruct b1). destruct (rd_waitEnded r); [by apply wp_ret|].
  apply IH; try done. cmp_lia.
Qed.

Lemma brokerFor_config c : brokerFor c (brokerClient ToLower (match effectiveConfig c with Ok e => e | Err _ => c end)).
Proof using ToLower_foundation.
  assert (Hc : match effectiveConfig c with Ok e => sessionCfg c e | Err _ => True end).
  { destruct (effectiveConfig c) as [e|] eqn:E; [|done]. apply (effective_session (cf_Identity c) c e).
    by destruct c. }
  unfold brokerFor, brokerClient. cbn. destruct (effectiveConfig c) as [e|].
  - destruct (sc_same _ _ Hc) as (-> & -> & -> & _). split; [done|]. split; [by destruct (str_empty _)|].
    intros Hf. destruct (sc_foundation _ _ Hc Hf) as [-> _]. unfold lowerTrim.
    assert (TrimSpace NodeClassFoundation = NodeClassFoundation) as -> by (vm_compute; reflexivity).
    rewrite ToLower_foundation. by rewrite orb_true_r.
  - split; [done|]. split; [by destruct (str_empty _)|]. intros [Hf|Hf].
    + unfold str_empty. by rewrite bool_decide_eq_false_2.
    + unfold NormalizeNodeClass in Hf. fold (lowerTrim ToLower (cf_NodeClass c)) in Hf.
      destruct (str_empty (lowerTrim ToLower (cf_NodeClass c)) || _); [discriminate|].
      destruct (str_eqb _ NodeClassFoundation); [by rewrite orb_true_r|discriminate].
Qed.

Definition startEngine (c : Config) : engine := {| es_cfg := c; es_status := newStatus |}.
Definition trace (c : Config) (rounds : list round) : list event := (run rounds (startEngine c)).1.2.

Lemma run_lawful c rounds : Forall (λ r, envOK (rd_session r)) rounds →
  lawful c (openBooks (cf_Identity c)) (trace c rounds) ∧
  ((run rounds (startEngine c)).1.1 = true → idle (foldl record (openBooks (cf_Identity c)) (trace c rounds))).
Proof using ToLower_foundation seed_prefix.
  intros He. assert (wp c (run rounds) (λ ended _ b', ended = true → idle b') (startEngine c) (openBooks (cf_Identity c))) as H; [|exact H].
  unfold run. apply wp_bind, wp_getConfig, wp_bind. eapply wp_mono.
  { apply wp_supervise; [by vm_compute|apply brokerFor_config| |done|done]. exists (cf_Identity c). split; [by destruct c|]. split; [by intros key|].
    cbn. by destruct (complete (cf_Identity c)) eqn:E. }
  intros [] s' b' [_ H]; [|by apply wp_ret]. apply wp_bind, wp_setStatus; [done|]. apply wp_ret. auto.
Qed.

(** ** Reading the books *)
Lemma lawful_split c b pre e post : lawful c b (pre ++ e :: post) →
  lawful c b pre ∧ allowed c (foldl record b pre) e.
Proof. rewrite lawful_app. cbn. tauto. Qed.

Lemma record_fields b e :
  bk_identity (record b e) = (match e with EvIdentity id => Some id | _ => bk_identity b end) ∧
  bk_hub (record b e) = (match e with EvHubRun _ => true | EvHubStop => false | _ => bk_hub b end) ∧
  bk_registered (record b e) = (match e with EvPost _ _ (ExRegister req (Ok d)) => Some (req, d) | _ => bk_registered b end) ∧
  bk_confirmed (record b e) =
    (match e with
     | EvProbe _ _ _ port r =>
         if bool_decide (dp_Outcome r = DirectProbeReachable) then (dp_ObservedHost r, port) :: bk_confirmed b else bk_confirmed b
     | _ => bk_confirmed b
     end).
Proof. destruct b, e as [| | | | | | |? ? [? []|]| | | | | |]; by split_and!. Qed.

Lemma foundation_hub_free c l : foundation c → ∀ b, bk_hub b = false → lawful c b l →
  Forall (λ e, match e with EvProbe _ _ _ _ _ | EvHubRun _ | EvHubHello _ | EvHubAck _ | EvHubStop => False | _ => True end) l.
Proof.
  intros Hf. induction l as [|e l IH]; intros b Hb Hl; [done|]. destruct Hl as [He Hl]. constructor.
  - destruct e; try done; cbn in He; try (by destruct He); [destruct He|]; congruence.
  - apply (IH (record b e)); [|done]. destruct (record_fields b e) as (_ & -> & _). destruct e; try done. by destruct He.
Qed.

Lemma confirmed_probe b l x : x ∈ bk_confirmed (foldl record b l) → x ∈ bk_confirmed b ∨
  ∃ base token host r, EvProbe base token host x.2 r ∈ l ∧ dp_Outcome r = DirectProbeReachable ∧ dp_ObservedHost r = x.1.
Proof.
  revert b. induction l as [|e l IH]; intros b Hx; [by left|]. cbn [foldl] in Hx.
  destruct (IH _ Hx) as [Hr|(base & token & host & r & Hin & H)]; [|right; exists base, token, host, r; split; [by right|done]].
  destruct (record_fields b e) as (_ & _ & _ & Ec). rewrite Ec in Hr. destruct e; try (by left).
  case_bool_decide as Eo; [|by left]. apply elem_of_cons in Hr as [->|Hr]; [|by left].
  right. exists base, token, listenHost, r. split; [by left|done].
Qed.

Definition unregistered (e : event) : Prop :=
  match e with EvPost _ _ (ExRegister _ (Ok _)) => False | _ => True end.
Definition offHub (e : event) : Prop :=
  match e with EvHubRun _ | EvHubHello _ | EvHubAck _ | EvHubStop => False | _ => True end.

Lemma registered_post b l req d : bk_registered b = None → bk_registered (foldl record b l) = Some (req, d) →
  ∃ p1 url bearer p2, l = p1 ++ EvPost url bearer (ExRegister req (Ok d)) :: p2 ∧ Forall unregistered p2.
Proof.
  induction l as [|e l IH] using rev_ind; [cbn; congruence|]. rewrite foldl_app. cbn [foldl]. intros Hb Hr.
  destruct (record_fields (foldl record b l) e) as (_ & _ & Er & _). rewrite Er in Hr.
  assert (Hrest : bk_registered (foldl record b l) = Some (req, d) → unregistered e →
    ∃ p1 url bearer p2, l ++ [e] = p1 ++ EvPost url bearer (ExRegister req (Ok d)) :: p2 ∧ Forall unregistered p2).
  { intros H He. destruct (IH Hb H) as (p1 & u & br & p2 & -> & H2). exists p1, u, br, (p2 ++ [e]).
    split; [by rewrite <- app_assoc|]. by apply Forall_app_2; [|constructor]. }
  destruct e as [| | | | | | |url bearer [rq [ds|]|]| | | | | |]; try (by apply Hrest). injection Hr as -> ->.
  by exists l, url, bearer, [].
Qed.

Lemma record_greeting b e :
  bk_greeting (record b e) =
    match e with
    | EvHubRun _ | EvHubStop => Silent
    | EvHubHello hello => Greeted hello
    | EvHubAck ack => match bk_greeting b with Greeted hello => Answered hello ack | g => g end
    | _ => bk_greeting b
    end.
Proof. by destruct b as [? ? ? []], e as [| | | | | | |? ? [? []|]| | | | | |]. Qed.

(** The hello the hub client has last sent on its connection. *)
Lemma greeted_hello l b hello : bk_greeting b = Silent → bk_greeting (foldl record b l) = Greeted hello →
  ∃ p1 p2, l = p1 ++ EvHubHello hello :: p2 ∧ Forall offHub p2.
Proof.
  induction l as [|e l IH] using rev_ind; [cbn; congruence|]. rewrite foldl_app. cbn [foldl]. intros Hb Hr.
  rewrite record_greeting in Hr.
  assert (Hrest : bk_greeting (foldl record b l) = Greeted hello → offHub e →
    ∃ p1 p2, l ++ [e] = p1 ++ EvHubHello hello :: p2 ∧ Forall offHub p2).
  { intros H He. destruct (IH Hb H) as (p1 & p2 & -> & H2). exists p1, (p2 ++ [e]).
    split; [by rewrite <- app_assoc|]. by apply Forall_app_2; [|constructor]. }
  destruct e; try (by apply Hrest); try done; [injection Hr as ->; by exists l, []|by case_match].
Qed.

Lemma answered_hello c b l : lawful c b l → ∀ hello ack, bk_greeting b = Silent →
  bk_greeting (foldl record b l) = Answered hello ack →
  ∃ p1 p2 p3, l = p1 ++ EvHubHello hello :: p2 ++ EvHubAck ack :: p3 ∧ Forall offHub (p2 ++ p3).
Proof.
  induction l as [|e l IH] using rev_ind; intros Hl hello ack; [cbn; congruence|]. rewrite foldl_app. cbn [foldl]. intros Hb Hr.
  rewrite record_greeting in Hr. apply lawful_app in Hl as [Hl [He _]].
  assert (Hrest : bk_greeting (foldl record b l) = Answered hello ack → offHub e →
    ∃ p1 p2 p3, l ++ [e] = p1 ++ EvHubHello hello :: p2 ++ EvHubAck ack :: p3 ∧ Forall offHub (p2 ++ p3)).
  { intros H Ho. destruct (IH Hl _ _ Hb H) as (p1 & p2 & p3 & -> & H2). exists p1, p2, (p3 ++ [e]).
    rewrite <- !app_assoc. cbn. rewrite <- !app_assoc. split; [done|]. rewrite app_assoc. by apply Forall_app_2; [|constructor]. }
  destruct e as [| | | | | | | | | | | |a|]; try (by apply Hrest); try done.
  destruct He as (_ & h & Hh). rewrite Hh in Hr. injection Hr as -> ->.
  destruct (greeted_hello _ _ _ Hb Hh) as (p1 & p2 & -> & H2). exists p1, p2, [].
  rewrite <- app_assoc, app_nil_r. done.
Qed.

Lemma identity_stays c l i : ∀ b, bk_identity b = Some i → lawful c b l → bk_identity (foldl record b l) = Some i.
Proof.
  induction l as [|e l IH]; intros b Hb Hl; [done|]. destruct Hl as [He Hl]. apply (IH (record b e)); [|done].
  destruct (record_fields b e) as (-> & _). destruct e; try done. destruct He as [He _]. congruence.
Qed.

Definition seedKept (c : Config) (b : books) : Prop := match bk_identity b with Some id => keepsSeed c id | None => True end.
Lemma identity_seed c l : ∀ b, seedKept c b → lawful c b l → seedKept c (foldl record b l).
Proof.
  unfold seedKept. induction l as [|e l IH]; intros b Hb Hl; [done|]. destruct Hl as [He Hl]. apply (IH (record b e)); [|done].
  destruct (record_fields b e) as (-> & _). destruct e; try done. apply He.
Qed.
Lemma openBooks_seed c : seedKept c (openBooks (cf_Identity c)).
Proof. unfold seedKept, openBooks, keepsSeed. cbn. by destruct (complete (cf_Identity c)). Qed.

Lemma verify_none req d key : verifyRegisteredDescriptor req d key = None →
  (rq_NodeClass req = NodeClassFoundation → dd_NodeClass d = NodeClassFoundation) ∧
  dd_WSSFronts d = rq_WSSFronts req ∧ (rq_WSSFronts req ≠ [] → dd_ID d = DeriveRelayID Sum256 (Public key)).
Proof.
  unfold verifyRegisteredDescriptor. destruct (str_eqb (rq_NodeClass req) NodeClassFoundation && _) eqn:E1; [done|].
  destruct (negb (bool_decide (dd_WSSFronts d = rq_WSSFronts req))) eqn:E2; [done|].
  destruct (negb (length (rq_WSSFronts req) =? 0)%nat && _) eqn:E3; [done|]. intros _.
  apply negb_false_iff, bool_decide_eq_true in E2. split_and!; [|done|].
  - intros Hc. rewrite (proj2 (str_eqb_true _ _) Hc) in E1. cbn in E1. by apply negb_false_iff, str_eqb_true in E1.
  - intros Hne. destruct (rq_WSSFronts req); [done|]. cbn in E3. by apply negb_false_iff, str_eqb_true in E3.
Qed.

(** * What a relay does, whatever it meets *)
Section runs.
Context (c : Config) (rounds : list round) (env_ok : Forall (λ r, envOK (rd_session r)) rounds).

(** C10: a foundation relay never speaks to a hub.  Whatever its mode setting,
    an engine with a foundation token or class sends no reachability probe and
    no hello, and every request it makes goes to its own broker, over HTTPS or
    to the loopback, with the foundation token if it has one. *)
Theorem foundation_off_hub e : foundation c → e ∈ trace c rounds →
  match e with
  | EvProbe _ _ _ _ _ | EvHubRun _ | EvHubHello _ | EvHubAck _ | EvHubStop => False
  | EvPost url bearer _ =>
      ValidateSecureBrokerURL url = true ∧ (∃ path, url = trimSlashes (cf_BrokerURL c) +:+ path) ∧
      (cf_FoundationToken c ≠ ""%string → bearer = cf_FoundationToken c)
  | _ => True
  end.
Proof using ToLower_foundation seed_prefix env_ok.
  intros Hf Hin. destruct (run_lawful c rounds env_ok) as [Hl _].
  pose proof (foundation_hub_free c _ Hf (openBooks (cf_Identity c)) eq_refl Hl) as Hfree. rewrite Forall_forall in Hfree. specialize (Hfree e Hin).
  apply list_elem_of_split in Hin as (pre & post & Ht). rewrite Ht in Hl. apply lawful_split in Hl as [_ He].
  destruct e; try done. destruct He as ((Hu & Hs & ->) & _). split_and!; [by apply Hs|done|].
  intros Htok. unfold str_empty. by rewrite bool_decide_eq_false_2.
Qed.

(** C18: automatic mode advertises nothing it did not see confirmed.  A relay
    that chooses its transport registers, and listens, only on a port that a
    probe just found reachable from outside on the very address it listens on,
    and under the host the hub reached it at, unless the hub did not say. *)
Theorem auto_direct_confirmed pre post e : autoWithHub c → trace c rounds = pre ++ e :: post →
  let probed port host := ∃ base r,
    EvProbe base (cf_Token c) (directListenHost c true) port r ∈ pre ∧ port ∈ automaticPortCandidates c ∧
    dp_Outcome r = DirectProbeReachable ∧ host (dp_ObservedHost r) in
  match e with
  | EvPost _ _ (ExRegister req _) =>
      probed (rq_PublicPort req) (λ h, h = rq_PublicHost req ∨ h = ""%string)
  | EvListen host port => host = directListenHost c true ∧ probed port (λ _, True)
  | _ => True
  end.
Proof using ToLower_foundation seed_prefix env_ok.
  intros Ha Ht probed. destruct (run_lawful c rounds env_ok) as [Hl _]. rewrite Ht in Hl.
  apply lawful_split in Hl as [Hl He].
  assert (Hp : ∀ host port, (host, port) ∈ bk_confirmed (foldl record (openBooks (cf_Identity c)) pre) → probed port (eq host)).
  { intros host port Hin. destruct (confirmed_probe _ _ _ Hin) as [Hn|(base & token & lh & r & Hev & Ho & Hh)]; [by apply not_elem_of_nil in Hn|].
    apply list_elem_of_split in Hev as (p1 & p2 & Epre). rewrite Epre in Hl. apply lawful_split in Hl as [_ Hpr].
    destruct Hpr as (_ & _ & -> & -> & Hc). exists base, r. split; [rewrite Epre; apply elem_of_app; right; by left|]. done. }
  destruct e as [| | | | |host port| |url bearer [req ans|]| | | | | |]; try done.
  - destruct He as (_ & _ & He). destruct (He Ha) as [-> Hin]. split; [done|].
    apply list_elem_of_fmap in Hin as ([h p] & -> & Hin). destruct (Hp _ _ Hin) as (base & r & ? & ? & ? & _). by exists base, r.
  - destruct He as (_ & _ & _ & He). destruct (He Ha) as [Hin|Hin]; destruct (Hp _ _ Hin) as (base & r & H1 & H2 & H3 & H4);
      exists base, r; split_and!; auto.
Qed.

(** C24: a relay is online only as what it was accepted as.  A status that
    shows a direct relay online shows the ID of the last registration the
    broker answered; the broker attested the foundation class if the relay is
    one and echoed its exact fronts, and a relay with fronts has the ID of its
    configured seed.  One that shows a tunnelled relay online shows the ID and
    the endpoint of the hub's answer, which accepts a hello of the running hub
    client, its last, that carries the relay's identity. *)
Theorem online_is_registered pre post st :
  trace c rounds = pre ++ EvStatus st :: post → st_Phase st = PhaseOnline →
  (st_Transport st = TransportDirect ∧
   ∃ p1 url bearer req d p2, pre = p1 ++ EvPost url bearer (ExRegister req (Ok d)) :: p2 ∧ Forall unregistered p2 ∧
     st_RelayID st = dd_ID d ∧ (foundation c → dd_NodeClass d = NodeClassFoundation) ∧
     NormalizeWSSFronts ToLower EqualFold urlParse urlString Hostname Port isIPLiteral (cf_WSSFronts c) = Ok (dd_WSSFronts d) ∧
     (∀ key, dd_WSSFronts d ≠ [] → identityKey (cf_Identity c) = Some key → st_RelayID st = DeriveRelayID Sum256 (Public key))) ∨
  (st_Transport st = TransportTunnel ∧ ¬ foundation c ∧
   ∃ p1 hello p2 ack p3, pre = p1 ++ EvHubHello hello :: p2 ++ EvHubAck ack :: p3 ∧ Forall offHub (p2 ++ p3) ∧ ha_OK ack = true ∧
     st_RelayID st = ha_RelayID ack ∧ st_PublicHost st = ha_PublicHost ack ∧ st_PublicPort st = ha_PublicPort ack ∧
     ∃ id key, keepsSeed c id ∧ identityKey id = Some key ∧
       hf_ClientID hello = id_ClientID id ∧ hf_RealityPublicKey hello = id_RealityPublicKey id ∧
       hf_IdentityPublicKey hello = text (stdEncode (Public key))).
Proof using ToLower_foundation seed_prefix env_ok.
  intros Ht Hp. destruct (run_lawful c rounds env_ok) as [Hl _]. rewrite Ht in Hl.
  apply lawful_split in Hl as [Hl He].
  destruct (He Hp) as [_ [(Htr & Hacc & _)|(Htr & _ & (hello & ack & Hg & Hok & H1 & H2 & H3))]]; [left|right]; (split; [exact Htr|]).
  - destruct Hacc as (req & d & id & key & Hreg & Hid & Hi & Hk & Hv & Hf & Hcl).
    destruct (verify_none _ _ _ Hv) as (H1 & H2 & H3).
    destruct (registered_post (openBooks (cf_Identity c)) _ _ _ eq_refl Hreg) as (p1 & url & bearer & p2 & Hin & Hlast).
    exists p1, url, bearer, req, d, p2. split_and!; [done|done|done|auto|by rewrite H2|].
    intros key' Hne Hkey'. rewrite Hid, H3 by (by rewrite <- H2).
    pose proof (identity_seed _ _ _ (openBooks_seed c) Hl) as Hs. unfold seedKept in Hs. rewrite Hi in Hs. specialize (Hs _ Hkey'). rewrite Hk in Hs. by injection Hs as ->.
  - destruct (answered_hello _ _ _ Hl _ _ eq_refl Hg) as (p1 & p2 & p3 & -> & Hoff).
    apply lawful_split in Hl as [Hl (Hnf & _ & _ & (id & key & Hi & Hk & Hc1 & Hc2 & _ & Hc3))]. split; [exact Hnf|].
    exists p1, hello, p2, ack, p3. split_and!; try done. exists id, key.
    pose proof (identity_seed _ _ _ (openBooks_seed c) Hl) as Hs. unfold seedKept in Hs. rewrite Hi in Hs. split_and!; done.
Qed.


(** a relay has one identity.  Missing parts are generated and reported at
    most once in the engine's life, never when the configuration is complete,
    and every xray process, registration and hello of every session carries
    the same identity. *)
Lemma identity_once : ∃ id,
  (complete (cf_Identity c) = true → id = cf_Identity c ∧ ∀ i, EvIdentity i ∉ trace c rounds) ∧
  keepsSeed c id ∧
  (∀ pre post i, trace c rounds = pre ++ EvIdentity i :: post → ∀ j, EvIdentity j ∉ pre) ∧
  ∀ e, e ∈ trace c rounds →
    match e with
    | EvIdentity i | EvXrayStart _ _ i => i = id
    | EvPost _ _ (ExRegister req _) =>
        rq_ClientID req = id_ClientID id ∧ rq_RealityPublicKey req = id_RealityPublicKey id ∧ rq_ShortID req = id_ShortID id ∧
        ∃ key, identityKey id = Some key ∧ rq_IdentityPublicKey req = text (stdEncode (Public key))
    | EvHubHello h =>
        hf_ClientID h = id_ClientID id ∧ hf_RealityPublicKey h = id_RealityPublicKey id ∧ hf_ShortID h = id_ShortID id ∧
        ∃ key, identityKey id = Some key ∧ hf_IdentityPublicKey h = text (stdEncode (Public key))
    | _ => True
    end.
Proof using ToLower_foundation seed_prefix env_ok.
  destruct (run_lawful c rounds env_ok) as [Hl _]. set (b0 := openBooks (cf_Identity c)) in *.
  assert (Hstay : ∀ pre rest i, trace c rounds = pre ++ rest → bk_identity (foldl record b0 pre) = Some i →
    bk_identity (foldl record b0 (trace c rounds)) = Some i).
  { intros pre rest i Ht Hi. rewrite Ht, lawful_app in Hl. rewrite Ht, foldl_app. apply (identity_stays c); tauto. }
  pose proof (identity_seed c _ b0 (openBooks_seed c) Hl) as Hseed. unfold seedKept in Hseed.
  assert (Hrec : ∀ pre i, bk_identity (record (foldl record b0 pre) (EvIdentity i)) = Some i).
  { intros pre i. by destruct (foldl record b0 pre). }
  exists (default (cf_Identity c) (bk_identity (foldl record b0 (trace c rounds)))).
  split_and!.
  - intros Hc. assert (bk_identity b0 = Some (cf_Identity c)) as H0 by (unfold b0, openBooks; cbn; by rewrite Hc).
    rewrite (Hstay [] (trace c rounds) _ eq_refl H0). split; [done|]. intros i Hin.
    apply list_elem_of_split in Hin as (pre & post & Ht). rewrite Ht in Hl. apply lawful_split in Hl as [Hl [Hn _]].
    rewrite (identity_stays c pre _ _ H0 Hl) in Hn. discriminate.
  - destruct (bk_identity (foldl record b0 (trace c rounds))); [exact Hseed|by intros key].
  - intros pre post i Ht j (p1 & p2 & ->)%list_elem_of_split. rewrite Ht in Hl. apply lawful_split in Hl as [Hl [Hn _]].
    replace (p1 ++ EvIdentity j :: p2) with ((p1 ++ [EvIdentity j]) ++ p2) in * by (by rewrite <- app_assoc).
    rewrite foldl_app in Hn. apply lawful_app in Hl as [_ Hl].
    rewrite (identity_stays c p2 j) in Hn; [discriminate| |done]. rewrite foldl_app. apply Hrec.
  - intros e (pre & post & Ht)%list_elem_of_split. pose proof Hl as Hl'. rewrite Ht in Hl'. apply lawful_split in Hl' as [_ He].
    assert (Hid : ∀ i, bk_identity (foldl record b0 pre) = Some i → default (cf_Identity c) (bk_identity (foldl record b0 (trace c rounds))) = i).
    { intros i Hi. by rewrite (Hstay pre _ i Ht Hi). }
    destruct e as [|i| |? ? i| | | |url bearer [req ans|]| | | |h| |]; try done.
    + pose proof (Hstay (pre ++ [EvIdentity i]) post i) as H. rewrite H; [done|by rewrite <- app_assoc|].
      rewrite foldl_app. apply Hrec.
    + destruct He as (_ & _ & _ & Hi). by rewrite (Hid _ Hi).
    + destruct He as (_ & _ & (id & key & Hi & Hk & H1 & H2 & H3 & H4) & _). rewrite (Hid _ Hi). split_and!; try done. by exists key.
    + destruct He as (_ & _ & _ & (id & key & Hi & Hk & H1 & H2 & H3 & H4)). rewrite (Hid _ Hi). split_and!; try done. by exists key.
Qed.
End runs.
End engine.

(** * Example runs *)
Section examples.
#[local] Set Default Proof Using "Type".

Definition exampleKey (seed : list byte) : list byte := seed ++ seed.
Definition examplePublic (key : list byte) : list byte := take 32 key.
Definition exampleSign (key m : list byte) : list byte := replicate 64 (chr (Z.of_nat (length m))).
Definition exampleMarshal (p : wssCapabilityPayload) : option (list byte) := Some (bytes (IdentityStatementSHA256 p)).
Definition exampleURLOf (s : string) : option URL :=
  if str_eqb (String.substring 0 5 s) "https" then
    Some {| Scheme := "https"; Opaque := ""; HasUser := false; Host := "broker.example.com"; Path := "/"; RawPath := "";
            RawQuery := ""; ForceQuery := false; Fragment := "" |}
  else exampleParse s.
Definition exampleSeed : list byte := replicate 32 (chr 7).

Definition exampleRelay (token mode : string) (fronts : list Front) (id : Identity) : Config :=
  withDefaults "/tmp" (assign "" mode fronts 0 0 id
    {| cf_BrokerURL := "https://broker.example.com/"; cf_Token := "volunteer"; cf_FoundationToken := token; cf_NodeClass := "";
       cf_Label := "happy-hippo"; cf_PublicHost := "203.0.113.7"; cf_PublicPort := 0; cf_XrayPath := ""; cf_ListenHost := "";
       cf_ListenPort := 0; cf_AutomaticPortCandidates := [443; 8443; 443]; cf_Mode := ""; cf_HubAddr := "hub.example.com:9443";
       cf_HubHTTPURL := ""; cf_HubCertFingerprint := ""; cf_HubInsecure := false; cf_HubPlaintext := false; cf_ServerName := "";
       cf_RealityDest := ""; cf_MaxSessions := 0; cf_MaxMbps := 0; cf_HeartbeatInterval := 0; cf_WSSFronts := [];
       cf_ConnectionLog := false; cf_Identity := id; cf_ConfigDir := ""; cf_ConfigPath := ""; cf_Version := "";
       cf_PunchCapable := true; cf_DisableXray := false |}).
Definition exampleIdentity : Identity :=
  {| id_ClientID := "c"; id_RealityPrivateKey := "p"; id_RealityPublicKey := "k"; id_ShortID := "s";
     id_IdentitySeed := text (stdEncode exampleSeed) |}.
Definition noIdentity : Identity :=
  {| id_ClientID := ""; id_RealityPrivateKey := ""; id_RealityPublicKey := ""; id_ShortID := ""; id_IdentitySeed := "?" |}.
(** A foundation relay whose mode would take it to the hub, and a volunteer. *)
Definition foundationRelay : Config := exampleRelay "secret" ModeTunnel [exampleFront "cdn-a"] exampleIdentity.
Definition volunteerRelay : Config := exampleRelay "" ModeAuto [] noIdentity.

Definition answered (class : string) (fronts : list Front) : Descriptor :=
  newDescriptor (registerRequest (withFronts fronts (withClass class (exampleRelay "" "" [] exampleIdentity))) "happy-hippo" exampleIdentity "203.0.113.7")
    (DeriveRelayID exampleDigest exampleSeed) "lease" 0 (180 * second).

Definition exampleProbes : probeEnv :=
  {| pe_probe := λ port, {| pi_rnd := true; pi_bind := None;
       pi_calls := λ i, {| pc_ctxErr := false; pc_waitEnded := false;
                           pc_answer := if (i =? 0)%nat then None else Some (port =? 8443, "203.0.113.7"%string) |} |};
     pe_ctxErr := λ _, false |}.
(** A process that does not heed the interrupt. *)
Definition exampleXray : xrayInputs :=
  {| xi_write := true; xi_start := true; xi_interrupt := true; xi_exit := false; xi_exitKilled := true |}.
Definition exampleDirect (answer : Descriptor) (ticks : list directTick) : directEnv :=
  {| de_detect := None; de_loopback := Some ("::1"%string, 40000); de_xray := exampleXray;
     de_listen := true; de_now := 0;
     de_tries := λ i, {| rt_answer := if (i =? 0)%nat then Err (APIError 429 "slow down" "7") else Ok answer;
                         rt_ctxErr := false; rt_waitEnded := false |};
     de_baseline := None; de_onlineAt := 0; de_ticks := ticks |}.
Definition exampleSession (answer : Descriptor) (ticks : list directTick) : sessionEnv :=
  {| se_label := "quiet-fox";
     se_identity := {| ii_uuid := Some (replicate 16 (chr 255)); ii_shortID := Some (replicate 8 (chr 9));
                       ii_keyPair := Some ("p"%string, "k"%string); ii_seed := Some exampleSeed |};
     se_probe := exampleProbes; se_direct := exampleDirect answer ticks;
     se_tunnel := {| te_loopback := None; te_xray := exampleXray; te_ticks := [] |} |}.
(** The lease expires, the relay registers again, xray crashes, and the next
    session is stopped. *)
Definition exampleRounds (answer : Descriptor) : list round :=
  let again := DHeartbeat (Err (APIError 404 "relay not found" "")) 5 (Ok answer) in
  [ {| rd_session := exampleSession answer [again; DObserverClosed; DXray None]; rd_ctxErr := false; rd_long := false; rd_waitEnded := false |};
    {| rd_session := exampleSession answer [DHeartbeat (Ok ()) 0 (Ok answer); DCtxDone]; rd_ctxErr := true; rd_long := false; rd_waitEnded := false |} ].

Lemma exampleKey_prefix s : length s = SeedSize → take SeedSize (exampleKey s) = s.
Proof. intros <-. apply take_app_length. Qed.
Lemma exampleRounds_ok answer : Forall (λ r, envOK (rd_session r)) (exampleRounds answer).
Proof.
  assert (∀ ticks, envOK (exampleSession answer ticks)) as H.
  { intros ticks. split_and!; cbn; [by intros b [= <-]|by intros p q [= <- <-]|by intros s [= <-]]. }
  apply Forall_cons. split; [apply H|]. apply Forall_cons. split; [apply H|by apply Forall_nil].
Qed.

(** A relay behind the hub: its first hello is rejected, its second accepted. *)
Definition tunnelRelay : Config := exampleRelay "" ModeTunnel [] exampleIdentity.
Definition exampleAck : HelloAckFrame := 
  {| ha_OK := true; ha_Error := ""; ha_PublicHost := "hub.example.com"; ha_PublicPort := 20001; ha_RelayID := "relay-1";
     ha_StreamTyping := true; ha_ReflectorAddrs := [] |}.
Definition tunnelRounds : list round :=
  [ {| rd_session := {| se_label := "quiet-fox"; se_identity := se_identity (exampleSession (answered NodeClassVolunteer []) []);
         se_probe := exampleProbes; se_direct := exampleDirect (answered NodeClassVolunteer []) [];
         se_tunnel := {| te_loopback := Some ("::1"%string, 40000); te_xray := exampleXray;
           te_ticks := [THello 0; TAck (rejection "slow down") 1; TDisconnected (Some "rejected"%string); TAck exampleAck 2; THello 3; TAck exampleAck 4; TCtxDone] |} |};
       rd_ctxErr := true; rd_long := false; rd_waitEnded := false |} ].

Lemma tunnelRounds_ok : Forall (λ r, envOK (rd_session r)) tunnelRounds.
Proof. constructor; [|constructor]. split_and!; cbn; [by intros b [= <-]|by intros p q [= <- <-]|by intros s [= <-]]. Qed.

Definition posts (e : event) : bool := match e with EvPost _ _ _ => true | _ => false end.
Definition firstPost (l : list event) : nat := default 0%nat (fst <$> list_find (λ e, posts e = true) l).
End examples.

#[local] Notation exampleTrace c answer :=
  (trace (λ s, s) str_eqb exampleURLOf exampleString Host (λ _, ""%string) (λ _, false) exampleKey exampleDigest examplePublic
    exampleSign exampleMarshal (λ h p, h +:+ ":" +:+ p) (λ _, None) (λ _, ""%string) c (exampleRounds answer)).
#[local] Notation foundationTrace := (exampleTrace foundationRelay (answered NodeClassFoundation [exampleFront "cdn-a"])).
#[local] Notation tunnelTrace :=
  (trace (λ s, s) str_eqb exampleURLOf exampleString Host (λ _, ""%string) (λ _, false) exampleKey exampleDigest examplePublic
    exampleSign exampleMarshal (λ h p, h +:+ ":" +:+ p) (λ _, None) (λ _, ""%string) tunnelRelay tunnelRounds).
#[local] Notation volunteerTrace := (exampleTrace volunteerRelay (answered NodeClassVolunteer [])).

Lemma foundation_off_hub_witness :
  existsb posts foundationTrace = true ∧
  Forall (λ e, match e with
               | EvProbe _ _ _ _ _ | EvHubRun _ | EvHubHello _ | EvHubAck _ | EvHubStop => False
               | EvPost url bearer _ => bearer = "secret"%string
               | _ => True end) foundationTrace.
Proof.
  split; [vm_compute; reflexivity|]. apply Forall_forall. intros e He.
  pose proof (foundation_off_hub (λ s, s) str_eqb exampleURLOf exampleString Host (λ _, ""%string) (λ _, false) exampleKey exampleDigest
    examplePublic exampleSign exampleMarshal (λ h p, h +:+ ":" +:+ p) (λ _, None) (λ _, ""%string) eq_refl exampleKey_prefix
    foundationRelay _ (exampleRounds_ok _) e ltac:(by left) He) as H.
  destruct e; try exact H. by apply H.
Defined.

(** The theorem at a position of a run. *)
Lemma auto_direct_confirmed_witness :
  existsb posts volunteerTrace = true ∧
  (let i := firstPost volunteerTrace in
   match volunteerTrace !! i with
   | Some (EvPost _ _ (ExRegister req _)) =>
       rq_PublicPort req = 8443 ∧
       ∃ base r, EvProbe base "volunteer" "" 8443 r ∈ take i volunteerTrace ∧ dp_Outcome r = DirectProbeReachable
   | _ => False
   end).
Proof.
  split; [vm_compute; reflexivity|]. intros i.
  assert (Hport : match volunteerTrace !! i with Some (EvPost _ _ (ExRegister req _)) => rq_PublicPort req = 8443 | _ => False end)
    by (vm_compute; reflexivity).
  destruct (volunteerTrace !! i) as [e|] eqn:Ei; [|exact Hport].
  pose proof (auto_direct_confirmed (λ s, s) str_eqb exampleURLOf exampleString Host (λ _, ""%string) (λ _, false) exampleKey exampleDigest
    examplePublic exampleSign exampleMarshal (λ h p, h +:+ ":" +:+ p) (λ _, None) (λ _, ""%string) eq_refl exampleKey_prefix
    volunteerRelay _ (exampleRounds_ok (answered NodeClassVolunteer [])) (take i volunteerTrace) (drop (S i) volunteerTrace) e
    ltac:(by split_and!) (eq_sym (take_drop_middle _ _ _ Ei))) as H.
  destruct e as [| | | | | | |url bearer [req ans|]| | | | | |]; try exact Hport. split; [exact Hport|].
  destruct H as (base & r & Hin & _ & Hr & _). rewrite Hport in Hin. exists base, r. split; [exact Hin|exact Hr].
Defined.

Lemma online_is_registered_witness :
  (∃ st, EvStatus st ∈ foundationTrace ∧ st_Phase st = PhaseOnline ∧ st_RelayID st = DeriveRelayID exampleDigest exampleSeed) ∧
  ∃ st hello, EvStatus st ∈ tunnelTrace ∧ st_Phase st = PhaseOnline ∧ st_RelayID st = "relay-1"%string ∧ EvHubHello hello ∈ tunnelTrace.
Proof.
  split; [|
  assert (Hi : match list_find (λ e, match e with EvStatus st => bool_decide (st_Phase st = PhaseOnline) | _ => false end = true) tunnelTrace with
    | Some (i, EvStatus st) => bool_decide (st_Phase st = PhaseOnline ∧ st_Transport st = TransportTunnel ∧ st_RelayID st = "relay-1"%string) = true
    | _ => False end)
    by (vm_compute; reflexivity);
  destruct (list_find _ tunnelTrace) as [[i e]|] eqn:Ef; [|destruct Hi]; destruct e as [st| | | | | | | | | | | | |]; try (exfalso; exact Hi);
  apply bool_decide_eq_true in Hi as (Hp & Ht & Hid);
  apply list_find_Some in Ef as (Hl & _ & _);
  destruct (online_is_registered (λ s, s) str_eqb exampleURLOf exampleString Host (λ _, ""%string) (λ _, false) exampleKey exampleDigest
    examplePublic exampleSign exampleMarshal (λ h p, h +:+ ":" +:+ p) (λ _, None) (λ _, ""%string) eq_refl exampleKey_prefix
    tunnelRelay _ tunnelRounds_ok (take i tunnelTrace) (drop (S i) tunnelTrace) st
    (eq_sym (take_drop_middle _ _ _ Hl)) Hp) as [(Htr & _)|(_ & _ & p1 & hello & p2 & ack & p3 & Hin & _)];
  [rewrite Ht in Htr; discriminate|]; exists st, hello;
  split; [exact (list_elem_of_lookup_2 _ _ _ Hl)|]; split; [exact Hp|]; split; [exact Hid|];
  apply (subseteq_take i); rewrite Hin; apply elem_of_app; right; left].
  assert (Hi : match list_find (λ e, match e with EvStatus st => bool_decide (st_Phase st = PhaseOnline) | _ => false end = true) foundationTrace with
    | Some (i, EvStatus st) => bool_decide (st_Phase st = PhaseOnline ∧ st_Transport st = TransportDirect) = true | _ => False end)
    by (vm_compute; reflexivity).
  destruct (list_find _ foundationTrace) as [[i e]|] eqn:Ef; [|destruct Hi]. destruct e as [st| | | | | | | | | | | | |]; try (exfalso; exact Hi).
  apply bool_decide_eq_true in Hi as [Hp Ht].
  apply list_find_Some in Ef as (Hl & _ & _).
  destruct (online_is_registered (λ s, s) str_eqb exampleURLOf exampleString Host (λ _, ""%string) (λ _, false) exampleKey exampleDigest
    examplePublic exampleSign exampleMarshal (λ h p, h +:+ ":" +:+ p) (λ _, None) (λ _, ""%string) eq_refl exampleKey_prefix
    foundationRelay _ (exampleRounds_ok (answered NodeClassFoundation [exampleFront "cdn-a"])) (take i foundationTrace) (drop (S i) foundationTrace) st
    (eq_sym (take_drop_middle _ _ _ Hl)) Hp) as [(_ & p1 & url & bearer & req & d & p2 & _ & _ & _ & _ & Hf & Hid)|(Htr & _)];
    [|rewrite Ht in Htr; discriminate].
  exists st. split; [exact (list_elem_of_lookup_2 _ _ _ Hl)|]. split; [exact Hp|].
  rewrite (Hid (exampleKey exampleSeed)); [reflexivity| |vm_compute; reflexivity].
  intros E. rewrite E in Hf. vm_compute in Hf. discriminate Hf.
Defined.


Lemma identity_once_witness :
  existsb (λ e, match e with EvIdentity _ => true | _ => false end) volunteerTrace = true ∧
  ∃ id, ∀ host port i, EvXrayStart host port i ∈ volunteerTrace → i = id.
Proof.
  split; [vm_compute; reflexivity|].
  destruct (identity_once (λ s, s) str_eqb exampleURLOf exampleString Host (λ _, ""%string) (λ _, false) exampleKey exampleDigest
    examplePublic exampleSign exampleMarshal (λ h p, h +:+ ":" +:+ p) (λ _, None) (λ _, ""%string) eq_refl exampleKey_prefix
    volunteerRelay _ (exampleRounds_ok (answered NodeClassVolunteer []))) as (id & _ & _ & _ & H).
  exists id. intros host port i Hin. exact (H _ Hin).
Defined.
