(* ===== verification/RelayLifecycle.v ===== *)
(** The calls of the relay engine's host beside its supervisor
    (src/libs/openrung/internal/relayruntime/engine/engine.go: [Start], [Stop],
    [Running], [UpdateConfig], [RenderXrayConfig], [prepareIdentity] and the
    deferred end of [run]).

    The engine is safe for concurrent use, so its calls are machines: an event
    is one critical section of one caller, or the step between two of them, and
    a history is any sequence of events the locks admit.  What the supervisor
    does inside a session is [RelayEngine]; here it is the phases it reports
    and the identities it prepares.  A configuration is its number and its
    identity, [None] when parts are missing. *)
From stdpp Require Import base list list_numbers gmap.
From Stdlib Require Import ZArith Lia.
From S2P Require Import Prelude RelayEngine.

(** * State *)
Record conf := { cn_no : nat; cn_identity : option nat }.
#[export] Instance conf_eq_dec : EqDecision conf.
Proof. solve_decision. Defined.

(** Where a [run] goroutine is: supervising, or in its deferred function after
    the idle status, after [e.cancel = nil], and after [close(done)]. *)
Inductive runpc := RSupervise | RIdled | RCleared | RClosed.
#[export] Instance runpc_eq_dec : EqDecision runpc.
Proof. solve_decision. Defined.
Record runstate := { rn_pc : runpc; rn_cancelled : bool }.

(** Where a [Stop] is, after it captured the [cancel] and [done] of a run:
    before its status, before [cancel()], waiting for [done], returned. *)
Inductive stoppc := SCaptured | SMarked | SWaiting | SReturned.
#[export] Instance stoppc_eq_dec : EqDecision stoppc.
Proof. solve_decision. Defined.
Record stopstate := { sp_run : nat; sp_pc : stoppc }.

Record lstate := {
  ls_cancel : option nat;            (* e.cancel and e.done, by their run *)
  ls_phase : Phase;
  ls_cfg : conf;
  ls_preparing : option conf;        (* who holds identityMu in prepareIdentity, with what it read *)
  ls_runs : list runstate;
  ls_stops : list stopstate;
  ls_installed : list conf;          (* ghost: configurations installed, latest first *)
  ls_reported : list (nat * nat)     (* ghost: OnIdentity, by configuration *)
}.

(** [New]. *)
Definition newEngine (c : conf) : lstate :=
  {| ls_cancel := None; ls_phase := PhaseIdle; ls_cfg := c; ls_preparing := None; ls_runs := []; ls_stops := [];
     ls_installed := [c]; ls_reported := [] |}.

Definition Running (s : lstate) : bool := bool_decide (is_Some (ls_cancel s)).

Definition withCancel (k : option nat) (s : lstate) : lstate :=
  {| ls_cancel := k; ls_phase := ls_phase s; ls_cfg := ls_cfg s; ls_preparing := ls_preparing s; ls_runs := ls_runs s;
     ls_stops := ls_stops s; ls_installed := ls_installed s; ls_reported := ls_reported s |}.
Definition withPhase (p : Phase) (s : lstate) : lstate :=
  {| ls_cancel := ls_cancel s; ls_phase := p; ls_cfg := ls_cfg s; ls_preparing := ls_preparing s; ls_runs := ls_runs s;
     ls_stops := ls_stops s; ls_installed := ls_installed s; ls_reported := ls_reported s |}.
Definition withRuns (l : list runstate) (s : lstate) : lstate :=
  {| ls_cancel := ls_cancel s; ls_phase := ls_phase s; ls_cfg := ls_cfg s; ls_preparing := ls_preparing s; ls_runs := l;
     ls_stops := ls_stops s; ls_installed := ls_installed s; ls_reported := ls_reported s |}.
Definition withStops (l : list stopstate) (s : lstate) : lstate :=
  {| ls_cancel := ls_cancel s; ls_phase := ls_phase s; ls_cfg := ls_cfg s; ls_preparing := ls_preparing s; ls_runs := ls_runs s;
     ls_stops := l; ls_installed := ls_installed s; ls_reported := ls_reported s |}.
Definition withPreparing (h : option conf) (s : lstate) : lstate :=
  {| ls_cancel := ls_cancel s; ls_phase := ls_phase s; ls_cfg := ls_cfg s; ls_preparing := h; ls_runs := ls_runs s;
     ls_stops := ls_stops s; ls_installed := ls_installed s; ls_reported := ls_reported s |}.
Definition install (c : conf) (s : lstate) : lstate :=
  {| ls_cancel := ls_cancel s; ls_phase := ls_phase s; ls_cfg := c; ls_preparing := ls_preparing s; ls_runs := ls_runs s;
     ls_stops := ls_stops s; ls_installed := c :: ls_installed s; ls_reported := ls_reported s |}.
Definition keepIdentity (id : nat) (s : lstate) : lstate :=
  {| ls_cancel := ls_cancel s; ls_phase := ls_phase s; ls_cfg := {| cn_no := cn_no (ls_cfg s); cn_identity := Some id |};
     ls_preparing := ls_preparing s; ls_runs := ls_runs s; ls_stops := ls_stops s; ls_installed := ls_installed s;
     ls_reported := (cn_no (ls_cfg s), id) :: ls_reported s |}.

(** * Steps *)
Definition goto (pc : runpc) (r : runstate) : runstate := {| rn_pc := pc; rn_cancelled := rn_cancelled r |}.
Definition cancelRun (r : runstate) : runstate := {| rn_pc := rn_pc r; rn_cancelled := true |}.
Definition setRun (k : nat) (r : runstate) (s : lstate) : lstate := withRuns (<[k := r]> (ls_runs s)) s.
Definition setStop (j : nat) (pc : stoppc) (x : stopstate) (s : lstate) : lstate :=
  withStops (<[j := {| sp_run := sp_run x; sp_pc := pc |}]> (ls_stops s)) s.

(** [Start]; [valid] is whether the configuration passes [validate]. *)
Definition Start (valid : bool) (s : lstate) : lstate :=
  match ls_cancel s with
  | Some _ => s
  | None =>
      if valid then withCancel (Some (length (ls_runs s)))
        (withRuns (ls_runs s ++ [{| rn_pc := RSupervise; rn_cancelled := false |}]) s)
      else s
  end.

(** A phase a session or the supervisor reports. *)
Definition sessionPhase (p : Phase) : bool :=
  match p with PhaseStarting | PhaseProbing | PhaseRegistering | PhaseOnline | PhaseRetrying => true | PhaseIdle | PhaseStopping => false end.

(** The supervisor returns only when its context has ended, and then runs its
    deferred function. *)
Definition runStep (k : nat) (report : option Phase) (s : lstate) : option lstate :=
  r ← ls_runs s !! k;
  match rn_pc r, report with
  | RSupervise, Some p => if sessionPhase p then Some (withPhase p s) else None
  | RSupervise, None => if rn_cancelled r then Some (setRun k (goto RIdled r) (withPhase PhaseIdle s)) else None
  | RIdled, None => Some (setRun k (goto RCleared r) (withCancel None s))
  | RCleared, None => Some (setRun k (goto RClosed r) s)
  | _, _ => None
  end.

(** A [Stop] that found nothing to stop has returned already. *)
Definition Stop (s : lstate) : lstate :=
  match ls_cancel s with
  | None => s
  | Some k => withStops (ls_stops s ++ [{| sp_run := k; sp_pc := SCaptured |}]) s
  end.

Definition stopStep (j : nat) (s : lstate) : option lstate :=
  x ← ls_stops s !! j;
  match sp_pc x with
  | SCaptured => Some (setStop j SMarked x (withPhase PhaseStopping s))
  | SMarked => r ← ls_runs s !! sp_run x; Some (setStop j SWaiting x (setRun (sp_run x) (cancelRun r) s))
  | SWaiting => r ← ls_runs s !! sp_run x; if bool_decide (rn_pc r = RClosed) then Some (setStop j SReturned x s) else None
  | SReturned => None
  end.

(** [UpdateConfig] takes identityMu, so it waits for a preparation. *)
Definition UpdateConfig (c : conf) (s : lstate) : option lstate :=
  match ls_preparing s with
  | Some _ => None
  | None => Some (if Running s then s else install c s)
  end.

(** [prepareIdentity], called by a session or by [RenderXrayConfig]: it reads
    the stored identity under identityMu, and writes the completed one back;
    [None] is a generation that failed. *)
Definition prepareBegin (s : lstate) : option lstate :=
  match ls_preparing s with Some _ => None | None => Some (withPreparing (Some (ls_cfg s)) s) end.
Definition prepareEnd (generated : option nat) (s : lstate) : option lstate :=
  c ← ls_preparing s;
  Some (withPreparing None (match cn_identity c, generated with None, Some id => keepIdentity id s | _, _ => s end)).

Inductive event :=
| EvStart (valid : bool)
| EvRun (k : nat) (report : option Phase)
| EvStop
| EvStopStep (j : nat)
| EvUpdate (c : conf)
| EvPrepare
| EvPrepared (generated : option nat).

(** [None] is an event the locks or the program order do not admit.  A
    configuration has a number of its own. *)
Definition step (e : event) (s : lstate) : option lstate :=
  match e with
  | EvStart valid => Some (Start valid s)
  | EvRun k report => runStep k report s
  | EvStop => Some (Stop s)
  | EvStopStep j => stopStep j s
  | EvUpdate c => if bool_decide (cn_no c ∈ cn_no <$> ls_installed s) then None else UpdateConfig c s
  | EvPrepare => prepareBegin s
  | EvPrepared generated => prepareEnd generated s
  end.

Fixpoint steps (l : list event) (s : lstate) : option lstate :=
  match l with [] => Some s | e :: l => s ← step e s; steps l s end.

(** * The invariant *)
(** A goroutine that has not cleared [e.cancel] owns the engine. *)
Definition owns (r : runstate) : Prop := rn_pc r = RSupervise ∨ rn_pc r = RIdled.

Record good (s : lstate) : Prop := {
  own_one k r : ls_runs s !! k = Some r → owns r → ls_cancel s = Some k;
  own_some k : ls_cancel s = Some k → ∃ r, ls_runs s !! k = Some r ∧ owns r;
  ended_cancelled k r : ls_runs s !! k = Some r → rn_pc r ≠ RSupervise → rn_cancelled r = true;
  stop_run j x : ls_stops s !! j = Some x → ∃ r, ls_runs s !! sp_run x = Some r ∧
    (sp_pc x = SWaiting ∨ sp_pc x = SReturned → rn_cancelled r = true) ∧ (sp_pc x = SReturned → rn_pc r = RClosed);
  cancelled_stop k r : ls_runs s !! k = Some r → rn_cancelled r = true →
    ∃ j x, ls_stops s !! j = Some x ∧ sp_run x = k ∧ (sp_pc x = SWaiting ∨ sp_pc x = SReturned)
}.

(** What the identity of a configuration goes through. *)
Record identified (s : lstate) : Prop := {
  held_current c : ls_preparing s = Some c → ls_cfg s = c;
  current_installed : ∃ c l, ls_installed s = c :: l ∧ cn_no c = cn_no (ls_cfg s) ∧
    (is_Some (cn_identity c) → ls_cfg s = c) ∧
    (cn_identity c = None → ∀ id, cn_identity (ls_cfg s) = Some id ↔ (cn_no c, id) ∈ ls_reported s);
  numbers_distinct : NoDup (cn_no <$> ls_installed s);
  reported_once : NoDup (ls_reported s).*1;
  reported_missing n id : (n, id) ∈ ls_reported s → ∃ c, c ∈ ls_installed s ∧ cn_no c = n ∧ cn_identity c = None
}.

Lemma newEngine_good c : good (newEngine c) ∧ identified (newEngine c).
Proof.
  split; split; cbn; try done.
  - exists c, []. split_and!; [done|done|done|]. intros Hn id. rewrite Hn. split; [done|]. by intros ?%elem_of_nil.
  - apply NoDup_singleton.
  - constructor.
  - by intros n id ?%elem_of_nil.
Qed.

(** Every event either concerns the goroutines and calls, or the configuration. *)
Lemma good_same s s' : ls_cancel s' = ls_cancel s → ls_runs s' = ls_runs s → ls_stops s' = ls_stops s → good s → good s'.
Proof. intros E1 E2 E3 [H1 H2 H3 H4 H5]. split; rewrite ?E1, ?E2, ?E3; auto. Qed.

Lemma identified_same s s' : ls_cfg s' = ls_cfg s → ls_preparing s' = ls_preparing s → ls_installed s' = ls_installed s →
  ls_reported s' = ls_reported s → identified s → identified s'.
Proof. intros E1 E2 E3 E4 [H1 H2 H3 H4 H5]. split; rewrite ?E1, ?E2, ?E3, ?E4; auto. Qed.

Lemma Start_good valid s : good s → good (Start valid s).
Proof.
  intros Hg. unfold Start. destruct (ls_cancel s) eqn:Ec; [done|]. destruct valid; [|done].
  destruct Hg as [H1 H2 H3 H4 H5]. split; cbn.
  - intros k r [[_ Hk]|[-> <-]]%lookup_snoc_Some Ho; [|done]. rewrite (H1 _ _ Hk Ho) in Ec. done.
  - intros k [= <-]. eexists. split; [apply lookup_snoc_Some; by right|by left].
  - intros k r [[_ Hk]|[-> <-]]%lookup_snoc_Some Hp; [eauto|done].
  - intros j x Hx. destruct (H4 j x Hx) as (r & Hr & H). exists r. split; [by apply lookup_app_l_Some|done].
  - intros k r [[_ Hk]|[-> <-]]%lookup_snoc_Some Hp; [eauto|done].
Qed.

(** A step of one goroutine of [run]. *)
Lemma setRun_good k r r' s cancel : good s → ls_runs s !! k = Some r → rn_cancelled r = true → rn_cancelled r' = true →
  (rn_pc r = RClosed → rn_pc r' = RClosed) →
  (owns r' → owns r ∧ cancel = ls_cancel s) → (¬ owns r' → owns r → cancel = None) → (¬ owns r → cancel = ls_cancel s) →
  good (setRun k r' (withCancel cancel s)).
Proof.
  intros [H1 H2 H3 H4 H5] Hk Hc Hc' Hcl Ho Hno Hnn. split; cbn.
  - intros i x [[<- [<- Hlt]]|[Hne Hx]]%list_lookup_insert_Some Hox.
    + destruct (Ho Hox) as [Hor ->]. eauto.
    + pose proof (H1 _ _ Hx Hox) as Hi. destruct (decide (cancel = ls_cancel s)) as [->|Hd]; [done|].
      destruct Hd. apply Hnn. intros Hor. pose proof (H1 _ _ Hk Hor) as Hk'. rewrite Hi in Hk'. by injection Hk'.
  - intros i Hi. destruct (decide (i = k)) as [->|Hne].
    + exists r'. split; [apply list_lookup_insert_eq; by eapply lookup_lt_Some|].
      destruct (decide (owns r')) as [|Hn]; [done|]. exfalso.
      destruct (decide (owns r)) as [Hor|Hor]; [by rewrite Hno in Hi|]. rewrite Hnn in Hi by done.
      destruct (H2 _ Hi) as (x & Hx & Hox). rewrite Hk in Hx. by injection Hx as ->.
    + assert (Hi' : ls_cancel s = Some i).
      { destruct (decide (owns r)) as [Hor|Hor]; [|by rewrite <- Hnn]. destruct (decide (owns r')) as [Hor'|Hor'].
        - by destruct (Ho Hor') as [_ <-].
        - rewrite Hno in Hi by done. done. }
      destruct (H2 _ Hi') as (x & Hx & Hox). exists x. by rewrite list_lookup_insert_ne.
  - intros i x [[<- [<- Hlt]]|[Hne Hx]]%list_lookup_insert_Some Hp; [done|eauto].
  - intros j x Hx. destruct (H4 j x Hx) as (y & Hy & Hw & Hr). destruct (decide (sp_run x = k)) as [E|Hne].
    + rewrite E in *. rewrite Hk in Hy. injection Hy as <-. exists r'. split; [apply list_lookup_insert_eq; by eapply lookup_lt_Some|]. auto.
    + exists y. by rewrite list_lookup_insert_ne.
  - intros i x [[<- [<- Hlt]]|[Hne Hx]]%list_lookup_insert_Some Hp; [|eauto]. eauto.
Qed.

#[export] Instance owns_dec r : Decision (owns r).
Proof. unfold owns. apply _. Defined.

Lemma runStep_good k report s s' : good s → runStep k report s = Some s' → good s'.
Proof.
  intros Hg. unfold runStep. destruct (ls_runs s !! k) as [r|] eqn:Hk; [|done]. cbn. pose proof (ended_cancelled s Hg k r Hk) as Hc.
  destruct (rn_pc r) eqn:Hp, report as [p|]; try done.
  - destruct (sessionPhase p); [|done]. intros [= <-]. by apply (good_same s).
  - destruct (rn_cancelled r) eqn:Hcc; [|done]. intros [= <-].
    apply (good_same (setRun k (goto RIdled r) (withCancel (ls_cancel s) s))); [done..|].
    apply (setRun_good k r); try done; unfold owns; cbn; rewrite ?Hp; naive_solver.
  - intros [= <-]. apply (setRun_good k r); try done; [by apply Hc|by apply Hc|..]; unfold owns; cbn; rewrite ?Hp; naive_solver.
  - intros [= <-]. apply (good_same (setRun k (goto RClosed r) (withCancel (ls_cancel s) s))); [done..|].
    apply (setRun_good k r); try done; [by apply Hc|by apply Hc|..]; unfold owns; cbn; rewrite ?Hp; naive_solver.
Qed.

Lemma Stop_good s : good s → good (Stop s).
Proof.
  intros Hg. unfold Stop. destruct (ls_cancel s) as [k|] eqn:Ec; [|done]. pose proof (own_some s Hg k Ec) as (r & Hr & _).
  destruct Hg as [H1 H2 H3 H4 H5]. split; cbn; try done.
  - intros j x [[_ Hx]|[-> <-]]%lookup_snoc_Some; [eauto|]. exists r. cbn. split_and!; [done|by intros [?|?]|done].
  - intros i x Hi Hx. destruct (H5 i x Hi Hx) as (j & y & Hj & H). exists j, y. split; [by apply lookup_app_l_Some|done].
Qed.

Lemma setStop_good j pc x s r : good s → ls_stops s !! j = Some x → ls_runs s !! sp_run x = Some r →
  (pc = SWaiting ∨ pc = SReturned → rn_cancelled r = true) → (pc = SReturned → rn_pc r = RClosed) →
  (sp_pc x = SWaiting ∨ sp_pc x = SReturned → pc = SWaiting ∨ pc = SReturned) → good (setStop j pc x s).
Proof.
  intros [H1 H2 H3 H4 H5] Hx Hr Hw Hret Hmono. split; cbn; try done.
  - intros i y [[<- [<- Hlt]]|[Hne Hy]]%list_lookup_insert_Some; [|eauto]. by exists r.
  - intros k y Hk Hc. destruct (H5 k y Hk Hc) as (i & z & Hi & Hrun & Hpc). destruct (decide (i = j)) as [->|Hne].
    + rewrite Hx in Hi. injection Hi as <-. exists j. eexists. split; [apply list_lookup_insert_eq; by eapply lookup_lt_Some|]. cbn. auto.
    + exists i, z. by rewrite list_lookup_insert_ne.
Qed.

Lemma cancelRun_good j x r s : good s → ls_stops s !! j = Some x → ls_runs s !! sp_run x = Some r → sp_pc x = SMarked →
  good (setStop j SWaiting x (setRun (sp_run x) (cancelRun r) s)).
Proof.
  intros [H1 H2 H3 H4 H5] Hx Hr Hpc. pose proof (lookup_lt_Some _ _ _ Hr) as Hlt. pose proof (lookup_lt_Some _ _ _ Hx) as Hjlt. split; cbn.
  - intros k y [[<- [<- _]]|[Hne Hy]]%list_lookup_insert_Some Ho; eauto.
  - intros k Hk. destruct (H2 k Hk) as (y & Hy & Ho). destruct (decide (k = sp_run x)) as [->|Hne].
    + rewrite Hr in Hy. injection Hy as <-. exists (cancelRun r). by rewrite list_lookup_insert_eq.
    + exists y. by rewrite list_lookup_insert_ne.
  - intros k y [[<- [<- _]]|[Hne Hy]]%list_lookup_insert_Some; [done|eauto].
  - intros i y Hy. assert (Hy' : ∃ z, ls_stops s !! i = Some z ∧ sp_run y = sp_run z ∧ (i ≠ j → y = z) ∧ (i = j → sp_pc y = SWaiting)).
    { apply list_lookup_insert_Some in Hy as [[<- [<- _]]|[Hne Hy]]; [by exists x|by exists y]. }
    destruct Hy' as (z & Hz & Erun & Hne & Heq). destruct (H4 i z Hz) as (w & Hw & Hc & Hcl). rewrite Erun.
    destruct (decide (sp_run z = sp_run x)) as [Er|Er].
    + rewrite Er in *. rewrite Hr in Hw. injection Hw as <-. exists (cancelRun r). rewrite list_lookup_insert_eq by done.
      split_and!; [done|done|]. destruct (decide (i = j)) as [->|Hij]; [by rewrite Heq|]. rewrite (Hne Hij). done.
    + exists w. rewrite list_lookup_insert_ne by done. split; [done|]. destruct (decide (i = j)) as [->|Hij]; [|by rewrite (Hne Hij)].
      rewrite Hx in Hz. injection Hz as <-. done.
  - intros k y Hk Hc. destruct (decide (k = sp_run x)) as [->|Hne].
    + exists j. eexists. rewrite list_lookup_insert_eq by done. cbn. auto.
    + rewrite list_lookup_insert_ne in Hk by done. destruct (H5 k y Hk Hc) as (i & z & Hi & Hrun & Hz).
      exists i, z. rewrite list_lookup_insert_ne; [done|]. intros <-. rewrite Hx in Hi. injection Hi as <-. by rewrite Hrun in Hne.
Qed.

Lemma stopStep_good j s s' : good s → stopStep j s = Some s' → good s'.
Proof.
  intros Hg. unfold stopStep. destruct (ls_stops s !! j) as [x|] eqn:Hx; [|done]. cbn.
  destruct (stop_run s Hg j x Hx) as (r & Hr & Hc & _). destruct (sp_pc x) eqn:Hp; rewrite ?Hr; cbn.
  - intros [= <-]. apply (setStop_good j SMarked x _ r); try done; [by apply (good_same s)|by intros [?|?]|by rewrite Hp; intros [?|?]].
  - intros [= <-]. by apply cancelRun_good.
  - case_bool_decide; [|done]. intros [= <-]. apply (setStop_good j SReturned x _ r); try done; auto.
  - done.
Qed.

Lemma engineStep_good e s s' : good s → step e s = Some s' → good s'.
Proof.
  intros Hg. destruct e as [valid|k report| |j|c| |generated]; cbn.
  - intros [= <-]. by apply Start_good.
  - by apply runStep_good.
  - intros [= <-]. by apply Stop_good.
  - by apply stopStep_good.
  - case_bool_decide; [done|]. unfold UpdateConfig. destruct (ls_preparing s); [done|]. intros [= <-]. by destruct (Running s); [|apply (good_same s)].
  - unfold prepareBegin. destruct (ls_preparing s); [done|]. intros [= <-]. by apply (good_same s).
  - unfold prepareEnd. destruct (ls_preparing s) as [c|]; [|done]. cbn. intros [= <-].
    destruct (cn_identity c), generated; by apply (good_same s).
Qed.

(** The outcomes of an admitted event. *)
Ltac step_cases He :=
  match type of He with step ?e _ = Some _ => destruct e end; cbn in He;
  unfold Start, runStep, Stop, stopStep, UpdateConfig, prepareBegin, prepareEnd in He;
  repeat (simplify_option_eq; case_match); simplify_option_eq; try done.

(** ** Identities *)
Lemma install_identified c s : identified s → cn_no c ∉ cn_no <$> ls_installed s → ls_preparing s = None → identified (install c s).
Proof.
  intros [H1 H2 H3 H4 H5] Hf Hp. split; cbn; try done.
  - intros d Hd. by rewrite Hp in Hd.
  - exists c, (ls_installed s). split_and!; [done|done|done|]. intros Hn id. rewrite Hn. split; [done|].
    intros Hin. destruct (H5 _ _ Hin) as (d & Hd & Hno & _). destruct Hf. rewrite <- Hno. by apply list_elem_of_fmap_2.
  - by constructor.
  - intros n id Hin. destruct (H5 _ _ Hin) as (d & Hd & H). exists d. split; [by right|done].
Qed.

Lemma keepIdentity_identified id s : identified s → cn_identity (ls_cfg s) = None → identified (withPreparing None (keepIdentity id s)).
Proof.
  intros [H1 (c & l & Hl & Hno & Hsome & Hnone) H3 H4 H5] Hn.
  assert (Hc : cn_identity c = None).
  { destruct (cn_identity c) eqn:E; [|done]. rewrite <- (Hsome ltac:(by eexists)), Hn in E. done. }
  split; cbn; try done.
  - exists c, l. split_and!; [done|done|by rewrite Hc; intros [? [=]]|]. intros _ id'. rewrite elem_of_cons, Hno. split; [intros [= <-]; by left|].
    intros [[= ->]|Hin]; [done|]. rewrite <- Hno in Hin. apply (Hnone Hc) in Hin. by rewrite Hn in Hin.
  - constructor; [|done]. intros ((n & id') & E & Hin)%list_elem_of_fmap. cbn in E. subst n. rewrite <- Hno in Hin. apply (Hnone Hc) in Hin. by rewrite Hn in Hin.
  - intros n id' [[= -> ->]|Hin]%elem_of_cons; [|eauto]. exists c. split_and!; [rewrite Hl; by left|done|done].
Qed.

Lemma step_identified e s s' : identified s → step e s = Some s' → identified s'.
Proof.
  intros Hi He. assert (Hhold : ∀ c, ls_preparing s = Some c → ls_cfg s = c) by apply Hi.
  assert (Hset : ∀ h, (∀ c, h = Some c → ls_cfg s = c) → identified (withPreparing h s)).
  { intros h Hh. destruct Hi as [H1 H2 H3 H4 H5]. by split. }
  step_cases He; try (by apply (identified_same s)); try (by apply Hset; intros ? [=]).
  - apply install_identified; auto.
  - apply keepIdentity_identified; [done|by rewrite (Hhold _ eq_refl)].
Qed.

Lemma steps_invariant l : ∀ s s', good s → identified s → steps l s = Some s' → good s' ∧ identified s'.
Proof.
  induction l as [|e l IH]; intros s s' Hg Hi; cbn [steps]; [by intros [= <-]|].
  destruct (step e s) as [s1|] eqn:E; [|done]. cbn. apply IH; [by eapply engineStep_good|by eapply step_identified].
Qed.

Lemma reached c l s : steps l (newEngine c) = Some s → good s ∧ identified s.
Proof. destruct (newEngine_good c). by apply steps_invariant. Qed.

(** * One relay *)
(** The installed configuration wins.  A configuration that brings an
    identity keeps it whatever is prepared beside it; one that does not gets
    at most one, reported once, which every later preparation reads. *)
Lemma configuration_wins c l s : steps l (newEngine c) = Some s →
  (∃ installed older, ls_installed s = installed :: older ∧ cn_no installed = cn_no (ls_cfg s) ∧
     (∀ id, cn_identity installed = Some id → cn_identity (ls_cfg s) = Some id) ∧
     (cn_identity installed = None → ∀ id, cn_identity (ls_cfg s) = Some id ↔ (cn_no installed, id) ∈ ls_reported s)) ∧
  NoDup (ls_reported s).*1 ∧
  (∀ n id, (n, id) ∈ ls_reported s → ∃ d, d ∈ ls_installed s ∧ cn_no d = n ∧ cn_identity d = None).
Proof.
  intros Hs. destruct (reached c l s Hs) as [_ [_ (d & older & Hl & Hno & Hsome & Hnone) _ H4 H5]]. split_and!; [|done|done].
  exists d, older. split_and!; [done|done| |done]. intros id Hid. rewrite Hsome; [done|by eexists].
Qed.

(** What was installed and reported stays on record. *)
Lemma step_grows e s s' : step e s = Some s' →
  (∃ k, ls_installed s' = k ++ ls_installed s) ∧ (∃ k, ls_reported s' = k ++ ls_reported s).
Proof.
  intros He. assert (Hsame : ∀ {A} (l : list A), ∃ k, l = k ++ l) by (intros A l; by exists []).
  step_cases He; (split; [try apply Hsame; by eexists [_]|try apply Hsame; by eexists [_]]).
Qed.

Lemma steps_grow l : ∀ s s', steps l s = Some s' →
  (∃ k, ls_installed s' = k ++ ls_installed s) ∧ (∃ k, ls_reported s' = k ++ ls_reported s).
Proof.
  induction l as [|e l IH]; intros s s'; cbn [steps]; [intros [= <-]; split; by exists []|].
  destruct (step e s) as [s1|] eqn:E; [|done]. cbn. intros Hs. destruct (step_grows _ _ _ E) as [[k1 E1] [k2 E2]].
  destruct (IH _ _ Hs) as [[k3 E3] [k4 E4]]. rewrite E3, E4, E1, E2. split; eexists; by rewrite app_assoc.
Qed.

(** The identity a configuration has it keeps. *)
Lemma identity_kept c l s l' s' id : steps l (newEngine c) = Some s → steps l' s = Some s' →
  cn_no (ls_cfg s') = cn_no (ls_cfg s) → cn_identity (ls_cfg s) = Some id → cn_identity (ls_cfg s') = Some id.
Proof.
  intros Hs Hs' Hno Hid. destruct (reached c l s Hs) as [Hg Hi]. destruct (steps_invariant _ _ _ Hg Hi Hs') as [_ Hi'].
  destruct (steps_grow _ _ _ Hs') as [[k E] [r Er]].
  destruct Hi as [_ (d & older & Hl & Hn & Hsome & Hnone) _ _ _], Hi' as [_ (d' & older' & Hl' & Hn' & Hsome' & Hnone') Hnd _ _].
  assert (d' = d) as ->.
  { rewrite E, Hl in Hl', Hnd. destruct k as [|x k]; [by injection Hl'|]. injection Hl' as -> _. exfalso.
    cbn in Hnd. apply NoDup_cons in Hnd as [Hnd _]. apply Hnd. rewrite Hn', Hno, <- Hn, fmap_app. apply elem_of_app. right. by left. }
  destruct (cn_identity d) as [x|] eqn:Ed.
  - rewrite Hsome' by done. by rewrite Hsome in Hid.
  - apply Hnone'; [done|]. rewrite Er. apply elem_of_app. right. by apply Hnone.
Qed.

(** C15: one relay runs at a time.  However starts, stops, configuration
    updates and renders interleave, at most one supervisor owns the engine,
    [Running] says whether one does, and a [Stop] returns only when its
    supervisor has closed its channel.  The configuration in force is the one
    installed last, and no call changes it under a supervisor.  Its identity is
    the one it brought, or the one reported for it if it brought none, of which
    there is at most one; and once it has an identity it keeps it. *)
Theorem one_relay c l s : steps l (newEngine c) = Some s →
  (∀ j k r r', ls_runs s !! j = Some r → ls_runs s !! k = Some r' → owns r → owns r' → j = k) ∧
  (Running s = true ↔ ∃ k r, ls_runs s !! k = Some r ∧ owns r) ∧
  (∀ j x, ls_stops s !! j = Some x → sp_pc x = SReturned → ∃ r, ls_runs s !! sp_run x = Some r ∧ rn_pc r = RClosed) ∧
  (∃ installed older, ls_installed s = installed :: older ∧ cn_no installed = cn_no (ls_cfg s) ∧
     (∀ id, cn_identity installed = Some id → cn_identity (ls_cfg s) = Some id) ∧
     (cn_identity installed = None → ∀ id, cn_identity (ls_cfg s) = Some id ↔ (cn_no installed, id) ∈ ls_reported s)) ∧
  NoDup (ls_reported s).*1 ∧
  (∀ e s', step e s = Some s' → Running s = true → cn_no (ls_cfg s') = cn_no (ls_cfg s)) ∧
  (∀ l' s' id, steps l' s = Some s' → cn_no (ls_cfg s') = cn_no (ls_cfg s) →
     cn_identity (ls_cfg s) = Some id → cn_identity (ls_cfg s') = Some id).
Proof.
  intros Hs. destruct (reached c l s Hs) as [[H1 H2 H3 H4 H5] _]. destruct (configuration_wins c l s Hs) as (Hw & Hnd & _).
  split_and!; [| | |exact Hw|exact Hnd| |by intros l' s' id; apply identity_kept with c l].
  - intros j k r r' Hj Hk Oj Ok. pose proof (H1 _ _ Hj Oj) as E. rewrite (H1 _ _ Hk Ok) in E. by injection E.
  - unfold Running. rewrite bool_decide_eq_true. split.
    + intros [k Hk]. destruct (H2 k Hk) as (r & Hr & Ho). by exists k, r.
    + intros (k & r & Hr & Ho). exists k. eauto.
  - intros j x Hx Hp. destruct (H4 j x Hx) as (r & Hr & _ & Hcl). exists r. auto.
  - intros e s' He Hrun. by step_cases He; congruence.
Qed.

(** ** Stopping *)
(** The steps a cancelled goroutine has left. *)
Definition left_of (r : runstate) : nat := match rn_pc r with RSupervise => 3 | RIdled => 2 | RCleared => 1 | RClosed => 0 end.

Lemma run_next k r s : ls_runs s !! k = Some r → rn_cancelled r = true → rn_pc r ≠ RClosed → ∃ s' r',
  runStep k None s = Some s' ∧ ls_stops s' = ls_stops s ∧ ls_runs s' !! k = Some r' ∧ rn_cancelled r' = true ∧ left_of r = S (left_of r').
Proof.
  intros Hk Hc Hp. pose proof (lookup_lt_Some _ _ _ Hk) as Hlt. unfold runStep, left_of. rewrite Hk. cbn.
  destruct (rn_pc r); [rewrite Hc| | |done]; (eexists _, _; split; [reflexivity|]; cbn; split; [done|]; split; [by apply list_lookup_insert_eq|]; cbn; auto).
Qed.

Lemma run_closes m : ∀ k r s, left_of r = m → ls_runs s !! k = Some r → rn_cancelled r = true → ∃ s' r',
  steps (replicate m (EvRun k None)) s = Some s' ∧ ls_stops s' = ls_stops s ∧ ls_runs s' !! k = Some r' ∧ rn_pc r' = RClosed.
Proof.
  induction m as [|m IH]; intros k r s Hm Hk Hc.
  - exists s, r. split_and!; try done. unfold left_of in Hm. by destruct (rn_pc r).
  - destruct (run_next k r s Hk Hc) as (s1 & r1 & Hs1 & Est & Hk1 & Hc1 & Hm1); [intros E; unfold left_of in Hm; by rewrite E in Hm|].
    destruct (IH k r1 s1) as (s2 & r2 & Hs2 & Est2 & H); [lia|done|done|].
    exists s2, r2. cbn. rewrite Hs1. cbn. rewrite Est2, Est. auto.
Qed.

Lemma steps_app l k s : steps (l ++ k) s = steps l s ≫= steps k.
Proof. revert s. induction l as [|e l IH]; intros s; [done|]. cbn. destruct (step e s); [apply IH|done]. Qed.

(** A stop returns.  In every history a call of [Stop] that has cancelled
    its supervisor returns after at most three more steps of it, which depend
    on no one else. *)
Lemma stop_returns c l s j x : steps l (newEngine c) = Some s → ls_stops s !! j = Some x → sp_pc x = SWaiting →
  ∃ n s' x', (n ≤ 3)%nat ∧ steps (replicate n (EvRun (sp_run x) None) ++ [EvStopStep j]) s = Some s' ∧
    ls_stops s' !! j = Some x' ∧ sp_pc x' = SReturned.
Proof.
  intros Hs Hx Hp. destruct (reached c l s Hs) as [Hg _]. destruct (stop_run s Hg j x Hx) as (r & Hr & Hc & _).
  destruct (run_closes _ _ _ _ eq_refl Hr (Hc ltac:(by left))) as (s1 & r' & Hsteps & Est & Hr' & Hcl).
  exists (left_of r). eexists. eexists. split; [unfold left_of; destruct (rn_pc r); lia|].
  rewrite steps_app, Hsteps. cbn. unfold stopStep. rewrite Est, Hx. cbn. rewrite Hp, Hr'. cbn.
  rewrite bool_decide_eq_true_2 by done. split; [reflexivity|]. cbn. split; [apply list_lookup_insert_eq; rewrite Est; by eapply lookup_lt_Some|done].
Qed.

(** ** The phase of a stopped engine *)
(** With one [Stop] for every run. *)
Record calm (s : lstate) : Prop := {
  calm_early j x r : ls_stops s !! j = Some x → sp_pc x = SCaptured ∨ sp_pc x = SMarked → ls_runs s !! sp_run x = Some r → rn_cancelled r = false;
  calm_idle : (ls_cancel s = None ∨ ∃ k r, ls_runs s !! k = Some r ∧ rn_pc r = RIdled) → ls_phase s = PhaseIdle
}.

Lemma step_stops e s s' : step e s = Some s' → (sp_run <$> ls_stops s) `prefix_of` (sp_run <$> ls_stops s').
Proof.
  intros He.
  assert (Hset : ∀ j x pc s0, ls_stops s !! j = Some x → ls_stops s0 = ls_stops s → sp_run <$> ls_stops (setStop j pc x s0) = sp_run <$> ls_stops s).
  { intros j x pc s0 Hx E. cbn. rewrite list_fmap_insert, E. apply list_insert_id. by rewrite list_lookup_fmap, Hx. }
  step_cases He; try (by rewrite Hset). cbn. rewrite fmap_app. by apply prefix_app_r.
Qed.

Lemma calm_supervising s j x r : good s → calm s → ls_stops s !! j = Some x → sp_pc x = SCaptured ∨ sp_pc x = SMarked →
  ls_runs s !! sp_run x = Some r → rn_pc r = RSupervise ∧ ls_cancel s = Some (sp_run x).
Proof.
  intros Hg Hc Hx Hp Hr. assert (Hs : rn_pc r = RSupervise).
  { destruct (decide (rn_pc r = RSupervise)) as [|Hn]; [done|]. pose proof (calm_early s Hc j x r Hx Hp Hr) as E.
    by rewrite (ended_cancelled s Hg _ _ Hr Hn) in E. }
  split; [done|]. apply (own_one s Hg _ r); [done|by left].
Qed.

(** Whoever supervises is the only one that could be idle. *)
Lemma supervising_busy s k r : good s → ls_runs s !! k = Some r → rn_pc r = RSupervise →
  ¬ (ls_cancel s = None ∨ ∃ k r, ls_runs s !! k = Some r ∧ rn_pc r = RIdled).
Proof.
  intros Hg Hr Hp [Hn|(k' & r' & Hr' & Hp')]; pose proof (own_one s Hg k r Hr ltac:(by left)) as Hk; [by rewrite Hn in Hk|].
  pose proof (own_one s Hg k' r' Hr' ltac:(by right)) as Hk'. rewrite Hk in Hk'. injection Hk' as <-. rewrite Hr in Hr'. injection Hr' as <-. by rewrite Hp in Hp'.
Qed.

Lemma stops_distinct s j i x y : NoDup (sp_run <$> ls_stops s) → ls_stops s !! j = Some x → ls_stops s !! i = Some y → sp_run x = sp_run y → i = j.
Proof.
  intros Hnd Hx Hy E. eapply (NoDup_lookup _ i j (sp_run x) Hnd); rewrite list_lookup_fmap; [by rewrite Hy, E|by rewrite Hx].
Qed.

Lemma calm_same s s' : ls_phase s' = ls_phase s → ls_cancel s' = ls_cancel s → ls_runs s' = ls_runs s → ls_stops s' = ls_stops s → calm s → calm s'.
Proof. intros E1 E2 E3 E4 [H1 H2]. split; rewrite ?E1, ?E2, ?E3, ?E4; auto. Qed.

Lemma runStep_calm k report s s' : good s → calm s → runStep k report s = Some s' → calm s'.
Proof.
  intros Hg Hc. unfold runStep. destruct (ls_runs s !! k) as [r|] eqn:Hk; [|done]. cbn. pose proof (lookup_lt_Some _ _ _ Hk) as Hlt.
  assert (Hgo : ∀ pc s1, ls_stops s1 = ls_stops s → ls_runs s1 = <[k:=goto pc r]> (ls_runs s) →
    ∀ j x y, ls_stops s1 !! j = Some x → sp_pc x = SCaptured ∨ sp_pc x = SMarked → ls_runs s1 !! sp_run x = Some y → rn_cancelled y = false).
  { intros pc s1 E1 E2 j x y Hx Hp Hy. rewrite E1 in Hx. rewrite E2 in Hy.
    apply list_lookup_insert_Some in Hy as [[E [<- _]]|[_ Hy]]; [|by eapply (calm_early s Hc)].
    cbn. eapply (calm_early s Hc); [done|done|]. by rewrite <- E. }
  assert (Hidled : ∀ pc i y, pc ≠ RIdled → <[k:=goto pc r]> (ls_runs s) !! i = Some y → rn_pc y = RIdled → ls_runs s !! i = Some y).
  { intros pc i y Hn [[-> [<- _]]|[_ Hy]]%list_lookup_insert_Some Hp; done. }
  destruct (rn_pc r) eqn:Hp, report as [p|]; try done.
  - destruct (sessionPhase p); [|done]. intros [= <-]. destruct Hc as [H1 H2]. split; cbn; [exact H1|].
    intros H. by destruct (supervising_busy s k r Hg Hk Hp).
  - destruct (rn_cancelled r); [|done]. intros [= <-]. split; [by apply (Hgo RIdled)|by intros _].
  - intros [= <-]. split; [by apply (Hgo RCleared)|]. intros _. cbn. apply (calm_idle s Hc). right. by exists k, r.
  - intros [= <-]. split; [by apply (Hgo RClosed)|]. cbn. intros [Hn|(i & y & Hy & Hpy)]; apply (calm_idle s Hc); [by left|right].
    exists i, y. split; [|done]. by apply (Hidled RClosed).
Qed.

Lemma Stop_calm s : good s → calm s → NoDup (sp_run <$> ls_stops (Stop s)) → calm (Stop s).
Proof.
  intros Hg Hcalm. unfold Stop. destruct (ls_cancel s) as [k|] eqn:Ec; [|done]. cbn. intros Hnd. split; [|apply Hcalm].
  destruct Hcalm as [H1 _]. cbn. intros j x r [[_ Hx]|[-> <-]]%lookup_snoc_Some Hp Hr; [eauto|]. cbn in Hr.
  destruct (rn_cancelled r) eqn:Hc; [|done]. destruct (cancelled_stop s Hg k r Hr Hc) as (i & y & Hy & Hrun & _).
  rewrite fmap_app, NoDup_app in Hnd. destruct Hnd as (_ & Hnd & _). destruct (Hnd k); [|by left].
  apply list_elem_of_fmap. exists y. split; [done|]. by eapply list_elem_of_lookup_2.
Qed.

Lemma stopStep_calm j s s' : good s → calm s → NoDup (sp_run <$> ls_stops s) → stopStep j s = Some s' → calm s'.
Proof.
  intros Hg Hc Hnd. unfold stopStep. destruct (ls_stops s !! j) as [x|] eqn:Hx; [|done]. cbn.
  destruct (stop_run s Hg j x Hx) as (r & Hr & _ & _).
  assert (Hset : ∀ pc s1, ls_stops s1 = ls_stops s → (pc = SCaptured ∨ pc = SMarked → sp_pc x = SCaptured ∨ sp_pc x = SMarked) →
    ∀ i y, ls_stops (setStop j pc x s1) !! i = Some y → sp_pc y = SCaptured ∨ sp_pc y = SMarked →
      ∃ z, ls_stops s !! i = Some z ∧ sp_run y = sp_run z ∧ (sp_pc z = SCaptured ∨ sp_pc z = SMarked) ∧ (i = j → y = {| sp_run := sp_run x; sp_pc := pc |})).
  { intros pc s1 E Hmono i y Hy Hp. cbn in Hy. rewrite E in Hy.
    apply list_lookup_insert_Some in Hy as [[<- [<- _]]|[Hne Hy]]; [exists x; auto|]. exists y. by split_and!. }
  destruct (sp_pc x) eqn:Hp; rewrite ?Hr; cbn.
  - intros [= <-]. destruct (calm_supervising s j x r Hg Hc Hx ltac:(by left) Hr) as [Hsup _]. split.
    + intros i y q Hy Hpy Hq. destruct (Hset SMarked _ eq_refl ltac:(auto) i y Hy Hpy) as (z & Hz & E & Hpz & _). rewrite E in Hq. by eapply (calm_early s Hc).
    + cbn. intros H. by destruct (supervising_busy s _ r Hg Hr Hsup).
  - intros [= <-]. destruct (calm_supervising s j x r Hg Hc Hx ltac:(by right) Hr) as [Hsup Hcan]. split.
    + intros i y q Hy Hpy Hq. destruct (Hset SWaiting (setRun (sp_run x) (cancelRun r) s) eq_refl ltac:(by intros [?|?]) i y Hy Hpy) as (z & Hz & E & Hpz & Hj).
      cbn in Hq. apply list_lookup_insert_Some in Hq as [[Er [<- _]]|[Hne Hq]].
      * assert (i = j) as ->; [|rewrite Hj in Hpy by done; by destruct Hpy]. eapply stops_distinct; try done. by rewrite Er, E.
      * rewrite E in Hq. by eapply (calm_early s Hc).
    + cbn. intros [Hn|(i & y & Hy & Hpy)]; [by rewrite Hcan in Hn|]. exfalso.
      apply (supervising_busy s _ r Hg Hr Hsup). right.
      apply list_lookup_insert_Some in Hy as [[<- [<- _]]|[Hne Hy]]; [cbn in Hpy; by rewrite Hsup in Hpy|by exists i, y].
  - case_bool_decide; [|done]. intros [= <-]. split.
    + intros i y q Hy Hpy Hq. destruct (Hset SReturned _ eq_refl ltac:(by intros [?|?]) i y Hy Hpy) as (z & Hz & E & Hpz & _). rewrite E in Hq. by eapply (calm_early s Hc).
    + cbn. apply Hc.
  - done.
Qed.

Lemma step_calm e s s' : good s → calm s → NoDup (sp_run <$> ls_stops s') → step e s = Some s' → calm s'.
Proof.
  intros Hg Hc Hnd He. pose proof (step_stops e s s' He) as [k Hk].
  assert (Hnd0 : NoDup (sp_run <$> ls_stops s)) by (rewrite Hk in Hnd; by apply NoDup_app in Hnd as [? _]).
  destruct e as [valid|i report| |j|d| |generated]; cbn in He; [| | |by apply (stopStep_calm j s)| | |].
  - injection He as <-. unfold Start. destruct (ls_cancel s) eqn:Ec; [done|]. destruct valid; [|done]. split; cbn.
    + intros j x r Hx Hp [[_ Hr]|[Hl _]]%lookup_snoc_Some; [by eapply (calm_early s Hc)|].
      destruct (stop_run s Hg j x Hx) as (y & Hy & _). apply lookup_lt_Some in Hy. lia.
    + intros [Hn|(j & x & [[_ Hx]|[_ <-]]%lookup_snoc_Some & Hp)]; [done| |done].
      rewrite (own_one s Hg j x Hx) in Ec; [done|by right].
  - by apply (runStep_calm i report s).
  - injection He as <-. by apply Stop_calm.
  - case_bool_decide; [done|]. unfold UpdateConfig in He. destruct (ls_preparing s); [done|]. injection He as <-. destruct (Running s); [done|by apply (calm_same s)].
  - unfold prepareBegin in He. destruct (ls_preparing s); [done|]. injection He as <-. by apply (calm_same s).
  - unfold prepareEnd in He. destruct (ls_preparing s) as [d|]; [|done]. cbn in He. injection He as <-.
    destruct (cn_identity d), generated; by apply (calm_same s).
Qed.

Lemma steps_calm l : ∀ s s', good s → identified s → calm s → steps l s = Some s' → NoDup (sp_run <$> ls_stops s') →
  calm s' ∧ (sp_run <$> ls_stops s) `prefix_of` (sp_run <$> ls_stops s').
Proof.
  induction l as [|e l IH] using rev_ind; intros s s' Hg Hi Hc; [by intros [= <-]|]. rewrite steps_app.
  destruct (steps l s) as [s1|] eqn:E1; [|done]. cbn. destruct (step e s1) as [s2|] eqn:E2; [|done]. cbn. intros [= <-] Hnd.
  pose proof (step_stops e s1 s2 E2) as Hpre. assert (Hnd1 : NoDup (sp_run <$> ls_stops s1)).
  { destruct Hpre as [k Hk]. rewrite Hk in Hnd. by apply NoDup_app in Hnd as [? _]. }
  destruct (IH s s1 Hg Hi Hc E1 Hnd1) as [Hc1 Hp1]. destruct (steps_invariant l s s1 Hg Hi E1) as [Hg1 _].
  split; [by eapply step_calm|]. by etrans.
Qed.

(** Two callers stop one run: the second one's status comes after the run's
    last. *)
Definition twoStops : list event :=
  [EvStart true; EvRun 0 (Some PhaseStarting); EvRun 0 (Some PhaseOnline); EvStop; EvStop;
   EvStopStep 0; EvStopStep 0; EvRun 0 None; EvRun 0 None; EvRun 0 None; EvStopStep 0;
   EvStopStep 1; EvStopStep 1; EvStopStep 1].

(** What they leave. *)
Definition stranded (c : conf) : lstate :=
  {| ls_cancel := None; ls_phase := PhaseStopping; ls_cfg := c; ls_preparing := None;
     ls_runs := [{| rn_pc := RClosed; rn_cancelled := true |}];
     ls_stops := [{| sp_run := 0; sp_pc := SReturned |}; {| sp_run := 0; sp_pc := SReturned |}];
     ls_installed := [c]; ls_reported := [] |}.

(** C38: a stopped engine says so, unless two calls stopped it.  If no two calls
    of [Stop] met the same run, an engine that is not running is idle; but two
    concurrent ones can leave it, with nothing running and every call returned,
    in the stopping phase for good. *)
Theorem stopped_phase c :
  (∀ l s, steps l (newEngine c) = Some s → NoDup (sp_run <$> ls_stops s) → Running s = false → ls_phase s = PhaseIdle) ∧
  (∃ s, steps twoStops (newEngine c) = Some s ∧ Running s = false ∧ ls_phase s = PhaseStopping ∧
     (∀ k r, ls_runs s !! k = Some r → rn_pc r = RClosed) ∧ (∀ j x, ls_stops s !! j = Some x → sp_pc x = SReturned)).
Proof.
  split.
  - intros l s Hs Hnd Hr. destruct (newEngine_good c) as [Hg Hi].
    destruct (steps_calm l _ s Hg Hi ltac:(by split) Hs Hnd) as [Hc _]. apply (calm_idle s Hc). left.
    unfold Running in Hr. apply bool_decide_eq_false in Hr. by destruct (ls_cancel s); [destruct Hr; eexists|].
  - exists (stranded c). split; [vm_compute; reflexivity|]. split_and!; [vm_compute; reflexivity|done|..].
    + intros [|k] r Hk; [by injection Hk as <-|done].
    + intros [|[|j]] x Hx; [by injection Hx as <-..|done].
Qed.

(** * Histories *)
(** A run is stopped while a render prepares the identity of the next. *)
Definition exampleHistory : list event :=
  [EvStart true; EvPrepare; EvPrepared (Some 7%nat); EvRun 0 (Some PhaseOnline); EvStop; EvStart true; EvStopStep 0; EvStopStep 0; EvRun 0 None;
   EvRun 0 None; EvRun 0 None; EvStopStep 0; EvUpdate {| cn_no := 1; cn_identity := None |}; EvPrepare; EvPrepared (Some 8%nat)].
Definition exampleConf : conf := {| cn_no := 0; cn_identity := None |}.
Definition exampleState : lstate := default (newEngine exampleConf) (steps exampleHistory (newEngine exampleConf)).

Lemma one_relay_witness :
  steps exampleHistory (newEngine exampleConf) = Some exampleState ∧
  (∀ j x, ls_stops exampleState !! j = Some x → sp_pc x = SReturned → ∃ r, ls_runs exampleState !! sp_run x = Some r ∧ rn_pc r = RClosed).
Proof.
  assert (Hs : steps exampleHistory (newEngine exampleConf) = Some exampleState) by (vm_compute; reflexivity).
  split; [exact Hs|]. exact (proj1 (proj2 (proj2 (one_relay exampleConf exampleHistory exampleState Hs)))).
Defined.

Lemma stopped_phase_witness :
  steps exampleHistory (newEngine exampleConf) = Some exampleState ∧ Running exampleState = false ∧ ls_phase exampleState = PhaseIdle.
Proof.
  assert (Hs : steps exampleHistory (newEngine exampleConf) = Some exampleState) by (vm_compute; reflexivity).
  assert (Hr : Running exampleState = false) by (vm_compute; reflexivity).
  split; [exact Hs|split; [exact Hr|]]. apply (proj1 (stopped_phase exampleConf) exampleHistory exampleState Hs); [|exact Hr].
  apply (bool_decide_unpack _). vm_compute. exact I.
Defined.
