(* ===== verification/HubProbe.v ===== *)
(** The hub's side of a reachability probe
    (src/libs/openrung/internal/tunnel/probe.go), and its composition with the
    relay's side ([RelayEngine.ProbeDirectReachability]).

    A relay asks the hub to dial it back at the address the request came from;
    its temporary listener writes a line with its nonce.  The handler waits for
    the dial, so a prober is a machine whose requests interleave; a dial is an
    argument: the bytes a connection to an address delivers, if it opens. *)
From stdpp Require Import base list list_numbers strings gmap.
From Stdlib Require Import ZArith Lia.
From S2P Require Import Prelude Codec Netip Ticket Ranking RateLimit Punch PunchHub RelayConfig RelayEngine.

(** * Data *)
Definition ProbeLinePrefix : string := "ORPROBE ".
Definition probeMaxLine : nat := 128.

Record ProbeRequest := { pq_Port : Z; pq_Nonce : string }.
Record ProbeResponse := { pb_Reachable : bool; pb_ObservedHost : string; pb_Error : string }.

(** What the handler reads of a request; [None] is a body that does not decode. *)
Record probeHTTP := { ph_Authorization : string; ph_RemoteAddr : string; ph_body : option ProbeRequest }.

Definition requestIP (remoteAddr : string) : string :=
  match SplitHostPort (bytes remoteAddr) with Some (host, _) => text host | None => remoteAddr end.

Definition bearerAuthorized (authorization token : string) : bool :=
  if str_empty token then true else
  let got := bytes authorization in
  bool_decide (take 7 got = bytes "Bearer ") && bool_decide (drop 7 got = bytes token).

(** [bufio.Reader.ReadString('\n')] over the first bytes of a connection: what
    it returned, and whether it found the line's end. *)
Fixpoint readUntil (l : list byte) : list byte * bool :=
  match l with
  | [] => ([], false)
  | c :: l => if val c =? 10 then ([c], true) else let '(line, found) := readUntil l in (c :: line, found)
  end.
Definition readLine (received : list byte) : list byte * bool := readUntil (take probeMaxLine received).

Definition dialAndVerify (dial : string → Z → option (list byte)) (ip : string) (port : Z) (nonce : string) : ProbeResponse :=
  let failed e := {| pb_Reachable := false; pb_ObservedHost := ip; pb_Error := e |} in
  match dial ip port with
  | None => failed "dial failed"%string
  | Some received =>
      let '(line, found) := readLine received in
      if negb found && bool_decide (line = []) then failed "no response"%string else
      if str_eqb (TrimSpace (text line)) (ProbeLinePrefix +:+ nonce)
      then {| pb_Reachable := true; pb_ObservedHost := ip; pb_Error := "" |} else failed "nonce mismatch"%string
  end.

(** * The handler *)
Section prober.
Context {F : Type} {float : Float64 F}.
#[local] Set Default Proof Using "Type".

Record ReachabilityProber := { rp_Token : string; rp_limiter : punchLimiter F; rp_inflight : inflightCap }.

(** [newPunchLimiter(2, 4)] and [newInflightCap(64, 4)]. *)
Definition maxProbes : Z := 64.
Definition maxProbesPerIP : Z := 4.
Definition NewReachabilityProber (token : string) : ReachabilityProber :=
  {| rp_Token := token; rp_limiter := {| pl_buckets := ∅; pl_lastPrune := zero_time |};
     rp_inflight := {| perRelay := ∅; perIP := ∅ |} |}.

(** A dial under way. *)
Record probe := { pb_ip : string; pb_port : Z; pb_nonce : string }.

(** The handler up to its dial: an answer (a status, and a body where it
    writes one), or the dial, with its slot taken.  The slot is taken and the
    body decoded in one step, which the code does one after the other. *)
Definition beginProbe (r : probeHTTP) (now : Z) (p : ReachabilityProber) : ReachabilityProber * (Z * option ProbeResponse + probe) :=
  let refused e := Some {| pb_Reachable := false; pb_ObservedHost := ""; pb_Error := e |} in
  if negb (bearerAuthorized (ph_Authorization r) (rp_Token p)) then (p, inl (401, None)) else
  let ip := requestIP (ph_RemoteAddr r) in
  let '(ok, limiter) := punchAllow (of_int 2) (of_int 4) ip now (rp_limiter p) in
  let p := {| rp_Token := rp_Token p; rp_limiter := limiter; rp_inflight := rp_inflight p |} in
  if negb ok then (p, inl (429, None)) else
  let '(ok, inflight) := acquireUpTo maxProbes maxProbesPerIP "probe" ip (rp_inflight p) in
  if negb ok then (p, inl (429, None)) else
  let held := {| rp_Token := rp_Token p; rp_limiter := limiter; rp_inflight := inflight |} in
  let released := {| rp_Token := rp_Token p; rp_limiter := limiter; rp_inflight := release "probe" ip inflight |} in
  match ph_body r with
  | None => (released, inl (400, refused "invalid request"%string))
  | Some req =>
      if (pq_Port req <? 1) || (65535 <? pq_Port req) then (released, inl (400, refused "invalid port"%string)) else
      if str_empty (pq_Nonce req) || (64 <? length (bytes (pq_Nonce req)))%nat then (released, inl (400, refused "invalid nonce"%string)) else
      (held, inr {| pb_ip := ip; pb_port := pq_Port req; pb_nonce := pq_Nonce req |})
  end.

(** After the dial: the answer, and the deferred release. *)
Definition finishProbe (dial : string → Z → option (list byte)) (d : probe) (p : ReachabilityProber) : ReachabilityProber * (Z * option ProbeResponse) :=
  ({| rp_Token := rp_Token p; rp_limiter := rp_limiter p; rp_inflight := release "probe" (pb_ip d) (rp_inflight p) |},
   (200, Some (dialAndVerify dial (pb_ip d) (pb_port d) (pb_nonce d)))).

(** * Interleavings *)
Inductive probeEvent := PBegin (r : probeHTTP) (now : Z) | PFinish (dial : string → Z → option (list byte)).
Record proberState := { ps_prober : ReachabilityProber; ps_dialling : gmap nat probe }.

(** A request begins under a fresh name; a dial that ended finishes it. *)
Definition probeStep (q : nat) (ev : probeEvent) (s : proberState) : option proberState :=
  match ev, ps_dialling s !! q with
  | PBegin r now, None =>
      match beginProbe r now (ps_prober s) with
      | (p, inl _) => Some {| ps_prober := p; ps_dialling := ps_dialling s |}
      | (p, inr d) => Some {| ps_prober := p; ps_dialling := <[q := d]> (ps_dialling s) |}
      end
  | PFinish dial, Some d =>
      Some {| ps_prober := (finishProbe dial d (ps_prober s)).1; ps_dialling := delete q (ps_dialling s) |}
  | _, _ => None
  end.

Fixpoint probeRun (evs : list (nat * probeEvent)) (s : proberState) : option proberState :=
  match evs with [] => Some s | (q, ev) :: evs => s ← probeStep q ev s; probeRun evs s end.

Definition poolOf (d : probe) : string := "probe".

Record proberOK (s : proberState) : Prop := {
  po_pool : counts poolOf (ps_dialling s) (perRelay (rp_inflight (ps_prober s)));
  po_ip : counts pb_ip (ps_dialling s) (perIP (rp_inflight (ps_prober s)));
  po_max k : waiting poolOf k (ps_dialling s) ≤ maxProbes ∧ waiting pb_ip k (ps_dialling s) ≤ maxProbesPerIP
}.

(** Giving back what was just taken. *)
Lemma release_acquired k ip f : (∀ n, countOf (perRelay f) n = 0 → perRelay f !! n = None) → (∀ n, countOf (perIP f) n = 0 → perIP f !! n = None) →
  0 ≤ countOf (perRelay f) k → 0 ≤ countOf (perIP f) ip →
  release k ip {| perRelay := <[k := countOf (perRelay f) k + 1]> (perRelay f); perIP := <[ip := countOf (perIP f) ip + 1]> (perIP f) |} = f.
Proof.
  intros H1 H2 H3 H4. unfold release. cbn [perRelay perIP]. rewrite !decrement_increment by auto. by destruct f.
Qed.

Lemma counts_zero {P} (key : P → string) m table : counts key m table → ∀ k, countOf table k = 0 → table !! k = None.
Proof. intros Hc k Hk. destruct (Hc k) as [He Hn]. apply Hn. lia. Qed.

Lemma counts_nonneg {P} (key : P → string) m table : counts key m table → ∀ k, 0 ≤ countOf table k.
Proof. intros Hc k. destruct (Hc k) as [He _]. unfold waiting in He. lia. Qed.

(** What beginning a request does to the tables. *)
Lemma beginProbe_cases r now p p' res :
  (∀ n, countOf (perRelay (rp_inflight p)) n = 0 → perRelay (rp_inflight p) !! n = None) →
  (∀ n, countOf (perIP (rp_inflight p)) n = 0 → perIP (rp_inflight p) !! n = None) →
  (∀ n, 0 ≤ countOf (perRelay (rp_inflight p)) n) → (∀ n, 0 ≤ countOf (perIP (rp_inflight p)) n) →
  beginProbe r now p = (p', res) →
  match res with
  | inl _ => rp_inflight p' = rp_inflight p
  | inr d =>
      pb_ip d = requestIP (ph_RemoteAddr r) ∧ 1 ≤ pb_port d ≤ 65535 ∧
      countOf (perRelay (rp_inflight p)) "probe" < maxProbes ∧ countOf (perIP (rp_inflight p)) (pb_ip d) < maxProbesPerIP ∧
      rp_inflight p' = {| perRelay := <["probe"%string := countOf (perRelay (rp_inflight p)) "probe" + 1]> (perRelay (rp_inflight p));
                          perIP := <[pb_ip d := countOf (perIP (rp_inflight p)) (pb_ip d) + 1]> (perIP (rp_inflight p)) |}
  end.
Proof.
  intros H1 H2 H3 H4. unfold beginProbe. destruct (negb _); [by intros [= <- <-]|].
  destruct (punchAllow _ _ _ _ _) as [[] limiter]; cbn [negb]; [|by intros [= <- <-]].
  unfold acquireUpTo. cbn [rp_inflight]. destruct (_ || _) eqn:Hfull; cbn [negb]; [by intros [= <- <-]|].
  rewrite orb_false_iff, !Z.leb_gt in Hfull. destruct Hfull as [Hf1 Hf2]. destruct (ph_body r) as [req|].
  - destruct (_ || _) eqn:Hp; [intros [= <- <-]; cbn; by apply release_acquired|]. rewrite orb_false_iff, !Z.ltb_ge in Hp.
    destruct (_ || _); [intros [= <- <-]; cbn; by apply release_acquired|]. intros [= <- <-]. cbn. split_and!; auto; lia.
  - intros [= <- <-]; cbn; by apply release_acquired.
Qed.

Lemma probeStep_ok q ev s s' : proberOK s → probeStep q ev s = Some s' → proberOK s'.
Proof.
  intros [Hr Hi Hm]. unfold probeStep. destruct ev as [r now|dial].
  - destruct (ps_dialling s !! q) as [|] eqn:Hq; [done|]. destruct (beginProbe r now (ps_prober s)) as [p res] eqn:Hb.
    apply beginProbe_cases in Hb; [|by eapply counts_zero|by eapply counts_zero|by eapply counts_nonneg|by eapply counts_nonneg].
    destruct res as [ans|d]; intros [= <-]; [split; cbn; by rewrite ?Hb|].
    destruct Hb as (_ & _ & Hf1 & Hf2 & Hin). split; cbn [ps_prober ps_dialling]; rewrite ?Hin; cbn [perRelay perIP].
    + apply (counts_insert poolOf q d _ _ Hq Hr).
    + apply (counts_insert pb_ip q d _ _ Hq Hi).
    + intros k. rewrite !waiting_insert by done. destruct (Hm k) as [M1 M2].
      destruct (Hr "probe"%string) as [E1 _], (Hi (pb_ip d)) as [E2 _]. rewrite E1 in Hf1. rewrite E2 in Hf2.
      split; case_decide as Hd; [rewrite <- Hd; change (poolOf d) with "probe"%string| |rewrite <- Hd|]; lia.
  - destruct (ps_dialling s !! q) as [d|] eqn:Hq; [|done]. intros [= <-]. split; cbn.
    + apply (counts_delete poolOf q d _ _ Hq Hr).
    + apply (counts_delete pb_ip q d _ _ Hq Hi).
    + intros k. rewrite !(waiting_delete _ _ q d) by done. destruct (Hm k). split; case_decide; lia.
Qed.

Lemma probeRun_ok evs : ∀ s s', proberOK s → probeRun evs s = Some s' → proberOK s'.
Proof.
  induction evs as [|[q ev] evs IH]; intros s s' Hs; cbn [probeRun]; [by intros [= <-]|].
  destruct (probeStep q ev s) as [s1|] eqn:E; [|done]. cbn. apply IH. by eapply probeStep_ok.
Qed.

Lemma newProber_ok token : proberOK {| ps_prober := NewReachabilityProber token; ps_dialling := ∅ |}.
Proof.
  assert (Hz : ∀ (key : probe → string) k, waiting key k ∅ = 0).
  { intros key k. unfold waiting. by rewrite map_filter_empty, map_size_empty. }
  split; cbn; intros k; rewrite !Hz; done.
Qed.
End prober.
Arguments ReachabilityProber : clear implicits.
Arguments proberState : clear implicits.

(** * The relay's side *)
Section composition.
Context {F : Type} {float : Float64 F}.
#[local] Set Default Proof Using "Type".

(** One request of a relay as it meets the hub: when, in which state, and what
    the hub's dial would find. *)
Record attempt := { at_http : probeHTTP; at_now : Z; at_prober : ReachabilityProber F; at_dial : string → Z → option (list byte) }.

(** [doProbe]: anything but 200 and a body is no answer. *)
Definition doProbe (answer : Z * option ProbeResponse) : option (bool * string) :=
  if negb (answer.1 =? 200) then None else (λ r, (pb_Reachable r, pb_ObservedHost r)) <$> answer.2.

Definition hubAnswer (a : attempt) : Z * option ProbeResponse :=
  match beginProbe (at_http a) (at_now a) (at_prober a) with
  | (_, inl answer) => answer
  | (p, inr d) => (finishProbe (at_dial a) d p).2
  end.

(** The line of the relay's temporary listener. *)
Definition relayLine (nonce : string) : list byte := bytes ProbeLinePrefix ++ bytes nonce ++ [chr 10].

Lemma beginProbe_dial r now (p p' : ReachabilityProber F) d req : ph_body r = Some req → beginProbe r now p = (p', inr d) →
  d = {| pb_ip := requestIP (ph_RemoteAddr r); pb_port := pq_Port req; pb_nonce := pq_Nonce req |}.
Proof.
  intros Hb. unfold beginProbe. rewrite Hb. destruct (negb _); [done|]. destruct (punchAllow _ _ _ _ _) as [[] ?]; cbn [negb]; [|done].
  destruct (acquireUpTo _ _ _ _ _) as [[] ?]; cbn [negb]; [|done]. do 2 (destruct (_ || _); [done|]). by intros [= _ <-].
Qed.

Lemma beginProbe_refuses r now (p p' : ReachabilityProber F) answer : beginProbe r now p = (p', inl answer) → doProbe answer = None.
Proof.
  unfold beginProbe. destruct (negb _); [by intros [= _ <-]|]. destruct (punchAllow _ _ _ _ _) as [[] ?]; cbn [negb]; [|by intros [= _ <-]].
  destruct (acquireUpTo _ _ _ _ _) as [[] ?]; cbn [negb]; [|by intros [= _ <-]].
  destruct (ph_body r); [|by intros [= _ <-]]. do 2 (destruct (_ || _); [by intros [= _ <-]|]). done.
Qed.

Lemma dialAndVerify_reachable dial ip port nonce : pb_Reachable (dialAndVerify dial ip port nonce) = true →
  ∃ received, dial ip port = Some received ∧ TrimSpace (text (readLine received).1) = (ProbeLinePrefix +:+ nonce)%string.
Proof.
  unfold dialAndVerify. destruct (dial ip port) as [received|]; [|done]. destruct (readLine received) as [line found] eqn:El.
  destruct (_ && _); [done|]. destruct (str_eqb _ _) eqn:Es; [|done]. apply str_eqb_true in Es. intros _. exists received. by rewrite El.
Qed.

Lemma dialAndVerify_host dial ip port nonce : pb_ObservedHost (dialAndVerify dial ip port nonce) = ip.
Proof.
  unfold dialAndVerify. destruct (dial ip port) as [received|]; [|done]. destruct (readLine received).
  destruct (_ && _); [done|]. by destruct (str_eqb _ _).
Qed.

Lemma hubAnswer_reachable a req host : ph_body (at_http a) = Some req → doProbe (hubAnswer a) = Some (true, host) →
  host = requestIP (ph_RemoteAddr (at_http a)) ∧ ∃ received, at_dial a host (pq_Port req) = Some received ∧
    TrimSpace (text (readLine received).1) = (ProbeLinePrefix +:+ pq_Nonce req)%string.
Proof.
  intros Hb. unfold hubAnswer. destruct (beginProbe _ _ _) as [p [answer|d]] eqn:E.
  { apply beginProbe_refuses in E. by rewrite E. }
  apply (beginProbe_dial _ _ _ _ _ req Hb) in E as ->. unfold doProbe, finishProbe. cbn. intros [= Hr <-].
  rewrite dialAndVerify_host. split; [done|]. by apply dialAndVerify_reachable in Hr.
Qed.

(** ** An honest listener *)
Lemma readUntil_line l rest : lacks 10 l = true → readUntil (l ++ chr 10 :: rest) = (l ++ [chr 10], true).
Proof.
  induction l as [|c l IH]; [done|]. cbn [lacks forallb app]. intros [Hc Hl]%andb_true_iff. cbn [readUntil].
  rewrite IH by done. unfold val. apply negb_true_iff, N.eqb_neq in Hc. rewrite (proj2 (Z.eqb_neq _ _)); [done|]. intros E. apply Hc. lia.
Qed.

Lemma hexDigit_plain n : 0 ≤ n < 16 → plain (hexDigit n) = true.
Proof. apply (allBelow_spec 16 0 (λ n, plain (hexDigit n))). vm_compute. done. Qed.

Lemma hexEncode_plain bs : Forall (λ a, plain a = true) (hexEncode bs).
Proof.
  unfold hexEncode. apply Forall_bind, Forall_true. intros b. pose proof (val_bound b) as Hb.
  repeat constructor; apply hexDigit_plain; [split; [apply Z.div_pos; lia|apply Z.div_lt_upper_bound; lia]|apply Z.mod_pos_bound; lia].
Qed.

Lemma plain_lacks l : Forall (λ a, plain a = true) l → lacks 10 l = true.
Proof.
  intros Hl. apply forallb_forall. intros a Ha%list_elem_of_In. rewrite Forall_forall in Hl. specialize (Hl a Ha).
  unfold plain in Hl. apply andb_true_iff in Hl as [H1%N.ltb_lt _]. apply negb_true_iff, N.eqb_neq. lia.
Qed.

Lemma honest_line random rest : length random = 8%nat →
  let nonce := text (hexEncode random) in
  readLine (relayLine nonce ++ rest) = (relayLine nonce, true) ∧ TrimSpace (text (relayLine nonce)) = (ProbeLinePrefix +:+ nonce)%string.
Proof.
  intros Hr nonce. subst nonce. unfold relayLine. rewrite bytes_text. pose proof (length_hexEncode random) as Hlen. pose proof (hexEncode_plain random) as Hp.
  split.
  - unfold readLine. replace (take probeMaxLine _) with ((bytes ProbeLinePrefix ++ hexEncode random) ++ chr 10 :: take (probeMaxLine - 25) rest).
    { rewrite readUntil_line; [by rewrite <- app_assoc|]. rewrite lacks_app, (plain_lacks _ Hp). reflexivity. }
    rewrite take_app_ge by (rewrite !length_app, Hlen, Hr; cbn; unfold probeMaxLine; lia). rewrite <- !app_assoc. do 3 f_equal.
    cbn [app]. do 2 f_equal. rewrite !length_app, Hlen, Hr. reflexivity.
  - destruct (hexEncode random) as [|x l] using rev_ind; [cbn in Hlen; lia|]. clear IHl. apply Forall_app in Hp as [_ Hx]. rewrite Forall_singleton in Hx.
    change (bytes ProbeLinePrefix) with (chr 79 :: bytes "RPROBE ").
    replace ((chr 79 :: bytes "RPROBE ") ++ (l ++ [x]) ++ [chr 10]) with ((chr 79 :: (bytes "RPROBE " ++ l) ++ [x]) ++ [chr 10]) by (cbn; by rewrite <- !app_assoc).
    rewrite TrimSpace_newline by done. rewrite <- app_assoc. reflexivity.
Qed.

Lemma dialAndVerify_honest dial ip port random rest : length random = 8%nat →
  dial ip port = Some (relayLine (text (hexEncode random)) ++ rest) →
  dialAndVerify dial ip port (text (hexEncode random)) = {| pb_Reachable := true; pb_ObservedHost := ip; pb_Error := "" |}.
Proof.
  intros Hr Hd. unfold dialAndVerify. rewrite Hd. destruct (honest_line random rest Hr) as [-> ->]. cbn [negb andb].
  by rewrite (proj2 (str_eqb_true _ _)).
Qed.

(** * What a probe proves *)
(** C19: a relay that believes it is reachable was reached.  If its probe says
    reachable, in one of its three requests the hub dialled the address that
    request came from, on the probed port, and read this very relay's nonce
    there; the host it will advertise is that address.  Conversely, a relay
    whose listener the hub reaches is told so on its first request. *)
Theorem probe_confirms (attempts : nat → attempt) (p : probeInputs) port nonce :
  (∀ i, pc_answer (pi_calls p i) = None ∨ pc_answer (pi_calls p i) = doProbe (hubAnswer (attempts i))) →
  (∀ i, ph_body (at_http (attempts i)) = Some {| pq_Port := port; pq_Nonce := nonce |}) →
  let r := ProbeDirectReachability p in
  let source i := requestIP (ph_RemoteAddr (at_http (attempts i))) in
  (dp_Outcome r = DirectProbeReachable → ∃ i received, (i < 3)%nat ∧ dp_ObservedHost r = source i ∧
     at_dial (attempts i) (source i) port = Some received ∧
     TrimSpace (text (readLine received).1) = (ProbeLinePrefix +:+ nonce)%string) ∧
  (∀ random rest p' d, nonce = text (hexEncode random) → length random = 8%nat → pi_rnd p = true → pi_bind p = None →
     pc_ctxErr (pi_calls p 0) = false → pc_answer (pi_calls p 0) ≠ None →
     beginProbe (at_http (attempts 0%nat)) (at_now (attempts 0%nat)) (at_prober (attempts 0%nat)) = (p', inr d) →
     at_dial (attempts 0%nat) (source 0%nat) port = Some (relayLine nonce ++ rest) →
     dp_Outcome r = DirectProbeReachable ∧ dp_ObservedHost r = source 0%nat).
Proof.
  intros Hans Hbody r source. subst r. split.
  - unfold ProbeDirectReachability. destruct (pi_rnd p); [|done]. cbn [negb]. destruct (pi_bind p) as [[]|]; [done..|].
    assert (Hgen : ∀ n i, dp_Outcome (probeAttempts n (pi_calls p) i) = DirectProbeReachable → ∃ j received, (j < i + n)%nat ∧
      dp_ObservedHost (probeAttempts n (pi_calls p) i) = source j ∧ at_dial (attempts j) (source j) port = Some received ∧
      TrimSpace (text (readLine received).1) = (ProbeLinePrefix +:+ nonce)%string); [|apply (Hgen 3%nat 0%nat)].
    induction n as [|n IH]; intros i; cbn [probeAttempts]; [done|]. destruct (pc_ctxErr _); [done|].
    destruct (pc_answer (pi_calls p i)) as [[reachable host]|] eqn:Ea.
    + destruct reachable; [|done]. intros _. destruct (Hans i) as [Hn|Hh]; [by rewrite Hn in Ea|]. rewrite Ea in Hh. symmetry in Hh.
      destruct (hubAnswer_reachable _ _ _ (Hbody i) Hh) as (-> & received & Hd & Ht). exists i, received. split; [lia|done].
    + destruct (pc_waitEnded _); [done|]. intros Ho. destruct (IH (S i) Ho) as (j & received & Hj & H). exists j, received. split; [lia|done].
  - intros random rest p' d Hnonce Hlen Hrnd Hbind Hctx Hsome Hbegin Hdial. unfold ProbeDirectReachability, detectAttempts. rewrite Hrnd, Hbind. cbn [negb probeAttempts].
    rewrite Hctx. destruct (Hans 0%nat) as [Hn|Hh]; [by rewrite Hn in Hsome|]. rewrite Hh. unfold hubAnswer. rewrite Hbegin.
    rewrite (beginProbe_dial _ _ _ _ _ _ (Hbody 0%nat) Hbegin). subst nonce. unfold finishProbe, doProbe. cbn [fst snd pb_ip pb_port pb_nonce pq_Port pq_Nonce].
    change (requestIP (ph_RemoteAddr (at_http (attempts 0%nat)))) with (source 0%nat). by rewrite (dialAndVerify_honest _ _ _ random rest Hlen Hdial).
Qed.
End composition.

Lemma probeRun_source {F : Type} {float : Float64 F} evs : ∀ (s s' : proberState F), probeRun evs s = Some s' →
  ∀ q d, ps_dialling s' !! q = Some d → ps_dialling s !! q = Some d ∨ ∃ r now, (q, PBegin r now) ∈ evs ∧ pb_ip d = requestIP (ph_RemoteAddr r).
Proof.
  induction evs as [|[k ev] evs IH]; intros s s'; cbn [probeRun]; [intros [= <-]; by left|].
  destruct (probeStep k ev s) as [s1|] eqn:E; [|done]. cbn. intros Hrun q d Hd.
  destruct (IH _ _ Hrun q d Hd) as [H1|(r & now & Hin & H)]; [|right; exists r, now; split; [by right|done]].
  unfold probeStep in E. destruct ev as [r now|dial], (ps_dialling s !! k) as [x|] eqn:Hk; try done.
  - destruct (beginProbe r now (ps_prober s)) as [p [ans|y]] eqn:Eb; injection E as <-; [by left|]. cbn in H1.
    apply lookup_insert_Some in H1 as [[<- <-]|[_ H1]]; [|by left]. right. exists r, now. split; [by left|].
    unfold beginProbe in Eb. destruct (negb _); [done|]. destruct (punchAllow _ _ _ _ _) as [[] ?]; cbn [negb] in Eb; [|done].
    destruct (acquireUpTo _ _ _ _ _) as [[] ?]; cbn [negb] in Eb; [|done]. destruct (ph_body r); [|done].
    do 2 (destruct (_ || _); [done|]). by injection Eb as _ <-.
  - injection E as <-. cbn in H1. apply lookup_delete_Some in H1 as [_ H1]. by left.
Qed.

(** C40: a prober waits for few, and dials only who asked.  In every interleaving
    of requests and dials at most 64 dials wait, four of them for one address,
    the tables hold exactly the waiting ones, and every dial is to the address
    its own request came from. *)
Theorem prober_bounded {F : Type} {float : Float64 F} token evs (s : proberState F) :
  probeRun evs {| ps_prober := NewReachabilityProber token; ps_dialling := ∅ |} = Some s →
  Z.of_nat (size (ps_dialling s)) ≤ maxProbes ∧
  (∀ ip, countOf (perIP (rp_inflight (ps_prober s))) ip = waiting pb_ip ip (ps_dialling s) ∧ waiting pb_ip ip (ps_dialling s) ≤ maxProbesPerIP) ∧
  (ps_dialling s = ∅ → rp_inflight (ps_prober s) = {| perRelay := ∅; perIP := ∅ |}) ∧
  (∀ q d, ps_dialling s !! q = Some d → ∃ r now, (q, PBegin r now) ∈ evs ∧ pb_ip d = requestIP (ph_RemoteAddr r)).
Proof.
  intros Hrun. destruct (probeRun_ok _ _ _ (newProber_ok token) Hrun) as [Hr Hi Hm]. split_and!.
  - destruct (Hm "probe"%string) as [H _]. unfold waiting in H. rewrite map_filter_id in H; done.
  - intros ip. split; [apply Hi|apply Hm].
  - intros He. rewrite He in Hr, Hi.
    assert (Hz : ∀ (key : probe → string) k, waiting key k ∅ = 0) by (intros key k; unfold waiting; by rewrite map_filter_empty, map_size_empty).
    destruct (rp_inflight (ps_prober s)) as [a b]. cbn [perRelay perIP] in *.
    f_equal; apply map_empty; intros k; [apply (proj2 (Hr k))|apply (proj2 (Hi k))]; apply Hz.
  - intros q d Hd. destruct (probeRun_source _ _ _ Hrun q d Hd) as [H|H]; [done|exact H].
Qed.

(** * Histories *)
Section examples.
#[local] Open Scope string_scope.
#[local] Instance exactFloat : Float64 QArith_base.Q := exact.

Definition exampleNonce : string := text (hexEncode (replicate 8 (chr 171))).
Definition exampleRequest (ip : string) : probeHTTP :=
  {| ph_Authorization := "Bearer shared"; ph_RemoteAddr := ip +:+ ":50000"; ph_body := Some {| pq_Port := 443; pq_Nonce := exampleNonce |} |}.
(** The listener of the relay, at its own address alone. *)
Definition exampleDial (ip : string) (port : Z) : option (list byte) :=
  if str_eqb ip "203.0.113.7" && (port =? 443)%Z then Some (relayLine exampleNonce ++ [])%list else None.

Definition exampleEvents : list (nat * probeEvent) :=
  [(0%nat, PBegin (exampleRequest "203.0.113.7") 0); (1%nat, PBegin (exampleRequest "198.51.100.2") 1);
   (0%nat, PFinish exampleDial); (2%nat, PBegin (exampleRequest "203.0.113.7") second)].
Definition exampleProber : proberState QArith_base.Q := {| ps_prober := NewReachabilityProber "shared"; ps_dialling := ∅ |}.
Definition exampleProberEnd : proberState QArith_base.Q := default exampleProber (probeRun exampleEvents exampleProber).

Lemma prober_bounded_witness :
  probeRun exampleEvents exampleProber = Some exampleProberEnd ∧ size (ps_dialling exampleProberEnd) = 2%nat ∧
  (Z.of_nat (size (ps_dialling exampleProberEnd)) ≤ maxProbes)%Z.
Proof.
  assert (Hrun : probeRun exampleEvents exampleProber = Some exampleProberEnd) by (vm_compute; reflexivity).
  split; [exact Hrun|split; [vm_compute; reflexivity|]]. exact (proj1 (prober_bounded "shared" exampleEvents exampleProberEnd Hrun)).
Defined.

Definition exampleAttempt : attempt (F := QArith_base.Q) :=
  {| at_http := exampleRequest "203.0.113.7"; at_now := 0; at_prober := NewReachabilityProber "shared"; at_dial := exampleDial |}.
Definition exampleProbe : probeInputs :=
  {| pi_rnd := true; pi_bind := None;
     pi_calls := λ _, {| pc_ctxErr := false; pc_answer := doProbe (hubAnswer exampleAttempt); pc_waitEnded := false |} |}.

Lemma probe_confirms_witness :
  dp_Outcome (ProbeDirectReachability exampleProbe) = DirectProbeReachable ∧
  ∃ received, exampleDial "203.0.113.7" 443 = Some received ∧ TrimSpace (text (readLine received).1) = ProbeLinePrefix +:+ exampleNonce.
Proof.
  assert (Ho : dp_Outcome (ProbeDirectReachability exampleProbe) = DirectProbeReachable) by (vm_compute; reflexivity).
  split; [exact Ho|].
  destruct (probe_confirms (λ _, exampleAttempt) exampleProbe 443 exampleNonce
    ltac:(intros i; right; reflexivity) ltac:(intros i; reflexivity)) as [H _].
  destruct (H Ho) as (i & received & _ & _ & Hd & Ht). exists received. split; [exact Hd|exact Ht].
Defined.
End examples.
