(* ===== verification/RelayBroker.v ===== *)
(** A relay meets its broker: what the engine signs ([RelayEngine]) the broker's
    registration handler ([BrokerServer]) accepts, and what that answers the
    engine accepts back.  No source file of its own: the theorem composes
    src/libs/openrung/internal/relayruntime/engine/engine.go
    ([runDirectSession]'s signed request, [verifyRegisteredDescriptor]) with
    internal/broker/server.go ([handleRegister]) over the proofs of
    internal/relay. *)
From stdpp Require Import base list gmap strings.
From Stdlib Require Import ZArith Lia.
From S2P Require Import Prelude Codec GoTime Netip Directory Fronts Ticket RelayIdentity Ranking Registration BrokerStore BrokerServer Punch Tunnel RelayConfig RelayEngine.

(** * Labels and requests *)
Lemma NormalizeLabel_idem l l' : NormalizeLabel l = Some l' → NormalizeLabel l' = Some l'.
Proof.
  unfold NormalizeLabel at 1. destruct (str_empty (TrimSpace l)) eqn:E; [intros [= <-]; reflexivity|].
  destruct (forallb labelByte (bytes (TrimSpace l))) eqn:Ef; [|done]. destruct (_ <=? _)%nat eqn:El; [|done].
  cbn. intros [= <-]. set (t := TrimSpace l) in *.
  assert (TrimSpace t = t) as Ht.
  { rewrite <- (text_bytes t). apply TrimSpace_plain, Forall_forall. intros a Ha.
    rewrite forallb_forall in Ef. apply list_elem_of_In, Ef in Ha. unfold labelByte, isLower, isDigit, in_range, val in Ha.
    unfold plain. rewrite !orb_true_iff, !andb_true_iff, ?N.leb_le, ?Z.eqb_eq in Ha. apply andb_true_iff. rewrite !N.ltb_lt. lia. }
  unfold NormalizeLabel. by rewrite Ht, E, Ef, El.
Qed.

(** A request whose label and class are already normal is what the broker
    reads of it. *)
Lemma normalizedRequest_id req : normalizedRequest req (rq_Label req) (rq_NodeClass req) = req.
Proof. by destruct req. Qed.

(** * What is not the engine's to choose

    The host, the port, the credentials, the server name, the capacities and the
    version come from the operator and the network; the engine sends them as
    they are. *)
Definition withinLimits (cfg : RelayConfig.Config) (id : Identity) (host : string) : bool :=
  forallb (λ h, negb (str_empty h) && validEndpointHost h && negb (hasLineBreak h)) [host; cf_ServerName cfg] &&
  ((1 <=? publicPort cfg) && (publicPort cfg <=? 65535)) &&
  forallb boundedField [id_ClientID id; id_RealityPublicKey id; id_ShortID id] &&
  ((1 <=? cf_MaxSessions cfg) && (1 <=? cf_MaxMbps cfg)) && (String.length (cf_Version cfg) <=? maxRegisterFieldBytes)%nat &&
  forallb (λ v, storableText v && negb (hasControl (bytes v))) [id_ClientID id; id_RealityPublicKey id; id_ShortID id; cf_Version cfg].

Lemma controls_no_break s : hasControl (bytes s) = false → hasLineBreak s = false.
Proof.
  unfold hasLineBreak. induction (bytes s) as [|c l IH]; [done|]. cbn [hasControl existsb]. rewrite !orb_false_iff.
  intros [[[H1 _] _] H2]. split; [|by apply IH]. unfold isCRLF. cmp_lia.
Qed.
Lemma label_no_break l : NormalizeLabel l = Some l → hasLineBreak l = false.
Proof.
  unfold NormalizeLabel. destruct (str_empty (TrimSpace l)) eqn:E; [intros [= <-]; reflexivity|].
  destruct (forallb labelByte (bytes (TrimSpace l))) eqn:Ef; [|done]. destruct (_ <=? _)%nat; [|done]. cbn. intros [= E2]. rewrite E2 in Ef.
  unfold hasLineBreak. induction (bytes l) as [|c k IH]; [done|]. cbn in *. apply andb_true_iff in Ef as [Hc Hk]. rewrite (IH Hk), orb_false_r.
  unfold labelByte, isLower, isDigit, in_range, val in *. unfold isCRLF, val. rewrite !orb_true_iff, !andb_true_iff, !N.leb_le, !Z.eqb_eq in Hc.
  rewrite orb_false_iff, !Z.eqb_neq. lia.
Qed.

Section composition.
#[local] Set Default Proof Using "Type".
Context (ToLower : string → string) (EqualFold : string → string → bool).
Context (urlParse : string → option URL) (urlString : URL → string).
Context (Hostname Port : URL → string) (isIPLiteral : string → bool).
Context (Sum256 Public : list byte → list byte) (edSign : list byte → list byte → list byte).
Context (edVerify : list byte → list byte → list byte → bool).
Context (Marshal : wssCapabilityPayload → option (list byte)).
Context {relayRows : MapRange string Descriptor}.
Context (geoIP : option (string → option RelayGeoLocation)).

(** Ed25519: a signature verifies under its own key, and keys and signatures
    have their sizes.  Lower-case ASCII words are their own lower case. *)
Context (key : list byte) (ed_correct : ∀ m, edVerify (Public key) m (edSign key m) = true)
  (public_size : length (Public key) = PublicKeySize) (signature_size : ∀ m, length (edSign key m) = SignatureSize).
Context (ToLower_foundation : ToLower NodeClassFoundation = NodeClassFoundation)
  (ToLower_volunteer : ToLower NodeClassVolunteer = NodeClassVolunteer).

#[local] Instance proofs : ProofVerifier := relayProofs Sum256 edVerify ToLower EqualFold urlParse urlString Hostname Port isIPLiteral Marshal.
#[local] Notation signedRequest := (signedRequest ToLower EqualFold urlParse urlString Hostname Port isIPLiteral Sum256 Public edSign Marshal key).
#[local] Notation VerifyWSSCapability := (VerifyWSSCapability Sum256 edVerify ToLower EqualFold urlParse urlString Hostname Port isIPLiteral Marshal).
#[local] Notation SignWSSCapability := (SignWSSCapability Sum256 Public edSign ToLower EqualFold urlParse urlString Hostname Port isIPLiteral Marshal key).

Lemma SignWSSCapability_inv req t cap : SignWSSCapability req t = Ok cap →
  wssEligible ToLower req = true ∧
  NormalizeWSSFronts ToLower EqualFold urlParse urlString Hostname Port isIPLiteral (rq_WSSFronts req) = Ok (rq_WSSFronts req) ∧
  rq_WSSFronts req ≠ [] ∧ rq_IdentityExpiresAt req = text (FormatRFC3339 t) ∧
  ∃ statement, WSSCapabilityStatement Sum256 ToLower EqualFold urlParse urlString Hostname Port isIPLiteral Marshal req (text (FormatRFC3339 t)) = Ok statement ∧
    cap = (text (stdEncode (edSign key statement)), text (FormatRFC3339 t)).
Proof.
  unfold RelayIdentity.SignWSSCapability, validateWSSCapabilityEligibility. destruct (negb _); [done|].
  destruct (wssEligible ToLower req); [|done].
  destruct (NormalizeWSSFronts _ _ _ _ _ _ _ _) as [fs|] eqn:Ef; [|done].
  destruct (length fs =? 0)%nat eqn:El; [done|].
  destruct (negb (bool_decide (fs = rq_WSSFronts req))) eqn:Eq; [done|]. apply negb_false_iff, bool_decide_eq_true in Eq as ->.
  destruct (_ || str_empty (rq_IdentityExpiresAt req)); [done|]. destruct (negb _); [done|].
  destruct (negb (str_eqb (text (FormatRFC3339 t)) (rq_IdentityExpiresAt req))) eqn:Ee; [done|].
  apply negb_false_iff, str_eqb_true in Ee.
  destruct (WSSCapabilityStatement _ _ _ _ _ _ _ _ _ _ _) as [st|] eqn:Est; [|done]. intros [= <-].
  split_and!; try done; [by intros E; rewrite E in El|]. by exists st.
Qed.

(** What a relay signs with [SignWSSCapability] verifies beside its identity
    proof. *)
Lemma capability_verifies req t now cap :
  SignWSSCapability req t = Ok cap → fourDigitYear t = true → now < t / second * second ≤ now + MaxIdentityProofWindow →
  VerifyIdentity edVerify (withCapability req cap) now = Ok (Some (Public key)) →
  VerifyWSSCapability (withCapability req cap) now = Ok tt.
Proof using ed_correct public_size signature_size.
  intros (Hel & Hn & Hne & Hexp & st & Hst & ->)%SignWSSCapability_inv Hy Hwin Hid.
  assert (FormatRFC3339 t ≠ []) as Hf by (intros E; pose proof (Parse_Format t Hy) as H; by rewrite E in H).
  assert (edSign key st ≠ []) as Hs0 by (intros E; specialize (signature_size st); by rewrite E in signature_size).
  assert (length (rq_WSSFronts req) ≤ MaxFronts)%nat as Hmax.
  { unfold NormalizeWSSFronts in Hn. destruct (NormalizeFronts _ _ _ _ _ _ _ _) eqn:E; [|done]. injection Hn as ->.
    by apply NormalizeFronts_canonical in E as (_ & ? & _). }
  unfold RelayIdentity.VerifyWSSCapability, validateWSSCapabilityEligibility. rewrite Hid.
  change (wssEligible ToLower (withCapability req _)) with (wssEligible ToLower req). rewrite Hel.
  change (rq_WSSFronts (withCapability req _)) with (rq_WSSFronts req).
  change (WSSCapabilityStatement Sum256 ToLower EqualFold urlParse urlString Hostname Port isIPLiteral Marshal (withCapability req ?c) ?e)
    with (WSSCapabilityStatement Sum256 ToLower EqualFold urlParse urlString Hostname Port isIPLiteral Marshal req e).
  change (rq_IdentityExpiresAt (withCapability req _)) with (rq_IdentityExpiresAt req). rewrite Hexp, Hn.
  cbn [rq_WSSCapabilityProof rq_WSSCapabilityExpiresAt withCapability fst snd].
  rewrite Hst, !text_nonempty, !bytes_text, stdDecode_stdEncode, Parse_Format by auto using stdEncode_nonempty.
  destruct (rq_WSSFronts req) as [|f fs] eqn:Ef; [done|]. cbn [length Nat.eqb andb orb].
  replace (MaxFronts <? S (length fs))%nat with false by (symmetry; apply Nat.ltb_ge; exact Hmax).
  rewrite !bool_decide_eq_true_2 by done. cbn [negb].
  rewrite signature_size, Nat.eqb_refl. cbn [negb]. rewrite ed_correct.
  unfold time_after, time_add, MaxWSSCapabilityProofWindow. by rewrite (proj2 (Z.ltb_lt _ _)), (proj2 (Z.ltb_ge _ _)) by lia.
Qed.

(** Both proofs of a signed request. *)
Lemma signedRequest_verifies req t now signed :
  signedRequest req t = Ok signed → ValidateIdentityFields req = true →
  rq_WSSCapabilityProof req = ""%string → rq_WSSCapabilityExpiresAt req = ""%string →
  fourDigitYear (t + IdentityProofTTLDirect) = true →
  now < (t + IdentityProofTTLDirect) / second * second ≤ now + MaxIdentityProofWindow →
  VerifyIdentity edVerify signed now = Ok (Some (Public key)) ∧ VerifyWSSCapability signed now = Ok tt.
Proof using ed_correct public_size signature_size.
  unfold RelayEngine.signedRequest, time_add. set (e := t + IdentityProofTTLDirect).
  intros Hs Hval Hp1 Hp2 Hy Hwin. set (s0 := withIdentity req (SignIdentity Public edSign key req e)) in *.
  assert (H0 : VerifyIdentity edVerify s0 now = Ok (Some (Public key))) by (by apply sign_identity_verifies).
  change (rq_WSSFronts s0) with (rq_WSSFronts req) in Hs.
  destruct (Nat.eqb_spec (length (rq_WSSFronts req)) 0) as [El|El].
  - injection Hs as <-. split; [exact H0|]. unfold RelayIdentity.VerifyWSSCapability, s0, SignIdentity.
    cbn [withIdentity rq_WSSFronts rq_WSSCapabilityProof rq_WSSCapabilityExpiresAt]. by rewrite El, Hp1, Hp2.
  - destruct (SignWSSCapability s0 e) as [cap|] eqn:Ec; [|done]. injection Hs as <-.
    assert (VerifyIdentity edVerify (withCapability s0 cap) now = Ok (Some (Public key))) as H1 by exact H0.
    split; [exact H1|]. by eapply capability_verifies.
Qed.

Lemma signedRequest_fields req t signed : signedRequest req t = Ok signed →
  rq_Label signed = rq_Label req ∧ rq_NodeClass signed = rq_NodeClass req ∧ rq_WSSFronts signed = rq_WSSFronts req.
Proof.
  unfold RelayEngine.signedRequest, SignIdentity. cbn [withIdentity rq_WSSFronts].
  destruct (_ =? 0)%nat; [intros [= <-]; done|]. destruct (RelayIdentity.SignWSSCapability _ _ _ _ _ _ _ _ _ _ _ _ _ _); [|done].
  intros [= <-]. done.
Qed.

Lemma NormalizeNodeClass_concrete class : class = NodeClassVolunteer ∨ class = NodeClassFoundation →
  NormalizeNodeClass ToLower class = Some class.
Proof using ToLower_foundation ToLower_volunteer.
  intros [-> | ->]; unfold NormalizeNodeClass.
  - assert (TrimSpace NodeClassVolunteer = NodeClassVolunteer) as -> by (vm_compute; reflexivity). by rewrite ToLower_volunteer.
  - assert (TrimSpace NodeClassFoundation = NodeClassFoundation) as -> by (vm_compute; reflexivity). by rewrite ToLower_foundation.
Qed.

(** * The handler *)
(** What the broker's screen leaves of a signed request. *)
Lemma screened_by bcfg http signed maxClass :
  credentialNodeClass http bcfg = Some maxClass →
  NormalizeLabel (rq_Label signed) = Some (rq_Label signed) →
  rq_NodeClass signed = NodeClassVolunteer ∨ rq_NodeClass signed = NodeClassFoundation ∧ maxClass = NodeClassFoundation →
  rq_WSSFronts signed = [] ∨ cfg_WSSTicketSigningSeed bcfg ≠ [] →
  screenRegister ToLower bcfg http (Some signed) =
    match validateRegisterRequest signed with Some _ => inl StatusBadRequest | None => inr (signed, maxClass) end.
Proof using All.
  intros Hcred Hlabel Hclass Hseed. unfold screenRegister. rewrite Hcred, Hlabel.
  rewrite NormalizeNodeClass_concrete by tauto. rewrite normalizedRequest_id.
  replace (str_eqb (rq_NodeClass signed) NodeClassFoundation && negb (str_eqb maxClass NodeClassFoundation)) with false.
  2: { destruct Hclass as [->|[-> ->]]; reflexivity. }
  replace (negb (length (rq_WSSFronts signed) =? 0)%nat && (length (cfg_WSSTicketSigningSeed bcfg) =? 0)%nat) with false; [done|].
  destruct Hseed as [->|Hs]; [done|]. destruct (cfg_WSSTicketSigningSeed bcfg); [done|]. by rewrite andb_false_r.
Qed.

(** The location a lookup adds changes neither what the engine checks nor the
    ID. *)
Lemma resolveRelayGeo_same s desc :
  let d := (resolveRelayGeo geoIP s desc).1 in
  dd_ID d = dd_ID desc ∧ dd_NodeClass d = dd_NodeClass desc ∧ dd_WSSFronts d = dd_WSSFronts desc.
Proof. unfold resolveRelayGeo. by repeat case_match. Qed.

(** Proofs that verify leave two reasons to refuse. *)
Lemma Register_error st req r1 r2 now ttl k : verifyIdentity req now = Ok (Some k) → verifyWSSCapability req now = Ok tt →
  ∀ e, (BrokerStore.Register st req r1 r2 now ttl).1 = Err e → e = ErrNodeClassForbidden ∨ e = ErrRandom.
Proof.
  intros Hi Hc e. unfold BrokerStore.Register. rewrite Hi, Hc. destruct (newRelayLeaseToken r2); [|intros [= <-]; by right].
  destruct (replaceScan _ _ _ _ _) as [[]|]; [done|]. intros [= <-]. by left.
Qed.

Lemma signed_shape req t signed : signedRequest req t = Ok signed →
  ∃ c, let i := SignIdentity Public edSign key req (time_add t IdentityProofTTLDirect) in
    signed = withIdentity req i ∨ signed = withCapability (withIdentity req i) c.
Proof.
  unfold RelayEngine.signedRequest. destruct (_ =? 0)%nat; [intros [= <-]; exists ("", "")%string; by left|].
  destruct (RelayIdentity.SignWSSCapability _ _ _ _ _ _ _ _ _ _ _ _ _ _) as [c|]; [|done]. intros [= <-]. exists c. by right.
Qed.

(** A line break in a bound field makes the proof unacceptable. *)
Lemma unproven req t now signed : signedRequest req t = Ok signed → ValidateIdentityFields req = false →
  ∃ e, VerifyIdentity edVerify signed now = Err e.
Proof using All.
  intros Hs Hf. destruct (signed_shape _ _ _ Hs) as (c & Hsh).
  set (i := SignIdentity Public edSign key req (time_add t IdentityProofTTLDirect)) in *. unfold VerifyIdentity.
  assert (Hp : str_empty (rq_IdentityProof signed) = false).
  { assert (Hne : edSign key (IdentityStatement req (text (FormatRFC3339 (time_add t IdentityProofTTLDirect)))) ≠ []).
    { intros E. pose proof (signature_size (IdentityStatement req (text (FormatRFC3339 (time_add t IdentityProofTTLDirect))))) as H. by rewrite E in H. }
    destruct Hsh as [-> | ->]; unfold i, SignIdentity; cbn; by apply text_nonempty, stdEncode_nonempty. }
  assert (Hv : ValidateIdentityFields signed = false) by (by destruct Hsh as [-> | ->]).
  rewrite Hp, Hv. destruct (str_empty (rq_IdentityPublicKey signed)), (str_empty (rq_IdentityExpiresAt signed)); cbn; eauto.
Qed.

(** The broker's screen and the identity's fields pass exactly within the
    limits: what the engine fills in itself is never the reason. *)
Lemma withinLimits_iff cfg label id host t signed :
  signedRequest (registerRequest cfg label id host) t = Ok signed → NormalizeLabel label = Some label →
  cf_NodeClass cfg = NodeClassVolunteer ∨ cf_NodeClass cfg = NodeClassFoundation →
  withinLimits cfg id host = true ↔
  validateRegisterRequest signed = None ∧ ValidateIdentityFields (registerRequest cfg label id host) = true.
Proof.
  intros Hs Hlabel Hclass. apply label_no_break in Hlabel.
  assert (Hval : validateRegisterRequest signed = validateRegisterRequest (registerRequest cfg label id host))
    by (by apply signed_shape in Hs as (c & [-> | ->])).
  assert (Hc : hasLineBreak (cf_NodeClass cfg) = false) by (by destruct Hclass as [-> | ->]).
  rewrite Hval. unfold withinLimits, validateRegisterRequest, ValidateIdentityFields, registerTextValid, registerRequest. cbn [forallb
    rq_PublicHost rq_PublicPort rq_Protocol rq_ClientID rq_RealityPublicKey rq_ShortID rq_ServerName rq_Flow rq_ExitMode rq_MaxSessions
    rq_MaxMbps rq_RelayVersion rq_Label rq_NodeClass rq_Transport rq_PunchEndpoint rq_ExitHost].
  rewrite Hlabel, Hc.
  replace (hasLineBreak FlowVision) with false by reflexivity. replace (hasLineBreak ExitModeDirect) with false by reflexivity.
  replace (hasLineBreak TransportDirect) with false by reflexivity.
  pose proof (controls_no_break (id_ClientID id)) as N1. pose proof (controls_no_break (id_RealityPublicKey id)) as N2.
  pose proof (controls_no_break (id_ShortID id)) as N3.
  assert (Hif : ∀ (b : bool) (x : string) r, (if b then Some x else r) = None ↔ b = false ∧ r = None) by (intros [] x r; intuition congruence).
  rewrite !Hif. clear Hif Hval Hs.
  change (str_eqb ProtocolVLESSRealityVision ProtocolVLESSRealityVision) with true. change (str_eqb FlowVision FlowVision) with true.
  change (str_eqb ExitModeDirect ExitModeDirect) with true. change (str_eqb TransportDirect TransportDirect) with true.
  change (str_empty "") with true. change (storableText "") with true. change (hasControl (bytes "")) with false.
  change (2 * maxRegisterFieldBytes <? String.length "")%nat with false. cbn [negb andb].
  rewrite !andb_false_r, !andb_true_r, ?orb_false_iff, !andb_true_iff, !negb_true_iff, ?negb_false_iff, !Z.leb_le, !Z.ltb_ge, Nat.leb_le, Nat.ltb_ge.
  rewrite ?andb_true_iff, ?negb_true_iff. tauto.
Qed.

(** C9: a relay and its broker agree.  Presented with a credential of its class,
    a request the engine signs registers the relay only if what the operator and
    the network chose is within the broker's limits; and then it is never
    refused as malformed or unproven, only for a spent budget, a live foundation
    relay on the same endpoint or a failing random source, and the descriptor
    the broker answers passes the engine's checks and has the ID of the engine's
    key. *)
Theorem registration_agreed (cfg : RelayConfig.Config) generated label id host t now signed bcfg trusted b http maxClass r1 r2 :
  sessionLabel cfg generated = Some label → NormalizeLabel generated = Some generated →
  signedRequest (registerRequest cfg label id host) t = Ok signed →
  fourDigitYear (t + IdentityProofTTLDirect) = true →
  now < (t + IdentityProofTTLDirect) / second * second ≤ now + MaxIdentityProofWindow →
  credentialNodeClass http bcfg = Some maxClass →
  cf_NodeClass cfg = NodeClassVolunteer ∨ cf_NodeClass cfg = NodeClassFoundation ∧ maxClass = NodeClassFoundation →
  cf_WSSFronts cfg = [] ∨ cfg_WSSTicketSigningSeed bcfg ≠ [] →
  let '(status, d, _) := registerHandler ToLower geoIP bcfg trusted b http (Some signed) r1 r2 now in
  match d with
  | Some desc =>
      withinLimits cfg id host = true ∧ status = StatusCreated ∧
      verifyRegisteredDescriptor Sum256 Public signed desc key = None ∧ dd_ID desc = DeriveRelayID Sum256 (Public key)
  | None =>
      withinLimits cfg id host = false ∨ status = StatusForbidden ∨ status = StatusServiceUnavailable ∨
      status = StatusTooManyRequests ∧ maxClass ≠ NodeClassFoundation
  end.
Proof using ed_correct public_size signature_size ToLower_foundation ToLower_volunteer.
  intros Hlabel Hgen Hs Hy Hwin Hcred Hclass Hseed. destruct (signedRequest_fields _ _ _ Hs) as (El & Ec & Ef).
  assert (NormalizeLabel label = Some label) as Hnl.
  { unfold sessionLabel in Hlabel. destruct (str_empty _); [by injection Hlabel as <-|by eapply NormalizeLabel_idem]. }
  pose proof (withinLimits_iff cfg label id host t signed Hs Hnl ltac:(tauto)) as Hlim.
  unfold registerHandler. rewrite (screened_by _ _ _ maxClass) by (rewrite ?El, ?Ec, ?Ef; done).
  destruct (validateRegisterRequest signed) as [msg|] eqn:Hval.
  { left. destruct (withinLimits cfg id host); [|done]. by destruct (proj1 Hlim eq_refl). }
  destruct (isNewIdentity _ _ _) as [newIdentity l].
  destruct (if newIdentity && negb (str_eqb maxClass NodeClassFoundation) then _ else _) as [[u allowed] c] eqn:Eu.
  destruct allowed; cbn [negb].
  2: { right. right. right. split; [done|]. intros E. rewrite (proj2 (str_eqb_true _ _) E), andb_false_r in Eu. discriminate. }
  destruct (ValidateIdentityFields (registerRequest cfg label id host)) eqn:Hfields.
  2: { destruct (unproven _ _ now _ Hs Hfields) as [e He]. unfold BrokerStore.Register. cbn [verifyIdentity proofs relayProofs]. rewrite He.
       left. destruct (withinLimits cfg id host); [|done]. by destruct (proj1 Hlim eq_refl). }
  rewrite (proj2 Hlim (conj eq_refl eq_refl)).
  destruct (signedRequest_verifies _ _ now _ Hs Hfields eq_refl eq_refl Hy Hwin) as [Hid Hcap].
  pose proof (Register_cases (bk_store (withCap (withLedger b l) c)) signed r1 r2 now (cfg_RelayLeaseTTL bcfg)) as Hr.
  pose proof (Register_error (bk_store (withCap (withLedger b l) c)) signed r1 r2 now (cfg_RelayLeaseTTL bcfg) _ Hid Hcap) as He.
  destruct (BrokerStore.Register _ _ _ _ _ _) as [[desc|e] s'].
  - destruct Hr as (k & g & Hk & _ & Hd & Hkey & _). cbn [verifyIdentity proofs relayProofs] in Hk. rewrite Hid in Hk. injection Hk as <-.
    destruct Hkey as [Hkey _]. destruct (rememberIfNew _ _ _ _) as [keep l'].
    pose proof (resolveRelayGeo_same s' desc) as Hg. destruct (resolveRelayGeo geoIP s' desc) as [desc' s2]. cbn in Hg.
    destruct Hg as (G1 & G2 & G3). split; [done|]. split; [done|]. rewrite G1. split; [|done].
    unfold verifyRegisteredDescriptor. rewrite G1, G2, G3, Hkey, Hd. cbn [dd_NodeClass dd_WSSFronts setGeo newDescriptor deriveRelayID proofs relayProofs].
    rewrite bool_decide_eq_true_2, (proj2 (str_eqb_true (DeriveRelayID _ _) _) eq_refl), andb_false_r by done. cbn [negb].
    unfold normalizeNodeClass. rewrite Ec. destruct Hclass as [E|[E _]]; cbn [registerRequest rq_NodeClass]; rewrite E; reflexivity.
  - right. destruct (He e eq_refl) as [-> | ->]; [by left|by right; left].
Qed.
End composition.

(** * A registration *)
Definition fullKey : list byte := exampleKey exampleSeed.
Definition exampleVerify (key m sg : list byte) : bool := bool_decide (sg = exampleSign key m).
(** A foundation relay with a front, in effect. *)
Definition agreedConfig : RelayConfig.Config := withMode ModeDirect (withClass NodeClassFoundation foundationRelay).
Definition agreedRequest : RegisterRequest := registerRequest agreedConfig "happy-hippo" exampleIdentity "203.0.113.7".
Definition agreedSigned : RegisterRequest :=
  match signedRequest (λ s, s) str_eqb exampleURLOf exampleString Host (λ _, ""%string) (λ _, false) exampleDigest examplePublic exampleSign
          exampleMarshal fullKey agreedRequest exampleNow with Ok s => s | Err _ => agreedRequest end.
Definition agreedHTTP : httpRequest :=
  {| hr_RemoteAddr := "203.0.113.7:4000"; hr_CFConnectingIP := ""; hr_XForwardedFor := "";
     hr_Authorization := "Bearer secret"; hr_Path := "" |}.
#[local] Instance agreedRows : MapRange string Descriptor := map_to_list_range.
#[local] Notation agreedHandler :=
  (@registerHandler (proofs (λ s, s) str_eqb exampleURLOf exampleString Host (λ _, ""%string) (λ _, false) exampleDigest exampleVerify exampleMarshal)
    agreedRows (λ s, s) None exampleConfig [] exampleBroker agreedHTTP (Some agreedSigned) None (Some (replicate 32 (chr 3))) (exampleNow + 5)).

Lemma registration_agreed_witness :
  agreedHandler.1.1 = StatusCreated ∧
  match agreedHandler.1.2 with
  | Some desc => verifyRegisteredDescriptor exampleDigest examplePublic agreedSigned desc fullKey = None
  | None => False
  end.
Proof.
  assert (Hst : agreedHandler.1.1 = StatusCreated) by (vm_compute; reflexivity).
  assert (Hd : match agreedHandler.1.2 with Some _ => true | None => false end = true) by (vm_compute; reflexivity).
  split; [exact Hst|].
  pose proof (registration_agreed (λ s, s) str_eqb exampleURLOf exampleString Host (λ _, ""%string) (λ _, false) exampleDigest examplePublic
    exampleSign exampleVerify exampleMarshal None fullKey
    ltac:(intros m; apply bool_decide_eq_true; reflexivity) ltac:(reflexivity) ltac:(intros m; apply length_replicate)
    eq_refl eq_refl agreedConfig "quiet-fox" "happy-hippo" exampleIdentity "203.0.113.7" exampleNow (exampleNow + 5) agreedSigned
    exampleConfig [] exampleBroker agreedHTTP NodeClassFoundation None (Some (replicate 32 (chr 3)))
    ltac:(vm_compute; reflexivity) ltac:(vm_compute; reflexivity) ltac:(vm_compute; reflexivity) ltac:(vm_compute; reflexivity)
    ltac:(split; [apply Z.ltb_lt; vm_compute; reflexivity|apply Z.leb_le; vm_compute; reflexivity])
    ltac:(vm_compute; reflexivity) ltac:(right; split; reflexivity) ltac:(right; discriminate)) as H.
  destruct agreedHandler as [[status d] b']. cbn [fst snd] in *. destruct d as [desc|]; [|discriminate Hd]. exact (proj1 (proj2 (proj2 H))).
Defined.
