(* ===== verification/WSSClient.v ===== *)
(** The WSS transport's session (src/libs/wsscore: bounds.go, transport.go,
    protocol.go, client.go, lifecycle.go, sessionend.go, websocket_conn.go): the
    options of a client and their bounds, the byte stream over WebSocket
    messages, the guard that ends an unused session, and the reason a session
    records for its end.

    gorilla/websocket and yamux are answers and events; durations are
    nanoseconds.  A timer that was stopped may still run: the guard's callbacks
    are events of any generation that was scheduled. *)
From stdpp Require Import base list list_numbers strings.
From Stdlib Require Import ZArith Lia.
From S2P Require Import Prelude Codec.

(** * Options *)
Definition DefaultHandshakeTimeout : Z := 10 * second.
Definition MaxHandshakeTimeout : Z := minute.
Definition DefaultPingInterval : Z := 30 * second.
Definition DefaultPingWriteTimeout : Z := 10 * second.
Definition MaxPingInterval : Z := 10 * minute.
Definition MaxPingWriteTimeout : Z := minute.
Definition DefaultWebSocketReadMax : Z := 2 ^ 20.
Definition MaxWebSocketReadMax : Z := 16 * 2 ^ 20.
Definition DefaultMaxConcurrentStreams : Z := 128.
Definition MaxConcurrentStreams : Z := 1024.
Definition DefaultStreamIdleTimeout : Z := 5 * minute.
Definition DefaultNoStreamIdleTimeout : Z := 2 * minute.
Definition DefaultSessionLifetime : Z := 6 * hour.
Definition MaxSessionLifetime : Z := 24 * hour.

Inductive optionError := ErrHandshakeTimeout | ErrPingInterval | ErrPingWriteTimeout | ErrReadLimit | ErrBounds (name : string)
| ErrInsecure | ErrServerName | ErrMinVersion | ErrMaxVersion.

Definition boundedInt (value fallback maximum : Z) (name : string) : result optionError Z :=
  let value := if value =? 0 then fallback else value in
  if (value <? 1) || (maximum <? value) then Err (ErrBounds name) else Ok value.
Definition boundedDuration (value fallback maximum : Z) (name : string) : result optionError Z :=
  let value := if value =? 0 then fallback else value in
  if (value <? millisecond) || (maximum <? value) then Err (ErrBounds name) else Ok value.

Record LifecycleOptions := {
  lo_MaxConcurrentStreams : Z; lo_StreamIdleTimeout : Z; lo_NoStreamIdleTimeout : Z; lo_SessionLifetime : Z
}.

Definition NormalizeLifecycleOptions (opts : LifecycleOptions) : result optionError LifecycleOptions :=
  let? streams := boundedInt (lo_MaxConcurrentStreams opts) DefaultMaxConcurrentStreams MaxConcurrentStreams "max concurrent streams" in
  let? idle := boundedDuration (lo_StreamIdleTimeout opts) DefaultStreamIdleTimeout MaxSessionLifetime "stream idle timeout" in
  let? noStream := (if lo_NoStreamIdleTimeout opts =? 0 then Ok 0
                    else boundedDuration (lo_NoStreamIdleTimeout opts) DefaultNoStreamIdleTimeout MaxSessionLifetime "no-stream idle timeout") in
  let? lifetime := boundedDuration (lo_SessionLifetime opts) DefaultSessionLifetime MaxSessionLifetime "session lifetime" in
  Ok {| lo_MaxConcurrentStreams := streams; lo_StreamIdleTimeout := idle; lo_NoStreamIdleTimeout := noStream; lo_SessionLifetime := lifetime |}.

Record ClientOptions := {
  op_HandshakeTimeout : Z; op_PingInterval : Z; op_PingWriteTimeout : Z; op_ReadLimit : Z; op_Lifecycle : LifecycleOptions
}.

Definition normalizeClientOptions (opts : ClientOptions) : result optionError ClientOptions :=
  let handshakeTimeout := if op_HandshakeTimeout opts =? 0 then DefaultHandshakeTimeout else op_HandshakeTimeout opts in
  if (handshakeTimeout <? millisecond) || (MaxHandshakeTimeout <? handshakeTimeout) then Err ErrHandshakeTimeout else
  let pingInterval := if op_PingInterval opts =? 0 then DefaultPingInterval else op_PingInterval opts in
  let pingInterval := if pingInterval <? 0 then 0 else pingInterval in
  if MaxPingInterval <? pingInterval then Err ErrPingInterval else
  let pingWriteTimeout := if op_PingWriteTimeout opts <=? 0 then DefaultPingWriteTimeout else op_PingWriteTimeout opts in
  if (MaxPingWriteTimeout <? pingWriteTimeout) || ((0 <? pingInterval) && (pingInterval <=? pingWriteTimeout)) then Err ErrPingWriteTimeout else
  let readLimit := if op_ReadLimit opts =? 0 then DefaultWebSocketReadMax else op_ReadLimit opts in
  if (readLimit <? 1) || (MaxWebSocketReadMax <? readLimit) then Err ErrReadLimit else
  let? lifecycle := NormalizeLifecycleOptions (op_Lifecycle opts) in
  Ok {| op_HandshakeTimeout := handshakeTimeout; op_PingInterval := pingInterval; op_PingWriteTimeout := pingWriteTimeout;
        op_ReadLimit := readLimit; op_Lifecycle := lifecycle |}.

(** What the code looks at of a [tls.Config]; versions are their wire numbers. *)
Record tlsConfig := { tc_InsecureSkipVerify : bool; tc_ServerName : string; tc_MinVersion : Z; tc_MaxVersion : Z }.
Definition VersionTLS12 : Z := 771.
Definition normalizedTLSConfig (own dialers : option tlsConfig) : result optionError tlsConfig :=
  match (match own with Some c => Some c | None => dialers end) with
  | None => Ok {| tc_InsecureSkipVerify := false; tc_ServerName := ""; tc_MinVersion := VersionTLS12; tc_MaxVersion := 0 |}
  | Some config =>
      if tc_InsecureSkipVerify config then Err ErrInsecure else
      if negb (str_empty (tc_ServerName config)) then Err ErrServerName else
      if negb (tc_MinVersion config =? 0) && (tc_MinVersion config <? VersionTLS12) then Err ErrMinVersion else
      if negb (tc_MaxVersion config =? 0) && (tc_MaxVersion config <? VersionTLS12) then Err ErrMaxVersion else
      Ok {| tc_InsecureSkipVerify := false; tc_ServerName := "";
            tc_MinVersion := if tc_MinVersion config =? 0 then VersionTLS12 else tc_MinVersion config; tc_MaxVersion := tc_MaxVersion config |}
  end.

(** * The byte stream *)
(** What [NextReader] and the message's reader answer, in order; a close frame
    brings its code. *)
Inductive wsAnswer :=
| ANext (binary : bool)
| ANextErr (closeCode : option Z)
| AData (bs : list byte)                    (* Read returned these bytes and no error *)
| ALast (bs : list byte)                    (* these bytes, and io.EOF *)
| AErr (bs : list byte) (closeCode : option Z).

Record wsConn := { ws_reader : bool; ws_closed : bool; ws_remoteCloseCode : Z }.
Definition newWSConn : wsConn := {| ws_reader := false; ws_closed := false; ws_remoteCloseCode := 0 |}.

Definition recordRemoteClose (code : option Z) (c : wsConn) : wsConn :=
  match code with
  | Some code => {| ws_reader := ws_reader c; ws_closed := ws_closed c;
                    ws_remoteCloseCode := if ws_remoteCloseCode c =? 0 then code else ws_remoteCloseCode c |}
  | None => c
  end.
Definition abort (c : wsConn) : wsConn := {| ws_reader := ws_reader c; ws_closed := true; ws_remoteCloseCode := ws_remoteCloseCode c |}.
Definition setReader (b : bool) (c : wsConn) : wsConn :=
  {| ws_reader := b; ws_closed := ws_closed c; ws_remoteCloseCode := ws_remoteCloseCode c |}.

Inductive readError := ErrRead | ErrNonBinaryMessage.

(** [Read] with a non-empty buffer: the bytes, the error, and the answers it
    left; [None] when the connection has no answer yet. *)
Fixpoint Read (answers : list wsAnswer) (c : wsConn) : option (list byte * option readError * wsConn * list wsAnswer) :=
  match answers with
  | [] => None
  | a :: answers =>
      if ws_reader c then
        match a with
        | AData bs => Some (bs, None, c, answers)
        | ALast bs => if bool_decide (bs = []) then Read answers (setReader false c) else Some (bs, None, setReader false c, answers)
        | AErr bs code => Some (bs, Some ErrRead, abort (recordRemoteClose code c), answers)
        | ANext _ | ANextErr _ => None
        end
      else
        match a with
        | ANext true => Read answers (setReader true c)
        | ANext false => Some ([], Some ErrNonBinaryMessage, abort c, answers)
        | ANextErr code => Some ([], Some ErrRead, abort (recordRemoteClose code c), answers)
        | _ => None
        end
  end.

(** * The end of a session *)
Inductive SessionEnd := SessionEndNone | SessionEndLocal | SessionEndIdle | SessionEndLifetime | SessionEndRemote | SessionEndTransport.
#[global] Instance SessionEnd_eq_dec : EqDecision SessionEnd.
Proof. solve_decision. Defined.

Definition Graceful (e : SessionEnd) : bool :=
  match e with SessionEndLocal | SessionEndIdle | SessionEndLifetime | SessionEndRemote => true | _ => false end.
Definition SessionEndString (e : SessionEnd) : string :=
  match e with
  | SessionEndLocal => "local" | SessionEndIdle => "idle" | SessionEndLifetime => "lifetime" | SessionEndRemote => "remote"
  | SessionEndTransport => "transport" | SessionEndNone => "none"
  end.

(** The close codes of RFC 6455 and of gorilla. *)
Definition CloseNormalClosure : Z := 1000.
Definition CloseGoingAway : Z := 1001.
Definition CloseNoStatusReceived : Z := 1005.
Definition CloseServiceRestart : Z := 1012.
Definition CloseTryAgainLater : Z := 1013.
Definition sessionEndForCloseCode (code : Z) : SessionEnd :=
  if bool_decide (code ∈ [CloseNormalClosure; CloseGoingAway; CloseNoStatusReceived; CloseServiceRestart; CloseTryAgainLater])
  then SessionEndRemote else SessionEndTransport.

(** * The guard of an unused session *)
Record IdleGuard := {
  ig_timeout : Z; ig_active : Z; ig_expired : bool; ig_closed : bool; ig_disarmed : bool;
  ig_generation : Z                          (* uint64 *)
}.

Definition bump (g : IdleGuard) : IdleGuard :=
  {| ig_timeout := ig_timeout g; ig_active := ig_active g; ig_expired := ig_expired g; ig_closed := ig_closed g; ig_disarmed := ig_disarmed g;
     ig_generation := (ig_generation g + 1) mod 2 ^ 64 |}.
Definition setActive (n : Z) (g : IdleGuard) : IdleGuard :=
  {| ig_timeout := ig_timeout g; ig_active := n; ig_expired := ig_expired g; ig_closed := ig_closed g; ig_disarmed := ig_disarmed g;
     ig_generation := ig_generation g |}.
Definition setExpired (g : IdleGuard) : IdleGuard :=
  {| ig_timeout := ig_timeout g; ig_active := ig_active g; ig_expired := true; ig_closed := ig_closed g; ig_disarmed := ig_disarmed g;
     ig_generation := ig_generation g |}.
Definition setClosed (g : IdleGuard) : IdleGuard :=
  {| ig_timeout := ig_timeout g; ig_active := ig_active g; ig_expired := ig_expired g; ig_closed := true; ig_disarmed := ig_disarmed g;
     ig_generation := ig_generation g |}.
Definition setDisarmed (g : IdleGuard) : IdleGuard :=
  {| ig_timeout := ig_timeout g; ig_active := ig_active g; ig_expired := ig_expired g; ig_closed := ig_closed g; ig_disarmed := true;
     ig_generation := ig_generation g |}.

(** [scheduleLocked]: the new guard, and the generation its timer carries. *)
Definition scheduleLocked (g : IdleGuard) : IdleGuard * option Z := let g := bump g in (g, Some (ig_generation g)).

Definition NewIdleGuard (timeout : Z) : result optionError (IdleGuard * option Z) :=
  let? bounded := boundedDuration timeout DefaultNoStreamIdleTimeout MaxSessionLifetime "no-stream idle timeout" in
  Ok (scheduleLocked {| ig_timeout := bounded; ig_active := 0; ig_expired := false; ig_closed := false; ig_disarmed := false; ig_generation := 0 |}).

Definition Start (g : IdleGuard) : bool * IdleGuard :=
  if ig_closed g || ig_expired g then (false, g) else
  let g := if ig_active g =? 0 then bump g else g in (true, setActive (ig_active g + 1) g).

Definition Done (g : IdleGuard) : IdleGuard * option Z :=
  if ig_closed g || (ig_active g =? 0) then (g, None) else
  let g := setActive (ig_active g - 1) g in
  if (ig_active g =? 0) && negb (ig_disarmed g) then scheduleLocked g else (g, None).

Definition Disarm (g : IdleGuard) : IdleGuard := if ig_disarmed g then g else bump (setDisarmed g).
Definition guardClose (g : IdleGuard) : IdleGuard := bump (setClosed g).

(** Whether [onExpire] runs. *)
Definition expire (generation : Z) (g : IdleGuard) : bool * IdleGuard :=
  if ig_closed g || ig_expired g || negb (ig_active g =? 0) || negb (generation =? ig_generation g) then (false, g) else (true, setExpired g).

(** ** Histories of a guard *)
Inductive guardCall := CStart | CDone | CDisarm | CClose | CExpire (generation : Z).

(** The timers ever scheduled, with their times; when the guard last saw a
    stream begin or end; how often it expired. *)
Record guardState := { gs_guard : IdleGuard; gs_timers : list (Z * Z); gs_lastUse : Z; gs_expiries : nat }.

Definition withTimer (now : Z) (r : IdleGuard * option Z) (s : guardState) : guardState :=
  {| gs_guard := r.1; gs_timers := match r.2 with Some g => (g, now) :: gs_timers s | None => gs_timers s end;
     gs_lastUse := gs_lastUse s; gs_expiries := gs_expiries s |}.
Definition used (now : Z) (s : guardState) : guardState :=
  {| gs_guard := gs_guard s; gs_timers := gs_timers s; gs_lastUse := now; gs_expiries := gs_expiries s |}.

(** [None]: a timer does not run before it is due. *)
Definition guardStep (now : Z) (c : guardCall) (s : guardState) : option guardState :=
  let g := gs_guard s in
  match c with
  | CStart => let '(ok, g') := Start g in let s' := withTimer now (g', None) s in Some (if ok then used now s' else s')
  | CDone => let s' := withTimer now (Done g) s in Some (if ig_closed g || (ig_active g =? 0) then s' else used now s')
  | CDisarm => Some (withTimer now (Disarm g, None) s)
  | CClose => Some (withTimer now (guardClose g, None) s)
  | CExpire generation =>
      if existsb (λ t, (t.1 =? generation) && (t.2 + ig_timeout g <=? now)) (gs_timers s) then
        let '(ran, g') := expire generation g in
        Some {| gs_guard := g'; gs_timers := gs_timers s; gs_lastUse := gs_lastUse s; gs_expiries := gs_expiries s + (if ran then 1 else 0) |}
      else None
  end.
Fixpoint guardRun (l : list (Z * guardCall)) (s : guardState) : option guardState :=
  match l with [] => Some s | (now, c) :: l => s ← guardStep now c s; guardRun l s end.

(** * A client's session *)
(** Where [closeOnce]'s function stands. *)
Inductive oncepc := OFree | OMarked | OCancelled | OClosed.

(** [closeWith] marks and closes; [Close] closes. *)
Inductive closer := KMark (reason : SessionEnd) | KClose | KDone.

Record session := {
  se_end : SessionEnd;
  se_once : oncepc;
  se_owner : option nat;                     (* who runs the once function *)
  se_closers : list closer;
  se_watching : bool;                        (* the goroutine of DialClient still waits *)
  se_elapsed : bool; se_peer : option Z;     (* the lifetime passed; the transport ended, with this close code or 0 *)
  se_asked : bool; se_idled : bool           (* the caller closed; the guard expired *)
}.
Definition newSession : session :=
  {| se_end := SessionEndNone; se_once := OFree; se_owner := None; se_closers := []; se_watching := true; se_elapsed := false; se_peer := None;
     se_asked := false; se_idled := false |}.

Definition markEnd (reason : SessionEnd) (s : session) : session :=
  {| se_end := if bool_decide (se_end s = SessionEndNone) then reason else se_end s; se_once := se_once s; se_owner := se_owner s;
     se_closers := se_closers s; se_watching := se_watching s; se_elapsed := se_elapsed s; se_peer := se_peer s; se_asked := se_asked s; se_idled := se_idled s |}.
Definition setOnce (o : oncepc) (owner : option nat) (s : session) : session :=
  {| se_end := se_end s; se_once := o; se_owner := owner; se_closers := se_closers s; se_watching := se_watching s; se_elapsed := se_elapsed s;
     se_peer := se_peer s; se_asked := se_asked s; se_idled := se_idled s |}.
Definition setClosers (l : list closer) (s : session) : session :=
  {| se_end := se_end s; se_once := se_once s; se_owner := se_owner s; se_closers := l; se_watching := se_watching s; se_elapsed := se_elapsed s;
     se_peer := se_peer s; se_asked := se_asked s; se_idled := se_idled s |}.
Definition spawn (k : closer) (s : session) : session := setClosers (se_closers s ++ [k]) s.

Inductive sessionEvent :=
| EvClose                                    (* Close, by the caller or when Serve's context ends *)
| EvElapsed | EvPeer (code : Z)
| EvIdle                                     (* the guard's onExpire *)
| EvWatch (lifetime : bool)                  (* the goroutine of DialClient takes one of its cases *)
| EvCloser (j : nat).

Definition ctxDone (s : session) : bool := se_elapsed s || match se_once s with OCancelled | OClosed => true | _ => false end.
Definition sessionClosed (s : session) : bool := bool_decide (is_Some (se_peer s)) || match se_once s with OClosed => true | _ => false end.

(** A closer's step: the first to reach [closeOnce] runs its function, the
    others wait for it. *)
Definition closerStep (j : nat) (s : session) : option session :=
  k ← se_closers s !! j;
  match k with
  | KMark reason => Some (setClosers (<[j := KClose]> (se_closers s)) (markEnd reason s))
  | KClose =>
      match se_once s with
      | OFree => Some (setOnce OMarked (Some j) (markEnd SessionEndLocal s))
      | OMarked => if bool_decide (se_owner s = Some j) then Some (setOnce OCancelled (Some j) s) else None
      | OCancelled => if bool_decide (se_owner s = Some j) then Some (setOnce OClosed (Some j) s) else None
      | OClosed => Some (setClosers (<[j := KDone]> (se_closers s)) s)
      end
  | KDone => None
  end.

Definition sessionStep (e : sessionEvent) (s : session) : option session :=
  match e with
  | EvClose => Some (spawn KClose {| se_end := se_end s; se_once := se_once s; se_owner := se_owner s; se_closers := se_closers s; se_watching := se_watching s;
      se_elapsed := se_elapsed s; se_peer := se_peer s; se_asked := true; se_idled := se_idled s |})
  | EvElapsed => Some {| se_end := se_end s; se_once := se_once s; se_owner := se_owner s; se_closers := se_closers s; se_watching := se_watching s;
      se_elapsed := true; se_peer := se_peer s; se_asked := se_asked s; se_idled := se_idled s |}
  | EvPeer code => match se_peer s with
      | None => Some {| se_end := se_end s; se_once := se_once s; se_owner := se_owner s; se_closers := se_closers s; se_watching := se_watching s;
          se_elapsed := se_elapsed s; se_peer := Some code; se_asked := se_asked s; se_idled := se_idled s |}
      | Some _ => None end
  | EvIdle => Some (spawn (KMark SessionEndIdle) {| se_end := se_end s; se_once := se_once s; se_owner := se_owner s; se_closers := se_closers s;
      se_watching := se_watching s; se_elapsed := se_elapsed s; se_peer := se_peer s; se_asked := se_asked s; se_idled := true |})
  | EvWatch lifetime =>
      if negb (se_watching s) || negb (if lifetime then ctxDone s else sessionClosed s) then None else
      Some (spawn (KMark (if lifetime then SessionEndLifetime else sessionEndForCloseCode (default 0 (se_peer s))))
        {| se_end := se_end s; se_once := se_once s; se_owner := se_owner s; se_closers := se_closers s; se_watching := false;
           se_elapsed := se_elapsed s; se_peer := se_peer s; se_asked := se_asked s; se_idled := se_idled s |})
  | EvCloser j => closerStep j s
  end.
Fixpoint sessionRun (l : list sessionEvent) (s : session) : option session :=
  match l with [] => Some s | e :: l => s ← sessionStep e s; sessionRun l s end.

(** * Bounds *)
Lemma boundedInt_ok v f m name x : boundedInt v f m name = Ok x → 1 ≤ x ≤ m.
Proof. unfold boundedInt. case_match eqn:E; [done|]. intros [= <-]. cmp_lia. Qed.
Lemma boundedDuration_ok v f m name x : boundedDuration v f m name = Ok x → millisecond ≤ x ≤ m.
Proof. unfold boundedDuration. case_match eqn:E; [done|]. intros [= <-]. cmp_lia. Qed.

(** a client that is accepted is bounded, whatever its caller asked for:
    the handshake, the streams, their idleness and the session end in bounded
    time, a ping is answered or given up before the next, a message has a
    largest size; and its TLS verifies the name in the signed URL with TLS 1.2
    or newer. *)
Lemma client_bounded opts own dialers n c : normalizeClientOptions opts = Ok n → normalizedTLSConfig own dialers = Ok c →
  millisecond ≤ op_HandshakeTimeout n ≤ minute ∧ 0 ≤ op_PingInterval n ≤ 10 * minute ∧
  0 < op_PingWriteTimeout n ≤ minute ∧ (op_PingInterval n = 0 ∨ op_PingWriteTimeout n < op_PingInterval n) ∧
  1 ≤ op_ReadLimit n ≤ 16 * 2 ^ 20 ∧ 1 ≤ lo_MaxConcurrentStreams (op_Lifecycle n) ≤ 1024 ∧
  millisecond ≤ lo_StreamIdleTimeout (op_Lifecycle n) ≤ 24 * hour ∧ millisecond ≤ lo_SessionLifetime (op_Lifecycle n) ≤ 24 * hour ∧
  (lo_NoStreamIdleTimeout (op_Lifecycle n) = 0 ∨ millisecond ≤ lo_NoStreamIdleTimeout (op_Lifecycle n) ≤ 24 * hour) ∧
  tc_InsecureSkipVerify c = false ∧ tc_ServerName c = ""%string ∧ VersionTLS12 ≤ tc_MinVersion c ∧
  (tc_MaxVersion c = 0 ∨ VersionTLS12 ≤ tc_MaxVersion c).
Proof.
  intros Hn Hc.
  assert (Htls : tc_InsecureSkipVerify c = false ∧ tc_ServerName c = ""%string ∧ VersionTLS12 ≤ tc_MinVersion c ∧ (tc_MaxVersion c = 0 ∨ VersionTLS12 ≤ tc_MaxVersion c)).
  { revert Hc. unfold normalizedTLSConfig. destruct (match own with Some c => Some c | None => dialers end) as [k|]; [|by intros [= <-]; cbn; unfold VersionTLS12; split_and!; (done || lia)].
    destruct (tc_InsecureSkipVerify k); [done|]. destruct (negb (str_empty _)); [done|]. destruct (negb (tc_MinVersion k =? 0) && _) eqn:E1; [done|]. destruct (negb (tc_MaxVersion k =? 0) && _) eqn:E2; [done|].
    intros [= <-]. cbn. unfold VersionTLS12 in *. split_and!; [done..|cmp_lia|cmp_lia]. }
  revert Hn. unfold normalizeClientOptions, NormalizeLifecycleOptions. cbv zeta.
  set (h := if op_HandshakeTimeout opts =? 0 then _ else _). destruct ((h <? millisecond) || (MaxHandshakeTimeout <? h)) eqn:E1; [done|].
  set (p0 := if op_PingInterval opts =? 0 then _ else _). set (p := if p0 <? 0 then 0 else p0). destruct (MaxPingInterval <? p) eqn:E2; [done|].
  set (w := if op_PingWriteTimeout opts <=? 0 then _ else _). destruct ((MaxPingWriteTimeout <? w) || ((0 <? p) && (p <=? w))) eqn:E3; [done|].
  set (r := if op_ReadLimit opts =? 0 then _ else _). destruct ((r <? 1) || (MaxWebSocketReadMax <? r)) eqn:E4; [done|].
  destruct (boundedInt _ _ _ _) as [a|] eqn:E5; [|done]. destruct (boundedDuration (lo_StreamIdleTimeout _) _ _ _) as [b|] eqn:E6; [|done].
  destruct (if lo_NoStreamIdleTimeout _ =? 0 then _ else _) as [i|] eqn:E7; [|done]. destruct (boundedDuration (lo_SessionLifetime _) _ _ _) as [l|] eqn:E8; [|done].
  intros [= <-]. cbn [op_HandshakeTimeout op_PingInterval op_PingWriteTimeout op_ReadLimit op_Lifecycle lo_MaxConcurrentStreams lo_StreamIdleTimeout lo_NoStreamIdleTimeout lo_SessionLifetime].
  apply boundedInt_ok in E5. apply boundedDuration_ok in E6, E8.
  assert (Hi : i = 0 ∨ millisecond ≤ i ≤ MaxSessionLifetime).
  { destruct (_ =? 0) in E7; [injection E7 as <-; by left|]. right. by apply boundedDuration_ok in E7. }
  assert (Hp : 0 ≤ p) by (subst p; destruct (Z.ltb_spec p0 0); lia).
  assert (Hw : 0 < w) by (subst w; destruct (Z.leb_spec (op_PingWriteTimeout opts) 0); unfold DefaultPingWriteTimeout, second, millisecond in *; lia).
  clearbody h p w r. unfold MaxHandshakeTimeout, MaxPingInterval, MaxPingWriteTimeout, MaxWebSocketReadMax, MaxSessionLifetime, MaxConcurrentStreams in *.
  split_and!; try apply Htls; try lia; try (destruct Hi; [by left|by right]); cmp_cases; lia.
Qed.

(** * The stream *)
(** The bytes of the binary messages up to the first error, the error, and the
    close code it brought. *)
Fixpoint payload (inMessage : bool) (answers : list wsAnswer) : list byte * option readError * option Z :=
  match answers with
  | [] => ([], None, None)
  | a :: answers =>
      match a, inMessage with
      | ANext true, false => payload true answers
      | ANext false, false => ([], Some ErrNonBinaryMessage, None)
      | ANextErr code, false => ([], Some ErrRead, code)
      | AData bs, true => let '(more, e, code) := payload true answers in (bs ++ more, e, code)
      | ALast bs, true => let '(more, e, code) := payload false answers in (bs ++ more, e, code)
      | AErr bs code, true => (bs, Some ErrRead, code)
      | _, _ => ([], None, None)
      end
  end.

(** Reads until one fails or would wait. *)
Fixpoint readAll (fuel : nat) (answers : list wsAnswer) (c : wsConn) : list byte * option readError * wsConn :=
  match fuel with
  | O => ([], None, c)
  | S fuel =>
      match Read answers c with
      | None => ([], None, c)
      | Some (bs, Some e, c, _) => (bs, Some e, c)
      | Some (bs, None, c, answers) => let '(more, e, c) := readAll fuel answers c in (bs ++ more, e, c)
      end
  end.

Lemma readAll_payload n : ∀ answers c fuel, (length answers ≤ n)%nat → (length answers < fuel)%nat → ws_closed c = false →
  let '(bs, e, code) := payload (ws_reader c) answers in
  let '(bs', e', c') := readAll fuel answers c in
  bs' = bs ∧ e' = e ∧ ws_closed c' = bool_decide (is_Some e) ∧
  ws_remoteCloseCode c' = if ws_remoteCloseCode c =? 0 then default 0 code else ws_remoteCloseCode c.
Proof.
  assert (Hz : ∀ c, ws_remoteCloseCode c = if ws_remoteCloseCode c =? 0 then default 0 None else ws_remoteCloseCode c).
  { intros c. by destruct (Z.eqb_spec (ws_remoteCloseCode c) 0). }
  induction n as [|n IH]; intros answers c fuel Hn Hf Hc.
  { destruct answers; [|cbn in Hn; lia]. destruct fuel; cbn; eauto. }
  destruct answers as [|a answers]; [destruct fuel; cbn; eauto|]. destruct fuel as [|fuel]; [lia|]. cbn [length] in Hn, Hf.
  destruct a as [[]|code|bs|bs|bs code], (ws_reader c) eqn:Er; cbn [payload readAll Read]; rewrite Er;
    try (by eauto); try (destruct code; cbn; by eauto).
  - specialize (IH answers (setReader true c) (S fuel) ltac:(lia) ltac:(lia) Hc). cbn [readAll setReader ws_reader ws_remoteCloseCode ws_closed] in IH.
    destruct (payload true answers) as [[more e] code]. by destruct (Read answers _) as [[[[? [?|]] ?] ?]|].
  - cbn. split_and!; [done..|]. apply Hz.
  - specialize (IH answers c fuel ltac:(lia) ltac:(lia) Hc). rewrite Er in IH. destruct (payload true answers) as [[more e] code].
    destruct (readAll fuel answers c) as [[??]?]. by destruct IH as (-> & -> & ?).
  - destruct (bool_decide_reflect (bs = [])) as [->|_].
    + specialize (IH answers (setReader false c) (S fuel) ltac:(lia) ltac:(lia) Hc). cbn [readAll setReader ws_reader ws_remoteCloseCode ws_closed] in IH.
      destruct (payload false answers) as [[more e] code]. by destruct (Read answers _) as [[[[? [?|]] ?] ?]|].
    + specialize (IH answers (setReader false c) fuel ltac:(lia) ltac:(lia) Hc). cbn [setReader ws_reader ws_remoteCloseCode ws_closed] in IH.
      destruct (payload false answers) as [[more e] code]. destruct (readAll fuel answers _) as [[??]?]. by destruct IH as (-> & -> & ?).
Qed.

(** the stream is the concatenation of the peer's binary messages, in their
    order and whatever the sizes the reads returned, up to the first error; an
    error closes the connection and leaves the close code the peer sent with it,
    a text message among them closes it and brings no code. *)
Lemma read_stream answers fuel : (length answers < fuel)%nat →
  let '(bs, e, code) := payload false answers in
  let '(bs', e', c) := readAll fuel answers newWSConn in
  bs' = bs ∧ e' = e ∧ ws_closed c = bool_decide (is_Some e) ∧ ws_remoteCloseCode c = default 0 code.
Proof. intros H. exact (readAll_payload (length answers) answers newWSConn fuel ltac:(lia) H eq_refl). Qed.

Definition messages : list wsAnswer :=
  [ANext true; AData (bytes "ab"); ALast (bytes "c"); ANext true; ALast []; ANext true; AData (bytes "d"); ALast []; ANextErr (Some CloseGoingAway)].
Lemma read_stream_witness :
  let '(bs, e, c) := readAll 20 messages newWSConn in
  bs = bytes "abcd" ∧ e = Some ErrRead ∧ ws_closed c = true ∧ ws_remoteCloseCode c = CloseGoingAway.
Proof.
  assert (H : (length messages < 20)%nat) by (vm_compute; lia). pose proof (read_stream messages 20 H) as P.
  revert P. vm_compute. auto.
Defined.

(** * The guard *)
(** Times do not run backwards. *)
Fixpoint clocked (t : Z) (l : list (Z * guardCall)) : bool :=
  match l with [] => true | (now, _) :: l => (t <=? now) && clocked now l end.

Definition newGuardState (now : Z) (r : IdleGuard * option Z) : guardState :=
  {| gs_guard := r.1; gs_timers := match r.2 with Some g => [(g, now)] | None => [] end; gs_lastUse := now; gs_expiries := 0 |}.

(** [n]: how many calls the generation may have counted. *)
Record guardInv (timeout : Z) (n : nat) (s : guardState) : Prop := {
  gi_timeout : ig_timeout (gs_guard s) = timeout;
  gi_generation : 0 ≤ ig_generation (gs_guard s) ≤ Z.of_nat n;
  gi_active : 0 ≤ ig_active (gs_guard s);
  gi_old : Forall (λ t, t.1 ≤ ig_generation (gs_guard s)) (gs_timers s);
  gi_current : ∀ at_, (ig_generation (gs_guard s), at_) ∈ gs_timers s →
    at_ = gs_lastUse s ∧ ig_active (gs_guard s) = 0 ∧ ig_disarmed (gs_guard s) = false ∧ ig_closed (gs_guard s) = false;
  gi_armed : ig_active (gs_guard s) = 0 → ig_disarmed (gs_guard s) = false → ig_closed (gs_guard s) = false →
    (ig_generation (gs_guard s), gs_lastUse s) ∈ gs_timers s;
  gi_once : gs_expiries s = if ig_expired (gs_guard s) then 1%nat else 0%nat
}.

Lemma bump_generation n g : 0 ≤ ig_generation g ≤ Z.of_nat n → Z.of_nat n + 1 < 2 ^ 64 → ig_generation (bump g) = ig_generation g + 1.
Proof. intros ??. cbn. rewrite Z.mod_small; lia. Qed.

(** A generation after all scheduled ones carries no timer. *)
Lemma fresh_generation (timers : list (Z * Z)) g at_ : Forall (λ t, t.1 ≤ g) timers → (g + 1, at_) ∉ timers.
Proof. intros Ho Hin. eapply Forall_forall in Ho; [|exact Hin]. cbn in Ho. lia. Qed.

Lemma Forall_older (timers : list (Z * Z)) g : Forall (λ t, t.1 ≤ g) timers → Forall (λ t, t.1 ≤ g + 1) timers.
Proof. intros Ho. eapply Forall_impl; [exact Ho|]. cbn. intros; lia. Qed.

Lemma guardInv_step timeout n now c s s' : guardInv timeout n s → Z.of_nat n + 1 < 2 ^ 64 → guardStep now c s = Some s' → guardInv timeout (S n) s'.
Proof.
  intros [Ht Hg Ha Ho Hc Harm He] Hn. pose proof (bump_generation n (gs_guard s) Hg Hn) as Hb. destruct s as [g timers last expiries]. cbn in *.
  assert (Hfresh := λ at_, fresh_generation timers (ig_generation g) at_ Ho). pose proof (Forall_older _ _ Ho) as Ho'.
  destruct c as [| | | |generation]; cbn [guardStep gs_guard gs_timers gs_lastUse].
  - unfold Start. destruct (ig_closed g || ig_expired g) eqn:E1; [intros [= <-]; split; cbn; (assumption || lia)|].
    destruct (Z.eqb_spec (ig_active g) 0) as [E2|E2]; intros [= <-]; split; cbn -[Z.add Z.pow] in *; rewrite ?Hb;
      try (assumption || lia); intros at_ Hin; [by destruct (Hfresh at_)|]; destruct (Hc at_ Hin) as (_&?&_); lia.
  - unfold Done. destruct (ig_closed g || (ig_active g =? 0)) eqn:E1; [intros [= <-]; split; cbn; (assumption || lia)|].
    apply orb_false_iff in E1 as [E1 E2%Z.eqb_neq]. cbn [setActive ig_active ig_disarmed].
    destruct ((ig_active g - 1 =? 0) && negb (ig_disarmed g)) eqn:E3; cbn; intros [= <-]; split; cbn -[Z.pow] in *; rewrite ?Hb; try (assumption || lia).
    + constructor; [cbn; lia|assumption].
    + apply andb_true_iff in E3 as [E3%Z.eqb_eq E4%negb_true_iff]. intros at_ [[= ->]|Hin]%elem_of_cons; [auto|by destruct (Hfresh at_)].
    + intros _ _ _. left.
    + intros at_ Hin. destruct (Hc at_ Hin) as (_&?&_). lia.
    + intros E4 E5 _. rewrite E5, E4 in E3. done.
  - unfold Disarm. destruct (ig_disarmed g) eqn:E1; intros [= <-]; split; cbn -[Z.pow] in *; rewrite ?Hb; try (assumption || lia || congruence); try done.
    + intros at_ Hin. destruct (Hc at_ Hin) as (?&?&?&?). congruence.
    + intros at_ Hin. by destruct (Hfresh at_).
  - intros [= <-]; split; cbn -[Z.pow] in *; rewrite ?Hb; try (assumption || lia || congruence); try done.
    intros at_ Hin. by destruct (Hfresh at_).
  - destruct (existsb _ _); [|done]. unfold expire.
    destruct (ig_closed g || ig_expired g || negb (ig_active g =? 0) || negb (generation =? ig_generation g)) eqn:E; intros [= <-]; split; cbn in *; try (assumption || lia).
    rewrite !orb_false_iff in E. destruct E as [[[_ E] _] _]. rewrite E in He. lia.
Qed.

Lemma guardInv_run timeout l : ∀ n s s', guardInv timeout n s → Z.of_nat (n + length l) + 1 < 2 ^ 64 → guardRun l s = Some s' →
  guardInv timeout (n + length l) s'.
Proof.
  induction l as [|[now c] l IH]; intros n s s' H Hn; cbn [length] in *; [intros [= <-]; by rewrite Nat.add_0_r|].
  cbn. intros (s1&H1&H2)%bind_Some. rewrite Nat.add_succ_r. apply (IH (S n) s1); [|lia|done]. apply (guardInv_step _ _ now c s); [done|lia|done].
Qed.

Lemma guardInv_new timeout now g : NewIdleGuard timeout = Ok g → guardInv (ig_timeout g.1) 1 (newGuardState now g).
Proof.
  unfold NewIdleGuard. destruct (boundedDuration _ _ _ _); [|done]. cbn. intros [= <-]. split; cbn; try (done || lia).
  - constructor; [done|constructor].
  - intros at_ [[= ->]|H]%elem_of_cons; [done|by apply elem_of_nil in H].
  - intros _ _ _. left.
Qed.

(** C35: the guard ends a session exactly when it is unused: in every history of
    fewer than 2^63 calls, a timer that runs expires the guard only when no
    stream is open, the session is neither closed nor disarmed, and the whole
    timeout has passed since the last stream began or ended; it expires at most
    once and then, as after a close, no stream starts; and a guard with no
    stream open has a timer that will expire it. *)
Theorem idle_guard_sound timeout g t0 l s now generation s' : NewIdleGuard timeout = Ok g → Z.of_nat (length l) < 2 ^ 63 →
  guardRun l (newGuardState t0 g) = Some s →
  (guardStep now (CExpire generation) s = Some s' → gs_expiries s' ≠ gs_expiries s →
   ig_active (gs_guard s) = 0 ∧ ig_closed (gs_guard s) = false ∧ ig_disarmed (gs_guard s) = false ∧ gs_lastUse s + ig_timeout g.1 ≤ now) ∧
  (gs_expiries s ≤ 1)%nat ∧
  (gs_expiries s = 1%nat ∨ ig_closed (gs_guard s) = true → Start (gs_guard s) = (false, gs_guard s)) ∧
  (ig_active (gs_guard s) = 0 → ig_disarmed (gs_guard s) = false → ig_closed (gs_guard s) = false → gs_expiries s = 0%nat →
   gs_lastUse s + ig_timeout g.1 ≤ now →
   ∃ generation s', guardStep now (CExpire generation) s = Some s' ∧ gs_expiries s' = 1%nat).
Proof.
  intros Hg Hl Hrun. pose proof (guardInv_run _ l 1 _ s (guardInv_new timeout t0 g Hg) ltac:(lia) Hrun) as [Ht Hgen Ha Ho Hc Harm He].
  destruct s as [G timers last expiries]. cbn [gs_guard gs_timers gs_lastUse gs_expiries] in *. split_and!.
  - cbn [guardStep gs_guard gs_timers gs_lastUse gs_expiries]. destruct (existsb _ timers) eqn:Ex; [|done]. unfold expire.
    destruct (ig_closed G || ig_expired G || negb (ig_active G =? 0) || negb (generation =? ig_generation G)) eqn:E; intros [= <-]; cbn; [lia|]. intros _.
    apply existsb_exists in Ex as ([g1 at_]&Hin%list_elem_of_In&[Hg1%Z.eqb_eq Hd%Z.leb_le]%andb_true_iff). cbn in Hg1, Hd. subst g1.
    rewrite !orb_false_iff, !negb_false_iff in E. destruct E as [_ E%Z.eqb_eq]. subst generation. destruct (Hc at_ Hin) as (->&?&?&?). rewrite Ht in Hd. auto.
  - destruct (ig_expired G); lia.
  - intros [H|H]; unfold Start; [destruct (ig_expired G); [by rewrite orb_true_r|lia]|by rewrite H].
  - intros H1 H2 H3 H4 H5. specialize (Harm H1 H2 H3). exists (ig_generation G). cbn [guardStep gs_guard gs_timers gs_lastUse gs_expiries].
    assert (existsb (λ t, (t.1 =? ig_generation G) && (t.2 + ig_timeout G <=? now)) timers = true) as ->.
    { apply existsb_exists. exists (ig_generation G, last). split; [by apply list_elem_of_In|]. cbn. apply andb_true_iff. split; [apply Z.eqb_refl|apply Z.leb_le; lia]. }
    assert (Hx : ig_expired G = false) by (destruct (ig_expired G); [lia|done]).
    unfold expire. rewrite H3, Hx, H1, !Z.eqb_refl. cbn. eexists; split; [reflexivity|]. cbn. lia.
Qed.

(** A stream comes and goes after 100 s, a minute later nothing runs; two
    minutes later the timer of its end does. *)
Definition idleHistory : list (Z * guardCall) :=
  [(100 * second, CStart); (120 * second, CExpire 1); (130 * second, CDone); (190 * second, CStart); (191 * second, CDone)].
Definition idleGuard : IdleGuard * option Z := match NewIdleGuard (2 * minute) with Ok g => g | Err _ => (bump (setClosed (setActive 0 {| ig_timeout := 0; ig_active := 0; ig_expired := false; ig_closed := false; ig_disarmed := false; ig_generation := 0 |})), None) end.
Definition idleState : guardState := match guardRun idleHistory (newGuardState 0 idleGuard) with Some s => s | None => newGuardState 0 idleGuard end.
Lemma idle_guard_sound_witness : ig_active (gs_guard idleState) = 0 ∧ ∃ generation s', guardStep (311 * second) (CExpire generation) idleState = Some s' ∧ gs_expiries s' = 1%nat.
Proof.
  split; [reflexivity|].
  refine (proj2 (proj2 (proj2 (idle_guard_sound (2 * minute) idleGuard 0 idleHistory idleState (311 * second) 0 idleState _ _ _))) _ _ _ _ _); vm_compute; (reflexivity || discriminate).
Defined.

(** * The end *)
(** What makes [r] the reason: the caller, the guard, the lifetime or the
    peer's close code. *)
Definition caused (r : SessionEnd) (s : session) : Prop :=
  match r with
  | SessionEndNone => False
  | SessionEndLocal => se_asked s = true
  | SessionEndIdle => se_idled s = true
  | SessionEndLifetime => se_elapsed s = true
  | SessionEndRemote | SessionEndTransport => ∃ code, se_peer s = Some code ∧ sessionEndForCloseCode code = r
  end.

Record sessionInv (s : session) : Prop := {
  si_end : se_end s ≠ SessionEndNone → caused (se_end s) s;
  si_once : se_once s ≠ OFree → se_end s ≠ SessionEndNone;
  si_mark : ∀ r, KMark r ∈ se_closers s → r ≠ SessionEndNone ∧ (se_end s ≠ SessionEndNone ∨ caused r s);
  si_close : KClose ∈ se_closers s → se_end s ≠ SessionEndNone ∨ se_asked s = true;
  si_owner : se_once s = OMarked ∨ se_once s = OCancelled → ∃ j, se_owner s = Some j ∧ se_closers s !! j = Some KClose
}.

(** [s'] has seen all that [s] has. *)
Definition knows (s s' : session) : Prop :=
  (se_asked s = true → se_asked s' = true) ∧ (se_idled s = true → se_idled s' = true) ∧ (se_elapsed s = true → se_elapsed s' = true) ∧
  (∀ code, se_peer s = Some code → se_peer s' = Some code) ∧ (se_end s ≠ SessionEndNone → se_end s' = se_end s).

Lemma caused_knows r s s' : caused r s → knows s s' → caused r s'.
Proof. intros H (?&?&?&?&_). destruct r; cbn in *; eauto; destruct H as (c&?&?); eauto. Qed.

Lemma sessionEndForCloseCode_cases code : sessionEndForCloseCode code = SessionEndRemote ∨ sessionEndForCloseCode code = SessionEndTransport.
Proof. unfold sessionEndForCloseCode. case_bool_decide; auto. Qed.

Lemma knows_step e s s' : sessionStep e s = Some s' → knows s s'.
Proof.
  unfold knows. destruct e as [| |code| |lt|j]; cbn [sessionStep].
  - intros [= <-]. cbn. auto.
  - intros [= <-]. cbn. auto.
  - destruct (se_peer s) eqn:E; [done|]. intros [= <-]. cbn. repeat split; auto; congruence.
  - intros [= <-]. cbn. auto.
  - destruct (_ || _); [done|]. intros [= <-]. cbn. auto.
  - unfold closerStep. destruct (se_closers s !! j) as [[r| |]|]; cbn; [..|done|done].
    + intros [= <-]. cbn. repeat split; auto. intros. by rewrite bool_decide_eq_false_2.
    + destruct (se_once s); try case_bool_decide; try done; intros [= <-]; cbn; repeat split; auto. intros. by rewrite bool_decide_eq_false_2.
Qed.

(** The invariant after a closer was added to the known past. *)
Lemma sessionInv_spawn k s s' : sessionInv s → knows s s' → se_end s' = se_end s → se_once s' = se_once s → se_owner s' = se_owner s →
  se_closers s' = se_closers s ++ [k] →
  (∀ r, k = KMark r → r ≠ SessionEndNone ∧ (se_end s ≠ SessionEndNone ∨ caused r s')) → (k = KClose → se_asked s' = true) → sessionInv s'.
Proof.
  intros [H1 H2 H3 H4 H5] Hk He Ho Hw Hc Hm Ha. pose proof Hk as (Hk1&_). split; rewrite ?He, ?Ho, ?Hw, ?Hc.
  - intros Hn. eapply caused_knows; [by apply H1|done].
  - done.
  - intros r [Hin|Hin%list_elem_of_singleton]%elem_of_app; [|by apply Hm]. destruct (H3 r Hin) as [? [?|?]]; split; auto. right. by eapply caused_knows.
  - intros [Hin|Hin%list_elem_of_singleton]%elem_of_app; [destruct (H4 Hin); auto|]. right. by apply Ha.
  - intros Hm'. destruct (H5 Hm') as (j&?&?). exists j. split; [done|]. by apply lookup_app_l_Some.
Qed.

Lemma sessionInv_same s s' : sessionInv s → knows s s' → se_end s' = se_end s → se_once s' = se_once s → se_owner s' = se_owner s →
  se_closers s' = se_closers s → sessionInv s'.
Proof.
  intros [H1 H2 H3 H4 H5] Hk He Ho Hw Hc. pose proof Hk as (Hk1&_). split; rewrite ?He, ?Ho, ?Hw, ?Hc; auto.
  - intros Hn. eapply caused_knows; [by apply H1|done].
  - intros r Hin. destruct (H3 r Hin) as [? [?|?]]; split; auto. right. by eapply caused_knows.
  - intros Hin. destruct (H4 Hin); auto.
Qed.

Lemma elem_of_insert_or (l : list closer) j x k : k ∈ <[j:=x]> l → k = x ∨ k ∈ l.
Proof.
  intros [i Hi]%list_elem_of_lookup. apply list_lookup_insert_Some in Hi as [(_&->&_)|[_ Hi]]; [by left|right]. by eapply list_elem_of_lookup_2.
Qed.

Lemma sessionInv_closer j s s' : sessionInv s → closerStep j s = Some s' → sessionInv s'.
Proof.
  intros [H1 H2 H3 H4 H5] Hs. pose proof (knows_step (EvCloser j) s s' Hs) as Hk. unfold closerStep in Hs.
  destruct (se_closers s !! j) as [k|] eqn:Ej; cbn in Hs; [|done]. pose proof (list_elem_of_lookup_2 _ _ _ Ej) as Hin.
  pose proof (lookup_lt_Some _ _ _ Ej) as Hlt.
  destruct k as [r| |]; [| |done].
  - injection Hs as <-. destruct (H3 r Hin) as [Hr Hor].
    assert (Hend : (if bool_decide (se_end s = SessionEndNone) then r else se_end s) ≠ SessionEndNone) by (by case_bool_decide).
    split; cbn; auto.
    + case_bool_decide as E; intros _; [destruct Hor; [done|]|pose proof (H1 E)]; by eapply caused_knows.
    + intros r' [?|Hin']%elem_of_insert_or; [done|]. split; [by apply H3|by left].
    + intros Hm. destruct (H5 Hm) as (i&Hw&Hi). exists i. split; [done|]. rewrite list_lookup_insert_ne; [done|congruence].
  - destruct (se_once s) eqn:Eo.
    + injection Hs as <-. assert (Hend : (if bool_decide (se_end s = SessionEndNone) then SessionEndLocal else se_end s) ≠ SessionEndNone) by (by case_bool_decide).
      split; cbn; auto.
      * case_bool_decide as E; intros _; [destruct (H4 Hin); done|]. eapply caused_knows; [by apply H1|done].
      * intros r' Hin'. split; [by apply H3|by left].
      * intros _. by exists j.
    + case_bool_decide as E; [|done]. injection Hs as <-. destruct (H5 ltac:(auto)) as (i&?&?). split; cbn.
      * intros Hn. eapply caused_knows; [by apply H1|done].
      * intros _. by apply H2.
      * intros r' Hin'. by apply H3.
      * done.
      * intros _. by exists j.
    + case_bool_decide as E; [|done]. injection Hs as <-. split; cbn.
      * intros Hn. eapply caused_knows; [by apply H1|done].
      * intros _. by apply H2.
      * intros r' Hin'. by apply H3.
      * done.
      * by intros [?|?].
    + injection Hs as <-. assert (Hne : se_end s ≠ SessionEndNone) by (by apply H2). split; cbn; rewrite ?Eo.
      * intros _. eapply caused_knows; [by apply H1|done].
      * done.
      * intros r' [?|Hin']%elem_of_insert_or; [done|]. split; [by apply (H3 r')|by left].
      * by left.
      * by intros [?|?].
Qed.

Lemma sessionInv_step e s s' : sessionInv s → sessionStep e s = Some s' → sessionInv s'.
Proof.
  intros HI Hs. pose proof (knows_step e s s' Hs) as Hk. destruct e as [| |code| |lt|j]; cbn [sessionStep] in Hs.
  - injection Hs as <-. eapply (sessionInv_spawn KClose s); done || by auto.
  - injection Hs as <-. by eapply (sessionInv_same s).
  - destruct (se_peer s); [done|]. injection Hs as <-. by eapply (sessionInv_same s).
  - injection Hs as <-. eapply (sessionInv_spawn (KMark SessionEndIdle) s); try done. intros r [= <-]. split; [done|]. by right.
  - destruct (negb (se_watching s) || negb (if lt then ctxDone s else sessionClosed s)) eqn:E; [done|]. injection Hs as <-.
    apply orb_false_iff in E as [_ E%negb_false_iff]. eapply (sessionInv_spawn _ s); try done.
    intros r [= <-]. destruct lt; [split; [done|]|split; [by destruct (sessionEndForCloseCode_cases (default 0 (se_peer s))) as [-> | ->]|]].
    + unfold ctxDone in E. apply orb_true_iff in E as [E|E]; [by right|left]. apply (si_once s HI). by destruct (se_once s).
    + unfold sessionClosed in E. apply orb_true_iff in E as [E%bool_decide_eq_true|E].
      * right. destruct E as [code E]. cbn. rewrite E. cbn. destruct (sessionEndForCloseCode_cases code) as [Hc|Hc]; rewrite Hc; cbn; by exists code.
      * left. apply (si_once s HI). by destruct (se_once s).
  - by eapply sessionInv_closer.
Qed.

Lemma sessionInv_run l : ∀ s s', sessionInv s → sessionRun l s = Some s' → sessionInv s' ∧ (se_end s ≠ SessionEndNone → se_end s' = se_end s).
Proof.
  induction l as [|e l IH]; intros s s' H; cbn; [by intros [= <-]|]. intros (s1&Hs&Hl)%bind_Some.
  destruct (IH s1 s') as [? He]; [by eapply sessionInv_step|done|]. split; [done|]. destruct (knows_step e s s1 Hs) as (_&_&_&_&Hk).
  intros Hn. rewrite He, Hk; auto. by rewrite Hk.
Qed.

Lemma sessionInv_new : sessionInv newSession.
Proof. split; cbn; try done; [by intros ? ?%elem_of_nil|by intros ?%elem_of_nil|by intros [?|?]]. Qed.

(** C21: whatever closes first and however the closings interleave, a session's
    reason is a true one and stays: local only when the caller closed it, idle
    when the guard expired, lifetime when the lifetime passed, remote only
    when the peer closed with a code of an orderly stop, and it is not graceful only
    when the path was lost; a session that closes has a reason, and no two
    closings wait for each other. *)
Theorem session_end_cause l s l' s' : sessionRun l newSession = Some s → sessionRun l' s = Some s' →
  (se_end s ≠ SessionEndNone → caused (se_end s) s ∧ se_end s' = se_end s ∧
    (Graceful (se_end s) = false ↔ se_end s = SessionEndTransport)) ∧
  (se_once s ≠ OFree → se_end s ≠ SessionEndNone) ∧
  (∀ j k, se_closers s !! j = Some k → k ≠ KDone → ∃ i, is_Some (sessionStep (EvCloser i) s)).
Proof.
  intros Hl Hl'. destruct (sessionInv_run l _ s sessionInv_new Hl) as [HI _]. destruct (sessionInv_run l' s s' HI Hl') as [_ Hst]. split_and!.
  - intros Hn. split_and!; [by apply HI|by apply Hst|by destruct (se_end s)].
  - apply HI.
  - intros j k Hj Hk. cbn. destruct k as [r| |]; [| |done].
    + exists j. unfold closerStep. rewrite Hj. by eexists.
    + destruct (se_once s) eqn:Eo.
      1, 4: exists j; unfold closerStep; rewrite Hj; cbn; rewrite Eo; by eexists.
      all: destruct (si_owner s HI ltac:(auto)) as (i&Hw&Hi); exists i; unfold closerStep; rewrite Hi; cbn; rewrite Eo, Hw, bool_decide_eq_true_2 by done; by eexists.
Qed.

(** The lifetime passes while the caller closes and the peer drops. *)
Definition endHistory : list sessionEvent := [EvElapsed; EvWatch true; EvPeer 1006; EvClose; EvCloser 0; EvCloser 1; EvCloser 1].
Definition endState : session := match sessionRun endHistory newSession with Some s => s | None => newSession end.
Lemma session_end_cause_witness : caused SessionEndLifetime endState ∧ se_asked endState = true ∧ ∃ i, is_Some (sessionStep (EvCloser i) endState).
Proof.
  assert (H : sessionRun endHistory newSession = Some endState) by (vm_compute; reflexivity).
  pose proof (session_end_cause endHistory endState [] endState H eq_refl) as (H1&_&H2).
  assert (He : se_end endState = SessionEndLifetime) by (vm_compute; reflexivity).
  assert (Hc : se_closers endState !! 0%nat = Some KClose) by (vm_compute; reflexivity).
  assert (Ha : se_asked endState = true) by (vm_compute; reflexivity).
  clear H. generalize dependent endState. intros s H1 H2 He Hc Ha. rewrite He in H1. split_and!; [by apply H1|done|by eapply H2].
Defined.
