(* ===== verification/EventHub.v ===== *)
(** The event stream of the desktop core (src/core: sse.go, the [broadcastLoop]
    of server.go and the [handleEvents] of api.go): the ring of log lines, the
    coalesced state broadcasts and the subscribers of the stream, as one
    machine whose steps interleave.

    The broadcaster takes a signal, reads the engine's state and publishes; an
    [appendLog] first writes the ring and then offers the line to the
    broadcaster; a subscriber takes its replay, writes the current state and the
    replay, and then what is published.  A line carries its number in the
    history of the ring, which is the model's. *)
From stdpp Require Import base list list_numbers gmap.
From Stdlib Require Import ZArith Lia.
From S2P Require Import Prelude.

Definition logRingCapacity : nat := 2000.
Definition logReplayOnJoin : nat := 500.
Definition subscriberBufLen : nat := 64.
Definition logChLen : nat := 256.

(** [Line]: a time and a text; [Snapshot]: what [c.snapshot] builds of the
    engine. *)
Section hub.
Context {Line Snapshot : Type}.
#[local] Set Default Proof Using "Type".

Definition logEntry : Type := nat * Line.
Inductive frame := FState (s : Snapshot) | FLog (e : logEntry).

(** A subscriber: its replay, the state its handler wrote before it, the frames
    written since, and its channel.  [sb_from] is the number of lines when it
    subscribed, [sb_missed] the frames its full channel refused. *)
Record subscriber := {
  sb_replay : list logEntry;
  sb_first : option Snapshot;
  sb_live : list frame;
  sb_ch : list frame;
  sb_from : nat;
  sb_missed : list frame
}.

(** The broadcaster: waiting, with a state signal taken, with a frame to publish. *)
Inductive castpc := BWait | BTaken | BFrame (f : frame).

Record eventHub := {
  eh_state : Snapshot;                       (* the engine's *)
  eh_history : list Line;                    (* every line ever logged *)
  eh_logs : list logEntry;                   (* the ring *)
  eh_stateCh : bool;
  eh_logCh : list logEntry;
  eh_senders : list logEntry;                (* calls of appendLog between the ring and the channel *)
  eh_refused : list logEntry;                (* lines the full channel refused *)
  eh_pc : castpc;
  eh_subs : gmap nat subscriber
}.

Definition newEventHub (s : Snapshot) : eventHub :=
  {| eh_state := s; eh_history := []; eh_logs := []; eh_stateCh := false; eh_logCh := []; eh_senders := []; eh_refused := []; eh_pc := BWait;
     eh_subs := ∅ |}.

(** [StateChanged]: the engine has the new state and signals, under its lock. *)
Definition signalState (s : Snapshot) (h : eventHub) : eventHub :=
  {| eh_state := s; eh_history := eh_history h; eh_logs := eh_logs h; eh_stateCh := true; eh_logCh := eh_logCh h; eh_senders := eh_senders h;
     eh_refused := eh_refused h; eh_pc := eh_pc h; eh_subs := eh_subs h |}.

(** [appendLog] up to its unlock. *)
Definition appendLog (line : Line) (h : eventHub) : eventHub :=
  let e := (length (eh_history h), line) in
  let logs := eh_logs h ++ [e] in
  let excess := (length logs - logRingCapacity)%nat in
  {| eh_state := eh_state h; eh_history := eh_history h ++ [line];
     eh_logs := if (0 <? excess)%nat then drop excess logs else logs;
     eh_stateCh := eh_stateCh h; eh_logCh := eh_logCh h; eh_senders := eh_senders h ++ [e]; eh_refused := eh_refused h; eh_pc := eh_pc h;
     eh_subs := eh_subs h |}.

(** Its send, which never waits. *)
Definition sendLog (i : nat) (h : eventHub) : option eventHub :=
  e ← eh_senders h !! i;
  let full := (logChLen <=? length (eh_logCh h))%nat in
  Some {| eh_state := eh_state h; eh_history := eh_history h; eh_logs := eh_logs h; eh_stateCh := eh_stateCh h;
          eh_logCh := if full then eh_logCh h else eh_logCh h ++ [e]; eh_senders := delete i (eh_senders h);
          eh_refused := if full then eh_refused h ++ [e] else eh_refused h; eh_pc := eh_pc h; eh_subs := eh_subs h |}.

Definition tailLogs (n : nat) (h : eventHub) : list logEntry :=
  let n := if (length (eh_logs h) <? n)%nat then length (eh_logs h) else n in drop (length (eh_logs h) - n) (eh_logs h).

Definition withSubs (subs : gmap nat subscriber) (h : eventHub) : eventHub :=
  {| eh_state := eh_state h; eh_history := eh_history h; eh_logs := eh_logs h; eh_stateCh := eh_stateCh h; eh_logCh := eh_logCh h;
     eh_senders := eh_senders h; eh_refused := eh_refused h; eh_pc := eh_pc h; eh_subs := subs |}.
Definition withCast (stateCh : bool) (logCh : list logEntry) (pc : castpc) (h : eventHub) : eventHub :=
  {| eh_state := eh_state h; eh_history := eh_history h; eh_logs := eh_logs h; eh_stateCh := stateCh; eh_logCh := logCh;
     eh_senders := eh_senders h; eh_refused := eh_refused h; eh_pc := pc; eh_subs := eh_subs h |}.

Definition subscribe (id : nat) (h : eventHub) : option eventHub :=
  match eh_subs h !! id with
  | Some _ => None
  | None => Some (withSubs (<[id := {| sb_replay := tailLogs logReplayOnJoin h; sb_first := None; sb_live := []; sb_ch := [];
                                       sb_from := length (eh_history h); sb_missed := [] |}]> (eh_subs h)) h)
  end.
Definition unsubscribe (id : nat) (h : eventHub) : eventHub := withSubs (delete id (eh_subs h)) h.

Definition offer (f : frame) (s : subscriber) : subscriber :=
  let full := (subscriberBufLen <=? length (sb_ch s))%nat in
  {| sb_replay := sb_replay s; sb_first := sb_first s; sb_live := sb_live s; sb_ch := if full then sb_ch s else sb_ch s ++ [f];
     sb_from := sb_from s; sb_missed := if full then sb_missed s ++ [f] else sb_missed s |}.
Definition publish (f : frame) (h : eventHub) : eventHub := withSubs (offer f <$> eh_subs h) h.

(** [broadcastLoop]: the select, the snapshot, the publication. *)
Definition castState (h : eventHub) : option eventHub :=
  match eh_pc h with
  | BWait => if eh_stateCh h then Some (withCast false (eh_logCh h) BTaken h) else None
  | _ => None
  end.
Definition castLog (h : eventHub) : option eventHub :=
  match eh_pc h, eh_logCh h with
  | BWait, e :: logCh => Some (withCast (eh_stateCh h) logCh (BFrame (FLog e)) h)
  | _, _ => None
  end.
Definition castNext (h : eventHub) : option eventHub :=
  match eh_pc h with
  | BWait => None
  | BTaken => Some (withCast (eh_stateCh h) (eh_logCh h) (BFrame (FState (eh_state h))) h)
  | BFrame f => Some (publish f (withCast (eh_stateCh h) (eh_logCh h) BWait h))
  end.

(** [handleEvents] after subscribing: the current state and the replay, then
    frame by frame. *)
Definition writeHead (id : nat) (h : eventHub) : option eventHub :=
  s ← eh_subs h !! id;
  match sb_first s with
  | Some _ => None
  | None => Some (withSubs (<[id := {| sb_replay := sb_replay s; sb_first := Some (eh_state h); sb_live := sb_live s; sb_ch := sb_ch s;
                                       sb_from := sb_from s; sb_missed := sb_missed s |}]> (eh_subs h)) h)
  end.
Definition writeFrame (id : nat) (h : eventHub) : option eventHub :=
  s ← eh_subs h !! id;
  match sb_first s, sb_ch s with
  | Some _, f :: ch => Some (withSubs (<[id := {| sb_replay := sb_replay s; sb_first := sb_first s; sb_live := sb_live s ++ [f]; sb_ch := ch;
                                                  sb_from := sb_from s; sb_missed := sb_missed s |}]> (eh_subs h)) h)
  | _, _ => None
  end.

(** All the client has been sent. *)
Definition received (s : subscriber) : list frame :=
  match sb_first s with Some x => FState x :: map FLog (sb_replay s) ++ sb_live s | None => [] end.

Inductive hubEvent :=
| EvState (s : Snapshot) | EvLog (line : Line) | EvSend (i : nat) | EvCastState | EvCastLog | EvCastNext
| EvSubscribe (id : nat) | EvHead (id : nat) | EvFrame (id : nat) | EvUnsubscribe (id : nat).

Definition hubStep (e : hubEvent) (h : eventHub) : option eventHub :=
  match e with
  | EvState s => Some (signalState s h)
  | EvLog line => Some (appendLog line h)
  | EvSend i => sendLog i h
  | EvCastState => castState h
  | EvCastLog => castLog h
  | EvCastNext => castNext h
  | EvSubscribe id => subscribe id h
  | EvHead id => writeHead id h
  | EvFrame id => writeFrame id h
  | EvUnsubscribe id => Some (unsubscribe id h)
  end.
Fixpoint hubRun (l : list hubEvent) (h : eventHub) : option eventHub :=
  match l with [] => Some h | e :: l => h ← hubStep e h; hubRun l h end.

(** * The newest state *)
Definition stateOf (f : frame) : option Snapshot := match f with FState s => Some s | FLog _ => None end.
Definition lastState (l : list frame) : option Snapshot := last (omap stateOf l).

(** A broadcast of the current state is under way. *)
Definition announced (h : eventHub) : Prop :=
  eh_stateCh h = true ∨ eh_pc h = BTaken ∨ eh_pc h = BFrame (FState (eh_state h)).

(** The last state sent or queued. *)
Definition shown (s : subscriber) : option Snapshot := lastState (received s ++ sb_ch s).

Record fresh (h : eventHub) : Prop := {
  fr_frame : ∀ s, eh_pc h = BFrame (FState s) → s = eh_state h ∨ eh_stateCh h = true;
  fr_subs : ∀ id s, eh_subs h !! id = Some s → sb_missed s = [] →
    ∀ x, shown s = Some x → x = eh_state h ∨ announced h;
  fr_live : ∀ id s, eh_subs h !! id = Some s → sb_first s = None → sb_live s = []
}.

Lemma lastState_app l k : lastState (l ++ k) = match lastState k with Some s => Some s | None => lastState l end.
Proof. unfold lastState. rewrite omap_app, last_app. by destruct (last (omap stateOf k)). Qed.

Lemma lastState_logs (l : list logEntry) : lastState (map FLog l) = None.
Proof. unfold lastState. by induction l. Qed.

Lemma shown_offer f s : sb_missed (offer f s) = [] → shown (offer f s) = match stateOf f with Some x => Some x | None => shown s end ∧ sb_missed s = [].
Proof.
  unfold offer. destruct (_ <=? _)%nat; cbn; [by destruct (sb_missed s)|]. intros Hm. split; [|done].
  unfold shown, received. cbn. rewrite app_assoc, lastState_app. by destruct f.
Qed.

Lemma castState_inv h h' : castState h = Some h' → eh_pc h = BWait ∧ eh_stateCh h = true ∧ h' = withCast false (eh_logCh h) BTaken h.
Proof. unfold castState. destruct (eh_pc h), (eh_stateCh h); (done || by intros [= <-]). Qed.

Lemma fresh_same h h' : fresh h → eh_state h' = eh_state h → eh_stateCh h' = eh_stateCh h → eh_pc h' = eh_pc h →
  (∀ id s', eh_subs h' !! id = Some s' → sb_missed s' = [] → shown s' = Some (eh_state h) ∨ shown s' = None ∨
    ∃ s, eh_subs h !! id = Some s ∧ sb_missed s = [] ∧ shown s' = shown s) →
  (∀ id s', eh_subs h' !! id = Some s' → sb_first s' = None → sb_live s' = []) → fresh h'.
Proof.
  intros [Hf Hs _] E1 E2 E3 Hsub Hl'. split; rewrite ?E1, ?E2, ?E3; [exact Hf| |exact Hl']. intros id s' Hid Hm x Hx. unfold announced. rewrite E1, E2, E3.
  destruct (Hsub id s' Hid Hm) as [E|[E|(s&Hl&Hm'&E)]]; rewrite E in Hx; [injection Hx as <-; by left|done|]. by apply (Hs id s Hl Hm' x).
Qed.

Lemma fresh_step e h h' : fresh h → hubStep e h = Some h' → fresh h'.
Proof.
  intros Hfr Hstep. pose proof Hfr as [Hf Hs Hq]. unfold announced in Hs. destruct e as [x|line|i| | | |id|id|id|id]; cbn [hubStep] in Hstep.
  - injection Hstep as <-. split; cbn; [by right| |done]. intros id s Hid Hm y Hy. right. by left.
  - injection Hstep as <-. apply (fresh_same h); try done; cbn; intros id s Hid Hm; first [by apply (Hq id)|right; right; by exists s].
  - unfold sendLog in Hstep. destruct (eh_senders h !! i); cbn in Hstep; [|done]. injection Hstep as <-. apply (fresh_same h); try done;
    cbn; intros id s Hid Hm; first [by apply (Hq id)|right; right; by exists s].
  - apply castState_inv in Hstep as (Hpc & Hst & ->). split; cbn; [done| |done]. intros id s Hid Hm y Hy. right. right. by left.
  - unfold castLog in Hstep. destruct (eh_pc h) eqn:Epc, (eh_logCh h); try done. injection Hstep as <-. split; cbn; [done| |done].
    intros id s Hid Hm y Hy. destruct (Hs id s Hid Hm y Hy) as [?|[?|[?|?]]]; [by left|right; by left|done..].
  - unfold castNext in Hstep. destruct (eh_pc h) as [| |f] eqn:Epc; [done|injection Hstep as <-|injection Hstep as <-].
    + split; cbn; [intros s [= <-]; by left| |done]. intros id s Hid Hm y Hy. right. right. by right.
    + split; cbn; [done| |intros id s' Hid; rewrite lookup_fmap in Hid; destruct (eh_subs h !! id) as [s|] eqn:Es; cbn in Hid; [injection Hid as <-; exact (Hq id s Es)|done]].
      intros id s' Hid Hm y Hy. rewrite lookup_fmap in Hid. destruct (eh_subs h !! id) as [s|] eqn:Es; cbn in Hid; [|done].
      injection Hid as <-. destruct (shown_offer f s Hm) as [E Hm']. rewrite E in Hy. destruct f as [x|e]; cbn in Hy.
      * injection Hy as <-. destruct (Hf x eq_refl); [by left|right; by left].
      * destruct (Hs id s Es Hm' y Hy) as [?|[?|[?|?]]]; [by left|right; by left|done..].
  - unfold subscribe in Hstep. destruct (eh_subs h !! id); [done|]. injection Hstep as <-. apply (fresh_same h); try done; cbn;
    intros id' s' [(<- & <-)|(Hne & Hid)]%lookup_insert_Some Hm; [right; by left|right; right; by exists s'|by cbn in *; congruence|by apply (Hq id')].
  - unfold writeHead in Hstep. destruct (eh_subs h !! id) as [s|] eqn:Es; cbn in Hstep; [|done]. destruct (sb_first s) eqn:Ef; [done|]. injection Hstep as <-.
    apply (fresh_same h); try done; cbn; intros id' s' [(<- & <-)|(Hne & Hid)]%lookup_insert_Some Hm; [|right; right; by exists s'|by cbn in *; congruence|by apply (Hq id')].
    unfold shown, received. cbn [sb_first sb_ch sb_replay sb_live] in *. rewrite (Hq id s Es Ef), app_nil_r, lastState_app. destruct (lastState (sb_ch s)) eqn:El.
    + right; right. exists s. rewrite Ef. done.
    + left. change (FState (eh_state h) :: map FLog (sb_replay s)) with ([FState (eh_state h)] ++ map FLog (sb_replay s)).
      by rewrite lastState_app, lastState_logs.
  - unfold writeFrame in Hstep. destruct (eh_subs h !! id) as [s|] eqn:Es; cbn in Hstep; [|done]. destruct (sb_first s) eqn:Ef; [|done].
    destruct (sb_ch s) as [|f ch] eqn:Ech; [done|]. injection Hstep as <-.
    apply (fresh_same h); try done; cbn; intros id' s' [(<- & <-)|(Hne & Hid)]%lookup_insert_Some Hm; [|right; right; by exists s'|by cbn in *; congruence|by apply (Hq id')].
    right; right. exists s. split_and!; [done|done|]. unfold shown, received. cbn [sb_first sb_ch sb_replay sb_live]. rewrite Ef, Ech. f_equal. cbn [app]. by rewrite <- !app_assoc.
  - injection Hstep as <-. apply (fresh_same h); try done; cbn; intros id' s' [Hne Hid]%lookup_delete_Some Hm; first [by apply (Hq id')|right; right; by exists s'].
Qed.

Lemma fresh_run l : ∀ h h', fresh h → hubRun l h = Some h' → fresh h'.
Proof.
  induction l as [|e l IH]; intros h h' H; cbn; [by intros [= <-]|]. intros (h1&H1&H2)%bind_Some. by eapply IH, H2; eapply fresh_step.
Qed.
Lemma fresh_new s : fresh (newEventHub s).
Proof. by split. Qed.

(** * The lines *)
Definition numbered (l : list Line) : list logEntry := imap pair l.
Definition logOf (f : frame) : option logEntry := match f with FLog e => Some e | FState _ => None end.
Definition casting (pc : castpc) : list logEntry := match pc with BFrame (FLog e) => [e] | _ => [] end.

(** Lines between the ring and the subscribers; what a subscriber was sent or
    will be; what its channel refused. *)
Definition flight (h : eventHub) : list logEntry := eh_senders h ++ eh_logCh h ++ casting (eh_pc h).
Definition streamed (s : subscriber) : list logEntry := omap logOf (sb_live s ++ sb_ch s).
Definition missed (s : subscriber) : list logEntry := omap logOf (sb_missed s).

Record subOK (history : list Line) (fl refused : list logEntry) (s : subscriber) : Prop := {
  so_from : (sb_from s ≤ length history)%nat;
  so_replay : sb_replay s = lastN logReplayOnJoin (take (sb_from s) (numbered history));
  so_once : NoDup (streamed s ++ fl);
  so_true : ∀ e, e ∈ streamed s → history !! e.1 = Some e.2;
  so_all : ∀ i x, (sb_from s ≤ i)%nat → history !! i = Some x → (i, x) ∈ streamed s ++ fl ++ refused ++ missed s
}.

Record lined (h : eventHub) : Prop := {
  ln_ring : eh_logs h = lastN logRingCapacity (numbered (eh_history h));
  ln_true : ∀ e, e ∈ flight h → eh_history h !! e.1 = Some e.2;
  ln_once : NoDup (flight h);
  ln_subs : ∀ id s, eh_subs h !! id = Some s → subOK (eh_history h) (flight h) (eh_refused h) s
}.

Lemma numbered_snoc l x : numbered (l ++ [x]) = numbered l ++ [(length l, x)].
Proof. unfold numbered. rewrite imap_app. cbn. by rewrite Nat.add_0_r. Qed.
Lemma length_numbered l : length (numbered l) = length l.
Proof. apply length_imap. Qed.

(** A subscriber that was not touched, when lines moved. *)
Lemma subOK_perm history fl fl' refused s : fl ≡ₚ fl' → subOK history fl refused s → subOK history fl' refused s.
Proof.
  intros E [H1 H2 H3 H4 H5]. split; try done.
  - by rewrite <- E.
  - intros i x Hi Hx. specialize (H5 i x Hi Hx). by rewrite <- E.
Qed.

(** A line that was refused on its way. *)
Lemma subOK_refused history fl fl' refused e s : fl ≡ₚ e :: fl' → subOK history fl refused s → subOK history fl' (refused ++ [e]) s.
Proof.
  intros E [H1 H2 H3 H4 H5]. split; try done.
  - rewrite E, <- Permutation_middle in H3. by inversion H3.
  - intros i x Hi Hx. specialize (H5 i x Hi Hx). rewrite E in H5. rewrite !elem_of_app, !elem_of_cons in *. tauto.
Qed.

(** A line that was just logged. *)
Lemma subOK_logged history fl fl' refused x s : fl' ≡ₚ (length history, x) :: fl → (∀ e, e ∈ fl → history !! e.1 = Some e.2) →
  subOK history fl refused s → subOK (history ++ [x]) fl' refused s.
Proof.
  intros E Hfl [H1 H2 H3 H4 H5].
  assert (Hnew : ∀ y, history !! length history = Some y → False) by (intros y Hy; by rewrite lookup_ge_None_2 in Hy).
  split.
  - rewrite length_app. lia.
  - by rewrite numbered_snoc, take_app_le by (by rewrite length_numbered).
  - rewrite E, <- Permutation_middle. constructor; [|done]. intros [H|H]%elem_of_app; [apply H4 in H|apply Hfl in H]; by apply Hnew in H.
  - intros e He. apply lookup_app_l_Some, H4, He.
  - intros i y Hi Hy. rewrite E. apply lookup_app_Some in Hy as [Hy|[Hge Hy]].
    + specialize (H5 i y Hi Hy). rewrite !elem_of_app, !elem_of_cons in *. tauto.
    + apply list_lookup_singleton_Some in Hy as [Hi' <-]. rewrite !elem_of_app, elem_of_cons. right; left; left. f_equal. lia.
Qed.

(** A line that is published. *)
Lemma offer_log e s : (streamed (offer (FLog e) s) = streamed s ∧ missed (offer (FLog e) s) = missed s ++ [e]) ∨
  (streamed (offer (FLog e) s) = streamed s ++ [e] ∧ missed (offer (FLog e) s) = missed s).
Proof.
  unfold offer, streamed, missed. destruct (_ <=? _)%nat; cbn; [left|right]; rewrite ?app_assoc, !omap_app; cbn; by rewrite ?omap_app, ?app_nil_r.
Qed.
Lemma offer_state x s : streamed (offer (FState x) s) = streamed s ∧ missed (offer (FState x) s) = missed s.
Proof.
  unfold offer, streamed, missed. destruct (_ <=? _)%nat; cbn; rewrite ?app_assoc, !omap_app; cbn; by rewrite ?omap_app, ?app_nil_r.
Qed.
Lemma offer_fixed f s : sb_from (offer f s) = sb_from s ∧ sb_replay (offer f s) = sb_replay s.
Proof. done. Qed.

Lemma subOK_offer_log history fl fl' refused e s : fl ≡ₚ e :: fl' → history !! e.1 = Some e.2 →
  subOK history fl refused s → subOK history fl' refused (offer (FLog e) s).
Proof.
  intros E He [H1 H2 H3 H4 H5]. rewrite E in H3. destruct (offer_log e s) as [[E1 E2]|[E1 E2]]; split; rewrite ?E1, ?E2; try done.
  - rewrite <- Permutation_middle in H3. by inversion H3.
  - intros i x Hi Hx. specialize (H5 i x Hi Hx). rewrite E in H5. rewrite !elem_of_app, !elem_of_cons in *. tauto.
  - by rewrite <- app_assoc.
  - intros e' [H|H%list_elem_of_singleton]%elem_of_app; [by apply H4|by subst].
  - intros i x Hi Hx. specialize (H5 i x Hi Hx). rewrite E in H5. rewrite !elem_of_app, !elem_of_cons in *. tauto.
Qed.
Lemma subOK_offer_state history fl refused x s : subOK history fl refused s → subOK history fl refused (offer (FState x) s).
Proof. intros [H1 H2 H3 H4 H5]. destruct (offer_state x s) as [E1 E2]. by split; rewrite ?E1, ?E2. Qed.

(** The subscribers of the next hub, against those of this one. *)
Lemma lined_subs h h' : lined h → eh_history h' = eh_history h → eh_logs h' = eh_logs h →
  (∀ e, e ∈ flight h' → e ∈ flight h) → NoDup (flight h') →
  (∀ id s', eh_subs h' !! id = Some s' → subOK (eh_history h) (flight h') (eh_refused h') s') → lined h'.
Proof.
  intros [H1 H2 H3 H4] E1 E2 Hin Hnd Hs. split; rewrite ?E1, ?E2; try done. intros e He. by apply H2, Hin.
Qed.

Lemma lined_perm h h' : lined h → eh_history h' = eh_history h → eh_logs h' = eh_logs h → flight h ≡ₚ flight h' → eh_refused h' = eh_refused h →
  (∀ id s', eh_subs h' !! id = Some s' → subOK (eh_history h) (flight h) (eh_refused h) s' ) → lined h'.
Proof.
  intros H E1 E2 Ef E3 Hs. apply (lined_subs h); try done.
  - intros e He. by rewrite Ef.
  - rewrite <- Ef. apply H.
  - intros id s' Hid. rewrite E3. eapply subOK_perm; [exact Ef|]. by eapply Hs.
Qed.

(** A frame or the head is written: what was streamed stays. *)
Lemma subOK_written history fl refused s s' : subOK history fl refused s → sb_from s' = sb_from s → sb_replay s' = sb_replay s →
  streamed s' = streamed s → sb_missed s' = sb_missed s → subOK history fl refused s'.
Proof. intros [H1 H2 H3 H4 H5] E1 E2 E3 E4. unfold missed in *. by split; unfold missed; rewrite ?E1, ?E2, ?E3, ?E4. Qed.

Lemma tailLogs_lastN n h : tailLogs n h = lastN n (eh_logs h).
Proof. unfold tailLogs, lastN. destruct (Nat.ltb_spec (length (eh_logs h)) n); f_equal; lia. Qed.

Lemma lined_append line h : lined h → lined (appendLog line h).
Proof.
  intros [H1 H2 H3 H4]. set (e := (length (eh_history h), line)).
  assert (Ef : flight (appendLog line h) ≡ₚ e :: flight h).
  { unfold flight, appendLog. cbn. rewrite <- app_assoc. cbn [app]. by rewrite <- Permutation_middle. }
  assert (Hnew : e ∉ flight h) by (intros H; apply H2 in H; cbn in H; by rewrite lookup_ge_None_2 in H).
  split.
  - unfold appendLog. cbn [eh_logs eh_history]. rewrite numbered_snoc, <- lastN_app, <- H1. fold e. unfold lastN.
    destruct (Nat.ltb_spec 0 (length (eh_logs h ++ [e]) - logRingCapacity)) as [_|Hle]; [done|]. apply Nat.le_0_r in Hle. by rewrite Hle.
  - intros e' He. rewrite Ef in He. apply elem_of_cons in He as [->|He]; cbn [appendLog eh_history].
    + cbn. by rewrite lookup_app_r, Nat.sub_diag.
    + by apply lookup_app_l_Some, H2.
  - rewrite Ef. by constructor.
  - intros id s Hid. eapply subOK_logged; [exact Ef|exact H2|]. by apply H4 in Hid.
Qed.

Lemma lined_send i h h' : lined h → sendLog i h = Some h' → lined h'.
Proof.
  intros H Hs. pose proof H as [H1 H2 H3 H4]. apply bind_Some in Hs as (e & Ei & Hs). cbv zeta in Hs. revert Hs.
  pose proof (delete_Permutation _ _ _ Ei) as Ep. set (rest := delete i (eh_senders h)) in *. destruct (logChLen <=? length (eh_logCh h))%nat; intros [= <-].
  - match goal with |- lined ?k => assert (Ef : flight h ≡ₚ e :: flight k) by (unfold flight; cbn [eh_senders eh_logCh eh_pc]; by rewrite Ep) end.
    apply (lined_subs h); try done.
    + intros e' He. rewrite Ef. by apply elem_of_cons; right.
    + rewrite Ef in H3. by inversion H3.
    + intros id s Hid. eapply subOK_refused; [exact Ef|]. by apply H4 in Hid.
  - apply (lined_perm h); try done. unfold flight. cbn [eh_senders eh_logCh eh_pc]. rewrite Ep, <- app_assoc. cbn [app].
    by rewrite <- !Permutation_middle.
Qed.

Lemma lined_publish f h : lined h → eh_pc h = BFrame f → lined (publish f (withCast (eh_stateCh h) (eh_logCh h) BWait h)).
Proof.
  intros H Epc. pose proof H as [H1 H2 H3 H4].
  assert (Hsub : ∀ id s', eh_subs (publish f (withCast (eh_stateCh h) (eh_logCh h) BWait h)) !! id = Some s' →
    ∃ s, eh_subs h !! id = Some s ∧ s' = offer f s).
  { intros id s' Hid. cbn in Hid. rewrite lookup_fmap in Hid. destruct (eh_subs h !! id) as [s|]; cbn in Hid; [|done]. injection Hid as <-. by exists s. }
  destruct f as [x|e].
  - apply (lined_perm h); try done.
    + unfold flight. cbn. by rewrite Epc.
    + intros id s' Hid. destruct (Hsub id s' Hid) as (s & Es & ->). by apply subOK_offer_state, (H4 id).
  - assert (Ef : flight h ≡ₚ e :: flight (publish (FLog e) (withCast (eh_stateCh h) (eh_logCh h) BWait h))).
    { unfold flight. cbn. rewrite Epc. cbn. rewrite app_nil_r, app_assoc. apply Permutation_app_comm. }
    assert (He : e ∈ flight h) by (rewrite Ef; apply elem_of_cons; by left).
    apply (lined_subs h); try done.
    + intros e' He'. rewrite Ef. by apply elem_of_cons; right.
    + rewrite Ef in H3. by inversion H3.
    + intros id s' Hid. destruct (Hsub id s' Hid) as (s & Es & ->). apply subOK_offer_log with (fl := flight h); [done|by apply H2|by apply (H4 id)].
Qed.

Lemma lined_step e h h' : lined h → hubStep e h = Some h' → lined h'.
Proof.
  intros H Hstep. pose proof H as [H1 H2 H3 H4]. destruct e as [x|line|i| | | |id|id|id|id]; cbn [hubStep] in Hstep.
  - injection Hstep as <-. by apply (lined_perm h).
  - injection Hstep as <-. by apply lined_append.
  - by eapply lined_send.
  - apply castState_inv in Hstep as (Hpc & Hst & ->). apply (lined_perm h); try done. unfold flight. cbn. by rewrite Hpc.
  - unfold castLog in Hstep. destruct (eh_pc h) eqn:Epc, (eh_logCh h) as [|e ch] eqn:Ech; try done. injection Hstep as <-.
    apply (lined_perm h); try done. unfold flight. cbn. rewrite Epc, Ech. cbn. rewrite app_nil_r. apply Permutation_app_head. by rewrite Permutation_cons_append.
  - unfold castNext in Hstep. destruct (eh_pc h) as [| |f] eqn:Epc; [done|injection Hstep as <-|injection Hstep as <-].
    + apply (lined_perm h); try done. unfold flight. cbn. by rewrite Epc.
    + by apply lined_publish.
  - unfold subscribe in Hstep. destruct (eh_subs h !! id); [done|]. injection Hstep as <-. apply (lined_perm h); try done. cbn.
    intros id' s' [(<- & <-)|(Hne & Hid)]%lookup_insert_Some; [|by apply (H4 id')]. split; cbn.
    + done.
    + rewrite tailLogs_lastN, H1, lastN_lastN by (unfold logReplayOnJoin, logRingCapacity; lia). by rewrite <- length_numbered, firstn_all.
    + done.
    + by intros e ?%elem_of_nil.
    + intros i x Hi Hx. by rewrite lookup_ge_None_2 in Hx.
  - unfold writeHead in Hstep. destruct (eh_subs h !! id) as [s|] eqn:Es; cbn in Hstep; [|done]. destruct (sb_first s) eqn:Ef; [done|]. injection Hstep as <-.
    apply (lined_perm h); try done; cbn. intros id' s' [(<- & <-)|(Hne & Hid)]%lookup_insert_Some; [|by apply (H4 id')].
    by eapply subOK_written; [apply (H4 id s Es)|..].
  - unfold writeFrame in Hstep. destruct (eh_subs h !! id) as [s|] eqn:Es; cbn in Hstep; [|done]. destruct (sb_first s) eqn:Ef; [|done].
    destruct (sb_ch s) as [|f ch] eqn:Ech; [done|]. injection Hstep as <-.
    apply (lined_perm h); try done; cbn. intros id' s' [(<- & <-)|(Hne & Hid)]%lookup_insert_Some; [|by apply (H4 id')].
    eapply subOK_written; [apply (H4 id s Es)|..]; try done. unfold streamed. cbn. by rewrite Ech, <- app_assoc.
  - injection Hstep as <-. apply (lined_perm h); try done; cbn. intros id' s' [Hne Hid]%lookup_delete_Some. by apply (H4 id').
Qed.

Lemma lined_run l : ∀ h h', lined h → hubRun l h = Some h' → lined h'.
Proof.
  induction l as [|e l IH]; intros h h' H; cbn; [by intros [= <-]|]. intros (h1&Hs1&Hs2)%bind_Some. by eapply IH, Hs2; eapply lined_step.
Qed.
Lemma lined_new s : lined (newEventHub s).
Proof. split; cbn; try done; [by intros e ?%elem_of_nil|constructor]. Qed.

(** ** Draining *)
Lemma eventRun_app l k h : hubRun (l ++ k) h = hubRun l h ≫= hubRun k.
Proof. revert h. induction l as [|e l IH]; intros h; cbn; [done|]. destruct (hubStep e h); cbn; auto. Qed.

(** The broadcaster's steps and the handler's of one subscriber. *)
Definition serves (id : nat) (e : hubEvent) : bool :=
  match e with EvCastState | EvCastNext => true | EvHead i | EvFrame i => (i =? id)%nat | _ => false end.

(** [h'] differs from [h] by such steps, and the subscriber missed nothing. *)
Definition sameCast (h h' : eventHub) : Prop := eh_state h' = eh_state h ∧ eh_stateCh h' = eh_stateCh h ∧ eh_pc h' = eh_pc h.

Lemma drain id ch : ∀ h s x, eh_subs h !! id = Some s → sb_first s = Some x → sb_ch s = ch → sb_missed s = [] →
  ∃ h' s', hubRun (replicate (length ch) (EvFrame id)) h = Some h' ∧ eh_subs h' !! id = Some s' ∧ sb_first s' = Some x ∧ sb_ch s' = [] ∧
    sb_missed s' = [] ∧ sameCast h h'.
Proof.
  induction ch as [|f ch IH]; intros h s x Hs Hf Hc Hm; cbn; [by exists h, s|]. unfold writeFrame. rewrite Hs. cbn. rewrite Hf, Hc. cbn.
  match goal with |- context [hubRun _ ?k] => set (h1 := k) end.
  destruct (IH h1 _ x (lookup_insert_eq _ _ _) eq_refl eq_refl Hm) as (h'&s'&H1&H2&H3&H4&H5&H6). by exists h', s'.
Qed.

(** Steps to the broadcaster's rest. *)
Definition castsLeft (h : eventHub) : nat :=
  (if eh_stateCh h then 3 else 0) + match eh_pc h with BWait => 0 | BTaken => 2 | BFrame _ => 1 end.

Lemma settle id n : ∀ h s, (castsLeft h ≤ n)%nat → eh_subs h !! id = Some s → sb_missed s = [] → (length (sb_ch s) + n ≤ subscriberBufLen)%nat →
  ∃ l h' s', hubRun l h = Some h' ∧ forallb (serves id) l = true ∧ (length l ≤ n)%nat ∧ eh_subs h' !! id = Some s' ∧ sb_first s' = sb_first s ∧
    sb_missed s' = [] ∧ (length (sb_ch s') ≤ length (sb_ch s) + n)%nat ∧ eh_pc h' = BWait ∧ eh_stateCh h' = false ∧ eh_state h' = eh_state h.
Proof.
  induction n as [|n IH]; intros h s Hn Hs Hm Hl; unfold castsLeft in Hn.
  { exists [], h, s. destruct (eh_stateCh h), (eh_pc h); try (cbn in Hn; lia). split_and!; (done || lia). }
  destruct (eh_pc h) as [| |f] eqn:Epc.
  - destruct (eh_stateCh h) eqn:Ech; cbn in Hn.
    + destruct (IH (withCast false (eh_logCh h) BTaken h) s) as (l&h'&s'&H1&H2&H3&H4&H5&H6&H7&H8); [unfold castsLeft; cbn; lia|done|done|lia|].
      exists (EvCastState :: l), h', s'. cbn. unfold castState. rewrite Epc, Ech. cbn. split_and!; try done; try lia; apply H8.
    + exists [], h, s. split_and!; (done || lia).
  - destruct (IH (withCast (eh_stateCh h) (eh_logCh h) (BFrame (FState (eh_state h))) h) s) as (l&h'&s'&H1&H2&H3&H4&H5&H6&H7&H8);
      [unfold castsLeft; cbn; lia|done|done|lia|].
    exists (EvCastNext :: l), h', s'. cbn. unfold castNext. rewrite Epc. cbn. split_and!; try done; try lia; apply H8.
  - assert (Hoff : sb_missed (offer f s) = [] ∧ length (sb_ch (offer f s)) = S (length (sb_ch s))).
    { unfold offer. cbn [sb_missed sb_ch]. rewrite (proj2 (Nat.leb_gt _ _)) by lia. rewrite length_app. cbn. split; [done|lia]. }
    destruct (IH (publish f (withCast (eh_stateCh h) (eh_logCh h) BWait h)) (offer f s)) as (l&h'&s'&H1&H2&H3&H4&H5&H6&H7&H8);
      [unfold castsLeft; cbn; lia|cbn; by rewrite lookup_fmap, Hs|apply Hoff|lia|].
    exists (EvCastNext :: l), h', s'. cbn. unfold castNext. rewrite Epc. cbn. split_and!; try done; try lia; apply H8.
Qed.

Lemma drains_serve id n : forallb (serves id) (replicate n (EvFrame id)) = true.
Proof. induction n; cbn; [done|]. by rewrite Nat.eqb_refl. Qed.

(** At rest, what was shown last is the current state. *)
Lemma rest_shows h id s x : fresh h → eh_subs h !! id = Some s → sb_first s = Some x → sb_missed s = [] → sb_ch s = [] → ¬ announced h →
  lastState (received s) = Some (eh_state h).
Proof.
  intros [_ Hs _] Hid Hf Hm Hc Hn. specialize (Hs id s Hid Hm). unfold shown in Hs. rewrite Hc, app_nil_r in Hs.
  destruct (lastState (received s)) as [y|] eqn:E; [destruct (Hs y eq_refl) as [->|]; done|]. exfalso. revert E. unfold received. rewrite Hf.
  change (FState x :: map FLog (sb_replay s) ++ sb_live s) with ([FState x] ++ map FLog (sb_replay s) ++ sb_live s).
  rewrite lastState_app. by destruct (lastState _).
Qed.

(** C22: the newest state wins: a client that missed no frame and has been sent
    all of its channel has been shown the engine's current state last, unless its
    broadcast is under way; and from every reachable state a bounded run of the
    broadcaster and of the client's own handler gets there, whatever they were
    doing. *)
Theorem newest_state l s0 h id s : hubRun l (newEventHub s0) = Some h → eh_subs h !! id = Some s → sb_missed s = [] →
  (sb_first s ≠ None → sb_ch s = [] → ¬ announced h → lastState (received s) = Some (eh_state h)) ∧
  ∃ l' h' s', hubRun l' h = Some h' ∧ forallb (serves id) l' = true ∧ (length l' ≤ length (sb_ch s) + 12)%nat ∧
    eh_subs h' !! id = Some s' ∧ lastState (received s') = Some (eh_state h).
Proof.
  intros Hrun Hid Hm. pose proof (fresh_run _ _ _ (fresh_new s0) Hrun) as Hfr. split.
  { intros Hf Hc Hn. destruct (sb_first s) as [x|] eqn:E; [|done]. exact (rest_shows h id s x Hfr Hid E Hm Hc Hn). }
  assert (Hhead : ∃ l1 h1 s1 x, hubRun l1 h = Some h1 ∧ forallb (serves id) l1 = true ∧ (length l1 ≤ 1)%nat ∧ eh_subs h1 !! id = Some s1 ∧
    sb_first s1 = Some x ∧ sb_ch s1 = sb_ch s ∧ sb_missed s1 = [] ∧ sameCast h h1).
  { destruct (sb_first s) as [x|] eqn:Ef; [exists [], h, s, x; split_and!; (done || (cbn; lia))|].
    exists [EvHead id]. cbn. unfold writeHead. rewrite Hid. cbn. rewrite Ef. cbn. do 3 eexists. rewrite Nat.eqb_refl.
    split_and!; [done|done|lia|apply lookup_insert_eq|done..]. }
  destruct Hhead as (l1&h1&s1&x&Hr1&Hs1&Hl1&Hid1&Hf1&Hc1&Hm1&E1&_&_).
  destruct (drain id (sb_ch s) h1 s1 x) as (h2&s2&Hr2&Hid2&Hf2&Hc2&Hm2&E2&_); [done..|].
  destruct (settle id 5 h2 s2) as (l3&h3&s3&Hr3&Hs3&Hl3&Hid3&Hf3&Hm3&Hc3&Hpc3&Hst3&E3);
    [unfold castsLeft; destruct (eh_stateCh h2), (eh_pc h2); lia|done|done|rewrite Hc2; cbn; unfold subscriberBufLen; lia|].
  rewrite Hf2 in Hf3. rewrite Hc2 in Hc3. cbn in Hc3.
  destruct (drain id (sb_ch s3) h3 s3 x) as (h4&s4&Hr4&Hid4&Hf4&Hc4&Hm4&E4&E5&E6); [done..|].
  set (run := l1 ++ replicate (length (sb_ch s)) (EvFrame id) ++ l3 ++ replicate (length (sb_ch s3)) (EvFrame id)).
  assert (Hr : hubRun run h = Some h4) by (unfold run; rewrite eventRun_app, Hr1; cbn [mbind option_bind]; rewrite eventRun_app, Hr2; cbn [mbind option_bind]; by rewrite eventRun_app, Hr3).
  exists run, h4, s4. split_and!; [done|..|done|].
  - unfold run. rewrite !forallb_app, !drains_serve, Hs1, Hs3. done.
  - unfold run. rewrite !length_app, !length_replicate. lia.
  - assert (Hst : eh_state h4 = eh_state h) by congruence. rewrite <- Hst.
    eapply rest_shows; [by eapply fresh_run|done..|]. unfold announced. rewrite E5, E6, Hst3, Hpc3. by intros [?|[?|?]].
Qed.

(** C31: no line is lost between the replay and the stream, and none is streamed
    twice: the ring holds the last 2000 lines, the replay of a client is the last
    500 before it subscribed, what it is streamed are lines of the history, each
    once, and every line logged since it subscribed is streamed to it, on its
    way, or was refused by a full channel.  A line on its way when the client
    subscribed is in the replay and in the stream, so a client can be sent it
    twice. *)
Theorem no_line_lost l s0 h id s : hubRun l (newEventHub s0) = Some h → eh_subs h !! id = Some s →
  eh_logs h = lastN logRingCapacity (numbered (eh_history h)) ∧
  sb_replay s = lastN logReplayOnJoin (take (sb_from s) (numbered (eh_history h))) ∧
  NoDup (streamed s) ∧ (∀ e, e ∈ streamed s → eh_history h !! e.1 = Some e.2) ∧
  (∀ i x, (sb_from s ≤ i)%nat → eh_history h !! i = Some x → (i, x) ∈ streamed s ++ flight h ++ eh_refused h ++ missed s) ∧
  (∀ x, ∃ l' h' s', hubRun l' (newEventHub s0) = Some h' ∧ eh_history h' = [x] ∧ eh_subs h' !! 0%nat = Some s' ∧
     received s' = [FState s0; FLog (0%nat, x); FLog (0%nat, x)]).
Proof.
  intros Hrun Hid. pose proof (lined_run _ _ _ (lined_new s0) Hrun) as [H1 _ _ H4]. destruct (H4 id s Hid) as [_ Hr Ho Ht Ha]. split_and!; try done.
  - by apply NoDup_app in Ho as [? _].
  - intros x. exists [EvLog x; EvSubscribe 0; EvHead 0; EvSend 0; EvCastLog; EvCastNext; EvFrame 0]. do 2 eexists. split_and!; reflexivity.
Qed.
End hub.

(** * An instance *)
(** A client joins a running core; a state changes while its first frames are on
    their way. *)
Definition exampleEvents : list (@hubEvent nat nat) :=
  [EvLog 7; EvSend 0; EvState 1; EvSubscribe 4; EvCastState; EvCastNext; EvState 2; EvCastNext; EvLog 8; EvHead 4]%nat.
Definition exampleHub : @eventHub nat nat := default (newEventHub 0%nat) (hubRun exampleEvents (newEventHub 0%nat)).
Definition exampleSub : @subscriber nat nat :=
  default {| sb_replay := []; sb_first := None; sb_live := []; sb_ch := []; sb_from := 0; sb_missed := [] |} (eh_subs exampleHub !! 4%nat).

Lemma newest_state_witness : shown exampleSub = Some 1%nat ∧ ∃ l' h' s', hubRun l' exampleHub = Some h' ∧ eh_subs h' !! 4%nat = Some s' ∧
  lastState (received s') = Some 2%nat.
Proof.
  assert (H1 : hubRun exampleEvents (newEventHub 0%nat) = Some exampleHub) by (vm_compute; reflexivity).
  assert (H2 : eh_subs exampleHub !! 4%nat = Some exampleSub) by (vm_compute; reflexivity).
  assert (H3 : sb_missed exampleSub = []) by (vm_compute; reflexivity).
  assert (H4 : eh_state exampleHub = 2%nat) by (vm_compute; reflexivity).
  split; [vm_compute; reflexivity|].
  destruct (newest_state exampleEvents 0%nat exampleHub 4 exampleSub H1 H2 H3) as [_ (l'&h'&s'&Hr&_&_&Hs&Hl)].
  exists l', h', s'. rewrite H4 in Hl. auto.
Defined.

Lemma no_line_lost_witness : sb_replay exampleSub = [(0, 7)]%nat ∧ (1, 8)%nat ∈ streamed exampleSub ++ flight exampleHub ++ eh_refused exampleHub ++ missed exampleSub.
Proof.
  assert (H1 : hubRun exampleEvents (newEventHub 0%nat) = Some exampleHub) by (vm_compute; reflexivity).
  assert (H2 : eh_subs exampleHub !! 4%nat = Some exampleSub) by (vm_compute; reflexivity).
  destruct (no_line_lost exampleEvents 0%nat exampleHub 4 exampleSub H1 H2) as (_&_&_&_&H5&_).
  split; [vm_compute; reflexivity|]. apply H5; [vm_compute; lia|vm_compute; reflexivity].
Defined.

(** A client that reads too late can be left with an old state: 64 lines fill
    its channel, the frame of the last change is dropped, and nothing announces
    it again. *)
Definition slowClient : list (@hubEvent nat nat) :=
  ([EvSubscribe 0; EvHead 0] ++ concat (replicate 64 [EvLog 0; EvSend 0; EvCastLog; EvCastNext]) ++ [EvState 1; EvCastState; EvCastNext; EvCastNext] ++
   replicate 64 (EvFrame 0))%nat.
Example stale_state : match hubRun slowClient (newEventHub 0) with
  | Some h => eh_state h = 1 ∧ (eh_stateCh h = false ∧ eh_pc h = BWait) ∧
              match eh_subs h !! 0 with Some s => lastState (received s) = Some 0 ∧ sb_ch s = [] | None => False end
  | None => False end%nat.
Proof. vm_compute. auto. Qed.
