(* ===== verification/CoreApi.v ===== *)
(** The desktop core's loopback API (src/core: server.go, api.go, netwatch.go,
    tun_conflict.go, with connectcore's mode.go and dns.go): the token gate, the
    handlers, the settings that outlive the process, the heartbeat watchdog, the
    second instance's refusal and the monitor of the physical network.

    What the engine, the operating system and the disk answer during a request
    is the [world] of that request; JSON is a pair of parameters. *)
From stdpp Require Import base list list_numbers strings sorting sets.
From Stdlib Require Import ZArith Lia.
From S2P Require Import Prelude Codec Registration Ranking Punch Classify Ticket.

(** * The engine's settings *)
Inductive Mode := ModeProxy | ModeTUN.
#[global] Instance Mode_eq_dec : EqDecision Mode.
Proof. solve_decision. Defined.
Definition ModeString (m : Mode) : string := match m with ModeTUN => "tun" | ModeProxy => "proxy" end.

(** No servers are the defaults. *)
Record engine := { en_mode : Mode; en_dns : list string; en_ipv6Disabled : bool }.
Definition newEngine : engine := {| en_mode := ModeProxy; en_dns := []; en_ipv6Disabled := false |}.

(** [live]: whether a connection is installed. *)
Definition SetMode (live : bool) (m : Mode) (e : engine) : result string engine :=
  if live then Err "disconnect before changing the capture mode"%string
  else Ok {| en_mode := m; en_dns := en_dns e; en_ipv6Disabled := en_ipv6Disabled e |}.

Definition maxTunnelDNSServers : nat := 4.
Definition notLiteral (server : string) : string :=
  "DNS server " +:+ server +:+ " is not an IP literal; a hostname server has no bootstrap resolver".
Fixpoint firstHostname (servers : list string) : option string :=
  match servers with
  | [] => None
  | s :: servers => match ParseIP s with None => Some s | Some _ => firstHostname servers end
  end.
Definition SetTunnelDNS (live : bool) (servers : list string) (ipv6 : bool) (e : engine) : result string engine :=
  if (maxTunnelDNSServers <? length servers)%nat then Err "too many DNS servers"%string else
  match firstHostname servers with
  | Some s => Err (notLiteral s)
  | None =>
      if live then Err "disconnect before changing the tunnel DNS"%string
      else Ok {| en_mode := en_mode e; en_dns := servers; en_ipv6Disabled := negb ipv6 |}
  end.
Definition TunnelDNS (e : engine) : list string * bool := (en_dns e, negb (en_ipv6Disabled e)).

(** * The settings file *)
(** Absent fields are "", no servers and [None]. *)
Record persistedSettings := { ps_Mode : string; ps_DNSServers : list string; ps_DNSIPv6 : option bool }.
Definition noSettings : persistedSettings := {| ps_Mode := ""; ps_DNSServers := []; ps_DNSIPv6 := None |}.

(** * Requests *)
Inductive Status := StatusDisconnected | StatusPreparing | StatusConnecting | StatusConnected | StatusDisconnecting | StatusFailed.
#[global] Instance Status_eq_dec : EqDecision Status.
Proof. solve_decision. Defined.

Record connectionInfo := {
  ci_RelayID : string; ci_Label : string; ci_CountryCode : string; ci_Transport : string; ci_FrontID : string; ci_ProxyPort : Z
}.
Record controller := { ct_supported : bool; ct_describe : string; ct_clear : option string }.

Record world := {
  w_now : Z;
  w_status : Status; w_live : bool;
  w_relayLabel : option string; w_lastError : option string;
  w_tunMode : option string;                 (* tunModeAvailable's error *)
  w_tunConflict : option string;             (* tunDeviceConflict's error *)
  w_connect : option (string * bool);        (* Connect's error; whether it is ErrElevationRequired *)
  w_disconnect : option string;
  w_port : option Z;                         (* LocalProxyPort *)
  w_active : option connectionInfo;          (* ActiveConnectionInfo *)
  w_proxy : option controller;
  w_relays : result string nat;              (* RankedDirectory: how many entries *)
  w_tcping : result string nat;
  w_delay : result string Z;                 (* the probe or TestRelayDelay *)
  w_readable : bool; w_writable : bool       (* the settings file: read; written and renamed *)
}.

Record request := { r_token : string; r_method : string; r_path : string; r_body : option (list byte); r_query : string → string }.

Record stateSnapshot := {
  sn_Status : Status; sn_RelayLabel : option string; sn_LastError : option string; sn_Mode : string; sn_Proxy : option (string * Z);
  sn_Connection : option (connectionInfo * option Z); sn_Elevated : bool; sn_SystemProxy : string
}.

Inductive payload :=
| PError (code msg : string) | POk | PMode (mode : string) | PDNS (servers : list string) (ipv6 : bool) | PVersion (elevated : bool)
| PState (s : stateSnapshot) | PStream | PRelays (n : nat) | PResults (n : nat) | PDelay (relayID : string) (ms : Z) | PLogs (tail : Z) | PNone.
Record response := { rs_status : Z; rs_payload : payload }.

Definition writeError (status : Z) (code msg : string) : response := {| rs_status := status; rs_payload := PError code msg |}.
Definition writeJSON (p : payload) : response := {| rs_status := 200; rs_payload := p |}.

Section api.
Context {Bytes : Type} (Marshal : persistedSettings → Bytes) (Unmarshal : Bytes → option persistedSettings).
(** The bodies, decoded: an error has a text. *)
Context (decodeConnect : list byte → result string (string * string * string))
  (decodeMode : list byte → result string string)
  (decodeDNS : list byte → result string (list string * option bool))
  (decodeProxy : list byte → result string bool)
  (decodeTcping : list byte → result string (list string * Z))
  (decodeDelay : list byte → result string string).
#[local] Set Default Proof Using "Type".

Record core := {
  c_token : string; c_broker : string;
  c_engine : engine;
  c_file : option Bytes;                     (* settings.json *)
  c_lines : list string;                     (* what the API logged *)
  c_connectedAt : option Z;
  c_lastActivity : Z;
  c_shutdownReq : nat
}.

Definition withEngine (e : engine) (c : core) : core :=
  {| c_token := c_token c; c_broker := c_broker c; c_engine := e; c_file := c_file c; c_lines := c_lines c; c_connectedAt := c_connectedAt c;
     c_lastActivity := c_lastActivity c; c_shutdownReq := c_shutdownReq c |}.
Definition withFile (f : option Bytes) (c : core) : core :=
  {| c_token := c_token c; c_broker := c_broker c; c_engine := c_engine c; c_file := f; c_lines := c_lines c; c_connectedAt := c_connectedAt c;
     c_lastActivity := c_lastActivity c; c_shutdownReq := c_shutdownReq c |}.
Definition withConnectedAt (t : option Z) (c : core) : core :=
  {| c_token := c_token c; c_broker := c_broker c; c_engine := c_engine c; c_file := c_file c; c_lines := c_lines c; c_connectedAt := t;
     c_lastActivity := c_lastActivity c; c_shutdownReq := c_shutdownReq c |}.
Definition stamp (now : Z) (c : core) : core :=
  {| c_token := c_token c; c_broker := c_broker c; c_engine := c_engine c; c_file := c_file c; c_lines := c_lines c;
     c_connectedAt := c_connectedAt c; c_lastActivity := now; c_shutdownReq := c_shutdownReq c |}.
(** The channel holds two requests. *)
Definition requestShutdown (c : core) : core :=
  {| c_token := c_token c; c_broker := c_broker c; c_engine := c_engine c; c_file := c_file c; c_lines := c_lines c;
     c_connectedAt := c_connectedAt c; c_lastActivity := c_lastActivity c; c_shutdownReq := Nat.min 2 (S (c_shutdownReq c)) |}.
Definition appendLine (line : string) (c : core) : core :=
  {| c_token := c_token c; c_broker := c_broker c; c_engine := c_engine c; c_file := c_file c; c_lines := c_lines c ++ [line];
     c_connectedAt := c_connectedAt c; c_lastActivity := c_lastActivity c; c_shutdownReq := c_shutdownReq c |}.
Definition apiLog (text : string) (c : core) : core := appendLine ("api: " +:+ text) c.

Definition loadSettings (w : world) (c : core) : persistedSettings :=
  if w_readable w then default noSettings (c_file c ≫= Unmarshal) else noSettings.
Definition saveSettings (w : world) (s : persistedSettings) (c : core) : core :=
  if w_writable w then withFile (Some (Marshal s)) c else c.

Definition boolText (b : bool) : string := if b then "true" else "false".
Definition natText (n : nat) : string := text (FormatInt (Z.of_nat n)).
Definition StatusString (s : Status) : string :=
  match s with
  | StatusDisconnected => "disconnected" | StatusPreparing => "preparing" | StatusConnecting => "connecting" | StatusConnected => "connected"
  | StatusDisconnecting => "disconnecting" | StatusFailed => "failed"
  end.

Definition methodOnly (r : request) (method : string) (c : core) (k : response * core) : response * core :=
  if str_eqb (r_method r) method then k else (writeError 405 "" "method not allowed", c).

Definition maxBody : nat := 65536.
(** A body that may be missing or blank. *)
Definition optionalBody {A} (decode : list byte → result string A) (none : A) (r : request) : result string A :=
  match r_body r with
  | None => Ok none
  | Some data => let data := take maxBody data in if str_empty (TrimSpace (text data)) then Ok none else decode data
  end.
Definition requiredBody {A} (decode : list byte → result string A) (limit : nat) (r : request) : result string A :=
  decode (take limit (default [] (r_body r))).

Definition quoted (s : string) : string := String (chr 34) EmptyString +:+ s +:+ String (chr 34) EmptyString.
Definition badMode : string := "mode must be " +:+ quoted "proxy" +:+ " or " +:+ quoted "tun".

(** * The handlers *)
Definition snapshot (w : world) (c : core) : stateSnapshot * core :=
  let connectedAt := if bool_decide (w_status w = StatusConnected)
                     then match c_connectedAt c with None => Some (w_now w) | Some t => Some t end else None in
  ({| sn_Status := w_status w; sn_RelayLabel := w_relayLabel w; sn_LastError := w_lastError w; sn_Mode := ModeString (en_mode (c_engine c));
      sn_Proxy := match w_port w with Some port => if 0 <? port then Some ("127.0.0.1"%string, port) else None | None => None end;
      sn_Connection := (λ i, (i, connectedAt)) <$> w_active w;
      sn_Elevated := bool_decide (w_tunMode w = None);
      sn_SystemProxy := match w_proxy w with Some ct => if ct_supported ct then ct_describe ct else "" | None => "" end |},
   withConnectedAt connectedAt c).

Definition handleVersion (w : world) (r : request) (c : core) : response * core :=
  methodOnly r "GET" c (writeJSON (PVersion (bool_decide (w_tunMode w = None))), c).
Definition handleState (w : world) (r : request) (c : core) : response * core :=
  methodOnly r "GET" c (let '(s, c) := snapshot w c in (writeJSON (PState s), c)).
(** The stream itself is [EventHub]; its first frame is a snapshot. *)
Definition handleEvents (w : world) (r : request) (c : core) : response * core :=
  methodOnly r "GET" c (let '(_, c) := snapshot w c in (writeJSON PStream, c)).

Definition connectRefusal (w : world) (c : core) : option (response * core) :=
  if bool_decide (en_mode (c_engine c) = ModeTUN) then
    match w_tunMode w with
    | Some msg => Some (writeError 428 "elevation_required" msg, apiLog ("POST /api/connect refused 428 elevation_required: " +:+ msg) c)
    | None =>
        if bool_decide (w_status w = StatusDisconnected ∨ w_status w = StatusFailed) then
          match w_tunConflict w with
          | Some msg => Some (writeError 409 "tun_conflict" msg, apiLog ("POST /api/connect refused 409 tun_conflict: " +:+ msg) c)
          | None => None
          end
        else None
    end
  else None.

(** The response, and what [Connect] was called with. *)
Definition handleConnect (w : world) (r : request) (c : core) : response * core * option (string * string * string) :=
  if negb (str_eqb (r_method r) "POST") then (writeError 405 "" "method not allowed", c, None) else
  match optionalBody decodeConnect ("", "", "")%string r with
  | Err msg => (writeError 400 "" ("invalid connect body: " +:+ msg), c, None)
  | Ok (broker, relayID, country) =>
      let broker := if str_empty broker then c_broker c else broker in
      let target := if str_empty relayID then if str_empty country then "auto"%string else "country:" +:+ country else relayID in
      let c := apiLog ("POST /api/connect: target=" +:+ target +:+ " mode=" +:+ ModeString (en_mode (c_engine c)) +:+ " broker=" +:+ broker) c in
      match connectRefusal w c with
      | Some (resp, c) => (resp, c, None)
      | None =>
          match w_connect w with
          | Some (msg, elevation) =>
              let status := if elevation then 428 else 409 in
              let code := if elevation then "elevation_required"%string else ""%string in
              (writeError status code msg,
               apiLog ("POST /api/connect failed " +:+ text (FormatInt status) +:+ " " +:+ code +:+ ": " +:+ msg) c, Some (broker, country, relayID))
          | None => ({| rs_status := 202; rs_payload := POk |}, apiLog "POST /api/connect dispatched; outcome arrives via events" c,
                     Some (broker, country, relayID))
          end
      end
  end.

Definition handleDisconnect (w : world) (r : request) (c : core) : response * core :=
  methodOnly r "POST" c
    (let c := apiLog ("POST /api/disconnect (status=" +:+ StatusString (w_status w) +:+ ")") c in
     match w_disconnect w with
     | Some msg => (writeError 500 "" msg, apiLog ("POST /api/disconnect failed: " +:+ msg) c)
     | None => (writeJSON POk, c)
     end).

(** The mode handler up to the engine, and its write of the settings. *)
Definition chooseMode (w : world) (r : request) (c : core) : result (response * core) (Mode * core) :=
  if negb (str_eqb (r_method r) "POST") then Err (writeError 405 "" "method not allowed", c) else
  match requiredBody decodeMode maxBody r with
  | Err msg => Err (writeError 400 "" ("invalid mode body: " +:+ msg), c)
  | Ok name =>
      match (if str_eqb name "proxy" then Some ModeProxy else if str_eqb name "tun" then Some ModeTUN else None) with
      | None => Err (writeError 400 "" badMode, c)
      | Some m =>
          match (if bool_decide (m = ModeTUN) then w_tunMode w else None) with
          | Some msg => Err (writeError 428 "elevation_required" msg, apiLog ("POST /api/mode refused 428 elevation_required: " +:+ msg) c)
          | None =>
              match SetMode (w_live w) m (c_engine c) with
              | Err msg => Err (writeError 409 "connected" msg, apiLog ("POST /api/mode refused 409: " +:+ msg) c)
              | Ok e => Ok (m, withEngine e c)
              end
          end
      end
  end.
Definition keepMode (w : world) (m : Mode) (c : core) : core :=
  let s := loadSettings w c in
  saveSettings w {| ps_Mode := ModeString m; ps_DNSServers := ps_DNSServers s; ps_DNSIPv6 := ps_DNSIPv6 s |} c.
Definition modeAnswer (m : Mode) (c : core) : response * core :=
  (writeJSON (PMode (ModeString m)), apiLog ("POST /api/mode: mode=" +:+ ModeString m +:+ " (persisted)") c).
Definition handleMode (w : world) (r : request) (c : core) : response * core :=
  match chooseMode w r c with Err resp => resp | Ok (m, c) => modeAnswer m (keepMode w m c) end.

Definition chooseDNS (w : world) (r : request) (c : core) : result (response * core) (list string * bool * core) :=
  if negb (str_eqb (r_method r) "POST") then Err (writeError 405 "" "method not allowed", c) else
  match requiredBody decodeDNS maxBody r with
  | Err msg => Err (writeError 400 "" ("invalid dns body: " +:+ msg), c)
  | Ok (_, None) => Err (writeError 400 "" "ipv6 must be true or false", c)
  | Ok (servers, Some ipv6) =>
      match SetTunnelDNS (w_live w) servers ipv6 (c_engine c) with
      | Err msg =>
          if strContains msg "disconnect before"
          then Err (writeError 409 "connected" msg, apiLog ("POST /api/dns refused 409: " +:+ msg) c)
          else Err (writeError 400 "" msg, apiLog ("POST /api/dns refused 400: " +:+ msg) c)
      | Ok e => Ok (servers, ipv6, withEngine e c)
      end
  end.
Definition keepDNS (w : world) (servers : list string) (ipv6 : bool) (c : core) : core :=
  let s := loadSettings w c in saveSettings w {| ps_Mode := ps_Mode s; ps_DNSServers := servers; ps_DNSIPv6 := Some ipv6 |} c.
Definition dnsAnswer (servers : list string) (ipv6 : bool) (c : core) : response * core :=
  (writeJSON (PDNS servers ipv6), apiLog ("POST /api/dns: servers=" +:+ natText (length servers) +:+ " ipv6=" +:+ boolText ipv6 +:+ " (persisted)") c).
Definition handleDns (w : world) (r : request) (c : core) : response * core :=
  if str_eqb (r_method r) "GET" then let '(servers, ipv6) := TunnelDNS (c_engine c) in (writeJSON (PDNS servers ipv6), c) else
  match chooseDNS w r c with Err resp => resp | Ok (servers, ipv6, c) => dnsAnswer servers ipv6 (keepDNS w servers ipv6 c) end.

Definition handleProxy (w : world) (r : request) (c : core) : response * core :=
  methodOnly r "POST" c
    match requiredBody decodeProxy 4096 r with
    | Err _ => (writeError 400 "" "invalid body", c)
    | Ok false => (writeError 400 "" "unsupported action", c)
    | Ok true =>
        match w_proxy w with
        | Some ct =>
            if ct_supported ct then
              let c := if str_empty (ct_describe ct) then c
                       else appendLine ("cleared system proxy " +:+ ct_describe ct +:+ " at user request") c in
              match ct_clear ct with Some msg => (writeError 409 "proxy_clear_failed" msg, c) | None => (writeJSON POk, c) end
            else (writeError 501 "proxy_unsupported" "system proxy control is not supported on this platform", c)
        | None => (writeError 501 "proxy_unsupported" "system proxy control is not supported on this platform", c)
        end
    end.

Definition handleRelays (w : world) (r : request) (c : core) : response * core :=
  methodOnly r "GET" c match w_relays w with Err msg => (writeError 502 "" ("relay directory: " +:+ msg), c) | Ok n => (writeJSON (PRelays n), c) end.

Definition handleTcping (w : world) (r : request) (c : core) : response * core :=
  methodOnly r "POST" c
    match optionalBody decodeTcping ([], 0) r with
    | Err msg => (writeError 400 "" ("invalid tcping body: " +:+ msg), c)
    | Ok _ => match w_tcping w with Err msg => (writeError 502 "" ("tcping: " +:+ msg), c) | Ok n => (writeJSON (PResults n), c) end
    end.

(** The text for the user is in Chinese; the code carries the meaning. *)
Definition handleRealDelay (notConnected : string) (w : world) (r : request) (c : core) : response * core :=
  methodOnly r "POST" c
    match optionalBody decodeDelay ""%string r with
    | Err msg => (writeError 400 "" ("invalid real-delay body: " +:+ msg), c)
    | Ok relayID =>
        match (if str_empty relayID then ci_RelayID <$> w_active w else Some relayID) with
        | None => (writeError 409 "not_connected" notConnected, c)
        | Some id => match w_delay w with Err msg => (writeError 502 "" ("real delay: " +:+ msg), c) | Ok ms => (writeJSON (PDelay id ms), c) end
        end
    end.

Definition handleLogs (r : request) (c : core) : response * core :=
  methodOnly r "GET" c
    (let tail := r_query r "tail" in
     if str_empty tail then (writeJSON (PLogs 500), c) else
     match ParseInt (bytes tail) with
     | Some n => if n <? 0 then (writeError 400 "" "invalid tail", c) else (writeJSON (PLogs n), c)
     | None => (writeError 400 "" "invalid tail", c)
     end).

Definition handleHeartbeat (r : request) (c : core) : response * core :=
  methodOnly r "POST" c ({| rs_status := 204; rs_payload := PNone |}, c).
(** The request reaches the channel 50 ms later. *)
Definition handleShutdown (r : request) (c : core) : response * core :=
  methodOnly r "POST" c (writeJSON POk, requestShutdown (apiLog "POST /api/shutdown accepted; core exiting" c)).

(** [registerRoutes] *)
Definition route (notConnected : string) (w : world) (r : request) (c : core) : response * core :=
  let p := r_path r in
  if str_eqb p "/api/version" then handleVersion w r c else
  if str_eqb p "/api/state" then handleState w r c else
  if str_eqb p "/api/events" then handleEvents w r c else
  if str_eqb p "/api/connect" then (handleConnect w r c).1 else
  if str_eqb p "/api/disconnect" then handleDisconnect w r c else
  if str_eqb p "/api/mode" then handleMode w r c else
  if str_eqb p "/api/dns" then handleDns w r c else
  if str_eqb p "/api/proxy" then handleProxy w r c else
  if str_eqb p "/api/relays" then handleRelays w r c else
  if str_eqb p "/api/tcping" then handleTcping w r c else
  if str_eqb p "/api/real-delay" then handleRealDelay notConnected w r c else
  if str_eqb p "/api/logs" then handleLogs r c else
  if str_eqb p "/api/heartbeat" then handleHeartbeat r c else
  if str_eqb p "/api/shutdown" then handleShutdown r c else
  (writeError 404 "" "404 page not found", c).

Definition authAndActivity (notConnected : string) (w : world) (r : request) (c : core) : response * core :=
  if negb (str_eqb (r_token r) (c_token c)) then ({| rs_status := 401; rs_payload := PError "" "unauthorized" |}, c)
  else route notConnected w r (stamp (w_now w) c).

(** * The process *)
(** Without a configured token, 32 random bytes in hexadecimal. *)
Definition startToken (configured : string) (random : list byte) : string :=
  if str_empty configured then text (hexEncode random) else configured.

Definition restoreMode (w : world) (c : core) : core :=
  let s := loadSettings w c in
  let c := if str_eqb (ps_Mode s) "tun"
           then match SetMode false ModeTUN (c_engine c) with Ok e => withEngine e c | Err _ => c end else c in
  match SetTunnelDNS false (ps_DNSServers s) (default true (ps_DNSIPv6 s)) (c_engine c) with
  | Ok e => withEngine e c
  | Err msg => apiLog ("restoreMode: stored DNS config rejected: " +:+ msg) c
  end.

Definition newCore (w : world) (configured : string) (random : list byte) (broker : string) (file : option Bytes) : core :=
  restoreMode w {| c_token := startToken configured random; c_broker := broker; c_engine := newEngine; c_file := file; c_lines := [];
                   c_connectedAt := None; c_lastActivity := w_now w; c_shutdownReq := 0 |}.

(** One tick of [heartbeatWatchdog]; after a request it returns. *)
Definition watchdogTick (timeout now : Z) (c : core) : bool := timeout <? now - c_lastActivity c.
End api.

(** [checkExistingEndpoint]: the endpoint file and what a probe of it answers;
    [true] refuses to start. *)
Record endpointFile := { ep_Port : Z; ep_Token : string }.
Definition checkExistingEndpoint (newPort : Z) (file : option endpointFile) (probe : endpointFile → option Z) : bool :=
  match file with
  | None => false
  | Some old =>
      if (ep_Port old =? 0) || str_empty (ep_Token old) then false else
      if ep_Port old =? newPort then false else
      match probe old with Some status => status =? 200 | None => false end
  end.

(** * The physical network *)
Definition ifTypeSoftwareLoopback : Z := 24.
Record netAdapter := {
  na_name : string; na_desc : string; na_ifType : Z; na_up : bool; na_metric : Z; na_addrs : list string; na_gateways : list string
}.

(** [^tun[0-9]+$] *)
Definition isDigit (b : byte) : bool := (48 <=? val b) && (val b <=? 57).
Definition tunNamePattern (name : string) : bool :=
  bool_decide (take 3 (bytes name) = bytes "tun") && match drop 3 (bytes name) with [] => false | ds => forallb isDigit ds end.
Definition tunConflictName (ifaces : list string) : string := default ""%string (head (List.filter tunNamePattern ifaces)).

Section network.
Context `{GoSort} (ToLower : string → string).
#[local] Set Default Proof Using "Type".

Definition isTunnelAdapter (a : netAdapter) : bool :=
  tunNamePattern (na_name a) ||
  (let desc := ToLower (na_desc a) in strContains desc "wintun" || strContains desc "sing-box" || strContains desc "openrung").

Record NetworkState := { ns_Up : bool; ns_Fingerprint : string }.

Definition isPhysical (a : netAdapter) : bool :=
  negb ((na_ifType a =? ifTypeSoftwareLoopback) || isTunnelAdapter a || negb (na_up a) || bool_decide (na_addrs a = [])).
Definition hasGateway (a : netAdapter) : bool := bool_decide (na_gateways a ≠ []).
Definition metricLess (a b : netAdapter) : bool :=
  if negb (na_metric a =? na_metric b) then na_metric a <? na_metric b else String.ltb (na_name a) (na_name b).

Definition bestAdapter (adapters : list netAdapter) : option netAdapter :=
  let physical := List.filter isPhysical adapters in
  let gatewayed := List.filter hasGateway physical in
  match gatewayed with
  | [] => match physical with [] => None | _ => head (slice metricLess physical) end
  | _ => head (slice metricLess gatewayed)
  end.

Definition sortStrings (l : list string) : list string := slice String.ltb l.
Definition fingerprint (a : netAdapter) : string :=
  na_name a +:+ "|" +:+ text (FormatInt (na_metric a)) +:+ "|" +:+ text (joinWith (chr 44) (bytes <$> sortStrings (na_addrs a))) +:+ "|" +:+
  text (joinWith (chr 44) (bytes <$> sortStrings (na_gateways a))).

Definition physicalNetworkState (adapters : list netAdapter) : NetworkState :=
  match bestAdapter adapters with
  | None => {| ns_Up := false; ns_Fingerprint := "" |}
  | Some best => {| ns_Up := true; ns_Fingerprint := fingerprint best |}
  end.

(** [watchPhysicalNetwork]: the states fed to the engine, and how many failures
    are logged, of a first snapshot and one per tick. *)
Fixpoint watchTicks (failures : nat) (snapshots : list (option (list netAdapter))) : list NetworkState * nat :=
  match snapshots with
  | [] => ([], 0%nat)
  | None :: snapshots =>
      let failures := S failures in
      let '(fed, logged) := watchTicks failures snapshots in
      (fed, ((if (failures mod 60 =? 1)%nat then 1 else 0) + logged)%nat)
  | Some adapters :: snapshots => let '(fed, logged) := watchTicks 0 snapshots in (physicalNetworkState adapters :: fed, logged)
  end.
Definition watchPhysicalNetwork (first : option (list netAdapter)) (snapshots : list (option (list netAdapter))) : list NetworkState * nat :=
  let '(fed, logged) := watchTicks 0 snapshots in
  (match first with Some adapters => physicalNetworkState adapters :: fed | None => fed end, logged).
End network.

(** * The network *)
Section networkFacts.
Context `{GoSort} (ToLower : string → string).
#[local] Set Default Proof Using "Type".

Lemma ltb_strict_weak : strict_weak String.ltb.
Proof. split; [intros x y; apply str_ltb_asym|intros x y z; apply str_ltb_cotrans]. Qed.

Lemma metricLess_strict_weak : strict_weak metricLess.
Proof.
  unfold strict_weak, metricLess. split; intros *.
  - destruct (Z.eqb_spec (na_metric x) (na_metric y)) as [E|E]; cbn.
    + rewrite E, Z.eqb_refl. cbn. apply str_ltb_asym.
    + intros L%Z.ltb_lt. rewrite (proj2 (Z.eqb_neq (na_metric y) (na_metric x))) by lia. cbn. apply Z.ltb_ge. lia.
  - destruct (Z.eqb_spec (na_metric x) (na_metric z)) as [E|E]; cbn.
    + intros L. destruct (Z.eqb_spec (na_metric x) (na_metric y)) as [E1|E1]; cbn.
      * rewrite (proj2 (Z.eqb_eq (na_metric y) (na_metric z))) by congruence. cbn. by apply str_ltb_cotrans.
      * rewrite (proj2 (Z.eqb_neq (na_metric y) (na_metric z))) by congruence. cbn. rewrite !Z.ltb_lt. lia.
    + intros L%Z.ltb_lt. destruct (Z.ltb_spec (na_metric x) (na_metric y)) as [L1|L1].
      * left. by rewrite (proj2 (Z.eqb_neq _ _)) by lia.
      * right. rewrite (proj2 (Z.eqb_neq _ _)) by lia. cbn. apply Z.ltb_lt. lia.
Qed.

Lemma sortStrings_perm l k : l ≡ₚ k → sortStrings l = sortStrings k.
Proof.
  intros E. assert (AntiSymm eq (λ a b, String.ltb b a = false)).
  { intros a b. rewrite !str_ltb_leb, !negb_false_iff. apply str_leb_antisym. }
  apply (StronglySorted_unique (λ a b, String.ltb b a = false)); [apply slice_sorted, ltb_strict_weak..|].
  unfold sortStrings. by rewrite !slice_perm.
Qed.

(** The head of a sorted list is one of its least elements. *)
Lemma slice_least {A} (less : A → A → bool) l x : strict_weak less → head (slice less l) = Some x →
  x ∈ l ∧ ∀ y, y ∈ l → less y x = false.
Proof.
  intros Hw Hx. pose proof (slice_sorted less l Hw) as Hs. pose proof (slice_perm less l) as Hp.
  destruct (slice less l) as [|x' rest] eqn:El; [done|]. injection Hx as ->. inversion_clear Hs as [|? ? _ Hall].
  split; [rewrite <- Hp; apply elem_of_cons; by left|].
  intros y Hy. rewrite <- Hp in Hy. apply elem_of_cons in Hy as [->|Hy]; [|by rewrite Forall_forall in Hall; apply Hall].
  destruct (less x x) eqn:E; [|done]. pose proof (proj1 Hw x x E). congruence.
Qed.
Lemma slice_head {A} (less : A → A → bool) l : l ≠ [] → ∃ x, head (slice less l) = Some x.
Proof. pose proof (slice_perm less l) as Hp. intros Hl. destruct (slice less l) as [|x r]; [by apply Permutation_nil_l in Hp|by exists x]. Qed.

(** What the choice is: of the physical adapters, with a gateway where one has,
    of the least metric, the least name. *)
Definition candidatesOf (adapters : list netAdapter) : list netAdapter :=
  let physical := List.filter (isPhysical ToLower) adapters in
  let gatewayed := List.filter hasGateway physical in
  match gatewayed with [] => physical | _ => gatewayed end.

Lemma bestAdapter_candidates adapters : bestAdapter ToLower adapters = head (slice metricLess (candidatesOf adapters)).
Proof.
  unfold bestAdapter, candidatesOf. destruct (List.filter hasGateway _); [|done].
  destruct (List.filter (isPhysical ToLower) adapters); [|done]. by rewrite (proj1 (Permutation_nil_r _) (slice_perm metricLess [])).
Qed.

Lemma bestAdapter_least adapters b : bestAdapter ToLower adapters = Some b →
  b ∈ candidatesOf adapters ∧ ∀ a, a ∈ candidatesOf adapters → metricLess a b = false.
Proof. rewrite bestAdapter_candidates. apply slice_least, metricLess_strict_weak. Qed.

Lemma candidatesOf_perm l k : l ≡ₚ k → candidatesOf l ≡ₚ candidatesOf k.
Proof.
  intros E. unfold candidatesOf. assert (E1 : List.filter (isPhysical ToLower) l ≡ₚ List.filter (isPhysical ToLower) k) by (by apply filter_bool_perm).
  assert (E2 : List.filter hasGateway (List.filter (isPhysical ToLower) l) ≡ₚ List.filter hasGateway (List.filter (isPhysical ToLower) k)) by (by apply filter_bool_perm).
  destruct (List.filter hasGateway (List.filter (isPhysical ToLower) l)) eqn:El, (List.filter hasGateway (List.filter (isPhysical ToLower) k)) eqn:Ek;
    [done|by apply Permutation_nil_l in E2|by apply Permutation_nil_r in E2|done].
Qed.

Lemma elem_of_candidates a adapters : a ∈ candidatesOf adapters → a ∈ adapters ∧ isPhysical ToLower a = true.
Proof.
  unfold candidatesOf. destruct (List.filter hasGateway _) as [|g gs] eqn:E; [|rewrite <- E];
    rewrite ?elem_of_filter_bool; tauto.
Qed.

Lemma metricLess_eq a b : metricLess a b = false → metricLess b a = false → na_name a = na_name b.
Proof.
  unfold metricLess. destruct (Z.eqb_spec (na_metric a) (na_metric b)) as [E|E]; cbn.
  - rewrite E, Z.eqb_refl. cbn. rewrite !str_ltb_leb, !negb_false_iff. intros. by apply str_leb_antisym.
  - rewrite (proj2 (Z.eqb_neq (na_metric b) (na_metric a))) by lia. cbn. rewrite !Z.ltb_ge. lia.
Qed.

(** A fingerprint tells the adapter, its metric, its addresses and its gateways. *)
Definition plainField (s : string) : Prop := lacks 124 (bytes s) = true.
Definition plainAddr (s : string) : Prop := lacks 124 (bytes s) = true ∧ lacks 44 (bytes s) = true ∧ s ≠ ""%string.

Lemma FormatInt_bar n : 0 ≤ n → lacks 124 (FormatInt n) = true.
Proof.
  intros Hn. destruct (FormatInt_shape n Hn) as (_ & _ & HF). unfold lacks. rewrite forallb_forall. intros c Hc%list_elem_of_In. rewrite Forall_forall in HF.
  specialize (HF c Hc). apply negb_true_iff, N.eqb_neq. intros E. revert HF. unfold val. rewrite E. vm_compute. intuition congruence.
Qed.

Record plainAdapter (a : netAdapter) : Prop := {
  pa_name : lacks 124 (bytes (na_name a)) = true;
  pa_metric : 0 ≤ na_metric a ≤ int64_max;
  pa_addrs : Forall plainAddr (na_addrs a);
  pa_gateways : Forall plainAddr (na_gateways a)
}.

Lemma joined_bar l : Forall plainAddr l → lacks 124 (joinWith (chr 44) (bytes <$> l)) = true.
Proof.
  induction 1 as [|x l (Hx&_&_) Hl IH]; [done|]. destruct l as [|y l]; [done|].
  change (joinWith (chr 44) (bytes <$> x :: y :: l)) with (bytes x ++ [chr 44] ++ joinWith (chr 44) (bytes <$> y :: l)).
  rewrite !lacks_app, Hx, IH. done.
Qed.

Lemma joined_inj l k : Forall plainAddr l → Forall plainAddr k → joinWith (chr 44) (bytes <$> l) = joinWith (chr 44) (bytes <$> k) → l = k.
Proof.
  assert (Hb : ∀ s, plainAddr s → bytes s ≠ []) by (intros s (_&_&Hne) E; apply Hne; rewrite <- (text_bytes s), E; done).
  assert (Hc : ∀ l, Forall plainAddr l → Forall (λ p, lacks (byte_of (chr 44)) p = true) (bytes <$> l)).
  { intros m Hm. apply Forall_fmap. eapply Forall_impl; [exact Hm|]. by intros x (_&?&_). }
  assert (Hn : ∀ m, Forall plainAddr m → joinWith (chr 44) (bytes <$> m) = [] → m = []).
  { intros m Hm E. destruct Hm as [|x m Hx Hm]; [done|]. exfalso. apply (Hb x Hx). destruct m as [|y m]; cbn in E; [done|by destruct (bytes x)]. }
  intros Hl Hk E. destruct l as [|x l]; [by symmetry; apply Hn|]. destruct k as [|y k]; [by apply Hn in E|].
  apply (f_equal (splitOn (byte_of (chr 44)))) in E. rewrite !splitOn_joinWith in E by (done || by apply Hc).
  by apply (inj (fmap bytes)) in E.
Qed.

Lemma sortStrings_plain l : Forall plainAddr l → Forall plainAddr (sortStrings l).
Proof. intros Hl. unfold sortStrings. by rewrite slice_perm. Qed.

Lemma fingerprint_bytes a : bytes (fingerprint a) = joinWith (chr 124) [bytes (na_name a); FormatInt (na_metric a);
  joinWith (chr 44) (bytes <$> sortStrings (na_addrs a)); joinWith (chr 44) (bytes <$> sortStrings (na_gateways a))].
Proof. unfold fingerprint. by rewrite !bytes_app, !bytes_text. Qed.

Lemma fingerprint_tells a b : plainAdapter a → plainAdapter b →
  fingerprint a = fingerprint b ↔
  na_name a = na_name b ∧ na_metric a = na_metric b ∧ na_addrs a ≡ₚ na_addrs b ∧ na_gateways a ≡ₚ na_gateways b.
Proof.
  intros [Ha1 Ha2 Ha3 Ha4] [Hb1 Hb2 Hb3 Hb4]. split.
  - intros E. apply (f_equal bytes) in E. rewrite !fingerprint_bytes in E. apply (f_equal (splitOn (byte_of (chr 124)))) in E.
    rewrite !splitOn_joinWith in E; try done;
      try (repeat constructor; try done; [by apply FormatInt_bar; lia|by apply joined_bar, sortStrings_plain..]).
    injection E as E1 E2 E3 E4. split_and!.
    + by apply (inj bytes).
    + apply FormatInt_inj in E2; unfold in_int64, int64_min, int64_max in *; lia.
    + apply joined_inj in E3; [|by apply sortStrings_plain..]. unfold sortStrings in E3. rewrite <- (slice_perm String.ltb (na_addrs a)), E3. apply slice_perm.
    + apply joined_inj in E4; [|by apply sortStrings_plain..]. unfold sortStrings in E4. rewrite <- (slice_perm String.ltb (na_gateways a)), E4. apply slice_perm.
  - intros (E1&E2&E3&E4). unfold fingerprint. by rewrite E1, E2, (sortStrings_perm _ _ E3), (sortStrings_perm _ _ E4).
Qed.

Lemma bestAdapter_perm l k : l ≡ₚ k → NoDup (na_name <$> l) → bestAdapter ToLower l = bestAdapter ToLower k.
Proof.
  intros E Hnd. pose proof (candidatesOf_perm l k E) as Ec. rewrite !bestAdapter_candidates.
  destruct (candidatesOf l) as [|x xs] eqn:El.
  { apply Permutation_nil_l in Ec. by rewrite Ec. }
  rewrite <- El in *. assert (Hl : candidatesOf l ≠ []) by (by rewrite El). assert (Hk : candidatesOf k ≠ []) by (intros E'; rewrite E' in Ec; by apply Permutation_nil_r in Ec).
  destruct (slice_head metricLess _ Hl) as [a Ha], (slice_head metricLess _ Hk) as [b Hb]. rewrite Ha, Hb. f_equal.
  apply (slice_least _ _ _ metricLess_strict_weak) in Ha as [Hain Ha], Hb as [Hbin Hb].
  assert (Hbl : b ∈ candidatesOf l) by (by rewrite Ec). assert (Hak : a ∈ candidatesOf k) by (by rewrite <- Ec).
  pose proof (metricLess_eq a b (Hb a Hak) (Ha b Hbl)) as En.
  destruct (elem_of_candidates _ _ Hain) as [Hal _], (elem_of_candidates _ _ Hbl) as [Hbl' _].
  apply list_elem_of_lookup in Hal as [i Hi], Hbl' as [j Hj].
  assert (i = j) as ->; [|congruence]. eapply NoDup_lookup; [exact Hnd|..]; rewrite list_lookup_fmap; [rewrite Hi|rewrite Hj]; cbn; by rewrite ?En.
Qed.

(** C33: the network the engine is told of is a matter of the physical adapters
    alone: the order in which Windows lists them, the core's own TUN, loopbacks
    and adapters that are down or have no address do not matter; it is up exactly
    when there is a physical adapter; the adapter chosen has a gateway where one
    has, and the least metric of those; and the fingerprint changes exactly when
    the adapter, its metric, or the sets of its addresses and gateways do. *)
Theorem network_state adapters adapters' : adapters ≡ₚ adapters' → NoDup (na_name <$> adapters) →
  physicalNetworkState ToLower adapters = physicalNetworkState ToLower adapters' ∧
  (∀ a, isPhysical ToLower a = false → physicalNetworkState ToLower (a :: adapters) = physicalNetworkState ToLower adapters) ∧
  (ns_Up (physicalNetworkState ToLower adapters) = true ↔ ∃ a, a ∈ adapters ∧ isPhysical ToLower a = true) ∧
  (∀ b, bestAdapter ToLower adapters = Some b → isPhysical ToLower b = true ∧
    ∀ a, a ∈ adapters → isPhysical ToLower a = true →
      (hasGateway a = true → hasGateway b = true) ∧ (hasGateway a = hasGateway b → na_metric b ≤ na_metric a)) ∧
  (∀ a b, plainAdapter a → plainAdapter b → fingerprint a = fingerprint b ↔
    na_name a = na_name b ∧ na_metric a = na_metric b ∧ na_addrs a ≡ₚ na_addrs b ∧ na_gateways a ≡ₚ na_gateways b).
Proof.
  intros E Hnd. split_and!.
  - unfold physicalNetworkState. by rewrite (bestAdapter_perm _ _ E Hnd).
  - intros a Ha. unfold physicalNetworkState, bestAdapter. cbn [List.filter]. by rewrite Ha.
  - unfold physicalNetworkState. destruct (bestAdapter ToLower adapters) as [b|] eqn:Eb; cbn.
    + split; [|done]. intros _. exists b. apply elem_of_candidates. by apply bestAdapter_least in Eb as [? _].
    + split; [done|]. intros (a & Ha & Hp). exfalso. rewrite bestAdapter_candidates in Eb.
      assert (Hc : candidatesOf adapters ≠ []).
      { unfold candidatesOf. assert (Hin : a ∈ List.filter (isPhysical ToLower) adapters) by (by apply elem_of_filter_bool).
        destruct (List.filter hasGateway _); [|done]. intros E'. rewrite E' in Hin. by apply elem_of_nil in Hin. }
      destruct (slice_head metricLess _ Hc) as [b Hb]. congruence.
  - intros b Hb. destruct (bestAdapter_least _ _ Hb) as [Hin Hleast]. split; [by apply elem_of_candidates in Hin as [_ ?]|].
    assert (Hm : ∀ a, a ∈ candidatesOf adapters → na_metric b ≤ na_metric a).
    { intros a Ha%Hleast. revert Ha. unfold metricLess. destruct (Z.eqb_spec (na_metric a) (na_metric b)); cbn; [lia|]. rewrite Z.ltb_ge. lia. }
    intros a Ha Hp. assert (Hpin : a ∈ List.filter (isPhysical ToLower) adapters) by (by apply elem_of_filter_bool).
    revert Hin Hm. unfold candidatesOf. destruct (List.filter hasGateway (List.filter (isPhysical ToLower) adapters)) as [|g gs] eqn:Eg; intros Hin Hm.
    + assert (Hng : ∀ x, x ∈ List.filter (isPhysical ToLower) adapters → hasGateway x = false).
      { intros x Hx. destruct (hasGateway x) eqn:Ex; [|done]. exfalso. assert (Hin' : x ∈ List.filter hasGateway (List.filter (isPhysical ToLower) adapters)) by (by apply elem_of_filter_bool).
        rewrite Eg in Hin'. by apply elem_of_nil in Hin'. }
      rewrite (Hng a Hpin), (Hng b Hin). split; [done|]. intros _. by apply Hm.
    + rewrite <- Eg in *. apply elem_of_filter_bool in Hin as [_ Hgb]. rewrite Hgb. split; [done|]. intros Hga. apply Hm. by apply elem_of_filter_bool.
  - apply fingerprint_tells.
Qed.
End networkFacts.

(** * The API *)
Section apiFacts.
Context {Bytes : Type} (Marshal : persistedSettings → Bytes) (Unmarshal : Bytes → option persistedSettings).
Context (decodeConnect : list byte → result string (string * string * string))
  (decodeMode : list byte → result string string)
  (decodeDNS : list byte → result string (list string * option bool))
  (decodeProxy : list byte → result string bool)
  (decodeTcping : list byte → result string (list string * Z))
  (decodeDelay : list byte → result string string)
  (notConnected : string).
#[local] Set Default Proof Using "Type".
#[local] Notation coreT := (@core Bytes).
#[local] Notation route' := (route Marshal Unmarshal decodeConnect decodeMode decodeDNS decodeProxy decodeTcping decodeDelay notConnected).
#[local] Notation auth := (authAndActivity Marshal Unmarshal decodeConnect decodeMode decodeDNS decodeProxy decodeTcping decodeDelay notConnected).

(** ** The gate *)
Definition authorized (c : coreT) (r : request) : bool := str_eqb (r_token r) (c_token c).
Definition refusal : response := {| rs_status := 401; rs_payload := PError "" "unauthorized" |}.

Fixpoint serveAll (l : list (world * request)) (c : coreT) : list response * coreT :=
  match l with
  | [] => ([], c)
  | (w, r) :: l => let '(resp, c) := auth w r c in let '(resps, c) := serveAll l c in (resp :: resps, c)
  end.

(** The answers to a history, the refusals in their places. *)
Fixpoint interleaved (c : coreT) (l : list (world * request)) (served : list response) : list response :=
  match l with
  | [] => []
  | (_, r) :: l =>
      if authorized c r then match served with resp :: served => resp :: interleaved c l served | [] => [] end
      else refusal :: interleaved c l served
  end.

(** Handlers keep the token, and stamp nothing. *)
Definition sameGate (c c' : coreT) : Prop := c_token c' = c_token c ∧ c_lastActivity c' = c_lastActivity c.

Definition settingsPath (r : request) : bool := str_eqb (r_path r) "/api/mode" || str_eqb (r_path r) "/api/dns".

(** What every handler but the two of the settings keeps: what its logging, its
    snapshot and a shutdown keep. *)
Lemma route_keeps (R : coreT → coreT → Prop) w r (c : coreT) : R c c → (∀ line c', R c c' → R c (appendLine line c')) →
  (∀ t, R c (withConnectedAt t c)) → (∀ c', R c c' → R c (requestShutdown c')) →
  (settingsPath r = true → R c (handleMode Marshal Unmarshal decodeMode w r c).2 ∧ R c (handleDns Marshal Unmarshal decodeDNS w r c).2) →
  R c (route' w r c).2.
Proof.
  intros H1 H2 H3 H4 H5. assert (Hl : ∀ line c', R c c' → R c (apiLog line c')) by (intros; by apply H2).
  unfold route. destruct (settingsPath r) eqn:Es; [specialize (H5 eq_refl) as [H5 H6]|clear H5; apply orb_false_iff in Es as [-> ->]].
  all: repeat (destruct (str_eqb (r_path r) _); [|]); auto.
  all: unfold handleVersion, handleState, handleEvents, handleConnect, connectRefusal, handleDisconnect, handleProxy, handleRelays, handleTcping,
    handleRealDelay, handleLogs, handleHeartbeat, handleShutdown, methodOnly, snapshot; cbv zeta; repeat case_match; simplify_eq/=; auto.
Qed.

Lemma saveSettings_gate w s (c : coreT) : sameGate c (saveSettings Marshal w s c).
Proof. unfold saveSettings. by destruct (w_writable w). Qed.

Lemma chooseMode_gate w r (c : coreT) : match chooseMode decodeMode w r c with Err (_, c') => sameGate c c' | Ok (_, c') => sameGate c c' end.
Proof.
  unfold chooseMode. destruct (negb _); [done|]. destruct (requiredBody _ _ _); [|done]. destruct (if str_eqb _ _ then _ else _); [|done].
  destruct (if bool_decide _ then _ else _); [done|]. by destruct (SetMode _ _ _).
Qed.
Lemma chooseDNS_gate w r (c : coreT) : match chooseDNS decodeDNS w r c with Err (_, c') => sameGate c c' | Ok (_, _, c') => sameGate c c' end.
Proof.
  unfold chooseDNS. destruct (negb _); [done|]. destruct (requiredBody _ _ _) as [[? [?|]]|]; [|done..]. destruct (SetTunnelDNS _ _ _ _); [done|].
  by destruct (strContains _ _).
Qed.

Lemma sameGate_trans (c c' c'' : coreT) : sameGate c c' → sameGate c' c'' → sameGate c c''.
Proof. unfold sameGate. intros [??] [??]. split; congruence. Qed.

Lemma route_gate w r (c : coreT) : sameGate c (route' w r c).2.
Proof.
  apply route_keeps; try done. intros _. split.
  - unfold handleMode. pose proof (chooseMode_gate w r c) as H. destruct (chooseMode _ _ _ _) as [[m c']|[resp c']]; [|done].
    eapply sameGate_trans; [exact H|]. unfold keepMode. eapply sameGate_trans; [apply saveSettings_gate|done].
  - unfold handleDns. destruct (str_eqb _ _); [done|]. pose proof (chooseDNS_gate w r c) as H. destruct (chooseDNS _ _ _ _) as [[[s v] c']|[resp c']]; [|done].
    eapply sameGate_trans; [exact H|]. unfold keepDNS. eapply sameGate_trans; [apply saveSettings_gate|done].
Qed.

(** The time of the last request that carried the token, or of the start. *)
Definition lastAuthorized (c : coreT) (l : list (world * request)) : Z :=
  foldl (λ t wr, if authorized c wr.2 then w_now wr.1 else t) (c_lastActivity c) l.

Lemma auth_token w r (c : coreT) : c_token (auth w r c).2 = c_token c.
Proof. unfold authAndActivity. destruct (negb _); [done|]. by destruct (route_gate w r (stamp (w_now w) c)) as [-> _]. Qed.

Lemma serveAll_gate l : ∀ c : coreT, let '(resps, c') := serveAll l c in
  let '(served, c'') := serveAll (List.filter (λ wr, authorized c wr.2) l) c in
  c' = c'' ∧ resps = interleaved c l served ∧ c_lastActivity c' = lastAuthorized c l.
Proof.
  induction l as [|[w r] l IH]; intros c; [done|]. cbn [serveAll List.filter interleaved lastAuthorized foldl snd fst]. unfold lastAuthorized. cbn [foldl snd fst].
  unfold authAndActivity at 1. destruct (authorized c r) eqn:Ea; unfold authorized in Ea.
  - rewrite Ea. cbn [negb serveAll]. unfold authAndActivity. rewrite Ea. cbn [negb].
    pose proof (route_gate w r (stamp (w_now w) c)) as [Ht Hl]. cbn in Ht, Hl. destruct (route' w r (stamp (w_now w) c)) as [resp c1]. cbn in Ht, Hl.
    specialize (IH c1). destruct (serveAll l c1) as [resps c'] eqn:E1. unfold authorized in IH |- *. rewrite Ht in IH.
    destruct (serveAll (List.filter _ l) c1) as [served c''] eqn:E2.
    destruct IH as (-> & -> & ->). split_and!; [done| |unfold lastAuthorized, authorized; by rewrite Ht, Hl].
    f_equal. clear -Ht. revert served. induction l as [|[w' r'] l IH]; intros served; [done|]. cbn. unfold authorized. rewrite Ht.
    destruct (str_eqb _ _); [destruct served; [done|]|]; by rewrite IH.
  - rewrite Ea. cbn [negb]. specialize (IH c). destruct (serveAll l c) as [resps c'] eqn:E1. unfold authorized in *.
    destruct (serveAll (List.filter _ l) c) as [served c''] eqn:E2. destruct IH as (-> & -> & ->). done.
Qed.

Lemma startToken_nonempty configured random : random ≠ [] → startToken configured random ≠ ""%string.
Proof.
  intros Hr. unfold startToken, str_empty. case_bool_decide as E; [|done]. intros Hn. apply (f_equal bytes) in Hn. rewrite bytes_text in Hn.
  destruct random as [|b bs]; [done|]. unfold hexEncode in Hn. by rewrite bind_cons in Hn.
Qed.

(** C20: who does not hold the token is told nothing and changes nothing: a
    history of requests leaves the core as the authorized ones among them alone
    would, these get the answers they would get alone, the others 401; strangers
    do not keep the core alive, since the watchdog ends it once more than its
    window has passed since the last authorized request; and the token is never
    empty, so that a request without the header is a stranger's. *)
Theorem token_gate w0 configured random broker file l timeout now : random ≠ [] →
  let c := newCore Unmarshal w0 configured random broker file in
  let '(resps, c') := serveAll l c in
  let '(served, c'') := serveAll (List.filter (λ wr, authorized c wr.2) l) c in
  c' = c'' ∧ resps = interleaved c l served ∧
  watchdogTick timeout now c' = (timeout <? now - lastAuthorized c l) ∧
  (∀ r, r_token r = ""%string → authorized c r = false).
Proof.
  intros Hr c. pose proof (serveAll_gate l c) as H. destruct (serveAll l c) as [resps c'], (serveAll (List.filter _ l) c) as [served c''].
  destruct H as (-> & -> & Hl). split_and!; [done..|unfold watchdogTick; by rewrite Hl|].
  intros r Hr'. unfold authorized, str_eqb. rewrite Hr'. apply bool_decide_eq_false_2. intros Hn.
  assert (Ht : c_token c = startToken configured random).
  { unfold c, newCore, restoreMode. cbv zeta. destruct (SetTunnelDNS _ _ _ _); cbn [c_token apiLog appendLine withEngine]; by destruct (str_eqb _ _). }
  rewrite Ht in Hn. symmetry in Hn. by apply (startToken_nonempty configured random).
Qed.
End apiFacts.

(** * The settings *)
Section settings.
Context {Bytes : Type} (Marshal : persistedSettings → Bytes) (Unmarshal : Bytes → option persistedSettings).
Context (decodeConnect : list byte → result string (string * string * string))
  (decodeMode : list byte → result string string)
  (decodeDNS : list byte → result string (list string * option bool))
  (decodeProxy : list byte → result string bool)
  (decodeTcping : list byte → result string (list string * Z))
  (decodeDelay : list byte → result string string)
  (notConnected : string).
#[local] Set Default Proof Using "Type".
#[local] Notation coreT := (@core Bytes).
#[local] Notation route' := (route Marshal Unmarshal decodeConnect decodeMode decodeDNS decodeProxy decodeTcping decodeDelay notConnected).

(** [POST /api/mode] and [POST /api/dns] change the engine first and the file
    later, under [settingsMu]: a machine over the calls between the two. *)
Inductive pending := KeepMode (m : Mode) | KeepDNS (servers : list string) (ipv6 : bool).
Inductive apiEvent := ApiChoose (w : world) (r : request) | ApiKeep (i : nat) (w : world) | ApiOther (w : world) (r : request).

Definition keep (p : pending) (w : world) (c : coreT) : coreT :=
  match p with
  | KeepMode m => (modeAnswer m (keepMode Marshal Unmarshal w m c)).2
  | KeepDNS servers ipv6 => (dnsAnswer servers ipv6 (keepDNS Marshal Unmarshal w servers ipv6 c)).2
  end.

Definition apiStep (e : apiEvent) (s : coreT * list pending) : option (coreT * list pending) :=
  let '(c, ps) := s in
  match e with
  | ApiChoose w r =>
      if str_eqb (r_path r) "/api/mode" then
        Some match chooseMode decodeMode w r c with Ok (m, c) => (c, ps ++ [KeepMode m]) | Err (_, c) => (c, ps) end
      else if str_eqb (r_path r) "/api/dns" then
        Some match chooseDNS decodeDNS w r c with Ok (servers, ipv6, c) => (c, ps ++ [KeepDNS servers ipv6]) | Err (_, c) => (c, ps) end
      else None
  | ApiKeep i w => p ← ps !! i; Some (keep p w c, delete i ps)
  | ApiOther w r => if settingsPath r then None else Some ((route' w r c).2, ps)
  end.
Fixpoint apiRun (l : list apiEvent) (s : coreT * list pending) : option (coreT * list pending) :=
  match l with [] => Some s | e :: l => s ← apiStep e s; apiRun l s end.

(** A request handled at once is its two steps. *)
Lemma handleMode_steps w r (c : coreT) : handleMode Marshal Unmarshal decodeMode w r c =
  match chooseMode decodeMode w r c with Ok (m, c) => modeAnswer m (keepMode Marshal Unmarshal w m c) | Err resp => resp end.
Proof. done. Qed.

(** The disk works, and no two posts to one endpoint overlap. *)
Definition diskWorks (e : apiEvent) : bool :=
  match e with ApiKeep _ w => w_readable w && w_writable w | _ => true end.
Definition isMode (p : pending) : bool := match p with KeepMode _ => true | KeepDNS _ _ => false end.
Definition oneEach (ps : list pending) : bool :=
  (length (List.filter isMode ps) <=? 1)%nat && (length (List.filter (λ p, negb (isMode p)) ps) <=? 1)%nat.
Fixpoint disciplined (l : list apiEvent) (s : coreT * list pending) : bool :=
  oneEach s.2 && match l with [] => true | e :: l => diskWorks e && match apiStep e s with Some s => disciplined l s | None => true end end.

(** What [restoreMode] makes of settings. *)
Definition modeOf (s : persistedSettings) : Mode := if str_eqb (ps_Mode s) "tun" then ModeTUN else ModeProxy.
Definition dnsOf (s : persistedSettings) : list string * bool :=
  match SetTunnelDNS false (ps_DNSServers s) (default true (ps_DNSIPv6 s)) newEngine with
  | Ok e => (en_dns e, en_ipv6Disabled e)
  | Err _ => ([], false)
  end.
Definition stored (c : coreT) : persistedSettings := default noSettings (c_file c ≫= Unmarshal).

Lemma SetTunnelDNS_engine servers ipv6 e e' : SetTunnelDNS false servers ipv6 e = Ok e' →
  e' = {| en_mode := en_mode e; en_dns := servers; en_ipv6Disabled := negb ipv6 |}.
Proof. unfold SetTunnelDNS. destruct (_ <? _)%nat; [done|]. destruct (firstHostname servers); [done|]. by intros [= <-]. Qed.
Lemma SetTunnelDNS_ok live servers ipv6 e e' : SetTunnelDNS live servers ipv6 e = Ok e' →
  live = false ∧ (∀ e2, SetTunnelDNS false servers ipv6 e2 = Ok {| en_mode := en_mode e2; en_dns := servers; en_ipv6Disabled := negb ipv6 |}) ∧
  e' = {| en_mode := en_mode e; en_dns := servers; en_ipv6Disabled := negb ipv6 |}.
Proof. unfold SetTunnelDNS. destruct (_ <? _)%nat; [done|]. destruct (firstHostname servers); [done|]. destruct live; [done|]. by intros [= <-]. Qed.

Lemma restored_engine w tok rnd broker (file : option Bytes) c : w_readable w = true → newCore Unmarshal w tok rnd broker file = c →
  c_engine c = {| en_mode := modeOf (default noSettings (file ≫= Unmarshal)); en_dns := (dnsOf (default noSettings (file ≫= Unmarshal))).1;
                  en_ipv6Disabled := (dnsOf (default noSettings (file ≫= Unmarshal))).2 |} ∧ c_file c = file.
Proof.
  intros Hw <-. unfold newCore, restoreMode, loadSettings. rewrite Hw. cbn [c_file]. set (s := default noSettings (file ≫= Unmarshal)).
  unfold modeOf, dnsOf. cbn [c_engine SetMode]. destruct (str_eqb (ps_Mode s) "tun"); cbn [c_engine withEngine];
    unfold SetTunnelDNS; destruct (_ <? _)%nat; try done; destruct (firstHostname (ps_DNSServers s)); done.
Qed.

(** What decoding and encoding JSON gives: a text that was decoded is UTF-8, and
    settings of such texts survive a round trip. *)
Definition utf8 (s : string) : Prop := validUTF8 (bytes s) = true.
Definition utf8Settings (s : persistedSettings) : Prop := utf8 (ps_Mode s) ∧ Forall utf8 (ps_DNSServers s).
Record settingsJSON : Prop := {
  js_roundtrip s : utf8Settings s → Unmarshal (Marshal s) = Some s;
  js_settings b s : Unmarshal b = Some s → utf8Settings s;
  js_dns b servers ipv6 : decodeDNS b = Ok (servers, ipv6) → Forall utf8 servers
}.

(** The engine against the file, with what is still to be written. *)
Record settled (s : coreT * list pending) : Prop := {
  st_mode : match List.filter isMode s.2 with
            | [] => en_mode (c_engine s.1) = modeOf (stored s.1)
            | p :: _ => p = KeepMode (en_mode (c_engine s.1))
            end;
  st_dns : match List.filter (λ p, negb (isMode p)) s.2 with
           | [] => (en_dns (c_engine s.1), en_ipv6Disabled (c_engine s.1)) = dnsOf (stored s.1)
           | p :: _ => p = KeepDNS (en_dns (c_engine s.1)) (negb (en_ipv6Disabled (c_engine s.1)))
           end;
  st_keeps : ∀ servers ipv6, KeepDNS servers ipv6 ∈ s.2 →
    Forall utf8 servers ∧ ∀ e, SetTunnelDNS false servers ipv6 e = Ok {| en_mode := en_mode e; en_dns := servers; en_ipv6Disabled := negb ipv6 |};
  st_utf8 : utf8Settings (stored s.1)
}.

Lemma chooseMode_facts w r (c : coreT) : match chooseMode decodeMode w r c with
  | Err (_, c') => c_engine c' = c_engine c ∧ c_file c' = c_file c
  | Ok (m, c') => c_engine c' = {| en_mode := m; en_dns := en_dns (c_engine c); en_ipv6Disabled := en_ipv6Disabled (c_engine c) |} ∧ c_file c' = c_file c
  end.
Proof.
  unfold chooseMode. destruct (negb _); [done|]. destruct (requiredBody _ _ _); [|done]. destruct (if str_eqb _ _ then _ else _); [|done].
  destruct (if bool_decide _ then _ else _); [done|]. unfold SetMode. by destruct (w_live w).
Qed.
Lemma chooseDNS_facts w r (c : coreT) : settingsJSON → match chooseDNS decodeDNS w r c with
  | Err (_, c') => c_engine c' = c_engine c ∧ c_file c' = c_file c
  | Ok (servers, ipv6, c') => c_engine c' = {| en_mode := en_mode (c_engine c); en_dns := servers; en_ipv6Disabled := negb ipv6 |} ∧ c_file c' = c_file c ∧
      Forall utf8 servers ∧ ∀ e, SetTunnelDNS false servers ipv6 e = Ok {| en_mode := en_mode e; en_dns := servers; en_ipv6Disabled := negb ipv6 |}
  end.
Proof.
  intros HJ. unfold chooseDNS. destruct (negb _); [done|]. unfold requiredBody. destruct (decodeDNS _) as [[servers [ipv6|]]|] eqn:Ed; [|done..].
  destruct (SetTunnelDNS _ _ _ _) as [e|] eqn:Es; [|by destruct (strContains _ _)]. apply SetTunnelDNS_ok in Es as (_&He&->).
  split_and!; [done|done|by eapply js_dns|done].
Qed.

(** No other handler touches the settings. *)
Lemma route_settings w r (c : coreT) : settingsPath r = false → c_engine (route' w r c).2 = c_engine c ∧ c_file (route' w r c).2 = c_file c.
Proof.
  intros Hs. apply route_keeps; try done. by rewrite Hs.
Qed.

(** A settled state is one of its engine, its file and what is pending. *)
Lemma settled_same c c' ps : c_engine c' = c_engine c → c_file c' = c_file c → settled (c, ps) → settled (c', ps).
Proof. intros E1 E2 [H1 H2 H3 H4]. unfold stored in *. cbn in *. split; unfold stored; cbn; rewrite ?E1, ?E2; done. Qed.

Lemma one_mode ps i p : (length (List.filter isMode ps) ≤ 1)%nat → ps !! i = Some p → isMode p = true →
  List.filter isMode ps = [p] ∧ List.filter isMode (delete i ps) = [].
Proof.
  intros Hl Hi Hp. pose proof (filter_bool_perm isMode _ _ (delete_Permutation _ _ _ Hi)) as E. cbn in E. rewrite Hp in E.
  assert (Hn : List.filter isMode (delete i ps) = []) by (apply Permutation_length in E; cbn in E; destruct (List.filter isMode (delete i ps)); [done|cbn in E; lia]).
  rewrite Hn in E. split; [by apply Permutation_singleton_r in E|done].
Qed.
Lemma filter_delete (f : pending → bool) ps i p : ps !! i = Some p → f p = false → List.filter f (delete i ps) ≡ₚ List.filter f ps.
Proof. intros Hi Hp. pose proof (filter_bool_perm f _ _ (delete_Permutation _ _ _ Hi)) as E. cbn in E. by rewrite Hp in E. Qed.

Lemma keepMode_stored w m (c : coreT) : settingsJSON → utf8Settings (stored c) → w_readable w = true → w_writable w = true →
  stored (keep (KeepMode m) w c) = {| ps_Mode := ModeString m; ps_DNSServers := ps_DNSServers (stored c); ps_DNSIPv6 := ps_DNSIPv6 (stored c) |} ∧
  c_engine (keep (KeepMode m) w c) = c_engine c.
Proof.
  intros HJ [_ Hu] Hr Hw. unfold keep, modeAnswer, keepMode, saveSettings, loadSettings. rewrite Hr, Hw. cbn. split; [|done].
  unfold stored. cbn. rewrite (js_roundtrip HJ); [done|]. split; cbn; [by destruct m|exact Hu].
Qed.
Lemma keepDNS_stored w servers ipv6 (c : coreT) : settingsJSON → utf8Settings (stored c) → Forall utf8 servers → w_readable w = true → w_writable w = true →
  stored (keep (KeepDNS servers ipv6) w c) = {| ps_Mode := ps_Mode (stored c); ps_DNSServers := servers; ps_DNSIPv6 := Some ipv6 |} ∧
  c_engine (keep (KeepDNS servers ipv6) w c) = c_engine c.
Proof.
  intros HJ [Hm _] Hu Hr Hw. unfold keep, dnsAnswer, keepDNS, saveSettings, loadSettings. rewrite Hr, Hw. cbn. split; [|done].
  unfold stored. cbn. rewrite (js_roundtrip HJ); [done|]. by split.
Qed.

Lemma modeOf_string m servers ipv6 : modeOf {| ps_Mode := ModeString m; ps_DNSServers := servers; ps_DNSIPv6 := ipv6 |} = m.
Proof. by destruct m. Qed.

Lemma filter_snoc {A} (f : A → bool) l x : List.filter f (l ++ [x]) = List.filter f l ++ if f x then [x] else [].
Proof. rewrite List.filter_app. cbn. by destruct (f x). Qed.

Lemma settled_step e s s' : settingsJSON → settled s → oneEach s.2 = true → oneEach s'.2 = true → diskWorks e = true → apiStep e s = Some s' → settled s'.
Proof.
  intros HJ Hs H1 H1' Hd Hstep. destruct s as [c ps]. pose proof Hs as [Hm Hdn Hk Hu]. cbn [fst snd] in *.
  destruct e as [w r|i w|w r]; cbn [apiStep] in Hstep.
  - destruct (str_eqb (r_path r) "/api/mode"); [|destruct (str_eqb (r_path r) "/api/dns"); [|done]]; injection Hstep as <-.
    + pose proof (chooseMode_facts w r c) as H. destruct (chooseMode _ _ _ _) as [[m c']|[resp c']]; [|destruct H as [He Hf]; exact (settled_same c c' ps He Hf Hs)].
      destruct H as [He Hf]. unfold oneEach in H1'. cbn [snd] in H1'. rewrite filter_snoc, length_app in H1'. cbn [isMode length] in H1'.
      assert (Hn : List.filter isMode ps = []) by (destruct (List.filter isMode ps); [done|cbn in H1'; cmp_lia]).
      split; unfold stored in *; cbn [fst snd] in *; rewrite ?He, ?Hf, ?filter_snoc; cbn [isMode negb en_mode en_dns en_ipv6Disabled]; rewrite ?app_nil_r; try done.
      * by rewrite Hn.
      * intros servers ipv6 [Hin|Hin%list_elem_of_singleton]%elem_of_app; [by apply Hk|done].
    + pose proof (chooseDNS_facts w r c HJ) as H. destruct (chooseDNS _ _ _ _) as [[[servers ipv6] c']|[resp c']]; [|destruct H as [He Hf]; exact (settled_same c c' ps He Hf Hs)].
      destruct H as (He&Hf&Hu8&Hok). unfold oneEach in H1'. cbn [snd] in H1'. rewrite !filter_snoc, !length_app in H1'. cbn [isMode negb length] in H1'.
      assert (Hn : List.filter (λ p, negb (isMode p)) ps = []) by (destruct (List.filter (λ p, negb (isMode p)) ps); [done|cbn in H1'; cmp_lia]).
      split; unfold stored in *; cbn [fst snd] in *; rewrite ?He, ?Hf, ?filter_snoc; cbn [isMode negb en_mode en_dns en_ipv6Disabled]; rewrite ?app_nil_r; try done.
      * rewrite Hn. cbn. by rewrite negb_involutive.
      * intros servers' ipv6' [Hin|Hin%list_elem_of_singleton]%elem_of_app; [by apply Hk|by injection Hin as -> ->].
  - apply bind_Some in Hstep as (p & Hi & [= <-]). apply andb_true_iff in Hd as [Hr Hw]. unfold oneEach in H1. apply andb_true_iff in H1 as [Hl1%Nat.leb_le Hl2%Nat.leb_le].
    assert (Hk' : ∀ servers ipv6, KeepDNS servers ipv6 ∈ delete i ps → KeepDNS servers ipv6 ∈ ps) by (intros ?? Hin; rewrite (delete_Permutation _ _ _ Hi); apply elem_of_cons; by right).
    destruct p as [m|servers ipv6].
    + destruct (one_mode ps i _ Hl1 Hi eq_refl) as [E1 E2]. rewrite E1 in Hm. injection Hm as Hm. destruct (keepMode_stored w m c HJ Hu Hr Hw) as [Est Een].
      pose proof (filter_delete (λ p, negb (isMode p)) ps i _ Hi eq_refl) as Ep. split; cbn [fst snd]; rewrite ?Een, ?Est.
      * rewrite E2, modeOf_string. done.
      * destruct (List.filter (λ p, negb (isMode p)) ps) as [|q [|q' qs]]; [|apply Permutation_singleton_r in Ep; by rewrite Ep|cbn in Hl2; lia].
        apply Permutation_nil_r in Ep. by rewrite Ep, Hdn.
      * intros; by apply Hk, Hk'.
      * split; [by destruct m|apply Hu].
    + pose proof (filter_delete isMode ps i _ Hi eq_refl) as Ep.
      assert (E1 : List.filter (λ p, negb (isMode p)) ps = [KeepDNS servers ipv6] ∧ List.filter (λ p, negb (isMode p)) (delete i ps) = []).
      { pose proof (filter_bool_perm (λ p, negb (isMode p)) _ _ (delete_Permutation _ _ _ Hi)) as E. cbn in E.
        assert (Hn : List.filter (λ p, negb (isMode p)) (delete i ps) = []) by (pose proof (Permutation_length E) as EL; cbn [length] in EL; rewrite EL in Hl2; destruct (List.filter _ (delete i ps)); [done|cbn [length] in Hl2; lia]).
        rewrite Hn in E. split; [by apply Permutation_singleton_r in E|done]. }
      destruct E1 as [E1 E2]. rewrite E1 in Hdn. injection Hdn as Hsv Hv. destruct (Hk servers ipv6) as [Hu8 Hok]; [by eapply list_elem_of_lookup_2|].
      destruct (keepDNS_stored w servers ipv6 c HJ Hu Hu8 Hr Hw) as [Est Een]. split; cbn [fst snd]; rewrite ?Een, ?Est.
      * destruct (List.filter isMode ps) as [|q [|q' qs]]; [|apply Permutation_singleton_r in Ep; by rewrite Ep|cbn in Hl1; lia].
        apply Permutation_nil_r in Ep. rewrite Ep. done.
      * rewrite E2. unfold dnsOf. cbn [ps_DNSServers ps_DNSIPv6 default]. rewrite Hok. cbn. by rewrite <- Hsv, Hv, negb_involutive.
      * intros; by apply Hk, Hk'.
      * split; [apply Hu|done].
  - destruct (settingsPath r) eqn:Ep; [done|]. injection Hstep as <-. destruct (route_settings w r c Ep) as [E1 E2]. by eapply settled_same.
Qed.

Lemma settled_run l : ∀ s s', settingsJSON → settled s → disciplined l s = true → apiRun l s = Some s' → settled s'.
Proof.
  induction l as [|e l IH]; intros s s' HJ Hs Hd; cbn; [by intros [= <-]|]. intros (s1&H1&H2)%bind_Some. cbn [disciplined] in Hd.
  apply andb_true_iff in Hd as [Ho Hd]. apply andb_true_iff in Hd as [Hw Hd]. rewrite H1 in Hd.
  apply (IH s1 s'); try done. eapply settled_step; try done. destruct l; cbn in Hd; [by apply andb_true_iff in Hd as [? _]|by apply andb_true_iff in Hd as [? _]].
Qed.

Lemma settled_new w tok rnd broker file : settingsJSON → w_readable w = true → settled (newCore Unmarshal w tok rnd broker file, []).
Proof.
  intros HJ Hw. destruct (restored_engine w tok rnd broker file _ Hw eq_refl) as [He Hf]. split; unfold stored; cbn [fst snd List.filter]; rewrite ?He, ?Hf; cbn.
  - done.
  - by destruct (dnsOf _).
  - by intros ?? ?%elem_of_nil.
  - destruct file as [b|]; cbn; [|by split]. destruct (Unmarshal b) as [s|] eqn:E; [by eapply js_settings|by split].
Qed.

(** C30: the settings survive: after any run of the API in which the disk works
    and no two posts to one endpoint overlap, and whatever else interleaves, a
    core started on the file the run left has the mode and the resolvers the
    engine had.  Two overlapping posts of the mode can leave the file with one
    and the engine with the other. *)
Theorem settings_survive : settingsJSON →
  (∀ w tok rnd broker file l c w' tok' rnd' broker',
     apiRun l (newCore Unmarshal w tok rnd broker file, []) = Some (c, []) →
     disciplined l (newCore Unmarshal w tok rnd broker file, []) = true → w_readable w = true → w_readable w' = true →
     c_engine (newCore Unmarshal w' tok' rnd' broker' (c_file c)) = c_engine c) ∧
  (∀ w r1 r2 c, r_method r1 = "POST"%string → r_method r2 = "POST"%string → r_path r1 = "/api/mode"%string → r_path r2 = "/api/mode"%string →
     requiredBody decodeMode maxBody r1 = Ok "proxy"%string → requiredBody decodeMode maxBody r2 = Ok "tun"%string →
     w_live w = false → w_tunMode w = None → w_readable w = true → w_writable w = true → utf8Settings (stored c) →
     ∃ c', apiRun [ApiChoose w r1; ApiChoose w r2; ApiKeep 1 w; ApiKeep 0 w] (c, []) = Some (c', []) ∧
       en_mode (c_engine c') = ModeTUN ∧ modeOf (stored c') = ModeProxy).
Proof.
  intros HJ. split.
  - intros w tok rnd broker file l c w' tok' rnd' broker' Hrun Hd Hw Hw'.
    destruct (settled_run l _ _ HJ (settled_new w tok rnd broker file HJ Hw) Hd Hrun) as [Hm Hdn _ _]. cbn [fst snd List.filter] in *.
    destruct (restored_engine w' tok' rnd' broker' (c_file c) _ Hw' eq_refl) as [He _]. rewrite He. unfold stored in *. rewrite <- Hm, <- Hdn. cbn. by destruct (c_engine c).
  - intros w r1 r2 c M1 M2 P1 P2 B1 B2 Hl Ht Hr Hw Hu.
    assert (H1 : ∀ c : coreT, chooseMode decodeMode w r1 c = Ok (ModeProxy, withEngine {| en_mode := ModeProxy; en_dns := en_dns (c_engine c); en_ipv6Disabled := en_ipv6Disabled (c_engine c) |} c)).
    { intros c0. unfold chooseMode, SetMode. by rewrite M1, B1, Hl. }
    assert (H2 : ∀ c : coreT, chooseMode decodeMode w r2 c = Ok (ModeTUN, withEngine {| en_mode := ModeTUN; en_dns := en_dns (c_engine c); en_ipv6Disabled := en_ipv6Disabled (c_engine c) |} c)).
    { intros c0. unfold chooseMode, SetMode. by rewrite M2, B2, Ht, Hl. }
    unfold apiRun, apiStep. rewrite P1, P2. change (str_eqb "/api/mode" "/api/mode") with true. cbn [mbind option_bind]. rewrite H1. cbn [mbind option_bind app]. rewrite H2.
    cbn [app lookup list_lookup mbind option_bind delete list_delete].
    set (c2 := withEngine _ (withEngine _ c)).
    destruct (keepMode_stored w ModeTUN c2 HJ Hu Hr Hw) as [S1 E1].
    assert (Hu1 : utf8Settings (stored (keep (KeepMode ModeTUN) w c2))) by (rewrite S1; split; [done|apply Hu]).
    destruct (keepMode_stored w ModeProxy (keep (KeepMode ModeTUN) w c2) HJ Hu1 Hr Hw) as [S2 E2].
    eexists. split; [reflexivity|]. cbn [keep] in *. rewrite E2, E1, S2. split; [done|]. apply modeOf_string.
Qed.

(** C34: a post of resolvers is accepted exactly for at most four IP literals
    while no connection is live, and then they are the engine's; a refusal
    changes neither engine nor file, and is 400 for bad resolvers and 409 for a
    live connection, except that a host name whose text brings the words the
    handler looks for in the error is answered 409, "connected", by an idle
    core. *)
Theorem dns_answers w r c servers ipv6 : r_method r = "POST"%string → requiredBody decodeDNS maxBody r = Ok (servers, Some ipv6) →
  let '(resp, c') := handleDns Marshal Unmarshal decodeDNS w r c in
  (rs_status resp = 200 ↔ (length servers ≤ maxTunnelDNSServers)%nat ∧ firstHostname servers = None ∧ w_live w = false) ∧
  (rs_status resp = 200 → TunnelDNS (c_engine c') = (servers, ipv6) ∧ en_mode (c_engine c') = en_mode (c_engine c)) ∧
  (rs_status resp ≠ 200 → c_engine c' = c_engine c ∧ c_file c' = c_file c) ∧
  (rs_status resp = 409 ↔ (length servers ≤ maxTunnelDNSServers)%nat ∧
     match firstHostname servers with None => w_live w = true | Some s => strContains (notLiteral s) "disconnect before" = true end) ∧
  (rs_status resp ∈ [200; 400; 409]) ∧
  (servers = ["disconnect before"%string] → w_live w = false → resp = writeError 409 "connected" (notLiteral "disconnect before")).
Proof.
  intros Hm Hb. unfold handleDns, chooseDNS. rewrite Hm, Hb. cbn [str_eqb negb]. unfold SetTunnelDNS.
  unfold maxTunnelDNSServers. destruct (Nat.ltb_spec 4 (length servers)) as [Hl|Hl]; [|destruct (firstHostname servers) as [s|] eqn:Ef; [|destruct (w_live w) eqn:Elive]].
  - change (strContains "too many DNS servers" "disconnect before") with false. cbn.
    split_and!; try done; [split; [done|intros (?&_); lia]|split; [done|intros (?&_); lia]|right; left|]. intros ->. cbn in Hl. lia.
  - destruct (strContains (notLiteral s) "disconnect before") eqn:Ec; cbn; split_and!; try done; try (split; (done || intros (_&?&?); done)); try (by repeat constructor).
    + intros ->. cbn in Ef. by injection Ef as <-.
    + split; [done|by intros [_ ?]].
    + intros -> _. cbn in Ef. injection Ef as <-. by vm_compute in Ec.
  - change (strContains "disconnect before changing the tunnel DNS" "disconnect before") with true. cbn. split_and!; try done; try (split; (done || intros (_&?&?); done)); try (by repeat constructor).
  - unfold dnsAnswer, keepDNS, saveSettings. unfold TunnelDNS. destruct (w_writable w); cbn; rewrite ?negb_involutive; split_and!; try done; try (by split; [|intros [_ ?]]); try (by left);
      try (intros Es; rewrite Es in Ef; by cbn in Ef); intros _; (split; [exact (f_equal (pair servers) (negb_involutive ipv6))|done]).
Qed.
End settings.

(** * Instances *)
(** Settings are their own encoding; bodies are texts, a resolver body is one
    server. *)
Definition encodeSettings (s : persistedSettings) : persistedSettings := s.
Definition decodeSettings (s : persistedSettings) : option persistedSettings :=
  if validUTF8 (bytes (ps_Mode s)) && forallb (λ x, validUTF8 (bytes x)) (ps_DNSServers s) then Some s else None.
Definition textBody (b : list byte) : result string string := if validUTF8 b then Ok (text b) else Err "invalid"%string.
Definition connectBody (b : list byte) : result string (string * string * string) := Ok (""%string, text b, ""%string).
Definition dnsBody (b : list byte) : result string (list string * option bool) :=
  if validUTF8 b then Ok ([text b], Some false) else Err "invalid"%string.
Definition flagBody (b : list byte) : result string bool := Ok true.
Definition tcpingBody (b : list byte) : result string (list string * Z) := Ok ([], 3).

Definition calm (now : Z) : world :=
  {| w_now := now; w_status := StatusDisconnected; w_live := false; w_relayLabel := None; w_lastError := None; w_tunMode := None; w_tunConflict := None;
     w_connect := None; w_disconnect := None; w_port := Some 17890; w_active := None; w_proxy := None; w_relays := Ok 3%nat; w_tcping := Ok 3%nat;
     w_delay := Ok 42; w_readable := true; w_writable := true |}.
Definition post (token path body : string) : request :=
  {| r_token := token; r_method := "POST"; r_path := path; r_body := Some (bytes body); r_query := λ _, ""%string |}.

Definition exampleCore : @core persistedSettings := newCore decodeSettings (calm 0) "" [chr 1; chr 171] "" None.
Definition exampleToken : string := "01ab".

Lemma exampleJSON : settingsJSON encodeSettings decodeSettings dnsBody.
Proof.
  split.
  - intros s [Hm Hs]. unfold encodeSettings, decodeSettings, utf8 in *. rewrite Hm. cbn. assert (forallb (λ x, validUTF8 (bytes x)) (ps_DNSServers s) = true) as ->; [|done].
    apply forallb_forall. intros x Hx%list_elem_of_In. rewrite Forall_forall in Hs. by apply Hs.
  - intros b s. unfold decodeSettings. destruct (_ && _) eqn:E; [|done]. intros [= <-]. apply andb_true_iff in E as [Hm Hs]. split; [done|].
    apply Forall_forall. intros x Hx. rewrite forallb_forall in Hs. by apply Hs, list_elem_of_In.
  - intros b servers ipv6. unfold dnsBody. destruct (validUTF8 b) eqn:E; [|done]. intros [= <- <-]. repeat constructor. unfold utf8. by rewrite bytes_text.
Qed.

(** A stranger, a heartbeat, a guess at the token. *)
Definition exampleRequests : list (world * request) :=
  [(calm 10, post "" "/api/shutdown" ""); (calm 20, post exampleToken "/api/heartbeat" ""); (calm 30, post "01aB" "/api/mode" "tun")].
#[local] Notation serveExample := (serveAll encodeSettings decodeSettings connectBody textBody dnsBody flagBody tcpingBody textBody "not connected").

Lemma token_gate_witness :
  let '(resps, c) := serveExample exampleRequests exampleCore in
  let '(served, c') := serveExample (List.filter (λ wr, authorized exampleCore wr.2) exampleRequests) exampleCore in
  c = c' ∧ resps = interleaved exampleCore exampleRequests served ∧ watchdogTick 15 36 c = true.
Proof.
  assert (Hr : [chr 1; chr 171] ≠ []) by discriminate.
  pose proof (token_gate encodeSettings decodeSettings connectBody textBody dnsBody flagBody tcpingBody textBody "not connected" (calm 0) "" [chr 1; chr 171] "" None
    exampleRequests 15 36 Hr) as H.
  cbv zeta in H. fold exampleCore in H. destruct (serveExample exampleRequests exampleCore) as [resps c].
  destruct (serveExample (List.filter _ exampleRequests) exampleCore) as [served c']. destruct H as (H1&H2&H3&_). split; [exact H1|split; [exact H2|]].
  rewrite H3. vm_compute. reflexivity.
Defined.

(** The mode and a resolver are posted, their writes interleave. *)
Definition exampleRun : list apiEvent :=
  [ApiChoose (calm 1) (post exampleToken "/api/mode" "tun"); ApiChoose (calm 2) (post exampleToken "/api/dns" "9.9.9.9"); ApiKeep 1 (calm 3); ApiKeep 0 (calm 4)].
#[local] Notation runExample := (apiRun encodeSettings decodeSettings connectBody textBody dnsBody flagBody tcpingBody textBody "not connected").
Definition exampleEnd : @core persistedSettings := match runExample exampleRun (exampleCore, []) with Some (c, _) => c | None => exampleCore end.

Lemma settings_survive_witness : c_engine exampleEnd = {| en_mode := ModeTUN; en_dns := ["9.9.9.9"%string]; en_ipv6Disabled := true |} ∧
  c_engine (newCore decodeSettings (calm 9) "" [chr 7] "" (c_file exampleEnd)) = c_engine exampleEnd.
Proof.
  assert (H1 : runExample exampleRun (exampleCore, []) = Some (exampleEnd, [])) by (vm_compute; reflexivity).
  assert (H2 : disciplined encodeSettings decodeSettings connectBody textBody dnsBody flagBody tcpingBody textBody "not connected" exampleRun (exampleCore, []) = true)
    by (vm_compute; reflexivity).
  split; [vm_compute; reflexivity|].
  exact (proj1 (settings_survive encodeSettings decodeSettings connectBody textBody dnsBody flagBody tcpingBody textBody "not connected" exampleJSON)
    (calm 0) ""%string [chr 1; chr 171] ""%string None exampleRun exampleEnd (calm 9) ""%string [chr 7] ""%string H1 H2 eq_refl eq_refl).
Defined.

Lemma dns_answers_witness : (handleDns encodeSettings decodeSettings dnsBody (calm 1) (post exampleToken "/api/dns" "disconnect before") exampleCore).1 =
  writeError 409 "connected" (notLiteral "disconnect before").
Proof.
  set (r := post exampleToken "/api/dns" "disconnect before").
  assert (Hb : requiredBody dnsBody maxBody r = Ok (["disconnect before"%string], Some false)) by (vm_compute; reflexivity).
  pose proof (dns_answers encodeSettings decodeSettings dnsBody (calm 1) r exampleCore ["disconnect before"%string] false eq_refl Hb) as H.
  destruct (handleDns _ _ _ _ _ _) as [resp c]. destruct H as (_&_&_&_&_&H). exact (H eq_refl eq_refl).
Defined.

(** Two physical adapters and the core's own tunnel. *)
Definition wifi : netAdapter :=
  {| na_name := "Wi-Fi"; na_desc := "Wireless"; na_ifType := 71; na_up := true; na_metric := 35; na_addrs := ["192.168.1.7"%string]; na_gateways := ["192.168.1.1"%string] |}.
Definition ethernet : netAdapter :=
  {| na_name := "Ethernet"; na_desc := "Gigabit"; na_ifType := 6; na_up := true; na_metric := 25; na_addrs := ["169.254.3.4"%string]; na_gateways := [] |}.
Definition ownTun : netAdapter :=
  {| na_name := "tun0"; na_desc := "Wintun Userspace Tunnel"; na_ifType := 53; na_up := true; na_metric := 5; na_addrs := ["172.19.0.1"%string]; na_gateways := ["0.0.0.0"%string] |}.

#[local] Existing Instance insertionGoSort.
Lemma network_state_witness :
  physicalNetworkState (λ s, s) [ethernet; ownTun; wifi] = physicalNetworkState (λ s, s) [wifi; ethernet; ownTun] ∧
  ns_Up (physicalNetworkState (λ s, s) [ethernet; ownTun; wifi]) = true.
Proof.
  assert (Hp : [ethernet; ownTun; wifi] ≡ₚ [wifi; ethernet; ownTun]) by (symmetry; apply (Permutation_cons_append [ethernet; ownTun] wifi)).
  assert (Hn : NoDup (na_name <$> [ethernet; ownTun; wifi])) by (vm_compute; repeat constructor; set_solver).
  destruct (network_state (λ s, s) [ethernet; ownTun; wifi] [wifi; ethernet; ownTun] Hp Hn) as (H1&_&H3&_).
  split; [exact H1|]. apply H3. exists wifi. split; [set_solver|vm_compute; reflexivity].
Defined.
